(* ===== verification/_CoqProject ===== *)
-Q . S2P
Prelude.v
Enums.v
Limits.v
ByteOrder.v
Geometry.v
Text.v
Protocol.v
ProtocolSafety.v
ProtocolRoundtrip.v
Dispatch.v
DataPlane.v
SessionIds.v
Offer.v
CreditWindow.v
PinnedLedger.v
Config.v
ClientSession.v
BoundedQueue.v
QueueConcurrency.v
DeliveryQueue.v
DeliveryBarrier.v
LeasePool.v
FrameView.v
SubscriberEngine.v
EngineSafety.v
RegisteredRing.v
RegisteredMoves.v
ProducerSlots.v
Publisher.v
Coordination.v
PublisherSafety.v
PublisherRuns.v
ControlPath.v
Leases.v
Subscription.v
SubscriptionSafety.v
SubscriptionRuns.v
SubscriptionShutdown.v
Handshake.v
TangoDevice.v
TangoClient.v
EngineTeardown.v
UcxSetup.v
SubscriberSetup.v
Locality.v
Hdf5Shards.v
Hdf5Writer.v
Hdf5Acquire.v
Hdf5Source.v
Hdf5Replay.v
ExampleDevices.v
Handles.v
WriterProcess.v
Hdf5Handles.v
BenchChannel.v
BenchSockets.v
BenchPattern.v
BenchHarness.v
Consumers.v
Pacing.v
