(* ===== verification/Prelude.v ===== *)
(** * tango-bulk: a verification of the bulk-frame transport

    tango-bulk moves large frames from a publisher (a Tango device) to its
    subscribers over UCX, with Tango commands for coordination.  A publisher
    keeps a ring of registered slots and a credit window per session; a
    subscriber opens a session, receives frames into a registered ring of its
    own, hands them to the application as reference-counted views through a
    bounded delivery queue, and returns a credit when the last view of a frame
    is dropped.  The sources are under [src/src] and [src/include/tango-bulk].

    ** What models what

    - [Prelude]: unsigned integers of width [w] as [Z] with [wrap w]; [outcome],
      which keeps reported failures ([Err]) apart from accesses outside a buffer
      ([Fault]); bytes, slices, tactics and the hint database [bulk].
    - [Enums], [Limits]: [enums.cpp], [errors.h/.cpp], the enumerations of
      [frame.h], [protocol.h], [publisher.h], [subscriber.h]; [limits.h] and the
      constants of [protocol.h].
    - [ByteOrder]: [byte_order.h], little-endian accessors on a bounded buffer and
      the overflow-checked products and sums.
    - [Geometry]: the shape rules, [GeometryBlock], [Geometry], [FrameMetadata]
      and [resolve] of [geometry.cpp].  [Text], [Offer]: the text row a device
      publishes for discovery, same file.
    - [Protocol]: the envelope and the seven coordination messages of
      [protocol.cpp]; [ProtocolSafety] and [ProtocolRoundtrip] are its theorems.
      [DataPlane]: frame headers, credits, probes and their theorems.
    - [CreditWindow]: [credit_window.h/.cpp], both ends, and a link that composes
      them over a channel that loses, repeats and reorders.
    - [PinnedLedger]: [pinned_ledger.h/.cpp].  [Config]: [config.cpp].
    - [BoundedQueue]: [bounded_queue.h] run by one thread; [QueueConcurrency] the
      same turns interleaved by any number of threads.
    - [DeliveryQueue]: [delivery_queue.h/.cpp] over the interface [BoundedFifo],
      which [BoundedQueue] implements; [DeliveryBarrier] interleaves its pushes,
      its termination and its reads.
    - [FrameView]: [frame_view.cpp], [receive_slot.h], [frame_fields.h]: views,
      leases and the class [CreditSink].  [LeasePool]: [lease_pool.h/.cpp].
    - [SubscriberEngine]: [subscriber_engine.h/.cpp], an implementation of
      [CreditSink] and a client of [DataPlane], [CreditWindow] and [BoundedFifo];
      [EngineSafety] is its invariant and its theorems, [EngineTeardown] its end.
    - [RegisteredRing]: [registered_memory] and [registered_ring], with the answers
      of UCX as arguments; [RegisteredMoves] moves registered memory between objects.
      [ProducerSlots]: [producer_slots.h] and the handles.
    - [Publisher]: the engine side of [publisher_impl.cpp] (sessions, fan-out,
      completions, credits, probes, expiry, teardown) and [publish];
      [PublisherSafety] is the invariant on slots, [PublisherRuns] interleaves
      application threads, command threads and the engine; an [Open] is two steps, and
      any number may be between them.
    - [UcxSetup]: [ucx_context.cpp], the construction and destruction of a publisher, the
      schedule of its engine loop.  [SubscriberSetup]: the construction of a receive engine
      and who keeps its memory.  [Locality]: [locality.cpp], [cpu_topology.cpp].
    - [Coordination]: its [Open], [Renew] and [Close] handlers, the encoded boundary
      and the hand-over of endpoint creation.  [ControlPath] says what a client
      reads back, [Leases] what the handlers do to seats and leases; [Dispatch] has
      what both ends need of the envelope.
    - [SessionIds]: [session_id.cpp], identifiers and their texts.
    - [ClientSession], [Subscription]: [subscription.cpp], the session messages and
      the subscription: opening, probing, renewing, reconnecting, closing, reading.
      The control thread is a machine whose steps end where the source waits, looks at
      [running] or opens a session by a command.  [SubscriptionSafety] is its invariant under any
      interleaving, [SubscriptionRuns] the theorems on whole runs, [SubscriptionShutdown]
      the waits when several threads close it.
    - [Handshake]: client and publisher joined by the bytes of one [Open].
    - [TangoDevice]: [registration.cpp] with its reader/writer lock, [commands.cpp] and the
      publisher's snapshots.  [TangoClient]: [proxy_client.cpp], over the interface
      [DeviceProxy]; [ConnectedProxy] has the laws of a proxy connected to a device, and
      [LocalProxy] meets them.
    - [Hdf5Shards], [Hdf5Writer], [Hdf5Acquire]: [example_hdf5_client.cpp], a client that
      writes a stream to HDF5 shards: its command line and the placement of blocks, the
      writer processes over the interface [Hdf5], and the acquisition from the first
      frame to the master file.
    - [Hdf5Source], [Hdf5Replay]: [example_hdf5_device.cpp], a device that replays a
      dataset: its configuration and reader, then its threads as a machine.
    - [ExampleDevices]: [example_device.cpp] and [example_preview.cpp].  [Pacing]: the pace
      of the devices and the metrics of the replay device.  [Consumers]: the two clients
      that count frames.
    - [Handles]: a monad and its rules for descriptors, children, mappings and HDF5 objects,
      with three clients: [WriterProcess], the receive ring and the writer processes of the
      HDF5 client; [Hdf5Handles], the HDF5 objects it opens; [BenchSockets].
    - [BenchChannel], [BenchSockets]: [oob.h], the benchmark's coordination channel, its bytes
      and its sockets.  [BenchPattern], [BenchHarness]: [bulk_bench.cpp], the payload and its
      check, the options and the two roles.

    ** What the theorems show

    - Memory safety: no decoder reads outside the bytes it was given; an accepted
      frame only describes elements inside its payload; the receive engine keeps
      every write inside a slot that nobody holds, against any publisher.
    - Codecs: what is well formed is encoded and decodes to itself; what decodes
      is well formed; a newer minor version is tolerated.
    - Flow control: the window is never exceeded, a slot is never reused while
      its frame is held, a closed window always has a credit to come that opens it; each
      lease returns its credit exactly once.
    - Queues: a ring of two cells or more is a FIFO under any interleaving; every frame offered to
      the delivery queue is accounted for; what is reported after an end is what
      the policy says.
    - Resources: the pinned total is the sum of the reservations and within the
      limit; plans fit the budget; the lease pool loses no block.
    - Publisher: in every interleaving each producer slot is free, leased, queued
      or referenced, with an exact count, and all come back, but for an [Open] that claims a
      seat another has filled meanwhile, of which a theorem says what it loses; every message gets an
      answer the client can decode; leases are granted and renewed as specified; its
      construction is all or nothing, whatever UCX answers.
    - Subscription: no run faults, stale transports deliver nothing, an end is
      always told to readers; once stopped the control thread ends in three turns, and those
      of an opening it is in; a reconnect is bounded, if its delay is not zero, and keeps the
      array; every thread that closes it returns.
    - Composition: after an [Open] both ends hold the same session; the Tango
      binding is transparent; what a device publishes is what a client discovers; a
      publisher outlives the commands inside it.
    - Ownership: a receive engine is constructed all or nothing, and its ring outlives every
      lease and a quarantined worker; registered regions are released once, however they
      are moved; the HDF5 client closes what it opens and waits for its children.
    - Programs: the HDF5 client's master file shows exactly what was received; its writers
      never leave the shared ring; the replay device publishes its dataset in order under
      any interleaving, with metadata the library accepts, at no more than its rate; the
      benchmark finds exactly the frames that were damaged, over a channel that carries
      every message intact.
    - Divergences: the theorems whose comment says so show inputs or
      interleavings on which the code departs from its comments, or fails.

    ** Bounds and fuel

    Widths are those of the source.  A loop with fuel has a theorem that the fuel
    is enough ([advance_loop] runs at most [held_ahead] turns, [pop_all] and
    [drain_loop] the size of the queue, a ring operation one turn when nobody
    interferes, [submit_loop] its 32 frames, [establish_loop] the configured
    attempts) or that none is (the one-cell ring).  A wait whose length the
    environment decides (a probe, a blocked read) is a list of what it meets, and
    the result says when it is still waiting; the control thread needs no fuel, its
    termination is a theorem on runs.  Ring positions are 64-bit
    and compared as signed, so the queue theorems ask for fewer than [2 ^ 63]
    operations; sequences never wrap, as the source assumes.  Atomic accesses are
    sequentially consistent except where [DeliveryBarrier] buffers a store.

    ** What is not modelled

    UCX, the operating system and Tango are arguments of the handlers that call
    them, with what is assumed of them in the statement.  Not modelled: failures to create
    a thread and memory exhaustion, the conversion of bytes to CORBA types and the class
    tables of Tango, what the programs print (rates, percentiles, usage), signals, the
    CUDA runtime, and the scripts of the benchmark.  [session.cpp] and [ucx_support.cpp]
    hold a default argument and two version numbers.  The numbers of descriptors and
    children come from a parameter that never hands out one in use. *)
From stdpp Require Export base tactics list numbers option.
From Stdlib Require Export ZArith Lia.
From Stdlib Require Import Strings.Byte.
From Stdlib Require Strings.String.
Export (notations) Strings.String.

#[global] Open Scope Z_scope.

(** ** Machine-width unsigned integers *)

(** An unsigned C++ integer of width [w] is a [Z] in [0, 2^w); [wrap w] is the
    conversion every arithmetic result goes through. *)
Definition wrap (w z : Z) : Z := z mod 2 ^ w.

Definition in_range (w z : Z) : Prop := 0 <= z < 2 ^ w.

Abbreviation u8 := (wrap 8).
Abbreviation u16 := (wrap 16).
Abbreviation u32 := (wrap 32).
Abbreviation u64 := (wrap 64).

#[export] Instance in_range_dec w z : Decision (in_range w z).
Proof. unfold in_range. apply _. Defined.

Lemma wrap_small w z : in_range w z -> wrap w z = z.
Proof. unfold wrap, in_range. intros ?. by apply Z.mod_small. Qed.

Lemma wrap_in_range w z : 0 <= w -> in_range w (wrap w z).
Proof. intros. unfold wrap, in_range. apply Z.mod_pos_bound. lia. Qed.

Lemma in_range_mono w w' z : 0 <= w <= w' -> in_range w z -> in_range w' z.
Proof.
  unfold in_range. intros ? [? ?]. split; [done|].
  pose proof (Z.pow_le_mono_r 2 w w'). lia.
Qed.

(** Two numbers of one window of [depth] with the same residue are equal: the
    argument behind every ring indexed by a sequence number. *)
Lemma mod_window depth e s x :
  0 < depth -> e <= s < e + depth -> e <= x < e + depth -> s mod depth = x mod depth -> s = x.
Proof.
  intros Hd Hs Hx Hm.
  pose proof (Z.div_mod s depth ltac:(lia)). pose proof (Z.div_mod x depth ltac:(lia)).
  assert (depth * (s / depth - x / depth) = s - x) by lia.
  assert (s / depth - x / depth = 0); [|lia]. nia.
Qed.

(** ** Outcomes: values, reported failures, memory faults *)

(** [Err e] is a failure the code reports: a status returned or an exception
    thrown.  [Fault] is what the code must never do: an access outside the
    buffer it was given.  Keeping the two apart makes memory safety a theorem
    about the decoders rather than an assumption of the model. *)
Inductive outcome (E A : Type) : Type :=
| Val (a : A)
| Err (e : E)
| Fault.
Arguments Val {E A} a.
Arguments Err {E A} e.
Arguments Fault {E A}.

#[export] Instance outcome_eq_dec {E A} `{EqDecision E} `{EqDecision A} :
  EqDecision (outcome E A).
Proof. solve_decision. Defined.

Definition outcome_bind {E A B} (m : outcome E A) (k : A -> outcome E B) : outcome E B :=
  match m with
  | Val a => k a
  | Err e => Err e
  | Fault => Fault
  end.

Declare Scope bulk_scope.
Delimit Scope bulk_scope with bulk.
#[global] Open Scope bulk_scope.

Notation "'let!' x ':=' m 'in' k" := (outcome_bind m (fun x => k))
  (at level 10, x pattern, m at level 100, k at level 200,
   format "'[v' 'let!'  x  ':='  m  'in' '/' k ']'") : bulk_scope.
Notation "'guard!' c 'else' e 'in' k" := (if c then k else Err e)
  (at level 10, c at level 100, e at level 100, k at level 200,
   format "'[v' 'guard!'  c  'else'  e  'in' '/' k ']'") : bulk_scope.

Definition safe {E A} (m : outcome E A) : Prop := m <> Fault.

Lemma safe_val {E A} (a : A) : safe (E := E) (Val a).
Proof. discriminate. Qed.
Lemma safe_err {E A} (e : E) : safe (A := A) (Err e).
Proof. discriminate. Qed.
Lemma safe_bind {E A B} (m : outcome E A) (k : A -> outcome E B) :
  safe m -> (forall a, m = Val a -> safe (k a)) -> safe (outcome_bind m k).
Proof. unfold safe. destruct m; simpl; naive_solver. Qed.
Lemma safe_guard {E A} (c : bool) (e : E) (k : outcome E A) :
  (c = true -> safe k) -> safe (if c then k else Err e).
Proof. destruct c; auto using safe_err. Qed.
Lemma bind_val {E A B} (a : A) (k : A -> outcome E B) : outcome_bind (Val a) k = k a.
Proof. done. Qed.
Lemma bind_val_inv {E A B} (m : outcome E A) (k : A -> outcome E B) b :
  outcome_bind m k = Val b -> exists a, m = Val a /\ k a = Val b.
Proof. destruct m; naive_solver. Qed.
Lemma guard_val_inv {E A} (c : bool) (e : E) (k : outcome E A) a :
  (if c then k else Err e) = Val a -> c = true /\ k = Val a.
Proof. by destruct c. Qed.

Create HintDb bulk discriminated.
#[export] Hint Resolve safe_val safe_err : bulk.

(** ** Bytes *)

Abbreviation byte := Byte.byte.
Abbreviation bytes := (list Byte.byte).

Definition Z_of_byte (b : byte) : Z := Z.of_N (Byte.to_N b).
(** [static_cast<std::byte>(value & 0xFFu)]. *)
Definition byte_of_Z (z : Z) : byte := default x00 (Byte.of_N (Z.to_N (wrap 8 z))).

#[export] Instance byte_eq_dec : EqDecision byte := Byte.byte_eq_dec.

Lemma Z_of_byte_range b : in_range 8 (Z_of_byte b).
Proof. unfold in_range, Z_of_byte. pose proof (Byte.to_N_bounded b). lia. Qed.

Lemma Z_of_byte_of_Z z : Z_of_byte (byte_of_Z z) = wrap 8 z.
Proof.
  unfold Z_of_byte, byte_of_Z. pose proof (wrap_in_range 8 z ltac:(lia)) as Hr.
  unfold in_range in Hr.
  destruct (Byte.of_N (Z.to_N (wrap 8 z))) as [b|] eqn:Hb; simpl.
  - apply Byte.to_of_N in Hb. rewrite Hb. lia.
  - apply Byte.of_N_None_iff in Hb. lia.
Qed.

Lemma byte_of_Z_of_byte b : byte_of_Z (Z_of_byte b) = b.
Proof.
  unfold byte_of_Z. rewrite wrap_small by apply Z_of_byte_range.
  unfold Z_of_byte. rewrite N2Z.id, Byte.of_to_N. done.
Qed.

Lemma Z_of_byte_inj b c : Z_of_byte b = Z_of_byte c -> b = c.
Proof. intros H. by rewrite <-(byte_of_Z_of_byte b), H, byte_of_Z_of_byte. Qed.

(** [std::string] is a byte list; a literal is written with [str]. *)
Definition str (s : String.string) : bytes := String.list_byte_of_string s.
Arguments str s%_string.

(** ** Sub-ranges of a buffer *)

Definition slice {A} (l : list A) (p n : nat) : list A := take n (drop p l).
Definition write {A} (l : list A) (p : nat) (x : list A) : list A :=
  take p l ++ x ++ drop (p + length x) l.

Section Slices.
Context {A : Type}.
Implicit Types l x : list A.

Lemma length_slice l p n : (p + n <= length l)%nat -> length (slice l p n) = n.
Proof. unfold slice. rewrite length_take, length_drop. lia. Qed.

Lemma length_write l p x :
  (p + length x <= length l)%nat -> length (write l p x) = length l.
Proof. unfold write. rewrite !length_app, length_take, length_drop. lia. Qed.

Lemma slice_write_same l p x n :
  n = length x -> (p + n <= length l)%nat -> slice (write l p x) p n = x.
Proof.
  intros -> ?. unfold slice, write.
  rewrite drop_app_length' by (rewrite length_take; lia).
  by rewrite take_app_length.
Qed.

Lemma lookup_write_outside l p x i :
  (p + length x <= length l)%nat -> (i < p \/ p + length x <= i)%nat ->
  write l p x !! i = l !! i.
Proof.
  intros ? [?|?]; unfold write.
  - rewrite lookup_app_l by (rewrite length_take; lia). by rewrite lookup_take_lt.
  - rewrite lookup_app_r by (rewrite length_take; lia).
    rewrite lookup_app_r by (rewrite length_take; lia).
    rewrite lookup_drop, length_take. f_equal. lia.
Qed.

Lemma lookup_write_inside l p x i :
  (p + length x <= length l)%nat -> (p <= i < p + length x)%nat ->
  write l p x !! i = x !! (i - p)%nat.
Proof.
  intros ? [? ?]. unfold write.
  rewrite lookup_app_r by (rewrite length_take; lia).
  rewrite length_take, Nat.min_l by lia. rewrite lookup_app_l by lia. done.
Qed.

Lemma slice_write_other l p x q n :
  (p + length x <= length l)%nat -> (q + n <= p \/ p + length x <= q)%nat ->
  slice (write l p x) q n = slice l q n.
Proof.
  intros ? ?. apply list_eq. intros i. unfold slice.
  destruct (decide (i < n)%nat).
  - rewrite !lookup_take_lt, !lookup_drop by lia.
    apply lookup_write_outside; lia.
  - rewrite !lookup_take_ge by lia. done.
Qed.

Lemma drop_write_before l p x n :
  (p + length x <= length l)%nat -> (n <= p)%nat ->
  drop n (write l p x) = write (drop n l) (p - n) x.
Proof.
  intros. apply list_eq. intros i. rewrite lookup_drop.
  assert (p - n + length x <= length (drop n l))%nat by (rewrite length_drop; lia).
  destruct (decide (p <= n + i < p + length x)%nat).
  - rewrite !lookup_write_inside by lia. f_equal. lia.
  - rewrite !lookup_write_outside by lia. by rewrite lookup_drop.
Qed.

Lemma drop_write_after l p x n :
  (p + length x <= length l)%nat -> (p + length x <= n)%nat ->
  drop n (write l p x) = drop n l.
Proof.
  intros. apply list_eq. intros i. rewrite !lookup_drop.
  apply lookup_write_outside; lia.
Qed.

Lemma slice_drop l p q n : slice (drop p l) q n = slice l (p + q) n.
Proof. unfold slice. by rewrite drop_drop. Qed.

Lemma slice_all l n : length l = n -> slice l 0 n = l.
Proof. intros <-. unfold slice. by rewrite drop_0, firstn_all. Qed.
End Slices.

(** ** Boolean tests as propositions *)

Ltac bool_to_prop :=
  repeat match goal with
  | H : _ && _ = true |- _ => apply andb_true_iff in H as [? ?]
  | H : _ || _ = false |- _ => apply orb_false_iff in H as [? ?]
  | H : negb _ = true |- _ => apply negb_true_iff in H
  | H : negb _ = false |- _ => apply negb_false_iff in H
  | H : bool_decide _ = true |- _ => apply bool_decide_eq_true in H
  | H : bool_decide _ = false |- _ => apply bool_decide_eq_false in H
  | H : (_ <? _) = true |- _ => apply Z.ltb_lt in H
  | H : (_ <? _) = false |- _ => apply Z.ltb_ge in H
  | H : (_ <=? _) = true |- _ => apply Z.leb_le in H
  | H : (_ <=? _) = false |- _ => apply Z.leb_gt in H
  | H : (_ =? _) = true |- _ => apply Z.eqb_eq in H
  | H : (_ =? _) = false |- _ => apply Z.eqb_neq in H
  end.

(** Case analysis on the first test of a guarded computation. *)
Ltac guard_step :=
  match goal with
  | |- context [if ?c then _ else _] => destruct c eqn:?
  | H : context [if ?c then _ else _] |- _ => destruct c eqn:?
  end.

Ltac split_guards := repeat (guard_step; try discriminate; simplify_eq/=); bool_to_prop.

(** Take a goal of conjunctions and implications apart, without unfolding it. *)
Ltac split_all :=
  repeat match goal with
  | |- _ /\ _ => split
  | |- _ -> _ => intros ?
  end.
