(* ===== verification/Enums.v ===== *)
(** * Enumerations and error values

    The scoped enumerations of [errors.h], [frame.h], [protocol.h],
    [publisher.h] and [subscriber.h], the [to_string] functions of
    [errors.cpp], [enums.cpp] and [protocol.cpp], and [BulkError].

    A C++ scoped enumeration with a fixed underlying type holds every value of
    that type, and the decoders rely on it: a status from a newer minor version
    is kept, not rejected.  Each type therefore has the source's constructors
    and one more, [<Enum>_other raw], for a value the source does not name.
    [WireEnum] is what the codecs need from such a type. *)
From S2P Require Import Prelude.

(** The wire value of an enumeration: [raw] is [static_cast] to the underlying
    type, [of_raw] the cast back. *)
Class WireEnum (E : Type) := {
  raw : E -> Z;
  of_raw : Z -> E;
  raw_of_raw z : raw (of_raw z) = z
}.

(** A value the C++ type can hold, in canonical form. *)
Definition enum_ok {E} `{WireEnum E} (w : Z) (e : E) : Prop :=
  in_range w (raw e) /\ of_raw (raw e) = e.

Lemma enum_ok_of_raw {E} `{WireEnum E} w z : in_range w z -> enum_ok w (of_raw z : E).
Proof. intros Hz. split; rewrite raw_of_raw; done. Qed.

Ltac solve_enum :=
  unfold enum_ok; simpl; split; [by vm_compute|reflexivity].

Ltac solve_raw_of_raw :=
  let z := fresh "z" in
  intros z; simpl;
  repeat match goal with
  | |- context [if bool_decide (?a = ?b) then _ else _] =>
      destruct (decide (a = b)) as [->|?];
      [reflexivity|rewrite (bool_decide_eq_false_2 (a = b)) by done]
  end; reflexivity.

(** ** [Status] ([errors.h], underlying width 16) *)

Inductive Status : Type :=
| Ok
| UnsupportedVersion
| UnknownStream
| UnknownSession
| SessionExpired
| TooManySessions
| FrameTooLarge
| DepthTooLarge
| ResourceExhausted
| MalformedMessage
| NotAuthorized
| TransportFailure
| GeometryMismatch
| RenewTooFrequent
| Shutdown
| Internal
| Status_other (z : Z).

#[export] Instance Status_eq_dec : EqDecision Status.
Proof. solve_decision. Defined.

Definition Status_raw (e : Status) : Z :=
  match e with
  | Ok => 0
  | UnsupportedVersion => 1
  | UnknownStream => 2
  | UnknownSession => 3
  | SessionExpired => 4
  | TooManySessions => 5
  | FrameTooLarge => 6
  | DepthTooLarge => 7
  | ResourceExhausted => 8
  | MalformedMessage => 9
  | NotAuthorized => 10
  | TransportFailure => 11
  | GeometryMismatch => 12
  | RenewTooFrequent => 13
  | Shutdown => 14
  | Internal => 15
  | Status_other z => z
  end.

Definition Status_of_raw (z : Z) : Status :=
  if bool_decide (z = 0) then Ok else
  if bool_decide (z = 1) then UnsupportedVersion else
  if bool_decide (z = 2) then UnknownStream else
  if bool_decide (z = 3) then UnknownSession else
  if bool_decide (z = 4) then SessionExpired else
  if bool_decide (z = 5) then TooManySessions else
  if bool_decide (z = 6) then FrameTooLarge else
  if bool_decide (z = 7) then DepthTooLarge else
  if bool_decide (z = 8) then ResourceExhausted else
  if bool_decide (z = 9) then MalformedMessage else
  if bool_decide (z = 10) then NotAuthorized else
  if bool_decide (z = 11) then TransportFailure else
  if bool_decide (z = 12) then GeometryMismatch else
  if bool_decide (z = 13) then RenewTooFrequent else
  if bool_decide (z = 14) then Shutdown else
  if bool_decide (z = 15) then Internal else
  Status_other z.

#[export, refine] Instance Status_wire : WireEnum Status :=
  {| raw := Status_raw; of_raw := Status_of_raw; raw_of_raw := _ |}.
Proof. unfold Status_raw, Status_of_raw. solve_raw_of_raw. Defined.

(** [to_string(Status)]. *)
Definition Status_to_string (e : Status) : bytes :=
  match e with
  | Ok => str "Ok"
  | UnsupportedVersion => str "UnsupportedVersion"
  | UnknownStream => str "UnknownStream"
  | UnknownSession => str "UnknownSession"
  | SessionExpired => str "SessionExpired"
  | TooManySessions => str "TooManySessions"
  | FrameTooLarge => str "FrameTooLarge"
  | DepthTooLarge => str "DepthTooLarge"
  | ResourceExhausted => str "ResourceExhausted"
  | MalformedMessage => str "MalformedMessage"
  | NotAuthorized => str "NotAuthorized"
  | TransportFailure => str "TransportFailure"
  | GeometryMismatch => str "GeometryMismatch"
  | RenewTooFrequent => str "RenewTooFrequent"
  | Shutdown => str "Shutdown"
  | Internal => str "Internal"
  | Status_other _ => str "Unknown"
  end.

(** ** [ElementType] ([frame.h], underlying width 32) *)

Inductive ElementType : Type :=
| ET_Unknown
| ET_UInt8
| ET_Int8
| ET_UInt16
| ET_Int16
| ET_UInt32
| ET_Int32
| ET_UInt64
| ET_Int64
| ET_Float32
| ET_Float64
| ET_Byte
| ElementType_other (z : Z).

#[export] Instance ElementType_eq_dec : EqDecision ElementType.
Proof. solve_decision. Defined.

Definition ElementType_raw (e : ElementType) : Z :=
  match e with
  | ET_Unknown => 0
  | ET_UInt8 => 1
  | ET_Int8 => 2
  | ET_UInt16 => 3
  | ET_Int16 => 4
  | ET_UInt32 => 5
  | ET_Int32 => 6
  | ET_UInt64 => 7
  | ET_Int64 => 8
  | ET_Float32 => 9
  | ET_Float64 => 10
  | ET_Byte => 11
  | ElementType_other z => z
  end.

Definition ElementType_of_raw (z : Z) : ElementType :=
  if bool_decide (z = 0) then ET_Unknown else
  if bool_decide (z = 1) then ET_UInt8 else
  if bool_decide (z = 2) then ET_Int8 else
  if bool_decide (z = 3) then ET_UInt16 else
  if bool_decide (z = 4) then ET_Int16 else
  if bool_decide (z = 5) then ET_UInt32 else
  if bool_decide (z = 6) then ET_Int32 else
  if bool_decide (z = 7) then ET_UInt64 else
  if bool_decide (z = 8) then ET_Int64 else
  if bool_decide (z = 9) then ET_Float32 else
  if bool_decide (z = 10) then ET_Float64 else
  if bool_decide (z = 11) then ET_Byte else
  ElementType_other z.

#[export, refine] Instance ElementType_wire : WireEnum ElementType :=
  {| raw := ElementType_raw; of_raw := ElementType_of_raw; raw_of_raw := _ |}.
Proof. unfold ElementType_raw, ElementType_of_raw. solve_raw_of_raw. Defined.

(** [to_string(ElementType)]. *)
Definition ElementType_to_string (e : ElementType) : bytes :=
  match e with
  | ET_Unknown => str "Unknown"
  | ET_UInt8 => str "UInt8"
  | ET_Int8 => str "Int8"
  | ET_UInt16 => str "UInt16"
  | ET_Int16 => str "Int16"
  | ET_UInt32 => str "UInt32"
  | ET_Int32 => str "Int32"
  | ET_UInt64 => str "UInt64"
  | ET_Int64 => str "Int64"
  | ET_Float32 => str "Float32"
  | ET_Float64 => str "Float64"
  | ET_Byte => str "Byte"
  | ElementType_other _ => str "Unknown"
  end.

(** ** [MemoryKind] ([frame.h], underlying width 32) *)

Inductive MemoryKind : Type :=
| Host
| Cuda
| Rocm
| MemoryKind_other (z : Z).

#[export] Instance MemoryKind_eq_dec : EqDecision MemoryKind.
Proof. solve_decision. Defined.

Definition MemoryKind_raw (e : MemoryKind) : Z :=
  match e with
  | Host => 0
  | Cuda => 1
  | Rocm => 2
  | MemoryKind_other z => z
  end.

Definition MemoryKind_of_raw (z : Z) : MemoryKind :=
  if bool_decide (z = 0) then Host else
  if bool_decide (z = 1) then Cuda else
  if bool_decide (z = 2) then Rocm else
  MemoryKind_other z.

#[export, refine] Instance MemoryKind_wire : WireEnum MemoryKind :=
  {| raw := MemoryKind_raw; of_raw := MemoryKind_of_raw; raw_of_raw := _ |}.
Proof. unfold MemoryKind_raw, MemoryKind_of_raw. solve_raw_of_raw. Defined.

(** [to_string(MemoryKind)]. *)
Definition MemoryKind_to_string (e : MemoryKind) : bytes :=
  match e with
  | Host => str "Host"
  | Cuda => str "Cuda"
  | Rocm => str "Rocm"
  | MemoryKind_other _ => str "Unknown"
  end.

(** ** [Endian] ([frame.h], underlying width 32) *)

Inductive Endian : Type :=
| Little
| Big
| Endian_other (z : Z).

#[export] Instance Endian_eq_dec : EqDecision Endian.
Proof. solve_decision. Defined.

Definition Endian_raw (e : Endian) : Z :=
  match e with
  | Little => 0
  | Big => 1
  | Endian_other z => z
  end.

Definition Endian_of_raw (z : Z) : Endian :=
  if bool_decide (z = 0) then Little else
  if bool_decide (z = 1) then Big else
  Endian_other z.

#[export, refine] Instance Endian_wire : WireEnum Endian :=
  {| raw := Endian_raw; of_raw := Endian_of_raw; raw_of_raw := _ |}.
Proof. unfold Endian_raw, Endian_of_raw. solve_raw_of_raw. Defined.

(** ** [DropPolicy] ([frame.h], underlying width 32) *)

Inductive DropPolicy : Type :=
| DropNewest
| DropOldest
| DropPolicy_other (z : Z).

#[export] Instance DropPolicy_eq_dec : EqDecision DropPolicy.
Proof. solve_decision. Defined.

Definition DropPolicy_raw (e : DropPolicy) : Z :=
  match e with
  | DropNewest => 0
  | DropOldest => 1
  | DropPolicy_other z => z
  end.

Definition DropPolicy_of_raw (z : Z) : DropPolicy :=
  if bool_decide (z = 0) then DropNewest else
  if bool_decide (z = 1) then DropOldest else
  DropPolicy_other z.

#[export, refine] Instance DropPolicy_wire : WireEnum DropPolicy :=
  {| raw := DropPolicy_raw; of_raw := DropPolicy_of_raw; raw_of_raw := _ |}.
Proof. unfold DropPolicy_raw, DropPolicy_of_raw. solve_raw_of_raw. Defined.

(** [to_string(DropPolicy)]. *)
Definition DropPolicy_to_string (e : DropPolicy) : bytes :=
  match e with
  | DropNewest => str "DropNewest"
  | DropOldest => str "DropOldest"
  | DropPolicy_other _ => str "Unknown"
  end.

(** ** [CoordType] ([protocol.h], underlying width 16) *)

Inductive CoordType : Type :=
| CT_Open
| CT_OpenReply
| CT_Renew
| CT_RenewReply
| CT_Close
| CT_CloseReply
| CT_Error
| CoordType_other (z : Z).

#[export] Instance CoordType_eq_dec : EqDecision CoordType.
Proof. solve_decision. Defined.

Definition CoordType_raw (e : CoordType) : Z :=
  match e with
  | CT_Open => 1
  | CT_OpenReply => 2
  | CT_Renew => 3
  | CT_RenewReply => 4
  | CT_Close => 5
  | CT_CloseReply => 6
  | CT_Error => 255
  | CoordType_other z => z
  end.

Definition CoordType_of_raw (z : Z) : CoordType :=
  if bool_decide (z = 1) then CT_Open else
  if bool_decide (z = 2) then CT_OpenReply else
  if bool_decide (z = 3) then CT_Renew else
  if bool_decide (z = 4) then CT_RenewReply else
  if bool_decide (z = 5) then CT_Close else
  if bool_decide (z = 6) then CT_CloseReply else
  if bool_decide (z = 255) then CT_Error else
  CoordType_other z.

#[export, refine] Instance CoordType_wire : WireEnum CoordType :=
  {| raw := CoordType_raw; of_raw := CoordType_of_raw; raw_of_raw := _ |}.
Proof. unfold CoordType_raw, CoordType_of_raw. solve_raw_of_raw. Defined.

(** [to_string(CoordType)]. *)
Definition CoordType_to_string (e : CoordType) : bytes :=
  match e with
  | CT_Open => str "Open"
  | CT_OpenReply => str "OpenReply"
  | CT_Renew => str "Renew"
  | CT_RenewReply => str "RenewReply"
  | CT_Close => str "Close"
  | CT_CloseReply => str "CloseReply"
  | CT_Error => str "Error"
  | CoordType_other _ => str "Unknown"
  end.

(** ** [Transport] ([protocol.h], underlying width 32) *)

Inductive Transport : Type :=
| Any
| ActiveMessage
| Rma
| Transport_other (z : Z).

#[export] Instance Transport_eq_dec : EqDecision Transport.
Proof. solve_decision. Defined.

Definition Transport_raw (e : Transport) : Z :=
  match e with
  | Any => 0
  | ActiveMessage => 1
  | Rma => 2
  | Transport_other z => z
  end.

Definition Transport_of_raw (z : Z) : Transport :=
  if bool_decide (z = 0) then Any else
  if bool_decide (z = 1) then ActiveMessage else
  if bool_decide (z = 2) then Rma else
  Transport_other z.

#[export, refine] Instance Transport_wire : WireEnum Transport :=
  {| raw := Transport_raw; of_raw := Transport_of_raw; raw_of_raw := _ |}.
Proof. unfold Transport_raw, Transport_of_raw. solve_raw_of_raw. Defined.

(** ** [CloseReason] ([protocol.h], underlying width 32) *)

Inductive CloseReason : Type :=
| Normal
| ClientShutdown
| ClientError
| CloseReason_other (z : Z).

#[export] Instance CloseReason_eq_dec : EqDecision CloseReason.
Proof. solve_decision. Defined.

Definition CloseReason_raw (e : CloseReason) : Z :=
  match e with
  | Normal => 0
  | ClientShutdown => 1
  | ClientError => 2
  | CloseReason_other z => z
  end.

Definition CloseReason_of_raw (z : Z) : CloseReason :=
  if bool_decide (z = 0) then Normal else
  if bool_decide (z = 1) then ClientShutdown else
  if bool_decide (z = 2) then ClientError else
  CloseReason_other z.

#[export, refine] Instance CloseReason_wire : WireEnum CloseReason :=
  {| raw := CloseReason_raw; of_raw := CloseReason_of_raw; raw_of_raw := _ |}.
Proof. unfold CloseReason_raw, CloseReason_of_raw. solve_raw_of_raw. Defined.

(** ** [SessionState] ([protocol.h], underlying width 32) *)

Inductive SessionState : Type :=
| SS_Unknown
| SS_Open
| SS_Armed
| SS_Active
| SS_Expiring
| SS_Closed
| SessionState_other (z : Z).

#[export] Instance SessionState_eq_dec : EqDecision SessionState.
Proof. solve_decision. Defined.

Definition SessionState_raw (e : SessionState) : Z :=
  match e with
  | SS_Unknown => 0
  | SS_Open => 1
  | SS_Armed => 2
  | SS_Active => 3
  | SS_Expiring => 4
  | SS_Closed => 5
  | SessionState_other z => z
  end.

Definition SessionState_of_raw (z : Z) : SessionState :=
  if bool_decide (z = 0) then SS_Unknown else
  if bool_decide (z = 1) then SS_Open else
  if bool_decide (z = 2) then SS_Armed else
  if bool_decide (z = 3) then SS_Active else
  if bool_decide (z = 4) then SS_Expiring else
  if bool_decide (z = 5) then SS_Closed else
  SessionState_other z.

#[export, refine] Instance SessionState_wire : WireEnum SessionState :=
  {| raw := SessionState_raw; of_raw := SessionState_of_raw; raw_of_raw := _ |}.
Proof. unfold SessionState_raw, SessionState_of_raw. solve_raw_of_raw. Defined.

(** [to_string(SessionState)]. *)
Definition SessionState_to_string (e : SessionState) : bytes :=
  match e with
  | SS_Unknown => str "Unknown"
  | SS_Open => str "Open"
  | SS_Armed => str "Armed"
  | SS_Active => str "Active"
  | SS_Expiring => str "Expiring"
  | SS_Closed => str "Closed"
  | SessionState_other _ => str "Unknown"
  end.

(** ** [DataType] ([protocol.h], underlying width 16) *)

Inductive DataType : Type :=
| DT_Frame
| DT_Credit
| DT_Probe
| DT_ProbeAck
| DataType_other (z : Z).

#[export] Instance DataType_eq_dec : EqDecision DataType.
Proof. solve_decision. Defined.

Definition DataType_raw (e : DataType) : Z :=
  match e with
  | DT_Frame => 1
  | DT_Credit => 2
  | DT_Probe => 3
  | DT_ProbeAck => 4
  | DataType_other z => z
  end.

Definition DataType_of_raw (z : Z) : DataType :=
  if bool_decide (z = 1) then DT_Frame else
  if bool_decide (z = 2) then DT_Credit else
  if bool_decide (z = 3) then DT_Probe else
  if bool_decide (z = 4) then DT_ProbeAck else
  DataType_other z.

#[export, refine] Instance DataType_wire : WireEnum DataType :=
  {| raw := DataType_raw; of_raw := DataType_of_raw; raw_of_raw := _ |}.
Proof. unfold DataType_raw, DataType_of_raw. solve_raw_of_raw. Defined.

(** [to_string(DataType)]. *)
Definition DataType_to_string (e : DataType) : bytes :=
  match e with
  | DT_Frame => str "Frame"
  | DT_Credit => str "Credit"
  | DT_Probe => str "Probe"
  | DT_ProbeAck => str "ProbeAck"
  | DataType_other _ => str "Unknown"
  end.

(** ** [SubscriberState] ([subscriber.h], underlying width 32) *)

Inductive SubscriberState : Type :=
| Sub_Closed
| Sub_Opening
| Sub_Probing
| Sub_Active
| Sub_Reconnecting
| Sub_Failed
| SubscriberState_other (z : Z).

#[export] Instance SubscriberState_eq_dec : EqDecision SubscriberState.
Proof. solve_decision. Defined.

Definition SubscriberState_raw (e : SubscriberState) : Z :=
  match e with
  | Sub_Closed => 0
  | Sub_Opening => 1
  | Sub_Probing => 2
  | Sub_Active => 3
  | Sub_Reconnecting => 4
  | Sub_Failed => 5
  | SubscriberState_other z => z
  end.

Definition SubscriberState_of_raw (z : Z) : SubscriberState :=
  if bool_decide (z = 0) then Sub_Closed else
  if bool_decide (z = 1) then Sub_Opening else
  if bool_decide (z = 2) then Sub_Probing else
  if bool_decide (z = 3) then Sub_Active else
  if bool_decide (z = 4) then Sub_Reconnecting else
  if bool_decide (z = 5) then Sub_Failed else
  SubscriberState_other z.

#[export, refine] Instance SubscriberState_wire : WireEnum SubscriberState :=
  {| raw := SubscriberState_raw; of_raw := SubscriberState_of_raw; raw_of_raw := _ |}.
Proof. unfold SubscriberState_raw, SubscriberState_of_raw. solve_raw_of_raw. Defined.

(** [to_string(SubscriberState)]. *)
Definition SubscriberState_to_string (e : SubscriberState) : bytes :=
  match e with
  | Sub_Closed => str "Closed"
  | Sub_Opening => str "Opening"
  | Sub_Probing => str "Probing"
  | Sub_Active => str "Active"
  | Sub_Reconnecting => str "Reconnecting"
  | Sub_Failed => str "Failed"
  | SubscriberState_other _ => str "Unknown"
  end.

(** ** [FanoutMode] ([publisher.h], underlying width 32) *)

Inductive FanoutMode : Type :=
| BestEffort
| AllActive
| FanoutMode_other (z : Z).

#[export] Instance FanoutMode_eq_dec : EqDecision FanoutMode.
Proof. solve_decision. Defined.

Definition FanoutMode_raw (e : FanoutMode) : Z :=
  match e with
  | BestEffort => 0
  | AllActive => 1
  | FanoutMode_other z => z
  end.

Definition FanoutMode_of_raw (z : Z) : FanoutMode :=
  if bool_decide (z = 0) then BestEffort else
  if bool_decide (z = 1) then AllActive else
  FanoutMode_other z.

#[export, refine] Instance FanoutMode_wire : WireEnum FanoutMode :=
  {| raw := FanoutMode_raw; of_raw := FanoutMode_of_raw; raw_of_raw := _ |}.
Proof. unfold FanoutMode_raw, FanoutMode_of_raw. solve_raw_of_raw. Defined.

(** [to_string(FanoutMode)]. *)
Definition FanoutMode_to_string (e : FanoutMode) : bytes :=
  match e with
  | BestEffort => str "BestEffort"
  | AllActive => str "AllActive"
  | FanoutMode_other _ => str "Unknown"
  end.

(** ** [PublishResult] ([publisher.h], underlying width 32) *)

Inductive PublishResult : Type :=
| PR_Accepted
| PR_NoSession
| PR_QueueFull
| PR_CreditStalled
| PR_BadMetadata
| PR_Shutdown
| PR_WouldBlock
| PublishResult_other (z : Z).

#[export] Instance PublishResult_eq_dec : EqDecision PublishResult.
Proof. solve_decision. Defined.

Definition PublishResult_raw (e : PublishResult) : Z :=
  match e with
  | PR_Accepted => 0
  | PR_NoSession => 1
  | PR_QueueFull => 2
  | PR_CreditStalled => 3
  | PR_BadMetadata => 4
  | PR_Shutdown => 5
  | PR_WouldBlock => 6
  | PublishResult_other z => z
  end.

Definition PublishResult_of_raw (z : Z) : PublishResult :=
  if bool_decide (z = 0) then PR_Accepted else
  if bool_decide (z = 1) then PR_NoSession else
  if bool_decide (z = 2) then PR_QueueFull else
  if bool_decide (z = 3) then PR_CreditStalled else
  if bool_decide (z = 4) then PR_BadMetadata else
  if bool_decide (z = 5) then PR_Shutdown else
  if bool_decide (z = 6) then PR_WouldBlock else
  PublishResult_other z.

#[export, refine] Instance PublishResult_wire : WireEnum PublishResult :=
  {| raw := PublishResult_raw; of_raw := PublishResult_of_raw; raw_of_raw := _ |}.
Proof. unfold PublishResult_raw, PublishResult_of_raw. solve_raw_of_raw. Defined.

(** [to_string(PublishResult)]. *)
Definition PublishResult_to_string (e : PublishResult) : bytes :=
  match e with
  | PR_Accepted => str "Accepted"
  | PR_NoSession => str "NoSession"
  | PR_QueueFull => str "QueueFull"
  | PR_CreditStalled => str "CreditStalled"
  | PR_BadMetadata => str "BadMetadata"
  | PR_Shutdown => str "Shutdown"
  | PR_WouldBlock => str "WouldBlock"
  | PublishResult_other _ => str "Unknown"
  end.

(** ** [element_size_of] ([enums.cpp]) *)

Definition element_size_of (type : ElementType) : Z :=
  match type with
  | ET_Unknown => 0
  | ET_UInt8 | ET_Int8 | ET_Byte => 1
  | ET_UInt16 | ET_Int16 => 2
  | ET_UInt32 | ET_Int32 | ET_Float32 => 4
  | ET_UInt64 | ET_Int64 | ET_Float64 => 8
  | ElementType_other _ => 0
  end.

(** ** [BulkError] ([errors.h]) and [describe] ([errors.cpp]) *)

Record BulkError : Type := mkBulkError {
  be_status : Status;
  be_message : bytes;
  be_origin : bytes
}.

(** [BulkError{}]. *)
Definition BulkError_default : BulkError := mkBulkError Ok [] [].

#[export] Instance BulkError_eq_dec : EqDecision BulkError.
Proof. solve_decision. Defined.

Definition describe (err : BulkError) : bytes :=
  (match be_origin err with [] => [] | o => o ++ str ": " end) ++
  Status_to_string (be_status err) ++
  (match be_message err with [] => [] | m => str ": " ++ m end).

(** Failures of the library: a status that was returned or the error of a
    [BulkException] that was thrown. *)
Abbreviation result := (outcome Status).
Abbreviation throws := (outcome BulkError).
