(* ===== verification/Limits.v ===== *)
(** * Hard caps and wire constants

    [include/tango-bulk/limits.h], [k_max_rank] of [frame.h] and the layout
    constants of [include/tango-bulk/protocol.h]. *)
From S2P Require Import Prelude.

(** ** [limits.h] *)
Definition k_max_frame_bytes_hard_cap : Z := Z.shiftl 256 20.
Definition k_min_frame_bytes : Z := Z.shiftl 4 10.
Definition k_max_ring_depth : Z := 1024.
Definition k_min_ring_depth : Z := 2.
Definition k_max_sessions : Z := 32.
Definition k_max_publish_queue : Z := 8192.
Definition k_min_publish_queue : Z := 8.
Definition k_max_delivery_queue : Z := 4096.
Definition k_min_delivery_queue : Z := 1.
Definition k_max_lease_ttl_ms : Z := 600000.
Definition k_min_lease_ttl_ms : Z := 1000.
Definition k_max_renewals_per_ttl : Z := 100.
Definition k_min_renewals_per_ttl : Z := 2.
Definition k_max_pinned_bytes : Z := Z.shiftl 64 30.
Definition k_min_pinned_bytes : Z := Z.shiftl 16 20.
Definition k_max_ucx_address_bytes : Z := 4096.
Definition k_max_element_size : Z := 256.
Definition k_min_element_size : Z := 1.
Definition k_max_stream_name_bytes : Z := 64.
Definition k_min_stream_name_bytes : Z := 1.

(** ** [frame.h] *)
Definition k_max_rank : Z := 4.

(** ** [protocol.h]: versions, coordination plane *)
Definition k_version_major : Z := 1.
Definition k_version_minor : Z := 0.
Definition k_coord_magic : Z := 0x4B4C4254.
Definition k_coord_envelope_bytes : nat := 32.
Definition k_max_coord_message_bytes : Z := 65536.
Definition k_max_coord_body_bytes : Z := 65504.
Definition k_max_error_message_bytes : Z := 512.
Definition k_caps_credit_coalescing : Z := Z.shiftl 1 0.
Definition k_caps_probe : Z := Z.shiftl 1 2.
Definition k_caps_all : Z := Z.lor k_caps_credit_coalescing k_caps_probe.
Definition k_geometry_block_bytes : nat := 96.
Definition k_open_fixed_bytes : nat := 56.
Definition k_open_reply_fixed_bytes : nat := 152.
Definition k_renew_bytes : nat := 40.
Definition k_renew_reply_bytes : nat := 128.
Definition k_close_bytes : nat := 24.
Definition k_close_reply_bytes : nat := 24.
Definition k_error_fixed_bytes : nat := 8.

(** ** [protocol.h]: data plane *)
Definition k_data_magic : Z := 0x314B4254.
Definition k_data_prefix_bytes : nat := 16.
Definition k_frame_header_bytes : nat := 160.
Definition k_credit_bytes : nat := 32.
Definition k_probe_bytes : nat := 32.
Definition k_probe_ack_bytes : nat := 32.

(** Evaluate the named limits in arithmetic goals. *)
Ltac unfold_limits :=
  cbv [k_max_frame_bytes_hard_cap k_min_frame_bytes k_max_ring_depth k_min_ring_depth
       k_max_sessions k_max_publish_queue k_min_publish_queue k_max_delivery_queue
       k_min_delivery_queue k_max_lease_ttl_ms k_min_lease_ttl_ms k_max_renewals_per_ttl
       k_min_renewals_per_ttl k_max_pinned_bytes k_min_pinned_bytes
       k_max_ucx_address_bytes k_max_element_size k_min_element_size
       k_max_stream_name_bytes k_min_stream_name_bytes k_max_rank k_version_major
       k_version_minor k_coord_magic k_coord_envelope_bytes k_max_coord_message_bytes
       k_max_coord_body_bytes k_max_error_message_bytes k_open_fixed_bytes
       k_open_reply_fixed_bytes k_renew_bytes k_renew_reply_bytes k_close_bytes
       k_close_reply_bytes k_error_fixed_bytes k_data_magic k_data_prefix_bytes
       k_frame_header_bytes k_credit_bytes k_probe_bytes k_probe_ack_bytes
       Z.shiftl Pos.iter Z.mul Pos.mul] in *.
