(* ===== verification/ByteOrder.v ===== *)
(** * Little-endian accessors and overflow-checked arithmetic

    [src/core/byte_order.h], a byte at a time as the source has it, over a
    buffer that faults on an access outside its bounds.  The lemmas reduce each
    accessor to one operation on a sub-range of the buffer ([write] of
    [le_bytes], [le_value] of [slice]), which is the form every codec proof
    works with. *)
From S2P Require Import Prelude Enums.

Section Accessors.
Context {E : Type}.
Implicit Types (buf : bytes) (p : nat).

(** [p[0] = b]. *)
Definition store buf p (b : byte) : outcome E bytes :=
  if bool_decide (p < length buf)%nat then Val (<[p := b]> buf) else Fault.

Definition put8 buf p (value : Z) : outcome E bytes := store buf p (byte_of_Z value).

Definition put16 buf p (value : Z) : outcome E bytes :=
  let! buf := store buf p (byte_of_Z (Z.land value 255)) in
  store buf (p + 1) (byte_of_Z (Z.land (Z.shiftr value 8) 255)).

(** The loop of [put32] and [put64]: [count] iterations from index [i]. *)
Fixpoint put_loop (count i : nat) buf p (value : Z) : outcome E bytes :=
  match count with
  | O => Val buf
  | S count =>
      let! buf := store buf (p + i)
                    (byte_of_Z (Z.land (Z.shiftr value (Z.of_nat i * 8)) 255)) in
      put_loop count (S i) buf p value
  end.

Definition put32 buf p (value : Z) : outcome E bytes := put_loop 4 0 buf p value.
Definition put64 buf p (value : Z) : outcome E bytes := put_loop 8 0 buf p value.

Definition get8 buf p : outcome E Z :=
  match buf !! p with Some b => Val (Z_of_byte b) | None => Fault end.

Definition get16 buf p : outcome E Z :=
  let! lo := get8 buf p in
  let! hi := get8 buf (p + 1) in
  Val (u16 (Z.lor lo (Z.shiftl hi 8))).

(** The loop of [get32] and [get64]; [w] is the width of [value]. *)
Fixpoint get_loop (w : Z) (count i : nat) buf p (value : Z) : outcome E Z :=
  match count with
  | O => Val value
  | S count =>
      let! b := get8 buf (p + i) in
      get_loop w count (S i) buf p
        (Z.lor value (wrap w (Z.shiftl b (Z.of_nat i * 8))))
  end.

Definition get32 buf p : outcome E Z := get_loop 32 4 0 buf p 0.
Definition get64 buf p : outcome E Z := get_loop 64 8 0 buf p 0.

(** [memcpy(p, src, n)] into the buffer, and [assign] out of it. *)
Definition put_bytes buf p (src : bytes) : outcome E bytes :=
  if bool_decide (p + length src <= length buf)%nat then Val (write buf p src) else Fault.
Definition get_bytes buf p (n : nat) : outcome E bytes :=
  if bool_decide (p + n <= length buf)%nat then Val (slice buf p n) else Fault.
End Accessors.

(** [__builtin_mul_overflow] and [__builtin_add_overflow] at width 64: whether
    the exact result does not fit, and the wrapped result, stored either way. *)
Definition mul_overflow (a b : Z) : bool * Z := (2 ^ 64 <=? a * b, u64 (a * b)).
Definition add_overflow (a b : Z) : bool * Z := (2 ^ 64 <=? a + b, u64 (a + b)).

Arguments mul_overflow : simpl never.
Arguments add_overflow : simpl never.

(** ** Reference view: little-endian byte lists *)

Definition le_bytes (n : nat) (v : Z) : bytes :=
  (fun i => byte_of_Z (Z.land (Z.shiftr v (Z.of_nat i * 8)) 255)) <$> seq 0 n.

Fixpoint le_value (l : bytes) : Z :=
  match l with
  | [] => 0
  | b :: l => Z_of_byte b + 2 ^ 8 * le_value l
  end.

Lemma length_le_bytes n v : length (le_bytes n v) = n.
Proof. unfold le_bytes. by rewrite length_fmap, length_seq. Qed.

Lemma le_value_range l : 0 <= le_value l < 2 ^ (8 * Z.of_nat (length l)).
Proof.
  induction l as [|b l IH]; simpl le_value; [simpl; lia|].
  pose proof (Z_of_byte_range b) as Hb. unfold in_range in Hb.
  simpl length. rewrite Nat2Z.inj_succ.
  replace (8 * Z.succ (Z.of_nat (length l))) with (8 + 8 * Z.of_nat (length l)) by lia.
  rewrite Z.pow_add_r by lia. nia.
Qed.

Lemma byte_of_Z_land v : byte_of_Z (Z.land v 255) = byte_of_Z v.
Proof.
  apply Z_of_byte_inj. rewrite !Z_of_byte_of_Z. unfold wrap.
  change 255 with (Z.ones 8). rewrite Z.land_ones by lia. by rewrite Z.mod_mod by lia.
Qed.

Lemma le_bytes_S n v : le_bytes (S n) v = byte_of_Z v :: le_bytes n (Z.shiftr v 8).
Proof.
  unfold le_bytes. simpl. rewrite Z.shiftr_0_r, byte_of_Z_land. f_equal.
  rewrite <-fmap_S_seq, <-list_fmap_compose. apply list_fmap_ext. intros i x _. simpl.
  do 2 f_equal. rewrite Z.shiftr_shiftr by lia. f_equal. lia.
Qed.

Lemma le_value_le_bytes n v : le_value (le_bytes n v) = v mod 2 ^ (8 * Z.of_nat n).
Proof.
  revert v. induction n as [|n IH]; intros v.
  { simpl. by rewrite Z.mod_1_r. }
  rewrite le_bytes_S. simpl le_value. rewrite IH, Z_of_byte_of_Z. unfold wrap.
  rewrite Z.shiftr_div_pow2 by lia.
  replace (8 * Z.of_nat (S n)) with (8 + 8 * Z.of_nat n) by lia.
  rewrite Z.pow_add_r by lia. rewrite Z.rem_mul_r by lia. done.
Qed.

Lemma lor_shiftl_disjoint a b n :
  0 <= n -> 0 <= a < 2 ^ n -> Z.lor a (Z.shiftl b n) = a + b * 2 ^ n.
Proof.
  intros Hn Ha.
  assert (Z.land a (Z.shiftl b n) = 0) as Hland.
  { apply Z.bits_inj'. intros i Hi. rewrite Z.land_spec, Z.bits_0.
    destruct (decide (i < n)).
    - by rewrite Z.shiftl_spec_low, andb_false_r.
    - rewrite <-(Z.mod_small a (2 ^ n)) by done.
      by rewrite Z.mod_pow2_bits_high by lia. }
  rewrite <-Z.shiftl_mul_pow2 by done. by rewrite <-Z.add_lor_land, Hland, Z.add_0_r.
Qed.

(** ** Specifications of the accessors *)

Section AccessorSpecs.
Context {E : Type}.
Implicit Types (buf : bytes) (p : nat).

Lemma insert_write buf p b :
  (p < length buf)%nat -> <[p := b]> buf = write buf p [b].
Proof.
  intros ?. unfold write. simpl.
  rewrite insert_take_drop by done. do 2 f_equal. f_equal. lia.
Qed.

Lemma write_snoc buf p x b :
  (p + length x < length buf)%nat ->
  write (write buf p x) (p + length x) [b] = write buf p (x ++ [b]).
Proof.
  intros ?. apply list_eq. intros i.
  assert (length (write buf p x) = length buf) as Hl by (apply length_write; lia).
  destruct (decide (i = p + length x)%nat) as [->|?].
  - rewrite lookup_write_inside by (rewrite ?Hl; simpl; lia).
    rewrite lookup_write_inside by (rewrite length_app; simpl; lia).
    rewrite lookup_app_r by lia. f_equal; lia.
  - rewrite lookup_write_outside by (rewrite ?Hl; simpl; lia).
    destruct (decide (p <= i < p + length x)%nat).
    + rewrite !lookup_write_inside by (rewrite ?length_app; simpl; lia).
      by rewrite lookup_app_l by lia.
    + by rewrite !lookup_write_outside by (rewrite ?length_app; simpl; lia).
Qed.

Lemma write_nil buf p : write buf p [] = buf.
Proof. unfold write. simpl. by rewrite Nat.add_0_r, take_drop. Qed.

Lemma store_write buf p b :
  (p < length buf)%nat -> store (E := E) buf p b = Val (write buf p [b]).
Proof.
  intros. unfold store. rewrite bool_decide_eq_true_2 by done. by rewrite insert_write.
Qed.

Lemma put8_write buf p v :
  (p + 1 <= length buf)%nat -> put8 (E := E) buf p v = Val (write buf p (le_bytes 1 v)).
Proof. intros. unfold put8. rewrite store_write by lia. by rewrite le_bytes_S. Qed.

Lemma put_loop_write count i buf p v :
  (p + (i + count) <= length buf)%nat ->
  put_loop (E := E) count i (write buf p (le_bytes i v)) p v =
  Val (write buf p (le_bytes (i + count) v)).
Proof.
  revert i. induction count as [|count IH]; intros i ?; simpl.
  { by rewrite Nat.add_0_r. }
  assert (write (write buf p (le_bytes i v)) (p + i)
            [byte_of_Z (Z.land (Z.shiftr v (Z.of_nat i * 8)) 255)] =
          write buf p (le_bytes (S i) v)) as Hw.
  { pose proof (write_snoc buf p (le_bytes i v)
      (byte_of_Z (Z.land (Z.shiftr v (Z.of_nat i * 8)) 255))) as H'.
    rewrite length_le_bytes in H'. rewrite H' by lia. f_equal.
    unfold le_bytes. by rewrite seq_S, fmap_app. }
  rewrite store_write by (rewrite length_write; rewrite ?length_le_bytes; lia).
  simpl. rewrite Hw, IH by lia. do 3 f_equal. lia.
Qed.

Lemma put_loop_write_0 count buf p v :
  (p + count <= length buf)%nat ->
  put_loop (E := E) count 0 buf p v = Val (write buf p (le_bytes count v)).
Proof.
  intros. pose proof (put_loop_write count 0 buf p v) as H'.
  change (le_bytes 0 v) with (@nil byte) in H'. rewrite write_nil in H'. apply H'. lia.
Qed.

Lemma put16_write buf p v :
  (p + 2 <= length buf)%nat -> put16 (E := E) buf p v = Val (write buf p (le_bytes 2 v)).
Proof.
  intros. rewrite <-put_loop_write_0 by lia. unfold put16. simpl.
  rewrite Z.shiftr_0_r, Nat.add_0_r. destruct (store buf p _); simpl; [|done..].
  change (Z.of_nat 1 * 8) with 8. by destruct (store _ _ _).
Qed.

Lemma put32_write buf p v :
  (p + 4 <= length buf)%nat -> put32 (E := E) buf p v = Val (write buf p (le_bytes 4 v)).
Proof. apply put_loop_write_0. Qed.
Lemma put64_write buf p v :
  (p + 8 <= length buf)%nat -> put64 (E := E) buf p v = Val (write buf p (le_bytes 8 v)).
Proof. apply put_loop_write_0. Qed.

Lemma get8_slice buf p :
  (p + 1 <= length buf)%nat -> get8 (E := E) buf p = Val (le_value (slice buf p 1)).
Proof.
  intros. unfold get8, slice.
  destruct (lookup_lt_is_Some_2 buf p) as [b Hb]; [lia|].
  rewrite Hb, (drop_S _ _ _ Hb). simpl. by rewrite Z.add_0_r.
Qed.

Lemma get_loop_slice w count i buf p value :
  (p + (i + count) <= length buf)%nat -> 8 * Z.of_nat (i + count) <= w ->
  0 <= value < 2 ^ (8 * Z.of_nat i) ->
  get_loop (E := E) w count i buf p value =
  Val (value + 2 ^ (8 * Z.of_nat i) * le_value (slice buf (p + i) count)).
Proof.
  revert i value. induction count as [|count IH]; intros i value Hl Hw Hv; simpl.
  { rewrite Z.mul_0_r, Z.add_0_r. done. }
  unfold get8. destruct (lookup_lt_is_Some_2 buf (p + i)) as [b Hb]; [lia|].
  rewrite Hb. simpl.
  pose proof (Z_of_byte_range b) as Hr. unfold in_range in Hr.
  replace (Z.of_nat i * 8) with (8 * Z.of_nat i) by lia.
  assert (2 ^ (8 * Z.of_nat i + 8) <= 2 ^ w) as Hle by (apply Z.pow_le_mono_r; lia).
  assert (2 ^ (8 * Z.of_nat i + 8) = 2 ^ (8 * Z.of_nat i) * 2 ^ 8) as Heq
    by (apply Z.pow_add_r; lia).
  rewrite wrap_small
    by (unfold in_range; rewrite Z.shiftl_mul_pow2 by lia; nia).
  rewrite lor_shiftl_disjoint by lia.
  replace (8 * Z.of_nat (S i)) with (8 * Z.of_nat i + 8) in * by lia.
  rewrite IH; [| lia | lia |]; replace (8 * Z.of_nat (S i)) with (8 * Z.of_nat i + 8) by lia.
  - unfold slice. rewrite (drop_S _ _ _ Hb). simpl. rewrite Heq.
    replace (p + S i)%nat with (S (p + i)) by lia. f_equal. lia.
  - nia.
Qed.

Lemma get32_slice buf p :
  (p + 4 <= length buf)%nat -> get32 (E := E) buf p = Val (le_value (slice buf p 4)).
Proof.
  intros. unfold get32. rewrite get_loop_slice by (simpl; lia). rewrite Nat.add_0_r.
  f_equal. lia.
Qed.
Lemma get64_slice buf p :
  (p + 8 <= length buf)%nat -> get64 (E := E) buf p = Val (le_value (slice buf p 8)).
Proof.
  intros. unfold get64. rewrite get_loop_slice by (simpl; lia). rewrite Nat.add_0_r.
  f_equal. lia.
Qed.

Lemma get16_slice buf p :
  (p + 2 <= length buf)%nat -> get16 (E := E) buf p = Val (le_value (slice buf p 2)).
Proof.
  intros. unfold get16, get8, slice.
  destruct (lookup_lt_is_Some_2 buf p) as [b Hb]; [lia|].
  destruct (lookup_lt_is_Some_2 buf (p + 1)) as [c Hc]; [lia|].
  rewrite Hb, Hc, (drop_S _ _ _ Hb). simpl.
  replace (S p) with (p + 1)%nat by lia. rewrite (drop_S _ _ _ Hc). simpl.
  pose proof (Z_of_byte_range b). pose proof (Z_of_byte_range c). unfold in_range in *.
  rewrite lor_shiftl_disjoint by lia. rewrite wrap_small by (unfold in_range; lia).
  f_equal. lia.
Qed.

Lemma put_bytes_write buf p src :
  (p + length src <= length buf)%nat -> put_bytes (E := E) buf p src = Val (write buf p src).
Proof. intros. unfold put_bytes. by rewrite bool_decide_eq_true_2. Qed.
Lemma get_bytes_slice buf p n :
  (p + n <= length buf)%nat -> get_bytes (E := E) buf p n = Val (slice buf p n).
Proof. intros. unfold get_bytes. by rewrite bool_decide_eq_true_2. Qed.
End AccessorSpecs.

(** ** Overflow tests *)

Lemma mul_overflow_false a b c :
  0 <= a -> 0 <= b -> mul_overflow a b = (false, c) <-> (a * b < 2 ^ 64 /\ c = a * b).
Proof.
  intros. unfold mul_overflow, wrap. split.
  - intros [= H' <-]. bool_to_prop. rewrite Z.mod_small by nia. done.
  - intros [? ->]. f_equal; [by apply Z.leb_gt|apply Z.mod_small; nia].
Qed.
Lemma add_overflow_false a b c :
  0 <= a -> 0 <= b -> add_overflow a b = (false, c) <-> (a + b < 2 ^ 64 /\ c = a + b).
Proof.
  intros. unfold add_overflow, wrap. split.
  - intros [= H' <-]. bool_to_prop. rewrite Z.mod_small by lia. done.
  - intros [? ->]. f_equal; [by apply Z.leb_gt|apply Z.mod_small; lia].
Qed.

(** ** Reading back a field *)

Section ReadField.
Context {E : Type}.
Implicit Types (buf : bytes) (p : nat).

Lemma slice_full {A} (l : list A) p n :
  length (slice l p n) = n -> (0 < n)%nat -> (p + n <= length l)%nat.
Proof. unfold slice. rewrite length_take, length_drop. lia. Qed.

Lemma le_value_small n v : in_range (8 * Z.of_nat n) v -> le_value (le_bytes n v) = v.
Proof. intros. rewrite le_value_le_bytes. by apply wrap_small. Qed.

Lemma get8_field buf p v :
  slice buf p 1 = [byte_of_Z v] -> in_range 8 v -> get8 (E := E) buf p = Val v.
Proof.
  intros Hs Hv. rewrite get8_slice, Hs; [|apply slice_full; [by rewrite Hs|lia]].
  simpl. rewrite Z_of_byte_of_Z, wrap_small by done. f_equal. lia.
Qed.
Lemma get16_field buf p v :
  slice buf p 2 = le_bytes 2 v -> in_range 16 v -> get16 (E := E) buf p = Val v.
Proof.
  intros Hs Hv. rewrite get16_slice, Hs, le_value_small; [done|done|].
  apply slice_full; [|lia]. by rewrite Hs, length_le_bytes.
Qed.
Lemma get32_field buf p v :
  slice buf p 4 = le_bytes 4 v -> in_range 32 v -> get32 (E := E) buf p = Val v.
Proof.
  intros Hs Hv. rewrite get32_slice, Hs, le_value_small; [done|done|].
  apply slice_full; [|lia]. by rewrite Hs, length_le_bytes.
Qed.
Lemma get64_field buf p v :
  slice buf p 8 = le_bytes 8 v -> in_range 64 v -> get64 (E := E) buf p = Val v.
Proof.
  intros Hs Hv. rewrite get64_slice, Hs, le_value_small; [done|done|].
  apply slice_full; [|lia]. by rewrite Hs, length_le_bytes.
Qed.

Lemma put_bytes_middle pre old post new p :
  p = length pre -> length old = length new ->
  put_bytes (E := E) (pre ++ old ++ post) p new = Val (pre ++ new ++ post).
Proof.
  intros -> Hl. rewrite put_bytes_write by (rewrite !length_app; lia).
  unfold write. rewrite take_app_length, drop_app_add', drop_app_length'; done.
Qed.
End ReadField.
