(* ===== verification/Geometry.v ===== *)
(** * Array geometry: the one validator behind three call sites

    The geometry half of [src/core/geometry.cpp] with [geometry_rules.h],
    [geometry.h] and the [FrameMetadata] of [frame.h]: shape and stride rules,
    [GeometryBlock::validate], [Geometry::reachable_span],
    [FrameMetadata::resolve] and [FrameMetadata::validate].

    A [std::array<std::uint64_t, 4>] is a list of length four
    ([array_ok]); the lengths and ranges are those of the C++ types. *)
From S2P Require Import Prelude Enums Limits ByteOrder.

Abbreviation array4 := (list Z).
Definition array4_zero : array4 := [0; 0; 0; 0].

(** A value of type [std::array<std::uint64_t, k_max_rank>]. *)
Definition array_ok (a : array4) : Prop := length a = 4%nat /\ Forall (in_range 64) a.

Ltac solve_array_ok := split; [reflexivity|repeat constructor; done].

(** ** The shared rules *)

(** [for(i = 0; i < rank; ++i) if(mul_overflow(elements, shape[i], elements)) ...]:
    [None] when a product does not fit. *)
Fixpoint elements_loop (count i : nat) (shape : array4) (elements : Z) : option Z :=
  match count with
  | O => Some elements
  | S count =>
      let '(overflow, elements) := mul_overflow elements (shape !!! i) in
      if overflow then None else elements_loop count (S i) shape elements
  end.

(** The reach of each dimension, summed with every step overflow-checked. *)
Fixpoint span_loop (count i : nat) (shape strides : array4) (span : Z) : option Z :=
  match count with
  | O => Some span
  | S count =>
      let '(overflow, reach) := mul_overflow (u64 (shape !!! i - 1)) (strides !!! i) in
      if overflow then None else
      let '(overflow, span) := add_overflow span reach in
      if overflow then None else span_loop count (S i) shape strides span
  end.

(** Whether some dimension below the rank is zero. *)
Definition has_empty_dimension (rank : nat) (shape : array4) : bool :=
  existsb (fun i => shape !!! i =? 0) (seq 0 rank).

Definition validate_shape_and_strides (rank : Z) (shape strides : array4)
    (element_size limit : Z) : Status :=
  if k_max_rank <? rank then GeometryMismatch else
  let r := Z.to_nat rank in
  if existsb (fun i => negb (shape !!! i =? 0) || negb (strides !!! i =? 0))
       (seq r (4 - r)) then GeometryMismatch else
  match elements_loop r 0 shape 1 with
  | None => GeometryMismatch
  | Some elements =>
      let '(overflow, described_bytes) := mul_overflow elements element_size in
      if overflow then GeometryMismatch else
      if limit <? described_bytes then GeometryMismatch else
      if has_empty_dimension r shape then Ok else
      match span_loop r 0 shape strides 0 with
      | None => GeometryMismatch
      | Some span =>
          let '(overflow, span) := add_overflow span element_size in
          if overflow then GeometryMismatch else
          if limit <? span then GeometryMismatch else Ok
      end
  end.

Definition validate_element_size (type : ElementType) (element_size : Z) : Status :=
  if (element_size <? k_min_element_size) || (k_max_element_size <? element_size)
  then GeometryMismatch
  else if bool_decide (type <> ET_Unknown) && negb (element_size_of type =? element_size)
  then GeometryMismatch
  else Ok.

(** ** [Protocol::GeometryBlock] and [Geometry] *)

Record GeometryBlock : Type := mkGeometryBlock {
  gb_generation : Z;
  gb_element_type : ElementType;
  gb_element_size : Z;
  gb_rank : Z;
  gb_max_frame_bytes : Z;
  gb_ring_depth : Z;
  gb_credit_window : Z;
  gb_shape : array4;
  gb_strides : array4
}.

Definition GeometryBlock_default : GeometryBlock :=
  mkGeometryBlock 0 ET_Unknown 0 0 0 0 0 array4_zero array4_zero.

#[export] Instance GeometryBlock_eq_dec : EqDecision GeometryBlock.
Proof. solve_decision. Defined.

Definition GeometryBlock_validate (g : GeometryBlock) : Status :=
  if gb_generation g =? 0 then GeometryMismatch else
  let status := validate_element_size (gb_element_type g) (gb_element_size g) in
  if bool_decide (status <> Ok) then status else
  if (gb_max_frame_bytes g <? k_min_frame_bytes) ||
     (k_max_frame_bytes_hard_cap <? gb_max_frame_bytes g) then FrameTooLarge else
  if (gb_ring_depth g <? k_min_ring_depth) || (k_max_ring_depth <? gb_ring_depth g)
  then DepthTooLarge else
  if (gb_credit_window g =? 0) || (gb_ring_depth g <? gb_credit_window g)
  then DepthTooLarge else
  validate_shape_and_strides (gb_rank g) (gb_shape g) (gb_strides g)
    (gb_element_size g) (gb_max_frame_bytes g).

(** [operator==] compares every field, so it is Leibniz equality. *)
Definition GeometryBlock_eqb (a b : GeometryBlock) : bool :=
  (gb_generation a =? gb_generation b) &&
  bool_decide (gb_element_type a = gb_element_type b) &&
  (gb_element_size a =? gb_element_size b) && (gb_rank a =? gb_rank b) &&
  (gb_max_frame_bytes a =? gb_max_frame_bytes b) &&
  (gb_ring_depth a =? gb_ring_depth b) && (gb_credit_window a =? gb_credit_window b) &&
  bool_decide (gb_shape a = gb_shape b) && bool_decide (gb_strides a = gb_strides b).

(** The application-facing projection; a type of its own in the source. *)
Record Geometry : Type := mkGeometry {
  geo_generation : Z;
  geo_element_type : ElementType;
  geo_element_size : Z;
  geo_rank : Z;
  geo_max_frame_bytes : Z;
  geo_ring_depth : Z;
  geo_credit_window : Z;
  geo_shape : array4;
  geo_strides : array4
}.

Definition Geometry_default : Geometry :=
  mkGeometry 0 ET_Unknown 0 0 0 0 0 array4_zero array4_zero.

#[export] Instance Geometry_eq_dec : EqDecision Geometry.
Proof. solve_decision. Defined.

(** [detail::to_geometry]. *)
Definition to_geometry (w : GeometryBlock) : Geometry :=
  mkGeometry (gb_generation w) (gb_element_type w) (gb_element_size w) (gb_rank w)
    (gb_max_frame_bytes w) (gb_ring_depth w) (gb_credit_window w) (gb_shape w) (gb_strides w).

Definition Geometry_validate (g : Geometry) : Status :=
  GeometryBlock_validate
    (mkGeometryBlock (geo_generation g) (geo_element_type g) (geo_element_size g)
       (geo_rank g) (geo_max_frame_bytes g) (geo_ring_depth g) (geo_credit_window g)
       (geo_shape g) (geo_strides g)).

(** The loop of [reachable_span]: products are not overflow-checked here, the
    sums are tested against [UINT64_MAX - reach]; the early return is [0]. *)
Fixpoint reachable_loop (count i : nat) (shape strides : array4) (span : Z) : Z :=
  match count with
  | O => span
  | S count =>
      let reach := u64 (u64 (shape !!! i - 1) * strides !!! i) in
      if u64 (2 ^ 64 - 1 - reach) <? span then 0
      else reachable_loop count (S i) shape strides (u64 (span + reach))
  end.

Definition reachable_span (g : Geometry) : Z :=
  if bool_decide (Geometry_validate g <> Ok) then 0 else
  let r := Z.to_nat (geo_rank g) in
  if has_empty_dimension r (geo_shape g) then 0 else
  reachable_loop r 0 (geo_shape g) (geo_strides g) (geo_element_size g).

(** [Geometry::describes_same_array]. *)
Definition Geometry_describes_same_array (a b : Geometry) : bool :=
  bool_decide (geo_element_type a = geo_element_type b) &&
  (geo_element_size a =? geo_element_size b) && (geo_rank a =? geo_rank b) &&
  bool_decide (geo_shape a = geo_shape b) && bool_decide (geo_strides a = geo_strides b).

(** ** [FrameMetadata] *)

Record FrameMetadata : Type := mkFrameMetadata {
  fm_element_type : ElementType;
  fm_element_size : Z;
  fm_rank : Z;
  fm_shape : array4;
  fm_strides : array4;
  fm_payload_bytes : Z;
  fm_timestamp_ns : Z;
  fm_event_counter : Z;
  fm_quality : Z;
  fm_memory_kind : MemoryKind;
  fm_endian : Endian
}.

Definition FrameMetadata_default : FrameMetadata :=
  mkFrameMetadata ET_Unknown 0 0 array4_zero array4_zero 0 0 0 0 Host Little.

#[export] Instance FrameMetadata_eq_dec : EqDecision FrameMetadata.
Proof. solve_decision. Defined.

Definition fm_with_element_size (m : FrameMetadata) (v : Z) : FrameMetadata :=
  mkFrameMetadata (fm_element_type m) v (fm_rank m) (fm_shape m) (fm_strides m)
    (fm_payload_bytes m) (fm_timestamp_ns m) (fm_event_counter m) (fm_quality m)
    (fm_memory_kind m) (fm_endian m).
Definition fm_with_payload (m : FrameMetadata) (v : Z) : FrameMetadata :=
  mkFrameMetadata (fm_element_type m) (fm_element_size m) (fm_rank m) (fm_shape m)
    (fm_strides m) v (fm_timestamp_ns m) (fm_event_counter m) (fm_quality m)
    (fm_memory_kind m) (fm_endian m).
Definition fm_with_strides (m : FrameMetadata) (v : array4) : FrameMetadata :=
  mkFrameMetadata (fm_element_type m) (fm_element_size m) (fm_rank m) (fm_shape m)
    v (fm_payload_bytes m) (fm_timestamp_ns m) (fm_event_counter m) (fm_quality m)
    (fm_memory_kind m) (fm_endian m).

(** [describes_same_array(FrameMetadata, FrameMetadata)]. *)
Definition describes_same_array (a b : FrameMetadata) : bool :=
  bool_decide (fm_element_type a = fm_element_type b) &&
  (fm_element_size a =? fm_element_size b) && (fm_rank a =? fm_rank b) &&
  bool_decide (fm_shape a = fm_shape b) && bool_decide (fm_strides a = fm_strides b).

(** [for(i = rank; i > 0; --i) { strides[i-1] = stride; stride *= shape[i-1]; }],
    returning early with what was filled when a product overflows. *)
Fixpoint fill_loop (i : nat) (shape strides : array4) (stride : Z) : array4 :=
  match i with
  | O => strides
  | S i' =>
      let strides := <[i' := stride]> strides in
      let '(overflow, stride) := mul_overflow stride (shape !!! i') in
      if overflow then strides else fill_loop i' shape strides stride
  end.

Definition fill_contiguous_strides (rank : nat) (shape : array4) (element_size : Z) : array4 :=
  fill_loop rank shape array4_zero element_size.

Definition FrameMetadata_validate (m : FrameMetadata) (max_frame_bytes : Z) : Status :=
  if k_max_rank <? fm_rank m then GeometryMismatch else
  if bool_decide (fm_element_type m = ET_Unknown) && (0 <? fm_rank m) then GeometryMismatch else
  let status := validate_element_size (fm_element_type m) (fm_element_size m) in
  if bool_decide (status <> Ok) then status else
  if fm_payload_bytes m =? 0 then GeometryMismatch else
  if (max_frame_bytes <? fm_payload_bytes m) ||
     (k_max_frame_bytes_hard_cap <? fm_payload_bytes m) then FrameTooLarge else
  validate_shape_and_strides (fm_rank m) (fm_shape m) (fm_strides m)
    (fm_element_size m) (fm_payload_bytes m).

(** The three inferences of [FrameMetadata::resolve], each on the copy the
    previous one left: element size, payload size, strides. *)
Definition infer_element_size (m : FrameMetadata) : FrameMetadata :=
  if fm_element_size m =? 0
  then fm_with_element_size m (element_size_of (fm_element_type m)) else m.

Definition infer_payload_bytes (rank : nat) (m : FrameMetadata) : option FrameMetadata :=
  if fm_payload_bytes m =? 0 then
    match elements_loop rank 0 (fm_shape m) 1 with
    | None => None
    | Some elements =>
        let '(overflow, payload) := mul_overflow elements (fm_element_size m) in
        if overflow then None else Some (fm_with_payload m payload)
    end
  else Some m.

Definition strides_unset (rank : nat) (m : FrameMetadata) : bool :=
  forallb (fun i => fm_strides m !!! i =? 0) (seq 0 rank).

Definition infer_strides (rank : nat) (m : FrameMetadata) : FrameMetadata :=
  if strides_unset rank m && (0 <? fm_rank m)
  then fm_with_strides m (fill_contiguous_strides rank (fm_shape m) (fm_element_size m))
  else m.

(** [FrameMetadata::resolve]: the object after the call and the status.  On
    failure the object is the one the call started from. *)
Definition resolve (m : FrameMetadata) (max_frame_bytes : Z) : FrameMetadata * Status :=
  if k_max_rank <? fm_rank m then (m, GeometryMismatch) else
  let r := Z.to_nat (fm_rank m) in
  let resolved := infer_element_size m in
  if (fm_element_size resolved <? k_min_element_size) ||
     (k_max_element_size <? fm_element_size resolved) then (m, GeometryMismatch) else
  match infer_payload_bytes r resolved with
  | None => (m, GeometryMismatch)
  | Some resolved =>
      let resolved := infer_strides r resolved in
      let status := FrameMetadata_validate resolved max_frame_bytes in
      if bool_decide (status <> Ok) then (m, status) else (resolved, Ok)
  end.

(** [Protocol::describes_same_array(GeometryBlock, GeometryBlock)]. *)
Definition GeometryBlock_describes_same_array (a b : GeometryBlock) : bool :=
  bool_decide (gb_element_type a = gb_element_type b) &&
  (gb_element_size a =? gb_element_size b) && (gb_rank a =? gb_rank b) &&
  bool_decide (gb_shape a = gb_shape b) && bool_decide (gb_strides a = gb_strides b).

(** ** Reference semantics of a described array *)

Definition product (l : list Z) : Z := foldr Z.mul 1 l.
Definition sum (l : list Z) : Z := foldr Z.add 0 l.

(** Byte offset of the element at [idx]; the furthest offset of a non-empty array. *)
Definition offset_of (idx strides : list Z) : Z := sum (zip_with Z.mul idx strides).
Definition extent (shape strides : list Z) : Z :=
  sum (zip_with (fun n s => (n - 1) * s) shape strides).

(** What a geometry that passed the checks promises about [limit] bytes. *)
Record valid_array (rank : Z) (shape strides : array4) (element_size limit : Z) : Prop := {
  va_rank : 0 <= rank <= 4;
  va_tail : forall i, (Z.to_nat rank <= i < 4)%nat -> shape !!! i = 0 /\ strides !!! i = 0;
  va_bytes : product (take (Z.to_nat rank) shape) * element_size <= limit;
  va_span : Forall (Z.lt 0) (take (Z.to_nat rank) shape) ->
    extent (take (Z.to_nat rank) shape) (take (Z.to_nat rank) strides) + element_size <= limit
}.

(** Every prefix product of the shape fits in 64 bits. *)
Definition prefixes_fit (shape : list Z) : Prop :=
  forall k, (k <= length shape)%nat -> product (take k shape) < 2 ^ 64.

Section ArrayRules.
Implicit Types (shape strides : array4).

Lemma array_ok_lookup a i : array_ok a -> (i < 4)%nat -> in_range 64 (a !!! i).
Proof.
  intros [Hl Hf] ?. eapply (Forall_lookup_1 _ _ i); [done|].
  apply list_lookup_lookup_total_lt. lia.
Qed.

Lemma product_nonneg l : Forall (fun z => 0 <= z) l -> 0 <= product l.
Proof. induction 1; unfold product in *; simpl; [lia|nia]. Qed.
Lemma product_pos l : Forall (Z.lt 0) l -> 1 <= product l.
Proof. induction 1; unfold product in *; simpl; [lia|nia]. Qed.
Lemma product_snoc l z : product (l ++ [z]) = product l * z.
Proof. induction l; unfold product in *; simpl; lia. Qed.
Lemma product_app l1 l2 : product (l1 ++ l2) = product l1 * product l2.
Proof. induction l1; unfold product in *; simpl; lia. Qed.
Lemma extent_snoc l1 l2 n s :
  length l1 = length l2 -> extent (l1 ++ [n]) (l2 ++ [s]) = extent l1 l2 + (n - 1) * s.
Proof.
  intros Hl. unfold extent. rewrite zip_with_app by done. simpl.
  generalize (zip_with (fun n s => (n - 1) * s) l1 l2). intros l.
  induction l; unfold sum in *; simpl; lia.
Qed.
Lemma sum_nonneg l : Forall (fun z => 0 <= z) l -> 0 <= sum l.
Proof. induction 1; unfold sum in *; simpl; lia. Qed.

Lemma array_ok_take a n : array_ok a -> Forall (fun z => 0 <= z) (take n a).
Proof. intros [_ Hf]. apply Forall_take. eapply Forall_impl; [|done]. unfold in_range. lia. Qed.

Lemma take_snoc a i : array_ok a -> (i < 4)%nat -> take (S i) a = take i a ++ [a !!! i].
Proof.
  intros [Hl _] ?. apply take_S_r. apply list_lookup_lookup_total_lt. lia.
Qed.

(** The element loop computes the product, and fails exactly on a prefix that
    does not fit. *)
Lemma elements_loop_spec count i shape n :
  array_ok shape -> (i + count <= 4)%nat ->
  elements_loop count i shape (product (take i shape)) = Some n <->
  n = product (take (i + count) shape) /\
  (forall k, (i < k <= i + count)%nat -> product (take k shape) < 2 ^ 64).
Proof.
  intros Hs. revert i. induction count as [|count IH]; intros i ?; cbn [elements_loop].
  { rewrite Nat.add_0_r. split; [intros [= <-]; split; [done|lia]|intros [-> _]; done]. }
  pose proof (product_nonneg _ (array_ok_take shape i Hs)).
  pose proof (array_ok_lookup shape i Hs ltac:(lia)) as [? ?].
  assert (product (take (S i) shape) = product (take i shape) * shape !!! i) as Hp
    by (rewrite take_snoc, product_snoc by (done || lia); done).
  destruct (mul_overflow _ _) as [[] c] eqn:Hm.
  - split; [done|]. intros [_ Hk]. exfalso. specialize (Hk (S i) ltac:(lia)).
    rewrite Hp in Hk. unfold mul_overflow in Hm. injection Hm as Hov _. bool_to_prop. lia.
  - apply mul_overflow_false in Hm as [? ->]; [|lia..]. rewrite <-Hp, IH by lia.
    replace (S i + count)%nat with (i + S count)%nat by lia.
    split; (intros [-> Hk]; split; [done|]); intros k ?.
    + destruct (decide (k = S i)) as [->|]; [rewrite Hp; lia|apply Hk; lia].
    + apply Hk; lia.
Qed.

Lemma elements_loop_0 r shape n :
  array_ok shape -> (r <= 4)%nat ->
  elements_loop r 0 shape 1 = Some n <->
  n = product (take r shape) /\ prefixes_fit (take r shape).
Proof.
  intros Hs ?. pose proof (elements_loop_spec r 0 shape n Hs ltac:(lia)) as HH.
  simpl take in HH at 1. change (product []) with 1 in HH. rewrite HH. simpl (0 + r)%nat.
  unfold prefixes_fit. destruct Hs as [Hl _].
  split; (intros [-> Hk]; split; [done|]); intros k Hkr.
  - rewrite length_take in Hkr. rewrite take_take, Nat.min_l by lia.
    destruct k; [vm_compute; done|apply Hk; lia].
  - specialize (Hk k). rewrite length_take, take_take in Hk.
    rewrite !Nat.min_l in Hk by lia. apply Hk. lia.
Qed.

Lemma has_empty_dimension_false r shape :
  array_ok shape -> (r <= 4)%nat ->
  has_empty_dimension r shape = false <-> Forall (Z.lt 0) (take r shape).
Proof.
  intros Hs ?. unfold has_empty_dimension. rewrite <-not_true_iff_false, existsb_exists.
  rewrite Forall_lookup. split.
  - intros Hno i z Hi. apply lookup_take_Some in Hi as [Hi ?].
    pose proof (array_ok_lookup shape i Hs ltac:(lia)) as [? _].
    rewrite (list_lookup_total_correct _ _ _ Hi) in *.
    destruct (decide (z = 0)) as [->|]; [|lia]. exfalso. apply Hno. exists i.
    rewrite in_seq, (list_lookup_total_correct _ _ _ Hi). split; [lia|done].
  - intros Hall [i [Hi Hz]]. apply in_seq in Hi. apply Z.eqb_eq in Hz.
    enough (0 < shape !!! i) by lia. apply (Hall i). apply lookup_take_Some. split; [|lia].
    apply list_lookup_lookup_total_lt. destruct Hs. lia.
Qed.

Lemma extent_step shape strides i :
  array_ok shape -> array_ok strides -> (i < 4)%nat ->
  extent (take (S i) shape) (take (S i) strides) =
  extent (take i shape) (take i strides) + (shape !!! i - 1) * strides !!! i.
Proof.
  intros Hs Ht ?. rewrite !take_snoc by (done || lia). apply extent_snoc.
  rewrite !length_take. destruct Hs, Ht. lia.
Qed.

Lemma positive_dimension r shape i :
  array_ok shape -> Forall (Z.lt 0) (take r shape) -> (i < r)%nat -> (i < 4)%nat ->
  0 < shape !!! i.
Proof.
  intros Hs Hpos ? ?. apply (Forall_lookup_1 _ _ i _ Hpos). apply lookup_take_Some.
  split; [|lia]. apply list_lookup_lookup_total_lt. destruct Hs. lia.
Qed.

Lemma extent_mono shape strides k m :
  array_ok shape -> array_ok strides -> (k <= m <= 4)%nat ->
  Forall (Z.lt 0) (take m shape) ->
  extent (take k shape) (take k strides) <= extent (take m shape) (take m strides).
Proof.
  intros Hs Ht [Hkm Hm]. revert Hm. induction Hkm as [|m Hkm IH]; intros Hm Hpos; [lia|].
  rewrite extent_step by (done || lia).
  pose proof (positive_dimension _ _ m Hs Hpos ltac:(lia) ltac:(lia)).
  pose proof (array_ok_lookup strides m Ht ltac:(lia)) as [? _].
  assert (Forall (Z.lt 0) (take m shape)).
  { rewrite take_snoc in Hpos by (done || lia). by apply Forall_app in Hpos as [? _]. }
  specialize (IH ltac:(lia) ltac:(done)). nia.
Qed.

Lemma extent_nonneg shape strides m :
  array_ok shape -> array_ok strides -> (m <= 4)%nat ->
  Forall (Z.lt 0) (take m shape) -> 0 <= extent (take m shape) (take m strides).
Proof. intros. apply (extent_mono shape strides 0 m); done || lia. Qed.

(** The span loop computes the extent of a non-empty array, and fails exactly
    when it does not fit. *)
Lemma span_loop_spec count i shape strides n :
  array_ok shape -> array_ok strides -> (i + count <= 4)%nat ->
  Forall (Z.lt 0) (take (i + count) shape) ->
  extent (take i shape) (take i strides) < 2 ^ 64 ->
  span_loop count i shape strides (extent (take i shape) (take i strides)) = Some n <->
  n = extent (take (i + count) shape) (take (i + count) strides) /\ n < 2 ^ 64.
Proof.
  intros Hs Ht. revert i. induction count as [|count IH]; intros i ? Hpos Hlt; cbn [span_loop].
  { rewrite Nat.add_0_r. split; [intros [= <-]; done|intros [-> _]; done]. }
  pose proof (array_ok_lookup shape i Hs ltac:(lia)) as [? ?].
  pose proof (array_ok_lookup strides i Ht ltac:(lia)) as [? ?].
  pose proof (positive_dimension _ _ i Hs Hpos ltac:(lia) ltac:(lia)).
  pose proof (extent_step shape strides i Hs Ht ltac:(lia)) as He.
  replace (i + S count)%nat with (S i + count)%nat in * by lia.
  pose proof (extent_mono shape strides (S i) (S i + count) Hs Ht ltac:(lia) Hpos) as Hmono.
  assert (0 <= extent (take i shape) (take i strides)).
  { apply extent_nonneg; [done..|lia|]. replace i with (i `min` (S i + count))%nat by lia.
    rewrite <-take_take. by apply Forall_take. }
  rewrite wrap_small by (unfold in_range; lia).
  destruct (mul_overflow _ _) as [[] c] eqn:Hm.
  { unfold mul_overflow in Hm. injection Hm as Hov _. bool_to_prop.
    split; [done|intros [-> ?]; lia]. }
  apply mul_overflow_false in Hm as [? ->]; [|lia..].
  destruct (add_overflow _ _) as [[] d] eqn:Ha.
  { unfold add_overflow in Ha. injection Ha as Hov _. bool_to_prop.
    split; [done|intros [-> ?]; lia]. }
  apply add_overflow_false in Ha as [? ->]; [|nia..].
  rewrite <-He. apply IH; [lia|done|lia].
Qed.
End ArrayRules.

(** ** Soundness and completeness of the shape rules *)

Section ShapeRules.
Context (rank : Z) (shape strides : array4) (element_size limit : Z).
Context (Hrank : in_range 32 rank) (Hshape : array_ok shape) (Hstrides : array_ok strides).
Context (Hsize : 1 <= element_size < 2 ^ 32) (Hlimit : in_range 64 limit).

Lemma tail_zero_iff :
  rank <= 4 ->
  existsb (fun i => negb (shape !!! i =? 0) || negb (strides !!! i =? 0))
    (seq (Z.to_nat rank) (4 - Z.to_nat rank)) = false <->
  (forall i, (Z.to_nat rank <= i < 4)%nat -> shape !!! i = 0 /\ strides !!! i = 0).
Proof.
  intros ?. rewrite <-not_true_iff_false, existsb_exists. split.
  - intros Hno i Hi.
    destruct (decide (shape !!! i = 0 /\ strides !!! i = 0)) as [|Hbad]; [done|].
    exfalso. apply Hno. exists i. rewrite in_seq. split; [lia|].
    apply orb_true_iff. rewrite !negb_true_iff, !Z.eqb_neq.
    destruct (decide (shape !!! i = 0)); [right|left]; tauto.
  - intros Hall [i [Hi Hbad]]. apply in_seq in Hi. destruct (Hall i) as [Hs Ht]; [lia|].
    by rewrite Hs, Ht in Hbad.
Qed.

Lemma span_check_iff r :
  (r <= 4)%nat -> Forall (Z.lt 0) (take r shape) ->
  (match span_loop r 0 shape strides 0 with
   | None => GeometryMismatch
   | Some span =>
       let '(overflow, span) := add_overflow span element_size in
       if overflow then GeometryMismatch else
       if limit <? span then GeometryMismatch else Ok
   end) = Ok <->
  extent (take r shape) (take r strides) + element_size <= limit.
Proof.
  intros Hr Hpos. unfold in_range in *.
  pose proof (extent_nonneg shape strides r Hshape Hstrides ltac:(lia) Hpos).
  pose proof (fun n => span_loop_spec r 0 shape strides n
    Hshape Hstrides ltac:(lia) Hpos ltac:(vm_compute; done)) as Hsp.
  change (extent (take 0 shape) (take 0 strides)) with 0 in Hsp. simpl (0 + r)%nat in Hsp.
  destruct (span_loop r 0 shape strides 0) as [span|] eqn:Heq.
  2:{ split; [done|]. intros ?. enough (None = Some (extent (take r shape) (take r strides)))
        by done. apply Hsp. lia. }
  destruct (proj1 (Hsp span) eq_refl) as [-> Hlt].
  destruct (add_overflow _ _) as [[] total] eqn:Ha.
  { unfold add_overflow in Ha. injection Ha as Hov _. bool_to_prop. split; [done|lia]. }
  apply add_overflow_false in Ha as [? ->]; [|lia..].
  destruct (Z.ltb_spec limit (extent (take r shape) (take r strides) + element_size));
    split; done || lia.
Qed.

Lemma shape_rules_iff :
  validate_shape_and_strides rank shape strides element_size limit = Ok <->
  valid_array rank shape strides element_size limit /\
  prefixes_fit (take (Z.to_nat rank) shape).
Proof.
  unfold validate_shape_and_strides, in_range in *. change k_max_rank with 4.
  destruct (Z.ltb_spec 4 rank).
  { split; [done|]. intros [[? ? ? ?] ?]. lia. }
  pose proof (tail_zero_iff ltac:(lia)) as Htail.
  destruct (existsb _ (seq _ _)).
  { split; [done|]. intros [[? Hz ? ?] ?]. by apply Htail in Hz. }
  assert (forall i, (Z.to_nat rank <= i < 4)%nat -> shape !!! i = 0 /\ strides !!! i = 0)
    as Hzero by by apply Htail.
  assert (Z.to_nat rank <= 4)%nat as Hr by lia. clear Htail.
  destruct (elements_loop _ 0 shape 1) as [elements|] eqn:Heq.
  2:{ split; [done|]. intros [_ Hfit]. exfalso.
      pose proof (elements_loop_0 _ shape (product (take (Z.to_nat rank) shape)) Hshape Hr) as Hel.
      rewrite Heq in Hel. by destruct Hel as [_ Hel]; discriminate Hel. }
  apply elements_loop_0 in Heq as [-> Hfit]; [|done..].
  pose proof (product_nonneg _ (array_ok_take shape (Z.to_nat rank) Hshape)) as Hnn.
  destruct (mul_overflow _ _) as [[] described] eqn:Hm.
  { unfold mul_overflow in Hm. injection Hm as Hov _. bool_to_prop.
    split; [done|]. intros [[? ? ? ?] ?]. lia. }
  apply mul_overflow_false in Hm as [? ->]; [|lia..].
  destruct (Z.ltb_spec limit (product (take (Z.to_nat rank) shape) * element_size)).
  { split; [done|]. intros [[? ? ? ?] ?]. lia. }
  pose proof (has_empty_dimension_false _ shape Hshape Hr) as Hempty.
  destruct (has_empty_dimension _ shape).
  - split; [|done]. intros _. split; [|done]. split; [lia|done|done|].
    intros Hpos. by apply Hempty in Hpos.
  - assert (Forall (Z.lt 0) (take (Z.to_nat rank) shape)) as Hpos by by apply Hempty.
    rewrite span_check_iff by done. split.
    + intros ?. split; [|done]. split; [lia|done|done|]. intros _. done.
    + intros [[? ? ? Hsp] _]. by apply Hsp.
Qed.
End ShapeRules.

(** Values of the C++ types: every field is in the range of its width. *)
Definition geometry_typed (g : GeometryBlock) : Prop :=
  in_range 32 (gb_generation g) /\ enum_ok 32 (gb_element_type g) /\
  in_range 32 (gb_element_size g) /\ in_range 32 (gb_rank g) /\
  in_range 64 (gb_max_frame_bytes g) /\ in_range 32 (gb_ring_depth g) /\
  in_range 32 (gb_credit_window g) /\ array_ok (gb_shape g) /\ array_ok (gb_strides g).

Definition from_geometry (g : Geometry) : GeometryBlock :=
  mkGeometryBlock (geo_generation g) (geo_element_type g) (geo_element_size g)
    (geo_rank g) (geo_max_frame_bytes g) (geo_ring_depth g) (geo_credit_window g)
    (geo_shape g) (geo_strides g).

Lemma offset_le_extent idx shape strides :
  length idx = length shape -> length strides = length shape ->
  Forall (fun z => 0 <= z) strides ->
  (forall i, (i < length shape)%nat -> 0 <= idx !!! i < shape !!! i) ->
  0 <= offset_of idx strides <= extent shape strides.
Proof.
  revert shape strides.
  induction idx as [|x idx IH]; intros [|n shape] [|s strides] Hl1 Hl2 Hnn Hidx;
    try discriminate; [done|].
  apply Forall_cons_1 in Hnn as [? ?].
  destruct (IH shape strides) as [? ?]; [simpl in *; lia..|done| |].
  { intros i Hi. apply (Hidx (S i)). simpl. lia. }
  pose proof (Hidx 0%nat ltac:(simpl; lia)) as [? ?]. simpl in *.
  unfold offset_of, extent, sum in *. simpl. nia.
Qed.

Lemma validate_element_size_ok type size :
  validate_element_size type size = Ok ->
  1 <= size <= 256 /\ (type <> ET_Unknown -> element_size_of type = size).
Proof.
  unfold validate_element_size. unfold_limits. intros H. split_guards.
  split; [lia|]. intros Ht.
  match goal with H : _ && _ = false |- _ => apply andb_false_iff in H as [H|H] end;
    bool_to_prop; tauto.
Qed.

Lemma GeometryBlock_validate_ok g :
  GeometryBlock_validate g = Ok ->
  gb_generation g <> 0 /\ 1 <= gb_element_size g <= 256 /\
  4096 <= gb_max_frame_bytes g <= 268435456 /\ 2 <= gb_ring_depth g <= 1024 /\
  gb_credit_window g <> 0 /\ gb_credit_window g <= gb_ring_depth g /\
  validate_shape_and_strides (gb_rank g) (gb_shape g) (gb_strides g)
    (gb_element_size g) (gb_max_frame_bytes g) = Ok.
Proof.
  unfold GeometryBlock_validate. intros H.
  destruct (gb_generation g =? 0) eqn:?; [done|].
  case_bool_decide as Hes; [by rewrite H in Hes|].
  apply validate_element_size_ok in Hes as [? _].
  unfold_limits. split_guards. repeat split; done || lia.
Qed.

Section Addressing.
Context (rank : Z) (shape strides : array4) (element_size limit : Z).

Lemma elements_in_bounds (idx : list Z) :
  in_range 32 rank -> array_ok shape -> array_ok strides ->
  1 <= element_size < 2 ^ 32 -> in_range 64 limit ->
  validate_shape_and_strides rank shape strides element_size limit = Ok ->
  length idx = Z.to_nat rank ->
  (forall i, (i < Z.to_nat rank)%nat -> 0 <= idx !!! i < shape !!! i) ->
  0 <= offset_of idx (take (Z.to_nat rank) strides) /\
  offset_of idx (take (Z.to_nat rank) strides) + element_size <= limit.
Proof.
  intros Hr Hs Ht He Hl Hok Hlen Hidx.
  apply shape_rules_iff in Hok as [[? _ _ Hspan] _]; [|done..].
  assert (length (take (Z.to_nat rank) shape) = Z.to_nat rank) as Hls
    by (destruct Hs; rewrite length_take; lia).
  assert (forall i, (i < Z.to_nat rank)%nat ->
    0 <= idx !!! i < take (Z.to_nat rank) shape !!! i) as Hidx'.
  { intros i Hi. rewrite lookup_total_take_lt by done. by apply Hidx. }
  assert (Forall (Z.lt 0) (take (Z.to_nat rank) shape)) as Hpos.
  { apply Forall_lookup. intros i z Hi. pose proof (lookup_lt_Some _ _ _ Hi).
    pose proof (Hidx' i ltac:(lia)) as Hz.
    rewrite (list_lookup_total_correct _ _ _ Hi) in Hz. lia. }
  destruct (offset_le_extent idx (take (Z.to_nat rank) shape)
    (take (Z.to_nat rank) strides)) as [? ?].
  - lia.
  - destruct Hs, Ht. rewrite !length_take. lia.
  - by apply array_ok_take.
  - rewrite Hls. done.
  - specialize (Hspan Hpos). lia.
Qed.

(** memory safety of the shape rules. When the shared validator accepts a
    description against [limit] bytes, every element the description names --
    any multi-index below the shape -- lies inside those bytes, in exact
    arithmetic, so no wrapped product can satisfy the check. *)
Theorem validated_elements_in_bounds (idx : list Z) :
  in_range 32 rank -> array_ok shape -> array_ok strides ->
  1 <= element_size < 2 ^ 32 -> in_range 64 limit ->
  validate_shape_and_strides rank shape strides element_size limit = Ok ->
  length idx = Z.to_nat rank ->
  (forall i, (i < Z.to_nat rank)%nat -> 0 <= idx !!! i < shape !!! i) ->
  0 <= offset_of idx (take (Z.to_nat rank) strides) /\
  offset_of idx (take (Z.to_nat rank) strides) + element_size <= limit.
Proof. apply elements_in_bounds. Qed.

(** for an array with no empty dimension the overflow-checked validator is
    exactly the mathematical condition: the rank is at most four, the entries
    beyond it are zero, and both the described bytes and the furthest reachable
    byte fit in [limit]. *)
Theorem validate_nonempty_iff :
  in_range 32 rank -> array_ok shape -> array_ok strides ->
  1 <= element_size < 2 ^ 32 -> in_range 64 limit ->
  Forall (Z.lt 0) (take (Z.to_nat rank) shape) ->
  validate_shape_and_strides rank shape strides element_size limit = Ok <->
  valid_array rank shape strides element_size limit.
Proof.
  intros Hr Hs Ht He Hl Hpos. rewrite shape_rules_iff by done.
  split; [by intros [? _]|]. intros Hv. split; [done|].
  destruct Hv as [? _ Hb _]. intros k Hk. unfold in_range in *.
  rewrite <-(take_drop k (take (Z.to_nat rank) shape)), product_app in Hb.
  pose proof (product_pos _ (Forall_take _ k _ Hpos)).
  pose proof (product_pos _ (Forall_drop _ k _ Hpos)).
  nia.
Qed.
End Addressing.

Lemma validated_elements_in_bounds_witness :
  0 <= offset_of [2; 3] [8; 2] /\ offset_of [2; 3] [8; 2] + 2 <= 4096.
Proof.
  apply (validated_elements_in_bounds 2 [3; 4; 0; 0] [8; 2; 0; 0] 2 4096 [2; 3]).
  - done.
  - solve_array_ok.
  - solve_array_ok.
  - done.
  - done.
  - reflexivity.
  - reflexivity.
  - intros [|[|i]] Hi; [simpl; lia..|]. simpl in Hi. lia.
Defined.

Lemma validate_nonempty_iff_witness :
  validate_shape_and_strides 2 [3; 4; 0; 0] [8; 2; 0; 0] 2 4096 = Ok <->
  valid_array 2 [3; 4; 0; 0] [8; 2; 0; 0] 2 4096.
Proof.
  apply (validate_nonempty_iff 2 [3; 4; 0; 0] [8; 2; 0; 0] 2 4096).
  - done.
  - solve_array_ok.
  - solve_array_ok.
  - done.
  - done.
  - repeat constructor; done.
Defined.

(** ** [reachable_span] *)

Lemma reachable_loop_spec count i shape strides es :
  array_ok shape -> array_ok strides -> (i + count <= 4)%nat ->
  Forall (Z.lt 0) (take (i + count) shape) -> 0 <= es ->
  extent (take (i + count) shape) (take (i + count) strides) + es < 2 ^ 64 ->
  reachable_loop count i shape strides (extent (take i shape) (take i strides) + es) =
  extent (take (i + count) shape) (take (i + count) strides) + es.
Proof.
  intros Hs Ht. revert i. induction count as [|count IH]; intros i ? Hpos Hes Hb;
    cbn [reachable_loop]; [by rewrite Nat.add_0_r|].
  pose proof (array_ok_lookup shape i Hs ltac:(lia)) as [? ?].
  pose proof (array_ok_lookup strides i Ht ltac:(lia)) as [? ?].
  pose proof (positive_dimension _ _ i Hs Hpos ltac:(lia) ltac:(lia)).
  pose proof (extent_step shape strides i Hs Ht ltac:(lia)) as He.
  replace (i + S count)%nat with (S i + count)%nat in * by lia.
  pose proof (extent_mono shape strides (S i) (S i + count) Hs Ht ltac:(lia) Hpos) as Hmono.
  assert (0 <= extent (take i shape) (take i strides)).
  { apply extent_nonneg; [done..|lia|]. replace i with (i `min` (S i + count))%nat by lia.
    rewrite <-take_take. by apply Forall_take. }
  assert (0 <= (shape !!! i - 1) * strides !!! i) by nia.
  rewrite (wrap_small 64 (shape !!! i - 1)) by (unfold in_range; lia).
  rewrite (wrap_small 64 ((shape !!! i - 1) * _)) by (unfold in_range; lia).
  rewrite wrap_small by (unfold in_range; lia).
  destruct (Z.ltb_spec (2 ^ 64 - 1 - (shape !!! i - 1) * strides !!! i)
    (extent (take i shape) (take i strides) + es)); [lia|].
  rewrite wrap_small by (unfold in_range; lia).
  rewrite <-IH by (done || lia). f_equal. lia.
Qed.

(** [reachable_span] of a geometry that validates and is not empty is the
    exact furthest byte any element reaches; it never takes its overflow exit
    and never exceeds [max_frame_bytes]. *)
Theorem reachable_span_exact g :
  geometry_typed (from_geometry g) -> Geometry_validate g = Ok ->
  Forall (Z.lt 0) (take (Z.to_nat (geo_rank g)) (geo_shape g)) ->
  reachable_span g =
    extent (take (Z.to_nat (geo_rank g)) (geo_shape g))
           (take (Z.to_nat (geo_rank g)) (geo_strides g)) + geo_element_size g /\
  reachable_span g <= geo_max_frame_bytes g.
Proof.
  intros (? & ? & ? & Hr & Hm & ? & ? & Hs & Ht) Hok Hpos.
  pose proof (GeometryBlock_validate_ok (from_geometry g) Hok) as (_ & ? & ? & _ & _ & _ & Hshape).
  apply shape_rules_iff in Hshape as [[? _ _ Hspan] _]; [|done..|simpl in *; lia|done].
  specialize (Hspan Hpos). simpl in *.
  assert (reachable_span g = extent (take (Z.to_nat (geo_rank g)) (geo_shape g))
    (take (Z.to_nat (geo_rank g)) (geo_strides g)) + geo_element_size g) as ->; [|done].
  unfold reachable_span. rewrite Hok. simpl.
  rewrite (proj2 (has_empty_dimension_false (Z.to_nat (geo_rank g)) _ Hs ltac:(lia)) Hpos).
  unfold in_range in *.
  apply (reachable_loop_spec (Z.to_nat (geo_rank g)) 0); [done..|lia|done|lia|].
  simpl (0 + _)%nat. lia.
Qed.

Definition example_geometry : Geometry :=
  mkGeometry 1 ET_UInt16 2 2 4096 4 2 [3; 4; 0; 0] [8; 2; 0; 0].

Lemma reachable_span_exact_witness :
  reachable_span example_geometry = extent [3; 4] [8; 2] + 2 /\
  reachable_span example_geometry <= 4096.
Proof.
  apply (reachable_span_exact example_geometry); [|done|repeat constructor; done].
  repeat split; try done; repeat constructor; done.
Defined.

(** ** [FrameMetadata::resolve] *)

Lemma resolve_ok m mx m' :
  resolve m mx = (m', Ok) ->
  exists m2, infer_payload_bytes (Z.to_nat (fm_rank m)) (infer_element_size m) = Some m2 /\
    m' = infer_strides (Z.to_nat (fm_rank m)) m2 /\
    FrameMetadata_validate m' mx = Ok.
Proof.
  unfold resolve. intros H. repeat (guard_step; try congruence).
  destruct (infer_payload_bytes _ _) as [m2|]; [|congruence].
  case_bool_decide; [congruence|]. exists m2. simplify_eq. naive_solver.
Qed.

Lemma resolve_failed m mx m' st : resolve m mx = (m', st) -> st <> Ok -> m' = m.
Proof.
  unfold resolve. intros H Hst. repeat (guard_step; try congruence).
  destruct (infer_payload_bytes _ _) as [m2|]; [|congruence].
  case_bool_decide; congruence.
Qed.

Lemma infer_payload_cases r m m2 :
  infer_payload_bytes r m = Some m2 ->
  (fm_payload_bytes m <> 0 /\ m2 = m) \/
  (fm_payload_bytes m = 0 /\ exists v, m2 = fm_with_payload m v).
Proof.
  unfold infer_payload_bytes. destruct (Z.eqb_spec (fm_payload_bytes m) 0); [|naive_solver].
  destruct (elements_loop _ _ _ _); [|done]. destruct (mul_overflow _ _) as [[] v]; [done|].
  naive_solver.
Qed.

(** The fields [resolve] may not touch. *)
Definition same_description (a b : FrameMetadata) : Prop :=
  fm_element_type a = fm_element_type b /\ fm_rank a = fm_rank b /\
  fm_shape a = fm_shape b /\ fm_timestamp_ns a = fm_timestamp_ns b /\
  fm_event_counter a = fm_event_counter b /\ fm_quality a = fm_quality b /\
  fm_memory_kind a = fm_memory_kind b /\ fm_endian a = fm_endian b.

Lemma resolve_spec m mx :
  let '(m', st) := resolve m mx in
  (st = Ok ->
     FrameMetadata_validate m' mx = Ok /\ same_description m' m /\
     (fm_element_size m <> 0 -> fm_element_size m' = fm_element_size m) /\
     (fm_payload_bytes m <> 0 -> fm_payload_bytes m' = fm_payload_bytes m) /\
     (strides_unset (Z.to_nat (fm_rank m)) m = false -> fm_strides m' = fm_strides m)) /\
  (st <> Ok -> m' = m).
Proof.
  destruct (resolve m mx) as [m' st] eqn:Hr. split; [intros ->|by eapply resolve_failed].
  apply resolve_ok in Hr as (m2 & Hp & -> & Hv). split; [done|]. clear Hv.
  apply infer_payload_cases in Hp.
  unfold infer_element_size, infer_strides, strides_unset, same_description in *.
  destruct (Z.eqb_spec (fm_element_size m) 0) as [He|He];
    destruct Hp as [[Hp ->]|[Hp [v ->]]]; simpl in *;
    destruct (forallb _ _ && _) eqn:Hs; simpl; repeat split; intros; try done;
    apply andb_true_iff in Hs as [Hs _]; congruence.
Qed.

(** [FrameMetadata::resolve] on every branch. On [Ok] the object passes
    [validate], no described field changed, and each inferrable field the
    producer did supply -- element size, payload size, some stride -- is kept;
    on any other status the object is untouched. *)
Theorem resolve_correct m mx :
  let '(m', st) := resolve m mx in
  (st = Ok ->
     FrameMetadata_validate m' mx = Ok /\ same_description m' m /\
     (fm_element_size m <> 0 -> fm_element_size m' = fm_element_size m) /\
     (fm_payload_bytes m <> 0 -> fm_payload_bytes m' = fm_payload_bytes m) /\
     (strides_unset (Z.to_nat (fm_rank m)) m = false -> fm_strides m' = fm_strides m)) /\
  (st <> Ok -> m' = m).
Proof. apply resolve_spec. Qed.

Lemma fill_loop_sets i shape strides stride j :
  (j < i)%nat -> (i <= length strides)%nat ->
  (j = i - 1)%nat -> fill_loop i shape strides stride !!! j = stride.
Proof.
  intros Hj Hl ->. destruct i as [|i]; [lia|]. cbn [fill_loop].
  replace (S i - 1)%nat with i by lia.
  assert (forall k shape strides stride, (k <= i)%nat -> strides !!! i = stride ->
    forall s, fill_loop k shape strides s !!! i = stride) as Hkeep.
  { clear. induction k as [|k IH]; intros shape strides stride Hk Hi s; cbn [fill_loop]; [done|].
    destruct (mul_overflow _ _) as [[] c].
    - rewrite list_lookup_total_insert_ne by lia. done.
    - apply IH; [lia|]. by rewrite list_lookup_total_insert_ne by lia. }
  assert (<[i := stride]> strides !!! i = stride) as Hset
    by (apply list_lookup_total_insert_eq; lia).
  destruct (mul_overflow _ _) as [[] c]; [done|]. by apply Hkeep.
Qed.

Lemma FrameMetadata_validate_ok m mx :
  FrameMetadata_validate m mx = Ok ->
  fm_rank m <= 4 /\ 1 <= fm_element_size m <= 256 /\ fm_payload_bytes m <> 0 /\
  fm_payload_bytes m <= mx /\ fm_payload_bytes m <= 268435456 /\
  validate_shape_and_strides (fm_rank m) (fm_shape m) (fm_strides m)
    (fm_element_size m) (fm_payload_bytes m) = Ok.
Proof.
  unfold FrameMetadata_validate. change k_max_rank with 4. intros H.
  destruct (Z.ltb_spec 4 (fm_rank m)); [done|]. guard_step; [done|].
  case_bool_decide as Hes; [by rewrite H in Hes|].
  apply validate_element_size_ok in Hes as [? _].
  unfold_limits. split_guards. repeat split; done || lia.
Qed.

(** The metadata a producer can hand in: field ranges of the C++ types. *)
Definition metadata_typed (m : FrameMetadata) : Prop :=
  enum_ok 32 (fm_element_type m) /\ in_range 32 (fm_element_size m) /\
  in_range 32 (fm_rank m) /\ array_ok (fm_shape m) /\ array_ok (fm_strides m) /\
  in_range 64 (fm_payload_bytes m).

Lemma strides_unset_filled r m :
  (0 < r <= 4)%nat -> fm_element_size m <> 0 ->
  strides_unset r (fm_with_strides m
    (fill_contiguous_strides r (fm_shape m) (fm_element_size m))) = false.
Proof.
  intros Hr He. unfold strides_unset. apply not_true_iff_false. rewrite forallb_forall.
  intros Hall. specialize (Hall (r - 1)%nat ltac:(apply in_seq; lia)). simpl in Hall.
  unfold fill_contiguous_strides in Hall.
  rewrite fill_loop_sets in Hall by (simpl; lia). bool_to_prop. lia.
Qed.

(** resolving is idempotent. Once [resolve] has succeeded, resolving the
    result again succeeds and changes nothing. *)
Theorem resolve_idempotent m mx m' :
  metadata_typed m -> resolve m mx = (m', Ok) -> resolve m' mx = (m', Ok).
Proof.
  intros (_ & _ & Hrank & _) Hres. unfold in_range in *.
  pose proof (resolve_spec m mx) as Hc. rewrite Hres in Hc.
  destruct Hc as [Hc _]. destruct (Hc eq_refl) as (Hv & (_ & Hr & _) & _). clear Hc.
  pose proof (FrameMetadata_validate_ok _ _ Hv) as (? & ? & ? & _).
  apply resolve_ok in Hres as (m2 & Hp & Hm' & _).
  assert (infer_element_size m' = m') as E1.
  { unfold infer_element_size. by destruct (Z.eqb_spec (fm_element_size m') 0); [lia|]. }
  assert (infer_payload_bytes (Z.to_nat (fm_rank m')) m' = Some m') as E2.
  { unfold infer_payload_bytes. by destruct (Z.eqb_spec (fm_payload_bytes m') 0); [lia|]. }
  assert (infer_strides (Z.to_nat (fm_rank m')) m' = m') as E3.
  { rewrite Hr, Hm'. unfold infer_strides at 2 3.
    destruct (strides_unset (Z.to_nat (fm_rank m)) m2 && (0 <? fm_rank m2)) eqn:Hs.
    - apply andb_true_iff in Hs as [_ Hs]. bool_to_prop.
      unfold infer_strides in Hm'. rewrite Hm' in *. unfold infer_strides.
      simpl in *. destruct (_ && _); simpl in *.
      all: rewrite strides_unset_filled; [done|lia|simpl in *; lia].
    - unfold infer_strides. by rewrite Hs. }
  unfold resolve. change k_max_rank with 4. rewrite E1, E2, E3, Hv.
  destruct (Z.ltb_spec 4 (fm_rank m')); [lia|]. unfold_limits.
  destruct (Z.ltb_spec (fm_element_size m') 1), (Z.ltb_spec 256 (fm_element_size m'));
    simpl; done || lia.
Qed.

Lemma fill_loop_spec i shape strides stride j :
  array_ok shape -> (i <= 4)%nat -> length strides = 4%nat -> 1 <= stride ->
  Forall (Z.lt 0) (take i shape) -> stride * product (take i shape) < 2 ^ 64 ->
  fill_loop i shape strides stride !!! j =
  if bool_decide (j < i)%nat then stride * product (drop (S j) (take i shape))
  else strides !!! j.
Proof.
  intros Hs. revert strides stride.
  induction i as [|i IH]; intros strides stride Hi Hl Hst Hpos Hfit; cbn [fill_loop].
  { by rewrite bool_decide_eq_false_2 by lia. }
  rewrite take_snoc in Hpos, Hfit by (done || lia). rewrite product_snoc in Hfit.
  apply Forall_app in Hpos as [Hpos Hpos1]. apply Forall_cons_1 in Hpos1 as [Hx _].
  pose proof (product_pos _ Hpos).
  destruct (mul_overflow _ _) as [[] c] eqn:Hm.
  { unfold mul_overflow in Hm. injection Hm as Hov _. bool_to_prop. nia. }
  apply mul_overflow_false in Hm as [? ->]; [|lia..].
  rewrite IH; [|lia|by rewrite length_insert|nia|done|nia].
  assert (length (take i shape) = i) as Hlt by (destruct Hs; rewrite length_take; lia).
  destruct (decide (j < i)%nat).
  - rewrite !bool_decide_eq_true_2 by lia. rewrite take_snoc by (done || lia).
    rewrite drop_app_le by lia. rewrite product_snoc. lia.
  - rewrite bool_decide_eq_false_2 by lia. destruct (decide (j = i)) as [->|].
    + rewrite bool_decide_eq_true_2 by lia. rewrite list_lookup_total_insert_eq by lia.
      rewrite drop_ge by (rewrite length_take; lia). unfold product. simpl. lia.
    + rewrite bool_decide_eq_false_2 by lia. by rewrite list_lookup_total_insert_ne by lia.
Qed.

Lemma described_bytes_fit rank shape strides es limit :
  0 <= rank -> array_ok shape -> 0 <= es ->
  validate_shape_and_strides rank shape strides es limit = Ok ->
  product (take (Z.to_nat rank) shape) * es <= limit /\
  product (take (Z.to_nat rank) shape) * es < 2 ^ 64.
Proof.
  intros ? Hs ?. unfold validate_shape_and_strides. change k_max_rank with 4.
  destruct (Z.ltb_spec 4 rank); [done|]. destruct (existsb _ (seq _ _)); [done|].
  destruct (elements_loop _ _ _ _) eqn:He; [|done].
  apply elements_loop_0 in He as [-> _]; [|done|lia].
  pose proof (product_nonneg _ (array_ok_take shape (Z.to_nat rank) Hs)).
  destruct (mul_overflow _ _) as [[] d] eqn:Hm; [done|].
  apply mul_overflow_false in Hm as [? ->]; [|done..].
  destruct (Z.ltb_spec limit (product (take (Z.to_nat rank) shape) * es)); [done|].
  intros _. done.
Qed.

(** strides left at zero for a non-empty array come out C-contiguous: the
    stride of each dimension is the element size times the product of the
    inner dimensions, and the entries beyond the rank are zero. *)
Theorem resolve_contiguous m mx m' :
  metadata_typed m -> resolve m mx = (m', Ok) -> 0 < fm_rank m ->
  strides_unset (Z.to_nat (fm_rank m)) m = true ->
  Forall (Z.lt 0) (take (Z.to_nat (fm_rank m)) (fm_shape m)) ->
  forall j, fm_strides m' !!! j =
    if bool_decide (j < Z.to_nat (fm_rank m))%nat
    then fm_element_size m' *
         product (drop (S j) (take (Z.to_nat (fm_rank m)) (fm_shape m)))
    else array4_zero !!! j.
Proof.
  intros (_ & _ & Hrank & Hs & _) Hres Hpos Hun Hdims j. unfold in_range in *.
  pose proof (resolve_spec m mx) as Hc. rewrite Hres in Hc.
  destruct Hc as [Hc _]. destruct (Hc eq_refl) as (Hv & (_ & Hr & Hsh & _) & _). clear Hc.
  apply FrameMetadata_validate_ok in Hv as (? & ? & _ & _ & _ & Hv).
  rewrite Hr, Hsh in *. apply described_bytes_fit in Hv as [_ Hfit]; [|lia|done|lia].
  apply resolve_ok in Hres as (m2 & Hp & Hm' & _).
  assert (fm_strides m2 = fm_strides m /\ fm_rank m2 = fm_rank m) as [Hst2 Hr2].
  { apply infer_payload_cases in Hp. unfold infer_element_size in Hp.
    destruct (fm_element_size m =? 0);
      destruct Hp as [[_ ->]|[_ [v ->]]]; done. }
  unfold infer_strides, strides_unset in Hm', Hun.
  rewrite Hst2, Hun, Hr2 in Hm'. destruct (Z.ltb_spec 0 (fm_rank m)); [|lia].
  simpl in Hm'. rewrite Hm' in *. simpl in *. rewrite Hsh.
  unfold fill_contiguous_strides. apply fill_loop_spec; done || lia.
Qed.

Definition example_metadata : FrameMetadata :=
  mkFrameMetadata ET_UInt16 0 2 [3; 4; 0; 0] [0; 0; 0; 0] 0 7 9 1 Host Little.

Lemma example_metadata_typed : metadata_typed example_metadata.
Proof. repeat split; try done; repeat constructor; done. Qed.

Lemma resolve_idempotent_witness :
  resolve (fst (resolve example_metadata 4096)) 4096 =
  (fst (resolve example_metadata 4096), Ok).
Proof.
  apply (resolve_idempotent example_metadata 4096); [apply example_metadata_typed|].
  reflexivity.
Defined.

Lemma resolve_contiguous_witness :
  fm_strides (fst (resolve example_metadata 4096)) !!! 0%nat =
  (if bool_decide (0 < 2)%nat then 2 * product (drop 1 [3; 4]) else 0).
Proof.
  apply (resolve_contiguous example_metadata 4096 (fst (resolve example_metadata 4096))).
  - apply example_metadata_typed.
  - reflexivity.
  - reflexivity.
  - reflexivity.
  - repeat constructor; done.
Defined.

(** An empty array whose inner dimensions overflow. *)
Definition overflowing_empty : FrameMetadata :=
  mkFrameMetadata ET_UInt8 1 3 [0; 2 ^ 63; 4; 0] [0; 0; 0; 0] 8 0 0 0 Host Little.

(** the comment in [fill_contiguous_strides] says that a stride overflow is
    always rejected by the caller's [validate]. An empty outer dimension is a
    counterexample: [resolve] succeeds and keeps the partially filled strides,
    whose outermost entry is still zero. *)
Theorem partial_strides_survive_resolve :
  snd (resolve overflowing_empty 4096) = Ok /\
  fst (mul_overflow 4 (2 ^ 63)) = true /\
  fm_strides (fst (resolve overflowing_empty 4096)) = [0; 4; 1; 0].
Proof. by vm_compute. Qed.
