(* ===== verification/Text.v ===== *)
(** * Decimal text and stream names

    The parts of the C++ standard library the sources use on text --
    [std::to_string] on unsigned integers and [std::from_chars] in base ten --
    and the stream-name rule, which the sources write out three times
    ([Protocol::validate_stream_name], [valid_stream_name] in [geometry.cpp]
    and [is_valid_stream_name] in [config.cpp]). *)
From S2P Require Import Prelude Enums Limits.
From Stdlib Require Import Strings.Byte.

(** ** Decimal printing and parsing *)

Definition digit (d : Z) : byte := byte_of_Z (48 + d).
Definition digit_value (c : byte) : option Z :=
  let z := Z_of_byte c in
  if (48 <=? z) && (z <=? 57) then Some (z - 48) else None.

(** [std::to_string] of an unsigned value below [10 ^ fuel]; twenty digits are
    enough for 64 bits. *)
Fixpoint to_digits (fuel : nat) (z : Z) : bytes :=
  match fuel with
  | O => []
  | S fuel => if z <? 10 then [digit z] else to_digits fuel (z / 10) ++ [digit (z mod 10)]
  end.
Definition to_string (z : Z) : bytes := to_digits 20 z.

(** The digits of [std::from_chars(first, last, value, 10)] for an unsigned
    type: [None] when it stops before [last]. *)
Fixpoint parse_digits (text : bytes) (acc : Z) : option Z :=
  match text with
  | [] => Some acc
  | c :: text =>
      match digit_value c with
      | None => None
      | Some d => parse_digits text (acc * 10 + d)
      end
  end.

(** [parse_bulk_stream_integer<Integer>] for an unsigned type of width [w]:
    empty text, a stray character and an out-of-range value are all refused. *)
Definition parse_bulk_stream_integer (w : Z) (text : bytes) : option Z :=
  match text with
  | [] => None
  | _ =>
      match parse_digits text 0 with
      | None => None
      | Some parsed => if parsed <? 2 ^ w then Some parsed else None
      end
  end.

(** ** Stream names *)

Definition in_chars (lo hi : byte) (c : byte) : bool :=
  (Z_of_byte lo <=? Z_of_byte c) && (Z_of_byte c <=? Z_of_byte hi).

Definition stream_name_char (c : byte) : bool :=
  in_chars "A"%byte "Z"%byte c || in_chars "a"%byte "z"%byte c ||
  in_chars "0"%byte "9"%byte c ||
  bool_decide (c = "_"%byte) || bool_decide (c = "."%byte) || bool_decide (c = "-"%byte).

(** [valid_stream_name] and [is_valid_stream_name]. *)
Definition valid_stream_name (name : bytes) : bool :=
  if (Z.of_nat (length name) <? k_min_stream_name_bytes) ||
     (k_max_stream_name_bytes <? Z.of_nat (length name)) then false
  else forallb stream_name_char name.

(** [Protocol::validate_stream_name]. *)
Definition validate_stream_name (name : bytes) : Status :=
  if (Z.of_nat (length name) <? k_min_stream_name_bytes) ||
     (k_max_stream_name_bytes <? Z.of_nat (length name)) then MalformedMessage
  else if forallb stream_name_char name then Ok else MalformedMessage.

(** ** Round trip of decimal text *)

Lemma digit_value_digit d : 0 <= d < 10 -> digit_value (digit d) = Some d.
Proof.
  intros ?. unfold digit_value, digit.
  rewrite Z_of_byte_of_Z, wrap_small by (unfold in_range; lia).
  destruct (Z.leb_spec 48 (48 + d)), (Z.leb_spec (48 + d) 57); simpl; try lia.
  f_equal. lia.
Qed.

Lemma parse_digits_app l1 l2 acc acc' :
  parse_digits l1 acc = Some acc' ->
  parse_digits (l1 ++ l2) acc = parse_digits l2 acc'.
Proof.
  revert acc. induction l1 as [|c l1 IH]; simpl; intros acc; [naive_solver|].
  destruct (digit_value c); [apply IH|done].
Qed.

Lemma parse_to_digits fuel z :
  0 <= z < 10 ^ Z.of_nat fuel -> parse_digits (to_digits fuel z) 0 = Some z.
Proof.
  revert z. induction fuel as [|fuel IH]; intros z Hz; [simpl in *; f_equal; lia|].
  cbn [to_digits]. destruct (Z.ltb_spec z 10).
  { simpl. rewrite digit_value_digit by lia. done. }
  rewrite Nat2Z.inj_succ, Z.pow_succ_r in Hz by lia.
  pose proof (Z.div_mod z 10 ltac:(lia)). pose proof (Z.mod_pos_bound z 10 ltac:(lia)).
  rewrite (parse_digits_app _ _ 0 (z / 10)).
  - simpl. rewrite digit_value_digit by lia. f_equal. lia.
  - apply IH. split; [apply Z.div_pos; lia|apply Z.div_lt_upper_bound; lia].
Qed.

Lemma to_digits_nonempty fuel z : fuel <> O -> to_digits fuel z <> [].
Proof.
  destruct fuel as [|fuel]; [done|]. intros _. cbn [to_digits].
  destruct (z <? 10); [done|]. by destruct (to_digits fuel (z / 10)).
Qed.

Lemma parse_to_digits_integer w fuel z :
  fuel <> O -> 2 ^ w <= 10 ^ Z.of_nat fuel -> in_range w z ->
  parse_bulk_stream_integer w (to_digits fuel z) = Some z.
Proof.
  intros Hf Hw Hz. unfold parse_bulk_stream_integer, in_range in *.
  pose proof (to_digits_nonempty fuel z Hf) as Hne.
  pose proof (parse_to_digits fuel z ltac:(lia)) as Hp.
  destruct (to_digits fuel z); [done|]. rewrite Hp.
  by destruct (Z.ltb_spec z (2 ^ w)); [|lia].
Qed.

Lemma parse_to_string w z :
  0 <= w <= 64 -> in_range w z -> parse_bulk_stream_integer w (to_string z) = Some z.
Proof.
  intros Hw Hz. apply parse_to_digits_integer; [done| |done].
  transitivity (2 ^ 64); [apply Z.pow_le_mono_r; lia|by vm_compute].
Qed.

(** No digit is one of the separators of a row. *)
Lemma to_digits_digits fuel z c :
  0 <= z -> c ∈ to_digits fuel z -> 48 <= Z_of_byte c <= 57.
Proof.
  assert (forall d, 0 <= d < 10 -> 48 <= Z_of_byte (digit d) <= 57) as Hd.
  { intros d ?. unfold digit. rewrite Z_of_byte_of_Z, wrap_small; unfold in_range; lia. }
  revert z. induction fuel as [|fuel IH]; intros z Hz; cbn [to_digits]; [by intros ?%not_elem_of_nil|].
  destruct (Z.ltb_spec z 10).
  - rewrite list_elem_of_singleton. intros ->. apply Hd. lia.
  - rewrite elem_of_app, list_elem_of_singleton. intros [Hc| ->].
    + eapply IH; [|done]. apply Z.div_pos; lia.
    + apply Hd. apply Z.mod_pos_bound. lia.
Qed.

Lemma valid_stream_name_iff name : valid_stream_name name = true <-> validate_stream_name name = Ok.
Proof.
  unfold valid_stream_name, validate_stream_name.
  destruct (_ || _); [split; done|]. destruct (forallb _ _); split; done.
Qed.
