(* ===== verification/Protocol.v ===== *)
(** * The coordination plane of the wire protocol

    [include/tango-bulk/protocol.h] and the coordination half of
    [src/core/protocol.cpp]: the 32-byte envelope, the seven messages, their
    encoders and decoders.  Pointers into a message are offsets into a byte
    list; every access outside it is a [Fault].  A null [data] pointer is the
    empty list, which the code treats alike.

    An encoder returns the message or the error it throws; a decoder returns
    the decoded values or the status it reports. *)
From S2P Require Import Prelude Enums Limits ByteOrder Geometry Text.
From Stdlib Require Import Strings.Byte.

(** ** Envelope *)

Record Envelope : Type := mkEnvelope {
  env_version_major : Z;
  env_version_minor : Z;
  env_header_bytes : Z;
  env_msg_type : CoordType;
  env_flags : Z;
  env_body_bytes : Z;
  env_correlation_id : Z
}.

(** [Envelope{}]. *)
Definition Envelope_default : Envelope :=
  mkEnvelope k_version_major k_version_minor 32 CT_Error 0 0 0.

Definition env_with_correlation (e : Envelope) (c : Z) : Envelope :=
  mkEnvelope (env_version_major e) (env_version_minor e) (env_header_bytes e)
    (env_msg_type e) (env_flags e) (env_body_bytes e) c.

Definition put_envelope (p : bytes) (type : CoordType) (correlation_id body_bytes : Z)
    : throws bytes :=
  let! p := put32 p 0 k_coord_magic in
  let! p := put8 p 4 k_version_major in
  let! p := put8 p 5 k_version_minor in
  let! p := put16 p 6 (Z.of_nat k_coord_envelope_bytes) in
  let! p := put16 p 8 (raw type) in
  let! p := put16 p 10 0 in
  let! p := put32 p 12 body_bytes in
  let! p := put64 p 16 correlation_id in
  put64 p 24 0.

Definition is_known_coord_type (r : Z) : bool :=
  match CoordType_of_raw r with
  | CT_Open | CT_OpenReply | CT_Renew | CT_RenewReply
  | CT_Close | CT_CloseReply | CT_Error => true
  | CoordType_other _ => false
  end.

Definition throw_encode_failure {A} (message : bytes) : throws A :=
  Err (mkBulkError MalformedMessage message (str "protocol")).

Definition make_message (type : CoordType) (correlation_id : Z) (body_bytes : nat)
    : throws bytes :=
  if k_max_coord_body_bytes <? Z.of_nat body_bytes
  then throw_encode_failure (str "coordination body exceeds " ++
         to_string k_max_coord_body_bytes ++ str " bytes")
  else put_envelope (replicate (k_coord_envelope_bytes + body_bytes) x00) type
         correlation_id (u32 (Z.of_nat body_bytes)).

(** The checks of [open_coord] from the magic to the message type, and the
    envelope they fill. *)
Definition open_coord_fields (data : bytes) : result Envelope :=
  let size := Z.of_nat (length data) in
  let! magic := get32 data 0 in
  guard! magic =? k_coord_magic else MalformedMessage in
  let! major := get8 data 4 in
  guard! major =? k_version_major else UnsupportedVersion in
  let! header_bytes := get16 data 6 in
  guard! Z.of_nat k_coord_envelope_bytes <=? header_bytes else MalformedMessage in
  guard! header_bytes <=? size else MalformedMessage in
  let! body_bytes := get32 data 12 in
  guard! body_bytes <=? k_max_coord_body_bytes else MalformedMessage in
  guard! size =? header_bytes + body_bytes else MalformedMessage in
  let! type_raw := get16 data 8 in
  guard! is_known_coord_type type_raw else MalformedMessage in
  let! minor := get8 data 5 in
  let! flags := get16 data 10 in
  let! correlation := get64 data 16 in
  Val (mkEnvelope major minor header_bytes (of_raw type_raw) flags body_bytes correlation).

(** [open_coord(data, size, expected, env, body)]: the envelope object after the
    call, and the body or the status.  The correlation is recovered before
    anything else is validated. *)
Definition open_coord (data : bytes) (expected : CoordType) (env : Envelope)
    : Envelope * result bytes :=
  let size := Z.of_nat (length data) in
  if size <? Z.of_nat k_coord_envelope_bytes then (env, Err MalformedMessage) else
  if k_max_coord_message_bytes <? size then (env, Err MalformedMessage) else
  match get64 data 16 with
  | Val correlation =>
      match open_coord_fields data with
      | Val env' =>
          (env', if bool_decide (env_msg_type env' <> expected) then Err MalformedMessage
                 else Val (drop (Z.to_nat (env_header_bytes env')) data))
      | Err status => (env_with_correlation env correlation, Err status)
      | Fault => (env_with_correlation env correlation, Fault)
      end
  | Err status => (env, Err status)
  | Fault => (env, Fault)
  end.

Definition check_fixed_body (body_size fixed minor : Z) : Status :=
  if body_size <? fixed then MalformedMessage else
  if (fixed <? body_size) && (minor <=? k_version_minor) then MalformedMessage else Ok.

(** [if(status != Status::Ok) return status;] *)
Definition require (status : Status) : result unit :=
  if bool_decide (status <> Ok) then Err status else Val tt.

(** ** Geometry and identifiers on the wire *)

(** [for(i = 0; i < k_max_rank; ++i)] over [shape] at [p + so] and [strides] at
    [p + to], interleaved as the source writes them. *)
Fixpoint put_arrays (count i : nat) (buf : bytes) (p so to : nat) (shape strides : array4)
    : throws bytes :=
  match count with
  | O => Val buf
  | S count =>
      let! buf := put64 buf (p + so + i * 8) (shape !!! i) in
      let! buf := put64 buf (p + to + i * 8) (strides !!! i) in
      put_arrays count (S i) buf p so to shape strides
  end.

Fixpoint get_array (count i : nat) (buf : bytes) (p : nat) : result array4 :=
  match count with
  | O => Val []
  | S count =>
      let! x := get64 buf (p + i * 8) in
      let! r := get_array count (S i) buf p in
      Val (x :: r)
  end.

Definition put_geometry (buf : bytes) (p : nat) (g : GeometryBlock) : throws bytes :=
  let! buf := put32 buf (p + 0) (gb_generation g) in
  let! buf := put32 buf (p + 4) (raw (gb_element_type g)) in
  let! buf := put32 buf (p + 8) (gb_element_size g) in
  let! buf := put32 buf (p + 12) (gb_rank g) in
  let! buf := put64 buf (p + 16) (gb_max_frame_bytes g) in
  let! buf := put32 buf (p + 24) (gb_ring_depth g) in
  let! buf := put32 buf (p + 28) (gb_credit_window g) in
  put_arrays 4 0 buf p 32 64 (gb_shape g) (gb_strides g).

Definition get_geometry (buf : bytes) (p : nat) : result GeometryBlock :=
  let! generation := get32 buf (p + 0) in
  let! element_type := get32 buf (p + 4) in
  let! element_size := get32 buf (p + 8) in
  let! rank := get32 buf (p + 12) in
  let! max_frame_bytes := get64 buf (p + 16) in
  let! ring_depth := get32 buf (p + 24) in
  let! credit_window := get32 buf (p + 28) in
  let! shape := get_array 4 0 buf (p + 32) in
  let! strides := get_array 4 0 buf (p + 64) in
  Val (mkGeometryBlock generation (of_raw element_type) element_size rank
         max_frame_bytes ring_depth credit_window shape strides).

(** A 16-byte identifier is copied byte by byte. *)
Definition put_id16 (buf : bytes) (p : nat) (id : bytes) : throws bytes := put_bytes buf p id.
Definition get_id16 (buf : bytes) (p : nat) : result bytes := get_bytes buf p 16.

(** ** Variable-length tails *)

(** The new buffer and the number of bytes the field takes. *)
Definition put_string_field (buf : bytes) (p : nat) (value : bytes) : throws (bytes * nat) :=
  let! buf := put16 buf p (u16 (Z.of_nat (length value))) in
  let! buf := put_bytes buf (p + 2) value in
  Val (buf, 2 + length value)%nat.

Definition put_blob_field (buf : bytes) (p : nat) (value : bytes) : throws (bytes * nat) :=
  let! buf := put32 buf p (u32 (Z.of_nat (length value))) in
  let! buf := put_bytes buf (p + 4) value in
  Val (buf, 4 + length value)%nat.

(** [TailReader]: [base_] and [size_] are the body, [offset_] the cursor.  The
    sums of the source stay far below the width of [size_t]. *)
Record TailReader : Type := mkTailReader { tr_base : bytes; tr_offset : nat }.

Definition read_string (t : TailReader) (min_len max_len : Z) : result (bytes * TailReader) :=
  let size := Z.of_nat (length (tr_base t)) in
  let offset := Z.of_nat (tr_offset t) in
  guard! offset + 2 <=? size else MalformedMessage in
  let! len := get16 (tr_base t) (tr_offset t) in
  guard! (min_len <=? len) && (len <=? max_len) && (offset + 2 + len <=? size)
    else MalformedMessage in
  let! out := get_bytes (tr_base t) (tr_offset t + 2) (Z.to_nat len) in
  guard! negb (existsb (fun c => bool_decide (c = x00)) out) else MalformedMessage in
  Val (out, mkTailReader (tr_base t) (tr_offset t + 2 + Z.to_nat len)).

Definition read_blob (t : TailReader) (min_len max_len : Z) : result (bytes * TailReader) :=
  let size := Z.of_nat (length (tr_base t)) in
  let offset := Z.of_nat (tr_offset t) in
  guard! offset + 4 <=? size else MalformedMessage in
  let! len := get32 (tr_base t) (tr_offset t) in
  guard! (min_len <=? len) && (len <=? max_len) && (offset + 4 + len <=? size)
    else MalformedMessage in
  let! out := get_bytes (tr_base t) (tr_offset t + 4) (Z.to_nat len) in
  Val (out, mkTailReader (tr_base t) (tr_offset t + 4 + Z.to_nat len)).

Definition at_end (t : TailReader) : bool :=
  bool_decide (tr_offset t = length (tr_base t)).

Definition truncated (value : bytes) (max_len : Z) : bytes :=
  if max_len <? Z.of_nat (length value) then take (Z.to_nat max_len) value else value.

(** [decode_envelope(data, size, out)]: the envelope object and the status. *)
Definition decode_envelope (data : bytes) (out : Envelope) : Envelope * result bytes :=
  if Z.of_nat (length data) <? Z.of_nat k_coord_envelope_bytes
  then (out, Err MalformedMessage) else
  match get16 data 8 with
  | Val type_raw =>
      if negb (is_known_coord_type type_raw) then (out, Err MalformedMessage)
      else open_coord data (of_raw type_raw) out
  | Err status => (out, Err status)
  | Fault => (out, Fault)
  end.

(** ** Messages *)

Abbreviation SessionId := (list Byte.byte) (only parsing).
Abbreviation ClientInstanceId := (list Byte.byte) (only parsing).

Record OpenRequest : Type := mkOpenRequest {
  oq_version_min : Z;
  oq_version_max : Z;
  oq_requested_caps : Z;
  oq_client_instance_id : ClientInstanceId;
  oq_requested_max_frame_bytes : Z;
  oq_requested_ring_depth : Z;
  oq_requested_credit_window : Z;
  oq_requested_memory_kind : MemoryKind;
  oq_requested_transport : Transport;
  oq_drop_policy : DropPolicy;
  oq_stream_name : bytes;
  oq_client_ucx_address : bytes
}.

Record OpenReply : Type := mkOpenReply {
  or_version_selected : Z;
  or_status : Status;
  or_granted_caps : Z;
  or_session_id : SessionId;
  or_stream_id : Z;
  or_lease_ttl_ms : Z;
  or_renew_interval_ms : Z;
  or_transport_selected : Transport;
  or_server_epoch_id : Z;
  or_geometry : GeometryBlock;
  or_server_ucx_address : bytes
}.

Record RenewRequest : Type := mkRenewRequest {
  nq_session_id : SessionId;
  nq_client_frames_delivered : Z;
  nq_client_credits_returned : Z;
  nq_client_state : Z
}.

Record RenewReply : Type := mkRenewReply {
  nr_session_id : SessionId;
  nr_status : Status;
  nr_lease_ttl_ms : Z;
  nr_renew_interval_ms : Z;
  nr_server_state : SessionState;
  nr_geometry : GeometryBlock
}.

Record CloseRequest : Type := mkCloseRequest {
  cq_session_id : SessionId;
  cq_reason : CloseReason
}.

Record CloseReply : Type := mkCloseReply {
  cr_session_id : SessionId;
  cr_status : Status;
  cr_frames_credited_final : Z
}.

Record ErrorMessage : Type := mkErrorMessage {
  em_status : Status;
  em_message : bytes
}.

(** The common prologue of every coordination decoder: the envelope and the body. *)
Definition open_message (data : bytes) (expected : CoordType) : result (Envelope * bytes) :=
  match open_coord data expected Envelope_default with
  | (env, Val body) => Val (env, body)
  | (_, Err status) => Err status
  | (_, Fault) => Fault
  end.

(** ** Open *)

Definition encode_OpenRequest (msg : OpenRequest) (correlation_id : Z) : throws bytes :=
  if bool_decide (validate_stream_name (oq_stream_name msg) <> Ok)
  then throw_encode_failure (str "stream_name must be 1..64 bytes of [A-Za-z0-9_.-]") else
  if bool_decide (oq_client_ucx_address msg = []) ||
     (k_max_ucx_address_bytes <? Z.of_nat (length (oq_client_ucx_address msg)))
  then throw_encode_failure (str "client_ucx_address must be 1.." ++
         to_string k_max_ucx_address_bytes ++ str " bytes") else
  let body_bytes := (k_open_fixed_bytes + 2 + length (oq_stream_name msg) + 4 +
                     length (oq_client_ucx_address msg))%nat in
  let! out := make_message CT_Open correlation_id body_bytes in
  let b := k_coord_envelope_bytes in
  let! out := put8 out (b + 0) (oq_version_min msg) in
  let! out := put8 out (b + 1) (oq_version_max msg) in
  let! out := put16 out (b + 2) 0 in
  let! out := put32 out (b + 4) (oq_requested_caps msg) in
  let! out := put_id16 out (b + 8) (oq_client_instance_id msg) in
  let! out := put64 out (b + 24) (oq_requested_max_frame_bytes msg) in
  let! out := put32 out (b + 32) (oq_requested_ring_depth msg) in
  let! out := put32 out (b + 36) (oq_requested_credit_window msg) in
  let! out := put32 out (b + 40) (raw (oq_requested_memory_kind msg)) in
  let! out := put32 out (b + 44) (raw (oq_requested_transport msg)) in
  let! out := put32 out (b + 48) (raw (oq_drop_policy msg)) in
  let! out := put32 out (b + 52) 0 in
  let! (out, n) := put_string_field out (b + k_open_fixed_bytes) (oq_stream_name msg) in
  let! (out, _) := put_blob_field out (b + (k_open_fixed_bytes + n))
                      (oq_client_ucx_address msg) in
  Val out.

Definition decode_OpenRequest (data : bytes) : result (OpenRequest * Envelope) :=
  let! (env, body) := open_message data CT_Open in
  guard! (k_open_fixed_bytes <=? length body)%nat else MalformedMessage in
  let! version_min := get8 body 0 in
  let! version_max := get8 body 1 in
  let! requested_caps := get32 body 4 in
  let! client_instance_id := get_id16 body 8 in
  let! max_frame_bytes := get64 body 24 in
  let! ring_depth := get32 body 32 in
  let! credit_window := get32 body 36 in
  let! memory_kind := get32 body 40 in
  let! transport := get32 body 44 in
  let! drop_policy := get32 body 48 in
  let tail := mkTailReader body k_open_fixed_bytes in
  let! (stream_name, tail) :=
    read_string tail k_min_stream_name_bytes k_max_stream_name_bytes in
  let! (address, tail) := read_blob tail 1 k_max_ucx_address_bytes in
  guard! at_end tail else MalformedMessage in
  let! _ := require (validate_stream_name stream_name) in
  Val (mkOpenRequest version_min version_max requested_caps client_instance_id
         max_frame_bytes ring_depth credit_window (of_raw memory_kind) (of_raw transport)
         (of_raw drop_policy) stream_name address, env).

Definition encode_OpenReply (msg : OpenReply) (correlation_id : Z) : throws bytes :=
  if k_max_ucx_address_bytes <? Z.of_nat (length (or_server_ucx_address msg))
  then throw_encode_failure (str "server_ucx_address exceeds " ++
         to_string k_max_ucx_address_bytes ++ str " bytes") else
  if bool_decide (or_status msg = Ok) && bool_decide (or_server_ucx_address msg = [])
  then throw_encode_failure (str "a successful OpenReply must carry server_ucx_address") else
  let body_bytes := (k_open_reply_fixed_bytes + 4 + length (or_server_ucx_address msg))%nat in
  let! out := make_message CT_OpenReply correlation_id body_bytes in
  let b := k_coord_envelope_bytes in
  let! out := put8 out (b + 0) (or_version_selected msg) in
  let! out := put8 out (b + 1) 0 in
  let! out := put16 out (b + 2) (raw (or_status msg)) in
  let! out := put32 out (b + 4) (or_granted_caps msg) in
  let! out := put_id16 out (b + 8) (or_session_id msg) in
  let! out := put64 out (b + 24) (or_stream_id msg) in
  let! out := put32 out (b + 32) (or_lease_ttl_ms msg) in
  let! out := put32 out (b + 36) (or_renew_interval_ms msg) in
  let! out := put32 out (b + 40) (raw (or_transport_selected msg)) in
  let! out := put32 out (b + 44) 0 in
  let! out := put64 out (b + 48) (or_server_epoch_id msg) in
  let! out := put_geometry out (b + 56) (or_geometry msg) in
  let! (out, _) := put_blob_field out (b + k_open_reply_fixed_bytes)
                      (or_server_ucx_address msg) in
  Val out.

Definition decode_OpenReply (data : bytes) : result (OpenReply * Envelope) :=
  let! (env, body) := open_message data CT_OpenReply in
  guard! (k_open_reply_fixed_bytes <=? length body)%nat else MalformedMessage in
  let! version_selected := get8 body 0 in
  let! status := get16 body 2 in
  let! granted_caps := get32 body 4 in
  let! session_id := get_id16 body 8 in
  let! stream_id := get64 body 24 in
  let! lease_ttl_ms := get32 body 32 in
  let! renew_interval_ms := get32 body 36 in
  let! transport_selected := get32 body 40 in
  let! server_epoch_id := get64 body 48 in
  let! geometry := get_geometry body 56 in
  let tail := mkTailReader body k_open_reply_fixed_bytes in
  let! (address, tail) := read_blob tail 0 k_max_ucx_address_bytes in
  guard! at_end tail else MalformedMessage in
  Val (mkOpenReply version_selected (of_raw status) granted_caps session_id stream_id
         lease_ttl_ms renew_interval_ms (of_raw transport_selected) server_epoch_id
         geometry address, env).

(** ** Renew *)

Definition encode_RenewRequest (msg : RenewRequest) (correlation_id : Z) : throws bytes :=
  let! out := make_message CT_Renew correlation_id k_renew_bytes in
  let b := k_coord_envelope_bytes in
  let! out := put_id16 out (b + 0) (nq_session_id msg) in
  let! out := put64 out (b + 16) (nq_client_frames_delivered msg) in
  let! out := put64 out (b + 24) (nq_client_credits_returned msg) in
  let! out := put32 out (b + 32) (nq_client_state msg) in
  put32 out (b + 36) 0.

Definition decode_RenewRequest (data : bytes) : result (RenewRequest * Envelope) :=
  let! (env, body) := open_message data CT_Renew in
  let! _ := require (check_fixed_body (Z.of_nat (length body)) (Z.of_nat k_renew_bytes)
                       (env_version_minor env)) in
  let! session_id := get_id16 body 0 in
  let! delivered := get64 body 16 in
  let! returned := get64 body 24 in
  let! state := get32 body 32 in
  Val (mkRenewRequest session_id delivered returned state, env).

Definition encode_RenewReply (msg : RenewReply) (correlation_id : Z) : throws bytes :=
  let! out := make_message CT_RenewReply correlation_id k_renew_reply_bytes in
  let b := k_coord_envelope_bytes in
  let! out := put_id16 out (b + 0) (nr_session_id msg) in
  let! out := put16 out (b + 16) (raw (nr_status msg)) in
  let! out := put16 out (b + 18) 0 in
  let! out := put32 out (b + 20) (nr_lease_ttl_ms msg) in
  let! out := put32 out (b + 24) (nr_renew_interval_ms msg) in
  let! out := put32 out (b + 28) (raw (nr_server_state msg)) in
  put_geometry out (b + 32) (nr_geometry msg).

Definition decode_RenewReply (data : bytes) : result (RenewReply * Envelope) :=
  let! (env, body) := open_message data CT_RenewReply in
  let! _ := require (check_fixed_body (Z.of_nat (length body)) (Z.of_nat k_renew_reply_bytes)
                       (env_version_minor env)) in
  let! session_id := get_id16 body 0 in
  let! status := get16 body 16 in
  let! lease_ttl_ms := get32 body 20 in
  let! renew_interval_ms := get32 body 24 in
  let! server_state := get32 body 28 in
  let! geometry := get_geometry body 32 in
  Val (mkRenewReply session_id (of_raw status) lease_ttl_ms renew_interval_ms
         (of_raw server_state) geometry, env).

(** ** Close *)

Definition encode_CloseRequest (msg : CloseRequest) (correlation_id : Z) : throws bytes :=
  let! out := make_message CT_Close correlation_id k_close_bytes in
  let b := k_coord_envelope_bytes in
  let! out := put_id16 out (b + 0) (cq_session_id msg) in
  let! out := put32 out (b + 16) (raw (cq_reason msg)) in
  put32 out (b + 20) 0.

Definition decode_CloseRequest (data : bytes) : result (CloseRequest * Envelope) :=
  let! (env, body) := open_message data CT_Close in
  let! _ := require (check_fixed_body (Z.of_nat (length body)) (Z.of_nat k_close_bytes)
                       (env_version_minor env)) in
  let! session_id := get_id16 body 0 in
  let! reason := get32 body 16 in
  Val (mkCloseRequest session_id (of_raw reason), env).

Definition encode_CloseReply (msg : CloseReply) (correlation_id : Z) : throws bytes :=
  let! out := make_message CT_CloseReply correlation_id k_close_reply_bytes in
  let b := k_coord_envelope_bytes in
  let! out := put_id16 out (b + 0) (cr_session_id msg) in
  let! out := put16 out (b + 16) (raw (cr_status msg)) in
  let! out := put16 out (b + 18) 0 in
  put32 out (b + 20) (cr_frames_credited_final msg).

Definition decode_CloseReply (data : bytes) : result (CloseReply * Envelope) :=
  let! (env, body) := open_message data CT_CloseReply in
  let! _ := require (check_fixed_body (Z.of_nat (length body)) (Z.of_nat k_close_reply_bytes)
                       (env_version_minor env)) in
  let! session_id := get_id16 body 0 in
  let! status := get16 body 16 in
  let! credited := get32 body 20 in
  Val (mkCloseReply session_id (of_raw status) credited, env).

(** ** Error *)

Definition encode_ErrorMessage (msg : ErrorMessage) (correlation_id : Z) : throws bytes :=
  let message := truncated (em_message msg) k_max_error_message_bytes in
  let body_bytes := (k_error_fixed_bytes + 2 + length message)%nat in
  let! out := make_message CT_Error correlation_id body_bytes in
  let b := k_coord_envelope_bytes in
  let! out := put16 out (b + 0) (raw (em_status msg)) in
  let! out := put16 out (b + 2) 0 in
  let! out := put32 out (b + 4) 0 in
  let! (out, _) := put_string_field out (b + k_error_fixed_bytes) message in
  Val out.

Definition decode_ErrorMessage (data : bytes) : result (ErrorMessage * Envelope) :=
  let! (env, body) := open_message data CT_Error in
  guard! (k_error_fixed_bytes <=? length body)%nat else MalformedMessage in
  let! status := get16 body 0 in
  let tail := mkTailReader body k_error_fixed_bytes in
  let! (message, tail) := read_string tail 0 k_max_error_message_bytes in
  guard! at_end tail else MalformedMessage in
  Val (mkErrorMessage (of_raw status) message, env).
