(* ===== verification/ProtocolSafety.v ===== *)
(** * Memory safety of the coordination decoders

    No decoder of [Protocol.v] reads outside the bytes it was given, whatever
    they are, and what a decoder accepts is bounded and can be sent again. *)
From S2P Require Import Prelude Enums Limits ByteOrder Geometry Text Protocol.
From Stdlib Require Import Strings.Byte.

Section Reads.
Implicit Types (buf : bytes) (p : nat).

Lemma get8_ok buf p :
  (p + 1 <= length buf)%nat -> exists v, get8 (E := Status) buf p = Val v /\ in_range 8 v.
Proof.
  intros. eexists. split; [by apply get8_slice|].
  pose proof (le_value_range (slice buf p 1)) as Hr. by rewrite length_slice in Hr.
Qed.
Lemma get16_ok buf p :
  (p + 2 <= length buf)%nat -> exists v, get16 (E := Status) buf p = Val v /\ in_range 16 v.
Proof.
  intros. eexists. split; [by apply get16_slice|].
  pose proof (le_value_range (slice buf p 2)) as Hr. by rewrite length_slice in Hr.
Qed.
Lemma get32_ok buf p :
  (p + 4 <= length buf)%nat -> exists v, get32 (E := Status) buf p = Val v /\ in_range 32 v.
Proof.
  intros. eexists. split; [by apply get32_slice|].
  pose proof (le_value_range (slice buf p 4)) as Hr. by rewrite length_slice in Hr.
Qed.
Lemma get64_ok buf p :
  (p + 8 <= length buf)%nat -> exists v, get64 (E := Status) buf p = Val v /\ in_range 64 v.
Proof.
  intros. eexists. split; [by apply get64_slice|].
  pose proof (le_value_range (slice buf p 8)) as Hr. by rewrite length_slice in Hr.
Qed.
Lemma get_bytes_ok buf p n :
  (p + n <= length buf)%nat ->
  exists v, get_bytes (E := Status) buf p n = Val v /\ length v = n.
Proof. intros. eexists. split; [by apply get_bytes_slice|by apply length_slice]. Qed.
End Reads.

(** Resolve the next read of the goal to a value in its range. *)
Ltac read_step :=
  let v := fresh "v" in let Hv := fresh "Hv" in let Hr := fresh "Hr" in
  match goal with
  | |- context [get8 ?b ?p] =>
      destruct (get8_ok b p) as (v & Hv & Hr); [simpl; lia|rewrite Hv; clear Hv; cbn [outcome_bind]]
  | |- context [get16 ?b ?p] =>
      destruct (get16_ok b p) as (v & Hv & Hr); [simpl; lia|rewrite Hv; clear Hv; cbn [outcome_bind]]
  | |- context [get32 ?b ?p] =>
      destruct (get32_ok b p) as (v & Hv & Hr); [simpl; lia|rewrite Hv; clear Hv; cbn [outcome_bind]]
  | |- context [get64 ?b ?p] =>
      destruct (get64_ok b p) as (v & Hv & Hr); [simpl; lia|rewrite Hv; clear Hv; cbn [outcome_bind]]
  | |- context [get_id16 ?b ?p] =>
      destruct (get_bytes_ok b p 16) as (v & Hv & Hr);
        [simpl; lia|unfold get_id16; rewrite Hv; clear Hv; cbn [outcome_bind]]
  end.

(** A failure the code reports is not a fault. *)
Ltac no_fault := solve [discriminate | auto with bulk].

Lemma open_coord_fields_spec data :
  (32 <= length data)%nat ->
  safe (open_coord_fields data) /\
  (forall env, open_coord_fields data = Val env ->
     env_version_major env = 1 /\ in_range 8 (env_version_minor env) /\
     32 <= env_header_bytes env < 2 ^ 16 /\ 0 <= env_body_bytes env <= 65504 /\
     Z.of_nat (length data) = env_header_bytes env + env_body_bytes env /\
     in_range 64 (env_correlation_id env) /\
     get64 (E := Status) data 16 = Val (env_correlation_id env)).
Proof.
  intros Hl. unfold open_coord_fields. unfold_limits.
  destruct (get64_ok data 16) as (c & Hc & Hcr); [lia|]. rewrite Hc.
  repeat (read_step || (guard_step; [|split; [apply safe_err|discriminate]])).
  split; [apply safe_val|]. intros env [= <-]. simpl. unfold in_range in *. bool_to_prop.
  repeat split; done || lia.
Qed.

Lemma open_message_safe data t : safe (open_message data t).
Proof.
  unfold open_message, open_coord. unfold_limits.
  destruct (Z.ltb_spec (Z.of_nat (length data)) (Z.of_nat 32)); [no_fault|].
  destruct (Z.ltb_spec 65536 (Z.of_nat (length data))); [no_fault|].
  destruct (open_coord_fields_spec data ltac:(lia)) as [Hs _].
  destruct (get64_ok data 16) as (c & Hc & _); [lia|]. rewrite Hc.
  destruct (open_coord_fields data); [|no_fault|done].
  simpl. case_bool_decide; no_fault.
Qed.

(** What every decoder knows once the envelope has been accepted. *)
Record opened (data : bytes) (t : CoordType) (env : Envelope) (body : bytes) : Prop := {
  op_type : env_msg_type env = t;
  op_header : 32 <= env_header_bytes env < 2 ^ 16;
  op_split : data = take (Z.to_nat (env_header_bytes env)) data ++ body;
  op_body : Z.of_nat (length body) = env_body_bytes env;
  op_body_max : Z.of_nat (length body) <= 65504;
  op_length : Z.of_nat (length data) = env_header_bytes env + env_body_bytes env;
  op_major : env_version_major env = 1;
  op_minor : in_range 8 (env_version_minor env);
  op_correlation : in_range 64 (env_correlation_id env)
}.

Lemma open_message_opened data t env body :
  open_message data t = Val (env, body) -> opened data t env body.
Proof.
  unfold open_message, open_coord. unfold_limits.
  destruct (Z.ltb_spec (Z.of_nat (length data)) (Z.of_nat 32)); [done|].
  destruct (Z.ltb_spec 65536 (Z.of_nat (length data))); [done|].
  destruct (open_coord_fields_spec data ltac:(lia)) as [_ Hf].
  destruct (get64_ok data 16) as (c & Hc & _); [lia|]. rewrite Hc.
  destruct (open_coord_fields data) as [env'|?|] eqn:Heq; [|done..].
  destruct (Hf env' eq_refl) as (? & ? & ? & ? & ? & ? & _).
  simpl. case_bool_decide as Ht; [done|]. intros [= <- <-].
  split; simpl; try done; rewrite ?length_drop; try lia. by rewrite take_drop.
Qed.

(** The typed values of a decoded geometry. *)
Lemma get_array_ok buf p :
  (p + 32 <= length buf)%nat ->
  exists a, get_array 4 0 buf p = Val a /\ array_ok a.
Proof.
  intros. unfold get_array. repeat read_step. eexists. split; [done|].
  split; [done|]. by repeat (apply Forall_cons_2; [done|]); apply Forall_nil_2.
Qed.

Lemma get_geometry_ok buf p :
  (p + 96 <= length buf)%nat ->
  exists g, get_geometry buf p = Val g /\ geometry_typed g.
Proof.
  intros. unfold get_geometry. repeat read_step.
  destruct (get_array_ok buf (p + 32)) as (a & -> & ?); [lia|]. cbn [outcome_bind].
  destruct (get_array_ok buf (p + 64)) as (c & -> & ?); [lia|]. cbn [outcome_bind].
  eexists. split; [done|].
  unfold geometry_typed. cbn [gb_generation gb_element_type gb_element_size gb_rank
    gb_max_frame_bytes gb_ring_depth gb_credit_window gb_shape gb_strides].
  auto 10 using enum_ok_of_raw.
Qed.

Definition bounded (min max : Z) (l : bytes) : Prop := min <= Z.of_nat (length l) <= max.

Lemma read_string_spec t min max :
  safe (read_string t min max) /\
  (forall s t', read_string t min max = Val (s, t') ->
     bounded min max s /\ (x00 ∉ s) /\ tr_base t' = tr_base t /\
     tr_offset t' = (tr_offset t + 2 + length s)%nat /\
     (tr_offset t' <= length (tr_base t))%nat).
Proof.
  unfold read_string.
  guard_step; [|split; [apply safe_err|discriminate]]. bool_to_prop.
  read_step. guard_step; [|split; [apply safe_err|discriminate]]. bool_to_prop.
  destruct (get_bytes_ok (tr_base t) (tr_offset t + 2) (Z.to_nat v)) as (s & -> & Hs);
    [unfold in_range in *; lia|]. cbn [outcome_bind].
  destruct (existsb _ s) eqn:Hnul; simpl; [split; [apply safe_err|discriminate]|].
  split; [apply safe_val|]. intros s' t' [= <- <-]. unfold bounded, in_range in *. simpl.
  split; [lia|]. split; [|split; [done|lia]].
  intros Hin. apply not_true_iff_false in Hnul. apply Hnul, existsb_exists.
  exists x00. split; [by apply list_elem_of_In|by apply bool_decide_eq_true_2].
Qed.

Lemma read_blob_spec t min max :
  safe (read_blob t min max) /\
  (forall s t', read_blob t min max = Val (s, t') ->
     bounded min max s /\ tr_base t' = tr_base t /\
     tr_offset t' = (tr_offset t + 4 + length s)%nat /\
     (tr_offset t' <= length (tr_base t))%nat).
Proof.
  unfold read_blob.
  guard_step; [|split; [apply safe_err|discriminate]]. bool_to_prop.
  read_step. guard_step; [|split; [apply safe_err|discriminate]]. bool_to_prop.
  destruct (get_bytes_ok (tr_base t) (tr_offset t + 4) (Z.to_nat v)) as (s & -> & Hs);
    [unfold in_range in *; lia|]. cbn [outcome_bind].
  split; [apply safe_val|]. intros s' t' [= <- <-]. unfold bounded, in_range in *. simpl.
  split; [lia|]. split; [done|lia].
Qed.

(** ** Well-formed messages *)

Definition id_ok (id : bytes) : Prop := length id = 16%nat.

Definition OpenRequest_ok (m : OpenRequest) : Prop :=
  in_range 8 (oq_version_min m) /\ in_range 8 (oq_version_max m) /\
  in_range 32 (oq_requested_caps m) /\ id_ok (oq_client_instance_id m) /\
  in_range 64 (oq_requested_max_frame_bytes m) /\ in_range 32 (oq_requested_ring_depth m) /\
  in_range 32 (oq_requested_credit_window m) /\ enum_ok 32 (oq_requested_memory_kind m) /\
  enum_ok 32 (oq_requested_transport m) /\ enum_ok 32 (oq_drop_policy m) /\
  validate_stream_name (oq_stream_name m) = Ok /\ bounded 1 4096 (oq_client_ucx_address m).

Definition OpenReply_typed (m : OpenReply) : Prop :=
  in_range 8 (or_version_selected m) /\ enum_ok 16 (or_status m) /\
  in_range 32 (or_granted_caps m) /\ id_ok (or_session_id m) /\ in_range 64 (or_stream_id m) /\
  in_range 32 (or_lease_ttl_ms m) /\ in_range 32 (or_renew_interval_ms m) /\
  enum_ok 32 (or_transport_selected m) /\ in_range 64 (or_server_epoch_id m) /\
  geometry_typed (or_geometry m) /\ bounded 0 4096 (or_server_ucx_address m).

Definition RenewRequest_ok (m : RenewRequest) : Prop :=
  id_ok (nq_session_id m) /\ in_range 64 (nq_client_frames_delivered m) /\
  in_range 64 (nq_client_credits_returned m) /\ in_range 32 (nq_client_state m).

Definition RenewReply_ok (m : RenewReply) : Prop :=
  id_ok (nr_session_id m) /\ enum_ok 16 (nr_status m) /\ in_range 32 (nr_lease_ttl_ms m) /\
  in_range 32 (nr_renew_interval_ms m) /\ enum_ok 32 (nr_server_state m) /\
  geometry_typed (nr_geometry m).

Definition CloseRequest_ok (m : CloseRequest) : Prop :=
  id_ok (cq_session_id m) /\ enum_ok 32 (cq_reason m).

Definition CloseReply_ok (m : CloseReply) : Prop :=
  id_ok (cr_session_id m) /\ enum_ok 16 (cr_status m) /\
  in_range 32 (cr_frames_credited_final m).

Definition ErrorMessage_ok (m : ErrorMessage) : Prop :=
  enum_ok 16 (em_status m) /\ bounded 0 512 (em_message m) /\ (x00 ∉ em_message m).

(** ** What each decoder does with arbitrary bytes *)

(** A decoder that never faults and whose results satisfy [P]. *)
Definition decodes {A} (d : result (A * Envelope)) (P : A -> Envelope -> Prop) : Prop :=
  safe d /\ forall m env, d = Val (m, env) -> P m env.

Lemma decodes_err {A} s (P : A -> Envelope -> Prop) : decodes (Err s) P.
Proof. split; [apply safe_err|discriminate]. Qed.
Lemma decodes_val {A} (m : A) env (P : A -> Envelope -> Prop) :
  P m env -> decodes (Val (m, env)) P.
Proof. intros. split; [apply safe_val|]. by intros ? ? [= <- <-]. Qed.

Lemma decodes_open {A} data t (k : Envelope * bytes -> result (A * Envelope)) P :
  (forall env body, opened data t env body -> decodes (k (env, body)) P) ->
  decodes (outcome_bind (open_message data t) k) P.
Proof.
  intros Hk. pose proof (open_message_safe data t).
  destruct (open_message data t) as [[env body]|s|] eqn:Heq; [|apply decodes_err|done].
  apply Hk. by apply open_message_opened.
Qed.

Lemma decodes_require {A} st (k : unit -> result (A * Envelope)) P :
  (st = Ok -> decodes (k tt) P) -> decodes (outcome_bind (require st) k) P.
Proof.
  intros. unfold require. case_bool_decide; [apply decodes_err|auto].
Qed.

Lemma check_fixed_body_ok n fixed minor :
  check_fixed_body n fixed minor = Ok -> fixed <= n /\ (minor <= 0 -> n = fixed).
Proof.
  unfold check_fixed_body. change k_version_minor with 0. intros.
  split_guards. match goal with H : _ && _ = false |- _ => apply andb_false_iff in H as [?|?] end;
    bool_to_prop; lia.
Qed.

(** Every byte of the message is accounted for. *)
Definition accounted (data : bytes) (env : Envelope) (fixed : Z) : Prop :=
  Z.of_nat (length data) = env_header_bytes env + fixed.

Ltac decode_goal := 
  match goal with
  | |- decodes (if ?c then _ else Err _) _ => destruct c eqn:?; [|apply decodes_err]
  | |- decodes (outcome_bind (open_message _ _) _) _ =>
      apply decodes_open; intros ? ? []
  | |- decodes (outcome_bind (require _) _) _ => apply decodes_require; intros ?
  | _ => read_step
  end.

(** The tail readers and the geometry reader inside a decoder. *)
Lemma decodes_string {A} t min max (k : bytes * TailReader -> result (A * Envelope)) P :
  (forall s t', bounded min max s -> (x00 ∉ s) -> tr_base t' = tr_base t ->
     tr_offset t' = (tr_offset t + 2 + length s)%nat -> decodes (k (s, t')) P) ->
  decodes (outcome_bind (read_string t min max) k) P.
Proof.
  intros Hk. destruct (read_string_spec t min max) as [Hs Hv].
  destruct (read_string t min max) as [[s t']|e|]; [|apply decodes_err|done].
  destruct (Hv s t' eq_refl) as (? & ? & ? & ? & _). by apply Hk.
Qed.

Lemma decodes_blob {A} t min max (k : bytes * TailReader -> result (A * Envelope)) P :
  (forall s t', bounded min max s -> tr_base t' = tr_base t ->
     tr_offset t' = (tr_offset t + 4 + length s)%nat -> decodes (k (s, t')) P) ->
  decodes (outcome_bind (read_blob t min max) k) P.
Proof.
  intros Hk. destruct (read_blob_spec t min max) as [Hs Hv].
  destruct (read_blob t min max) as [[s t']|e|]; [|apply decodes_err|done].
  destruct (Hv s t' eq_refl) as (? & ? & ? & _). by apply Hk.
Qed.

Lemma decodes_geometry {A} buf p (k : GeometryBlock -> result (A * Envelope)) P :
  (p + 96 <= length buf)%nat ->
  (forall g, geometry_typed g -> decodes (k g) P) ->
  decodes (outcome_bind (get_geometry buf p) k) P.
Proof. intros Hp Hk. destruct (get_geometry_ok buf p Hp) as (g & -> & ?). by apply Hk. Qed.

Ltac decode_steps :=
  repeat first
    [ match goal with
      | |- decodes (outcome_bind (read_string _ _ _) _) _ => apply decodes_string; intros ? ? ? ? ? ?
      | |- decodes (outcome_bind (read_blob _ _ _) _) _ => apply decodes_blob; intros ? ? ? ? ?
      | |- decodes (outcome_bind (get_geometry _ _) _) _ =>
          apply decodes_geometry; [simpl; lia|intros ? ?]
      end
    | decode_goal ].

Ltac fixed_body :=
  match goal with
  | H : check_fixed_body _ _ _ = Ok |- _ => apply check_fixed_body_ok in H as [? ?]; unfold_limits
  | H : (_ <=? length _)%nat = true |- _ => apply Nat.leb_le in H; unfold_limits
  end.

Lemma decode_RenewRequest_spec data :
  decodes (decode_RenewRequest data) (fun m env => RenewRequest_ok m /\
    env_msg_type env = CT_Renew /\ (env_version_minor env <= 0 -> accounted data env 40)).
Proof.
  unfold decode_RenewRequest. do 2 decode_goal. fixed_body. decode_steps.
  apply decodes_val. unfold RenewRequest_ok, accounted.
  cbn [nq_session_id nq_client_frames_delivered nq_client_credits_returned nq_client_state].
  repeat split_and; auto. intros. lia.
Qed.

Lemma decode_RenewReply_spec data :
  decodes (decode_RenewReply data) (fun m env => RenewReply_ok m /\
    env_msg_type env = CT_RenewReply /\ (env_version_minor env <= 0 -> accounted data env 128)).
Proof.
  unfold decode_RenewReply. do 2 decode_goal. fixed_body. decode_steps.
  apply decodes_val. unfold RenewReply_ok, accounted. cbn [nr_session_id nr_status nr_lease_ttl_ms
    nr_renew_interval_ms nr_server_state nr_geometry].
  repeat split_and; auto using enum_ok_of_raw. intros. lia.
Qed.

Lemma decode_CloseRequest_spec data :
  decodes (decode_CloseRequest data) (fun m env => CloseRequest_ok m /\
    env_msg_type env = CT_Close /\ (env_version_minor env <= 0 -> accounted data env 24)).
Proof.
  unfold decode_CloseRequest. do 2 decode_goal. fixed_body. decode_steps.
  apply decodes_val. unfold CloseRequest_ok, accounted. cbn [cq_session_id cq_reason].
  repeat split_and; auto using enum_ok_of_raw. intros. lia.
Qed.

Lemma decode_CloseReply_spec data :
  decodes (decode_CloseReply data) (fun m env => CloseReply_ok m /\
    env_msg_type env = CT_CloseReply /\ (env_version_minor env <= 0 -> accounted data env 24)).
Proof.
  unfold decode_CloseReply. do 2 decode_goal. fixed_body. decode_steps.
  apply decodes_val. unfold CloseReply_ok, accounted.
  cbn [cr_session_id cr_status cr_frames_credited_final].
  repeat split_and; auto using enum_ok_of_raw. intros. lia.
Qed.

(** Every byte of the body is in a field: the readers stopped at its end. *)
Ltac account :=
  repeat match goal with H : tr_base _ = _ |- _ => rewrite ?H in *; clear H end; lia.

Lemma at_end_iff t : at_end t = true <-> tr_offset t = length (tr_base t).
Proof. unfold at_end. apply bool_decide_eq_true. Qed.

Lemma decode_ErrorMessage_spec data :
  decodes (decode_ErrorMessage data) (fun m env => ErrorMessage_ok m /\
    env_msg_type env = CT_Error /\ accounted data env (8 + 2 + Z.of_nat (length (em_message m)))).
Proof.
  unfold decode_ErrorMessage. do 2 decode_goal. fixed_body. decode_steps.
  rewrite at_end_iff in *. simpl in *.
  apply decodes_val. unfold ErrorMessage_ok, accounted. cbn [em_status em_message].
  repeat split_and; auto using enum_ok_of_raw. account.
Qed.

Lemma decode_OpenRequest_spec data :
  decodes (decode_OpenRequest data) (fun m env => OpenRequest_ok m /\
    env_msg_type env = CT_Open /\
    accounted data env (56 + 2 + Z.of_nat (length (oq_stream_name m)) +
                        4 + Z.of_nat (length (oq_client_ucx_address m)))).
Proof.
  unfold decode_OpenRequest. do 2 decode_goal. fixed_body. decode_steps.
  rewrite at_end_iff in *. simpl in *.
  apply decodes_val. unfold OpenRequest_ok, accounted.
  cbn [oq_version_min oq_version_max oq_requested_caps oq_client_instance_id
    oq_requested_max_frame_bytes oq_requested_ring_depth oq_requested_credit_window
    oq_requested_memory_kind oq_requested_transport oq_drop_policy oq_stream_name
    oq_client_ucx_address].
  repeat split_and; auto using enum_ok_of_raw. account.
Qed.

Lemma decode_OpenReply_spec data :
  decodes (decode_OpenReply data) (fun m env => OpenReply_typed m /\
    env_msg_type env = CT_OpenReply /\
    accounted data env (152 + 4 + Z.of_nat (length (or_server_ucx_address m)))).
Proof.
  unfold decode_OpenReply. do 2 decode_goal. fixed_body. decode_steps.
  rewrite at_end_iff in *. simpl in *.
  apply decodes_val. unfold OpenReply_typed, accounted.
  cbn [or_version_selected or_status or_granted_caps or_session_id or_stream_id
    or_lease_ttl_ms or_renew_interval_ms or_transport_selected or_server_epoch_id
    or_geometry or_server_ucx_address].
  repeat split_and; auto using enum_ok_of_raw. account.
Qed.

Lemma decodes_safe {A} (d : result (A * Envelope)) P : decodes d P -> safe d.
Proof. by intros [? _]. Qed.

Lemma decodes_accepts {A} (d : result (A * Envelope)) P m env :
  decodes d P -> d = Val (m, env) -> P m env.
Proof. intros [_ H]. apply H. Qed.

Lemma open_coord_safe data expected env : safe (snd (open_coord data expected env)).
Proof.
  unfold open_coord. unfold_limits.
  destruct (Z.ltb_spec (Z.of_nat (length data)) (Z.of_nat 32)); [no_fault|].
  destruct (Z.ltb_spec 65536 (Z.of_nat (length data))); [no_fault|].
  destruct (open_coord_fields_spec data ltac:(lia)) as [Hs _].
  destruct (get64_ok data 16) as (c & -> & _); [lia|].
  destruct (open_coord_fields data); simpl; [case_bool_decide; no_fault|no_fault|done].
Qed.

(** C31: no coordination decoder touches a byte outside the message it was
    given.  For every byte sequence -- truncated, hostile, of any length -- each
    of the seven message decoders and the envelope reader returns a value or a
    status, never an access out of bounds. *)
Theorem coordination_decoders_memory_safe data out :
  safe (decode_OpenRequest data) /\ safe (decode_OpenReply data) /\
  safe (decode_RenewRequest data) /\ safe (decode_RenewReply data) /\
  safe (decode_CloseRequest data) /\ safe (decode_CloseReply data) /\
  safe (decode_ErrorMessage data) /\ safe (snd (decode_envelope data out)).
Proof.
  repeat split_and.
  - eapply decodes_safe, decode_OpenRequest_spec.
  - eapply decodes_safe, decode_OpenReply_spec.
  - eapply decodes_safe, decode_RenewRequest_spec.
  - eapply decodes_safe, decode_RenewReply_spec.
  - eapply decodes_safe, decode_CloseRequest_spec.
  - eapply decodes_safe, decode_CloseReply_spec.
  - eapply decodes_safe, decode_ErrorMessage_spec.
  - unfold decode_envelope. unfold_limits.
    destruct (Z.ltb_spec (Z.of_nat (length data)) (Z.of_nat 32)); [no_fault|].
    destruct (get16_ok data 8) as (t & -> & _); [lia|].
    destruct (is_known_coord_type t); simpl; [apply open_coord_safe|no_fault].
Qed.

(** C32: whatever arrives, a request or reply that a decoder accepts is well
    formed -- every field in the range of its type (for a geometry block that is all
    the decoders look at: whether it describes an array is for its reader to check),
    identifiers of sixteen bytes, names and addresses within their caps, no NUL in a text -- and every
    byte of the message belongs to the envelope or to a field, so nothing can be
    smuggled behind an accepted message.  Fixed bodies may be longer only when
    the peer announces a newer minor version. *)
Theorem decoded_messages_well_formed data :
  (forall m env, decode_OpenRequest data = Val (m, env) ->
     OpenRequest_ok m /\ accounted data env
       (56 + 2 + Z.of_nat (length (oq_stream_name m)) +
        4 + Z.of_nat (length (oq_client_ucx_address m)))) /\
  (forall m env, decode_OpenReply data = Val (m, env) ->
     OpenReply_typed m /\
     accounted data env (152 + 4 + Z.of_nat (length (or_server_ucx_address m)))) /\
  (forall m env, decode_RenewRequest data = Val (m, env) ->
     RenewRequest_ok m /\ (env_version_minor env <= 0 -> accounted data env 40)) /\
  (forall m env, decode_RenewReply data = Val (m, env) ->
     RenewReply_ok m /\ (env_version_minor env <= 0 -> accounted data env 128)) /\
  (forall m env, decode_CloseRequest data = Val (m, env) ->
     CloseRequest_ok m /\ (env_version_minor env <= 0 -> accounted data env 24)) /\
  (forall m env, decode_CloseReply data = Val (m, env) ->
     CloseReply_ok m /\ (env_version_minor env <= 0 -> accounted data env 24)) /\
  (forall m env, decode_ErrorMessage data = Val (m, env) ->
     ErrorMessage_ok m /\ accounted data env (8 + 2 + Z.of_nat (length (em_message m)))).
Proof.
  repeat split_and; intros m env Hd.
  - by destruct (decodes_accepts _ _ _ _ (decode_OpenRequest_spec data) Hd) as (? & ? & ?).
  - by destruct (decodes_accepts _ _ _ _ (decode_OpenReply_spec data) Hd) as (? & ? & ?).
  - by destruct (decodes_accepts _ _ _ _ (decode_RenewRequest_spec data) Hd) as (? & ? & ?).
  - by destruct (decodes_accepts _ _ _ _ (decode_RenewReply_spec data) Hd) as (? & ? & ?).
  - by destruct (decodes_accepts _ _ _ _ (decode_CloseRequest_spec data) Hd) as (? & ? & ?).
  - by destruct (decodes_accepts _ _ _ _ (decode_CloseReply_spec data) Hd) as (? & ? & ?).
  - by destruct (decodes_accepts _ _ _ _ (decode_ErrorMessage_spec data) Hd) as (? & ? & ?).
Qed.

(** A [Close] message for session [0 .. 15] with reason 1. *)
Definition sample_close : bytes :=
  map byte_of_Z ([0x54; 0x42; 0x4C; 0x4B; 1; 0; 32; 0; 5; 0; 0; 0; 24; 0; 0; 0;
                  9; 0; 0; 0; 0; 0; 0; 0; 0; 0; 0; 0; 0; 0; 0; 0] ++
                 seqZ 0 16 ++ [1; 0; 0; 0; 0; 0; 0; 0]).

Lemma decoded_messages_well_formed_witness :
  exists m env, decode_CloseRequest sample_close = Val (m, env) /\
    CloseRequest_ok m /\ accounted sample_close env 24.
Proof.
  destruct (decoded_messages_well_formed sample_close) as (_ & _ & _ & _ & H & _).
  assert (exists m env, decode_CloseRequest sample_close = Val (m, env) /\
            env_version_minor env <= 0) as (m & env & Hd & Hm).
  { eexists _, _. split; [by vm_compute|]. discriminate. }
  exists m, env. destruct (H m env Hd) as [? Ha]. auto.
Defined.

(** a message whose type field names a known type can always be answered:
    whatever else is wrong with it -- an unsupported major version, a bad
    length -- the envelope the caller gets back carries the correlation of the
    request. *)
Theorem decode_envelope_recovers_correlation data out t
  (Hsize : 32 <= Z.of_nat (length data) <= 65536)
  (Htype : get16 (E := Status) data 8 = Val t) (Hknown : is_known_coord_type t = true) :
  get64 (E := Status) data 16 = Val (env_correlation_id (fst (decode_envelope data out))).
Proof.
  unfold decode_envelope. unfold_limits.
  destruct (Z.ltb_spec (Z.of_nat (length data)) (Z.of_nat 32)); [lia|].
  rewrite Htype, Hknown. simpl. unfold open_coord. unfold_limits.
  destruct (Z.ltb_spec (Z.of_nat (length data)) (Z.of_nat 32)); [lia|].
  destruct (Z.ltb_spec 65536 (Z.of_nat (length data))); [lia|].
  destruct (open_coord_fields_spec data ltac:(lia)) as [_ Hf].
  destruct (get64_ok data 16) as (c & Hc & _); [lia|]. rewrite Hc in *.
  destruct (open_coord_fields data) as [env|?|]; [|done..].
  destruct (Hf env eq_refl) as (? & ? & ? & ? & ? & ? & Hcor). by rewrite Hcor.
Qed.

(** A message of major version 2 and type [Renew] with correlation 77. *)
Definition future_renew (type : Z) : bytes :=
  map byte_of_Z [0x54; 0x42; 0x4C; 0x4B; 2; 0; 32; 0; type; 0; 0; 0; 0; 0; 0; 0;
                 77; 0; 0; 0; 0; 0; 0; 0; 0; 0; 0; 0; 0; 0; 0; 0].

Lemma decode_envelope_recovers_correlation_witness :
  get64 (E := Status) (future_renew 3) 16 =
    Val (env_correlation_id (fst (decode_envelope (future_renew 3) Envelope_default))) /\
  decode_envelope (future_renew 3) Envelope_default =
    (env_with_correlation Envelope_default 77, Err UnsupportedVersion).
Proof.
  split; [|by vm_compute].
  apply (decode_envelope_recovers_correlation (future_renew 3) Envelope_default 3);
    [vm_compute; split; discriminate|by vm_compute|by vm_compute].
Defined.

(** the recovery stops at the type field.  A message of an unsupported
    major version whose type is unknown is reported as [MalformedMessage]
    without validating the rest, and its correlation is not recovered, although
    the comment in [decode_envelope] says the rest is still validated. *)
Theorem decode_envelope_unknown_type_not_validated :
  exists data,
    get8 (E := Status) data 4 = Val 2 /\ get64 (E := Status) data 16 = Val 77 /\
    open_coord data CT_Renew Envelope_default =
      (env_with_correlation Envelope_default 77, Err UnsupportedVersion) /\
    decode_envelope data Envelope_default = (Envelope_default, Err MalformedMessage).
Proof. exists (future_renew 99). repeat split_and; by vm_compute. Qed.
