(* ===== verification/ProtocolRoundtrip.v ===== *)
(** * Encoding then decoding a coordination message

    Each encoder is first shown to produce one explicit byte layout, an envelope
    followed by the fields in wire order; the decoder is then evaluated on that
    layout.  The layouts are parameterised by the minor version and by the bytes
    a newer peer may append, so the round trips and the forward compatibility of
    the fixed-size bodies are instances of the same lemmas. *)
From S2P Require Import Prelude Enums Limits ByteOrder Geometry Text Protocol ProtocolSafety.
From Stdlib Require Import Strings.Byte.

(** ** Filling a zeroed buffer from left to right *)

Section Filling.
Context {E : Type}.
Implicit Types (pre x : bytes) (n p : nat).

Lemma write_fill pre x n p :
  p = length pre -> (length x <= n)%nat ->
  write (pre ++ replicate n x00) p x = (pre ++ x) ++ replicate (n - length x) x00.
Proof.
  intros -> ?. unfold write. rewrite take_app_length, <-app_assoc. do 2 f_equal.
  rewrite drop_app_add. by rewrite drop_replicate.
Qed.

Lemma put8_fill pre n p v :
  p = length pre -> (1 <= n)%nat ->
  put8 (E := E) (pre ++ replicate n x00) p v =
  Val ((pre ++ [byte_of_Z v]) ++ replicate (n - 1) x00).
Proof.
  intros. unfold put8. rewrite store_write by (rewrite length_app, length_replicate; lia).
  by rewrite write_fill.
Qed.

Lemma put16_fill pre n p v :
  p = length pre -> (2 <= n)%nat ->
  put16 (E := E) (pre ++ replicate n x00) p v =
  Val ((pre ++ le_bytes 2 v) ++ replicate (n - 2) x00).
Proof.
  intros. rewrite put16_write by (rewrite length_app, length_replicate; lia).
  rewrite write_fill; rewrite ?length_le_bytes; done.
Qed.

Lemma put32_fill pre n p v :
  p = length pre -> (4 <= n)%nat ->
  put32 (E := E) (pre ++ replicate n x00) p v =
  Val ((pre ++ le_bytes 4 v) ++ replicate (n - 4) x00).
Proof.
  intros. rewrite put32_write by (rewrite length_app, length_replicate; lia).
  rewrite write_fill; rewrite ?length_le_bytes; done.
Qed.

Lemma put64_fill pre n p v :
  p = length pre -> (8 <= n)%nat ->
  put64 (E := E) (pre ++ replicate n x00) p v =
  Val ((pre ++ le_bytes 8 v) ++ replicate (n - 8) x00).
Proof.
  intros. rewrite put64_write by (rewrite length_app, length_replicate; lia).
  rewrite write_fill; rewrite ?length_le_bytes; done.
Qed.

Lemma put_bytes_fill pre n p x :
  p = length pre -> (length x <= n)%nat ->
  put_bytes (E := E) (pre ++ replicate n x00) p x =
  Val ((pre ++ x) ++ replicate (n - length x) x00).
Proof.
  intros. rewrite put_bytes_write by (rewrite length_app, length_replicate; lia).
  by rewrite write_fill.
Qed.

(** A field written in the middle, over any eight bytes. *)
Lemma put64_middle pre old post p v :
  p = length pre -> length old = 8%nat ->
  put64 (E := E) (pre ++ old ++ post) p v = Val (pre ++ le_bytes 8 v ++ post).
Proof.
  intros -> Hl. rewrite put64_write by (rewrite !length_app; lia).
  unfold write. by rewrite take_app_length, length_le_bytes, drop_app_add, drop_app_length'.
Qed.
End Filling.

Lemma length_singleton {A} (x : A) : length [x] = 1%nat.
Proof. done. Qed.

(** ** The envelope *)

Definition envelope_layout (minor header_bytes : Z) (type : CoordType)
    (body_bytes correlation : Z) : bytes :=
  le_bytes 4 k_coord_magic ++ [byte_of_Z k_version_major] ++ [byte_of_Z minor] ++
  le_bytes 2 header_bytes ++ le_bytes 2 (raw type) ++ le_bytes 2 0 ++
  le_bytes 4 body_bytes ++ le_bytes 8 correlation ++ le_bytes 8 0.

Lemma length_envelope_layout minor h type n c : length (envelope_layout minor h type n c) = 32%nat.
Proof. done. Qed.

Ltac lengths :=
  unfold_limits;
  rewrite ?length_app, ?length_le_bytes, ?length_singleton, ?length_envelope_layout;
  simpl length; lia.

(** Run the next write of an encoder. *)
Ltac fill_step :=
  first
    [ rewrite put8_fill by lengths | rewrite put16_fill by lengths
    | rewrite put32_fill by lengths | rewrite put64_fill by lengths
    | unfold put_id16; rewrite put_bytes_fill by lengths ];
  rewrite bind_val.

(** A message with an envelope extended by [ext]. *)
Definition coord_layout (minor : Z) (ext : bytes) (type : CoordType) (correlation : Z)
    (body : bytes) : bytes :=
  envelope_layout minor (32 + Z.of_nat (length ext)) type (Z.of_nat (length body)) correlation
    ++ ext ++ body.

Lemma coord_layout_0 type c body n :
  length body = n ->
  coord_layout 0 [] type c body = envelope_layout 0 32 type (Z.of_nat n) c ++ body.
Proof. by intros <-. Qed.

Lemma make_message_layout type correlation n :
  Z.of_nat n <= 65504 ->
  make_message type correlation n =
  Val (envelope_layout 0 32 type (Z.of_nat n) correlation ++ replicate n x00).
Proof.
  intros Hn. unfold make_message. unfold_limits.
  destruct (Z.ltb_spec 65504 (Z.of_nat n)); [lia|].
  unfold put_envelope. rewrite wrap_small by (unfold in_range; lia).
  change (replicate (32 + n) x00) with ([] ++ replicate (32 + n) x00).
  do 8 fill_step. rewrite put64_fill by lengths. f_equal.
  rewrite app_nil_l. unfold envelope_layout. rewrite <-!app_assoc.
  replace (32 + n - 4 - 1 - 1 - 2 - 2 - 2 - 4 - 8 - 8)%nat with n by lia. done.
Qed.

Lemma app_replicate_0 (l : bytes) n : n = 0%nat -> l ++ replicate n x00 = l.
Proof. intros ->. apply app_nil_r. Qed.

(** The buffer is full: what was written is the layout. *)
Ltac fill_done :=
  rewrite app_replicate_0 by lengths; rewrite <-?app_assoc; reflexivity.

(** ** Reading a layout *)

Lemma get_id16_field buf p id : slice buf p 16 = id -> id_ok id -> get_id16 buf p = Val id.
Proof.
  intros Hs Hid. unfold get_id16. rewrite get_bytes_slice, Hs; [done|].
  apply slice_full; [by rewrite Hs|lia].
Qed.

(** The fields of a layout are read back by evaluating the sub-range. *)
Ltac field_step :=
  first
    [ erewrite get_id16_field; [|reflexivity|reflexivity]
    | erewrite get8_field; [|reflexivity|eassumption]
    | erewrite get16_field; [|reflexivity|eassumption]
    | erewrite get32_field; [|reflexivity|eassumption]
    | erewrite get64_field; [|reflexivity|eassumption] ];
  cbn [outcome_bind].

Lemma known_coord_type (t : CoordType) :
  (forall z, t <> CoordType_other z) ->
  in_range 16 (raw t) /\ is_known_coord_type (raw t) = true /\ of_raw (raw t) = t.
Proof. intros Ht. destruct t; [by repeat split..|by destruct (Ht z)]. Qed.

Lemma open_message_layout minor ext type correlation body :
  in_range 8 minor -> in_range 64 correlation -> (forall z, type <> CoordType_other z) ->
  Z.of_nat (length ext) + Z.of_nat (length body) <= 65504 ->
  32 + Z.of_nat (length ext) < 2 ^ 16 ->
  open_message (coord_layout minor ext type correlation body) type =
  Val (mkEnvelope 1 minor (32 + Z.of_nat (length ext)) type 0 (Z.of_nat (length body))
         correlation, body).
Proof.
  intros Hminor Hcor Ht Hsize Hext. destruct (known_coord_type type Ht) as (Htr & Hk & Hof).
  set (data := coord_layout minor ext type correlation body).
  assert (length data = 32 + length ext + length body)%nat as Hl.
  { subst data. unfold coord_layout. rewrite !length_app, length_envelope_layout. lia. }
  assert (in_range 16 (32 + Z.of_nat (length ext))) by (unfold in_range; lia).
  assert (in_range 32 (Z.of_nat (length body))) by (unfold in_range; lia).
  assert (open_coord_fields data = Val (mkEnvelope 1 minor (32 + Z.of_nat (length ext)) type 0
    (Z.of_nat (length body)) correlation)) as Hf.
  { unfold open_coord_fields. rewrite Hl.
    assert (in_range 32 k_coord_magic) by done. assert (in_range 8 k_version_major) by done.
    assert (in_range 16 0) by done.
    repeat (field_step; rewrite ?Z.eqb_refl; unfold_limits; cbn [andb]).
    rewrite !(proj2 (Z.leb_le _ _)) by lia. rewrite (proj2 (Z.eqb_eq _ _)) by lia.
    by rewrite Hk, Hof. }
  unfold open_message, open_coord. rewrite Hl, Hf. unfold_limits.
  rewrite !(proj2 (Z.ltb_ge _ _)) by lia. field_step. cbn [env_msg_type env_header_bytes].
  rewrite bool_decide_eq_false_2 by naive_solver.
  do 2 f_equal. subst data. unfold coord_layout. rewrite app_assoc. apply drop_app_length'.
  rewrite length_app, length_envelope_layout. lia.
Qed.

(** ** The bodies *)

Definition array_layout (a : array4) : bytes := mjoin (le_bytes 8 <$> a).

Definition geometry_layout (g : GeometryBlock) : bytes :=
  le_bytes 4 (gb_generation g) ++ le_bytes 4 (raw (gb_element_type g)) ++
  le_bytes 4 (gb_element_size g) ++ le_bytes 4 (gb_rank g) ++
  le_bytes 8 (gb_max_frame_bytes g) ++ le_bytes 4 (gb_ring_depth g) ++
  le_bytes 4 (gb_credit_window g) ++ array_layout (gb_shape g) ++ array_layout (gb_strides g).

Lemma replicate_8s (m k : nat) :
  replicate (m * 8 + k) x00 = mjoin (replicate m (replicate 8 x00)) ++ replicate k x00.
Proof.
  induction m as [|m IH]; [done|]. cbn [replicate mjoin list_join Nat.mul].
  by rewrite <-Nat.add_assoc, replicate_add, IH, app_assoc.
Qed.

Lemma length_mjoin_8s (cs : list bytes) :
  Forall (fun c => length c = 8%nat) cs -> length (mjoin cs) = (length cs * 8)%nat.
Proof. induction 1 as [|c cs Hc _ IH]; simpl; [done|]. rewrite length_app, IH, Hc. lia. Qed.

(** Writing the [i]-th of a row of eight-byte fields. *)
Lemma put64_chunk {E} pre cs rest i p v :
  Forall (fun c => length c = 8%nat) cs -> (i < length cs)%nat ->
  p = (length pre + i * 8)%nat ->
  put64 (E := E) (pre ++ mjoin cs ++ rest) p v =
  Val (pre ++ mjoin (<[i := le_bytes 8 v]> cs) ++ rest).
Proof.
  intros Hcs Hi ->. destruct (lookup_lt_is_Some_2 cs i Hi) as [c Hc].
  rewrite insert_take_drop by done. rewrite <-(take_drop_middle cs i c Hc) at 1.
  rewrite !join_app. cbn [mjoin list_join]. rewrite <-!app_assoc, !(app_assoc pre).
  apply put64_middle; [|by eapply Forall_lookup_1 in Hcs].
  rewrite length_app, length_mjoin_8s by (by apply Forall_take).
  rewrite length_take. lia.
Qed.

Ltac chunk_step Hb i :=
  rewrite (put64_chunk _ _ _ i);
  [cbn [outcome_bind insert list_insert]
  |repeat (apply Forall_cons_2; [done || apply Hb|]); apply Forall_nil_2|simpl; lia|lia].

(** The interleaved loop over shape and strides fills the two arrays. *)
Lemma put_arrays_fill pre n p so to shape strides :
  array_ok shape -> array_ok strides -> (64 <= n)%nat ->
  (p + so = length pre)%nat -> (to = so + 32)%nat ->
  put_arrays 4 0 (pre ++ replicate n x00) p so to shape strides =
  Val ((pre ++ array_layout shape ++ array_layout strides) ++ replicate (n - 64) x00).
Proof.
  intros [Hs _] [Ht _] Hn Hp ->.
  destruct shape as [|s0 [|s1 [|s2 [|s3 [|]]]]]; try discriminate.
  destruct strides as [|t0 [|t1 [|t2 [|t3 [|]]]]]; try discriminate.
  replace n with (8 * 8 + (n - 64))%nat at 1 by lia. rewrite replicate_8s.
  generalize (replicate (n - 64) x00). intros rest.
  cbn [put_arrays lookup_total list_lookup_total].
  assert (length (replicate 8 x00) = 8%nat) as Hz by done.
  revert Hz. generalize (replicate 8 x00). intros z Hz. cbn [replicate].
  pose proof (length_le_bytes 8) as Hb.
  chunk_step Hb 0%nat. chunk_step Hb 4%nat. chunk_step Hb 1%nat. chunk_step Hb 5%nat.
  chunk_step Hb 2%nat. chunk_step Hb 6%nat. chunk_step Hb 3%nat. chunk_step Hb 7%nat.
  unfold array_layout. cbn [fmap list_fmap mjoin list_join]. by rewrite <-!app_assoc.
Qed.

Lemma put_geometry_fill pre n p g :
  geometry_typed g -> (96 <= n)%nat -> p = length pre ->
  put_geometry (pre ++ replicate n x00) p g =
  Val ((pre ++ geometry_layout g) ++ replicate (n - 96) x00).
Proof.
  intros (_ & _ & _ & _ & _ & _ & _ & Hs & Ht) Hn ->. unfold put_geometry.
  do 7 fill_step. rewrite put_arrays_fill by (assumption || lengths).
  unfold geometry_layout. rewrite <-!app_assoc. do 12 f_equal. lia.
Qed.

(** ** Reading the parts of a body *)

Lemma slice_app_shift {A} (pre l : list A) k n :
  slice (pre ++ l) (length pre + k) n = slice l k n.
Proof. unfold slice. by rewrite drop_app_add. Qed.

Ltac shifted_step :=
  first
    [ erewrite get32_field; [|rewrite slice_app_shift; reflexivity|eassumption]
    | erewrite get64_field; [|rewrite slice_app_shift; reflexivity|eassumption] ];
  cbn [outcome_bind].

Lemma length_array_layout a : array_ok a -> length (array_layout a) = 32%nat.
Proof. intros [Hl _]. by destruct a as [|? [|? [|? [|? [|]]]]]. Qed.

Lemma get_array_layout pre a post p :
  array_ok a -> p = length pre ->
  get_array 4 0 (pre ++ array_layout a ++ post) p = Val a.
Proof.
  intros [Hl Ha] ->. destruct a as [|a0 [|a1 [|a2 [|a3 [|]]]]]; try discriminate.
  repeat (apply Forall_cons_1 in Ha as [? Ha]).
  unfold get_array. do 4 shifted_step. done.
Qed.

Lemma get_geometry_layout pre g post p :
  geometry_typed g -> p = length pre ->
  get_geometry (pre ++ geometry_layout g ++ post) p = Val g.
Proof.
  intros (? & [? Het] & ? & ? & ? & ? & ? & Hs & Ht) ->. unfold get_geometry.
  do 7 shifted_step.
  assert (pre ++ geometry_layout g ++ post =
    (pre ++ take 32 (geometry_layout g)) ++ array_layout (gb_shape g) ++
    (array_layout (gb_strides g) ++ post)) as Hd.
  { rewrite <-(take_drop 32 (geometry_layout g)) at 1.
    change (drop 32 (geometry_layout g))
      with (array_layout (gb_shape g) ++ array_layout (gb_strides g)).
    by rewrite <-!app_assoc. }
  rewrite Hd at 1. rewrite get_array_layout by (done || rewrite length_app; reflexivity).
  cbn [outcome_bind].
  rewrite Hd, (app_assoc _ (array_layout (gb_shape g))).
  rewrite get_array_layout; [|done|].
  - cbn [outcome_bind]. rewrite Het. by destruct g.
  - rewrite !length_app, length_array_layout by done.
    change (length (take 32 (geometry_layout g))) with 32%nat. lia.
Qed.

Lemma get_bytes_middle {E} pre x post p n :
  p = length pre -> n = length x -> get_bytes (E := E) (pre ++ x ++ post) p n = Val x.
Proof.
  intros -> ->. rewrite get_bytes_slice by (rewrite !length_app; lia).
  rewrite <-(Nat.add_0_r (length pre)), slice_app_shift. unfold slice.
  by rewrite drop_0, take_app_length.
Qed.

Lemma no_nul s : (x00 ∉ s) -> existsb (fun c => bool_decide (c = x00)) s = false.
Proof.
  intros Hs. apply not_true_iff_false. intros (c & Hc & Heq)%existsb_exists.
  apply bool_decide_eq_true in Heq as ->. apply Hs. by apply list_elem_of_In.
Qed.

Lemma read_string_layout base pre s post off min max :
  base = pre ++ le_bytes 2 (Z.of_nat (length s)) ++ s ++ post -> off = length pre ->
  bounded min max s -> (x00 ∉ s) -> max < 2 ^ 16 ->
  read_string (mkTailReader base off) min max =
  Val (s, mkTailReader base (off + 2 + length s)).
Proof.
  intros Hb Hoff [? ?] Hs ?. unfold read_string. cbn [tr_base tr_offset].
  assert (length base = length pre + 2 + length s + length post)%nat as Hl.
  { subst base. rewrite !length_app, length_le_bytes. lia. }
  rewrite Hl, (proj2 (Z.leb_le _ _)) by lia.
  erewrite get16_field; [| |unfold in_range; instantiate (1 := Z.of_nat (length s)); lia].
  2: { subst base off. rewrite <-(Nat.add_0_r (length pre)), slice_app_shift. reflexivity. }
  cbn [outcome_bind]. rewrite !(proj2 (Z.leb_le _ _)) by lia. cbn [andb].
  rewrite Nat2Z.id. rewrite Hb at 1. rewrite (app_assoc pre).
  rewrite get_bytes_middle by (rewrite ?length_app, ?length_le_bytes; lia).
  cbn [outcome_bind]. by rewrite no_nul.
Qed.

Lemma read_blob_layout base pre s post off min max :
  base = pre ++ le_bytes 4 (Z.of_nat (length s)) ++ s ++ post -> off = length pre ->
  bounded min max s -> max < 2 ^ 32 ->
  read_blob (mkTailReader base off) min max =
  Val (s, mkTailReader base (off + 4 + length s)).
Proof.
  intros Hb Hoff [? ?] ?. unfold read_blob. cbn [tr_base tr_offset].
  assert (length base = length pre + 4 + length s + length post)%nat as Hl.
  { subst base. rewrite !length_app, length_le_bytes. lia. }
  rewrite Hl, (proj2 (Z.leb_le _ _)) by lia.
  erewrite get32_field; [| |unfold in_range; instantiate (1 := Z.of_nat (length s)); lia].
  2: { subst base off. rewrite <-(Nat.add_0_r (length pre)), slice_app_shift. reflexivity. }
  cbn [outcome_bind]. rewrite !(proj2 (Z.leb_le _ _)) by lia. cbn [andb].
  rewrite Nat2Z.id. rewrite Hb at 1. rewrite (app_assoc pre).
  by rewrite get_bytes_middle by (rewrite ?length_app, ?length_le_bytes; lia).
Qed.

(** ** Messages of a fixed size *)

Ltac destruct_id id Hid := repeat (destruct id as [|? id]; [discriminate Hid|]); destruct id; [|discriminate Hid].

Definition RenewRequest_body (m : RenewRequest) : bytes :=
  nq_session_id m ++ le_bytes 8 (nq_client_frames_delivered m) ++
  le_bytes 8 (nq_client_credits_returned m) ++ le_bytes 4 (nq_client_state m) ++ le_bytes 4 0.
Definition RenewReply_body (m : RenewReply) : bytes :=
  (nr_session_id m ++ le_bytes 2 (raw (nr_status m)) ++ le_bytes 2 0 ++
   le_bytes 4 (nr_lease_ttl_ms m) ++ le_bytes 4 (nr_renew_interval_ms m) ++
   le_bytes 4 (raw (nr_server_state m))) ++ geometry_layout (nr_geometry m).
Definition CloseRequest_body (m : CloseRequest) : bytes :=
  cq_session_id m ++ le_bytes 4 (raw (cq_reason m)) ++ le_bytes 4 0.
Definition CloseReply_body (m : CloseReply) : bytes :=
  cr_session_id m ++ le_bytes 2 (raw (cr_status m)) ++ le_bytes 2 0 ++
  le_bytes 4 (cr_frames_credited_final m).

Lemma encode_RenewRequest_bytes m c :
  id_ok (nq_session_id m) -> encode_RenewRequest m c = Val (coord_layout 0 [] CT_Renew c (RenewRequest_body m)).
Proof.
  intros Hid. unfold encode_RenewRequest. unfold id_ok in Hid.
  rewrite make_message_layout by done. rewrite bind_val. do 4 fill_step. rewrite put32_fill by lengths.
  rewrite (coord_layout_0 _ _ _ k_renew_bytes)
    by (unfold RenewRequest_body; rewrite !length_app, Hid, !length_le_bytes; reflexivity).
  unfold RenewRequest_body. fill_done.
Qed.

Lemma encode_RenewRequest_layout m c :
  RenewRequest_ok m -> encode_RenewRequest m c = Val (coord_layout 0 [] CT_Renew c (RenewRequest_body m)).
Proof. intros [Hid _]. by apply encode_RenewRequest_bytes. Qed.

Lemma length_geometry_layout g : geometry_typed g -> length (geometry_layout g) = 96%nat.
Proof.
  intros (_ & _ & _ & _ & _ & _ & _ & Hs & Ht). unfold geometry_layout.
  by rewrite !length_app, !length_array_layout, !length_le_bytes.
Qed.

Lemma encode_RenewReply_layout m c :
  RenewReply_ok m -> encode_RenewReply m c = Val (coord_layout 0 [] CT_RenewReply c (RenewReply_body m)).
Proof.
  intros (Hid & _ & _ & _ & _ & Hg). unfold encode_RenewReply. unfold id_ok in Hid.
  rewrite make_message_layout by done. rewrite bind_val. do 6 fill_step. rewrite put_geometry_fill by (assumption || lengths).
  rewrite (coord_layout_0 _ _ _ k_renew_reply_bytes)
    by (unfold RenewReply_body; rewrite !length_app, Hid, !length_le_bytes, length_geometry_layout by done; reflexivity).
  unfold RenewReply_body. fill_done.
Qed.

Lemma encode_CloseRequest_layout m c :
  CloseRequest_ok m -> encode_CloseRequest m c = Val (coord_layout 0 [] CT_Close c (CloseRequest_body m)).
Proof.
  intros (Hid & _). unfold encode_CloseRequest. unfold id_ok in Hid.
  rewrite make_message_layout by done. rewrite bind_val. do 2 fill_step. rewrite put32_fill by lengths.
  rewrite (coord_layout_0 _ _ _ k_close_bytes)
    by (unfold CloseRequest_body; rewrite !length_app, Hid, !length_le_bytes; reflexivity).
  unfold CloseRequest_body. fill_done.
Qed.

Lemma encode_CloseReply_layout m c :
  CloseReply_ok m -> encode_CloseReply m c = Val (coord_layout 0 [] CT_CloseReply c (CloseReply_body m)).
Proof.
  intros (Hid & _). unfold encode_CloseReply. unfold id_ok in Hid.
  rewrite make_message_layout by done. rewrite bind_val. do 3 fill_step. rewrite put32_fill by lengths.
  rewrite (coord_layout_0 _ _ _ k_close_reply_bytes)
    by (unfold CloseReply_body; rewrite !length_app, Hid, !length_le_bytes; reflexivity).
  unfold CloseReply_body. fill_done.
Qed.

(** The bytes a peer of minor version [minor] may append to a fixed body. *)
Definition tolerated (minor : Z) (ext extra : bytes) : Prop :=
  in_range 8 minor /\ (minor = 0 -> extra = []) /\
  Z.of_nat (length ext) + Z.of_nat (length extra) <= 32768.

(** The envelope a decoder hands back for a layout. *)
Definition envelope_of (minor : Z) (ext : bytes) (type : CoordType) (c : Z) (body : bytes)
    : Envelope :=
  mkEnvelope 1 minor (32 + Z.of_nat (length ext)) type 0 (Z.of_nat (length body)) c.

Lemma check_fixed_body_tolerated minor ext extra body n :
  tolerated minor ext extra -> length body = n ->
  check_fixed_body (Z.of_nat (length (body ++ extra))) (Z.of_nat n) minor = Ok.
Proof.
  intros ([? _] & Hx & _) <-. unfold check_fixed_body. rewrite length_app.
  change k_version_minor with 0.
  rewrite (proj2 (Z.ltb_ge _ _)) by lia. destruct (Z.leb_spec minor 0).
  - rewrite Hx by lia. by rewrite (proj2 (Z.ltb_ge _ _)) by (simpl; lia).
  - by rewrite andb_false_r.
Qed.

(** Open a fixed-size layout: what remains is to read the fields of its body. *)
Ltac open_fixed Htol :=
  pose proof Htol as ([? ?] & _ & ?);
  rewrite open_message_layout by
    (done || (unfold in_range; lia) || (rewrite length_app; simpl length; lia) || lia);
  cbn [outcome_bind env_version_minor];
  unfold require; rewrite (check_fixed_body_tolerated _ _ _ _ _ Htol) by reflexivity;
  rewrite bool_decide_eq_false_2 by (intros Hne; by apply Hne); cbn [outcome_bind].

Lemma decode_RenewRequest_layout minor ext extra m c :
  RenewRequest_ok m -> in_range 64 c -> tolerated minor ext extra ->
  decode_RenewRequest (coord_layout minor ext CT_Renew c (RenewRequest_body m ++ extra)) =
  Val (m, envelope_of minor ext CT_Renew c (RenewRequest_body m ++ extra)).
Proof.
  destruct m as [id d r s]. intros (Hid & ? & ? & ?) Hc Htol. unfold decode_RenewRequest.
  cbn [nq_session_id nq_client_frames_delivered nq_client_credits_returned nq_client_state] in *.
  unfold id_ok in Hid. destruct_id id Hid. open_fixed Htol.
  field_step. field_step. field_step. field_step. done.
Qed.

Lemma decode_RenewReply_layout minor ext extra m c :
  RenewReply_ok m -> in_range 64 c -> tolerated minor ext extra ->
  decode_RenewReply (coord_layout minor ext CT_RenewReply c (RenewReply_body m ++ extra)) =
  Val (m, envelope_of minor ext CT_RenewReply c (RenewReply_body m ++ extra)).
Proof.
  destruct m as [id st ttl ivl ss g].
  intros (Hid & [? Hst] & ? & ? & [? Hss] & Hg) Hc Htol. unfold decode_RenewReply.
  cbn [nr_session_id nr_status nr_lease_ttl_ms nr_renew_interval_ms nr_server_state
    nr_geometry] in *.
  unfold id_ok in Hid. pose proof (length_geometry_layout g Hg) as Hl. destruct_id id Hid.
  pose proof Htol as ([? ?] & _ & ?).
  set (body := RenewReply_body _).
  assert (length body = 128%nat) as Hb.
  { subst body. unfold RenewReply_body. rewrite length_app. cbn [nr_geometry]. by rewrite Hl. }
  rewrite open_message_layout by
    (done || (unfold in_range; lia) || (rewrite length_app; lia) || lia).
  cbn [outcome_bind env_version_minor]. unfold require.
  rewrite (check_fixed_body_tolerated _ _ _ _ _ Htol) by done.
  rewrite bool_decide_eq_false_2 by (intros Hne; by apply Hne). cbn [outcome_bind].
  do 5 field_step. subst body. unfold RenewReply_body at 1. rewrite <-app_assoc.
  rewrite get_geometry_layout by done. cbn [outcome_bind nr_status nr_server_state nr_geometry].
  by rewrite Hst, Hss.
Qed.

Lemma decode_CloseRequest_layout minor ext extra m c :
  CloseRequest_ok m -> in_range 64 c -> tolerated minor ext extra ->
  decode_CloseRequest (coord_layout minor ext CT_Close c (CloseRequest_body m ++ extra)) =
  Val (m, envelope_of minor ext CT_Close c (CloseRequest_body m ++ extra)).
Proof.
  destruct m as [id r]. intros (Hid & [? Hr]) Hc Htol. unfold decode_CloseRequest.
  cbn [cq_session_id cq_reason] in *.
  unfold id_ok in Hid. destruct_id id Hid. open_fixed Htol. do 2 field_step. cbn [cq_reason].
  by rewrite Hr.
Qed.

Lemma decode_CloseReply_layout minor ext extra m c :
  CloseReply_ok m -> in_range 64 c -> tolerated minor ext extra ->
  decode_CloseReply (coord_layout minor ext CT_CloseReply c (CloseReply_body m ++ extra)) =
  Val (m, envelope_of minor ext CT_CloseReply c (CloseReply_body m ++ extra)).
Proof.
  destruct m as [id st f]. intros (Hid & [? Hst] & ?) Hc Htol. unfold decode_CloseReply.
  cbn [cr_session_id cr_status cr_frames_credited_final] in *.
  unfold id_ok in Hid. destruct_id id Hid. open_fixed Htol. do 3 field_step. cbn [cr_status].
  by rewrite Hst.
Qed.

(** ** Messages with a tail *)

Definition string_layout (s : bytes) : bytes := le_bytes 2 (Z.of_nat (length s)) ++ s.
Definition blob_layout (s : bytes) : bytes := le_bytes 4 (Z.of_nat (length s)) ++ s.

Lemma put_string_field_fill pre n p s :
  p = length pre -> (2 + length s <= n)%nat -> Z.of_nat (length s) < 2 ^ 16 ->
  put_string_field (pre ++ replicate n x00) p s =
  Val ((pre ++ string_layout s) ++ replicate (n - (2 + length s)) x00, (2 + length s)%nat).
Proof.
  intros -> ? ?. unfold put_string_field. rewrite wrap_small by (unfold in_range; lia).
  rewrite put16_fill by lia. rewrite bind_val, put_bytes_fill by lengths.
  rewrite bind_val. unfold string_layout. by rewrite <-!app_assoc, Nat.sub_add_distr.
Qed.

Lemma put_blob_field_fill pre n p s :
  p = length pre -> (4 + length s <= n)%nat -> Z.of_nat (length s) < 2 ^ 32 ->
  put_blob_field (pre ++ replicate n x00) p s =
  Val ((pre ++ blob_layout s) ++ replicate (n - (4 + length s)) x00, (4 + length s)%nat).
Proof.
  intros -> ? ?. unfold put_blob_field. rewrite wrap_small by (unfold in_range; lia).
  rewrite put32_fill by lia. rewrite bind_val, put_bytes_fill by lengths.
  rewrite bind_val. unfold blob_layout. by rewrite <-!app_assoc, Nat.sub_add_distr.
Qed.

Definition ErrorMessage_body (m : ErrorMessage) : bytes :=
  le_bytes 2 (raw (em_status m)) ++ le_bytes 2 0 ++ le_bytes 4 0 ++ string_layout (em_message m).

Definition OpenRequest_fixed (m : OpenRequest) : bytes :=
  [byte_of_Z (oq_version_min m)] ++ [byte_of_Z (oq_version_max m)] ++ le_bytes 2 0 ++
  le_bytes 4 (oq_requested_caps m) ++ oq_client_instance_id m ++
  le_bytes 8 (oq_requested_max_frame_bytes m) ++ le_bytes 4 (oq_requested_ring_depth m) ++
  le_bytes 4 (oq_requested_credit_window m) ++ le_bytes 4 (raw (oq_requested_memory_kind m)) ++
  le_bytes 4 (raw (oq_requested_transport m)) ++ le_bytes 4 (raw (oq_drop_policy m)) ++
  le_bytes 4 0.

Definition OpenRequest_body (m : OpenRequest) : bytes :=
  OpenRequest_fixed m ++ string_layout (oq_stream_name m) ++
  blob_layout (oq_client_ucx_address m).

Definition OpenReply_fixed (m : OpenReply) : bytes :=
  [byte_of_Z (or_version_selected m)] ++ [byte_of_Z 0] ++ le_bytes 2 (raw (or_status m)) ++
  le_bytes 4 (or_granted_caps m) ++ or_session_id m ++ le_bytes 8 (or_stream_id m) ++
  le_bytes 4 (or_lease_ttl_ms m) ++ le_bytes 4 (or_renew_interval_ms m) ++
  le_bytes 4 (raw (or_transport_selected m)) ++ le_bytes 4 0 ++
  le_bytes 8 (or_server_epoch_id m).

Definition OpenReply_body (m : OpenReply) : bytes :=
  OpenReply_fixed m ++ geometry_layout (or_geometry m) ++ blob_layout (or_server_ucx_address m).

Lemma length_string_layout s : length (string_layout s) = (2 + length s)%nat.
Proof. unfold string_layout. by rewrite length_app, length_le_bytes. Qed.
Lemma length_blob_layout s : length (blob_layout s) = (4 + length s)%nat.
Proof. unfold blob_layout. by rewrite length_app, length_le_bytes. Qed.
Lemma length_OpenRequest_fixed m :
  id_ok (oq_client_instance_id m) -> length (OpenRequest_fixed m) = 56%nat.
Proof. intros Hid. unfold OpenRequest_fixed. by rewrite !length_app, Hid. Qed.
Lemma length_OpenReply_fixed m : id_ok (or_session_id m) -> length (OpenReply_fixed m) = 56%nat.
Proof. intros Hid. unfold OpenReply_fixed. by rewrite !length_app, Hid. Qed.

(** ** Error *)

Lemma truncated_bounded m :
  enum_ok 16 (em_status m) -> (x00 ∉ em_message m) ->
  ErrorMessage_ok (mkErrorMessage (em_status m) (truncated (em_message m) 512)).
Proof.
  intros Hst Hm. split; [done|]. cbn [em_message]. unfold truncated, bounded.
  destruct (Z.ltb_spec 512 (Z.of_nat (length (em_message m)))).
  - rewrite length_take. split; [lia|]. intros Hin. apply Hm.
    rewrite <-(take_drop (Z.to_nat 512)), elem_of_app. by left.
  - split; [lia|done].
Qed.

Lemma encode_ErrorMessage_layout m c :
  encode_ErrorMessage m c = Val (coord_layout 0 [] CT_Error c (ErrorMessage_body
    (mkErrorMessage (em_status m) (truncated (em_message m) 512)))).
Proof.
  unfold encode_ErrorMessage. change k_max_error_message_bytes with 512.
  assert (Z.of_nat (length (truncated (em_message m) 512)) <= 512) as Hl.
  { unfold truncated. destruct (Z.ltb_spec 512 (Z.of_nat (length (em_message m))));
      rewrite ?length_take; lia. }
  revert Hl. generalize (truncated (em_message m) 512) as msg. intros msg Hl. cbv zeta.
  rewrite make_message_layout by lengths. rewrite bind_val. do 3 fill_step.
  rewrite put_string_field_fill by (lengths || lia). rewrite bind_val.
  rewrite (coord_layout_0 _ _ _ (k_error_fixed_bytes + 2 + length msg)).
  - unfold ErrorMessage_body. cbn [em_status em_message].
    rewrite app_replicate_0 by lengths. by rewrite <-!app_assoc.
  - unfold ErrorMessage_body. cbn [em_message].
    rewrite !length_app, length_string_layout. done.
Qed.

Lemma decode_ErrorMessage_layout m c :
  ErrorMessage_ok m -> in_range 64 c ->
  decode_ErrorMessage (coord_layout 0 [] CT_Error c (ErrorMessage_body m)) =
  Val (m, envelope_of 0 [] CT_Error c (ErrorMessage_body m)).
Proof.
  intros ([? Hst] & Hb & Hn) Hc. unfold decode_ErrorMessage. unfold bounded in Hb.
  assert (length (ErrorMessage_body m) = 10 + length (em_message m))%nat as Hl by done.
  rewrite open_message_layout by (done || (rewrite Hl; simpl; lia)). rewrite bind_val.
  rewrite Hl, (proj2 (Nat.leb_le _ _)) by (unfold_limits; lia). field_step.
  rewrite (read_string_layout _ (take 8 (ErrorMessage_body m)) (em_message m) [])
    by (done || (by rewrite app_nil_r) || (unfold bounded; unfold_limits; lia)).
  rewrite bind_val. unfold at_end. cbn [tr_base tr_offset].
  rewrite bool_decide_eq_true_2 by (rewrite Hl; unfold_limits; lia).
  rewrite Hst. unfold envelope_of. rewrite Hl. by destruct m.
Qed.

(** ** Open *)

Lemma stream_name_bounds s :
  validate_stream_name s = Ok -> bounded 1 64 s /\ (x00 ∉ s).
Proof.
  unfold validate_stream_name, bounded. unfold_limits. intros Hs. split_guards.
  split; [lia|]. intros Hin. match goal with H : forallb _ s = true |- _ => rename H into Ha end.
  rewrite forallb_forall in Ha. specialize (Ha x00).
  discriminate Ha. by apply list_elem_of_In.
Qed.

Lemma encode_OpenRequest_bytes m c :
  id_ok (oq_client_instance_id m) -> validate_stream_name (oq_stream_name m) = Ok ->
  bounded 1 4096 (oq_client_ucx_address m) ->
  encode_OpenRequest m c = Val (coord_layout 0 [] CT_Open c (OpenRequest_body m)).
Proof.
  intros Hid Hname Haddr.
  destruct (stream_name_bounds _ Hname) as [[? ?] _]. destruct Haddr as [? ?].
  unfold encode_OpenRequest. rewrite bool_decide_eq_false_2 by (intros Hne; by apply Hne).
  rewrite bool_decide_eq_false_2 by (intros Hnil; rewrite Hnil in *; simpl in *; lia).
  rewrite (proj2 (Z.ltb_ge _ _)) by (unfold_limits; lia). cbn [orb]. cbv zeta.
  unfold id_ok in Hid.
  rewrite make_message_layout by lengths. rewrite bind_val. do 12 fill_step.
  rewrite put_string_field_fill by (lengths || lia). rewrite bind_val.
  rewrite put_blob_field_fill by (rewrite ?length_app, ?length_string_layout; lengths || lia).
  rewrite bind_val.
  rewrite (coord_layout_0 _ _ _ (k_open_fixed_bytes + 2 + length (oq_stream_name m) + 4 +
    length (oq_client_ucx_address m))).
  - unfold OpenRequest_body, OpenRequest_fixed.
    rewrite app_replicate_0 by lengths. by rewrite <-!app_assoc.
  - unfold OpenRequest_body.
    rewrite !length_app, length_OpenRequest_fixed, length_string_layout, length_blob_layout
      by done. lengths.
Qed.

Lemma encode_OpenRequest_layout m c :
  OpenRequest_ok m ->
  encode_OpenRequest m c = Val (coord_layout 0 [] CT_Open c (OpenRequest_body m)).
Proof. intros (_ & _ & _ & ? & _ & _ & _ & _ & _ & _ & ? & ?). by apply encode_OpenRequest_bytes. Qed.

(** With an identifier of the right size the encoder throws or succeeds. *)
Lemma encode_OpenRequest_safe m c : id_ok (oq_client_instance_id m) -> safe (encode_OpenRequest m c).
Proof.
  intros Hid. destruct (decide (validate_stream_name (oq_stream_name m) = Ok)) as [Hn|Hn].
  2:{ unfold encode_OpenRequest. rewrite bool_decide_eq_true_2 by done. apply safe_err. }
  destruct (decide (1 <= Z.of_nat (length (oq_client_ucx_address m)) <= 4096)) as [Ha|Ha].
  { rewrite encode_OpenRequest_bytes by done. apply safe_val. }
  unfold encode_OpenRequest. rewrite bool_decide_eq_false_2 by auto.
  assert (bool_decide (oq_client_ucx_address m = []) ||
    (k_max_ucx_address_bytes <? Z.of_nat (length (oq_client_ucx_address m))) = true) as ->; [|apply safe_err].
  unfold_limits. destruct (oq_client_ucx_address m); [done|]. apply orb_true_iff. right. apply Z.ltb_lt. simpl in *. lia.
Qed.

Lemma decode_OpenRequest_layout m c :
  OpenRequest_ok m -> in_range 64 c ->
  decode_OpenRequest (coord_layout 0 [] CT_Open c (OpenRequest_body m)) =
  Val (m, envelope_of 0 [] CT_Open c (OpenRequest_body m)).
Proof.
  intros (? & ? & ? & Hid & ? & ? & ? & [? Hmk] & [? Htr] & [? Hdp] & Hname & Haddr) Hc.
  destruct (stream_name_bounds _ Hname) as [Hnb Hnul].
  pose proof (length_OpenRequest_fixed m Hid) as Hf.
  assert (length (OpenRequest_body m) = 56 + (2 + length (oq_stream_name m)) +
            (4 + length (oq_client_ucx_address m)))%nat as Hl.
  { unfold OpenRequest_body. rewrite !length_app, Hf, length_string_layout, length_blob_layout.
    lia. }
  unfold decode_OpenRequest. unfold bounded in Hnb, Haddr.
  rewrite open_message_layout by (done || (rewrite Hl; simpl length; lia)). rewrite bind_val.
  rewrite Hl, (proj2 (Nat.leb_le _ _)) by (unfold_limits; lia).
  unfold envelope_of. rewrite <-Hl.
  destruct m as [vmin vmax caps id mfb rd cw mk tr dp name addr].
  cbn [oq_version_min oq_version_max oq_requested_caps oq_client_instance_id
    oq_requested_max_frame_bytes oq_requested_ring_depth oq_requested_credit_window
    oq_requested_memory_kind oq_requested_transport oq_drop_policy oq_stream_name
    oq_client_ucx_address] in *. unfold id_ok in Hid.
  destruct_id id Hid. do 10 field_step.
  set (body := OpenRequest_body _) in *.
  rewrite (read_string_layout body (OpenRequest_fixed _) name (blob_layout addr))
    by (done || (unfold bounded; unfold_limits; lia)).
  rewrite bind_val.
  rewrite (read_blob_layout body (take 56 body ++ string_layout name) addr [])
    by ((unfold bounded; unfold_limits; lia) ||
        (rewrite ?app_nil_r, ?length_app, ?length_string_layout; reflexivity) || done).
  rewrite bind_val. unfold at_end. cbn [tr_base tr_offset].
  rewrite bool_decide_eq_true_2 by (rewrite Hl; unfold_limits; lia).
  unfold require. rewrite Hname, bool_decide_eq_false_2 by (intros Hne; by apply Hne).
  rewrite bind_val.
  cbn [oq_requested_memory_kind oq_requested_transport oq_drop_policy].
  by rewrite Hmk, Htr, Hdp.
Qed.

(** What [encode] accepts: a successful reply carries an address. *)
Definition OpenReply_ok (m : OpenReply) : Prop :=
  OpenReply_typed m /\ (or_status m = Ok -> or_server_ucx_address m <> []).

Lemma encode_OpenReply_layout m c :
  OpenReply_ok m ->
  encode_OpenReply m c = Val (coord_layout 0 [] CT_OpenReply c (OpenReply_body m)).
Proof.
  intros [(_ & _ & _ & Hid & _ & _ & _ & _ & _ & Hg & Haddr) Hne]. destruct Haddr as [? ?].
  unfold encode_OpenReply. rewrite (proj2 (Z.ltb_ge _ _)) by (unfold_limits; lia).
  assert (bool_decide (or_status m = Ok) && bool_decide (or_server_ucx_address m = []) = false)
    as ->.
  { case_bool_decide; [|done]. rewrite bool_decide_eq_false_2 by auto. done. }
  unfold id_ok in Hid. cbv zeta.
  rewrite make_message_layout by lengths. rewrite bind_val. do 11 fill_step.
  rewrite put_geometry_fill by (assumption || lengths). rewrite bind_val.
  pose proof (length_geometry_layout _ Hg) as Hgl.
  rewrite put_blob_field_fill by (rewrite ?length_app, ?Hgl; lengths || lia). rewrite bind_val.
  rewrite (coord_layout_0 _ _ _ (k_open_reply_fixed_bytes + 4 +
    length (or_server_ucx_address m))).
  - unfold OpenReply_body, OpenReply_fixed.
    rewrite app_replicate_0 by lengths. by rewrite <-!app_assoc.
  - unfold OpenReply_body.
    rewrite !length_app, Hgl, length_OpenReply_fixed, length_blob_layout by done. lengths.
Qed.

Lemma decode_OpenReply_layout m c :
  OpenReply_typed m -> in_range 64 c ->
  decode_OpenReply (coord_layout 0 [] CT_OpenReply c (OpenReply_body m)) =
  Val (m, envelope_of 0 [] CT_OpenReply c (OpenReply_body m)).
Proof.
  intros (? & [? Hst] & ? & Hid & ? & ? & ? & [? Htr] & ? & Hg & Haddr) Hc.
  pose proof (length_OpenReply_fixed m Hid) as Hf.
  pose proof (length_geometry_layout _ Hg) as Hgl.
  assert (length (OpenReply_body m) = 152 + (4 + length (or_server_ucx_address m)))%nat as Hl.
  { unfold OpenReply_body. rewrite !length_app, Hf, Hgl, length_blob_layout. lia. }
  unfold decode_OpenReply. unfold bounded in Haddr.
  rewrite open_message_layout by (done || (rewrite Hl; simpl length; lia)). rewrite bind_val.
  rewrite Hl, (proj2 (Nat.leb_le _ _)) by (unfold_limits; lia).
  unfold envelope_of. rewrite <-Hl.
  destruct m as [v st caps id sid ttl ivl tr ep g addr].
  cbn [or_version_selected or_status or_granted_caps or_session_id or_stream_id
    or_lease_ttl_ms or_renew_interval_ms or_transport_selected or_server_epoch_id
    or_geometry or_server_ucx_address] in *. unfold id_ok in Hid.
  destruct_id id Hid. do 9 field_step.
  unfold OpenReply_body at 1.
  rewrite get_geometry_layout by done. rewrite bind_val.
  set (body := OpenReply_body _) in *.
  rewrite (read_blob_layout body (OpenReply_fixed _ ++ geometry_layout g) addr [])
    by ((unfold bounded; unfold_limits; lia) ||
        (rewrite ?app_nil_r, ?length_app, ?Hgl, <-?app_assoc; reflexivity) || done).
  rewrite bind_val. unfold at_end. cbn [tr_base tr_offset].
  rewrite bool_decide_eq_true_2 by (rewrite Hl; unfold_limits; lia).
  cbn [or_status or_transport_selected]. by rewrite Hst, Htr.
Qed.

(** ** The theorems *)

(** The body and the envelope a peer of this version sends. *)
Definition sends {M} (encode : M -> Z -> throws bytes)
    (decode : bytes -> result (M * Envelope)) (type : CoordType) (m m' : M) (c : Z) : Prop :=
  exists data env, encode m c = Val data /\ decode data = Val (m', env) /\
    env_correlation_id env = c /\ env_msg_type env = type /\
    env_version_major env = k_version_major /\ env_version_minor env = k_version_minor.

Lemma sends_layout {M} (encode : M -> Z -> throws bytes) decode type (m m' : M) c body :
  encode m c = Val (coord_layout 0 [] type c body) ->
  decode (coord_layout 0 [] type c body) = Val (m', envelope_of 0 [] type c body) ->
  sends encode decode type m m' c.
Proof. intros He Hd. eexists _, _. by repeat split. Qed.

(** an Open request that is well formed is encoded, and the publisher
    decodes exactly the request that was sent -- every field, the stream name
    and the transport address -- with the correlation of the call. *)
Theorem open_request_roundtrip m c (Hm : OpenRequest_ok m) (Hc : in_range 64 c) :
  sends encode_OpenRequest decode_OpenRequest CT_Open m m c.
Proof.
  eapply sends_layout; [by apply encode_OpenRequest_layout|by apply decode_OpenRequest_layout].
Qed.

(** One field of a concrete message. *)
Ltac sample_field :=
  match goal with
  | |- in_range _ _ => unfold in_range; lia
  | |- array_ok _ => split; [reflexivity|repeat constructor; discriminate]
  | |- enum_ok _ _ => split; [vm_compute; by split|reflexivity]
  | |- _ => by vm_compute
  end.

Definition sample_id : bytes := map byte_of_Z (seqZ 1 16).
Definition sample_open : OpenRequest :=
  mkOpenRequest 1 1 5 sample_id 65536 8 4 Host Any DropNewest (str "camera-1")
    (str "ucx-address").

Lemma open_request_roundtrip_witness :
  sends encode_OpenRequest decode_OpenRequest CT_Open sample_open sample_open 42.
Proof.
  apply (open_request_roundtrip sample_open 42); [|done].
  unfold OpenRequest_ok, bounded. cbn -[raw of_raw].
  repeat split_and; sample_field.
Defined.

(** an Open reply that [encode] accepts -- a successful one carries an
    address -- arrives unchanged, its geometry included. *)
Theorem open_reply_roundtrip m c (Hm : OpenReply_ok m) (Hc : in_range 64 c) :
  sends encode_OpenReply decode_OpenReply CT_OpenReply m m c.
Proof.
  eapply sends_layout; [by apply encode_OpenReply_layout|].
  destruct Hm. by apply decode_OpenReply_layout.
Qed.

Definition sample_block : GeometryBlock :=
  mkGeometryBlock 1 ET_UInt16 2 2 65536 8 4 [64; 128; 0; 0] [256; 2; 0; 0].
Definition sample_reply : OpenReply :=
  mkOpenReply 1 Ok 5 sample_id 7 30000 10000 ActiveMessage 11 sample_block (str "server").

Lemma sample_block_typed : geometry_typed sample_block.
Proof.
  unfold geometry_typed. cbn -[raw of_raw].
  repeat split_and; sample_field.
Defined.

Lemma open_reply_roundtrip_witness :
  sends encode_OpenReply decode_OpenReply CT_OpenReply sample_reply sample_reply 42.
Proof.
  apply (open_reply_roundtrip sample_reply 42); [|done].
  split; [|done]. unfold OpenReply_typed, bounded. cbn -[raw of_raw geometry_typed].
  repeat split_and; first [apply sample_block_typed | sample_field].
Defined.

(** renewals and closes, the messages that keep a session alive and end
    it, round-trip in both directions. *)
Theorem fixed_messages_roundtrip c (Hc : in_range 64 c) :
  (forall m, RenewRequest_ok m -> sends encode_RenewRequest decode_RenewRequest CT_Renew m m c) /\
  (forall m, RenewReply_ok m -> sends encode_RenewReply decode_RenewReply CT_RenewReply m m c) /\
  (forall m, CloseRequest_ok m -> sends encode_CloseRequest decode_CloseRequest CT_Close m m c) /\
  (forall m, CloseReply_ok m -> sends encode_CloseReply decode_CloseReply CT_CloseReply m m c).
Proof.
  assert (tolerated 0 [] []) as Ht by (repeat split; done).
  repeat split_and; intros m Hm; eapply sends_layout.
  - by apply encode_RenewRequest_layout.
  - pose proof (decode_RenewRequest_layout 0 [] [] m c Hm Hc Ht) as H. by rewrite app_nil_r in H.
  - by apply encode_RenewReply_layout.
  - pose proof (decode_RenewReply_layout 0 [] [] m c Hm Hc Ht) as H. by rewrite app_nil_r in H.
  - by apply encode_CloseRequest_layout.
  - pose proof (decode_CloseRequest_layout 0 [] [] m c Hm Hc Ht) as H. by rewrite app_nil_r in H.
  - by apply encode_CloseReply_layout.
  - pose proof (decode_CloseReply_layout 0 [] [] m c Hm Hc Ht) as H. by rewrite app_nil_r in H.
Qed.

Definition sample_renew_reply : RenewReply :=
  mkRenewReply sample_id SessionExpired 30000 10000 SS_Closed sample_block.

Lemma fixed_messages_roundtrip_witness :
  sends encode_RenewReply decode_RenewReply CT_RenewReply sample_renew_reply sample_renew_reply 9.
Proof.
  refine (proj1 (proj2 (fixed_messages_roundtrip 9 _)) sample_renew_reply _); [done|].
  unfold RenewReply_ok. cbn -[raw of_raw geometry_typed].
  repeat split_and; first [apply sample_block_typed | sample_field].
Defined.

(** any error text can be sent: [encode] cuts it at 512 bytes instead of
    failing, and a text without NUL arrives as the cut text. *)
Theorem error_message_roundtrip m c (Hst : enum_ok 16 (em_status m))
  (Hm : (x00 ∉ em_message m)) (Hc : in_range 64 c) :
  sends encode_ErrorMessage decode_ErrorMessage CT_Error m
    (mkErrorMessage (em_status m) (take 512 (em_message m))) c.
Proof.
  assert (truncated (em_message m) 512 = take 512 (em_message m)) as <-.
  { unfold truncated. destruct (Z.ltb_spec 512 (Z.of_nat (length (em_message m)))); [done|].
    rewrite take_ge by lia. done. }
  eapply sends_layout; [apply encode_ErrorMessage_layout|].
  apply decode_ErrorMessage_layout; [by apply truncated_bounded|done].
Qed.

Lemma error_message_roundtrip_witness :
  sends encode_ErrorMessage decode_ErrorMessage CT_Error
    (mkErrorMessage UnknownStream (str "no such stream"))
    (mkErrorMessage UnknownStream (take 512 (str "no such stream"))) 3.
Proof.
  apply (error_message_roundtrip (mkErrorMessage UnknownStream (str "no such stream")) 3);
    [solve_enum| |done].
  cbn [em_message]. apply (bool_decide_eq_true_1 _). by vm_compute.
Defined.

(** a peer of a newer minor version may extend the envelope and append
    bytes to the fixed-size bodies; the decoders of this version read the fields
    they know and ignore the rest. *)
Theorem newer_minor_messages_accepted minor ext extra c
  (Hc : in_range 64 c) (Ht : tolerated minor ext extra) :
  (forall m, RenewRequest_ok m ->
     decode_RenewRequest (coord_layout minor ext CT_Renew c (RenewRequest_body m ++ extra)) =
     Val (m, envelope_of minor ext CT_Renew c (RenewRequest_body m ++ extra))) /\
  (forall m, RenewReply_ok m ->
     decode_RenewReply (coord_layout minor ext CT_RenewReply c (RenewReply_body m ++ extra)) =
     Val (m, envelope_of minor ext CT_RenewReply c (RenewReply_body m ++ extra))) /\
  (forall m, CloseRequest_ok m ->
     decode_CloseRequest (coord_layout minor ext CT_Close c (CloseRequest_body m ++ extra)) =
     Val (m, envelope_of minor ext CT_Close c (CloseRequest_body m ++ extra))) /\
  (forall m, CloseReply_ok m ->
     decode_CloseReply (coord_layout minor ext CT_CloseReply c (CloseReply_body m ++ extra)) =
     Val (m, envelope_of minor ext CT_CloseReply c (CloseReply_body m ++ extra))).
Proof.
  repeat split_and; intros m Hm.
  - by apply decode_RenewRequest_layout.
  - by apply decode_RenewReply_layout.
  - by apply decode_CloseRequest_layout.
  - by apply decode_CloseReply_layout.
Qed.

Lemma newer_minor_messages_accepted_witness :
  let m := mkCloseRequest sample_id ClientShutdown in
  decode_CloseRequest (coord_layout 3 [x00] CT_Close 5 (CloseRequest_body m ++ [x00; x00])) =
  Val (m, envelope_of 3 [x00] CT_Close 5 (CloseRequest_body m ++ [x00; x00])).
Proof.
  intros m.
  refine (proj1 (proj2 (proj2 (newer_minor_messages_accepted 3 [x00] [x00; x00] 5 _ _))) m _).
  - done.
  - split; [done|]. split; [discriminate|]. done.
  - split; [done|solve_enum].
Defined.
