(* ===== verification/Dispatch.v ===== *)
(** * Envelopes, messages and the statuses decoders report

    Which decoder of [src/core/protocol.cpp] gets past an envelope, with which
    correlation, and which statuses the decoders return: what both ends of the
    coordination plane rely on when they dispatch on [decode_envelope]. *)
From Stdlib Require Import Init.Byte.
From stdpp Require Import list.
From S2P Require Import Prelude Enums Limits ByteOrder Geometry Text Protocol ProtocolSafety.
#[local] Open Scope Z_scope.

(** ** Which statuses a decoder reports *)

Definition failing (st : Status) : Prop := enum_ok 16 st /\ st <> Ok.
Definition reports {A} (d : result A) : Prop := forall st, d = Err st -> failing st.

Lemma reports_val {A} (a : A) : reports (Val a : result A).
Proof. by intros st. Qed.
Lemma reports_malformed {A} : reports (Err MalformedMessage : result A).
Proof. intros st [= <-]. split; [solve_enum|done]. Qed.
Lemma reports_version {A} : reports (Err UnsupportedVersion : result A).
Proof. intros st [= <-]. split; [solve_enum|done]. Qed.
Lemma reports_bind {A B} (d : result A) (k : A -> result B) :
  reports d -> (forall a, reports (k a)) -> reports (outcome_bind d k).
Proof. intros Hd Hk st. destruct d; simpl; [apply Hk|intros [= <-]; by apply Hd|done]. Qed.
Lemma reports_if {A} (b : bool) (d e : result A) : reports d -> reports e -> reports (if b then d else e).
Proof. by destruct b. Qed.
Lemma reports_get8 buf p : reports (get8 buf p).
Proof. unfold get8. destruct (buf !! p); by intros st. Qed.
Lemma reports_get_loop w n i buf p v : reports (get_loop w n i buf p v).
Proof.
  revert i v. induction n as [|n IH]; intros i v; [apply reports_val|].
  simpl. apply reports_bind; [apply reports_get8|intros; apply IH].
Qed.
Lemma reports_get16 buf p : reports (get16 buf p).
Proof. do 2 (apply reports_bind; [apply reports_get8|intros]). apply reports_val. Qed.
Lemma reports_get32 buf p : reports (get32 buf p).
Proof. apply reports_get_loop. Qed.
Lemma reports_get64 buf p : reports (get64 buf p).
Proof. apply reports_get_loop. Qed.
Lemma reports_get_bytes buf p n : reports (get_bytes buf p n).
Proof. unfold get_bytes. case_bool_decide; by intros st. Qed.

Create HintDb reports.
#[export] Hint Resolve reports_val reports_malformed reports_version reports_get_bytes : reports.
#[export] Hint Resolve reports_get8 reports_get16 reports_get32 reports_get64 : reports.

Ltac reports_step :=
  first
    [ solve [auto with reports]
    | apply reports_bind; [|intros]
    | apply reports_if
    | match goal with |- reports (match ?x with _ => _ end) => destruct x end ].

Lemma reports_open_coord_fields data : reports (open_coord_fields data).
Proof. unfold open_coord_fields. cbv zeta. repeat reports_step. Qed.

Lemma reports_open_message data t : reports (open_message data t).
Proof.
  unfold open_message, open_coord. cbv zeta. pose proof (reports_open_coord_fields data) as Hf.
  destruct (_ <? _); [apply reports_malformed|]. destruct (_ <? _); [apply reports_malformed|].
  pose proof (reports_get64 data 16) as Hg.
  destruct (get64 data 16); [|intros st [= <-]; by apply Hg|by intros st].
  destruct (open_coord_fields data); [|intros st [= <-]; by apply Hf|by intros st].
  case_bool_decide; auto with reports.
Qed.

Lemma reports_require st : failing st \/ st = Ok -> reports (require st).
Proof.
  intros Hst. unfold require. case_bool_decide; [|apply reports_val].
  intros st' [= <-]. by destruct Hst.
Qed.

Lemma reports_check_fixed_body n fixed minor : reports (require (check_fixed_body n fixed minor)).
Proof.
  apply reports_require. unfold check_fixed_body. repeat case_match; auto; left; split; (solve_enum || done).
Qed.
Lemma reports_stream_name name : reports (require (validate_stream_name name)).
Proof.
  apply reports_require. unfold validate_stream_name. repeat case_match; auto; left; split; (solve_enum || done).
Qed.
#[export] Hint Resolve reports_open_message reports_check_fixed_body reports_stream_name : reports.

Lemma reports_requests data :
  reports (decode_OpenRequest data) /\ reports (decode_RenewRequest data) /\
  reports (decode_CloseRequest data).
Proof.
  unfold decode_OpenRequest, decode_RenewRequest, decode_CloseRequest, get_id16, read_string, read_blob.
  cbv zeta. repeat split_and; repeat reports_step.
Qed.

(** ** The envelope and the message agree *)

(** An envelope that decodes says which message decoder gets past it, and with
    which correlation; one that does not stops all of them. *)
Lemma decode_envelope_cases data :
  (exists env body, decode_envelope data Envelope_default = (env, Val body) /\
     get64 (E := Status) data 16 = Val (env_correlation_id env) /\ (32 <= length data)%nat /\
     forall t, open_message data t =
       if bool_decide (env_msg_type env = t) then Val (env, body) else Err MalformedMessage) \/
  (exists env st, decode_envelope data Envelope_default = (env, Err st) /\ failing st /\
     forall t, exists st', open_message data t = Err st').
Proof.
  assert (failing MalformedMessage) as Hm by (split; [solve_enum|done]).
  unfold decode_envelope, open_message, open_coord. cbv zeta. unfold_limits.
  destruct (Z.ltb_spec (Z.of_nat (length data)) (Z.of_nat 32)).
  { right. eexists _, _. split; [done|]. split; [done|]. by eexists. }
  destruct (get16_ok data 8) as (t & Ht & _); [lia|]. rewrite Ht.
  destruct (get64_ok data 16) as (c & Hc & _); [lia|]. rewrite Hc.
  destruct (open_coord_fields_spec data ltac:(lia)) as [Hsafe Hspec].
  pose proof (reports_open_coord_fields data) as Hrep.
  destruct (Z.ltb_spec 65536 (Z.of_nat (length data))).
  { right. destruct (negb _); eexists _, _; (split; [done|]; split; [done|]; by eexists). }
  destruct (open_coord_fields data) as [env|st|] eqn:Hf; [| |done].
  - destruct (Hspec env eq_refl) as (_ & _ & _ & _ & _ & _ & Hcor).
    assert (is_known_coord_type t = true /\ env_msg_type env = of_raw t) as [Hk He].
    { unfold open_coord_fields in Hf. rewrite Ht in Hf.
      repeat (apply bind_val_inv in Hf as (? & ? & Hf) ||
              (apply guard_val_inv in Hf as (? & Hf))).
      by simplify_eq/=. }
    rewrite Hk. cbn [negb]. rewrite (bool_decide_eq_false_2 (env_msg_type env <> of_raw t)) by auto.
    left. eexists _, _. split; [done|]. split; [congruence|]. split; [lia|]. intros t'. simpl.
    case_bool_decide; case_bool_decide; congruence.
  - specialize (Hrep st eq_refl). right. destruct (negb _); eexists _, _; (split; [done|]; split; [done|]; by eexists).
Qed.

(** A message that decodes carries the envelope that was opened. *)
Ltac opened_envelope H :=
  apply bind_val_inv in H as ([? ?] & ? & H);
  repeat (apply bind_val_inv in H as ([? ?] & ? & H) || apply bind_val_inv in H as (? & ? & H) ||
          (apply guard_val_inv in H as (? & H)));
  simplify_eq; eauto.

Lemma decoded_replies_opened data :
  (forall m env, decode_OpenReply data = Val (m, env) -> exists body, open_message data CT_OpenReply = Val (env, body)) /\
  (forall m env, decode_RenewReply data = Val (m, env) -> exists body, open_message data CT_RenewReply = Val (env, body)) /\
  (forall m env, decode_CloseReply data = Val (m, env) -> exists body, open_message data CT_CloseReply = Val (env, body)) /\
  (forall m env, decode_ErrorMessage data = Val (m, env) -> exists body, open_message data CT_Error = Val (env, body)).
Proof. repeat split_and; intros m env H; opened_envelope H. Qed.
