(* ===== verification/DataPlane.v ===== *)
(** * The data plane of the wire protocol

    The second half of [src/core/protocol.cpp]: the 16-byte prefix, the frame
    header with its geometry checks, and the credit, probe and probe-ack
    messages.  Here an encoder fills a fixed array and cannot fail. *)
From S2P Require Import Prelude Enums Limits ByteOrder Geometry Protocol ProtocolSafety.
From S2P Require Import ProtocolRoundtrip.
From Stdlib Require Import Strings.Byte.

(** ** Definitions *)

Record DataPrefix : Type := mkDataPrefix {
  dp_version_major : Z;
  dp_version_minor : Z;
  dp_header_bytes : Z;
  dp_msg_type : DataType;
  dp_flags : Z;
  dp_generation : Z
}.

Record FrameHeader : Type := mkFrameHeader {
  fh_generation : Z;
  fh_stream_id : Z;
  fh_sequence : Z;
  fh_payload_bytes : Z;
  fh_timestamp_ns : Z;
  fh_event_counter : Z;
  fh_dropped_before : Z;
  fh_element_type : ElementType;
  fh_element_size : Z;
  fh_rank : Z;
  fh_quality : Z;
  fh_memory_kind : MemoryKind;
  fh_endian : Endian;
  fh_shape : array4;
  fh_strides : array4
}.

Record CreditMessage : Type := mkCreditMessage {
  cm_generation : Z;
  cm_stream_id : Z;
  cm_ack_sequence : Z
}.

Record ProbeMessage : Type := mkProbeMessage {
  pm_generation : Z;
  pm_stream_id : Z;
  pm_probe_token : Z
}.

Record ProbeAckMessage : Type := mkProbeAckMessage {
  pa_generation : Z;
  pa_stream_id : Z;
  pa_probe_token : Z
}.

Definition put_data_prefix (p : bytes) (type : DataType) (header_bytes generation : Z)
    : throws bytes :=
  let! p := put32 p 0 k_data_magic in
  let! p := put8 p 4 k_version_major in
  let! p := put8 p 5 k_version_minor in
  let! p := put16 p 6 header_bytes in
  let! p := put16 p 8 (raw type) in
  let! p := put16 p 10 0 in
  put32 p 12 generation.

Definition min_header_bytes (type : DataType) : Z :=
  match type with
  | DT_Frame => Z.of_nat k_frame_header_bytes
  | DT_Credit => Z.of_nat k_credit_bytes
  | DT_Probe => Z.of_nat k_probe_bytes
  | DT_ProbeAck => Z.of_nat k_probe_ack_bytes
  | DataType_other _ => 0
  end.

Definition is_known_data_type (r : Z) : bool :=
  negb (min_header_bytes (of_raw r) =? 0).

Definition open_data (data : bytes) (expected : DataType) : result DataPrefix :=
  let size := Z.of_nat (length data) in
  guard! Z.of_nat k_data_prefix_bytes <=? size else MalformedMessage in
  let! magic := get32 data 0 in
  guard! magic =? k_data_magic else MalformedMessage in
  let! major := get8 data 4 in
  guard! major =? k_version_major else UnsupportedVersion in
  let! type_raw := get16 data 8 in
  guard! type_raw =? raw expected else MalformedMessage in
  let! header_bytes := get16 data 6 in
  guard! negb ((header_bytes <? min_header_bytes expected) || (size <? header_bytes))
    else MalformedMessage in
  let! minor := get8 data 5 in
  let! flags := get16 data 10 in
  let! generation := get32 data 12 in
  Val (mkDataPrefix major minor header_bytes expected flags generation).

Definition decode_data_prefix (data : bytes) : result DataPrefix :=
  guard! Z.of_nat k_data_prefix_bytes <=? Z.of_nat (length data) else MalformedMessage in
  let! magic := get32 data 0 in
  guard! magic =? k_data_magic else MalformedMessage in
  let! type_raw := get16 data 8 in
  guard! is_known_data_type type_raw else MalformedMessage in
  open_data data (of_raw type_raw).

Definition encode_FrameHeader (msg : FrameHeader) : throws bytes :=
  let out := replicate k_frame_header_bytes x00 in
  let! p := put_data_prefix out DT_Frame (Z.of_nat k_frame_header_bytes) (fh_generation msg) in
  let! p := put64 p 16 (fh_stream_id msg) in
  let! p := put64 p 24 (fh_sequence msg) in
  let! p := put64 p 32 (fh_payload_bytes msg) in
  let! p := put64 p 40 (fh_timestamp_ns msg) in
  let! p := put64 p 48 (fh_event_counter msg) in
  let! p := put64 p 56 (fh_dropped_before msg) in
  let! p := put32 p 64 (raw (fh_element_type msg)) in
  let! p := put32 p 68 (fh_element_size msg) in
  let! p := put32 p 72 (fh_rank msg) in
  let! p := put32 p 76 (fh_quality msg) in
  let! p := put32 p 80 (raw (fh_memory_kind msg)) in
  let! p := put32 p 84 (raw (fh_endian msg)) in
  let! p := put_arrays 4 0 p 0 88 120 (fh_shape msg) (fh_strides msg) in
  put64 p 152 0.

(** The fields as they are on the wire, before they are checked. *)
Definition read_FrameHeader (data : bytes) (prefix : DataPrefix) : result FrameHeader :=
  let! stream_id := get64 data 16 in
  let! sequence := get64 data 24 in
  let! payload_bytes := get64 data 32 in
  let! timestamp_ns := get64 data 40 in
  let! event_counter := get64 data 48 in
  let! dropped_before := get64 data 56 in
  let! element_type := get32 data 64 in
  let! element_size := get32 data 68 in
  let! rank := get32 data 72 in
  let! quality := get32 data 76 in
  let! memory_kind := get32 data 80 in
  let! endian := get32 data 84 in
  let! shape := get_array 4 0 data 88 in
  let! strides := get_array 4 0 data 120 in
  Val (mkFrameHeader (dp_generation prefix) stream_id sequence payload_bytes timestamp_ns
         event_counter dropped_before (of_raw element_type) element_size rank quality
         (of_raw memory_kind) (of_raw endian) shape strides).

Definition decode_FrameHeader (data : bytes) : result FrameHeader :=
  let! prefix := open_data data DT_Frame in
  let! msg := read_FrameHeader data prefix in
  guard! negb ((fh_payload_bytes msg =? 0) ||
               (k_max_frame_bytes_hard_cap <? fh_payload_bytes msg)) else FrameTooLarge in
  let! _ := require (validate_element_size (fh_element_type msg) (fh_element_size msg)) in
  let! _ := require (validate_shape_and_strides (fh_rank msg) (fh_shape msg) (fh_strides msg)
                       (fh_element_size msg) (fh_payload_bytes msg)) in
  Val msg.

Definition encode_CreditMessage (msg : CreditMessage) : throws bytes :=
  let out := replicate k_credit_bytes x00 in
  let! p := put_data_prefix out DT_Credit (Z.of_nat k_credit_bytes) (cm_generation msg) in
  let! p := put64 p 16 (cm_stream_id msg) in
  put64 p 24 (cm_ack_sequence msg).

Definition decode_CreditMessage (data : bytes) : result CreditMessage :=
  let! prefix := open_data data DT_Credit in
  let! stream_id := get64 data 16 in
  let! ack_sequence := get64 data 24 in
  Val (mkCreditMessage (dp_generation prefix) stream_id ack_sequence).

Definition encode_ProbeMessage (msg : ProbeMessage) : throws bytes :=
  let out := replicate k_probe_bytes x00 in
  let! p := put_data_prefix out DT_Probe (Z.of_nat k_probe_bytes) (pm_generation msg) in
  let! p := put64 p 16 (pm_stream_id msg) in
  put64 p 24 (pm_probe_token msg).

Definition decode_ProbeMessage (data : bytes) : result ProbeMessage :=
  let! prefix := open_data data DT_Probe in
  let! stream_id := get64 data 16 in
  let! probe_token := get64 data 24 in
  Val (mkProbeMessage (dp_generation prefix) stream_id probe_token).

Definition encode_ProbeAckMessage (msg : ProbeAckMessage) : throws bytes :=
  let out := replicate k_probe_ack_bytes x00 in
  let! p := put_data_prefix out DT_ProbeAck (Z.of_nat k_probe_ack_bytes) (pa_generation msg) in
  let! p := put64 p 16 (pa_stream_id msg) in
  put64 p 24 (pa_probe_token msg).

Definition decode_ProbeAckMessage (data : bytes) : result ProbeAckMessage :=
  let! prefix := open_data data DT_ProbeAck in
  let! stream_id := get64 data 16 in
  let! probe_token := get64 data 24 in
  Val (mkProbeAckMessage (dp_generation prefix) stream_id probe_token).

(** ** Memory safety *)

Lemma open_data_spec data t :
  safe (open_data data t) /\
  forall p, open_data data t = Val p ->
    dp_msg_type p = t /\ in_range 32 (dp_generation p) /\
    min_header_bytes t <= dp_header_bytes p <= Z.of_nat (length data).
Proof.
  unfold open_data. unfold_limits.
  guard_step; [|split; [apply safe_err|discriminate]]. bool_to_prop.
  repeat (read_step || (guard_step; [|split; [apply safe_err|discriminate]])).
  split; [apply safe_val|]. intros p [= <-]. bool_to_prop. simpl. auto with lia.
Qed.

(** A decoder of this plane: no fault, and [P] of what it accepts. *)
Definition accepts {A} (d : result A) (P : A -> Prop) : Prop :=
  safe d /\ forall a, d = Val a -> P a.

Lemma accepts_err {A} s (P : A -> Prop) : accepts (Err s) P.
Proof. split; [apply safe_err|discriminate]. Qed.
Lemma accepts_val {A} (a : A) (P : A -> Prop) : P a -> accepts (Val a) P.
Proof. intros. split; [apply safe_val|]. by intros ? [= <-]. Qed.

Lemma accepts_open {A} data t (k : DataPrefix -> result A) P :
  (forall p, dp_msg_type p = t -> in_range 32 (dp_generation p) ->
     min_header_bytes t <= dp_header_bytes p <= Z.of_nat (length data) -> accepts (k p) P) ->
  accepts (outcome_bind (open_data data t) k) P.
Proof.
  intros Hk. destruct (open_data_spec data t) as [Hs Hv].
  destruct (open_data data t) as [p|s|]; [|apply accepts_err|done].
  destruct (Hv p eq_refl) as (? & ? & ?). by apply Hk.
Qed.

Lemma accepts_require {A} st (k : unit -> result A) P :
  (st = Ok -> accepts (k tt) P) -> accepts (outcome_bind (require st) k) P.
Proof. intros. unfold require. case_bool_decide; [apply accepts_err|auto]. Qed.

Definition FrameHeader_typed (m : FrameHeader) : Prop :=
  in_range 32 (fh_generation m) /\ in_range 64 (fh_stream_id m) /\
  in_range 64 (fh_sequence m) /\ in_range 64 (fh_payload_bytes m) /\
  in_range 64 (fh_timestamp_ns m) /\ in_range 64 (fh_event_counter m) /\
  in_range 64 (fh_dropped_before m) /\ enum_ok 32 (fh_element_type m) /\
  in_range 32 (fh_element_size m) /\ in_range 32 (fh_rank m) /\ in_range 32 (fh_quality m) /\
  enum_ok 32 (fh_memory_kind m) /\ enum_ok 32 (fh_endian m) /\
  array_ok (fh_shape m) /\ array_ok (fh_strides m).

(** The checks a receiver may rely on. *)
Definition FrameHeader_checked (m : FrameHeader) : Prop :=
  1 <= fh_payload_bytes m <= 268435456 /\
  validate_element_size (fh_element_type m) (fh_element_size m) = Ok /\
  validate_shape_and_strides (fh_rank m) (fh_shape m) (fh_strides m) (fh_element_size m)
    (fh_payload_bytes m) = Ok.

Lemma read_FrameHeader_ok data p :
  (160 <= length data)%nat -> in_range 32 (dp_generation p) ->
  exists m, read_FrameHeader data p = Val m /\ FrameHeader_typed m.
Proof.
  intros Hl Hg. unfold read_FrameHeader. repeat read_step.
  destruct (get_array_ok data 88) as (a & -> & ?); [lia|]. rewrite bind_val.
  destruct (get_array_ok data 120) as (c & -> & ?); [lia|]. rewrite bind_val.
  eexists. split; [done|]. unfold FrameHeader_typed.
  cbn [fh_generation fh_stream_id fh_sequence fh_payload_bytes fh_timestamp_ns
    fh_event_counter fh_dropped_before fh_element_type fh_element_size fh_rank fh_quality
    fh_memory_kind fh_endian fh_shape fh_strides].
  repeat split_and; auto using enum_ok_of_raw.
Qed.

Lemma decode_FrameHeader_spec data :
  accepts (decode_FrameHeader data) (fun m => FrameHeader_typed m /\ FrameHeader_checked m).
Proof.
  unfold decode_FrameHeader. apply accepts_open. intros p _ Hg Hh.
  change (min_header_bytes DT_Frame) with 160 in Hh.
  destruct (read_FrameHeader_ok data p ltac:(lia) Hg) as (m & -> & Hm). rewrite bind_val.
  unfold_limits. guard_step; [|apply accepts_err]. bool_to_prop.
  apply accepts_require. intros He. apply accepts_require. intros Hs.
  apply accepts_val. split; [done|]. split; [|done].
  destruct Hm as (_ & _ & _ & Hp & _). unfold in_range in Hp. lia.
Qed.

Lemma decode_three_words_safe {A} data t (k : Z -> Z -> Z -> A) :
  min_header_bytes t = 32 ->
  accepts (let! prefix := open_data data t in
           let! a := get64 data 16 in
           let! b := get64 data 24 in
           Val (k (dp_generation prefix) a b))
    (fun m => exists g a b, m = k g a b /\ in_range 32 g /\ in_range 64 a /\ in_range 64 b).
Proof.
  intros Hh. apply accepts_open. intros p _ Hg. rewrite Hh. intros.
  repeat read_step. apply accepts_val. eauto 10.
Qed.

Definition CreditMessage_ok (m : CreditMessage) : Prop :=
  in_range 32 (cm_generation m) /\ in_range 64 (cm_stream_id m) /\ in_range 64 (cm_ack_sequence m).
Definition ProbeMessage_ok (m : ProbeMessage) : Prop :=
  in_range 32 (pm_generation m) /\ in_range 64 (pm_stream_id m) /\ in_range 64 (pm_probe_token m).
Definition ProbeAckMessage_ok (m : ProbeAckMessage) : Prop :=
  in_range 32 (pa_generation m) /\ in_range 64 (pa_stream_id m) /\ in_range 64 (pa_probe_token m).

Lemma decode_CreditMessage_spec data : accepts (decode_CreditMessage data) CreditMessage_ok.
Proof.
  destruct (decode_three_words_safe data DT_Credit mkCreditMessage eq_refl) as [Hs Hv].
  split; [exact Hs|]. intros m Hm. destruct (Hv m Hm) as (g & a & b & -> & ?). done.
Qed.
Lemma decode_ProbeAckMessage_spec data : accepts (decode_ProbeAckMessage data) ProbeAckMessage_ok.
Proof.
  destruct (decode_three_words_safe data DT_ProbeAck mkProbeAckMessage eq_refl) as [Hs Hv].
  split; [exact Hs|]. intros m Hm. destruct (Hv m Hm) as (g & a & b & -> & ?). done.
Qed.

(** no data-plane decoder reads outside the bytes the transport delivered,
    whatever header length they claim. *)
Theorem data_plane_decoders_memory_safe data :
  safe (decode_data_prefix data) /\ safe (decode_FrameHeader data) /\
  safe (decode_CreditMessage data) /\ safe (decode_ProbeMessage data) /\
  safe (decode_ProbeAckMessage data).
Proof.
  repeat split_and.
  - unfold decode_data_prefix. unfold_limits. guard_step; [|no_fault]. bool_to_prop.
    repeat (read_step || (guard_step; [|no_fault])). apply open_data_spec.
  - apply decode_FrameHeader_spec.
  - by eapply (decode_three_words_safe data DT_Credit mkCreditMessage).
  - by eapply (decode_three_words_safe data DT_Probe mkProbeMessage).
  - by eapply (decode_three_words_safe data DT_ProbeAck mkProbeAckMessage).
Qed.

(** C33: a frame header that decodes describes an array inside its own payload.
    For any element index below the shape, the element's first byte is at a
    non-negative offset and its last byte is inside [payload_bytes], which is
    between 1 byte and the hard cap. *)
Theorem accepted_frame_elements_in_payload data m idx
  (Hdec : decode_FrameHeader data = Val m)
  (Hlen : length idx = Z.to_nat (fh_rank m))
  (Hidx : forall i, (i < Z.to_nat (fh_rank m))%nat -> 0 <= idx !!! i < fh_shape m !!! i) :
  1 <= fh_payload_bytes m <= k_max_frame_bytes_hard_cap /\
  0 <= offset_of idx (take (Z.to_nat (fh_rank m)) (fh_strides m)) /\
  offset_of idx (take (Z.to_nat (fh_rank m)) (fh_strides m)) + fh_element_size m
    <= fh_payload_bytes m.
Proof.
  destruct (proj2 (decode_FrameHeader_spec data) m Hdec) as [Ht (Hp & He & Hs)].
  destruct Ht as (_ & _ & _ & ? & _ & _ & _ & _ & ? & ? & _ & _ & _ & ? & ?).
  apply validate_element_size_ok in He as [? _].
  split; [by unfold_limits|].
  apply (elements_in_bounds _ (fh_shape m)); done || lia.
Qed.

(** ** Round trips *)

Definition prefix_layout (minor header_bytes : Z) (type : DataType) (generation : Z) : bytes :=
  le_bytes 4 k_data_magic ++ [byte_of_Z k_version_major] ++ [byte_of_Z minor] ++
  le_bytes 2 header_bytes ++ le_bytes 2 (raw type) ++ le_bytes 2 0 ++ le_bytes 4 generation.

Lemma length_prefix_layout minor h t g : length (prefix_layout minor h t g) = 16%nat.
Proof. done. Qed.

Lemma put_data_prefix_fill n t h g :
  (16 <= n)%nat ->
  put_data_prefix (replicate n x00) t h g =
  Val (prefix_layout 0 h t g ++ replicate (n - 16) x00).
Proof.
  intros Hn. change (replicate n x00) with ([] ++ replicate n x00). unfold put_data_prefix.
  do 6 fill_step. rewrite put32_fill by lengths. rewrite app_nil_l.
  unfold prefix_layout. rewrite <-!app_assoc.
  replace (n - 4 - 1 - 1 - 2 - 2 - 2 - 4)%nat with (n - 16)%nat by lia. done.
Qed.

Definition FrameHeader_fields (m : FrameHeader) : bytes :=
  le_bytes 8 (fh_stream_id m) ++ le_bytes 8 (fh_sequence m) ++ le_bytes 8 (fh_payload_bytes m) ++
  le_bytes 8 (fh_timestamp_ns m) ++ le_bytes 8 (fh_event_counter m) ++
  le_bytes 8 (fh_dropped_before m) ++ le_bytes 4 (raw (fh_element_type m)) ++
  le_bytes 4 (fh_element_size m) ++ le_bytes 4 (fh_rank m) ++ le_bytes 4 (fh_quality m) ++
  le_bytes 4 (raw (fh_memory_kind m)) ++ le_bytes 4 (raw (fh_endian m)).

(** A frame header of [minor], followed by the extension [ext] a newer peer may
    add and by the payload. *)
Definition FrameHeader_layout (minor : Z) (ext : bytes) (m : FrameHeader) : bytes :=
  prefix_layout minor (160 + Z.of_nat (length ext)) DT_Frame (fh_generation m) ++
  FrameHeader_fields m ++ array_layout (fh_shape m) ++ array_layout (fh_strides m) ++
  le_bytes 8 0 ++ ext.

Lemma encode_FrameHeader_layout m :
  FrameHeader_typed m -> encode_FrameHeader m = Val (FrameHeader_layout 0 [] m).
Proof.
  intros (_ & _ & _ & _ & _ & _ & _ & _ & _ & _ & _ & _ & _ & Hs & Ht).
  unfold encode_FrameHeader. cbv zeta.
  rewrite put_data_prefix_fill by lengths. rewrite bind_val.
  pose proof (length_prefix_layout 0 (Z.of_nat k_frame_header_bytes) DT_Frame (fh_generation m))
    as Hp.
  do 12 fill_step. rewrite put_arrays_fill by (assumption || lengths). rewrite bind_val.
  rewrite put64_fill
    by (rewrite ?length_app, ?length_array_layout by done; lengths).
  rewrite app_replicate_0 by lengths.
  unfold FrameHeader_layout, FrameHeader_fields. rewrite app_nil_r, <-!app_assoc. done.
Qed.

Lemma open_data_layout minor h t g rest :
  in_range 8 minor -> in_range 16 h -> in_range 16 (raw t) -> in_range 32 g ->
  min_header_bytes t <= h <= 16 + Z.of_nat (length rest) ->
  open_data (prefix_layout minor h t g ++ rest) t = Val (mkDataPrefix 1 minor h t 0 g).
Proof.
  intros ? ? ? ? ?. unfold open_data. rewrite length_app, length_prefix_layout.
  rewrite (proj2 (Z.leb_le _ _)) by (unfold_limits; lia).
  assert (in_range 32 k_data_magic) by done. assert (in_range 8 k_version_major) by done.
  assert (in_range 16 0) by done.
  repeat (field_step; rewrite ?Z.eqb_refl).
  rewrite !(proj2 (Z.ltb_ge _ _)) by lia. done.
Qed.

Lemma decode_FrameHeader_layout minor ext m payload :
  FrameHeader_typed m -> FrameHeader_checked m -> in_range 8 minor ->
  Z.of_nat (length ext) < 2 ^ 15 ->
  decode_FrameHeader (FrameHeader_layout minor ext m ++ payload) = Val m.
Proof.
  intros Hty (Hp & He & Hs) Hminor Hext.
  pose proof Hty as (? & ? & ? & ? & ? & ? & ? & [? Het] & ? & ? & ? & [? Hmk] & [? Hen] & Ha & Hb).
  unfold decode_FrameHeader, FrameHeader_layout. rewrite <-app_assoc.
  rewrite open_data_layout.
  2-5: done || (unfold in_range; lia).
  2: { change (min_header_bytes DT_Frame) with 160.
       rewrite !length_app, !length_array_layout by done.
       change (length (FrameHeader_fields m)) with 72%nat. rewrite length_le_bytes. lia. }
  rewrite bind_val. set (data := prefix_layout _ _ _ _ ++ _).
  assert (read_FrameHeader data (mkDataPrefix 1 minor (160 + Z.of_nat (length ext)) DT_Frame 0
    (fh_generation m)) = Val m) as ->.
  { unfold read_FrameHeader. do 12 field_step.
    assert (forall pre a post p, data = pre ++ array_layout a ++ post -> array_ok a ->
      p = length pre -> get_array 4 0 data p = Val a) as Harr.
    { intros pre a post p -> ? ->. by apply get_array_layout. }
    rewrite (Harr (take 88 data) (fh_shape m)
      ((array_layout (fh_strides m) ++ le_bytes 8 0 ++ ext) ++ payload) 88%nat).
    2-4: done || (subst data; rewrite <-!app_assoc; reflexivity).
    rewrite bind_val.
    rewrite (Harr (take 88 data ++ array_layout (fh_shape m)) (fh_strides m)
      ((le_bytes 8 0 ++ ext) ++ payload) 120%nat).
    2-4: done || (subst data; rewrite <-!app_assoc; reflexivity) ||
      (rewrite length_app, length_array_layout by done; reflexivity).
    rewrite bind_val. cbn [dp_generation]. rewrite Het, Hmk, Hen. by destruct m. }
  rewrite bind_val. unfold_limits.
  rewrite (proj2 (Z.eqb_neq _ _)) by lia. rewrite (proj2 (Z.ltb_ge _ _)) by lia. cbn [orb negb].
  unfold require. rewrite He, Hs.
  rewrite bool_decide_eq_false_2 by (intros Hne; by apply Hne). done.
Qed.

(** The three 32-byte messages share one layout. *)
Definition words_layout (t : DataType) (g a b : Z) : bytes :=
  prefix_layout 0 32 t g ++ le_bytes 8 a ++ le_bytes 8 b.

Lemma encode_words_layout n t g a b :
  n = 32%nat ->
  (let! p := put_data_prefix (replicate n x00) t (Z.of_nat n) g in
   let! p := put64 p 16 a in
   put64 p 24 b) = Val (words_layout t g a b).
Proof.
  intros ->. rewrite put_data_prefix_fill by lengths. rewrite bind_val.
  pose proof (length_prefix_layout 0 (Z.of_nat 32) t g) as Hp.
  fill_step. rewrite put64_fill by lengths. unfold words_layout. fill_done.
Qed.

Lemma decode_words_layout {A} t (k : Z -> Z -> Z -> A) g a b rest :
  min_header_bytes t = 32 -> in_range 16 (raw t) ->
  in_range 32 g -> in_range 64 a -> in_range 64 b ->
  (let! prefix := open_data (words_layout t g a b ++ rest) t in
   let! x := get64 (words_layout t g a b ++ rest) 16 in
   let! y := get64 (words_layout t g a b ++ rest) 24 in
   Val (k (dp_generation prefix) x y)) = Val (k g a b).
Proof.
  intros Hh ? ? ? ?. unfold words_layout. rewrite <-app_assoc, open_data_layout; [|done..|].
  - rewrite bind_val. by do 2 field_step.
  - rewrite Hh, !length_app, !length_le_bytes. lia.
Qed.

(** C34: a frame header that passes the receiver's checks is encoded in 160
    bytes and read back field for field, also when a newer minor version extends
    the header or other bytes follow it. *)
Theorem frame_header_roundtrip m minor ext rest
  (Hty : FrameHeader_typed m) (Hck : FrameHeader_checked m)
  (Hminor : in_range 8 minor) (Hext : Z.of_nat (length ext) < 2 ^ 15) :
  (exists data, encode_FrameHeader m = Val data /\ length data = k_frame_header_bytes /\
     decode_FrameHeader (data ++ rest) = Val m) /\
  decode_FrameHeader (FrameHeader_layout minor ext m ++ rest) = Val m.
Proof.
  split; [|by apply decode_FrameHeader_layout].
  eexists. split; [by apply encode_FrameHeader_layout|]. split.
  - pose proof Hty as (_ & _ & _ & _ & _ & _ & _ & _ & _ & _ & _ & _ & _ & Hs & Ht).
    unfold FrameHeader_layout. rewrite !length_app, !length_array_layout by done. done.
  - by apply decode_FrameHeader_layout.
Qed.

Definition sample_header : FrameHeader :=
  mkFrameHeader 1 7 3 96 1000 2 0 ET_UInt16 2 2 0 Host Little [3; 4; 0; 0] [8; 2; 0; 0].

Lemma sample_header_typed : FrameHeader_typed sample_header.
Proof.
  unfold FrameHeader_typed. cbn -[raw of_raw]. repeat split_and; sample_field.
Defined.
Lemma sample_header_checked : FrameHeader_checked sample_header.
Proof. split; [split; discriminate|]. by split. Defined.

Lemma frame_header_roundtrip_witness :
  decode_FrameHeader (FrameHeader_layout 2 [x00] sample_header ++ [x01]) = Val sample_header.
Proof.
  refine (proj2 (frame_header_roundtrip sample_header 2 [x00] [x01]
    sample_header_typed sample_header_checked _ _)); done.
Defined.

Lemma accepted_frame_elements_in_payload_witness :
  0 <= offset_of [2; 3] [8; 2] /\ offset_of [2; 3] [8; 2] + 2 <= 96.
Proof.
  refine (proj2 (accepted_frame_elements_in_payload (FrameHeader_layout 0 [] sample_header)
    sample_header [2; 3] _ _ _)).
  - by vm_compute.
  - done.
  - intros [|[|i]] Hi; [done|done|]. simpl in Hi. lia.
Defined.

(** credits, probes and probe acknowledgements are encoded in 32 bytes and
    read back exactly, and a decoder of one of them refuses the other two. *)
Theorem control_messages_roundtrip :
  (forall m, CreditMessage_ok m -> exists data, encode_CreditMessage m = Val data /\
     length data = k_credit_bytes /\ decode_CreditMessage data = Val m /\
     decode_ProbeMessage data = Err MalformedMessage /\
     decode_ProbeAckMessage data = Err MalformedMessage) /\
  (forall m, ProbeMessage_ok m -> exists data, encode_ProbeMessage m = Val data /\
     length data = k_probe_bytes /\ decode_ProbeMessage data = Val m /\
     decode_CreditMessage data = Err MalformedMessage /\
     decode_ProbeAckMessage data = Err MalformedMessage) /\
  (forall m, ProbeAckMessage_ok m -> exists data, encode_ProbeAckMessage m = Val data /\
     length data = k_probe_ack_bytes /\ decode_ProbeAckMessage data = Val m /\
     decode_CreditMessage data = Err MalformedMessage /\
     decode_ProbeMessage data = Err MalformedMessage).
Proof.
  assert (forall t t' g a b, raw t <> raw t' -> in_range 16 (raw t) ->
    open_data (words_layout t g a b) t' = Err MalformedMessage) as Hother.
  { intros t t' g a b Hne Ht. unfold open_data.
    assert (in_range 32 k_data_magic) by done. assert (in_range 8 k_version_major) by done.
    rewrite (proj2 (Z.leb_le _ _)) by done. do 3 (field_step; rewrite ?Z.eqb_refl).
    by rewrite (proj2 (Z.eqb_neq _ _)) by done. }
  repeat split_and; intros [g a b] (? & ? & ?).
  - exists (words_layout DT_Credit g a b).
    split; [exact (encode_words_layout k_credit_bytes DT_Credit g a b eq_refl)|].
    split; [done|]. split.
    + rewrite <-(app_nil_r (words_layout _ _ _ _)).
      by apply (decode_words_layout DT_Credit mkCreditMessage).
    + split; [unfold decode_ProbeMessage|unfold decode_ProbeAckMessage]; by rewrite Hother.
  - exists (words_layout DT_Probe g a b).
    split; [exact (encode_words_layout k_probe_bytes DT_Probe g a b eq_refl)|].
    split; [done|]. split.
    + rewrite <-(app_nil_r (words_layout _ _ _ _)).
      by apply (decode_words_layout DT_Probe mkProbeMessage).
    + split; [unfold decode_CreditMessage|unfold decode_ProbeAckMessage]; by rewrite Hother.
  - exists (words_layout DT_ProbeAck g a b).
    split; [exact (encode_words_layout k_probe_ack_bytes DT_ProbeAck g a b eq_refl)|].
    split; [done|]. split.
    + rewrite <-(app_nil_r (words_layout _ _ _ _)).
      by apply (decode_words_layout DT_ProbeAck mkProbeAckMessage).
    + split; [unfold decode_CreditMessage|unfold decode_ProbeMessage]; by rewrite Hother.
Qed.

Lemma control_messages_roundtrip_witness :
  exists data, encode_CreditMessage (mkCreditMessage 1 2 3) = Val data /\
    length data = k_credit_bytes /\ decode_CreditMessage data = Val (mkCreditMessage 1 2 3) /\
    decode_ProbeMessage data = Err MalformedMessage /\
    decode_ProbeAckMessage data = Err MalformedMessage.
Proof. apply (proj1 control_messages_roundtrip (mkCreditMessage 1 2 3)). by repeat split. Defined.
