(* ===== verification/SessionIds.v ===== *)
(** * Session identifiers

    [src/core/session_id.cpp]: identifiers from the operating system's random
    source and the text they are shown as.  [getrandom] and [/dev/urandom] are
    arguments: the list of answers of the successive calls. *)
From Stdlib Require Import Init.Byte.
From stdpp Require Import list.
From S2P Require Import Prelude Enums ByteOrder.
#[local] Open Scope Z_scope.

(** ** Randomness *)

(** One call of [getrandom]: bytes, or -1 with the [errno] cases the loop tells
    apart; the last carries the text of [strerror]. *)
Inductive getrandom_result : Type :=
| Got (data : bytes)
| GotEINTR
| GotUnavailable
| GotFailure (text : bytes).

(** [fopen] and [fread] on [/dev/urandom], with [strerror]'s text where they
    fail. *)
Inductive urandom_result : Type :=
| OpenFailed (text : bytes)
| Read (data : bytes) (text : bytes).

Definition throw_rng_failure {A} (what text : bytes) : throws A :=
  Err (mkBulkError Internal (str "cannot obtain cryptographic randomness: " ++ what ++ str ": " ++ text)
         (str "protocol")).

(** The loop: [Some filled] when it ends ([filled] may be short when the call is
    not available), [None] when the calls given are not enough.  The kernel writes
    at [out + filled]: more than [size - filled] bytes are outside the buffer. *)
Fixpoint getrandom_loop (calls : list getrandom_result) (filled : bytes) (size : nat)
    : throws (option bytes) :=
  if (size <=? length filled)%nat then Val (Some filled) else
  match calls with
  | [] => Val None
  | Got data :: calls =>
      if (size - length filled <? length data)%nat then Fault else
      if (0 <? length data)%nat then getrandom_loop calls (filled ++ data) size
      else throw_rng_failure (str "getrandom") []
  | GotEINTR :: calls => getrandom_loop calls filled size
  | GotUnavailable :: _ => Val (Some filled)
  | GotFailure text :: _ => throw_rng_failure (str "getrandom") text
  end.

Definition fill_random (calls : list getrandom_result) (urandom : urandom_result) (size : nat)
    : throws (option bytes) :=
  let! filled := getrandom_loop calls [] size in
  match filled with
  | None => Val None
  | Some filled =>
      if (length filled =? size)%nat then Val (Some filled) else
      match urandom with
      | OpenFailed text => throw_rng_failure (str "open /dev/urandom") text
      | Read data text =>
          if (size - length filled <? length data)%nat then Fault else
          if (length data =? size - length filled)%nat then Val (Some (filled ++ data))
          else throw_rng_failure (str "read /dev/urandom") text
      end
  end.

Definition all_zero (data : bytes) : bool := forallb (fun b => bool_decide (b = x00)) data.

(** [do fill_random(...); while(id.is_zero());] -- one list of calls and one
    [urandom] for each turn. *)
Fixpoint generate (turns : list (list getrandom_result * urandom_result)) (size : nat)
    : throws (option bytes) :=
  match turns with
  | [] => Val None
  | (calls, urandom) :: turns =>
      let! id := fill_random calls urandom size in
      match id with
      | None => Val None
      | Some id => if all_zero id then generate turns size else Val (Some id)
      end
  end.

Definition generate_session_id turns : throws (option bytes) := generate turns 16.
Definition generate_client_instance_id turns : throws (option bytes) := generate turns 16.

(** [random_u64] in the loop [do ... while(id == 0)]. *)
Fixpoint generate_u64 (turns : list (list getrandom_result * urandom_result)) : throws (option Z) :=
  match turns with
  | [] => Val None
  | (calls, urandom) :: turns =>
      let! data := fill_random calls urandom 8 in
      match data with
      | None => Val None
      | Some data =>
          let! id := get64 data 0 in
          if id =? 0 then generate_u64 turns else Val (Some id)
      end
  end.
Definition generate_stream_id := generate_u64.
Definition generate_server_epoch_id := generate_u64.
Definition generate_probe_token := generate_u64.

(** ** Text *)

Definition hex_digit (value : Z) : byte :=
  byte_of_Z (if value <? 10 then 48 + value else 97 + (value - 10)).

Fixpoint hex_of (data : bytes) : bytes :=
  match data with
  | [] => []
  | b :: data =>
      let value := Z_of_byte b in
      hex_digit (Z.shiftr value 4) :: hex_digit (Z.land value 15) :: hex_of data
  end.

Definition to_hex (id : bytes) : bytes := hex_of id.

(** The ellipsis is one character of three bytes. *)
Definition truncate_for_log (hex : bytes) : bytes :=
  if (8 <? length hex)%nat then firstn 8 hex ++ [xe2; x80; xa6] else hex.

Definition to_log_string (id : bytes) : bytes := truncate_for_log (to_hex id).
Definition stream_to_log_string (id : Z) : throws bytes :=
  let! data := put64 (replicate 8 x00) 0 id in Val (truncate_for_log (hex_of data)).

(** ** What the random source must have said *)

(** The bytes [getrandom] returned before the loop ended. *)
Fixpoint delivered (calls : list getrandom_result) : bytes :=
  match calls with
  | Got data :: calls => data ++ delivered calls
  | GotEINTR :: calls => delivered calls
  | _ => []
  end.

(** The kernel writes no more than it was asked for. *)
Fixpoint fits (calls : list getrandom_result) (room : nat) : Prop :=
  match calls with
  | Got data :: calls => (length data <= room)%nat /\ fits calls (room - length data)
  | GotEINTR :: calls => fits calls room
  | _ => True
  end.
Definition urandom_fits (urandom : urandom_result) (room : nat) : Prop :=
  match urandom with Read data _ => (length data <= room)%nat | OpenFailed _ => True end.

Definition honest (turn : list getrandom_result * urandom_result) (size : nat) : Prop :=
  fits turn.1 size /\ urandom_fits turn.2 (size - length (delivered turn.1)).

Lemma fits_nothing calls : fits calls 0 -> delivered calls = [].
Proof.
  induction calls as [|[data| | |] calls IH]; simpl; try done.
  intros [Hd Hf]. destruct data; [by apply IH|simpl in Hd; lia].
Qed.

Lemma getrandom_loop_spec calls filled size :
  (length filled <= size)%nat -> fits calls (size - length filled) ->
  match getrandom_loop calls filled size with
  | Val (Some out) => (length out <= size)%nat /\ out = filled ++ delivered calls
  | Val None => True
  | Err e => be_status e = Internal
  | Fault => False
  end.
Proof.
  revert filled. induction calls as [|call calls IH]; intros filled Hf Hfit; simpl getrandom_loop;
    destruct (Nat.leb_spec size (length filled)) as [Hs|Hs]; try done.
  - by rewrite app_nil_r.
  - split; [done|]. replace (size - length filled)%nat with 0%nat in Hfit by lia.
    by rewrite (fits_nothing (call :: calls) Hfit), app_nil_r.
  - destruct call as [data| | |text]; simpl in *; [|by apply IH|by rewrite app_nil_r|done].
    destruct Hfit as [Hd Hfit]. rewrite (proj2 (Nat.ltb_ge _ _)) by lia.
    destruct (Nat.ltb_spec 0 (length data)); [|done]. rewrite app_assoc. apply IH; rewrite length_app; [lia|].
    by replace (size - (length filled + length data))%nat with (size - length filled - length data)%nat by lia.
Qed.

Lemma fill_random_spec turn size :
  honest turn size ->
  match fill_random turn.1 turn.2 size with
  | Val (Some out) => length out = size
  | Val None => True
  | Err e => be_status e = Internal
  | Fault => False
  end.
Proof.
  intros [Hf Hu]. unfold fill_random.
  pose proof (getrandom_loop_spec turn.1 [] size ltac:(simpl; lia)) as Hl.
  simpl in Hl. rewrite Nat.sub_0_r in Hl. specialize (Hl Hf).
  destruct (getrandom_loop turn.1 [] size) as [[out|]|e|]; simpl; try done. destruct Hl as [Hle ->].
  destruct (Nat.eqb_spec (length (delivered turn.1)) size); [done|].
  destruct turn.2 as [text|data text]; [done|]. simpl in Hu. rewrite (proj2 (Nat.ltb_ge _ _)) by lia.
  destruct (Nat.eqb_spec (length data) (size - length (delivered turn.1))); [|done]. rewrite length_app. lia.
Qed.

(** an identifier that is generated is usable.  Whatever the kernel answers --
    short reads, interruptions, a missing call, errors -- no byte is written
    outside the identifier, an identifier that comes out is 16 bytes (or 64 bits)
    and not the reserved zero, and a failure is an [Internal] exception. *)
Theorem generated_ids_usable turns16 turns8
  (H16 : Forall (fun t => honest t 16) turns16) (H8 : Forall (fun t => honest t 8) turns8) :
  match generate_session_id turns16 with
  | Val (Some id) => length id = 16%nat /\ all_zero id = false
  | Val None => True
  | Err e => be_status e = Internal
  | Fault => False
  end /\
  match generate_stream_id turns8 with
  | Val (Some id) => 0 < id < 2 ^ 64
  | Val None => True
  | Err e => be_status e = Internal
  | Fault => False
  end.
Proof.
  split.
  - unfold generate_session_id. induction H16 as [|[calls urandom] turns Hh _ IH]; simpl; [done|].
    pose proof (fill_random_spec _ _ Hh) as Hf. simpl in Hf.
    destruct (fill_random calls urandom 16) as [[id|]|e|]; simpl; try done.
    by destruct (all_zero id) eqn:Hz.
  - unfold generate_stream_id. induction H8 as [|[calls urandom] turns Hh _ IH]; simpl; [done|].
    pose proof (fill_random_spec _ _ Hh) as Hf. simpl in Hf.
    destruct (fill_random calls urandom 8) as [[data|]|e|]; simpl; try done.
    rewrite get64_slice by lia. simpl. pose proof (le_value_range (slice data 0 8)) as Hr.
    rewrite length_slice in Hr by lia. destruct (Z.eqb_spec (le_value (slice data 0 8)) 0); [done|]. simpl in Hr. lia.
Qed.

Lemma generated_ids_usable_witness :
  (length (x01 :: replicate 15 x02) = 16%nat /\ all_zero (x01 :: replicate 15 x02) = false) /\
  0 < le_value (x01 :: replicate 7 x02) < 2 ^ 64.
Proof.
  refine (generated_ids_usable
    [([GotUnavailable], Read (replicate 16 x00) []); ([Got [x01]; GotEINTR; GotUnavailable], Read (replicate 15 x02) [])]
    [([Got [x01]; GotEINTR; GotUnavailable], Read (replicate 7 x02) [])] _ _).
  - repeat constructor; simpl; lia.
  - repeat constructor; simpl; lia.
Defined.

(** ** Round trip of the text *)

(** The reader a log analysis would use: two digits to a byte. *)
Definition digit_of (c : byte) : option Z :=
  let v := Z_of_byte c in
  if (48 <=? v) && (v <? 58) then Some (v - 48) else
  if (97 <=? v) && (v <? 103) then Some (v - 87) else None.
Fixpoint of_hex (text : bytes) : option bytes :=
  match text with
  | [] => Some []
  | hi :: lo :: text =>
      match digit_of hi, digit_of lo, of_hex text with
      | Some h, Some l, Some data => Some (byte_of_Z (16 * h + l) :: data)
      | _, _, _ => None
      end
  | _ => None
  end.

Lemma hex_byte_roundtrip b :
  digit_of (hex_digit (Z.shiftr (Z_of_byte b) 4)) = Some (Z.shiftr (Z_of_byte b) 4) /\
  digit_of (hex_digit (Z.land (Z_of_byte b) 15)) = Some (Z.land (Z_of_byte b) 15) /\
  byte_of_Z (16 * Z.shiftr (Z_of_byte b) 4 + Z.land (Z_of_byte b) 15) = b.
Proof. destruct b; by vm_compute. Qed.

Lemma of_hex_of data : of_hex (hex_of data) = Some data.
Proof.
  induction data as [|b data IH]; [done|]. simpl.
  destruct (hex_byte_roundtrip b) as (-> & -> & ->). by rewrite IH.
Qed.

Lemma hex_of_app d1 d2 : hex_of (d1 ++ d2) = hex_of d1 ++ hex_of d2.
Proof. induction d1 as [|b d1 IH]; [done|]. simpl. by rewrite IH. Qed.
Lemma length_hex_of data : length (hex_of data) = (2 * length data)%nat.
Proof. induction data as [|b data IH]; simpl; lia. Qed.

(** an identifier's hexadecimal text determines it -- two sessions never show
    the same text -- and the text that goes into a log does not: it is eight
    digits and an ellipsis that depend on the first four bytes only, so the rest
    of the identifier, which opens the coordination plane, stays out of the log. *)
Theorem session_text_faithful_log_text_hidden id (Hid : length id = 16%nat) :
  of_hex (to_hex id) = Some id /\ length (to_hex id) = 32%nat /\
  to_log_string id = to_hex (firstn 4 id) ++ [xe2; x80; xa6] /\
  forall id', length id' = 16%nat -> firstn 4 id' = firstn 4 id -> to_log_string id' = to_log_string id.
Proof.
  assert (forall i, length i = 16%nat -> to_log_string i = to_hex (firstn 4 i) ++ [xe2; x80; xa6]) as Hlog.
  { intros i Hi. unfold to_log_string, truncate_for_log, to_hex. rewrite length_hex_of, Hi. simpl.
    rewrite <- (take_drop 4 i) at 1. rewrite hex_of_app, take_app_length'; [done|].
    rewrite length_hex_of, length_take. lia. }
  split; [apply of_hex_of|]. split; [unfold to_hex; rewrite length_hex_of; lia|]. split; [by apply Hlog|].
  intros id' Hid' Heq. by rewrite !Hlog, Heq.
Qed.

Lemma session_text_faithful_log_text_hidden_witness :
  of_hex (to_hex (replicate 16 xab)) = Some (replicate 16 xab) /\
  to_log_string (replicate 16 xab) = str "abababab" ++ [xe2; x80; xa6].
Proof.
  destruct (session_text_faithful_log_text_hidden (replicate 16 xab) eq_refl) as (H1 & _ & H2 & _).
  split; [exact H1|exact H2].
Defined.
