(* ===== verification/Offer.v ===== *)
(** * Stream offers and the rows that carry them

    [StreamOffer] of [include/tango-bulk/geometry.h] and its part of
    [src/core/geometry.cpp]: the twelve-field text row a device publishes for
    each stream before a session is opened, its printer, its parser, and the
    classification of what was parsed. *)
From S2P Require Import Prelude Enums Limits Geometry Text.
From Stdlib Require Import Strings.Byte.

(** ** Definitions *)

Inductive Outcome : Type :=
| Available | Missing | Unavailable | Malformed | Stale | Unsafe.

#[export] Instance Outcome_eq_dec : EqDecision Outcome.
Proof. solve_decision. Defined.

Record StreamOffer : Type := mkStreamOffer {
  so_version : Z;
  so_stream_name : bytes;
  so_geometry : Geometry;
  so_age_ms : Z;
  so_status : Status;
  so_message : bytes
}.

Definition k_offer_version : Z := 1.
Definition k_max_age_ms : Z := 5000.

(** [StreamOffer{}]. *)
Definition StreamOffer_default : StreamOffer :=
  mkStreamOffer k_offer_version [] Geometry_default 0 UnknownStream [].

Definition k_bulk_stream_field_separator : byte := "|"%byte.
Definition k_bulk_stream_vector_separator : byte := ","%byte.
Definition k_bulk_stream_field_count : nat := 12.

(** [text.find(sep)]: the text before the separator, and the text after it when
    there is one. *)
Fixpoint find_field (sep : byte) (text : bytes) : bytes * option bytes :=
  match text with
  | [] => ([], None)
  | c :: text =>
      if bool_decide (c = sep) then ([], Some text)
      else let '(field, rest) := find_field sep text in (c :: field, rest)
  end.

(** The [for(;;)] loop of [split_bulk_stream_row]; each turn consumes at least
    one character, so one turn more than the row is long is enough. *)
Fixpoint split_loop (fuel : nat) (row : bytes) : list bytes :=
  match fuel with
  | O => []
  | S fuel =>
      match find_field k_bulk_stream_field_separator row with
      | (field, None) => [field]
      | (field, Some rest) => field :: split_loop fuel rest
      end
  end.
Definition split_bulk_stream_row (row : bytes) : list bytes := split_loop (S (length row)) row.

(** [for(i = 0; i < k_max_rank; ++i)] with [count] turns left. *)
Fixpoint parse_vector_loop (w : Z) (count : nat) (text : bytes) : option array4 :=
  match count with
  | O => None
  | S count =>
      let '(item, rest) := find_field k_bulk_stream_vector_separator text in
      match parse_bulk_stream_integer w item with
      | None => None
      | Some v =>
          match rest with
          | None => if bool_decide (count = O) then Some [v] else None
          | Some text =>
              match parse_vector_loop w count text with
              | None => None
              | Some r => Some (v :: r)
              end
          end
      end
  end.
Definition parse_bulk_stream_vector (text : bytes) : option array4 :=
  parse_vector_loop 64 (Z.to_nat k_max_rank) text.

Definition malformed_bulk_stream_row (message : bytes) : StreamOffer :=
  mkStreamOffer k_offer_version [] Geometry_default 0 MalformedMessage message.

Definition outcome_of (o : StreamOffer) : Outcome :=
  if bool_decide (so_status o = UnknownStream) then Missing else
  if bool_decide (so_status o = ResourceExhausted) then Unsafe else
  if bool_decide (so_status o = MalformedMessage) then Malformed else
  if bool_decide (so_status o <> Ok) then Unavailable else
  if negb (so_version o =? k_offer_version) || negb (valid_stream_name (so_stream_name o)) ||
     bool_decide (Geometry_validate (so_geometry o) <> Ok) then Malformed else
  if k_max_age_ms <? so_age_ms o then Stale else Available.

Definition available (o : StreamOffer) : bool := bool_decide (outcome_of o = Available).

Definition StreamOffer_validate (o : StreamOffer) : Status :=
  if negb (so_version o =? k_offer_version) then UnsupportedVersion else
  if bool_decide (so_status o <> Ok) then so_status o else
  if negb (valid_stream_name (so_stream_name o)) then MalformedMessage else
  if k_max_age_ms <? so_age_ms o then TransportFailure else
  Geometry_validate (so_geometry o).

(** The text [from_bulk_stream_row] attaches to a row that parses. *)
Definition row_message (o : StreamOffer) : bytes :=
  if bool_decide (StreamOffer_validate o <> Ok) then
    if negb (so_version o =? k_offer_version)
    then str "BulkStreams row version is not supported" else
    if k_max_age_ms <? so_age_ms o then str "BulkStreams row is stale"
    else str "BulkStreams row failed validation"
  else [].

(** The chain of [parse_...] calls, in the order of the source; [None] when one
    of them refuses its field. *)
Definition parse_fields (fields : list bytes) : option StreamOffer :=
  match parse_bulk_stream_integer 32 (fields !!! 0%nat) with None => None | Some version =>
  match parse_bulk_stream_integer 32 (fields !!! 2%nat) with None => None | Some generation =>
  match parse_bulk_stream_integer 32 (fields !!! 3%nat) with None => None | Some element_type =>
  match parse_bulk_stream_integer 32 (fields !!! 4%nat) with None => None | Some element_size =>
  match parse_bulk_stream_integer 32 (fields !!! 5%nat) with None => None | Some rank =>
  match parse_bulk_stream_integer 64 (fields !!! 6%nat) with None => None | Some max_frame_bytes =>
  match parse_bulk_stream_integer 32 (fields !!! 7%nat) with None => None | Some ring_depth =>
  match parse_bulk_stream_integer 32 (fields !!! 8%nat) with None => None | Some credit_window =>
  match parse_bulk_stream_vector (fields !!! 9%nat) with None => None | Some shape =>
  match parse_bulk_stream_vector (fields !!! 10%nat) with None => None | Some strides =>
  match parse_bulk_stream_integer 64 (fields !!! 11%nat) with None => None | Some age_ms =>
  Some (mkStreamOffer version (fields !!! 1%nat)
          (mkGeometry generation (of_raw element_type) element_size rank max_frame_bytes
             ring_depth credit_window shape strides) age_ms Ok [])
  end end end end end end end end end end end.

Definition from_bulk_stream_row (row : bytes) : StreamOffer :=
  let fields := split_bulk_stream_row row in
  if negb (bool_decide (length fields = k_bulk_stream_field_count))
  then malformed_bulk_stream_row (str "BulkStreams row has the wrong field count") else
  match parse_fields fields with
  | None => malformed_bulk_stream_row (str "BulkStreams row contains a non-decimal field")
  | Some o => mkStreamOffer (so_version o) (so_stream_name o) (so_geometry o) (so_age_ms o)
                (so_status o) (row_message o)
  end.

(** [for(i = 0; ...) { if(i != 0) row += ','; row += to_string(a[i]); }] *)
Fixpoint print_vector (count i : nat) (a : array4) : bytes :=
  match count with
  | O => []
  | S count => (if bool_decide (i <> O) then str "," else []) ++ to_string (a !!! i) ++
               print_vector count (S i) a
  end.

Definition to_bulk_stream_row (o : StreamOffer) : bytes :=
  if bool_decide (so_status o <> Ok) then [] else
  let g := so_geometry o in
  to_string (so_version o) ++ str "|" ++ so_stream_name o ++ str "|" ++
  to_string (geo_generation g) ++ str "|" ++ to_string (raw (geo_element_type g)) ++ str "|" ++
  to_string (geo_element_size g) ++ str "|" ++ to_string (geo_rank g) ++ str "|" ++
  to_string (geo_max_frame_bytes g) ++ str "|" ++ to_string (geo_ring_depth g) ++ str "|" ++
  to_string (geo_credit_window g) ++ str "|" ++
  print_vector 4 0 (geo_shape g) ++ str "|" ++ print_vector 4 0 (geo_strides g) ++ str "|" ++
  to_string (so_age_ms o).

(** ** Splitting is the inverse of joining *)

Fixpoint join_fields (sep : byte) (fields : list bytes) : bytes :=
  match fields with
  | [] => []
  | [field] => field
  | field :: fields => field ++ sep :: join_fields sep fields
  end.

Lemma find_field_last sep text : (sep ∉ text) -> find_field sep text = (text, None).
Proof.
  induction text as [|c text IH]; [done|]. rewrite not_elem_of_cons. intros [? ?]. simpl.
  rewrite bool_decide_eq_false_2 by done. by rewrite IH.
Qed.

Lemma find_field_first sep text rest :
  (sep ∉ text) -> find_field sep (text ++ sep :: rest) = (text, Some rest).
Proof.
  induction text as [|c text IH]; simpl.
  - intros _. by rewrite bool_decide_eq_true_2.
  - rewrite not_elem_of_cons. intros [? ?]. rewrite bool_decide_eq_false_2 by done. by rewrite IH.
Qed.

Lemma split_join fields fuel :
  fields <> [] -> Forall (fun f => k_bulk_stream_field_separator ∉ f) fields ->
  (length fields <= fuel)%nat ->
  split_loop fuel (join_fields k_bulk_stream_field_separator fields) = fields.
Proof.
  intros Hne Hf. revert fuel Hne. induction Hf as [|f fields Hf Hfs IH]; [done|].
  intros [|fuel] _ Hl; [simpl in Hl; lia|]. destruct fields as [|f' fields].
  - simpl. by rewrite find_field_last.
  - cbn [join_fields split_loop]. rewrite find_field_first by done.
    f_equal. apply IH; [done|simpl in *; lia].
Qed.

Lemma join_fields_length sep fields : (length fields <= S (length (join_fields sep fields)))%nat.
Proof.
  induction fields as [|f [|f' fields] IH]; [simpl; lia..|].
  cbn [join_fields]. rewrite length_app. simpl in *. lia.
Qed.

Lemma split_bulk_stream_row_join fields :
  fields <> [] -> Forall (fun f => k_bulk_stream_field_separator ∉ f) fields ->
  split_bulk_stream_row (join_fields k_bulk_stream_field_separator fields) = fields.
Proof. intros. apply split_join; [done..|]. apply join_fields_length. Qed.

Lemma find_field_inv sep text :
  match find_field sep text with
  | (f, None) => text = f
  | (f, Some rest) => text = f ++ sep :: rest
  end.
Proof.
  induction text as [|c text IH]; simpl; [done|]. case_bool_decide as Hc; [by subst|].
  destruct (find_field sep text) as [f [rest|]]; by subst.
Qed.

(** No fuel is missing and no character is lost: joining the fields of any row
    gives the row back. *)
Lemma split_loop_join fuel row :
  (length row < fuel)%nat ->
  join_fields k_bulk_stream_field_separator (split_loop fuel row) = row /\ split_loop fuel row <> [].
Proof.
  revert row. induction fuel as [|fuel IH]; intros row Hl; [lia|]. cbn [split_loop].
  pose proof (find_field_inv k_bulk_stream_field_separator row) as Hi.
  destruct (find_field _ row) as [f [rest|]]; [|by subst].
  subst row. rewrite length_app in Hl. simpl in Hl.
  destruct (IH rest ltac:(lia)) as [Hj Hne]. split; [|done].
  cbn [join_fields]. destruct (split_loop fuel rest) as [|f' fs] eqn:He; [done|].
  by rewrite Hj.
Qed.

(** ** Vectors and integers *)

Lemma separator_not_digit sep fuel z :
  0 <= z -> (Z_of_byte sep < 48 \/ 57 < Z_of_byte sep) -> (sep ∉ to_digits fuel z).
Proof. intros Hz Hs Hin. apply to_digits_digits in Hin; [lia|done]. Qed.

Definition vector_text (a : list Z) : bytes :=
  join_fields k_bulk_stream_vector_separator (to_string <$> a).

Lemma print_vector_text a : length a = 4%nat -> print_vector 4 0 a = vector_text a.
Proof.
  intros Hl. destruct a as [|a0 [|a1 [|a2 [|a3 [|]]]]]; try discriminate.
  unfold vector_text. cbn [print_vector lookup_total list_lookup_total fmap list_fmap join_fields].
  rewrite !app_nil_r. reflexivity.
Qed.

Lemma parse_vector_text a :
  a <> [] -> Forall (in_range 64) a ->
  parse_vector_loop 64 (length a) (vector_text a) = Some a.
Proof.
  intros Hne Ha. unfold vector_text. induction Ha as [|x a Hx Ha IH]; [done|].
  assert (k_bulk_stream_vector_separator ∉ to_string x) as Hs.
  { unfold in_range in Hx. apply separator_not_digit; [lia|left; by vm_compute]. }
  cbn [length parse_vector_loop fmap list_fmap].
  destruct a as [|y a].
  - cbn [fmap list_fmap join_fields]. rewrite find_field_last by done.
    by rewrite parse_to_string by done.
  - cbn [fmap list_fmap join_fields]. rewrite find_field_first by done.
    rewrite parse_to_string by done. cbn [fmap list_fmap join_fields] in IH.
    by rewrite IH.
Qed.

Lemma vector_text_no_bar a : Forall (in_range 64) a -> (k_bulk_stream_field_separator ∉ vector_text a).
Proof.
  unfold vector_text. induction 1 as [|x a Hx Ha IH]; [apply not_elem_of_nil|].
  assert (k_bulk_stream_field_separator ∉ to_string x) as Hs.
  { unfold in_range in Hx. apply separator_not_digit; [lia|right; by vm_compute]. }
  destruct a as [|y a]; [done|]. cbn [fmap list_fmap join_fields].
  rewrite not_elem_of_app, not_elem_of_cons. split; [done|]. split; [done|exact IH].
Qed.

(** An offer as the C++ type can hold it. *)
Definition offer_typed (o : StreamOffer) : Prop :=
  in_range 32 (so_version o) /\ geometry_typed (from_geometry (so_geometry o)) /\
  in_range 64 (so_age_ms o).

Definition offer_fields (o : StreamOffer) : list bytes :=
  let g := so_geometry o in
  [to_string (so_version o); so_stream_name o; to_string (geo_generation g);
   to_string (raw (geo_element_type g)); to_string (geo_element_size g);
   to_string (geo_rank g); to_string (geo_max_frame_bytes g); to_string (geo_ring_depth g);
   to_string (geo_credit_window g); vector_text (geo_shape g); vector_text (geo_strides g);
   to_string (so_age_ms o)].

Lemma to_row_fields o :
  so_status o = Ok -> array_ok (geo_shape (so_geometry o)) ->
  array_ok (geo_strides (so_geometry o)) ->
  to_bulk_stream_row o = join_fields k_bulk_stream_field_separator (offer_fields o).
Proof.
  intros Hst [Hs _] [Ht _]. unfold to_bulk_stream_row.
  rewrite bool_decide_eq_false_2 by (intros Hne; by apply Hne).
  rewrite !print_vector_text by done. reflexivity.
Qed.

Lemma split_row_fields o :
  offer_typed o -> so_status o = Ok -> (k_bulk_stream_field_separator ∉ so_stream_name o) ->
  split_bulk_stream_row (to_bulk_stream_row o) = offer_fields o.
Proof.
  intros (Hv & (? & [? _] & ? & ? & ? & ? & ? & Hs & Ht) & Ha) Hst Hname.
  simpl in *. rewrite to_row_fields by done. apply split_bulk_stream_row_join; [done|].
  assert (forall w z, in_range w z -> (k_bulk_stream_field_separator ∉ to_string z)) as Hd.
  { intros w z [Hz _]. apply separator_not_digit; [done|right; by vm_compute]. }
  unfold offer_fields. destruct Hs, Ht.
  repeat (apply Forall_cons_2; [first [done | by apply vector_text_no_bar | by eapply Hd]|]).
  apply Forall_nil_2.
Qed.

Lemma parse_fields_offer o :
  offer_typed o -> so_status o = Ok -> so_message o = [] -> parse_fields (offer_fields o) = Some o.
Proof.
  intros (Hv & (? & [? Het] & ? & ? & ? & ? & ? & [Hls Hs] & [Hlt Ht]) & Ha) Hst Hm.
  destruct o as [v name g age st msg]. destruct g as [ge et es rk mfb rd cw sh sr].
  simpl in *. subst st msg. unfold parse_fields, offer_fields.
  cbn [lookup_total list_lookup_total so_version so_stream_name so_geometry so_age_ms
    geo_generation geo_element_type geo_element_size geo_rank geo_max_frame_bytes geo_ring_depth
    geo_credit_window geo_shape geo_strides].
  rewrite !parse_to_string by done. unfold parse_bulk_stream_vector.
  change (Z.to_nat k_max_rank) with 4%nat.
  rewrite <-Hls at 1. rewrite parse_vector_text by (done || by intros ->).
  rewrite <-Hlt at 1. rewrite parse_vector_text by (done || by intros ->).
  by assert (of_raw (raw et) = et) as -> by exact Het.
Qed.

Lemma valid_name_no_bar name : valid_stream_name name = true -> (k_bulk_stream_field_separator ∉ name).
Proof.
  unfold valid_stream_name. destruct (_ || _); [done|]. rewrite forallb_forall.
  intros Ha Hin. apply list_elem_of_In in Hin. by specialize (Ha _ Hin).
Qed.

Lemma available_iff o : available o = true <-> StreamOffer_validate o = Ok.
Proof.
  unfold available, outcome_of, StreamOffer_validate. rewrite bool_decide_eq_true.
  destruct (Z.eqb_spec (so_version o) k_offer_version), (valid_stream_name (so_stream_name o)),
    (k_max_age_ms <? so_age_ms o); simpl;
    repeat case_bool_decide; split; intros; simplify_eq; done || congruence.
Qed.

Lemma StreamOffer_validate_ok o :
  StreamOffer_validate o = Ok ->
  so_version o = 1 /\ so_status o = Ok /\ valid_stream_name (so_stream_name o) = true /\
  so_age_ms o <= 5000 /\ Geometry_validate (so_geometry o) = Ok.
Proof.
  unfold StreamOffer_validate, k_offer_version, k_max_age_ms.
  destruct (Z.eqb_spec (so_version o) 1); [simpl|done].
  case_bool_decide as Hst; [congruence|].
  destruct (valid_stream_name _); [simpl|done].
  destruct (Z.ltb_spec 5000 (so_age_ms o)); [done|]. intros. auto.
Qed.

Lemma row_roundtrip o (Hty : offer_typed o) (Hmsg : so_message o = [])
  (Hav : available o = true) :
  from_bulk_stream_row (to_bulk_stream_row o) = o.
Proof.
  apply available_iff in Hav as Hv.
  destruct (StreamOffer_validate_ok o Hv) as (_ & Hst & Hname & _).
  unfold from_bulk_stream_row.
  rewrite split_row_fields by (done || by apply valid_name_no_bar).
  rewrite bool_decide_eq_true_2 by done. simpl negb. cbv iota.
  rewrite parse_fields_offer by done. unfold row_message. rewrite Hv.
  rewrite bool_decide_eq_false_2 by (intros Hne; by apply Hne). destruct o; simpl in *; congruence.
Qed.

(** an available offer printed as a row and parsed back is the same offer,
    and is available again: name, geometry, age and the absence of a complaint. *)
Theorem offer_row_roundtrip o (Hty : offer_typed o) (Hmsg : so_message o = [])
  (Hav : available o = true) :
  from_bulk_stream_row (to_bulk_stream_row o) = o.
Proof. by apply row_roundtrip. Qed.

Definition sample_offer : StreamOffer :=
  mkStreamOffer 1 (str "camera.1") example_geometry 250 Ok [].

Lemma sample_offer_typed : offer_typed sample_offer.
Proof. repeat split; try done; repeat constructor; done. Defined.

Lemma offer_row_roundtrip_witness :
  from_bulk_stream_row (to_bulk_stream_row sample_offer) = sample_offer.
Proof. apply (offer_row_roundtrip sample_offer sample_offer_typed); by vm_compute. Defined.

Lemma parse_integer_range w text v : parse_bulk_stream_integer w text = Some v -> in_range w v.
Proof.
  assert (forall text acc v, 0 <= acc -> parse_digits text acc = Some v -> 0 <= v) as Hpos.
  { clear. induction text as [|c text IH]; intros acc v Hacc; simpl; [by intros [= <-]|].
    unfold digit_value. destruct (Z.leb_spec 48 (Z_of_byte c)), (Z.leb_spec (Z_of_byte c) 57);
      simpl; try done. apply IH. lia. }
  unfold parse_bulk_stream_integer. destruct text as [|c text]; [done|].
  destruct (parse_digits (c :: text) 0) as [z|] eqn:Hd; [|done].
  destruct (Z.ltb_spec z (2 ^ w)); [|done]. intros [= <-].
  apply Hpos in Hd; [|done]. by split.
Qed.

Lemma parse_vector_range count text a :
  parse_vector_loop 64 count text = Some a -> length a = count /\ Forall (in_range 64) a.
Proof.
  revert text a. induction count as [|count IH]; intros text a; cbn [parse_vector_loop]; [done|].
  destruct (find_field _ text) as [item rest].
  destruct (parse_bulk_stream_integer 64 item) as [v|] eqn:Hv; [|done].
  apply parse_integer_range in Hv. destruct rest as [text'|].
  - destruct (parse_vector_loop 64 count text') as [r|] eqn:Hr; [|done].
    apply IH in Hr as [<- ?]. intros [= <-]. split; [done|by apply Forall_cons_2].
  - case_bool_decide as Hc; [|done]. intros [= <-]. subst. split; [done|].
    apply Forall_cons_2; [done|apply Forall_nil_2].
Qed.

Lemma malformed_row_typed msg : offer_typed (malformed_bulk_stream_row msg).
Proof. repeat split; try done; repeat constructor; done. Qed.

Ltac parse_step :=
  match goal with
  | H : context [match parse_bulk_stream_integer ?w ?t with _ => _ end] |- _ =>
      let E := fresh "E" in destruct (parse_bulk_stream_integer w t) eqn:E;
      [apply parse_integer_range in E|done]
  | H : context [match parse_bulk_stream_vector ?t with _ => _ end] |- _ =>
      let E := fresh "E" in destruct (parse_bulk_stream_vector t) eqn:E;
      [apply parse_vector_range in E|done]
  end.

Lemma parse_fields_typed fields o : parse_fields fields = Some o -> offer_typed o /\ so_status o = Ok.
Proof.
  unfold parse_fields. intros H. repeat parse_step. injection H as <-. split; [|done].
  split; [done|]. split; [|done]. unfold geometry_typed, array_ok.
  cbn [from_geometry gb_generation gb_element_type gb_element_size gb_rank gb_max_frame_bytes
    gb_ring_depth gb_credit_window gb_shape gb_strides so_geometry geo_generation
    geo_element_type geo_element_size geo_rank geo_max_frame_bytes geo_ring_depth
    geo_credit_window geo_shape geo_strides].
  auto 12 using enum_ok_of_raw.
Qed.

(** whatever text a device publishes, the parser returns an offer whose
    fields are in range, and never reports it available unless its version, its
    name, its age and its geometry all pass: the geometry a subscriber sizes its
    memory from has been validated. *)
Theorem parsed_offer_sound row :
  let o := from_bulk_stream_row row in
  offer_typed o /\ (so_status o = Ok \/ so_status o = MalformedMessage) /\
  (available o = true ->
     so_version o = 1 /\ valid_stream_name (so_stream_name o) = true /\ so_age_ms o <= 5000 /\
     Geometry_validate (so_geometry o) = Ok).
Proof.
  intros o. assert (offer_typed o /\ (so_status o = Ok \/ so_status o = MalformedMessage))
    as [Hty Hst].
  { subst o. unfold from_bulk_stream_row.
    destruct (negb _); [split; [apply malformed_row_typed|by right]|].
    destruct (parse_fields _) as [o|] eqn:Hp;
      [|split; [apply malformed_row_typed|by right]].
    apply parse_fields_typed in Hp as [? ?]. split; [done|by left]. }
  split; [done|]. split; [done|]. intros Hav. apply available_iff in Hav.
  by apply StreamOffer_validate_ok in Hav as (? & _ & ? & ? & ?).
Qed.

(** the comment on [to_bulk_stream_row] says an unavailable offer encodes
    as the empty string; only the status is tested, so a stale offer still
    produces a row. *)
Theorem stale_offer_still_printed :
  let o := mkStreamOffer 1 (str "camera.1") example_geometry 6000 Ok [] in
  available o = false /\ to_bulk_stream_row o <> [].
Proof. by vm_compute. Qed.
