(* ===== verification/CreditWindow.v ===== *)
(** * The credit protocol

    [src/core/credit_window.h] and [.cpp]: [CreditWindow] on the publisher,
    [ReleaseTracker] on the subscriber.  The tracker's bitmap refines an
    abstract set of released sequences; the last section composes the two
    halves over a channel that may lose, duplicate and reorder credits. *)
From stdpp Require Import gmap sets relations.
From S2P Require Import Prelude Enums Limits ByteOrder.
#[local] Open Scope Z_scope.

(** ** [CreditWindow], the publisher's side *)

Record CreditWindow : Type := mkCreditWindow {
  cw_ring_depth : Z;
  cw_width : Z;
  cw_next_sequence : Z;
  cw_credited_end : Z
}.

(** The constructor. *)
Definition CreditWindow_new (ring_depth width : Z) : CreditWindow :=
  mkCreditWindow ring_depth width 0 0.

Definition outstanding (w : CreditWindow) : Z := u64 (cw_next_sequence w - cw_credited_end w).

Definition can_submit (w : CreditWindow) : bool := outstanding w <? cw_width w.

(** [note_submitted]: the sequence assigned and the window after it; [None]
    where the assertion of the source fails. *)
Definition note_submitted (w : CreditWindow) : option (Z * CreditWindow) :=
  if can_submit w
  then Some (cw_next_sequence w,
             mkCreditWindow (cw_ring_depth w) (cw_width w) (u64 (cw_next_sequence w + 1))
               (cw_credited_end w))
  else None.

Record CreditOutcome : Type := mkCreditOutcome { co_status : Status; co_released : Z }.

Definition apply_credit (w : CreditWindow) (ack_sequence : Z) : CreditOutcome * CreditWindow :=
  if cw_next_sequence w <=? ack_sequence then (mkCreditOutcome MalformedMessage 0, w) else
  let new_end := u64 (ack_sequence + 1) in
  if new_end <=? cw_credited_end w then (mkCreditOutcome Ok 0, w) else
  let released := u64 (new_end - cw_credited_end w) in
  (mkCreditOutcome Ok released,
   mkCreditWindow (cw_ring_depth w) (cw_width w) (cw_next_sequence w) new_end).

Definition CreditWindow_reset (w : CreditWindow) (first_sequence : Z) : CreditWindow :=
  mkCreditWindow (cw_ring_depth w) (cw_width w) first_sequence first_sequence.

(** ** [ReleaseTracker], the subscriber's side *)

Inductive Release : Type := Advanced | Recorded | Duplicate | OutOfWindow.

#[export] Instance Release_eq_dec : EqDecision Release.
Proof. solve_decision. Defined.

Record ReleaseTracker : Type := mkReleaseTracker {
  rt_ring_depth : Z;
  rt_words : list Z;
  rt_start : Z;
  rt_released_end : Z;
  rt_held_ahead : Z;
  rt_last_ack_sent : Z;
  rt_ack_sent : bool
}.

Definition k_bits_per_word : Z := 64.

Definition word_count (ring_depth : Z) : Z := (ring_depth + k_bits_per_word - 1) / k_bits_per_word.

Definition ReleaseTracker_new (ring_depth : Z) : ReleaseTracker :=
  mkReleaseTracker ring_depth (replicate (Z.to_nat (word_count ring_depth)) 0) 0 0 0 0 false.

Definition rt_with_words (t : ReleaseTracker) (words : list Z) : ReleaseTracker :=
  mkReleaseTracker (rt_ring_depth t) words (rt_start t) (rt_released_end t) (rt_held_ahead t)
    (rt_last_ack_sent t) (rt_ack_sent t).
Definition rt_with_held (t : ReleaseTracker) (released_end held : Z) : ReleaseTracker :=
  mkReleaseTracker (rt_ring_depth t) (rt_words t) (rt_start t) released_end held
    (rt_last_ack_sent t) (rt_ack_sent t).
Definition rt_with_ack (t : ReleaseTracker) (last : Z) (sent : bool) : ReleaseTracker :=
  mkReleaseTracker (rt_ring_depth t) (rt_words t) (rt_start t) (rt_released_end t)
    (rt_held_ahead t) last sent.

(** [words_[bit / 64]]: a [Fault] when the index is outside the vector or the
    ring depth is zero. *)
Definition word_at (t : ReleaseTracker) (sequence : Z) : outcome Status (nat * Z * Z) :=
  if rt_ring_depth t =? 0 then Fault else
  let bit := sequence mod rt_ring_depth t in
  let i := Z.to_nat (bit / k_bits_per_word) in
  match rt_words t !! i with
  | Some word => Val (i, word, bit mod k_bits_per_word)
  | None => Fault
  end.

Definition test (t : ReleaseTracker) (sequence : Z) : outcome Status bool :=
  let! (_, word, bit) := word_at t sequence in
  Val (negb (Z.land word (Z.shiftl 1 bit) =? 0)).

Definition set (t : ReleaseTracker) (sequence : Z) : outcome Status ReleaseTracker :=
  let! (i, word, bit) := word_at t sequence in
  Val (rt_with_words t (<[i := Z.lor word (Z.shiftl 1 bit)]> (rt_words t))).

Definition clear (t : ReleaseTracker) (sequence : Z) : outcome Status ReleaseTracker :=
  let! (i, word, bit) := word_at t sequence in
  Val (rt_with_words t (<[i := Z.land word (u64 (Z.lnot (Z.shiftl 1 bit)))]> (rt_words t))).

(** [while(held_ahead_ > 0 && test(released_end_))]: every turn lowers
    [held_ahead_], so [held_ahead_] turns are enough. *)
Fixpoint advance_loop (fuel : nat) (t : ReleaseTracker) : outcome Status ReleaseTracker :=
  match fuel with
  | O => Val t
  | S fuel =>
      if 0 <? rt_held_ahead t then
        let! b := test t (rt_released_end t) in
        if b then
          let! t := clear t (rt_released_end t) in
          advance_loop fuel (rt_with_held t (u64 (rt_released_end t + 1)) (u32 (rt_held_ahead t - 1)))
        else Val t
      else Val t
  end.

Definition release (t : ReleaseTracker) (sequence : Z) : outcome Status (Release * ReleaseTracker) :=
  if sequence <? rt_released_end t then Val (Duplicate, t) else
  let '(overflow, window_end) := add_overflow (rt_released_end t) (rt_ring_depth t) in
  if overflow || (window_end <=? sequence) then Val (OutOfWindow, t) else
  let! b := test t sequence in
  if b then Val (Duplicate, t) else
  let! t := set t sequence in
  let t := rt_with_held t (rt_released_end t) (u32 (rt_held_ahead t + 1)) in
  let before := rt_released_end t in
  let! t := advance_loop (Z.to_nat (rt_held_ahead t)) t in
  Val (if before <? rt_released_end t then Advanced else Recorded, t).

(** [take_pending_ack]: the ack to send, if there is a new one. *)
Definition take_pending_ack (t : ReleaseTracker) : option Z * ReleaseTracker :=
  if rt_released_end t =? rt_start t then (None, t) else
  let candidate := u64 (rt_released_end t - 1) in
  if rt_ack_sent t && (candidate =? rt_last_ack_sent t) then (None, t) else
  (Some candidate, rt_with_ack t candidate true).

Definition mark_ack_failed (t : ReleaseTracker) : ReleaseTracker :=
  rt_with_ack t (rt_last_ack_sent t) false.

Definition ReleaseTracker_reset (t : ReleaseTracker) (first_sequence : Z) : ReleaseTracker :=
  mkReleaseTracker (rt_ring_depth t) ((fun _ => 0) <$> rt_words t) first_sequence first_sequence
    0 0 false.

(** ** The window never moves past what was submitted *)

(** [u64] sequences that have not wrapped, within the window. *)
Definition window_ok (w : CreditWindow) : Prop :=
  0 <= cw_credited_end w <= cw_next_sequence w /\ cw_next_sequence w < 2 ^ 64 /\
  cw_next_sequence w - cw_credited_end w <= cw_width w /\
  0 <= cw_width w <= cw_ring_depth w /\ cw_ring_depth w < 2 ^ 32.

Lemma outstanding_exact w :
  window_ok w -> outstanding w = cw_next_sequence w - cw_credited_end w.
Proof. intros (? & ? & ? & ? & ?). unfold outstanding. apply wrap_small. unfold in_range. lia. Qed.

Lemma note_submitted_spec w :
  window_ok w -> cw_next_sequence w + 1 < 2 ^ 64 ->
  match note_submitted w with
  | Some (s, w') => cw_next_sequence w - cw_credited_end w < cw_width w /\
      s = cw_next_sequence w /\ window_ok w' /\ cw_next_sequence w' = s + 1 /\
      cw_credited_end w' = cw_credited_end w /\ cw_width w' = cw_width w /\
      cw_ring_depth w' = cw_ring_depth w
  | None => cw_next_sequence w - cw_credited_end w = cw_width w
  end.
Proof.
  intros Hok Hn. pose proof (outstanding_exact w Hok) as Ho. destruct Hok as (? & ? & ? & ? & ?).
  unfold note_submitted, can_submit. rewrite Ho.
  destruct (Z.ltb_spec (cw_next_sequence w - cw_credited_end w) (cw_width w)); [|lia].
  simpl. rewrite wrap_small by (unfold in_range; lia). unfold window_ok. simpl. lia.
Qed.

Lemma apply_credit_spec w ack :
  window_ok w -> 0 <= ack ->
  let '(o, w') := apply_credit w ack in
  window_ok w' /\ cw_next_sequence w' = cw_next_sequence w /\ cw_width w' = cw_width w /\
  cw_ring_depth w' = cw_ring_depth w /\
  cw_credited_end w' = cw_credited_end w + co_released o /\
  (cw_next_sequence w <= ack -> co_status o = MalformedMessage /\ w' = w) /\
  (ack < cw_next_sequence w ->
     co_status o = Ok /\ cw_credited_end w' = Z.max (cw_credited_end w) (ack + 1)).
Proof.
  intros Hok Ha. pose proof Hok as (? & ? & ? & ? & ?). unfold apply_credit.
  destruct (Z.leb_spec (cw_next_sequence w) ack); simpl.
  { split_all; done || lia. }
  rewrite wrap_small by (unfold in_range; lia).
  destruct (Z.leb_spec (ack + 1) (cw_credited_end w)); simpl.
  { split_all; done || lia. }
  rewrite wrap_small by (unfold in_range; lia).
  unfold window_ok; simpl. split_all; done || lia.
Qed.

(** ** The bitmap refines a set of sequences *)

Lemma bit_in_words depth s :
  0 < depth -> (Z.to_nat (s mod depth / 64) < Z.to_nat (word_count depth))%nat.
Proof.
  intros Hd. pose proof (Z.mod_pos_bound s depth Hd). unfold word_count, k_bits_per_word.
  pose proof (Z.div_mod (s mod depth) 64 ltac:(lia)).
  pose proof (Z.mod_pos_bound (s mod depth) 64 ltac:(lia)).
  assert (s mod depth / 64 + 1 <= (depth + 64 - 1) / 64); [|lia].
  apply Z.div_le_lower_bound; lia.
Qed.

Lemma land_shiftl_1 w k : 0 <= k -> negb (Z.land w (Z.shiftl 1 k) =? 0) = Z.testbit w k.
Proof.
  intros Hk. destruct (Z.testbit w k) eqn:Hb.
  - apply negb_true_iff, Z.eqb_neq. intros H0.
    assert (Z.testbit (Z.land w (Z.shiftl 1 k)) k = true) as Ht.
    { rewrite Z.land_spec, Hb, Z.shiftl_spec, Z.sub_diag by done. done. }
    by rewrite H0, Z.testbit_0_l in Ht.
  - apply negb_false_iff, Z.eqb_eq. apply Z.bits_inj'. intros i Hi.
    rewrite Z.land_spec, Z.testbit_0_l, Z.shiftl_spec by done.
    destruct (decide (i = k)) as [->|]; [by rewrite Hb|].
    replace (Z.testbit 1 (i - k)) with false; [by rewrite andb_false_r|].
    destruct (decide (i < k)); [by rewrite Z.testbit_neg_r by lia|].
    symmetry. apply Z.bits_above_log2; simpl; lia.
Qed.

Lemma testbit_above w z i : in_range w z -> w <= i -> Z.testbit z i = false.
Proof.
  intros [Hz Hlt] Hi. destruct (decide (z = 0)) as [->|]; [apply Z.testbit_0_l|].
  apply Z.bits_above_log2; [done|]. eapply Z.lt_le_trans; [|done]. apply Z.log2_lt_pow2; lia.
Qed.

Lemma bits64_in_range z : 0 <= z -> (forall i, 64 <= i -> Z.testbit z i = false) -> in_range 64 z.
Proof.
  intros Hz Hb. split; [done|]. destruct (decide (z = 0)) as [->|]; [done|].
  apply Z.log2_lt_pow2; [lia|]. apply Z.nle_gt. intros Hl.
  specialize (Hb (Z.log2 z) Hl). rewrite Z.bit_log2 in Hb by lia. done.
Qed.

Section Bits.
Context (t : ReleaseTracker) (Hd : 0 < rt_ring_depth t)
  (Hw : length (rt_words t) = Z.to_nat (word_count (rt_ring_depth t))).

Definition bit_of (words : list Z) (depth s : Z) : bool :=
  Z.testbit (words !!! Z.to_nat (s mod depth / 64)) (s mod depth mod 64).

Lemma word_at_val s :
  word_at t s = Val (Z.to_nat (s mod rt_ring_depth t / 64),
                     rt_words t !!! Z.to_nat (s mod rt_ring_depth t / 64),
                     s mod rt_ring_depth t mod 64).
Proof.
  unfold word_at. rewrite (proj2 (Z.eqb_neq _ _)) by lia. unfold k_bits_per_word.
  destruct (lookup_lt_is_Some_2 (rt_words t) (Z.to_nat (s mod rt_ring_depth t / 64))) as [w Hs].
  { rewrite Hw. by apply bit_in_words. }
  by rewrite Hs, (list_lookup_total_correct _ _ _ Hs).
Qed.

Lemma test_val s : test t s = Val (bit_of (rt_words t) (rt_ring_depth t) s).
Proof.
  unfold test. rewrite word_at_val. cbn [outcome_bind].
  rewrite land_shiftl_1; [done|]. apply Z.mod_pos_bound. lia.
Qed.

(** Two positions of the bitmap are the same bit or are independent. *)
Lemma bit_position s x :
  Z.to_nat (s mod rt_ring_depth t / 64) = Z.to_nat (x mod rt_ring_depth t / 64) ->
  s mod rt_ring_depth t mod 64 = x mod rt_ring_depth t mod 64 ->
  s mod rt_ring_depth t = x mod rt_ring_depth t.
Proof.
  intros H1 H2.
  pose proof (Z.mod_pos_bound s (rt_ring_depth t) Hd).
  pose proof (Z.mod_pos_bound x (rt_ring_depth t) Hd).
  pose proof (Z.div_mod (s mod rt_ring_depth t) 64 ltac:(lia)).
  pose proof (Z.div_mod (x mod rt_ring_depth t) 64 ltac:(lia)).
  pose proof (Z.div_pos (s mod rt_ring_depth t) 64 ltac:(lia) ltac:(lia)).
  pose proof (Z.div_pos (x mod rt_ring_depth t) 64 ltac:(lia) ltac:(lia)).
  lia.
Qed.

(** Replacing one word by one that differs in at most one bit. *)
Lemma bit_of_insert s x w' (f : bool -> bool) :
  (forall k, 0 <= k < 64 -> Z.testbit w' k =
     (if bool_decide (k = s mod rt_ring_depth t mod 64) then f else id)
       (Z.testbit (rt_words t !!! Z.to_nat (s mod rt_ring_depth t / 64)) k)) ->
  bit_of (<[Z.to_nat (s mod rt_ring_depth t / 64) := w']> (rt_words t)) (rt_ring_depth t) x =
  (if bool_decide (x mod rt_ring_depth t = s mod rt_ring_depth t) then f else id)
    (bit_of (rt_words t) (rt_ring_depth t) x).
Proof.
  intros Hf. unfold bit_of.
  pose proof (Z.mod_pos_bound (x mod rt_ring_depth t) 64 ltac:(lia)).
  destruct (decide (Z.to_nat (x mod rt_ring_depth t / 64) =
                    Z.to_nat (s mod rt_ring_depth t / 64))) as [He|Hne].
  - rewrite He, list_lookup_total_insert_eq by (rewrite Hw; by apply bit_in_words).
    rewrite Hf by done. case_bool_decide as Hk.
    + rewrite bool_decide_eq_true_2 by (by apply bit_position). done.
    + rewrite bool_decide_eq_false_2 by (intros Hx; by rewrite Hx in Hk). done.
  - rewrite list_lookup_total_insert_ne by done.
    rewrite bool_decide_eq_false_2; [done|]. intros Hx. by rewrite Hx in Hne.
Qed.

Lemma testbit_shiftl_1 k i : 0 <= k -> 0 <= i -> Z.testbit (Z.shiftl 1 k) i = bool_decide (i = k).
Proof.
  intros. rewrite Z.shiftl_spec by done. case_bool_decide as Hk.
  - subst. by rewrite Z.sub_diag.
  - destruct (decide (i < k)); [by rewrite Z.testbit_neg_r by lia|].
    apply Z.bits_above_log2; simpl; lia.
Qed.

Lemma set_val s :
  exists words, set t s = Val (rt_with_words t words) /\ length words = length (rt_words t) /\
    (Forall (in_range 64) (rt_words t) -> Forall (in_range 64) words) /\
    forall x, bit_of words (rt_ring_depth t) x =
      bool_decide (x mod rt_ring_depth t = s mod rt_ring_depth t) ||
      bit_of (rt_words t) (rt_ring_depth t) x.
Proof.
  pose proof (Z.mod_pos_bound (s mod rt_ring_depth t) 64 ltac:(lia)).
  unfold set. rewrite word_at_val. cbn [outcome_bind]. eexists. split; [done|].
  split; [by rewrite length_insert|]. split.
  - intros Hr. apply Forall_insert; [done|].
    assert (in_range 64 (rt_words t !!! Z.to_nat (s mod rt_ring_depth t / 64))) as [? ?].
    { rewrite Forall_lookup_total in Hr. apply Hr. rewrite Hw. by apply bit_in_words. }
    apply bits64_in_range; [apply Z.lor_nonneg; split; [done|apply Z.shiftl_nonneg; lia]|].
    intros i Hi. rewrite Z.lor_spec, testbit_shiftl_1, bool_decide_eq_false_2 by lia.
    by rewrite (testbit_above 64).
  - intros x. rewrite (bit_of_insert s x _ (fun _ => true)).
    + case_bool_decide; done.
    + intros k Hk. rewrite Z.lor_spec, testbit_shiftl_1 by lia.
      case_bool_decide; [by rewrite orb_true_r|by rewrite orb_false_r].
Qed.

Lemma clear_val s :
  exists words, clear t s = Val (rt_with_words t words) /\ length words = length (rt_words t) /\
    (Forall (in_range 64) (rt_words t) -> Forall (in_range 64) words) /\
    forall x, bit_of words (rt_ring_depth t) x =
      negb (bool_decide (x mod rt_ring_depth t = s mod rt_ring_depth t)) &&
      bit_of (rt_words t) (rt_ring_depth t) x.
Proof.
  pose proof (Z.mod_pos_bound (s mod rt_ring_depth t) 64 ltac:(lia)).
  unfold clear. rewrite word_at_val. cbn [outcome_bind]. eexists. split; [done|].
  split; [by rewrite length_insert|]. split.
  - intros Hr. apply Forall_insert; [done|].
    pose proof (wrap_in_range 64 (Z.lnot (1 ≪ (s mod rt_ring_depth t mod 64))) ltac:(lia)) as [? ?].
    apply bits64_in_range; [apply Z.land_nonneg; by right|].
    intros i Hi. rewrite Z.land_spec, (testbit_above 64 (u64 _)) by done. by rewrite andb_false_r.
  - intros x. rewrite (bit_of_insert s x _ (fun _ => false)).
    + case_bool_decide; done.
    + intros k Hk. unfold wrap. rewrite Z.land_spec, Z.mod_pow2_bits_low by lia.
      rewrite Z.lnot_spec, testbit_shiftl_1 by lia.
      case_bool_decide; [by rewrite andb_false_r|by rewrite andb_true_r].
Qed.
End Bits.

(** [e] is the end of the released prefix, [A] the sequences released at or
    ahead of it. *)
Record tracks_pre (t : ReleaseTracker) (e : Z) (A : gset Z) : Prop := {
  tk_depth : 0 < rt_ring_depth t < 2 ^ 32;
  tk_end : rt_released_end t = e;
  tk_start : 0 <= rt_start t <= e;
  tk_held : rt_held_ahead t = Z.of_nat (size A);
  tk_ahead : forall s, s ∈ A -> e <= s < e + rt_ring_depth t;
  tk_words : length (rt_words t) = Z.to_nat (word_count (rt_ring_depth t));
  tk_range : Forall (in_range 64) (rt_words t);
  tk_bits : forall s, e <= s < e + rt_ring_depth t ->
    bit_of (rt_words t) (rt_ring_depth t) s = bool_decide (s ∈ A)
}.

(** The released prefix is maximal. *)
Definition tracks (t : ReleaseTracker) (e : Z) (A : gset Z) : Prop :=
  tracks_pre t e A /\ (e ∉ A).

(** The sequences an abstract tracker has seen released. *)
Definition released (e : Z) (A : gset Z) (s : Z) : Prop := s < e \/ s ∈ A.

(** The fields a release does not touch. *)
Definition same_epoch (t t' : ReleaseTracker) : Prop :=
  rt_ring_depth t' = rt_ring_depth t /\ rt_start t' = rt_start t /\
  rt_last_ack_sent t' = rt_last_ack_sent t /\ rt_ack_sent t' = rt_ack_sent t.

Lemma ahead_size_bound (A : gset Z) e n :
  0 <= n -> (forall s, s ∈ A -> e <= s < e + n) -> Z.of_nat (size A) <= n.
Proof.
  intros Hn HA.
  assert (A ⊆ list_to_set (seqZ e n)) as Hsub.
  { intros x Hx. apply elem_of_list_to_set, elem_of_seqZ. by apply HA. }
  apply subseteq_size in Hsub. rewrite size_list_to_set in Hsub by apply NoDup_seqZ.
  rewrite length_seqZ in Hsub. lia.
Qed.

Lemma tracks_pre_advance t e A :
  tracks_pre t e A -> (e ∈ A) -> e + 1 < 2 ^ 64 ->
  exists words, clear t e = Val (rt_with_words t words) /\
    tracks_pre (rt_with_held (rt_with_words t words) (u64 (e + 1)) (u32 (rt_held_ahead t - 1)))
      (e + 1) (A ∖ {[e]}).
Proof.
  intros [Hd He Hst Hh Ha Hw Hr Hb] Hin Hlt.
  destruct (clear_val t ltac:(lia) Hw e) as (words & Hc & Hl & Hr' & Hbit).
  exists words. split; [done|].
  assert (size (A ∖ {[e]}) = size A - 1)%nat as Hsz.
  { rewrite size_difference by set_solver. by rewrite size_singleton. }
  assert (0 < size A)%nat by (apply Nat.neq_0_lt_0; rewrite size_non_empty_iff; set_solver).
  pose proof (ahead_size_bound A e (rt_ring_depth t) ltac:(lia) Ha).
  split; cbn [rt_ring_depth rt_words rt_start rt_released_end rt_held_ahead rt_with_held
    rt_with_words].
  - done.
  - apply wrap_small. unfold in_range. lia.
  - lia.
  - rewrite wrap_small by (unfold in_range; lia). rewrite Hsz. lia.
  - intros s Hs. apply elem_of_difference in Hs as [Hs Hne].
    rewrite elem_of_singleton in Hne. specialize (Ha s Hs). lia.
  - congruence.
  - auto.
  - intros s Hs. rewrite Hbit. destruct (decide (s = e + rt_ring_depth t)) as [->|Hne].
    + rewrite bool_decide_eq_true_2
        by (rewrite <-(Z_mod_plus_full e 1); f_equal; lia). simpl.
      symmetry. apply bool_decide_eq_false_2. intros [Hx _]%elem_of_difference.
      specialize (Ha _ Hx). lia.
    + rewrite bool_decide_eq_false_2
        by (intros Hm; apply (mod_window _ e) in Hm; lia). simpl.
      rewrite Hb by lia. apply bool_decide_ext.
      rewrite elem_of_difference, elem_of_singleton. split; [|by intros [? _]].
      intros ?. split; [done|lia].
Qed.

Lemma advance_loop_spec fuel t e A W :
  fuel = size A -> tracks_pre t e A -> (forall s, s ∈ A -> s < W) -> W < 2 ^ 64 ->
  exists t' e' A', advance_loop fuel t = Val t' /\ tracks t' e' A' /\ same_epoch t t' /\
    e <= e' /\ (e < e' <-> e ∈ A) /\ (forall s, released e' A' s <-> released e A s) /\ A' ⊆ A.
Proof.
  revert t e A. induction fuel as [|fuel IH]; intros t e A Hf Ht HW Hlt.
  { symmetry in Hf. apply size_empty_iff in Hf.
    exists t, e, A. cbn [advance_loop]. unfold tracks, same_epoch.
    assert (e ∉ A) by set_solver. split_all; done || lia || (split; [lia|set_solver]). }
  cbn [advance_loop]. pose proof Ht as [Hd He Hst Hh Ha Hw Hr Hb].
  rewrite (proj2 (Z.ltb_lt _ _)) by lia. rewrite test_val by (done || lia). cbn [outcome_bind].
  rewrite He, Hb by lia. case_bool_decide as Hin.
  - pose proof (HW e Hin).
    destruct (tracks_pre_advance t e A Ht Hin ltac:(lia)) as (words & -> & Ht'). cbn [outcome_bind].
    cbn [rt_released_end rt_held_ahead rt_with_words]. rewrite He.
    assert (fuel = size (A ∖ {[e]})) as Hf'.
    { rewrite size_difference, size_singleton by set_solver. lia. }
    assert (forall s, s ∈ A ∖ {[e]} -> s < W) as HW' by set_solver.
    destruct (IH _ _ _ Hf' Ht' HW' Hlt)
      as (t' & e' & A' & Hrun & Htr & (Hs1 & Hs2 & Hs3 & Hs4) & Hle & _ & Hrel & Hsub).
    exists t', e', A'. split; [done|]. split; [done|]. split; [by repeat split|].
    split; [lia|]. split; [split; [done|lia]|]. split; [|set_solver].
    intros s. rewrite Hrel. unfold released. rewrite elem_of_difference, elem_of_singleton.
    destruct (decide (s = e)) as [->|]; [split; [by right|left; lia]|].
    split; [intros [?|[? _]]; [left; lia|by right]|intros [?|?]; [left; lia|by right]].
  - exists t, e, A. unfold tracks, same_epoch. split_all; done || lia || (split; [lia|done]).
Qed.

Lemma tracks_pre_set t e A s :
  tracks_pre t e A -> (s ∉ A) -> e <= s < e + rt_ring_depth t ->
  exists words, set t s = Val (rt_with_words t words) /\
    tracks_pre (rt_with_held (rt_with_words t words) e (u32 (rt_held_ahead t + 1))) e ({[s]} ∪ A).
Proof.
  intros [Hd He Hst Hh Ha Hw Hr Hb] Hs Hrange.
  destruct (set_val t ltac:(lia) Hw s) as (words & Hc & Hl & Hr' & Hbit).
  exists words. split; [done|].
  assert (size ({[s]} ∪ A) = S (size A)) as Hsz.
  { rewrite size_union by set_solver. by rewrite size_singleton. }
  assert (forall x, x ∈ {[s]} ∪ A -> e <= x < e + rt_ring_depth t) as Ha'.
  { intros x [->%elem_of_singleton|Hx]%elem_of_union; auto. }
  pose proof (ahead_size_bound _ e (rt_ring_depth t) ltac:(lia) Ha').
  split; cbn [rt_ring_depth rt_words rt_start rt_released_end rt_held_ahead rt_with_held
    rt_with_words].
  - done.
  - done.
  - done.
  - rewrite wrap_small by (unfold in_range; lia). lia.
  - done.
  - congruence.
  - auto.
  - intros x Hx. rewrite Hbit, Hb by done. destruct (decide (x = s)) as [->|Hne].
    + rewrite bool_decide_eq_true_2 by done. simpl. symmetry.
      apply bool_decide_eq_true_2. set_solver.
    + rewrite bool_decide_eq_false_2 by (intros Hm; apply (mod_window _ e) in Hm; lia). simpl.
      apply bool_decide_ext. set_solver.
Qed.

Lemma release_new t e A s :
  tracks t e A -> e <= s < e + rt_ring_depth t -> (s ∉ A) -> e + rt_ring_depth t < 2 ^ 64 ->
  exists r t' e' A', release t s = Val (r, t') /\ tracks t' e' A' /\ same_epoch t t' /\
    e <= e' /\ (forall x, released e' A' x <-> released e A x \/ x = s) /\
    r = (if bool_decide (s = e) then Advanced else Recorded) /\ (s = e <-> e < e').
Proof.
  intros [Ht He] Hrange Hs Hlt. pose proof Ht as [Hd Hend Hst Hh Ha Hw Hr Hb].
  unfold release. rewrite Hend, (proj2 (Z.ltb_ge _ _)) by lia.
  destruct (add_overflow e (rt_ring_depth t)) as [o we] eqn:Hadd.
  assert (o = false /\ we = e + rt_ring_depth t) as [-> ->].
  { rewrite (proj2 (add_overflow_false e (rt_ring_depth t) (e + rt_ring_depth t) ltac:(lia)
      ltac:(lia))) in Hadd by lia. by injection Hadd as <- <-. }
  rewrite (proj2 (Z.leb_gt _ _)) by lia. cbn [orb].
  rewrite test_val by (done || lia). cbn [outcome_bind].
  rewrite Hb, bool_decide_eq_false_2 by done.
  destruct (tracks_pre_set t e A s Ht Hs Hrange) as (words & -> & Ht'). cbn [outcome_bind].
  cbn [rt_released_end rt_held_ahead rt_with_words]. rewrite Hend.
  destruct (advance_loop_spec (size ({[s]} ∪ A)) _ e ({[s]} ∪ A) (e + rt_ring_depth t) eq_refl Ht')
    as (t' & e' & A' & Hrun & Htr & Hep & Hle & Hadv & Hrel & _).
  { intros x [->%elem_of_singleton|Hx]%elem_of_union; [lia|]. specialize (Ha x Hx). lia. }
  { done. }
  pose proof (tk_held _ _ _ Ht') as Hheld. cbn [rt_held_ahead rt_with_held] in Hheld |- *.
  replace (Z.to_nat (u32 (rt_held_ahead t + 1))) with (size ({[s]} ∪ A)) by (rewrite Hheld; lia).
  rewrite Hrun. cbn [outcome_bind rt_with_held rt_released_end].
  assert (s = e <-> e < e') as Hiff.
  { rewrite Hadv, elem_of_union, elem_of_singleton. split; [by left|by intros [|]]. }
  eexists _, t', e', A'. split; [done|]. split; [done|]. split; [done|]. split; [done|]. split.
  - intros x. rewrite Hrel. unfold released. set_solver.
  - split; [|done]. rewrite (tk_end _ _ _ (proj1 Htr)).
    destruct (Z.ltb_spec e e') as [H|H]; case_bool_decide as Hse; try done.
    + by apply Hiff in H.
    + apply Hiff in Hse. lia.
Qed.

Lemma release_rejected t e A s :
  tracks t e A -> 0 <= s -> e + rt_ring_depth t < 2 ^ 64 ->
  (s < e \/ s ∈ A -> release t s = Val (Duplicate, t)) /\
  (e + rt_ring_depth t <= s -> release t s = Val (OutOfWindow, t)).
Proof.
  intros [Ht He] H0 Hlt. pose proof Ht as [Hd Hend Hst Hh Ha Hw Hr Hb].
  assert (add_overflow e (rt_ring_depth t) = (false, e + rt_ring_depth t)) as Hadd
    by (apply add_overflow_false; lia).
  split; unfold release; rewrite Hend, Hadd; cbn [orb].
  - intros [Hs|Hs]; [by rewrite (proj2 (Z.ltb_lt _ _)) by lia|].
    specialize (Ha s Hs). rewrite (proj2 (Z.ltb_ge _ _)) by lia.
    rewrite (proj2 (Z.leb_gt _ _)) by lia. rewrite test_val by (done || lia). cbn [outcome_bind].
    by rewrite Hb, bool_decide_eq_true_2.
  - intros Hs. rewrite (proj2 (Z.ltb_ge _ _)) by lia. by rewrite (proj2 (Z.leb_le _ _)) by lia.
Qed.

(** C4: [ReleaseTracker::release] refines a set of released sequences.  Given a
    tracker that represents the prefix below [e] and the sequences [A] ahead of
    it, a release of any sequence returns without leaving the bitmap: sequences
    already released are duplicates and sequences a whole ring ahead are out of
    window, both without effect; any other sequence is added to the set, the
    prefix end moves to the first sequence not released, and the result says
    whether it moved. *)
Theorem release_refines_set t e A s
  (Ht : tracks t e A) (Hs : 0 <= s) (Hlt : e + rt_ring_depth t < 2 ^ 64) :
  (released e A s -> release t s = Val (Duplicate, t)) /\
  (e + rt_ring_depth t <= s -> release t s = Val (OutOfWindow, t)) /\
  (~ released e A s -> s < e + rt_ring_depth t ->
   exists r t' e' A', release t s = Val (r, t') /\ tracks t' e' A' /\ same_epoch t t' /\
     e <= e' /\ (forall x, released e' A' x <-> released e A x \/ x = s) /\
     r = (if bool_decide (s = e) then Advanced else Recorded) /\ (s = e <-> e < e')).
Proof.
  destruct (release_rejected t e A s Ht Hs Hlt) as [Hd Ho].
  split; [done|]. split; [done|]. intros Hn Hw. apply release_new; [done| |by intros ?; apply Hn; right|done].
  destruct (decide (s < e)); [by destruct Hn; left|lia].
Qed.

(** A fresh tracker, and one that was reset, represent the empty set. *)
Lemma bit_of_zeros depth s :
  0 < depth -> bit_of (replicate (Z.to_nat (word_count depth)) 0) depth s = false.
Proof.
  intros Hd. unfold bit_of. rewrite lookup_total_replicate_2 by (by apply bit_in_words).
  apply Z.testbit_0_l.
Qed.

Lemma tracks_zeros t e :
  0 < rt_ring_depth t < 2 ^ 32 -> 0 <= e -> rt_start t = e -> rt_released_end t = e ->
  rt_held_ahead t = 0 -> rt_words t = replicate (Z.to_nat (word_count (rt_ring_depth t))) 0 ->
  tracks t e ∅.
Proof.
  intros Hd He Hst Hend Hh Hw. split; [|set_solver]. split.
  - done.
  - done.
  - lia.
  - by rewrite size_empty.
  - set_solver.
  - by rewrite Hw, length_replicate.
  - rewrite Hw. by apply Forall_replicate.
  - intros s _. rewrite Hw, bit_of_zeros by lia. symmetry. apply bool_decide_eq_false_2. set_solver.
Qed.

Lemma tracks_new depth : 0 < depth < 2 ^ 32 -> tracks (ReleaseTracker_new depth) 0 ∅.
Proof. intros. by apply tracks_zeros. Qed.

Lemma tracks_reset t e A first :
  tracks t e A -> 0 <= first -> tracks (ReleaseTracker_reset t first) first ∅.
Proof.
  intros [Ht _] Hf. destruct Ht as [Hd _ _ _ _ Hw _ _]. apply tracks_zeros; try done.
  simpl. rewrite (const_fmap (fun _ => 0) (rt_words t) 0) by done. by rewrite Hw.
Qed.

Lemma release_refines_set_witness :
  exists r t' e' A', release (ReleaseTracker_new 4) 2 = Val (r, t') /\ tracks t' e' A' /\
    same_epoch (ReleaseTracker_new 4) t' /\ 0 <= e' /\
    (forall x, released e' A' x <-> released 0 ∅ x \/ x = 2) /\
    r = (if bool_decide (2 = 0) then Advanced else Recorded) /\ (2 = 0 <-> 0 < e').
Proof.
  refine (proj2 (proj2 (release_refines_set (ReleaseTracker_new 4) 0 ∅ 2
    (tracks_new 4 _) _ _)) _ _); try done.
  intros [H|H]; [done|]. by apply elem_of_empty in H.
Defined.

(** no acknowledgement, whatever its value, moves the publisher's window
    past what was submitted or backwards.  An ack beyond the last submitted
    sequence is refused and changes nothing; any other moves the credited end to
    the larger of where it was and the ack, and the number of leases reported
    released is exactly the distance moved. *)
Theorem apply_credit_sound w ack (Hw : window_ok w) (Ha : in_range 64 ack) :
  let '(o, w') := apply_credit w ack in
  window_ok w' /\ cw_next_sequence w' = cw_next_sequence w /\
  cw_credited_end w' = cw_credited_end w + co_released o /\
  (cw_next_sequence w <= ack -> co_status o = MalformedMessage /\ w' = w) /\
  (ack < cw_next_sequence w ->
     co_status o = Ok /\ cw_credited_end w' = Z.max (cw_credited_end w) (ack + 1)).
Proof.
  destruct Ha as [Ha _]. pose proof (apply_credit_spec w ack Hw Ha) as H.
  destruct (apply_credit w ack) as [o w']. naive_solver.
Qed.

Lemma apply_credit_sound_witness :
  let '(o, w') := apply_credit (mkCreditWindow 8 4 7 5) 5 in
  window_ok w' /\ cw_credited_end w' = 6 /\ co_released o = 1.
Proof.
  pose proof (apply_credit_sound (mkCreditWindow 8 4 7 5) 5) as H.
  specialize (H ltac:(unfold window_ok; simpl; lia) ltac:(done)).
  destruct H as (? & _ & ? & _). split; [done|by vm_compute].
Defined.

(** ** The two halves together *)

(** [ln_flight] are the frames the subscriber holds or will receive and has not
    released; [ln_acks] the credits on the wire. *)
Record link : Type := mkLink {
  ln_pub : CreditWindow;
  ln_trk : ReleaseTracker;
  ln_flight : gset Z;
  ln_acks : gset Z
}.

Definition link_init (depth width : Z) : link :=
  mkLink (CreditWindow_new depth width) (ReleaseTracker_new depth) ∅ ∅.

(** One step of either side or of the wire.  A credit that is delivered stays
    on the wire, so it may be delivered again and in any order; [step_lose] drops
    one.  The 64-bit sequence space is not exhausted. *)
Inductive link_step : link -> link -> Prop :=
| step_submit p t F N s p' :
    note_submitted p = Some (s, p') -> s + 1 + cw_ring_depth p < 2 ^ 64 ->
    link_step (mkLink p t F N) (mkLink p' t ({[s]} ∪ F) N)
| step_release p t F N s r t' :
    s ∈ F -> release t s = Val (r, t') ->
    link_step (mkLink p t F N) (mkLink p t' (F ∖ {[s]}) N)
| step_send p t F N a t' :
    take_pending_ack t = (Some a, t') ->
    link_step (mkLink p t F N) (mkLink p t' F ({[a]} ∪ N))
| step_send_failed p t F N :
    link_step (mkLink p t F N) (mkLink p (mark_ack_failed t) F N)
| step_credit p t F N a o p' :
    a ∈ N -> apply_credit p a = (o, p') ->
    link_step (mkLink p t F N) (mkLink p' t F N)
| step_lose p t F N a :
    link_step (mkLink p t F N) (mkLink p t F (N ∖ {[a]})).

Record link_inv (l : link) : Prop := {
  li_window : window_ok (ln_pub l);
  li_depth : rt_ring_depth (ln_trk l) = cw_ring_depth (ln_pub l);
  li_start : rt_start (ln_trk l) = 0;
  li_space : cw_next_sequence (ln_pub l) + cw_ring_depth (ln_pub l) < 2 ^ 64;
  li_tracks : exists e A, tracks (ln_trk l) e A /\
    cw_credited_end (ln_pub l) <= e <= cw_next_sequence (ln_pub l) /\
    (forall s, s ∈ A -> s < cw_next_sequence (ln_pub l)) /\
    (forall s, s ∈ ln_flight l <-> 0 <= s < cw_next_sequence (ln_pub l) /\ ~ released e A s) /\
    (forall a, a ∈ ln_acks l -> 0 <= a < e)
}.

Lemma link_init_inv depth width :
  0 < depth < 2 ^ 32 -> 0 <= width <= depth -> link_inv (link_init depth width).
Proof.
  intros Hd Hw. split; simpl; try done.
  - unfold window_ok. simpl. lia.
  - lia.
  - exists 0, ∅. split; [by apply tracks_new|]. split; [done|].
    split; [set_solver|]. split; [|set_solver]. intros s. split; [set_solver|lia].
Qed.

Lemma tracks_same_bits t t' e A :
  tracks t e A -> rt_ring_depth t' = rt_ring_depth t -> rt_start t' = rt_start t ->
  rt_released_end t' = rt_released_end t -> rt_held_ahead t' = rt_held_ahead t ->
  rt_words t' = rt_words t -> tracks t' e A.
Proof.
  intros [[? ? ? ? ? ? ? ?] ?] Hd Hs He Hh Hw. split; [|done].
  split; rewrite ?Hd, ?Hs, ?He, ?Hh, ?Hw; done.
Qed.

Lemma tracks_with_ack t e A last sent : tracks t e A -> tracks (rt_with_ack t last sent) e A.
Proof. intros. by eapply tracks_same_bits. Qed.

(** A frame in flight is released by the tracker, never refused. *)
Lemma flight_release l s :
  link_inv l -> s ∈ ln_flight l ->
  exists e A, tracks (ln_trk l) e A /\ ~ released e A s /\
    0 <= s /\ e <= s < e + rt_ring_depth (ln_trk l) /\ e + rt_ring_depth (ln_trk l) < 2 ^ 64.
Proof.
  intros [Hw Hd _ Hsp (e & A & Ht & He & _ & HF & _)] Hs.
  apply HF in Hs as [? Hn]. exists e, A. destruct Hw as (? & ? & ? & ? & ?).
  assert (e <= s) by (destruct (decide (s < e)); [by destruct Hn; left|lia]).
  rewrite Hd. split_all; done || lia.
Qed.

Lemma link_submit_inv p t F N s p' :
  link_inv (mkLink p t F N) -> note_submitted p = Some (s, p') ->
  s + 1 + cw_ring_depth p < 2 ^ 64 -> link_inv (mkLink p' t ({[s]} ∪ F) N).
Proof.
  intros Hinv Hsub Hsp'. pose proof Hinv as [Hw Hd Hst Hsp (e & A & Ht & He & HA & HF & HN)].
  cbn [ln_pub ln_trk ln_flight ln_acks] in *.
  pose proof (note_submitted_spec p Hw) as Hn. rewrite Hsub in Hn.
  destruct Hw as (Hw1 & Hw2 & Hw3 & Hw4 & Hw5).
  pose proof (tk_depth _ _ _ (proj1 Ht)).
  destruct Hn as (? & -> & Hw' & Hn' & Hc' & Hwd & Hrd); [lia|].
  split; cbn [ln_pub ln_trk ln_flight ln_acks]; [done|congruence|done|lia|].
  exists e, A. split; [done|]. split; [lia|].
  split; [intros s Hs; specialize (HA s Hs); lia|]. split; [|done].
  intros s. rewrite elem_of_union, elem_of_singleton, HF, Hn'. split.
  - intros [->|[? ?]]; [|split; [lia|done]]. split; [lia|].
    intros [?|Hs]; [lia|]. specialize (HA _ Hs). lia.
  - intros [? Hnr]. destruct (decide (s = cw_next_sequence p)); [by left|right]. split; [lia|done].
Qed.

Lemma link_release_inv p t F N s r t' :
  link_inv (mkLink p t F N) -> s ∈ F -> release t s = Val (r, t') ->
  link_inv (mkLink p t' (F ∖ {[s]}) N).
Proof.
  intros Hinv Hs Hrel. pose proof Hinv as [Hw Hd Hst Hsp (e & A & Ht & He & HA & HF & HN)].
  cbn [ln_pub ln_trk ln_flight ln_acks] in *.
  destruct (flight_release _ s Hinv Hs) as (e0 & A0 & Ht0 & Hn0 & ? & ? & ?).
  cbn [ln_trk] in *.
  assert (e0 = e) as -> by (rewrite <-(tk_end _ _ _ (proj1 Ht0)); apply Ht).
  apply HF in Hs as [Hs Hnr].
  destruct (release_new t e A s Ht) as (r' & t1 & e' & A' & Hr & Ht' & (Hep1 & Hep2 & _) & Hle & Hset & _);
    [done|by intros ?; apply Hnr; right|done|].
  rewrite Hr in Hrel. injection Hrel as <- <-.
  split; cbn [ln_pub ln_trk ln_flight ln_acks]; [done|congruence|congruence|done|].
  assert (forall x, released e' A' x -> x < cw_next_sequence p) as Hlt.
  { intros x Hx. apply Hset in Hx as [[?|Hx]| ->]; [lia|by apply HA|lia]. }
  exists e', A'. split; [done|]. split.
  { split; [lia|]. destruct (decide (e' <= cw_next_sequence p)); [done|].
    assert (cw_next_sequence p < cw_next_sequence p); [|lia]. apply Hlt. left. lia. }
  split; [intros x Hx; apply Hlt; by right|]. split.
  - intros x. rewrite elem_of_difference, elem_of_singleton, HF, Hset.
    split; [intros [[? ?] ?]|intros [? Hx]]; (split; [|tauto]); done || tauto.
  - intros a Ha. specialize (HN a Ha). lia.
Qed.

Lemma link_step_inv l l' : link_inv l -> link_step l l' -> link_inv l'.
Proof.
  intros Hinv Hstep.
  pose proof Hinv as [Hw Hd Hst Hsp (e & A & Ht & He & HA & HF & HN)].
  destruct Hstep as [p t F N s p' Hsub Hsp'|p t F N s r t' Hs Hrel|p t F N a t' Hta|p t F N
    |p t F N a o p' Ha Hap|p t F N a]; cbn [ln_pub ln_trk ln_flight ln_acks] in *.
  - by eapply link_submit_inv.
  - by eapply link_release_inv.
  - unfold take_pending_ack in Hta. pose proof (tk_end _ _ _ (proj1 Ht)) as Hend.
    pose proof (tk_start _ _ _ (proj1 Ht)) as Hs0. rewrite Hend, Hst in Hta.
    destruct Hw as (Hw1 & Hw2 & Hw3 & Hw4 & Hw5).
    destruct (Z.eqb_spec e 0); [done|]. rewrite wrap_small in Hta by (unfold in_range; lia).
    destruct (rt_ack_sent t && _); [done|]. injection Hta as <- <-.
    split; cbn [ln_pub ln_trk ln_flight ln_acks]; [done|done|done|done|].
    exists e, A. split; [by apply tracks_with_ack|]. split; [done|]. split; [done|]. split; [done|].
    intros x [->%elem_of_singleton|Hx]%elem_of_union; [lia|auto].
  - split; cbn [ln_pub ln_trk ln_flight ln_acks]; [done..|].
    exists e, A. split; [by apply tracks_with_ack|done].
  - specialize (HN a Ha) as Hae.
    pose proof (apply_credit_spec p a Hw ltac:(lia)) as Hc. rewrite Hap in Hc.
    destruct Hc as (Hw' & Hn & Hwd & Hrd & _ & _ & Hok). destruct Hok as [_ Hce]; [lia|].
    split; cbn [ln_pub ln_trk ln_flight ln_acks]; [done|congruence|done|lia|].
    exists e, A. split; [done|]. rewrite Hn. split; [lia|]. by repeat split_and.
  - split; cbn [ln_pub ln_trk ln_flight ln_acks]; [done..|].
    exists e, A. split; [done|]. split; [done|]. split; [done|]. split; [done|]. set_solver.
Qed.

Lemma link_reachable_inv depth width l :
  0 < depth < 2 ^ 32 -> 0 <= width <= depth -> rtc link_step (link_init depth width) l ->
  link_inv l.
Proof.
  intros Hd Hw Hr. pose proof (link_init_inv depth width Hd Hw) as Hi.
  induction Hr as [|l l' l'' Hs _ IH]; [done|]. eauto using link_step_inv.
Qed.

(** C2: with an honest subscriber the protocol is safe under any interleaving
    of the two sides and any loss, duplication and reordering of credits.  Every
    credit on the wire is accepted; no frame the subscriber still holds is below
    the credited end, so the publisher never recycles its lease early; every
    release of a held frame is recorded; the held frames are in distinct slots of
    the receive ring; and at most [width] frames are outstanding. *)
Theorem credit_protocol_safe depth width l
  (Hd : 0 < depth < 2 ^ 32) (Hw : 0 <= width <= depth)
  (Hr : rtc link_step (link_init depth width) l) :
  (forall a, a ∈ ln_acks l -> co_status (fst (apply_credit (ln_pub l) a)) = Ok) /\
  (forall s, s ∈ ln_flight l -> cw_credited_end (ln_pub l) <= s < cw_next_sequence (ln_pub l)) /\
  (forall s, s ∈ ln_flight l -> exists r t', release (ln_trk l) s = Val (r, t') /\
     (r = Advanced \/ r = Recorded)) /\
  (forall s s', s ∈ ln_flight l -> s' ∈ ln_flight l ->
     s mod rt_ring_depth (ln_trk l) = s' mod rt_ring_depth (ln_trk l) -> s = s') /\
  outstanding (ln_pub l) <= cw_width (ln_pub l).
Proof.
  pose proof (link_reachable_inv depth width l Hd Hw Hr) as Hinv.
  pose proof Hinv as [Hok Hdep Hst Hsp (e & A & Ht & He & HA & HF & HN)].
  split; [|split; [|split; [|split]]].
  - intros a Ha. specialize (HN a Ha).
    pose proof (apply_credit_spec (ln_pub l) a Hok ltac:(lia)) as Hc.
    destruct (apply_credit (ln_pub l) a) as [o w']. simpl.
    destruct Hc as (_ & _ & _ & _ & _ & _ & Hc). apply Hc. lia.
  - intros s Hs. destruct (flight_release l s Hinv Hs) as (e' & A' & Ht' & _ & ? & ? & _).
    pose proof (tk_end _ _ _ (proj1 Ht')) as He'. rewrite (tk_end _ _ _ (proj1 Ht)) in He'.
    apply HF in Hs as [? _]. lia.
  - intros s Hs. destruct (flight_release l s Hinv Hs) as (e' & A' & Ht' & Hn & ? & ? & ?).
    destruct (release_new (ln_trk l) e' A' s Ht') as (r & t' & ? & ? & Hrel & _ & _ & _ & _ & Hres & _);
      [done|by intros ?; apply Hn; right|done|].
    exists r, t'. split; [done|]. rewrite Hres. case_bool_decide; auto.
  - intros s s' Hs Hs' Hm.
    destruct (flight_release l s Hinv Hs) as (e1 & A1 & Ht1 & _ & _ & ? & _).
    destruct (flight_release l s' Hinv Hs') as (e2 & A2 & Ht2 & _ & _ & ? & _).
    pose proof (tk_end _ _ _ (proj1 Ht1)). pose proof (tk_end _ _ _ (proj1 Ht2)).
    pose proof (tk_depth _ _ _ (proj1 Ht1)).
    apply (mod_window (rt_ring_depth (ln_trk l)) e1); lia || done.
  - rewrite outstanding_exact by done. apply Hok.
Qed.

(** A run: two frames submitted, the second released first, then both, one
    credit sent. *)
Definition sample_link : link :=
  let t := ReleaseTracker_new 4 in
  let p := mkCreditWindow 4 2 2 0 in
  mkLink p t ({[1]} ∪ ({[0]} ∪ ∅)) ∅.

Lemma credit_protocol_safe_witness :
  1 ∈ ln_flight sample_link /\
  cw_credited_end (ln_pub sample_link) <= 1 < cw_next_sequence (ln_pub sample_link).
Proof.
  assert (1 ∈ ln_flight sample_link) as H1 by (unfold sample_link; simpl; set_solver).
  split; [exact H1|]. revert H1.
  refine (proj1 (proj2 (credit_protocol_safe 4 2 sample_link _ _ _)) 1); [done|done|].
  eapply rtc_l; [by apply (step_submit _ _ _ _ 0)|].
  eapply rtc_l; [by apply (step_submit _ _ _ _ 1)|]. apply rtc_refl.
Defined.

(** ** A transport that reports what it loses

    What the subscriber can do on its own: release a frame, send the pending
    acknowledgement, have one of those on the wire applied. *)
Inductive opening_step : link -> link -> Prop :=
| open_release p t F N s r t' :
    s ∈ F -> release t s = Val (r, t') ->
    opening_step (mkLink p t F N) (mkLink p t' (F ∖ {[s]}) N)
| open_send p t F N a t' :
    take_pending_ack t = (Some a, t') ->
    opening_step (mkLink p t F N) (mkLink p t' F ({[a]} ∪ N))
| open_credit p t F N a o p' :
    a ∈ N -> apply_credit p a = (o, p') ->
    opening_step (mkLink p t F N) (mkLink p' t F N).

(** As [link_step], but an acknowledgement leaves the wire only when it has been
    applied or its send failed; [SubscriberEngine] then calls [mark_ack_failed], at
    the call ([send_pending_credit]) or later ([on_credit_sent]). *)
Inductive carried_step : link -> link -> Prop :=
| carry_open l l' : opening_step l l' -> carried_step l l'
| carry_submit p t F N s p' :
    note_submitted p = Some (s, p') -> s + 1 + cw_ring_depth p < 2 ^ 64 ->
    carried_step (mkLink p t F N) (mkLink p' t ({[s]} ∪ F) N)
| carry_lost p t F N a :
    a ∈ N -> carried_step (mkLink p t F N) (mkLink p (mark_ack_failed t) F (N ∖ {[a]}))
| carry_done p t F N a :
    a < cw_credited_end p -> carried_step (mkLink p t F N) (mkLink p t F (N ∖ {[a]})).

Lemma opening_link l l' : opening_step l l' -> link_step l l'.
Proof. destruct 1; [by eapply step_release|by apply step_send|by eapply step_credit]. Qed.

Lemma carried_link l l' : carried_step l l' -> rtc link_step l l'.
Proof.
  destruct 1 as [l l' Hs|p t F N s p' Hs Hsp|p t F N a Ha|p t F N a Ha].
  - by apply rtc_once, opening_link.
  - by apply rtc_once, (step_submit _ _ _ _ s).
  - eapply rtc_l; [apply (step_lose _ _ _ _ a)|]. apply rtc_once, step_send_failed.
  - apply rtc_once, step_lose.
Qed.

(** The acknowledgement the tracker thinks it sent is on the wire or was applied. *)
Definition ack_carried (l : link) : Prop :=
  rt_ack_sent (ln_trk l) = true ->
  rt_last_ack_sent (ln_trk l) ∈ ln_acks l \/ rt_last_ack_sent (ln_trk l) < cw_credited_end (ln_pub l).

Lemma apply_credit_grows p a o p' :
  window_ok p -> 0 <= a -> apply_credit p a = (o, p') -> cw_credited_end p <= cw_credited_end p'.
Proof.
  intros Hw Ha Hap. pose proof (apply_credit_spec p a Hw Ha) as Hc. rewrite Hap in Hc.
  destruct Hc as (_ & _ & _ & _ & _ & Hbig & Hok).
  destruct (Z.le_gt_cases (cw_next_sequence p) a) as [Hle|Hlt]; [by destruct (Hbig Hle) as [_ ->]|].
  destruct (Hok Hlt) as [_ ->]. lia.
Qed.

Lemma ack_carried_step l l' : link_inv l -> carried_step l l' -> ack_carried l -> ack_carried l'.
Proof.
  intros Hinv Hstep HJ. unfold ack_carried in *.
  destruct Hstep as [l l' Hs|p t F N s p' Hs Hsp|p t F N a Ha|p t F N a Ha]; cbn in *.
  - destruct Hs as [p t F N s r t' Hin Hrel|p t F N a t' Hta|p t F N a o p' Hin Hap]; cbn in *.
    + destruct (flight_release _ s Hinv Hin) as (e & A & Ht & Hn & ? & ? & ?). cbn in *.
      destruct (release_new t e A s Ht) as (r' & t1 & e' & A' & Hr & _ & (_ & _ & Hla & Has) & _);
        [done|by intros ?; apply Hn; right|done|].
      rewrite Hr in Hrel. injection Hrel as <- <-. by rewrite Hla, Has.
    + unfold take_pending_ack in Hta. repeat case_match; simplify_eq. cbn. intros _. left. set_solver.
    + destruct Hinv as [Hw _ _ _ (e & A & _ & _ & _ & _ & HN)]. cbn in *.
      pose proof (apply_credit_grows p a o p' Hw ltac:(apply HN; done) Hap). intros Hs.
      destruct (HJ Hs); [by left|right; lia].
  - unfold note_submitted in Hs. case_match; [|done]. by simplify_eq.
  - done.
  - intros Hs. destruct (HJ Hs) as [Hin|?]; [|by right].
    destruct (decide (rt_last_ack_sent t = a)) as [->|Hne]; [by right|left; set_solver].
Qed.

Lemma link_steps_inv l l' : rtc link_step l l' -> link_inv l -> link_inv l'.
Proof. induction 1 as [|l l1 l' Hs _ IH]; eauto using link_step_inv. Qed.

Lemma carried_inv l l' :
  rtc carried_step l l' -> link_inv l -> ack_carried l -> link_inv l' /\ ack_carried l'.
Proof.
  induction 1 as [|l l1 l' Hs _ IH]; [done|]. intros Hi HJ.
  apply IH; [by eapply link_steps_inv; [apply carried_link|]|by eapply ack_carried_step].
Qed.

(** One acknowledgement that opens the window completely. *)
Definition opens (p : CreditWindow) (a : Z) : Prop :=
  co_status (fst (apply_credit p a)) = Ok /\ outstanding (snd (apply_credit p a)) = 0.

(** Nothing in flight: the window is open, or the acknowledgement that opens it is on
    the wire or pending. *)
Lemma idle_ack l :
  link_inv l -> ack_carried l -> ln_flight l = ∅ -> 0 < cw_next_sequence (ln_pub l) ->
  outstanding (ln_pub l) = 0 \/
  exists a, opens (ln_pub l) a /\
    (a ∈ ln_acks l \/ exists t', take_pending_ack (ln_trk l) = (Some a, t')).
Proof.
  intros [Hok Hdep Hst Hsp (e & A & Ht & He & HA & HF & HN)] HJ Hidle Hsome.
  assert (e = cw_next_sequence (ln_pub l)) as Hend.
  { destruct (decide (e = cw_next_sequence (ln_pub l))); [done|].
    assert (e ∈ ln_flight l) as Hin.
    { apply HF. pose proof (tk_start _ _ _ (proj1 Ht)). split; [lia|].
      intros [?|?]; [lia|by apply Ht]. }
    rewrite Hidle in Hin. set_solver. }
  pose proof Hok as (? & ? & ? & ? & ?).
  assert (opens (ln_pub l) (e - 1)) as Hopens.
  { pose proof (apply_credit_spec (ln_pub l) (e - 1) Hok ltac:(lia)) as Hc. unfold opens.
    destruct (apply_credit (ln_pub l) (e - 1)) as [o w']. simpl.
    destruct Hc as (Hok' & Hn & _ & _ & _ & _ & Hc). destruct Hc as [? Hce]; [lia|].
    split; [done|]. rewrite outstanding_exact by done. lia. }
  destruct (take_pending_ack (ln_trk l)) as [pending t'] eqn:Htake. unfold take_pending_ack in Htake.
  rewrite (tk_end _ _ _ (proj1 Ht)), Hst, (proj2 (Z.eqb_neq _ _)) in Htake by lia.
  rewrite wrap_small in Htake by (unfold in_range; lia).
  destruct (rt_ack_sent (ln_trk l) && (e - 1 =? rt_last_ack_sent (ln_trk l))) eqn:Hsent.
  - apply andb_true_iff in Hsent as [Hs Hl%Z.eqb_eq]. destruct (HJ Hs) as [Hin|Hlt]; rewrite <-Hl in *.
    + right. exists (e - 1). split; [done|]. by left.
    + left. rewrite outstanding_exact by done. lia.
  - right. exists (e - 1). split; [done|]. right. rewrite <-Htake. by eexists.
Qed.

Lemma opening_opens n : forall l,
  link_inv l -> ack_carried l -> size (ln_flight l) = n ->
  exists l', rtc opening_step l l' /\ outstanding (ln_pub l') = 0 /\
    cw_next_sequence (ln_pub l') = cw_next_sequence (ln_pub l).
Proof.
  induction n as [|n IH]; intros l Hinv HJ Hn.
  - apply size_empty_iff, leibniz_equiv in Hn.
    pose proof (li_window _ Hinv) as Hok. pose proof Hok as (? & ? & ? & ? & ?).
    destruct (decide (cw_next_sequence (ln_pub l) = 0)) as [Hz|Hz].
    { exists l. split; [apply rtc_refl|]. split; [|done]. rewrite outstanding_exact by done. lia. }
    destruct (idle_ack l Hinv HJ Hn) as [Ho|(a & [_ Ho] & Ha)]; [lia|by exists l|].
    destruct l as [p t F N]. cbn in *.
    assert (exists t' N', rtc opening_step (mkLink p t F N) (mkLink p t' F N') /\ a ∈ N') as (t' & N' & Hsend & Hin).
    { destruct Ha as [Ha|[t' Ht']]; [by exists t, N|]. exists t', ({[a]} ∪ N).
      split; [by apply rtc_once, open_send|set_solver]. }
    destruct (apply_credit p a) as [o p'] eqn:Hap. cbn in Ho. exists (mkLink p' t' F N').
    split; [eapply rtc_r; [exact Hsend|by eapply open_credit]|]. split; [done|].
    cbn. unfold apply_credit in Hap. by repeat case_match; simplify_eq.
  - assert (exists s, s ∈ ln_flight l) as [s Hs].
    { apply set_choose_L. intros He. rewrite He, size_empty in Hn. done. }
    destruct (flight_release l s Hinv Hs) as (e & A & Ht & Hnr & ? & ? & ?).
    destruct (release_new (ln_trk l) e A s Ht) as (r & t1 & _ & _ & Hr & _);
      [done|by intros ?; apply Hnr; right|done|].
    destruct l as [p t F N]. cbn in *. pose proof (open_release p t F N s r t1 Hs Hr) as Hstep.
    destruct (IH (mkLink p t1 (F ∖ {[s]}) N)) as (l' & Hrun & Ho & Hnext).
    + by eapply link_step_inv, opening_link.
    + by eapply ack_carried_step; [exact Hinv|apply carry_open|].
    + cbn. rewrite size_difference by set_solver. rewrite size_singleton. lia.
    + exists l'. split; [by eapply rtc_l|done].
Qed.

(** C3: the protocol cannot get stuck with the window closed.  Let acknowledgements be
    delayed, reordered, repeated and lost, a loss being reported to the subscriber as a
    failed send.  In every reachable state in which the subscriber has released all it
    was sent, the window is open or one acknowledgement that opens it completely is
    pending or on the wire; and from every reachable state, whatever was lost before,
    releasing the frames in flight, sending the pending acknowledgement and delivering
    it opens the window completely. *)
Theorem credit_protocol_live depth width l
  (Hd : 0 < depth < 2 ^ 32) (Hw : 0 <= width <= depth)
  (Hr : rtc carried_step (link_init depth width) l) :
  (ln_flight l = ∅ -> 0 < cw_next_sequence (ln_pub l) ->
     outstanding (ln_pub l) = 0 \/
     exists a, opens (ln_pub l) a /\
       (a ∈ ln_acks l \/ exists t', take_pending_ack (ln_trk l) = (Some a, t'))) /\
  (exists l', rtc opening_step l l' /\ outstanding (ln_pub l') = 0 /\
     cw_next_sequence (ln_pub l') = cw_next_sequence (ln_pub l)).
Proof.
  destruct (carried_inv _ l Hr (link_init_inv depth width Hd Hw)) as [Hinv HJ]; [by intros ?|].
  split; [by apply idle_ack|by eapply opening_opens].
Qed.

(** A window of one: the frame is released, its acknowledgement sent and lost. *)
Lemma credit_protocol_live_witness :
  let t := mkReleaseTracker 4 [0] 0 1 0 0 false in
  exists a, opens (mkCreditWindow 4 1 1 0) a /\
    (a ∈ (∅ : gset Z) \/ exists t', take_pending_ack t = (Some a, t')).
Proof.
  destruct (credit_protocol_live 4 1 (mkLink (mkCreditWindow 4 1 1 0)
    (mkReleaseTracker 4 [0] 0 1 0 0 false) (({[0]} ∪ ∅) ∖ {[0]}) (({[0]} ∪ ∅) ∖ {[0]})))
    as [Hidle _]; [done|done| |].
  - eapply rtc_l; [by apply (carry_submit _ _ _ _ 0)|].
    eapply rtc_l; [eapply carry_open, (open_release _ _ _ _ 0 Advanced); [set_solver|by vm_compute]|].
    eapply rtc_l; [eapply carry_open, (open_send _ _ _ _ 0); by vm_compute|].
    eapply rtc_l; [eapply (carry_lost _ _ _ _ 0); set_solver|]. apply rtc_refl.
  - destruct Hidle as [Ho|Ha]; [by vm_compute|done|done|]. exact Ha.
Defined.
