(* ===== verification/PinnedLedger.v ===== *)
(** * The process-wide ledger of pinned bytes

    [src/core/pinned_ledger.h] and [.cpp].  The arithmetic of the two
    compare-and-swap loops is one definition each; the same definitions are run
    by the sequential [Reservation] operations and by a step relation in which
    any number of threads interleave at every atomic access.  The warning of
    [check_memlock] is in [UcxSetup]. *)
From stdpp Require Import list relations.
From S2P Require Import Prelude Enums Limits.
#[local] Open Scope Z_scope.

(** ** Definitions *)

Definition uint64_max : Z := 2 ^ 64 - 1.

(** [checked_bytes]: [None] leaves [result] untouched. *)
Definition checked_bytes (frame_bytes ring_depth : Z) : option Z :=
  if negb (ring_depth =? 0) && (uint64_max / ring_depth <? frame_bytes) then None
  else Some (u64 (frame_bytes * ring_depth)).

(** One turn of the loop in [try_reserve]: [None] refuses, [Some next] is the
    value the compare-and-swap tries to store. *)
Definition try_reserve_turn (bytes process_limit observed : Z) : option Z :=
  if (process_limit <? bytes) || (u64 (process_limit - bytes) <? observed) then None
  else Some (u64 (observed + bytes)).

(** One turn of the loop in [release]. *)
Definition release_turn (bytes observed : Z) : Z :=
  if observed <? bytes then 0 else u64 (observed - bytes).

(** The two loops run without interference: the first swap succeeds. *)
Definition try_reserve (total bytes process_limit : Z) : bool * Z :=
  match try_reserve_turn bytes process_limit total with
  | None => (false, total)
  | Some next => (true, next)
  end.

Definition release_bytes (total bytes : Z) : Z :=
  if bytes =? 0 then total else release_turn bytes total.

(** A [Reservation] is its [bytes_]; each operation takes and returns the
    process total. *)
Definition try_acquire (total bytes process_limit : Z) : Z * Z :=
  match try_reserve total bytes process_limit with
  | (false, total) => (0, total)
  | (true, total) => (bytes, total)
  end.

Definition extend_guard (held bytes : Z) : bool := held <=? u64 (uint64_max - bytes).

Definition extend (total held bytes process_limit : Z) : bool * Z * Z :=
  if bytes =? 0 then (true, held, total) else
  if negb (extend_guard held bytes) then (false, held, total) else
  match try_reserve total bytes process_limit with
  | (false, total) => (false, held, total)
  | (true, total) => (true, u64 (held + bytes), total)
  end.

Definition reset (total held : Z) : Z * Z :=
  if negb (held =? 0) then (0, release_bytes total held) else (held, total).

(** Move construction and move assignment: the new value of the target, of the
    source, and the total.  The source and the target are different objects. *)
Definition move_construct (other : Z) : Z * Z := (other, 0).
Definition move_assign (total held other : Z) : Z * Z * Z :=
  let '(_, total) := reset total held in (other, 0, total).

(** ** The loops under interleaving *)

(** Where a thread is, and the bytes its reservation owns. *)
Inductive ledger_pc : Type :=
| LIdle (held : Z)
| LReserve (held bytes process_limit observed : Z)
| LRelease (bytes observed : Z).

Definition holding (p : ledger_pc) : Z :=
  match p with
  | LIdle held => held
  | LReserve held _ _ _ => held
  | LRelease bytes _ => bytes
  end.

Record ledger : Type := mkLedger { lg_total : Z; lg_threads : list ledger_pc }.

(** One atomic access of one thread.  A weak compare-and-swap may fail although
    the values agree; a failure reloads [observed]. *)
Inductive ledger_step : ledger -> ledger -> Prop :=
| ls_load_reserve total ts i held bytes limit :
    ts !! i = Some (LIdle held) -> in_range 64 bytes -> in_range 64 limit ->
    (held = 0 \/ extend_guard held bytes = true) ->
    ledger_step (mkLedger total ts) (mkLedger total (<[i := LReserve held bytes limit total]> ts))
| ls_refuse total ts i held bytes limit observed :
    ts !! i = Some (LReserve held bytes limit observed) ->
    try_reserve_turn bytes limit observed = None ->
    ledger_step (mkLedger total ts) (mkLedger total (<[i := LIdle held]> ts))
| ls_reserve total ts i held bytes limit next :
    ts !! i = Some (LReserve held bytes limit total) ->
    try_reserve_turn bytes limit total = Some next ->
    ledger_step (mkLedger total ts) (mkLedger next (<[i := LIdle (u64 (held + bytes))]> ts))
| ls_reserve_retry total ts i held bytes limit observed next :
    ts !! i = Some (LReserve held bytes limit observed) ->
    try_reserve_turn bytes limit observed = Some next ->
    ledger_step (mkLedger total ts) (mkLedger total (<[i := LReserve held bytes limit total]> ts))
| ls_load_release total ts i held :
    ts !! i = Some (LIdle held) -> held <> 0 ->
    ledger_step (mkLedger total ts) (mkLedger total (<[i := LRelease held total]> ts))
| ls_release total ts i bytes :
    ts !! i = Some (LRelease bytes total) ->
    ledger_step (mkLedger total ts) (mkLedger (release_turn bytes total) (<[i := LIdle 0]> ts))
| ls_release_retry total ts i bytes observed :
    ts !! i = Some (LRelease bytes observed) ->
    ledger_step (mkLedger total ts) (mkLedger total (<[i := LRelease bytes total]> ts))
| ls_move total ts i j held :
    ts !! i = Some (LIdle held) -> ts !! j = Some (LIdle 0) -> i <> j ->
    ledger_step (mkLedger total ts) (mkLedger total (<[i := LIdle 0]> (<[j := LIdle held]> ts))).

Definition ledger_init (threads : nat) : ledger := mkLedger 0 (replicate threads (LIdle 0)).

(** ** The arithmetic *)

(** [checked_bytes] is the exact product whenever it fits 64 bits, and
    refuses exactly when it does not. *)
Theorem checked_bytes_exact frame_bytes ring_depth
  (Hf : in_range 64 frame_bytes) (Hd : in_range 32 ring_depth) :
  checked_bytes frame_bytes ring_depth =
  if bool_decide (frame_bytes * ring_depth < 2 ^ 64) then Some (frame_bytes * ring_depth) else None.
Proof.
  unfold checked_bytes, in_range, uint64_max in *.
  destruct (Z.eqb_spec ring_depth 0) as [->|Hne]; simpl.
  - rewrite Z.mul_0_r. by rewrite bool_decide_eq_true_2.
  - pose proof (Z.div_mod (2 ^ 64 - 1) ring_depth Hne).
    pose proof (Z.mod_pos_bound (2 ^ 64 - 1) ring_depth ltac:(lia)).
    destruct (Z.ltb_spec ((2 ^ 64 - 1) / ring_depth) frame_bytes).
    + rewrite bool_decide_eq_false_2 by nia. done.
    + rewrite bool_decide_eq_true_2 by nia. rewrite wrap_small; [done|]. unfold in_range. nia.
Qed.

Lemma checked_bytes_exact_witness :
  checked_bytes 4096 8 = Some 32768 /\ checked_bytes (2 ^ 63) 2 = None.
Proof.
  split.
  - rewrite (checked_bytes_exact 4096 8 ltac:(done) ltac:(done)). reflexivity.
  - rewrite (checked_bytes_exact (2 ^ 63) 2 ltac:(done) ltac:(done)). reflexivity.
Defined.

Lemma try_reserve_turn_spec bytes limit observed :
  in_range 64 bytes -> in_range 64 limit -> in_range 64 observed ->
  try_reserve_turn bytes limit observed =
  if bool_decide (observed + bytes <= limit) then Some (observed + bytes) else None.
Proof.
  unfold in_range, try_reserve_turn. intros.
  destruct (Z.ltb_spec limit bytes); simpl.
  - by rewrite bool_decide_eq_false_2 by lia.
  - rewrite wrap_small by (unfold in_range; lia).
    destruct (Z.ltb_spec (limit - bytes) observed).
    + by rewrite bool_decide_eq_false_2 by lia.
    + rewrite bool_decide_eq_true_2 by lia. by rewrite wrap_small by (unfold in_range; lia).
Qed.

Lemma release_turn_exact bytes observed :
  in_range 64 observed -> 0 <= bytes <= observed -> release_turn bytes observed = observed - bytes.
Proof.
  unfold in_range, release_turn. intros. rewrite (proj2 (Z.ltb_ge _ _)) by lia.
  apply wrap_small. unfold in_range. lia.
Qed.

(** ** The total is the sum of what is held *)

Definition total_held (ts : list ledger_pc) : Z := foldr (fun p n => holding p + n) 0 ts.

Lemma total_held_insert ts i p q :
  ts !! i = Some p -> total_held (<[i := q]> ts) = total_held ts - holding p + holding q.
Proof.
  revert i. induction ts as [|x ts IH]; intros [|i]; simpl; [done|done| |].
  - intros [= ->]. lia.
  - intros Hi. rewrite (IH i Hi). lia.
Qed.

Definition pc_ok (p : ledger_pc) : Prop :=
  0 <= holding p /\
  match p with
  | LReserve held bytes limit observed =>
      in_range 64 bytes /\ in_range 64 limit /\ in_range 64 observed /\
      (held = 0 \/ extend_guard held bytes = true)
  | LRelease _ observed => in_range 64 observed
  | LIdle _ => True
  end.

Lemma total_held_bound ts i p :
  Forall pc_ok ts -> ts !! i = Some p -> 0 <= holding p <= total_held ts.
Proof.
  intros Hok. revert i. induction Hok as [|x ts [Hx _] Hok IH]; intros i Hi; [done|].
  assert (0 <= total_held ts) as Hnn.
  { clear IH Hi. induction Hok as [|y ts [? _] _ IH]; simpl; [done|]. lia. }
  destruct i as [|i]; simpl in *; [injection Hi as ->; lia|].
  specialize (IH i Hi). lia.
Qed.

Record ledger_inv (g : ledger) : Prop := {
  lv_sum : lg_total g = total_held (lg_threads g);
  lv_range : in_range 64 (lg_total g);
  lv_pcs : Forall pc_ok (lg_threads g)
}.

Lemma ledger_init_inv n : ledger_inv (ledger_init n).
Proof.
  split; simpl.
  - induction n as [|n IH]; simpl; [done|lia].
  - done.
  - apply Forall_replicate. by split.
Qed.

Lemma pc_ok_at ts i p : Forall pc_ok ts -> ts !! i = Some p -> pc_ok p.
Proof. intros H Hi. by eapply Forall_lookup_1 in H. Qed.

(** A step that leaves the holdings and the total alone. *)
Lemma ledger_inv_local total ts i p q :
  ledger_inv (mkLedger total ts) -> ts !! i = Some p -> pc_ok q -> holding q = holding p ->
  ledger_inv (mkLedger total (<[i := q]> ts)).
Proof.
  intros [Hs Hr Hp] Hi Hq Hh. split; simpl in *; [|done|by apply Forall_insert].
  rewrite (total_held_insert ts i p q Hi). lia.
Qed.

Lemma ledger_step_inv g g' : ledger_inv g -> ledger_step g g' -> ledger_inv g'.
Proof.
  intros Hinv Hstep. pose proof Hinv as [Hs Hr Hp].
  destruct Hstep as [total ts i held bytes limit Hi|total ts i held bytes limit observed Hi Ht
    |total ts i held bytes limit next Hi Ht|total ts i held bytes limit observed next Hi Ht
    |total ts i held Hi Hne|total ts i bytes Hi|total ts i bytes observed Hi
    |total ts i j held Hi Hj Hij]; cbn [lg_total lg_threads] in *;
    pose proof (pc_ok_at ts i _ Hp Hi) as [Hh Hpc]; cbn [holding] in Hh, Hpc.
  - eapply ledger_inv_local; [done|done|by repeat split_and|done].
  - by eapply ledger_inv_local; [| |split|].
  - destruct Hpc as (Hb & Hl & _ & Hg). rewrite try_reserve_turn_spec in Ht by done.
    case_bool_decide as Hle; [|done]. injection Ht as <-.
    pose proof (total_held_bound ts i _ Hp Hi) as Hbound. cbn [holding] in Hbound.
    assert (u64 (held + bytes) = held + bytes) as Hw.
    { apply wrap_small. unfold in_range in *. lia. }
    split; cbn [lg_total lg_threads].
    + rewrite (total_held_insert ts i _ _ Hi), Hw. simpl. lia.
    + unfold in_range in *. lia.
    + apply Forall_insert; [done|]. rewrite Hw. split; [|done]. unfold in_range in *. simpl. lia.
  - destruct Hpc as (? & ? & ? & ?).
    eapply ledger_inv_local; [done|done|by repeat split_and|done].
  - eapply ledger_inv_local; [done|done|by split|done].
  - pose proof (total_held_bound ts i _ Hp Hi) as Hbound. cbn [holding] in Hbound.
    rewrite release_turn_exact by (done || lia). split; cbn [lg_total lg_threads].
    + rewrite (total_held_insert ts i _ _ Hi). simpl. lia.
    + unfold in_range in *. lia.
    + apply Forall_insert; [done|]. by split.
  - by eapply ledger_inv_local; [| |split|].
  - assert (<[j := LIdle held]> ts !! i = Some (LIdle held)) as Hi'
      by (by rewrite list_lookup_insert_ne).
    split; cbn [lg_total lg_threads]; [|done|].
    + rewrite (total_held_insert _ i _ _ Hi'), (total_held_insert ts j _ _ Hj). simpl. lia.
    + apply Forall_insert; [apply Forall_insert; [done|]|]; by split.
Qed.

(** Every process limit in use is at most [L]. *)
Definition limits_below (L : Z) (g : ledger) : Prop :=
  lg_total g <= L /\
  Forall (fun p => match p with LReserve _ _ limit _ => limit <= L | _ => True end) (lg_threads g).

Inductive ledger_step_within (L : Z) (g g' : ledger) : Prop :=
| within_intro :
    ledger_step g g' ->
    Forall (fun p => match p with LReserve _ _ limit _ => limit <= L | _ => True end)
      (lg_threads g') ->
    ledger_step_within L g g'.

Lemma ledger_reachable L n g :
  0 <= L -> rtc (ledger_step_within L) (ledger_init n) g ->
  ledger_inv g /\ limits_below L g.
Proof.
  intros HL Hr. assert (ledger_inv (ledger_init n) /\ limits_below L (ledger_init n)) as Hi.
  { split; [apply ledger_init_inv|]. split; [done|]. simpl. by apply Forall_replicate. }
  induction Hr as [|g g' g'' [Hs HL'] _ IH]; [done|].
  apply IH. destruct Hi as [Hinv [Hle Hlim]]. split; [by eapply ledger_step_inv|]. split; [|done].
  pose proof Hinv as [Hsum Hrange Hpcs]. clear HL'.
  destruct Hs as [| |total ts i held bytes limit next Hi Ht| | |total ts i bytes Hi| |];
    cbn [lg_total lg_threads] in *; try done.
  - pose proof (pc_ok_at ts i _ Hpcs Hi) as [_ (? & ? & _)].
    rewrite try_reserve_turn_spec in Ht by done. case_bool_decide; [|done]. injection Ht as <-.
    eapply Forall_lookup_1 in Hlim; [|exact Hi]. simpl in Hlim. lia.
  - pose proof (total_held_bound ts i _ Hpcs Hi) as Hb. cbn [holding] in Hb.
    rewrite release_turn_exact by (done || lia). lia.
Qed.

(** C37: however the threads interleave, the process total is exactly the sum of
    the bytes owned by live reservations, it never wraps and never exceeds the
    largest process limit in use, and a release never hits its fail-safe branch:
    there is always at least as much in the total as is given back. *)
Theorem ledger_total_exact L n g (HL : 0 <= L)
  (Hr : rtc (ledger_step_within L) (ledger_init n) g) :
  lg_total g = total_held (lg_threads g) /\ 0 <= lg_total g <= L /\
  (forall i bytes observed, lg_threads g !! i = Some (LRelease bytes observed) ->
     bytes <= lg_total g /\ release_turn bytes (lg_total g) = lg_total g - bytes).
Proof.
  destruct (ledger_reachable L n g HL Hr) as [[Hsum [? ?] Hp] [Hle _]].
  split; [done|]. split; [lia|]. intros i bytes observed Hi.
  pose proof (total_held_bound _ i _ Hp Hi) as Hb. cbn [holding] in Hb.
  split; [lia|]. apply release_turn_exact; [done|lia].
Qed.

Lemma ledger_total_exact_witness :
  let g := mkLedger 64 [LIdle 64; LReserve 0 64 100 0] in
  lg_total g = total_held (lg_threads g) /\ 0 <= lg_total g <= 100.
Proof.
  intros g. refine (let H := ledger_total_exact 100 2 g _ _ in conj (proj1 H) (proj1 (proj2 H))).
  - done.
  - eapply rtc_l; [split; [by apply (ls_load_reserve 0 _ 0 0 64 100);
      [done|done|done|left]|by repeat constructor]|].
    eapply rtc_l; [split; [by apply (ls_load_reserve 0 _ 1 0 64 100);
      [done|done|done|left]|by repeat constructor]|].
    eapply rtc_l; [split; [by eapply (ls_reserve 0 _ 0 0 64 100)|by repeat constructor]|].
    apply rtc_refl.
Defined.

Lemma reset_exact total held :
  in_range 64 total -> 0 <= held <= total -> reset total held = (0, total - held).
Proof.
  intros Ht Hh. unfold reset, release_bytes.
  destruct (Z.eqb_spec held 0) as [->|]; simpl; [f_equal; lia|].
  by rewrite release_turn_exact by (done || lia).
Qed.

Lemma try_acquire_exact total bytes limit :
  in_range 64 total -> in_range 64 bytes -> in_range 64 limit ->
  try_acquire total bytes limit =
    (if bool_decide (total + bytes <= limit) then (bytes, total + bytes) else (0, total)).
Proof.
  intros. unfold try_acquire, try_reserve. rewrite try_reserve_turn_spec by done.
  by case_bool_decide.
Qed.

Lemma extend_exact total held bytes limit :
  in_range 64 total -> 0 <= held <= total -> in_range 64 bytes -> in_range 64 limit ->
  extend total held bytes limit =
    (if bool_decide (bytes = 0) then (true, held, total)
     else if bool_decide (total + bytes <= limit) then (true, held + bytes, total + bytes)
     else (false, held, total)).
Proof.
  intros. unfold extend, try_reserve, extend_guard, uint64_max.
  rewrite try_reserve_turn_spec by done. unfold in_range in *.
  destruct (Z.eqb_spec bytes 0) as [->|]; [by rewrite bool_decide_eq_true_2|].
  rewrite (bool_decide_eq_false_2 (bytes = 0)) by done.
  rewrite (wrap_small 64 (2 ^ 64 - 1 - bytes)) by (unfold in_range; lia).
  case_bool_decide.
  - rewrite (proj2 (Z.leb_le _ _)) by lia. simpl. by rewrite wrap_small by (unfold in_range; lia).
  - by destruct (held <=? _).
Qed.

(** reserving and giving back is exact on every branch of the owning
    handle: a refused acquire or extend changes nothing, an accepted one adds
    exactly its bytes to the handle and to the total within the limit, and
    resetting returns exactly what the handle held. *)
Theorem reservation_operations_exact total held bytes limit
  (Ht : in_range 64 total) (Hh : 0 <= held <= total) (Hb : in_range 64 bytes)
  (Hl : in_range 64 limit) :
  try_acquire total bytes limit =
    (if bool_decide (total + bytes <= limit) then (bytes, total + bytes) else (0, total)) /\
  extend total held bytes limit =
    (if bool_decide (bytes = 0) then (true, held, total)
     else if bool_decide (total + bytes <= limit) then (true, held + bytes, total + bytes)
     else (false, held, total)) /\
  reset total held = (0, total - held) /\
  (forall other, move_assign total held other = (other, 0, total - held)).
Proof.
  split; [by apply try_acquire_exact|]. split; [by apply extend_exact|].
  split; [by apply reset_exact|]. intros other. unfold move_assign. by rewrite reset_exact.
Qed.

Lemma reservation_operations_exact_witness :
  try_acquire 100 50 200 = (50, 150) /\ extend 100 40 200 200 = (false, 40, 100) /\
  reset 100 40 = (0, 60).
Proof.
  pose proof (reservation_operations_exact 100 40 50 200) as (H1 & _ & H3 & _); [done..|].
  pose proof (reservation_operations_exact 100 40 200 200) as (_ & H2 & _); [done..|].
  rewrite H1, H2, H3. done.
Defined.
