(* ===== verification/Config.v ===== *)
(** * Configuration and the receive plan

    [src/core/config.cpp] with the structures of [include/tango-bulk/publisher.h]
    and [subscriber.h]: what a configuration must satisfy before anything is
    allocated, and how the receive ring a subscription asks for is derived from
    limits, a stream offer, a grant and the pinned-memory budget. *)
From S2P Require Import Prelude Enums Limits ByteOrder Geometry Text Offer PinnedLedger.

(** ** [ReceivePlan] *)

Record ReceivePlan : Type := mkReceivePlan {
  rp_max_frame_bytes : Z;
  rp_ring_depth : Z;
  rp_credit_window : Z;
  rp_pinned_bytes : Z
}.

Definition ReceivePlan_default : ReceivePlan := mkReceivePlan 0 0 0 0.

#[export] Instance ReceivePlan_eq_dec : EqDecision ReceivePlan.
Proof. solve_decision. Defined.

Definition ReceivePlan_validate (p : ReceivePlan) : Status :=
  match checked_bytes (rp_max_frame_bytes p) (rp_ring_depth p) with
  | None => ResourceExhausted
  | Some required_bytes =>
      if (rp_max_frame_bytes p <? k_min_frame_bytes) ||
         (k_max_frame_bytes_hard_cap <? rp_max_frame_bytes p) then FrameTooLarge else
      if (rp_ring_depth p <? k_min_ring_depth) || (k_max_ring_depth <? rp_ring_depth p)
      then DepthTooLarge else
      if (rp_credit_window p =? 0) || (rp_ring_depth p <? rp_credit_window p)
      then DepthTooLarge else
      if negb (rp_pinned_bytes p =? required_bytes) then ResourceExhausted else Ok
  end.

Definition from_limits (max_frame_bytes ring_depth credit_window : Z) : ReceivePlan :=
  mkReceivePlan max_frame_bytes ring_depth credit_window
    (match checked_bytes max_frame_bytes ring_depth with
     | None => uint64_max
     | Some bytes => bytes
     end).

(** [intersect(ReceivePlan, ReceivePlan)]. *)
Definition intersect (upper grant : ReceivePlan) : ReceivePlan :=
  if bool_decide (ReceivePlan_validate upper <> Ok) ||
     bool_decide (ReceivePlan_validate grant <> Ok) then ReceivePlan_default else
  from_limits (Z.min (rp_max_frame_bytes upper) (rp_max_frame_bytes grant))
    (Z.min (rp_ring_depth upper) (rp_ring_depth grant))
    (Z.min (rp_credit_window upper) (rp_credit_window grant)).

(** [intersect(ReceivePlan, Geometry)]. *)
Definition intersect_geometry (upper : ReceivePlan) (grant : Geometry) : ReceivePlan :=
  if bool_decide (ReceivePlan_validate upper <> Ok) ||
     bool_decide (Geometry_validate grant <> Ok) then ReceivePlan_default else
  from_limits (Z.min (rp_max_frame_bytes upper) (geo_max_frame_bytes grant))
    (Z.min (rp_ring_depth upper) (geo_ring_depth grant))
    (Z.min (rp_credit_window upper) (geo_credit_window grant)).

(** [intersect(ReceivePlan, StreamOffer)]. *)
Definition intersect_offer (upper : ReceivePlan) (offer : StreamOffer) : ReceivePlan :=
  if bool_decide (StreamOffer_validate offer <> Ok) then ReceivePlan_default else
  intersect_geometry upper (so_geometry offer).

(** [derive(Geometry, limit)]. *)
Definition derive_geometry (geometry : Geometry) (pinned_memory_limit_bytes : Z) : ReceivePlan :=
  if bool_decide (Geometry_validate geometry <> Ok) then ReceivePlan_default else
  let out := from_limits (geo_max_frame_bytes geometry) (geo_ring_depth geometry)
               (geo_credit_window geometry) in
  if rp_max_frame_bytes out =? 0 then out else
  let budget_depth := pinned_memory_limit_bytes / rp_max_frame_bytes out in
  let ring_depth := u32 (Z.min (rp_ring_depth out) (2 ^ 32 - 1)) in
  let ring_depth := u32 (Z.min ring_depth budget_depth) in
  if ring_depth <? k_min_ring_depth then ReceivePlan_default else
  from_limits (rp_max_frame_bytes out) ring_depth (Z.min (rp_credit_window out) ring_depth).

(** [derive(StreamOffer, limit)]. *)
Definition derive (offer : StreamOffer) (pinned_memory_limit_bytes : Z) : ReceivePlan :=
  if bool_decide (StreamOffer_validate offer <> Ok) then ReceivePlan_default else
  derive_geometry (so_geometry offer) pinned_memory_limit_bytes.

(** ** Configurations *)

(** The copy of the stream-name rule in [config.cpp]. *)
Definition is_valid_stream_name (name : bytes) : bool :=
  if (Z.of_nat (length name) <? k_min_stream_name_bytes) ||
     (k_max_stream_name_bytes <? Z.of_nat (length name)) then false
  else forallb stream_name_char name.

Definition validate_common (stream_name : bytes)
    (max_frame_bytes ring_depth credit_window pinned_memory_limit_bytes : Z) : Status :=
  if negb (is_valid_stream_name stream_name) then MalformedMessage else
  if (max_frame_bytes <? k_min_frame_bytes) || (k_max_frame_bytes_hard_cap <? max_frame_bytes)
  then FrameTooLarge else
  if (ring_depth <? k_min_ring_depth) || (k_max_ring_depth <? ring_depth)
  then DepthTooLarge else
  if (credit_window <? 1) || (ring_depth <? credit_window) then DepthTooLarge else
  if (pinned_memory_limit_bytes <? k_min_pinned_bytes) ||
     (k_max_pinned_bytes <? pinned_memory_limit_bytes) then ResourceExhausted else Ok.

Record PublisherConfig : Type := mkPublisherConfig {
  pc_stream_name : bytes;
  pc_frame_metadata : FrameMetadata;
  pc_max_frame_bytes : Z;
  pc_ring_depth : Z;
  pc_credit_window : Z;
  pc_max_sessions : Z;
  pc_fanout_mode : FanoutMode;
  pc_publish_queue_depth : Z;
  pc_lease_ttl_ms : Z;
  pc_renew_interval_ms : Z;
  pc_max_renewals_per_ttl : Z;
  pc_pinned_memory_limit_bytes : Z;
  pc_ucx_tls : bytes;
  pc_engine_cpu_affinity : Z;
  pc_pad_slot_stride : bool
}.

Definition PublisherConfig_validate (c : PublisherConfig) : Status :=
  let common := validate_common (pc_stream_name c) (pc_max_frame_bytes c) (pc_ring_depth c)
                  (pc_credit_window c) (pc_pinned_memory_limit_bytes c) in
  if bool_decide (common <> Ok) then common else
  let status :=
    if bool_decide (fm_element_type (pc_frame_metadata c) <> ET_Unknown) ||
       negb (fm_rank (pc_frame_metadata c) =? 0)
    then snd (resolve (pc_frame_metadata c) (pc_max_frame_bytes c)) else Ok in
  if bool_decide (status <> Ok) then status else
  if (pc_max_sessions c <? 1) || (k_max_sessions <? pc_max_sessions c) then DepthTooLarge else
  if bool_decide (pc_fanout_mode c <> BestEffort) && bool_decide (pc_fanout_mode c <> AllActive)
  then MalformedMessage else
  if (pc_publish_queue_depth c <? k_min_publish_queue) ||
     (k_max_publish_queue <? pc_publish_queue_depth c) then DepthTooLarge else
  if (pc_lease_ttl_ms c <? k_min_lease_ttl_ms) || (k_max_lease_ttl_ms <? pc_lease_ttl_ms c)
  then MalformedMessage else
  if (pc_renew_interval_ms c <? pc_lease_ttl_ms c / 10) ||
     (pc_lease_ttl_ms c / 2 <? pc_renew_interval_ms c) then RenewTooFrequent else
  if (pc_max_renewals_per_ttl c <? k_min_renewals_per_ttl) ||
     (k_max_renewals_per_ttl <? pc_max_renewals_per_ttl c) then RenewTooFrequent else
  if pc_engine_cpu_affinity c <? -1 then MalformedMessage else Ok.

Inductive DeliveryMode : Type := DM_Push | DM_Pull.
Inductive ReconnectPolicy : Type := RP_FailFast | RP_BoundedRetry.

#[export] Instance DeliveryMode_eq_dec : EqDecision DeliveryMode.
Proof. solve_decision. Defined.
#[export] Instance ReconnectPolicy_eq_dec : EqDecision ReconnectPolicy.
Proof. solve_decision. Defined.

(** [receive_buffer] is the caller's ring, here whether there is one. *)
Record SubscriberConfig : Type := mkSubscriberConfig {
  sc_stream_name : bytes;
  sc_max_frame_bytes : Z;
  sc_ring_depth : Z;
  sc_credit_window : Z;
  sc_delivery_queue_depth : Z;
  sc_delivery_mode : DeliveryMode;
  sc_drop_policy : DropPolicy;
  sc_reconnect_policy : ReconnectPolicy;
  sc_reconnect_max_attempts : Z;
  sc_reconnect_backoff_ms : Z;
  sc_command_timeout_ms : Z;
  sc_establishment_timeout_ms : Z;
  sc_probe_timeout_ms : Z;
  sc_pinned_memory_limit_bytes : Z;
  sc_ucx_tls : bytes;
  sc_engine_cpu_affinity : Z;
  sc_receive_buffer : bool;
  sc_receive_buffer_bytes : Z;
  sc_receive_memory_kind : MemoryKind;
  sc_receive_plan : option ReceivePlan;
  sc_discovery_offer : option StreamOffer
}.

(** [receive_plan.value_or(from_limits(...))]. *)
Definition requested_plan (c : SubscriberConfig) : ReceivePlan :=
  match sc_receive_plan c with
  | Some p => p
  | None => from_limits (sc_max_frame_bytes c) (sc_ring_depth c) (sc_credit_window c)
  end.

Definition upper_receive_plan (c : SubscriberConfig) : ReceivePlan :=
  let upper := requested_plan c in
  let limit := sc_pinned_memory_limit_bytes c in
  match sc_discovery_offer c with
  | Some offer => intersect upper (derive offer limit)
  | None =>
      match sc_receive_plan c with
      | Some _ => upper
      | None =>
          if negb (rp_max_frame_bytes upper =? 0) && (limit <? rp_pinned_bytes upper) then
            let budget_depth := limit / rp_max_frame_bytes upper in
            if budget_depth <? k_min_ring_depth then ReceivePlan_default else
            let upper := from_limits (rp_max_frame_bytes upper)
                           (u32 (Z.min (rp_ring_depth upper) budget_depth))
                           (rp_credit_window upper) in
            mkReceivePlan (rp_max_frame_bytes upper) (rp_ring_depth upper)
              (Z.min (rp_credit_window upper) (rp_ring_depth upper)) (rp_pinned_bytes upper)
          else upper
      end
  end.

(** The two optional inputs, checked before they are used. *)
Definition validate_inputs (c : SubscriberConfig) : Status :=
  let plan_status :=
    match sc_receive_plan c with Some p => ReceivePlan_validate p | None => Ok end in
  if bool_decide (plan_status <> Ok) then plan_status else
  match sc_discovery_offer c with
  | Some o =>
      if bool_decide (so_stream_name o <> sc_stream_name c) then MalformedMessage
      else StreamOffer_validate o
  | None => Ok
  end.

(** The receive buffer against the plan and the budget. *)
Definition validate_buffer (c : SubscriberConfig) (upper : ReceivePlan) : Status :=
  let has := sc_receive_buffer c in
  if negb (Bool.eqb has (negb (sc_receive_buffer_bytes c =? 0))) then MalformedMessage else
  if negb has && bool_decide (sc_receive_memory_kind c <> Host) then MalformedMessage else
  if bool_decide (sc_receive_memory_kind c <> Host) &&
     bool_decide (sc_receive_memory_kind c <> Cuda) &&
     bool_decide (sc_receive_memory_kind c <> Rocm) then MalformedMessage else
  if sc_pinned_memory_limit_bytes c <? rp_pinned_bytes upper then ResourceExhausted else
  if has && (sc_receive_buffer_bytes c <? rp_pinned_bytes upper) then ResourceExhausted else
  if has && (sc_pinned_memory_limit_bytes c <? sc_receive_buffer_bytes c) then ResourceExhausted
  else Ok.

Definition SubscriberConfig_validate (c : SubscriberConfig) : Status :=
  let inputs := validate_inputs c in
  if bool_decide (inputs <> Ok) then inputs else
  let upper := upper_receive_plan c in
  if bool_decide (ReceivePlan_validate (requested_plan c) = Ok) && (rp_max_frame_bytes upper =? 0)
  then ResourceExhausted else
  let common := validate_common (sc_stream_name c) (rp_max_frame_bytes upper)
                  (rp_ring_depth upper) (rp_credit_window upper)
                  (sc_pinned_memory_limit_bytes c) in
  if bool_decide (common <> Ok) then common else
  if (sc_delivery_queue_depth c <? k_min_delivery_queue) ||
     (k_max_delivery_queue <? sc_delivery_queue_depth c) then DepthTooLarge else
  if sc_establishment_timeout_ms c =? 0 then MalformedMessage else
  if (sc_command_timeout_ms c =? 0) || (sc_probe_timeout_ms c =? 0) then MalformedMessage else
  if sc_engine_cpu_affinity c <? -1 then MalformedMessage else
  validate_buffer c upper.

(** ** What validation establishes *)

(** The dimensions of a plan that passes [ReceivePlan::validate]. *)
Record plan_fits (p : ReceivePlan) : Prop := {
  pf_frame : 4096 <= rp_max_frame_bytes p <= 268435456;
  pf_ring : 2 <= rp_ring_depth p <= 1024;
  pf_window : rp_credit_window p <> 0 /\ rp_credit_window p <= rp_ring_depth p;
  pf_bytes : rp_pinned_bytes p = rp_max_frame_bytes p * rp_ring_depth p
}.

Lemma checked_bytes_bounded f d :
  0 <= f <= 268435456 -> 0 <= d <= 1024 -> checked_bytes f d = Some (f * d).
Proof.
  intros Hf Hd. rewrite checked_bytes_exact by (unfold in_range; lia).
  by rewrite bool_decide_eq_true_2 by nia.
Qed.

Lemma ReceivePlan_validate_iff p : ReceivePlan_validate p = Ok <-> plan_fits p.
Proof.
  unfold ReceivePlan_validate. split.
  - destruct (checked_bytes _ _) as [r|] eqn:Hc; [|done]. unfold_limits. intros H. split_guards.
    rewrite checked_bytes_bounded in Hc by lia. simplify_eq. split; lia.
  - intros [? ? ? Hb]. rewrite checked_bytes_bounded by lia. unfold_limits.
    repeat (guard_step; bool_to_prop; try lia); done.
Qed.

Lemma from_limits_fits f d w :
  4096 <= f <= 268435456 -> 2 <= d <= 1024 -> w <> 0 -> w <= d ->
  plan_fits (from_limits f d w) /\ rp_pinned_bytes (from_limits f d w) = f * d.
Proof.
  intros. unfold from_limits. rewrite checked_bytes_bounded by lia. split; [|done].
  by split; simpl; try lia.
Qed.

Lemma Geometry_validate_ok g :
  Geometry_validate g = Ok ->
  4096 <= geo_max_frame_bytes g <= 268435456 /\ 2 <= geo_ring_depth g <= 1024 /\
  geo_credit_window g <> 0 /\ geo_credit_window g <= geo_ring_depth g.
Proof. intros (_ & _ & ? & ? & ? & ? & _)%GeometryBlock_validate_ok. done. Qed.

(** The order of plans: no dimension larger. *)
Definition plan_le (p q : ReceivePlan) : Prop :=
  rp_max_frame_bytes p <= rp_max_frame_bytes q /\ rp_ring_depth p <= rp_ring_depth q /\
  rp_credit_window p <= rp_credit_window q.

Lemma intersect_fits p q :
  plan_fits p -> plan_fits q -> 0 <= rp_credit_window p -> 0 <= rp_credit_window q ->
  plan_fits (intersect p q) /\ plan_le (intersect p q) p /\ plan_le (intersect p q) q /\
  forall r, plan_le r p -> plan_le r q -> plan_le r (intersect p q).
Proof.
  intros Hp Hq Hwp Hwq. unfold intersect.
  rewrite !bool_decide_eq_false_2 by (intros Hn; apply Hn; by apply ReceivePlan_validate_iff).
  destruct Hp as [? ? ? _], Hq as [? ? ? _].
  split; [apply from_limits_fits; lia|]. unfold plan_le. simpl.
  split_all; lia || (unfold plan_le in *; naive_solver lia).
Qed.

Lemma default_plan_invalid : ~ plan_fits ReceivePlan_default.
Proof. intros [? _ _ _]. simpl in *. lia. Qed.

Lemma fits_not_zero p : plan_fits p -> rp_max_frame_bytes p <> 0.
Proof. intros [? _ _ _]. lia. Qed.

(** intersecting two plans gives their greatest lower bound.  The result is
    valid, no dimension exceeds either argument, its byte count is the product
    of its own dimensions, and every plan below both arguments is below it; when
    an argument is invalid the result is the empty plan, which no validation
    accepts. *)
Theorem intersect_is_meet p q (Hp : 0 <= rp_credit_window p) (Hq : 0 <= rp_credit_window q) :
  (ReceivePlan_validate p = Ok -> ReceivePlan_validate q = Ok ->
   ReceivePlan_validate (intersect p q) = Ok /\
   rp_pinned_bytes (intersect p q) =
     rp_max_frame_bytes (intersect p q) * rp_ring_depth (intersect p q) /\
   plan_le (intersect p q) p /\ plan_le (intersect p q) q /\
   (forall r, plan_le r p -> plan_le r q -> plan_le r (intersect p q)) /\
   intersect p q = intersect q p) /\
  (ReceivePlan_validate p <> Ok \/ ReceivePlan_validate q <> Ok ->
   intersect p q = ReceivePlan_default /\ ReceivePlan_validate (intersect p q) <> Ok).
Proof.
  split.
  - intros Hvp Hvq. pose proof Hvp as Hfp. pose proof Hvq as Hfq.
    apply ReceivePlan_validate_iff in Hfp, Hfq.
    destruct (intersect_fits p q) as (Hf & ? & ? & ?); [done..|].
    split; [by apply ReceivePlan_validate_iff|]. split; [apply Hf|]. split; [done|].
    split; [done|]. split; [done|]. unfold intersect.
    rewrite !bool_decide_eq_false_2 by tauto. cbn [orb].
    f_equal; apply Z.min_comm.
  - intros Hn. assert (intersect p q = ReceivePlan_default) as ->; [|done].
    unfold intersect. by destruct Hn; [rewrite bool_decide_eq_true_2 by done|
      rewrite (bool_decide_eq_true_2 (ReceivePlan_validate q <> Ok)), orb_true_r by done].
Qed.

Lemma intersect_is_meet_witness :
  ReceivePlan_validate (intersect (from_limits 8192 16 4) (from_limits 4096 32 8)) = Ok.
Proof.
  apply (intersect_is_meet (from_limits 8192 16 4) (from_limits 4096 32 8)); vm_compute; congruence.
Defined.

Lemma budget_depth_bounds limit f : 0 < f -> 0 <= limit -> f * (limit / f) <= limit < f * (limit / f + 1).
Proof.
  intros Hf Hl. pose proof (Z.div_mod limit f ltac:(lia)).
  pose proof (Z.mod_pos_bound limit f ltac:(lia)). lia.
Qed.

Lemma derive_geometry_spec g limit :
  Geometry_validate g = Ok -> 0 <= geo_credit_window g -> 0 <= limit ->
  let depth := Z.min (geo_ring_depth g) (limit / geo_max_frame_bytes g) in
  derive_geometry g limit =
  if depth <? 2 then ReceivePlan_default
  else from_limits (geo_max_frame_bytes g) depth (Z.min (geo_credit_window g) depth).
Proof.
  intros Hv Hw Hl depth. pose proof (Geometry_validate_ok g Hv) as (Hf & Hr & _ & _).
  unfold derive_geometry. rewrite bool_decide_eq_false_2 by tauto. cbn [from_limits
    rp_max_frame_bytes rp_ring_depth rp_credit_window].
  destruct (Z.eqb_spec (geo_max_frame_bytes g) 0); [lia|].
  assert (0 <= limit / geo_max_frame_bytes g) by (apply Z.div_pos; lia).
  rewrite (wrap_small 32 (Z.min _ (2 ^ 32 - 1))) by (unfold in_range; lia).
  replace (Z.min (geo_ring_depth g) (2 ^ 32 - 1)) with (geo_ring_depth g) by lia.
  rewrite wrap_small by (unfold in_range; lia). done.
Qed.

(** a plan derived from a geometry fits the budget and wastes none of it.
    When the budget holds two frames the plan is valid, keeps the frame size,
    pins at most the budget, and has the largest ring that both the publisher
    and the budget allow; when it does not, the plan is the empty one. *)
Theorem derived_plan_fits_budget g limit
  (Hv : Geometry_validate g = Ok) (Hw : 0 <= geo_credit_window g) (Hl : 0 <= limit) :
  let p := derive_geometry g limit in
  if limit <? 2 * geo_max_frame_bytes g then p = ReceivePlan_default else
  ReceivePlan_validate p = Ok /\ rp_max_frame_bytes p = geo_max_frame_bytes g /\
  rp_pinned_bytes p <= limit /\ rp_ring_depth p <= geo_ring_depth g /\
  rp_credit_window p = Z.min (geo_credit_window g) (rp_ring_depth p) /\
  (rp_ring_depth p = geo_ring_depth g \/ limit < rp_pinned_bytes p + rp_max_frame_bytes p).
Proof.
  intros p. subst p. rewrite (derive_geometry_spec g limit) by done.
  pose proof (Geometry_validate_ok g Hv) as (Hf & Hr & Hw0 & Hwr).
  pose proof (budget_depth_bounds limit (geo_max_frame_bytes g) ltac:(lia) Hl) as [Hb Hb'].
  set (d := limit / geo_max_frame_bytes g) in *.
  destruct (Z.ltb_spec limit (2 * geo_max_frame_bytes g)) as [Hlt|Hge].
  { destruct (Z.ltb_spec (Z.min (geo_ring_depth g) d) 2); [done|nia]. }
  assert (2 <= d) by nia. destruct (Z.ltb_spec (Z.min (geo_ring_depth g) d) 2); [lia|].
  destruct (from_limits_fits (geo_max_frame_bytes g) (Z.min (geo_ring_depth g) d)
    (Z.min (geo_credit_window g) (Z.min (geo_ring_depth g) d))) as [Hfit Hpin]; [lia..|].
  rewrite Hpin. cbn [from_limits rp_max_frame_bytes rp_ring_depth rp_credit_window].
  split; [by apply ReceivePlan_validate_iff|]. split_all; [done|nia|lia|lia|].
  destruct (Z.le_gt_cases (geo_ring_depth g) d); [left; lia|right].
  rewrite Z.min_r by lia. lia.
Qed.

Lemma derived_plan_fits_budget_witness :
  Geometry_validate example_geometry = Ok /\
  ReceivePlan_validate (derive_geometry example_geometry (2 ^ 24)) = Ok.
Proof.
  assert (Geometry_validate example_geometry = Ok) as Hv by reflexivity. split; [exact Hv|].
  pose proof (derived_plan_fits_budget example_geometry (2 ^ 24) Hv) as H.
  vm_compute in H. vm_compute. apply H; discriminate.
Defined.

(** ** Subscriber configurations *)

Lemma is_valid_stream_name_same name : is_valid_stream_name name = valid_stream_name name.
Proof. done. Qed.

Lemma validate_common_ok name f d w limit :
  validate_common name f d w limit = Ok ->
  valid_stream_name name = true /\ 4096 <= f <= 268435456 /\ 2 <= d <= 1024 /\ 1 <= w <= d /\
  2 ^ 24 <= limit <= 2 ^ 36.
Proof.
  unfold validate_common. rewrite is_valid_stream_name_same. unfold_limits. simpl Z.shiftl.
  intros H. split_guards. split_all; done || lia.
Qed.

(** What the configured inputs ask for, before any reduction. *)
Definition config_typed (c : SubscriberConfig) : Prop :=
  in_range 64 (sc_max_frame_bytes c) /\ in_range 32 (sc_ring_depth c) /\
  in_range 32 (sc_credit_window c) /\ in_range 64 (sc_pinned_memory_limit_bytes c) /\
  (forall p, sc_receive_plan c = Some p -> 0 <= rp_credit_window p) /\
  (forall o, sc_discovery_offer c = Some o -> 0 <= geo_credit_window (so_geometry o)).

(** The reduction of the request to the budget when nothing else is known. *)
Lemma upper_from_budget c :
  config_typed c -> sc_discovery_offer c = None -> sc_receive_plan c = None ->
  rp_max_frame_bytes (upper_receive_plan c) <> 0 ->
  let u := upper_receive_plan c in
  plan_le u (requested_plan c) /\
  (4096 <= rp_max_frame_bytes u <= 268435456 -> 2 <= rp_ring_depth u <= 1024 ->
   rp_pinned_bytes u = rp_max_frame_bytes u * rp_ring_depth u).
Proof.
  intros (Hf & Hd & Hw & Hl & _) Ho Hp. unfold upper_receive_plan, requested_plan, in_range in *.
  rewrite Ho, Hp. guard_step; bool_to_prop; cbn [from_limits rp_max_frame_bytes rp_pinned_bytes
    rp_ring_depth rp_credit_window] in *.
  - destruct (_ / _ <? k_min_ring_depth) eqn:Hk; [done|]. unfold_limits. bool_to_prop.
    cbn [from_limits rp_max_frame_bytes rp_pinned_bytes rp_ring_depth rp_credit_window].
    rewrite wrap_small by (unfold in_range; lia). intros _. unfold plan_le. simpl.
    split; [lia|]. intros ? ?. by rewrite checked_bytes_bounded by lia.
  - intros _. split; [unfold plan_le; simpl; lia|]. intros ? ?.
    by rewrite checked_bytes_bounded by lia.
Qed.

Definition plan_le_geometry (p : ReceivePlan) (g : Geometry) : Prop :=
  rp_max_frame_bytes p <= geo_max_frame_bytes g /\ rp_ring_depth p <= geo_ring_depth g /\
  rp_credit_window p <= geo_credit_window g.

Lemma intersect_valid p q :
  rp_max_frame_bytes (intersect p q) <> 0 -> plan_fits p /\ plan_fits q.
Proof.
  unfold intersect. rewrite <-!ReceivePlan_validate_iff.
  by repeat case_bool_decide.
Qed.

Lemma derive_below o limit :
  0 <= limit -> 0 <= geo_credit_window (so_geometry o) -> plan_fits (derive o limit) ->
  plan_le_geometry (derive o limit) (so_geometry o) /\ 0 <= rp_credit_window (derive o limit).
Proof.
  intros Hl Hw. unfold derive.
  destruct (bool_decide (StreamOffer_validate o <> Ok)); [by intros ?%default_plan_invalid|].
  destruct (decide (Geometry_validate (so_geometry o) = Ok)) as [Hv|Hv].
  - rewrite derive_geometry_spec by done.
    destruct (Z.ltb_spec (Z.min (geo_ring_depth (so_geometry o))
      (limit / geo_max_frame_bytes (so_geometry o))) 2); [by intros ?%default_plan_invalid|].
    intros _. unfold plan_le_geometry. simpl. lia.
  - unfold derive_geometry. rewrite bool_decide_eq_true_2 by done. by intros ?%default_plan_invalid.
Qed.

(** The upper plan never exceeds the request or the offer it was reduced by, and
    its byte count is exact whenever its dimensions are in range. *)
Lemma upper_plan_reduced c :
  config_typed c -> validate_inputs c = Ok -> rp_max_frame_bytes (upper_receive_plan c) <> 0 ->
  let u := upper_receive_plan c in
  plan_le u (requested_plan c) /\
  (forall o, sc_discovery_offer c = Some o -> plan_le_geometry u (so_geometry o)) /\
  (4096 <= rp_max_frame_bytes u <= 268435456 -> 2 <= rp_ring_depth u <= 1024 ->
   rp_pinned_bytes u = rp_max_frame_bytes u * rp_ring_depth u).
Proof.
  intros Hty Hin Hnz u. pose proof Hty as (_ & _ & Hcw & Hl & Hp & Ho). unfold in_range in *.
  destruct (sc_discovery_offer c) as [o|] eqn:Hoff.
  - assert (u = intersect (requested_plan c) (derive o (sc_pinned_memory_limit_bytes c))) as Hu
      by (subst u; unfold upper_receive_plan; by rewrite Hoff).
    fold u in Hnz. rewrite Hu in Hnz. destruct (intersect_valid _ _ Hnz) as [Hr Hd].
    destruct (derive_below o (sc_pinned_memory_limit_bytes c)) as [(? & ? & ?) ?];
      [lia|by apply Ho|done|].
    assert (0 <= rp_credit_window (requested_plan c)).
    { unfold requested_plan. destruct (sc_receive_plan c); [by apply Hp|simpl; lia]. }
    destruct (intersect_fits _ _ Hr Hd) as (Hfit & Hle1 & (? & ? & ?) & _); [done..|].
    rewrite <-Hu in *. split; [done|]. split; [|intros _ _; apply Hfit].
    intros o' [= <-]. unfold plan_le_geometry. lia.
  - destruct (sc_receive_plan c) as [p|] eqn:Hplan.
    + assert (u = p) as -> by (subst u; unfold upper_receive_plan, requested_plan; by rewrite Hoff, Hplan).
      unfold requested_plan. rewrite Hplan. split; [unfold plan_le; lia|]. split; [done|].
      unfold validate_inputs in Hin. rewrite Hplan in Hin.
      case_bool_decide as Hv; [by rewrite Hin in Hv|].
      apply ReceivePlan_validate_iff in Hv. intros _ _. apply Hv.
    + by destruct (upper_from_budget c).
Qed.

(** a subscriber configuration that validates has a receive plan that can be
    prepared as it stands: the plan is itself valid and within the budget, it
    never asks for more than the configuration or the discovered offer, and a
    caller's buffer holds it.  Nothing is reduced silently below two frames: a
    valid request the budget cannot hold is reported as [ResourceExhausted]. *)
Theorem valid_subscriber_config_plan c (Hty : config_typed c) :
  (SubscriberConfig_validate c = Ok ->
   let u := upper_receive_plan c in
   ReceivePlan_validate u = Ok /\ rp_pinned_bytes u <= sc_pinned_memory_limit_bytes c /\
   plan_le u (requested_plan c) /\
   (forall o, sc_discovery_offer c = Some o ->
      so_stream_name o = sc_stream_name c /\ plan_le_geometry u (so_geometry o)) /\
   (sc_receive_buffer c = true ->
      rp_pinned_bytes u <= sc_receive_buffer_bytes c <= sc_pinned_memory_limit_bytes c) /\
   (sc_receive_buffer c = false -> sc_receive_memory_kind c = Host) /\
   valid_stream_name (sc_stream_name c) = true) /\
  (validate_inputs c = Ok -> sc_discovery_offer c = None -> sc_receive_plan c = None ->
   ReceivePlan_validate (requested_plan c) = Ok ->
   sc_pinned_memory_limit_bytes c < 2 * sc_max_frame_bytes c ->
   SubscriberConfig_validate c = ResourceExhausted).
Proof.
  split.
  - intros Hok u. unfold SubscriberConfig_validate in Hok.
    case_bool_decide as Hi; [by rewrite Hok in Hi|].
    destruct (_ && _); [done|]. case_bool_decide as Hc; [by rewrite Hok in Hc|].
    apply validate_common_ok in Hc as (Hname & Hf & Hd & Hw & _). fold u in Hf, Hd, Hw, Hok.
    destruct (upper_plan_reduced c Hty Hi) as (Hle & Hoff & Hpin); [unfold u in Hf; lia|].
    fold u in Hle, Hoff, Hpin. specialize (Hpin Hf Hd).
    repeat match type of Hok with (if ?b then _ else _) = _ => destruct b eqn:?; [done|] end.
    unfold validate_buffer in Hok.
    repeat match type of Hok with (if ?b then _ else _) = _ => destruct b eqn:?; [done|] end.
    split; [apply ReceivePlan_validate_iff; split; lia|].
    split; [bool_to_prop; lia|]. split; [done|]. split.
    { intros o Ho. split; [|by apply Hoff]. unfold validate_inputs in Hi. rewrite Ho in Hi.
      case_bool_decide; [done|]. by case_bool_decide. }
    split; [intros Hb; rewrite Hb in *; simpl in *; bool_to_prop; lia|].
    split; [|done]. intros Hb. rewrite Hb in *. simpl in *. bool_to_prop. by apply dec_stable.
  - intros Hi Ho Hp Hr Hlim. unfold SubscriberConfig_validate. rewrite Hi.
    rewrite bool_decide_eq_false_2 by tauto. rewrite (bool_decide_eq_true_2 _ Hr).
    assert (rp_max_frame_bytes (upper_receive_plan c) = 0) as ->; [|done].
    apply ReceivePlan_validate_iff in Hr as [Hf Hd Hw Hb].
    unfold upper_receive_plan. rewrite Ho, Hp.
    unfold requested_plan in *. rewrite Hp in *. cbn [from_limits rp_max_frame_bytes
      rp_pinned_bytes rp_ring_depth rp_credit_window] in *. rewrite Hb.
    rewrite (proj2 (Z.eqb_neq _ _)) by lia. rewrite (proj2 (Z.ltb_lt _ _)) by nia. cbn [negb andb].
    assert (sc_pinned_memory_limit_bytes c / sc_max_frame_bytes c < 2)
      by (apply Z.div_lt_upper_bound; lia).
    guard_step; [done|]. unfold_limits. bool_to_prop. lia.
Qed.

Definition sample_config : SubscriberConfig :=
  mkSubscriberConfig (str "camera") 65536 32 16 64 DM_Push DropNewest RP_BoundedRetry 10 500 5000
    30000 5000 (2 ^ 24) [] (-1) false 0 Host None (Some (mkStreamOffer 1 (str "camera")
      example_geometry 10 Ok [])).

Lemma sample_config_typed : config_typed sample_config.
Proof.
  unfold config_typed, in_range. cbn [sample_config sc_max_frame_bytes sc_ring_depth sc_credit_window
    sc_pinned_memory_limit_bytes sc_receive_plan sc_discovery_offer].
  split; [lia|]. split; [lia|]. split; [lia|]. split; [lia|].
  split; [intros p Hp; discriminate Hp|]. intros o [= <-]. simpl. lia.
Qed.

Lemma valid_subscriber_config_plan_witness :
  SubscriberConfig_validate sample_config = Ok /\
  ReceivePlan_validate (upper_receive_plan sample_config) = Ok.
Proof.
  assert (SubscriberConfig_validate sample_config = Ok) as Hv by reflexivity.
  split; [exact Hv|].
  exact (proj1 (proj1 (valid_subscriber_config_plan sample_config sample_config_typed) Hv)).
Defined.
