(* ===== verification/ClientSession.v ===== *)
(** * The wire session of a subscription

    [Subscription::Impl::SessionState] of [src/core/subscription.cpp]: the requests
    a client sends and what it adopts from the replies, [backoff_delay] and
    [accumulate].  [Subscription.v] has the life cycle built on them. *)
From Stdlib Require Import Init.Byte.
From stdpp Require Import list.
From S2P Require Import Prelude Enums Limits ByteOrder Geometry Text Protocol ProtocolSafety.
From S2P Require Import ProtocolRoundtrip Dispatch Offer Config.
#[local] Open Scope Z_scope.

Record ClientSession : Type := mkClientSession {
  cs_session_id : SessionId;
  cs_stream_id : Z;
  cs_server_address : bytes;
  cs_granted : GeometryBlock;
  cs_lease_ttl_ms : Z;
  cs_renew_interval_ms : Z
}.

Definition ClientSession_default : ClientSession :=
  mkClientSession (replicate 16 x00) 0 [] GeometryBlock_default 0 0.

(** ** Requests *)

(** [instance] is the generated [client_instance_id]. *)
Definition make_open_request (c : SubscriberConfig) (address : bytes) (correlation_id : Z)
    (instance : bytes) : throws bytes :=
  let upper := from_limits (sc_max_frame_bytes c) (sc_ring_depth c) (sc_credit_window c) in
  encode_OpenRequest
    (mkOpenRequest k_version_major k_version_major (Z.lor k_caps_credit_coalescing k_caps_probe)
       instance (rp_max_frame_bytes upper) (rp_ring_depth upper) (rp_credit_window upper)
       (sc_receive_memory_kind c) ActiveMessage (sc_drop_policy c) (sc_stream_name c) address)
    correlation_id.

Definition make_renew_request (x : ClientSession) (correlation_id frames_delivered credits_returned
    client_state : Z) : throws bytes :=
  encode_RenewRequest
    (mkRenewRequest (cs_session_id x) frames_delivered credits_returned client_state) correlation_id.

Definition make_close_request (x : ClientSession) (correlation_id : Z) : throws bytes :=
  encode_CloseRequest (mkCloseRequest (cs_session_id x) ClientShutdown) correlation_id.

(** ** Replies *)

(** How each of the three [adopt] functions begins: [Some status] when it returns
    there, [None] when it goes on to decode the reply it expects. *)
Definition reply_status (data : bytes) (expected_correlation : Z) : result (option Status) :=
  match decode_envelope data Envelope_default with
  | (_, Fault) => Fault
  | (_, Err _) => Val (Some MalformedMessage)
  | (envelope, Val _) =>
      if negb (env_correlation_id envelope =? expected_correlation) then Val (Some MalformedMessage) else
      if bool_decide (env_msg_type envelope = CT_Error) then
        match decode_ErrorMessage data with
        | Val (error, _) => Val (Some (em_status error))
        | Err _ => Val (Some MalformedMessage)
        | Fault => Fault
        end
      else Val None
  end.

Definition adopt_open_reply (x : ClientSession) (data : bytes) (c : SubscriberConfig)
    (expected_correlation : Z) : result (Status * ClientSession) :=
  let! early := reply_status data expected_correlation in
  match early with
  | Some status => Val (status, x)
  | None =>
      match decode_OpenReply data with
      | Fault => Fault
      | Err _ => Val (MalformedMessage, x)
      | Val (reply, _) =>
          let g := or_geometry reply in
          if bool_decide (or_status reply <> Ok) then Val (or_status reply, x) else
          if bool_decide (GeometryBlock_validate g <> Ok) then Val (GeometryMismatch, x) else
          if (sc_max_frame_bytes c <? gb_max_frame_bytes g) || (sc_ring_depth c <? gb_ring_depth g) ||
             (sc_credit_window c <? gb_credit_window g) then Val (GeometryMismatch, x) else
          Val (Ok, mkClientSession (or_session_id reply) (or_stream_id reply)
                     (or_server_ucx_address reply) g (or_lease_ttl_ms reply)
                     (or_renew_interval_ms reply))
      end
  end.

Record RenewOutcome : Type := mkRenewOutcome { ro_status : Status; ro_session_lost : bool }.

Definition adopt_renew_reply (x : ClientSession) (data : bytes) (expected_correlation : Z)
    : result (RenewOutcome * ClientSession) :=
  let! early := reply_status data expected_correlation in
  match early with
  | Some status => Val (mkRenewOutcome status false, x)
  | None =>
      match decode_RenewReply data with
      | Fault => Fault
      | Err _ => Val (mkRenewOutcome MalformedMessage false, x)
      | Val (reply, _) =>
          if bool_decide (nr_session_id reply <> cs_session_id x)
          then Val (mkRenewOutcome MalformedMessage false, x) else
          if bool_decide (nr_status reply <> Ok)
          then Val (mkRenewOutcome (nr_status reply)
                      (bool_decide (nr_status reply <> RenewTooFrequent)), x) else
          Val (mkRenewOutcome Ok false,
               mkClientSession (cs_session_id x) (cs_stream_id x) (cs_server_address x)
                 (cs_granted x) (nr_lease_ttl_ms reply) (nr_renew_interval_ms reply))
      end
  end.

Definition adopt_close_reply (x : ClientSession) (data : bytes) (expected_correlation : Z)
    : result Status :=
  let! early := reply_status data expected_correlation in
  match early with
  | Some status => Val status
  | None =>
      match decode_CloseReply data with
      | Fault => Fault
      | Err _ => Val MalformedMessage
      | Val (reply, _) =>
          Val (if bool_decide (cr_session_id reply <> cs_session_id x) then MalformedMessage
               else cr_status reply)
      end
  end.

(** ** Backing off *)

Fixpoint backoff_loop (attempt : nat) (delay lease_ttl_ms : Z) : Z :=
  match attempt with
  | O => delay
  | S attempt =>
      if delay <? lease_ttl_ms then backoff_loop attempt (u64 (delay * 2)) lease_ttl_ms else delay
  end.

Definition backoff_delay (attempt backoff_ms lease_ttl_ms : Z) : Z :=
  Z.min (backoff_loop (Z.to_nat attempt) backoff_ms lease_ttl_ms) (Z.max lease_ttl_ms 1).

(** ** Counters *)

(** The fields of [SubscriberCounters]. *)
Inductive scounter : Type :=
| SC_frames_received | SC_frames_delivered | SC_frames_dropped_queue_full
| SC_frames_dropped_stale_epoch | SC_frames_dropped_bad_header | SC_frames_dropped_oversize
| SC_frames_dropped_duplicate_seq | SC_frames_dropped_geometry_mismatch
| SC_credits_returned | SC_credit_messages_sent | SC_views_outstanding
| SC_delivery_queue_depth | SC_delivery_queue_high_water | SC_sessions_opened | SC_reconnects
| SC_renewals_sent | SC_renewals_failed | SC_geometry_changes | SC_transport_errors
| SC_pinned_bytes.

Definition SubscriberCounters : Type := scounter -> Z.
Definition SubscriberCounters_default : SubscriberCounters := fun _ => 0.

Definition accumulate (total part : SubscriberCounters) : SubscriberCounters :=
  fun k =>
    match k with
    | SC_frames_received | SC_frames_dropped_stale_epoch | SC_frames_dropped_bad_header
    | SC_frames_dropped_oversize | SC_frames_dropped_duplicate_seq
    | SC_frames_dropped_geometry_mismatch | SC_credits_returned | SC_credit_messages_sent
    | SC_sessions_opened | SC_geometry_changes | SC_transport_errors => u64 (total k + part k)
    | SC_views_outstanding | SC_pinned_bytes => part k
    | _ => total k
    end.

(** ** Theorems *)

Lemma backoff_loop_closed n delay ttl :
  0 <= delay < 2 ^ 32 -> 0 <= ttl < 2 ^ 32 ->
  Z.min (backoff_loop n delay ttl) (Z.max ttl 1) = Z.min (delay * 2 ^ Z.of_nat n) (Z.max ttl 1).
Proof.
  intros Hd Ht. revert delay Hd. induction n as [|n IH]; intros delay Hd; [by rewrite Z.mul_1_r|].
  cbn [backoff_loop]. rewrite Nat2Z.inj_succ, Z.pow_succ_r by lia.
  assert (1 <= 2 ^ Z.of_nat n) by (assert (0 < 2 ^ Z.of_nat n) by (by apply Z.pow_pos_nonneg; lia); lia).
  destruct (Z.ltb_spec delay ttl).
  - rewrite wrap_small by (unfold in_range; lia).
    destruct (Z.ltb_spec (delay * 2) ttl).
    + rewrite IH by lia. f_equal. lia.
    + assert (backoff_loop n (delay * 2) ttl = delay * 2) as ->.
      { destruct n; [done|]. cbn [backoff_loop]. by rewrite (proj2 (Z.ltb_ge _ _)). }
      nia.
  - nia.
Qed.

(** the loop that doubles the delay is the closed form: [backoff_ms] times two
    to the attempt, capped at the lease period and never capped below 1 ms; no
    doubling overflows, for any attempt number. *)
Theorem backoff_delay_closed_form attempt backoff_ms lease_ttl_ms
  (Ha : 0 <= attempt) (Hb : in_range 32 backoff_ms) (Ht : in_range 32 lease_ttl_ms) :
  backoff_delay attempt backoff_ms lease_ttl_ms =
  Z.min (backoff_ms * 2 ^ attempt) (Z.max lease_ttl_ms 1).
Proof.
  unfold backoff_delay. rewrite backoff_loop_closed by done. by rewrite Z2Nat.id.
Qed.

Lemma backoff_delay_closed_form_witness :
  backoff_delay 9 500 10000 = Z.min (500 * 2 ^ 9) (Z.max 10000 1).
Proof. by apply (backoff_delay_closed_form 9 500 10000). Defined.

(** What the reply's envelope decides before the reply is decoded. *)
Definition errored (data : bytes) (correlation : Z) (status : Status) : Prop :=
  exists error env, decode_ErrorMessage data = Val (error, env) /\
    env_correlation_id env = correlation /\ em_status error = status.

Lemma reply_status_spec data correlation :
  match reply_status data correlation with
  | Val (Some status) => status <> Ok \/ errored data correlation status
  | Val None => forall t env body, open_message data t = Val (env, body) -> env_correlation_id env = correlation
  | _ => False
  end.
Proof.
  unfold reply_status.
  destruct (decode_envelope_cases data) as [(env & body & -> & _ & _ & Hopen)|(env & st & -> & _)]; [|by left].
  destruct (Z.eqb_spec (env_correlation_id env) correlation) as [Hc|Hc]; simpl; [|by left].
  assert (forall t env' body', open_message data t = Val (env', body') -> env_correlation_id env' = correlation) as Hall.
  { intros t env' body' Ht. rewrite Hopen in Ht. by case_bool_decide; simplify_eq. }
  case_bool_decide; [|done]. destruct (decode_ErrorMessage_spec data) as [Hsafe _].
  destruct (decode_ErrorMessage data) as [[e env']|st|] eqn:He; [|by left|done].
  right. destruct (proj2 (proj2 (proj2 (decoded_replies_opened data))) e env' He) as [b Hb].
  exists e, env'. split; [done|]. split; [by eapply Hall|done].
Qed.

Definition granted_within (c : SubscriberConfig) (g : GeometryBlock) : Prop :=
  gb_max_frame_bytes g <= sc_max_frame_bytes c /\ gb_ring_depth g <= sc_ring_depth c /\
  gb_credit_window g <= sc_credit_window c /\ gb_credit_window g <= gb_ring_depth g /\ 1 <= gb_credit_window g.

(** [x] became [x'] by adopting an [OpenReply] that answers [correlation]. *)
Definition adopted_open (data : bytes) (c : SubscriberConfig) (correlation : Z) (x' : ClientSession) : Prop :=
  exists reply env, decode_OpenReply data = Val (reply, env) /\ env_correlation_id env = correlation /\
    or_status reply = Ok /\ x' = mkClientSession (or_session_id reply) (or_stream_id reply)
      (or_server_ucx_address reply) (or_geometry reply) (or_lease_ttl_ms reply) (or_renew_interval_ms reply) /\
    GeometryBlock_validate (or_geometry reply) = Ok /\ granted_within c (or_geometry reply).

Definition adopted_renew (data : bytes) (correlation : Z) (x x' : ClientSession) : Prop :=
  exists reply env, decode_RenewReply data = Val (reply, env) /\ env_correlation_id env = correlation /\
    nr_session_id reply = cs_session_id x /\ nr_status reply = Ok /\
    x' = mkClientSession (cs_session_id x) (cs_stream_id x) (cs_server_address x) (cs_granted x)
      (nr_lease_ttl_ms reply) (nr_renew_interval_ms reply).

Lemma GeometryBlock_window g :
  GeometryBlock_validate g = Ok -> gb_credit_window g <= gb_ring_depth g /\ gb_credit_window g <> 0.
Proof.
  unfold GeometryBlock_validate. intros Hv. destruct (_ =? 0); [done|].
  match type of Hv with context [bool_decide (?st <> Ok)] =>
    destruct (bool_decide_reflect (st <> Ok)) as [Hs|_]; [by rewrite Hv in Hs|] end.
  do 2 (match type of Hv with (if ?b then _ else _) = _ => destruct b; [done|] end).
  destruct ((gb_credit_window g =? 0) || (gb_ring_depth g <? gb_credit_window g)) eqn:Hw; [done|].
  bool_to_prop. lia.
Qed.

Lemma adopt_open_spec x data c correlation :
  exists st x', adopt_open_reply x data c correlation = Val (st, x') /\
    (st = Ok /\ adopted_open data c correlation x' \/
     x' = x /\ (st <> Ok \/ errored data correlation st)).
Proof.
  unfold adopt_open_reply. pose proof (reply_status_spec data correlation) as Hs.
  destruct (reply_status data correlation) as [[st|]|e|]; [|simpl|done|done].
  { exists st, x. split; [done|]. by right. }
  destruct (decode_OpenReply_spec data) as [Hsafe Hspec].
  destruct (decode_OpenReply data) as [[reply env]|st|] eqn:Hd; [|by eauto 10|done].
  case_bool_decide as Hst; [by eauto 10|].
  case_bool_decide as Hv; [by eauto 10|].
  destruct (_ || _ || _) eqn:Hb; [by eauto 10|]. eexists _, _. split; [done|]. left. split; [done|].
  destruct (proj1 (decoded_replies_opened data) reply env Hd) as [body Hopen].
  exists reply, env. split; [done|]. split; [by eapply Hs|]. do 3 (split; [done|]).
  destruct (GeometryBlock_window _ Hv) as [Hw Hw0].
  destruct (Hspec reply env eq_refl) as [(_ & _ & _ & _ & _ & _ & _ & _ & _ & (_ & _ & _ & _ & _ & _ & [Hr _] & _) & _) _].
  bool_to_prop. unfold granted_within. lia.
Qed.

Lemma adopt_renew_spec x data correlation :
  exists o x', adopt_renew_reply x data correlation = Val (o, x') /\
    (ro_status o = Ok /\ adopted_renew data correlation x x' \/
     x' = x /\ (ro_status o <> Ok \/ errored data correlation (ro_status o))) /\
    (ro_session_lost o = true -> ro_status o <> Ok /\ ro_status o <> RenewTooFrequent).
Proof.
  unfold adopt_renew_reply. pose proof (reply_status_spec data correlation) as Hs.
  destruct (reply_status data correlation) as [[st|]|e|]; [|simpl|done|done].
  { eexists _, x. split; [done|]. split; [by right|done]. }
  destruct (decode_RenewReply_spec data) as [Hsafe _].
  destruct (decode_RenewReply data) as [[reply env]|st|] eqn:Hd; [|eexists _, _; split; [done|]; simpl; by auto|done].
  case_bool_decide as Hid; [eexists _, _; split; [done|]; simpl; by auto|].
  case_bool_decide as Hst.
  { eexists _, _. split; [done|]. simpl. split; [by auto|]. case_bool_decide; by auto. }
  eexists _, _. split; [done|]. split; [|done]. left. split; [done|].
  destruct (proj1 (proj2 (decoded_replies_opened data)) reply env Hd) as [body Hopen].
  exists reply, env. do 2 (split; [done || by eapply Hs|]). done.
Qed.

Lemma adopt_close_total x data correlation : exists st, adopt_close_reply x data correlation = Val st.
Proof.
  unfold adopt_close_reply. pose proof (reply_status_spec data correlation) as Hs.
  destruct (reply_status data correlation) as [[st|]|e|]; [by eexists|simpl|done|done].
  destruct (decode_CloseReply_spec data) as [Hsafe _].
  destruct (decode_CloseReply data) as [[reply env]|st|]; by eauto.
Qed.

(** whatever bytes come back from the device, a client reads none outside
    them, and it only adopts a reply that answers its own request: an [OpenReply]
    with its correlation whose geometry is valid and no larger than what was asked
    for, or a [RenewReply] for its own session, which changes only the lease
    times.  Everything else leaves the session as it was and is reported, except
    an [Error] whose status says [Ok]. *)
Theorem replies_adopted_soundly x data c correlation :
  (exists st x', adopt_open_reply x data c correlation = Val (st, x') /\
    (st = Ok /\ adopted_open data c correlation x' \/
     x' = x /\ (st <> Ok \/ errored data correlation st))) /\
  (exists o x', adopt_renew_reply x data correlation = Val (o, x') /\
    (ro_status o = Ok /\ adopted_renew data correlation x x' \/
     x' = x /\ (ro_status o <> Ok \/ errored data correlation (ro_status o)))) /\
  exists st, adopt_close_reply x data correlation = Val st.
Proof.
  split; [apply adopt_open_spec|]. split; [|apply adopt_close_total].
  destruct (adopt_renew_spec x data correlation) as (o & x' & Ho & Hcases & _). eauto.
Qed.

(** an [Error] reply whose status is [Ok] counts as success.  [adopt_open_reply]
    returns the status of an [Error] message as it is, so a device that answers
    [Error{Ok}] opens a session with no identifier and an empty geometry, which
    [GeometryBlock::validate] would have refused. *)
Theorem error_ok_opens_empty_session c :
  match encode_ErrorMessage (mkErrorMessage Ok []) 7 with
  | Val data => adopt_open_reply ClientSession_default data c 7 = Val (Ok, ClientSession_default) /\
      GeometryBlock_validate (cs_granted ClientSession_default) <> Ok
  | _ => False
  end.
Proof. vm_compute. done. Qed.
