(* ===== verification/BoundedQueue.v ===== *)
(** * The bounded multi-producer multi-consumer queue

    [src/core/bounded_queue.h].  A turn of each loop is one definition; it is
    run by the sequential operations, shown to refine a bounded FIFO, and by a
    step relation in which any number of producers and consumers interleave at
    every load, compare-and-swap and store.  The queue works for two cells or
    more; the last theorem shows what happens with one. *)
From stdpp Require Import list relations.
From S2P Require Import Prelude.
#[local] Open Scope Z_scope.

(** ** Definitions *)

Section Queue.
Context {T : Type} (T0 : T).

Record Cell : Type := mkCell { cell_sequence : Z; cell_data : T }.

Record BoundedQueue : Type := mkBoundedQueue {
  bq_buffer : list Cell;
  bq_mask : Z;
  bq_enqueue_pos : Z;
  bq_dequeue_pos : Z;
  bq_size : Z
}.

(** [while(p < n) p <<= 1]: sixty-four doublings cover every [n] a 64-bit size
    allows below [2 ^ 63]. *)
Fixpoint round_up_loop (fuel : nat) (p n : Z) : Z :=
  match fuel with
  | O => p
  | S fuel => if p <? n then round_up_loop fuel (u64 (Z.shiftl p 1)) n else p
  end.
Definition round_up_pow2 (n : Z) : Z := round_up_loop 64 1 n.

(** The constructor. *)
Definition BoundedQueue_new (capacity : Z) : BoundedQueue :=
  let size := round_up_pow2 capacity in
  mkBoundedQueue ((fun i => mkCell i T0) <$> seqZ 0 size) (u64 (size - 1)) 0 0 0.

(** [static_cast<std::intptr_t>]. *)
Definition signed64 (z : Z) : Z := if z <? 2 ^ 63 then z else z - 2 ^ 64.

Definition index_of (mask pos : Z) : nat := Z.to_nat (Z.land pos mask).

(** What a turn decides from the cell's sequence and the position it expects. *)
Inductive turn : Type := Claim | Refuse | Reload.

Definition decide_turn (seq expected : Z) : turn :=
  let diff := signed64 seq - signed64 expected in
  if diff =? 0 then Claim else if diff <? 0 then Refuse else Reload.

Definition push_turn (seq pos : Z) : turn := decide_turn seq pos.
Definition pop_turn (seq pos : Z) : turn := decide_turn seq (u64 (pos + 1)).

(** [try_push] and [try_pop] with no other thread: [None] when [fuel] turns were
    not enough. *)
Fixpoint push_loop (fuel : nat) (q : BoundedQueue) (pos : Z) (item : T)
    : option (bool * BoundedQueue) :=
  match fuel with
  | O => None
  | S fuel =>
      match bq_buffer q !! index_of (bq_mask q) pos with
      | None => None
      | Some cell =>
          match push_turn (cell_sequence cell) pos with
          | Claim =>
              Some (true,
                mkBoundedQueue
                  (<[index_of (bq_mask q) pos := mkCell (u64 (pos + 1)) item]> (bq_buffer q))
                  (bq_mask q) (u64 (pos + 1)) (bq_dequeue_pos q) (u64 (bq_size q + 1)))
          | Refuse => Some (false, q)
          | Reload => push_loop fuel q (bq_enqueue_pos q) item
          end
      end
  end.
Definition try_push (fuel : nat) (q : BoundedQueue) (item : T) : option (bool * BoundedQueue) :=
  push_loop fuel q (bq_enqueue_pos q) item.

Fixpoint pop_loop (fuel : nat) (q : BoundedQueue) (pos : Z)
    : option (option T * BoundedQueue) :=
  match fuel with
  | O => None
  | S fuel =>
      match bq_buffer q !! index_of (bq_mask q) pos with
      | None => None
      | Some cell =>
          match pop_turn (cell_sequence cell) pos with
          | Claim =>
              Some (Some (cell_data cell),
                mkBoundedQueue
                  (<[index_of (bq_mask q) pos := mkCell (u64 (pos + bq_mask q + 1)) T0]>
                     (bq_buffer q))
                  (bq_mask q) (bq_enqueue_pos q) (u64 (pos + 1)) (u64 (bq_size q - 1)))
          | Refuse => Some (None, q)
          | Reload => pop_loop fuel q (bq_dequeue_pos q)
          end
      end
  end.
Definition try_pop (fuel : nat) (q : BoundedQueue) : option (option T * BoundedQueue) :=
  pop_loop fuel q (bq_dequeue_pos q).

Definition bq_empty (q : BoundedQueue) : bool := bq_size q =? 0.
Definition bq_capacity (q : BoundedQueue) : Z := Z.of_nat (length (bq_buffer q)).

(** ** Rounding the capacity *)

Lemma round_up_loop_spec fuel k n :
  (k + fuel <= 63)%nat -> (forall j, (j < k)%nat -> 2 ^ Z.of_nat j < n) ->
  n <= 2 ^ Z.of_nat (k + fuel) ->
  exists m, round_up_loop (S fuel) (2 ^ Z.of_nat k) n = 2 ^ Z.of_nat m /\ (m <= k + fuel)%nat /\
    n <= 2 ^ Z.of_nat m /\ (forall j, (j < m)%nat -> 2 ^ Z.of_nat j < n).
Proof.
  revert k. induction fuel as [|fuel IH]; intros k Hk Hbelow Hn; cbn [round_up_loop].
  - rewrite Nat.add_0_r in Hn. rewrite (proj2 (Z.ltb_ge _ _)) by lia.
    exists k. split; [done|]. split; [lia|]. by split.
  - destruct (Z.ltb_spec (2 ^ Z.of_nat k) n) as [Hlt|Hge].
    + assert (u64 (Z.shiftl (2 ^ Z.of_nat k) 1) = 2 ^ Z.of_nat (S k)) as ->.
      { rewrite Z.shiftl_mul_pow2, Nat2Z.inj_succ, Z.pow_succ_r by lia.
        rewrite wrap_small; [lia|]. unfold in_range.
        assert (2 ^ Z.of_nat k < 2 ^ 63) by (apply Z.pow_lt_mono_r; lia). lia. }
      destruct (IH (S k)) as (m & Hm & ? & ? & ?); [lia| |by rewrite Nat.add_succ_l, <-Nat.add_succ_r|].
      * intros j Hj. destruct (decide (j = k)) as [->|]; [done|]. apply Hbelow. lia.
      * exists m. split; [exact Hm|]. split; [lia|]. by split.
    + exists k. split; [done|]. split; [lia|]. by split.
Qed.
End Queue.
Arguments mkCell {T} cell_sequence cell_data.
Arguments Cell : clear implicits.
Arguments BoundedQueue : clear implicits.

(** the capacity a queue gets is the smallest power of two that holds the
    requested number of elements. *)
Theorem round_up_pow2_least n (Hn : 0 <= n <= 2 ^ 63) :
  exists m, round_up_pow2 n = 2 ^ Z.of_nat m /\ n <= 2 ^ Z.of_nat m /\
    (forall j, (j < m)%nat -> 2 ^ Z.of_nat j < n).
Proof.
  destruct (round_up_loop_spec 63 0 n) as (m & Hm & _ & ? & ?); [lia|lia|simpl; lia|]. by exists m.
Qed.

Lemma round_up_pow2_least_witness : exists m, round_up_pow2 100 = 2 ^ Z.of_nat m /\
  100 <= 2 ^ Z.of_nat m /\ (forall j, (j < m)%nat -> 2 ^ Z.of_nat j < 100).
Proof. apply (round_up_pow2_least 100). lia. Defined.

(** ** The invariant of the ring *)

(** Tickets are positions.  [hist] lists every item ever accepted, by ticket;
    [wr t] says a producer has claimed ticket [t] and not published it, [rd t]
    that a consumer has claimed it and not released its cell.  Every cell is in
    exactly one of the four states this describes. *)
Section Ring.
Context {T : Type} (k : Z) (Hk : 1 <= k <= 62).

Abbreviation cap := (2 ^ k).
Abbreviation idx := (index_of (2 ^ k - 1)).

Record ring_inv (buf : list (Cell T)) (deq enq : Z) (hist : list T) (wr rd : Z -> bool) : Prop := {
  ri_len : length buf = Z.to_nat cap;
  ri_pos : 0 <= deq <= enq /\ enq <= deq + cap;
  ri_hist : Z.of_nat (length hist) = enq;
  ri_full t : deq <= t < enq -> wr t = false ->
    exists x, buf !! idx t = Some (mkCell (t + 1) x) /\ hist !! Z.to_nat t = Some x;
  ri_wr t : wr t = true -> deq <= t < enq /\ exists x, buf !! idx t = Some (mkCell t x);
  ri_free t : enq <= t < deq + cap -> rd (t - cap) = false ->
    exists x, buf !! idx t = Some (mkCell t x);
  ri_rd t : rd t = true ->
    0 <= t < deq /\ enq <= t + cap /\ exists x, buf !! idx t = Some (mkCell (t + 1) x)
}.

Lemma cap_pos : 2 <= cap.
Proof. change 2 with (2 ^ 1) at 1. apply Z.pow_le_mono_r; lia. Qed.

Lemma idx_mod t : 0 <= t -> idx t = Z.to_nat (t mod cap).
Proof.
  intros. unfold index_of. rewrite <-Z.land_ones by lia. by rewrite Z.ones_equiv, <-Z.sub_1_r.
Qed.

Lemma idx_inj a t t' :
  0 <= a -> a <= t < a + cap -> a <= t' < a + cap -> idx t = idx t' -> t = t'.
Proof.
  pose proof cap_pos. intros ? ? ? Hi. rewrite !idx_mod in Hi by lia.
  pose proof (Z.mod_pos_bound t cap ltac:(lia)). pose proof (Z.mod_pos_bound t' cap ltac:(lia)).
  apply (mod_window cap a); lia.
Qed.

Lemma idx_shift t : 0 <= t -> idx (t + cap) = idx t.
Proof.
  pose proof cap_pos. intros. rewrite !idx_mod by lia.
  by rewrite <-(Z_mod_plus_full t 1), Z.mul_1_l.
Qed.

(** Neighbouring tickets have different cells; this is where two cells are needed. *)
Lemma idx_succ t : 0 <= t -> idx (t + 1) <> idx t.
Proof.
  pose proof cap_pos. intros ? Heq. apply (idx_inj t) in Heq; lia.
Qed.

Lemma idx_lt (buf : list (Cell T)) t :
  length buf = Z.to_nat cap -> 0 <= t -> (idx t < length buf)%nat.
Proof.
  pose proof cap_pos. intros -> ?. rewrite idx_mod by done.
  pose proof (Z.mod_pos_bound t cap ltac:(lia)). lia.
Qed.

Section Steps.
Context (buf : list (Cell T)) (deq enq : Z) (hist : list T) (wr rd : Z -> bool).
Context (Hinv : ring_inv buf deq enq hist wr rd).

(** A producer that finds its cell free at the enqueue position may claim it. *)
Lemma ring_can_push x : buf !! idx enq = Some (mkCell enq x) -> enq < deq + cap.
Proof.
  pose proof cap_pos. destruct Hinv as [Hl [[? ?] ?] Hh Hfull Hwr Hfree Hrd]. intros Hc.
  destruct (decide (enq < deq + cap)); [done|].
  assert (enq = deq + cap) as -> by lia. rewrite idx_shift in Hc by lia.
  destruct (wr deq) eqn:Hw.
  - destruct (Hwr deq Hw) as [_ [y Hy]]. rewrite Hc in Hy. injection Hy as ?. lia.
  - destruct (Hfull deq ltac:(lia) Hw) as (y & Hy & _). rewrite Hc in Hy. injection Hy as ?. lia.
Qed.

Lemma ring_claim_push x item :
  buf !! idx enq = Some (mkCell enq x) ->
  ring_inv buf deq (enq + 1) (hist ++ [item]) (fun t => bool_decide (t = enq) || wr t) rd.
Proof.
  pose proof cap_pos. intros Hc. pose proof (ring_can_push x Hc).
  destruct Hinv as [Hl [[? ?] ?] Hh Hfull Hwr Hfree Hrd]. split.
  - done.
  - lia.
  - rewrite length_app. simpl. lia.
  - intros t Ht Hw. apply orb_false_iff in Hw as [Hne Hw]. bool_to_prop.
    destruct (Hfull t ltac:(lia) Hw) as (y & ? & Hy). exists y. split; [done|].
    by apply lookup_app_l_Some.
  - intros t Hw. apply orb_true_iff in Hw as [->%bool_decide_eq_true|Hw].
    + split; [lia|by exists x].
    + destruct (Hwr t Hw) as [? ?]. split; [lia|done].
  - intros t Ht Hr. apply Hfree; [lia|done].
  - intros t Hr. destruct (Hrd t Hr) as (? & Hge & y & Hy). split; [done|]. split; [|by exists y].
    destruct (decide (enq = t + cap)) as [He|]; [|lia].
    rewrite He, idx_shift in Hc by lia. rewrite Hc in Hy. injection Hy as ?. lia.
Qed.

Lemma ring_publish t item :
  wr t = true -> hist !! Z.to_nat t = Some item ->
  ring_inv (<[idx t := mkCell (t + 1) item]> buf) deq enq hist
    (fun t' => negb (bool_decide (t' = t)) && wr t') rd.
Proof.
  pose proof cap_pos. intros Hw Hit.
  destruct Hinv as [Hl [[? ?] ?] Hh Hfull Hwr Hfree Hrd].
  destruct (Hwr t Hw) as [Ht [y Hy]].
  assert (forall t', deq <= t' < deq + cap -> t' <> t ->
    <[idx t := mkCell (t + 1) item]> buf !! idx t' = buf !! idx t') as Hother.
  { intros t' ? Hne. apply list_lookup_insert_ne. intros Heq. apply Hne.
    apply (idx_inj deq); lia || done. }
  split.
  - by rewrite length_insert.
  - done.
  - done.
  - intros t' Ht' Hw'. destruct (decide (t' = t)) as [->|Hne].
    + exists item. split; [|done]. apply list_lookup_insert_eq. apply idx_lt; [done|lia].
    + rewrite Hother by (lia || done). apply Hfull; [lia|].
      rewrite bool_decide_eq_false_2 in Hw' by done. done.
  - intros t' Hw'. bool_to_prop. destruct (Hwr t' ltac:(done)) as [? ?].
    rewrite Hother by (lia || done). done.
  - intros t' Ht' Hr. rewrite Hother by lia. by apply Hfree.
  - intros t' Hr. destruct (Hrd t' Hr) as (? & ? & z & Hz). split; [done|]. split; [done|].
    exists z. rewrite list_lookup_insert_ne; [done|]. intros Heq. rewrite <-Heq, Hy in Hz.
    injection Hz as -> _. apply (idx_succ t'); [lia|done].
Qed.

(** Writing the data of a claimed cell. *)
Lemma ring_write t x :
  wr t = true -> ring_inv (<[idx t := mkCell t x]> buf) deq enq hist wr rd.
Proof.
  pose proof cap_pos. intros Hw.
  destruct Hinv as [Hl [[? ?] ?] Hh Hfull Hwr Hfree Hrd].
  destruct (Hwr t Hw) as [Ht [y Hy]].
  assert (forall t', deq <= t' < deq + cap -> t' <> t ->
    <[idx t := mkCell t x]> buf !! idx t' = buf !! idx t') as Hother.
  { intros t' ? Hne. apply list_lookup_insert_ne. intros Heq. apply Hne.
    apply (idx_inj deq); lia || done. }
  split; [by rewrite length_insert|done|done|..].
  - intros t' Ht' Hw'. rewrite Hother; [by apply Hfull|lia|congruence].
  - intros t' Hw'. destruct (Hwr t' Hw') as [? ?]. split; [done|].
    destruct (decide (t' = t)) as [->|]; [|by rewrite Hother by (lia || done)].
    exists x. apply list_lookup_insert_eq. apply idx_lt; [done|lia].
  - intros t' Ht' Hr. rewrite Hother by lia. by apply Hfree.
  - intros t' Hr. destruct (Hrd t' Hr) as (? & ? & z & Hz). split; [done|]. split; [done|].
    exists z. rewrite list_lookup_insert_ne; [done|]. intros Heq. rewrite <-Heq, Hy in Hz.
    injection Hz as -> _. apply (idx_succ t'); [lia|done].
Qed.

(** A consumer that finds the next ticket published claims exactly that item. *)
Lemma ring_can_pop x :
  buf !! idx deq = Some (mkCell (deq + 1) x) ->
  deq < enq /\ wr deq = false /\ hist !! Z.to_nat deq = Some x.
Proof.
  pose proof cap_pos. destruct Hinv as [Hl [[? ?] ?] Hh Hfull Hwr Hfree Hrd]. intros Hc.
  assert (deq < enq).
  { destruct (decide (deq < enq)); [done|]. assert (deq = enq) by lia. subst enq.
    destruct (rd (deq - cap)) eqn:Hr.
    - destruct (Hrd _ Hr) as ([? ?] & _ & y & Hy).
      replace deq with (deq - cap + cap) in Hc at 1 by lia.
      rewrite idx_shift, Hy in Hc by done. injection Hc as ?. lia.
    - destruct (Hfree deq ltac:(lia) Hr) as [y Hy]. rewrite Hc in Hy. injection Hy as ?. lia. }
  assert (wr deq = false) as Hw.
  { destruct (wr deq) eqn:Hw; [|done]. destruct (Hwr deq Hw) as [_ [y Hy]].
    rewrite Hc in Hy. injection Hy as ?. lia. }
  split; [done|]. split; [done|].
  destruct (Hfull deq ltac:(lia) Hw) as (y & Hy & ?). rewrite Hc in Hy. by injection Hy as <-.
Qed.

Lemma ring_claim_pop x :
  buf !! idx deq = Some (mkCell (deq + 1) x) ->
  ring_inv buf (deq + 1) enq hist wr (fun t => bool_decide (t = deq) || rd t).
Proof.
  pose proof cap_pos. intros Hc. destruct (ring_can_pop x Hc) as (? & Hw & Hx).
  destruct Hinv as [Hl [[? ?] ?] Hh Hfull Hwr Hfree Hrd]. split.
  - done.
  - lia.
  - done.
  - intros t Ht. apply Hfull. lia.
  - intros t Hwt. destruct (Hwr t Hwt) as [? ?]. split; [|done].
    destruct (decide (t = deq)); [congruence|lia].
  - intros t Ht Hr. apply orb_false_iff in Hr as [Hne Hr]. bool_to_prop. apply Hfree; [lia|done].
  - intros t Hr. apply orb_true_iff in Hr as [->%bool_decide_eq_true|Hr].
    + split; [lia|]. split; [lia|by exists x].
    + destruct (Hrd t Hr) as (? & ? & ?). split; [lia|done].
Qed.

Lemma ring_release t x :
  rd t = true ->
  ring_inv (<[idx t := mkCell (t + cap) x]> buf) deq enq hist wr
    (fun t' => negb (bool_decide (t' = t)) && rd t').
Proof.
  pose proof cap_pos. intros Hr.
  destruct Hinv as [Hl [[? ?] ?] Hh Hfull Hwr Hfree Hrd].
  destruct (Hrd t Hr) as (Ht & Hte & y & Hy).
  assert (forall t', enq - cap <= t' < enq -> 0 <= t' -> t' <> t ->
    <[idx t := mkCell (t + cap) x]> buf !! idx t' = buf !! idx t') as Hother.
  { intros t' ? ? Hne. apply list_lookup_insert_ne. intros Heq. apply Hne.
    rewrite <-(idx_shift t), <-(idx_shift t') in Heq by lia.
    assert (t' + cap = t + cap); [|lia]. apply (idx_inj enq); lia || done. }
  assert (forall t', enq <= t' < enq + cap -> t' <> t + cap ->
    <[idx t := mkCell (t + cap) x]> buf !! idx t' = buf !! idx t') as Hother'.
  { intros t' ? Hne. apply list_lookup_insert_ne. intros Heq. apply Hne.
    rewrite <-(idx_shift t) in Heq by lia. apply (idx_inj enq); lia || done. }
  split; [by rewrite length_insert|done|done|..].
  - intros t' Ht' Hw'. rewrite Hother by lia. by apply Hfull.
  - intros t' Hw'. destruct (Hwr t' Hw') as [? ?]. split; [done|]. by rewrite Hother by lia.
  - intros t' Ht' Hr'. destruct (decide (t' = t + cap)) as [->|Hne].
    + exists x. rewrite idx_shift by lia. apply list_lookup_insert_eq. apply idx_lt; [done|lia].
    + rewrite Hother' by lia. apply Hfree; [lia|].
      rewrite bool_decide_eq_false_2 in Hr' by lia. done.
  - intros t' Hr'. bool_to_prop. destruct (Hrd t' ltac:(done)) as (? & ? & z & Hz).
    split; [done|]. split; [done|]. exists z. by rewrite Hother by (lia || done).
Qed.

(** Taking the data out of a claimed cell. *)
Lemma ring_take t x :
  rd t = true -> ring_inv (<[idx t := mkCell (t + 1) x]> buf) deq enq hist wr rd.
Proof.
  pose proof cap_pos. intros Hr.
  destruct Hinv as [Hl [[? ?] ?] Hh Hfull Hwr Hfree Hrd].
  destruct (Hrd t Hr) as (Ht & Hte & y & Hy).
  assert (forall t', enq - cap <= t' < enq -> 0 <= t' -> t' <> t ->
    <[idx t := mkCell (t + 1) x]> buf !! idx t' = buf !! idx t') as Hother.
  { intros t' ? ? Hne. apply list_lookup_insert_ne. intros Heq. apply Hne.
    rewrite <-(idx_shift t), <-(idx_shift t') in Heq by lia.
    assert (t' + cap = t + cap); [|lia]. apply (idx_inj enq); lia || done. }
  split; [by rewrite length_insert|done|done|..].
  - intros t' Ht' Hw'. rewrite Hother by lia. by apply Hfull.
  - intros t' Hw'. destruct (Hwr t' Hw') as [? ?]. split; [done|]. by rewrite Hother by lia.
  - intros t' Ht' Hr'. destruct (Hfree t' Ht' Hr') as [z Hz]. exists z.
    rewrite list_lookup_insert_ne; [done|]. intros Heq. rewrite <-Heq, Hy in Hz.
    injection Hz as <- _. apply (idx_succ t); [lia|done].
  - intros t' Hr'. destruct (Hrd t' Hr') as (? & ? & z & Hz). split; [done|]. split; [done|].
    destruct (decide (t' = t)) as [->|]; [|exists z; by rewrite Hother by (lia || done)].
    exists x. apply list_lookup_insert_eq. apply idx_lt; [done|lia].
Qed.
End Steps.
End Ring.

(** ** The sequential operations refine a bounded FIFO *)

Lemma decide_turn_spec a b :
  0 <= a < 2 ^ 63 -> 0 <= b < 2 ^ 63 ->
  decide_turn a b = if bool_decide (a = b) then Claim else
                    if bool_decide (a < b) then Refuse else Reload.
Proof.
  intros. unfold decide_turn, signed64.
  rewrite !(proj2 (Z.ltb_lt _ _)) by lia.
  destruct (Z.eqb_spec (a - b) 0); [by rewrite bool_decide_eq_true_2 by lia|].
  rewrite (bool_decide_eq_false_2 (a = b)) by lia.
  destruct (Z.ltb_spec (a - b) 0); [by rewrite bool_decide_eq_true_2 by lia|].
  by rewrite bool_decide_eq_false_2 by lia.
Qed.

Section Sequential.
Context {T : Type} (T0 : T) (k : Z) (Hk : 1 <= k <= 62).

Definition none (_ : Z) : bool := false.

Record represents (q : BoundedQueue T) (xs : list T) : Prop := {
  rp_mask : bq_mask q = 2 ^ k - 1;
  rp_size : bq_size q = Z.of_nat (length xs);
  rp_ring : exists hist, ring_inv k (bq_buffer q) (bq_dequeue_pos q) (bq_enqueue_pos q) hist none none /\
    xs = drop (Z.to_nat (bq_dequeue_pos q)) hist
}.

Lemma ring_inv_ext buf deq enq (hist : list T) wr rd wr' rd' :
  ring_inv k buf deq enq hist wr rd -> (forall t, wr' t = wr t) -> (forall t, rd' t = rd t) ->
  ring_inv k buf deq enq hist wr' rd'.
Proof.
  intros [? ? ? H1 H2 H3 H4] Hw Hr. split; try done; intros t; rewrite ?Hw, ?Hr; auto.
Qed.

Lemma represents_length q xs :
  represents q xs -> Z.of_nat (length xs) = bq_enqueue_pos q - bq_dequeue_pos q.
Proof.
  intros [_ _ (hist & Hinv & ->)]. destruct Hinv as [_ [[? ?] ?] Hh _ _ _ _].
  rewrite length_drop. lia.
Qed.

Lemma try_push_room fuel q xs item :
  represents q xs -> bq_enqueue_pos q + 2 ^ k < 2 ^ 63 -> Z.of_nat (length xs) < 2 ^ k ->
  exists q', try_push (S fuel) q item = Some (true, q') /\ represents q' (xs ++ [item]).
Proof.
  intros Hrep Hpos Hroom. pose proof (cap_pos k Hk). pose proof (represents_length q xs Hrep) as Hl.
  destruct Hrep as [Hm Hs (hist & Hinv & ->)]. pose proof Hinv as [_ [[? ?] ?] Hh _ _ Hfree _].
  destruct (Hfree (bq_enqueue_pos q)) as [x Hx]; [lia|done|].
  unfold try_push. cbn [push_loop]. rewrite Hm, Hx. cbn [cell_sequence]. unfold push_turn.
  rewrite decide_turn_spec, bool_decide_eq_true_2 by lia.
  eexists. split; [done|]. rewrite (wrap_small 64 (bq_enqueue_pos q + 1)) by (unfold in_range; lia).
  rewrite Hs, wrap_small by (unfold in_range; lia). split; cbn [bq_mask bq_size bq_buffer
    bq_enqueue_pos bq_dequeue_pos].
  - done.
  - rewrite length_app. simpl. lia.
  - exists (hist ++ [item]). split.
    + pose proof (ring_claim_push k Hk _ _ _ _ _ _ Hinv x item Hx) as Hc.
      eapply ring_inv_ext;
        [apply (ring_publish k Hk _ _ _ _ _ _ Hc (bq_enqueue_pos q) item)| |done].
      * by rewrite bool_decide_eq_true_2.
      * rewrite lookup_app_r by lia.
        by replace (Z.to_nat (bq_enqueue_pos q) - length hist)%nat with 0%nat by lia.
      * intros t. simpl. by case_bool_decide.
    + rewrite drop_app_le by lia. done.
Qed.

Lemma try_push_full fuel q xs item :
  represents q xs -> bq_enqueue_pos q + 2 ^ k < 2 ^ 63 -> Z.of_nat (length xs) = 2 ^ k ->
  try_push (S fuel) q item = Some (false, q).
Proof.
  intros Hrep Hpos Hroom. pose proof (cap_pos k Hk). pose proof (represents_length q xs Hrep) as Hl.
  destruct Hrep as [Hm Hs (hist & Hinv & ->)]. pose proof Hinv as [_ [[? ?] ?] Hh Hfull _ _ _].
  destruct (Hfull (bq_dequeue_pos q)) as (x & Hx & _); [lia|done|].
  unfold try_push. cbn [push_loop]. rewrite Hm.
  replace (bq_enqueue_pos q) with (bq_dequeue_pos q + 2 ^ k) at 1 by lia.
  rewrite idx_shift, Hx by (done || lia). cbn [cell_sequence]. unfold push_turn.
  rewrite decide_turn_spec by lia. rewrite bool_decide_eq_false_2 by lia.
  by rewrite bool_decide_eq_true_2 by lia.
Qed.

Lemma try_pop_item fuel q x xs :
  represents q (x :: xs) -> bq_enqueue_pos q + 2 ^ k < 2 ^ 63 ->
  exists q', try_pop T0 (S fuel) q = Some (Some x, q') /\ represents q' xs /\
    bq_enqueue_pos q' = bq_enqueue_pos q.
Proof.
  intros Hrep Hpos. pose proof (cap_pos k Hk). pose proof (represents_length q _ Hrep) as Hl.
  destruct Hrep as [Hm Hs (hist & Hinv & Hxs)]. pose proof Hinv as [_ [[? ?] ?] Hh Hfull _ _ _].
  simpl in Hl. destruct (Hfull (bq_dequeue_pos q)) as (y & Hy & Hhy); [lia|done|].
  assert (y = x) as ->.
  { rewrite (drop_S _ _ _ Hhy) in Hxs. by injection Hxs. }
  unfold try_pop. cbn [pop_loop]. rewrite Hm, Hy. cbn [cell_sequence cell_data]. unfold pop_turn.
  rewrite (wrap_small 64 (bq_dequeue_pos q + 1)) by (unfold in_range; lia).
  rewrite decide_turn_spec, bool_decide_eq_true_2 by lia.
  eexists. split; [done|]. split; [|done].
  rewrite Hs, !wrap_small by (unfold in_range; simpl; lia). split; cbn [bq_mask bq_size bq_buffer
    bq_enqueue_pos bq_dequeue_pos].
  - done.
  - simpl. lia.
  - exists hist. split.
    + pose proof (ring_claim_pop k Hk _ _ _ _ _ _ Hinv x Hy) as Hc.
      replace (bq_dequeue_pos q + (2 ^ k - 1) + 1) with (bq_dequeue_pos q + 2 ^ k) by lia.
      eapply ring_inv_ext;
        [apply (ring_release k Hk _ _ _ _ _ _ Hc (bq_dequeue_pos q) T0)|done|].
      * by rewrite bool_decide_eq_true_2.
      * intros t. simpl. by case_bool_decide.
    + rewrite (drop_S _ _ _ Hhy) in Hxs. injection Hxs as ->. f_equal. lia.
Qed.

Lemma try_pop_empty fuel q :
  represents q [] -> bq_enqueue_pos q + 2 ^ k < 2 ^ 63 -> try_pop T0 (S fuel) q = Some (None, q).
Proof.
  intros Hrep Hpos. pose proof (cap_pos k Hk). pose proof (represents_length q _ Hrep) as Hl.
  destruct Hrep as [Hm Hs (hist & Hinv & Hxs)]. pose proof Hinv as [_ [[? ?] ?] Hh _ _ Hfree _].
  simpl in Hl. destruct (Hfree (bq_dequeue_pos q)) as [y Hy]; [lia|done|].
  unfold try_pop. cbn [pop_loop]. rewrite Hm, Hy. cbn [cell_sequence]. unfold pop_turn.
  rewrite (wrap_small 64 (bq_dequeue_pos q + 1)) by (unfold in_range; lia).
  rewrite decide_turn_spec by lia. rewrite bool_decide_eq_false_2 by lia.
  by rewrite bool_decide_eq_true_2 by lia.
Qed.

Lemma represents_new capacity :
  round_up_pow2 capacity = 2 ^ k -> represents (BoundedQueue_new T0 capacity) [].
Proof.
  intros Hc. pose proof (cap_pos k Hk). unfold BoundedQueue_new. rewrite Hc.
  assert (2 ^ k <= 2 ^ 62) by (apply Z.pow_le_mono_r; lia).
  split; cbn [bq_mask bq_size bq_buffer bq_enqueue_pos bq_dequeue_pos].
  - apply wrap_small. unfold in_range. lia.
  - done.
  - exists []. split; [|done]. split; try done.
    + by rewrite length_fmap, length_seqZ.
    + lia.
    + lia.
    + intros t Ht _. exists T0. rewrite idx_mod, Z.mod_small by lia.
      rewrite list_lookup_fmap, lookup_seqZ_lt by lia. simpl. do 2 f_equal. lia.
Qed.
End Sequential.

(** with two cells or more the queue is a bounded FIFO.  A push succeeds
    exactly when fewer items are held than the capacity and appends at the tail;
    a refused push changes nothing; a pop returns the oldest item, or nothing
    when there is none; one turn of the loop is always enough, and the size gauge
    is the number of items. *)
Theorem queue_refines_fifo {T} (T0 : T) k (Hk : 1 <= k <= 62) fuel q xs item
  (Hrep : represents k q xs) (Hpos : bq_enqueue_pos q + 2 ^ k < 2 ^ 63) :
  bq_size q = Z.of_nat (length xs) /\ bq_capacity q = 2 ^ k /\
  (if bool_decide (Z.of_nat (length xs) < 2 ^ k)
   then exists q', try_push (S fuel) q item = Some (true, q') /\ represents k q' (xs ++ [item])
   else try_push (S fuel) q item = Some (false, q)) /\
  match xs with
  | [] => try_pop T0 (S fuel) q = Some (None, q)
  | x :: xs' => exists q', try_pop T0 (S fuel) q = Some (Some x, q') /\ represents k q' xs'
  end.
Proof.
  split; [by apply (rp_size k)|]. split.
  { destruct Hrep as [_ _ (hist & [Hl _ _ _ _ _ _] & _)]. unfold bq_capacity. rewrite Hl.
    pose proof (cap_pos k Hk). lia. }
  split.
  - case_bool_decide; [by apply try_push_room|]. eapply try_push_full; [done..|].
    pose proof (represents_length k Hk q xs Hrep).
    destruct Hrep as [_ _ (hist & [_ ? _ _ _ _ _] & _)]. lia.
  - destruct xs as [|x xs]; [by eapply try_pop_empty|].
    destruct (try_pop_item T0 k Hk fuel q x xs Hrep Hpos) as (q' & ? & ? & _). eauto.
Qed.

Lemma queue_refines_fifo_witness :
  exists q', try_push 1 (BoundedQueue_new 0 3) 7 = Some (true, q') /\ represents 2 q' [7].
Proof.
  refine (proj1 (proj2 (proj2 (queue_refines_fifo 0 2 _ 0 (BoundedQueue_new 0 3) [] 7 _ _)))).
  - lia.
  - apply (represents_new 0 2 ltac:(lia)). by vm_compute.
  - by vm_compute.
Defined.

(** with one cell the queue is broken.  A capacity of 1, which
    [SubscriberConfig::validate] accepts for the delivery queue, is not rounded
    up: the second push succeeds although the queue is full, overwriting the item
    that was queued, and no number of turns makes the next pop return. *)
Theorem one_cell_queue_loses_and_spins :
  exists q1 q2,
    try_push 1 (BoundedQueue_new 0 1) 10 = Some (true, q1) /\
    try_push 1 q1 20 = Some (true, q2) /\ bq_capacity q2 = 1 /\ bq_size q2 = 2 /\
    (forall cell, cell ∈ bq_buffer q2 -> cell_data cell = 20) /\
    forall fuel, try_pop 0 fuel q2 = None.
Proof.
  eexists _, _. split; [by vm_compute|]. split; [by vm_compute|].
  split; [done|]. split; [done|]. split.
  - intros cell Hc. by apply list_elem_of_singleton in Hc as ->.
  - intros fuel. unfold try_pop. cbn [bq_dequeue_pos].
    induction fuel as [|fuel IH]; [done|]. cbn [pop_loop]. exact IH.
Qed.
