(* ===== verification/QueueConcurrency.v ===== *)
(** * The bounded queue under concurrency

    Producers and consumers of [src/core/bounded_queue.h] as a step relation:
    one step is one load, compare-and-swap or store of one thread, in the order
    of the source.  The ring invariant of [BoundedQueue.v] is kept by every
    step, whatever the interleaving and the number of threads. *)
From stdpp Require Import list relations.
From S2P Require Import Prelude BoundedQueue.
#[local] Open Scope Z_scope.

Section Concurrent.
Context {T : Type} (T0 : T) (k : Z) (Hk : 1 <= k <= 62).

Abbreviation cap := (2 ^ k).
Abbreviation idx := (index_of (2 ^ k - 1)).

(** Where a thread is: [At] after loading the position, [Saw] after loading the
    cell's sequence, [Own] after winning the swap, [Wrote]/[Read] after moving
    the data. *)
Inductive queue_pc : Type :=
| QIdle
| PushAt (item : T) (pos : Z)
| PushSaw (item : T) (pos seq : Z)
| PushOwn (item : T) (pos : Z)
| PushWrote (pos : Z)
| PopAt (pos : Z)
| PopSaw (pos seq : Z)
| PopOwn (pos : Z)
| PopRead (pos : Z) (v : T).

(** [qs_hist] and [qs_out] are ghost: the items accepted, by ticket, and the
    pops that completed, with their tickets. *)
Record queue_state : Type := mkQueueState {
  qs_buf : list (Cell T);
  qs_enq : Z;
  qs_deq : Z;
  qs_threads : list queue_pc;
  qs_hist : list T;
  qs_out : list (Z * T)
}.

Definition goto (s : queue_state) (i : nat) (p : queue_pc) : queue_state :=
  mkQueueState (qs_buf s) (qs_enq s) (qs_deq s) (<[i := p]> (qs_threads s)) (qs_hist s) (qs_out s).

(** A turn of [push_loop] / [pop_loop], with the thread's view of the position
    and the sequence fixed by its earlier loads. *)
Inductive queue_step : queue_state -> queue_state -> Prop :=
| q_push_start s i item :
    qs_threads s !! i = Some QIdle ->
    queue_step s (goto s i (PushAt item (qs_enq s)))
| q_push_load s i item pos cell :
    qs_threads s !! i = Some (PushAt item pos) -> qs_buf s !! idx pos = Some cell ->
    queue_step s (goto s i (PushSaw item pos (cell_sequence cell)))
| q_push_cas s i item pos seq :
    qs_threads s !! i = Some (PushSaw item pos seq) -> push_turn seq pos = Claim ->
    qs_enq s = pos -> pos + 1 + cap < 2 ^ 63 ->
    queue_step s
      (mkQueueState (qs_buf s) (u64 (pos + 1)) (qs_deq s) (<[i := PushOwn item pos]> (qs_threads s))
         (qs_hist s ++ [item]) (qs_out s))
| q_push_cas_failed s i item pos seq :
    qs_threads s !! i = Some (PushSaw item pos seq) -> push_turn seq pos = Claim ->
    queue_step s (goto s i (PushAt item (qs_enq s)))
| q_push_full s i item pos seq :
    qs_threads s !! i = Some (PushSaw item pos seq) -> push_turn seq pos = Refuse ->
    queue_step s (goto s i QIdle)
| q_push_reload s i item pos seq :
    qs_threads s !! i = Some (PushSaw item pos seq) -> push_turn seq pos = Reload ->
    queue_step s (goto s i (PushAt item (qs_enq s)))
| q_push_write s i item pos cell :
    qs_threads s !! i = Some (PushOwn item pos) -> qs_buf s !! idx pos = Some cell ->
    queue_step s
      (mkQueueState (<[idx pos := mkCell (cell_sequence cell) item]> (qs_buf s)) (qs_enq s)
         (qs_deq s) (<[i := PushWrote pos]> (qs_threads s)) (qs_hist s) (qs_out s))
| q_push_publish s i pos cell :
    qs_threads s !! i = Some (PushWrote pos) -> qs_buf s !! idx pos = Some cell ->
    queue_step s
      (mkQueueState (<[idx pos := mkCell (u64 (pos + 1)) (cell_data cell)]> (qs_buf s)) (qs_enq s)
         (qs_deq s) (<[i := QIdle]> (qs_threads s)) (qs_hist s) (qs_out s))
| q_pop_start s i :
    qs_threads s !! i = Some QIdle ->
    queue_step s (goto s i (PopAt (qs_deq s)))
| q_pop_load s i pos cell :
    qs_threads s !! i = Some (PopAt pos) -> qs_buf s !! idx pos = Some cell ->
    queue_step s (goto s i (PopSaw pos (cell_sequence cell)))
| q_pop_cas s i pos seq :
    qs_threads s !! i = Some (PopSaw pos seq) -> pop_turn seq pos = Claim -> qs_deq s = pos ->
    queue_step s
      (mkQueueState (qs_buf s) (qs_enq s) (u64 (pos + 1)) (<[i := PopOwn pos]> (qs_threads s))
         (qs_hist s) (qs_out s))
| q_pop_cas_failed s i pos seq :
    qs_threads s !! i = Some (PopSaw pos seq) -> pop_turn seq pos = Claim ->
    queue_step s (goto s i (PopAt (qs_deq s)))
| q_pop_empty s i pos seq :
    qs_threads s !! i = Some (PopSaw pos seq) -> pop_turn seq pos = Refuse ->
    queue_step s (goto s i QIdle)
| q_pop_reload s i pos seq :
    qs_threads s !! i = Some (PopSaw pos seq) -> pop_turn seq pos = Reload ->
    queue_step s (goto s i (PopAt (qs_deq s)))
| q_pop_read s i pos cell :
    qs_threads s !! i = Some (PopOwn pos) -> qs_buf s !! idx pos = Some cell ->
    queue_step s
      (mkQueueState (<[idx pos := mkCell (cell_sequence cell) T0]> (qs_buf s)) (qs_enq s)
         (qs_deq s) (<[i := PopRead pos (cell_data cell)]> (qs_threads s)) (qs_hist s) (qs_out s))
| q_pop_release s i pos v cell :
    qs_threads s !! i = Some (PopRead pos v) -> qs_buf s !! idx pos = Some cell ->
    queue_step s
      (mkQueueState (<[idx pos := mkCell (u64 (pos + (cap - 1) + 1)) (cell_data cell)]> (qs_buf s))
         (qs_enq s) (qs_deq s) (<[i := QIdle]> (qs_threads s)) (qs_hist s)
         (qs_out s ++ [(pos, v)])).

(** The state after construction with [n] threads. *)
Definition queue_init (n : nat) : queue_state :=
  mkQueueState ((fun i => mkCell i T0) <$> seqZ 0 cap) 0 0 (replicate n QIdle) [] [].

(** ** Tickets owned by threads *)

Definition push_ticket (p : queue_pc) : option Z :=
  match p with PushOwn _ t | PushWrote t => Some t | _ => None end.
Definition pop_ticket (p : queue_pc) : option Z :=
  match p with PopOwn t | PopRead t _ => Some t | _ => None end.

Definition owned (f : queue_pc -> option Z) (ts : list queue_pc) (t : Z) : bool :=
  existsb (fun p => bool_decide (f p = Some t)) ts.
Definition unique (f : queue_pc -> option Z) (ts : list queue_pc) : Prop :=
  forall i j p q t, ts !! i = Some p -> ts !! j = Some q -> f p = Some t -> f q = Some t -> i = j.

Lemma bool_decide_Some (a b : Z) : bool_decide (Some a = Some b) = bool_decide (b = a).
Proof. apply bool_decide_ext. naive_solver. Qed.

Lemma owned_iff f ts t : owned f ts t = true <-> exists i p, ts !! i = Some p /\ f p = Some t.
Proof.
  unfold owned. rewrite existsb_exists. split.
  - intros (p & Hp & Hf). apply list_elem_of_In, list_elem_of_lookup in Hp as [i Hi].
    apply bool_decide_eq_true in Hf. eauto.
  - intros (i & p & Hi & Hf). exists p. split; [|by apply bool_decide_eq_true_2].
    apply list_elem_of_In. by eapply list_elem_of_lookup_2.
Qed.

Lemma lookup_insert_cases (ts : list queue_pc) i j p q :
  <[i := p]> ts !! j = Some q -> (j = i /\ q = p) \/ (j <> i /\ ts !! j = Some q).
Proof. rewrite list_lookup_insert_Some. naive_solver. Qed.

Lemma owned_insert f ts i old new t :
  unique f ts -> ts !! i = Some old ->
  owned f (<[i := new]> ts) t =
  bool_decide (f new = Some t) || (negb (bool_decide (f old = Some t)) && owned f ts t).
Proof.
  intros Hu Hi. apply eq_true_iff_eq. rewrite orb_true_iff, andb_true_iff, negb_true_iff.
  rewrite bool_decide_eq_true, bool_decide_eq_false, !owned_iff. split.
  - intros (j & p & Hj & Hf). apply lookup_insert_cases in Hj as [[-> ->]|[Hne Hj]]; [by left|].
    right. split; [|eauto]. intros Ho. apply Hne. by eapply Hu.
  - intros [Hf|[Hne (j & p & Hj & Hf)]].
    + exists i, new. split; [|done]. apply list_lookup_insert_eq. by eapply lookup_lt_Some.
    + exists j, p. split; [|done]. rewrite list_lookup_insert_ne; [done|].
      intros <-. rewrite Hi in Hj. injection Hj as ->. done.
Qed.

Lemma unique_insert f ts i old new :
  unique f ts -> ts !! i = Some old ->
  (forall t, f new = Some t -> f old = Some t \/ owned f ts t = false) ->
  unique f (<[i := new]> ts).
Proof.
  intros Hu Hi Hn a b p q t Ha Hb Hp Hq.
  apply lookup_insert_cases in Ha as [[-> ->]|[Hia Ha]];
    apply lookup_insert_cases in Hb as [[-> ->]|[Hib Hb]]; [done| | |by eapply Hu].
  - destruct (Hn t Hp) as [Ho|Ho]; [by eapply Hu|].
    assert (owned f ts t = true) as Ht by (apply owned_iff; eauto). congruence.
  - destruct (Hn t Hq) as [Ho|Ho]; [by eapply Hu|].
    assert (owned f ts t = true) as Ht by (apply owned_iff; eauto). congruence.
Qed.

(** ** The invariant *)

(** What a thread knows, given the ring. *)
Definition pc_knows (buf : list (Cell T)) (deq enq : Z) (hist : list T) (p : queue_pc) : Prop :=
  match p with
  | QIdle => True
  | PushAt _ pos => 0 <= pos <= enq
  | PushSaw _ pos seq => 0 <= pos <= enq /\ 0 <= seq < 2 ^ 63 /\
      (seq = pos -> pos = enq -> exists x, buf !! idx pos = Some (mkCell pos x))
  | PushOwn item pos => hist !! Z.to_nat pos = Some item
  | PushWrote pos => exists x, buf !! idx pos = Some (mkCell pos x) /\ hist !! Z.to_nat pos = Some x
  | PopAt pos => 0 <= pos <= deq
  | PopSaw pos seq => 0 <= pos <= deq /\ 0 <= seq < 2 ^ 63 /\
      (seq = pos + 1 -> pos = deq -> exists x, buf !! idx pos = Some (mkCell (pos + 1) x))
  | PopOwn pos => exists x, buf !! idx pos = Some (mkCell (pos + 1) x) /\ hist !! Z.to_nat pos = Some x
  | PopRead pos v => hist !! Z.to_nat pos = Some v
  end.

Record queue_inv (s : queue_state) : Prop := {
  qi_ring : ring_inv k (qs_buf s) (qs_deq s) (qs_enq s) (qs_hist s)
              (owned push_ticket (qs_threads s)) (owned pop_ticket (qs_threads s));
  qi_push : unique push_ticket (qs_threads s);
  qi_pop : unique pop_ticket (qs_threads s);
  qi_pcs : forall i p, qs_threads s !! i = Some p ->
             pc_knows (qs_buf s) (qs_deq s) (qs_enq s) (qs_hist s) p;
  qi_out : forall t v, (t, v) ∈ qs_out s -> 0 <= t < qs_deq s /\
             qs_hist s !! Z.to_nat t = Some v /\ owned pop_ticket (qs_threads s) t = false;
  qi_once : NoDup (qs_out s).*1;
  qi_space : qs_enq s + cap < 2 ^ 63
}.

Lemma ring_cell_range buf deq enq (hist : list T) wr rd pos :
  ring_inv k buf deq enq hist wr rd -> 0 <= pos ->
  exists s x, buf !! idx pos = Some (mkCell s x) /\ 0 <= s <= deq + cap.
Proof.
  pose proof (cap_pos k Hk). intros [Hl [[? ?] ?] _ Hfull Hwr Hfree Hrd] Hpos.
  set (t := deq + (pos - deq) mod cap).
  pose proof (Z.mod_pos_bound (pos - deq) cap ltac:(lia)).
  assert (idx pos = idx t) as ->.
  { rewrite !idx_mod by (done || lia). f_equal. unfold t.
    rewrite Z.add_mod_idemp_r by lia. f_equal. lia. }
  destruct (decide (t < enq)).
  - destruct (wr t) eqn:Hw.
    + destruct (Hwr t Hw) as [_ [x Hx]]. exists t, x. split; [done|]. unfold t. lia.
    + destruct (Hfull t ltac:(unfold t in *; lia) Hw) as (x & Hx & _). exists (t + 1), x.
      split; [done|]. unfold t. lia.
  - destruct (rd (t - cap)) eqn:Hr.
    + destruct (Hrd _ Hr) as (? & _ & x & Hx). exists (t - cap + 1), x. split; [|unfold t in *; lia].
      rewrite <-Hx. replace t with (t - cap + cap) at 1 by lia. by rewrite idx_shift by (done || lia).
    + destruct (Hfree t ltac:(unfold t in *; lia) Hr) as [x Hx]. exists t, x. split; [done|].
      unfold t. lia.
Qed.

(** A step that only moves the program counter of a thread that owns nothing. *)
Lemma queue_inv_goto s i old new :
  queue_inv s -> qs_threads s !! i = Some old ->
  push_ticket old = None -> pop_ticket old = None ->
  push_ticket new = None -> pop_ticket new = None ->
  pc_knows (qs_buf s) (qs_deq s) (qs_enq s) (qs_hist s) new ->
  queue_inv (goto s i new).
Proof.
  intros [Hr Hpu Hpo Hpc Hout Honce Hsp] Hi Ho1 Ho2 Hn1 Hn2 Hk'.
  assert (forall t, owned push_ticket (<[i := new]> (qs_threads s)) t =
                    owned push_ticket (qs_threads s) t) as E1.
  { intros t. erewrite owned_insert by done. rewrite Hn1, Ho1. done. }
  assert (forall t, owned pop_ticket (<[i := new]> (qs_threads s)) t =
                    owned pop_ticket (qs_threads s) t) as E2.
  { intros t. erewrite owned_insert by done. rewrite Hn2, Ho2. done. }
  split; cbn [goto qs_buf qs_enq qs_deq qs_threads qs_hist qs_out].
  - by eapply ring_inv_ext.
  - eapply unique_insert; [done|done|]. intros t. by rewrite Hn1.
  - eapply unique_insert; [done|done|]. intros t. by rewrite Hn2.
  - intros j p Hj. apply lookup_insert_cases in Hj as [[-> ->]|[_ Hj]]; [done|by eapply Hpc].
  - intros t v Hin. rewrite E2. by apply Hout.
  - done.
  - done.
Qed.

(** Changing the cell of a ticket one thread owns disturbs no other thread. *)
Lemma knows_other_cell s i j pi pj t c :
  queue_inv s -> i <> j -> qs_threads s !! i = Some pi -> qs_threads s !! j = Some pj ->
  push_ticket pi = Some t \/ pop_ticket pi = Some t ->
  pc_knows (qs_buf s) (qs_deq s) (qs_enq s) (qs_hist s) pj ->
  pc_knows (<[idx t := c]> (qs_buf s)) (qs_deq s) (qs_enq s) (qs_hist s) pj.
Proof.
  intros [Hr Hpu Hpo _ _ _ _] Hij Hi Hj Hown Hknow. pose proof (cap_pos k Hk).
  pose proof Hr as [Hl [[? ?] ?] _ Hfull Hwr Hfree Hrd].
  (* the owner's cell: its sequence is t for a producer, t + 1 for a consumer *)
  assert (exists st y, qs_buf s !! idx t = Some (mkCell st y) /\
    ((push_ticket pi = Some t /\ st = t /\ qs_deq s <= t < qs_enq s) \/
     (pop_ticket pi = Some t /\ st = t + 1 /\ 0 <= t < qs_deq s))) as (st & y & Hy & Hst).
  { destruct Hown as [Ho|Ho].
    - destruct (Hwr t) as [? [y Hy]]; [apply owned_iff; eauto|]. exists t, y. auto.
    - destruct (Hrd t) as (? & _ & y & Hy); [apply owned_iff; eauto|]. exists (t + 1), y. auto. }
  assert (forall pos sp x, qs_buf s !! idx pos = Some (mkCell sp x) -> 0 <= pos ->
    (st = sp -> idx t = idx pos -> False) ->
    <[idx t := c]> (qs_buf s) !! idx pos = Some (mkCell sp x)) as Hkeep.
  { intros pos sp x Hx Hpos Hne. rewrite list_lookup_insert_ne; [done|]. intros Heq.
    rewrite <-Heq, Hy in Hx. injection Hx as ? _. by apply Hne. }
  destruct pj as [|item pos|item pos seq|item pos|pos|pos|pos seq|pos|pos v];
    cbn [pc_knows] in *; try done.
  - destruct Hknow as (? & ? & Hx). split; [done|]. split; [done|]. intros Hs He.
    destruct (Hx Hs He) as [x Hx']. exists x. apply Hkeep; [done|lia|]. intros Hsp Heq.
    destruct Hst as [(_ & -> & ?)|(_ & -> & ?)]; [lia|].
    rewrite <-Hsp in Heq. apply (idx_succ k Hk t); [lia|by symmetry].
  - destruct Hknow as (x & Hx & ?). exists x. split; [|done].
    assert (owned push_ticket (qs_threads s) pos = true) as Hw by (apply owned_iff; by eauto).
    destruct (Hwr pos Hw) as [? _]. apply Hkeep; [done|lia|]. intros Hsp Heq.
    destruct Hst as [(Ho & -> & ?)|(_ & -> & ?)].
    + subst pos. by apply Hij, (Hpu i j pi (PushWrote t) t).
    + rewrite <-Hsp in Heq. apply (idx_succ k Hk t); [lia|by symmetry].
  - destruct Hknow as (? & ? & Hx). split; [done|]. split; [done|]. intros Hs He.
    destruct (Hx Hs He) as [x Hx']. exists x. apply Hkeep; [done|lia|]. intros Hsp Heq.
    destruct Hst as [(_ & -> & ?)|(_ & -> & ?)]; [|lia].
    rewrite Hsp in Heq. apply (idx_succ k Hk pos); [lia|done].
  - destruct Hknow as (x & Hx & ?). exists x. split; [|done].
    assert (owned pop_ticket (qs_threads s) pos = true) as Hw by (apply owned_iff; by eauto).
    destruct (Hrd pos Hw) as [? _]. apply Hkeep; [done|lia|]. intros Hsp Heq.
    destruct Hst as [(_ & -> & ?)|(Ho & -> & ?)].
    + rewrite Hsp in Heq. apply (idx_succ k Hk pos); [lia|done].
    + assert (t = pos) by lia. subst pos. by apply Hij, (Hpo i j pi (PopOwn t) t).
Qed.

(** ** Every step keeps the invariant *)

Lemma queue_push_cas s i item pos seq :
  queue_inv s -> qs_threads s !! i = Some (PushSaw item pos seq) -> push_turn seq pos = Claim ->
  qs_enq s = pos -> pos + 1 + cap < 2 ^ 63 ->
  queue_inv (mkQueueState (qs_buf s) (u64 (pos + 1)) (qs_deq s)
    (<[i := PushOwn item pos]> (qs_threads s)) (qs_hist s ++ [item]) (qs_out s)).
Proof.
  intros [Hr Hpu Hpo Hpc Hout Honce Hsp] Hi Hturn He Hlt. pose proof (cap_pos k Hk).
  pose proof (Hpc i _ Hi) as (Hpos & Hseq & Hcell).
  unfold push_turn in Hturn. rewrite decide_turn_spec in Hturn by lia.
  repeat case_bool_decide; try done. destruct Hcell as [x Hx]; [lia|done|].
  rewrite wrap_small by (unfold in_range; lia).
  pose proof Hr as [_ [[? ?] ?] Hh _ Hwr _ _]. subst pos.
  pose proof (ring_claim_push k Hk _ _ _ _ _ _ Hr x item Hx) as Hr'.
  split; cbn [qs_buf qs_enq qs_deq qs_threads qs_hist qs_out].
  - eapply ring_inv_ext; [exact Hr'| |]; intros t; cbv beta; erewrite owned_insert by done; simpl.
    + by rewrite bool_decide_Some.
    + done.
  - eapply unique_insert; [done|done|]. intros t [= <-]. right.
    destruct (owned push_ticket (qs_threads s) (qs_enq s)) eqn:Ho; [|done].
    destruct (Hwr _ Ho). lia.
  - eapply unique_insert; [done|done|]. done.
  - intros j p Hj. apply lookup_insert_cases in Hj as [[-> ->]|[_ Hj]].
    + simpl. rewrite lookup_app_r by lia.
      by replace (Z.to_nat (qs_enq s) - length (qs_hist s))%nat with 0%nat by lia.
    + specialize (Hpc j p Hj). destruct p; cbn [pc_knows] in *; try done;
        try (by apply lookup_app_l_Some);
        try (destruct Hpc as (y & ? & ?); exists y; split; [done|]; by apply lookup_app_l_Some).
      * lia.
      * destruct Hpc as (? & ? & ?). split; [lia|]. split; [done|]. intros. lia.
  - intros t v Hin. destruct (Hout t v Hin) as (? & ? & Hno). split; [done|].
    split; [by apply lookup_app_l_Some|]. erewrite owned_insert by done. by rewrite Hno.
  - done.
  - lia.
Qed.

Lemma queue_push_write s i item pos cell :
  queue_inv s -> qs_threads s !! i = Some (PushOwn item pos) -> qs_buf s !! idx pos = Some cell ->
  queue_inv (mkQueueState (<[idx pos := mkCell (cell_sequence cell) item]> (qs_buf s)) (qs_enq s)
    (qs_deq s) (<[i := PushWrote pos]> (qs_threads s)) (qs_hist s) (qs_out s)).
Proof.
  intros Hinv Hi Hc. pose proof Hinv as [Hr Hpu Hpo Hpc Hout Honce Hsp].
  assert (owned push_ticket (qs_threads s) pos = true) as Hw by (apply owned_iff; by eauto).
  pose proof Hr as [Hl [[? ?] ?] _ _ Hwr _ _]. destruct (Hwr pos Hw) as [? [x Hx]].
  rewrite Hc in Hx. injection Hx as ->. cbn [cell_sequence].
  split; cbn [qs_buf qs_enq qs_deq qs_threads qs_hist qs_out].
  - eapply ring_inv_ext; [by apply (ring_write k Hk _ _ _ _ _ _ Hr pos item)| |];
      intros t; erewrite owned_insert by done; simpl; [|done].
    by destruct (bool_decide (Some pos = Some t)) eqn:Hb; simpl;
      [apply bool_decide_eq_true in Hb as [= ->]|].
  - eapply unique_insert; [done|done|]. by left.
  - by eapply unique_insert.
  - intros j p Hj. apply lookup_insert_cases in Hj as [[-> ->]|[Hne Hj]].
    + exists item. split; [apply list_lookup_insert_eq; apply (idx_lt k Hk); [done|lia]|].
      by apply (Hpc i (PushOwn item pos)).
    + by eapply (knows_other_cell s i j); eauto.
  - intros t v Hin. destruct (Hout t v Hin) as (? & ? & Hno). split; [done|]. split; [done|].
    erewrite owned_insert by done. by rewrite Hno.
  - done.
  - done.
Qed.

Lemma queue_push_publish s i pos cell :
  queue_inv s -> qs_threads s !! i = Some (PushWrote pos) -> qs_buf s !! idx pos = Some cell ->
  queue_inv (mkQueueState (<[idx pos := mkCell (u64 (pos + 1)) (cell_data cell)]> (qs_buf s))
    (qs_enq s) (qs_deq s) (<[i := QIdle]> (qs_threads s)) (qs_hist s) (qs_out s)).
Proof.
  intros Hinv Hi Hc. pose proof Hinv as [Hr Hpu Hpo Hpc Hout Honce Hsp]. pose proof (cap_pos k Hk).
  assert (owned push_ticket (qs_threads s) pos = true) as Hw by (apply owned_iff; by eauto).
  pose proof Hr as [Hl [[? ?] ?] _ _ Hwr _ _]. destruct (Hwr pos Hw) as [? _].
  destruct (Hpc i _ Hi) as (x & Hx & Hh). rewrite Hc in Hx. injection Hx as ->. cbn [cell_data].
  rewrite wrap_small by (unfold in_range; lia).
  split; cbn [qs_buf qs_enq qs_deq qs_threads qs_hist qs_out].
  - eapply ring_inv_ext; [by apply (ring_publish k Hk _ _ _ _ _ _ Hr pos x)| |];
      intros t; erewrite owned_insert by done; simpl; [|done].
    by rewrite bool_decide_Some.
  - by eapply unique_insert.
  - by eapply unique_insert.
  - intros j p Hj. apply lookup_insert_cases in Hj as [[-> ->]|[Hne Hj]]; [done|].
    by eapply (knows_other_cell s i j); eauto.
  - intros t v Hin. destruct (Hout t v Hin) as (? & ? & Hno). split; [done|]. split; [done|].
    erewrite owned_insert by done. by rewrite Hno.
  - done.
  - done.
Qed.

Lemma queue_pop_cas s i pos seq :
  queue_inv s -> qs_threads s !! i = Some (PopSaw pos seq) -> pop_turn seq pos = Claim ->
  qs_deq s = pos ->
  queue_inv (mkQueueState (qs_buf s) (qs_enq s) (u64 (pos + 1))
    (<[i := PopOwn pos]> (qs_threads s)) (qs_hist s) (qs_out s)).
Proof.
  intros [Hr Hpu Hpo Hpc Hout Honce Hsp] Hi Hturn He. pose proof (cap_pos k Hk).
  pose proof (Hpc i _ Hi) as (Hpos & Hseq & Hcell).
  pose proof Hr as [_ [[? ?] ?] Hh _ _ _ Hrd].
  unfold pop_turn in Hturn. rewrite wrap_small in Hturn by (unfold in_range; lia).
  rewrite decide_turn_spec in Hturn by lia.
  repeat case_bool_decide; try done. destruct Hcell as [x Hx]; [lia|done|].
  rewrite wrap_small by (unfold in_range; lia). subst pos.
  pose proof (ring_claim_pop k Hk _ _ _ _ _ _ Hr x Hx) as Hr'.
  destruct (ring_can_pop k Hk _ _ _ _ _ _ Hr x Hx) as (? & _ & Hhx).
  split; cbn [qs_buf qs_enq qs_deq qs_threads qs_hist qs_out].
  - eapply ring_inv_ext; [exact Hr'| |]; intros t; cbv beta; erewrite owned_insert by done; simpl.
    + done.
    + by rewrite bool_decide_Some.
  - by eapply unique_insert.
  - eapply unique_insert; [done|done|]. intros t [= <-]. right.
    destruct (owned pop_ticket (qs_threads s) (qs_deq s)) eqn:Ho; [|done].
    destruct (Hrd _ Ho). lia.
  - intros j p Hj. apply lookup_insert_cases in Hj as [[-> ->]|[_ Hj]].
    + by exists x.
    + specialize (Hpc j p Hj). destruct p; cbn [pc_knows] in *; try done; [lia|].
      destruct Hpc as (? & ? & ?). split; [lia|]. split; [done|]. intros. lia.
  - intros t v Hin. destruct (Hout t v Hin) as (? & ? & Hno). split; [lia|].
    split; [done|]. erewrite owned_insert by done. simpl. rewrite Hno, bool_decide_Some.
    rewrite bool_decide_eq_false_2 by lia. done.
  - done.
  - lia.
Qed.

Lemma queue_pop_read s i pos cell :
  queue_inv s -> qs_threads s !! i = Some (PopOwn pos) -> qs_buf s !! idx pos = Some cell ->
  queue_inv (mkQueueState (<[idx pos := mkCell (cell_sequence cell) T0]> (qs_buf s)) (qs_enq s)
    (qs_deq s) (<[i := PopRead pos (cell_data cell)]> (qs_threads s)) (qs_hist s) (qs_out s)).
Proof.
  intros Hinv Hi Hc. pose proof Hinv as [Hr Hpu Hpo Hpc Hout Honce Hsp].
  assert (owned pop_ticket (qs_threads s) pos = true) as Hw by (apply owned_iff; by eauto).
  destruct (Hpc i _ Hi) as (x & Hx & Hh). rewrite Hc in Hx. injection Hx as ->.
  cbn [cell_sequence cell_data].
  assert (forall t, owned pop_ticket (<[i := PopRead pos x]> (qs_threads s)) t =
                    owned pop_ticket (qs_threads s) t) as Hsame.
  { intros t. erewrite owned_insert by done. simpl.
    destruct (bool_decide (Some pos = Some t)) eqn:Hb; simpl; [|done].
    apply bool_decide_eq_true in Hb as [= ->]. by rewrite Hw. }
  split; cbn [qs_buf qs_enq qs_deq qs_threads qs_hist qs_out].
  - eapply ring_inv_ext; [by apply (ring_take k Hk _ _ _ _ _ _ Hr pos T0)| |done].
    intros t; by erewrite owned_insert by done.
  - by eapply unique_insert.
  - eapply unique_insert; [done|done|]. by left.
  - intros j p Hj. apply lookup_insert_cases in Hj as [[-> ->]|[Hne Hj]]; [done|].
    by eapply (knows_other_cell s i j); eauto.
  - intros t v Hin. rewrite Hsame. by apply Hout.
  - done.
  - done.
Qed.

Lemma queue_pop_release s i pos v cell :
  queue_inv s -> qs_threads s !! i = Some (PopRead pos v) -> qs_buf s !! idx pos = Some cell ->
  queue_inv (mkQueueState
    (<[idx pos := mkCell (u64 (pos + (cap - 1) + 1)) (cell_data cell)]> (qs_buf s)) (qs_enq s)
    (qs_deq s) (<[i := QIdle]> (qs_threads s)) (qs_hist s) (qs_out s ++ [(pos, v)])).
Proof.
  intros Hinv Hi Hc. pose proof Hinv as [Hr Hpu Hpo Hpc Hout Honce Hsp]. pose proof (cap_pos k Hk).
  assert (owned pop_ticket (qs_threads s) pos = true) as Hw by (apply owned_iff; by eauto).
  pose proof Hr as [Hl [[? ?] ?] _ _ _ _ Hrd]. destruct (Hrd pos Hw) as (? & ? & _).
  pose proof (Hpc i _ Hi) as Hh. simpl in Hh.
  rewrite wrap_small by (unfold in_range; lia).
  replace (pos + (cap - 1) + 1) with (pos + cap) by lia.
  split; cbn [qs_buf qs_enq qs_deq qs_threads qs_hist qs_out].
  - eapply ring_inv_ext; [by apply (ring_release k Hk _ _ _ _ _ _ Hr pos (cell_data cell))| |];
      intros t; erewrite owned_insert by done; simpl; [done|].
    by rewrite bool_decide_Some.
  - by eapply unique_insert.
  - by eapply unique_insert.
  - intros j p Hj. apply lookup_insert_cases in Hj as [[-> ->]|[Hne Hj]]; [done|].
    by eapply (knows_other_cell s i j); eauto.
  - intros t w. rewrite elem_of_app, list_elem_of_singleton. erewrite owned_insert by done. simpl.
    intros [Hin|[= -> ->]].
    + destruct (Hout t w Hin) as (? & ? & ->). by rewrite andb_false_r.
    + by rewrite bool_decide_eq_true_2.
  - rewrite fmap_app. apply list.NoDup_app. split; [done|]. split; [|by apply NoDup_singleton].
    intros t Hin Hpos. apply list_elem_of_singleton in Hpos.
    apply list_elem_of_fmap in Hin as ([t' w] & Ht' & Hin). simpl in *. subst.
    destruct (Hout pos w Hin) as (_ & _ & Hno). congruence.
  - done.
Qed.

Lemma queue_step_inv s s' : queue_inv s -> queue_step s s' -> queue_inv s'.
Proof.
  intros Hinv Hstep. pose proof Hinv as [Hr Hpu Hpo Hpc Hout Honce Hsp].
  pose proof (cap_pos k Hk). pose proof Hr as [_ [[? ?] ?] _ _ _ _ _].
  assert (forall pos cell, 0 <= pos -> qs_buf s !! idx pos = Some cell ->
    0 <= cell_sequence cell < 2 ^ 63) as Hrange.
  { intros pos cell Hpos Hc. destruct (ring_cell_range _ _ _ _ _ _ pos Hr Hpos) as (q & x & Hq & ?).
    rewrite Hc in Hq. injection Hq as ->. simpl. lia. }
  destruct Hstep as
    [s i item Hi|s i item pos cell Hi Hc|s i item pos seq Hi Ht He Hlt|s i item pos seq Hi Ht
    |s i item pos seq Hi Ht|s i item pos seq Hi Ht|s i item pos cell Hi Hc|s i pos cell Hi Hc
    |s i Hi|s i pos cell Hi Hc|s i pos seq Hi Ht He|s i pos seq Hi Ht|s i pos seq Hi Ht
    |s i pos seq Hi Ht|s i pos cell Hi Hc|s i pos v cell Hi Hc].
  1, 4, 6: eapply queue_inv_goto; [done|done|done..|simpl; lia].
  - pose proof (Hpc i _ Hi) as Hp. simpl in Hp.
    eapply queue_inv_goto; [done|done|done..|]. simpl. split; [done|].
    split; [apply (Hrange pos); [lia|done]|]. intros Hs _. rewrite Hc.
    destruct cell as [q x]; simpl in *. subst. eauto.
  - by eapply queue_push_cas.
  - by eapply queue_inv_goto.
  - by eapply queue_push_write.
  - by eapply queue_push_publish.
  - eapply queue_inv_goto; [done|done|done..|simpl; lia].
  - pose proof (Hpc i _ Hi) as Hp. simpl in Hp.
    eapply queue_inv_goto; [done|done|done..|]. simpl. split; [done|].
    split; [apply (Hrange pos); [lia|done]|]. intros Hs _. rewrite Hc.
    destruct cell as [q x]; simpl in *. subst. eauto.
  - by eapply queue_pop_cas.
  - eapply queue_inv_goto; [done|done|done..|simpl; lia].
  - by eapply queue_inv_goto.
  - eapply queue_inv_goto; [done|done|done..|simpl; lia].
  - by eapply queue_pop_read.
  - by eapply queue_pop_release.
Qed.

Lemma queue_init_inv n : queue_inv (queue_init n).
Proof.
  pose proof (cap_pos k Hk). assert (cap <= 2 ^ 62) by (apply Z.pow_le_mono_r; lia).
  assert (forall f t, f QIdle = None -> owned f (replicate n QIdle) t = false) as Hno.
  { intros f t Hf. apply not_true_iff_false. rewrite owned_iff. intros (i & p & Hi & Hp).
    apply lookup_replicate in Hi as [-> _]. congruence. }
  split; cbn [queue_init qs_buf qs_enq qs_deq qs_threads qs_hist qs_out].
  - split; try done.
    + by rewrite length_fmap, length_seqZ.
    + lia.
    + lia.
    + intros t. by rewrite Hno.
    + intros t Ht _. exists T0. rewrite idx_mod, Z.mod_small by lia.
      rewrite list_lookup_fmap, lookup_seqZ_lt by lia. simpl. do 2 f_equal. lia.
    + intros t. by rewrite Hno.
  - intros i j p q t Hi _ Hp. by apply lookup_replicate in Hi as [-> _].
  - intros i j p q t Hi _ Hp. by apply lookup_replicate in Hi as [-> _].
  - intros i p Hi. by apply lookup_replicate in Hi as [-> _].
  - intros t v Hin. by apply not_elem_of_nil in Hin.
  - constructor.
  - lia.
Qed.

Lemma queue_reachable n s : rtc queue_step (queue_init n) s -> queue_inv s.
Proof.
  intros Hr. pose proof (queue_init_inv n) as Hi.
  induction Hr as [|s s' s'' Hs _ IH]; [done|]. eauto using queue_step_inv.
Qed.
End Concurrent.
Arguments queue_pc : clear implicits.
Arguments queue_state : clear implicits.

(** A queue as its constructor leaves it, and [n] threads. *)
Definition queue_start {T} (q : BoundedQueue T) (n : nat) : queue_state T :=
  mkQueueState (bq_buffer q) (bq_enqueue_pos q) (bq_dequeue_pos q) (replicate n QIdle) [] [].

Lemma queue_start_new {T} (T0 : T) c n :
  2 <= c <= 2 ^ 62 ->
  exists k, 1 <= k <= 62 /\ round_up_pow2 c = 2 ^ k /\ Z.log2 (round_up_pow2 c) = k /\ c <= 2 ^ k /\
    queue_start (BoundedQueue_new T0 c) n = queue_init T0 k n.
Proof.
  intros Hc. destruct (round_up_pow2_least c ltac:(lia)) as (m & Hm & Hle & Hleast).
  assert (m <> 0%nat) as Hm0 by (intros ->; simpl in Hle; lia).
  assert (m <= 62)%nat as Hm62.
  { destruct (le_dec m 62) as [|Hn]; [done|]. specialize (Hleast 62%nat ltac:(lia)). lia. }
  exists (Z.of_nat m). split; [lia|]. split; [done|]. split; [by rewrite Hm, Z.log2_pow2 by lia|].
  split; [done|]. unfold queue_start, queue_init, BoundedQueue_new. simpl. by rewrite Hm.
Qed.

(** C1: the queue is a FIFO for any number of producers and consumers and any
    interleaving of their atomic accesses.  Take a queue constructed for two items or
    more (a one-cell queue is not one: [one_cell_queue_loses_and_spins]) that has not
    used up its 64-bit positions.  Each completed pop returned exactly the item accepted
    under its ticket, no ticket is popped twice, tickets are handed out to consumers in
    the order items were accepted, a cell that is claimed is claimed by one thread only,
    and never more items are in the queue than its capacity, which is the one asked for
    rounded up to a power of two. *)
Theorem queue_concurrent_fifo {T} (T0 : T) c (Hc : 2 <= c <= 2 ^ 62) n (s : queue_state T)
  (Hr : rtc (queue_step T0 (Z.log2 (round_up_pow2 c))) (queue_start (BoundedQueue_new T0 c) n) s) :
  (forall t v, (t, v) ∈ qs_out s -> qs_hist s !! Z.to_nat t = Some v /\ 0 <= t < qs_deq s) /\
  NoDup (qs_out s).*1 /\
  (forall i j p q t, qs_threads s !! i = Some p -> qs_threads s !! j = Some q ->
     push_ticket p = Some t -> push_ticket q = Some t -> i = j) /\
  (forall i j p q t, qs_threads s !! i = Some p -> qs_threads s !! j = Some q ->
     pop_ticket p = Some t -> pop_ticket q = Some t -> i = j) /\
  Z.of_nat (length (qs_hist s)) = qs_enq s /\
  qs_deq s <= qs_enq s <= qs_deq s + round_up_pow2 c /\ c <= round_up_pow2 c.
Proof.
  destruct (queue_start_new T0 c n Hc) as (k & Hk & Hpow & Hlog & Hle & Hstart).
  rewrite Hlog, Hstart in Hr. rewrite Hpow.
  destruct (queue_reachable T0 k Hk n s Hr) as [Hring Hpu Hpo Hpc Hout Honce Hsp].
  destruct Hring as [_ [[? ?] ?] Hh _ _ _ _].
  split; [intros t v Hin; by destruct (Hout t v Hin) as (? & ? & _)|].
  split; [done|]. split; [exact Hpu|]. split; [exact Hpo|]. split; [done|lia].
Qed.

(** One producer and one consumer on a queue of two cells: a push, then a pop. *)
Abbreviation sample b0 d0 enq deq p c hist out :=
  (mkQueueState [mkCell b0 d0; mkCell 1 0] enq deq [p; c] hist out).
Ltac sample_step s' H :=
  apply (rtc_l _ _ s'); [pose proof H as Hstep; vm_compute in Hstep; exact Hstep|].

Lemma sample_run :
  rtc (queue_step 0 1) (queue_init 0 1 2) (sample 2 0 1 1 QIdle QIdle [7] [(0, 7)]).
Proof.
  change (queue_init 0 1 2) with (sample 0 0 0 0 QIdle QIdle [] []).
  sample_step (sample 0 0 0 0 (PushAt 7 0) QIdle [] [])
    (q_push_start 0 1 (sample 0 0 0 0 QIdle QIdle [] []) 0 7 eq_refl).
  sample_step (sample 0 0 0 0 (PushSaw 7 0 0) QIdle [] [])
    (q_push_load 0 1 (sample 0 0 0 0 (PushAt 7 0) QIdle [] []) 0 7 0 (mkCell 0 0) eq_refl eq_refl).
  sample_step (sample 0 0 1 0 (PushOwn 7 0) QIdle [7] [])
    (q_push_cas 0 1 (sample 0 0 0 0 (PushSaw 7 0 0) QIdle [] []) 0 7 0 0 eq_refl eq_refl
       eq_refl eq_refl).
  sample_step (sample 0 7 1 0 (PushWrote 0) QIdle [7] [])
    (q_push_write 0 1 (sample 0 0 1 0 (PushOwn 7 0) QIdle [7] []) 0 7 0 (mkCell 0 0)
       eq_refl eq_refl).
  sample_step (sample 1 7 1 0 QIdle QIdle [7] [])
    (q_push_publish 0 1 (sample 0 7 1 0 (PushWrote 0) QIdle [7] []) 0 0 (mkCell 0 7)
       eq_refl eq_refl).
  sample_step (sample 1 7 1 0 QIdle (PopAt 0) [7] [])
    (q_pop_start 0 1 (sample 1 7 1 0 QIdle QIdle [7] []) 1 eq_refl).
  sample_step (sample 1 7 1 0 QIdle (PopSaw 0 1) [7] [])
    (q_pop_load 0 1 (sample 1 7 1 0 QIdle (PopAt 0) [7] []) 1 0 (mkCell 1 7) eq_refl eq_refl).
  sample_step (sample 1 7 1 1 QIdle (PopOwn 0) [7] [])
    (q_pop_cas 0 1 (sample 1 7 1 0 QIdle (PopSaw 0 1) [7] []) 1 0 1 eq_refl eq_refl eq_refl).
  sample_step (sample 1 0 1 1 QIdle (PopRead 0 7) [7] [])
    (q_pop_read 0 1 (sample 1 7 1 1 QIdle (PopOwn 0) [7] []) 1 0 (mkCell 1 7) eq_refl eq_refl).
  sample_step (sample 2 0 1 1 QIdle QIdle [7] [(0, 7)])
    (q_pop_release 0 1 (sample 1 0 1 1 QIdle (PopRead 0 7) [7] []) 1 0 7 (mkCell 1 0)
       eq_refl eq_refl).
  apply rtc_refl.
Qed.

Lemma queue_concurrent_fifo_witness :
  let s := sample 2 0 1 1 QIdle QIdle [7] [(0, 7)] in
  qs_hist s !! Z.to_nat 0 = Some 7 /\ 0 <= 0 < qs_deq s.
Proof.
  refine (proj1 (queue_concurrent_fifo 0 2 _ 2 _ sample_run) 0 7 _); [lia|].
  simpl. by apply list_elem_of_singleton.
Defined.
