(* ===== verification/DeliveryQueue.v ===== *)
(** * The delivery queue between the transport and the application

    [src/core/delivery_queue.h] and [.cpp].  The operations are defined over an
    interface, [BoundedFifo], that states what the queue needs from the ring;
    [BoundedQueue.v] discharges it.  Calls are atomic here; the race the source
    guards with [active_pushes] -- a push that is under way while the queue is
    terminated -- is the subject of [DeliveryBarrier.v]. *)
From stdpp Require Import list relations.
From S2P Require Import Prelude Enums BoundedQueue.
#[local] Open Scope Z_scope.

(** ** What the delivery queue needs from a ring *)

(** [fifo_repr n q xs]: [q] holds [xs], oldest first, and can still take [n]
    more pushes before its 64-bit positions run out. *)
Class BoundedFifo (Q T : Type) := {
  fifo_push : Q -> T -> bool * Q;
  fifo_pop : Q -> option T * Q;
  fifo_size : Q -> Z;
  fifo_capacity : Q -> Z;
  fifo_repr : nat -> Q -> list T -> Prop;
  fifo_push_law n q xs x :
    fifo_repr (S n) q xs ->
    if bool_decide (Z.of_nat (length xs) < fifo_capacity q)
    then exists q', fifo_push q x = (true, q') /\ fifo_repr n q' (xs ++ [x]) /\
           fifo_capacity q' = fifo_capacity q
    else fifo_push q x = (false, q);
  fifo_pop_law n q xs :
    fifo_repr n q xs ->
    match xs with
    | [] => fifo_pop q = (None, q)
    | x :: xs' => exists q', fifo_pop q = (Some x, q') /\ fifo_repr n q' xs' /\
                    fifo_capacity q' = fifo_capacity q
    end;
  fifo_size_law n q xs :
    fifo_repr n q xs -> fifo_size q = Z.of_nat (length xs) /\
    Z.of_nat (length xs) <= fifo_capacity q /\ 0 < fifo_capacity q;
  fifo_repr_weaken n m q xs : (m <= n)%nat -> fifo_repr n q xs -> fifo_repr m q xs
}.

(** The ring of [BoundedQueue.v] with one turn per operation. *)
Section Implementation.
Context {T : Type} (T0 : T).

Definition ring_push (q : BoundedQueue T) (x : T) : bool * BoundedQueue T :=
  default (false, q) (try_push 1 q x).
Definition ring_pop (q : BoundedQueue T) : option T * BoundedQueue T :=
  default (None, q) (try_pop T0 1 q).
Definition ring_repr (n : nat) (q : BoundedQueue T) (xs : list T) : Prop :=
  exists k, 1 <= k <= 62 /\ represents k q xs /\ bq_enqueue_pos q + 2 ^ k + Z.of_nat n < 2 ^ 63.

Lemma capacity_represents k q (xs : list T) : 1 <= k -> represents k q xs -> bq_capacity q = 2 ^ k.
Proof.
  intros Hk [_ _ (hist & [Hl _ _ _ _ _ _] & _)]. unfold bq_capacity. rewrite Hl.
  assert (0 < 2 ^ k) by (apply Z.pow_pos_nonneg; lia). lia.
Qed.

#[export, refine] Instance ring_fifo : BoundedFifo (BoundedQueue T) T :=
  {| fifo_push := ring_push; fifo_pop := ring_pop; fifo_size := bq_size;
     fifo_capacity := bq_capacity; fifo_repr := ring_repr |}.
Proof.
  - intros n q xs x (k & Hk & Hrep & Hsp). pose proof (capacity_represents k q xs ltac:(lia) Hrep) as Hc.
    rewrite Hc. unfold ring_push. case_bool_decide as Hroom.
    + destruct (try_push_room k Hk 0 q xs x Hrep ltac:(lia) Hroom) as (q' & Hp & Hrep').
      rewrite Hp. exists q'. split; [done|].
      split; [|by rewrite (capacity_represents k q' (xs ++ [x]) ltac:(lia) Hrep')].
      exists k. split; [done|]. split; [done|].
      pose proof (represents_length k Hk q' _ Hrep'). pose proof (represents_length k Hk q _ Hrep).
      assert (bq_dequeue_pos q' = bq_dequeue_pos q) as Hd.
      { unfold try_push in Hp. cbn [push_loop] in Hp.
        destruct (bq_buffer q !! _); [|done]. destruct (push_turn _ _); [|done..].
        by injection Hp as <-. }
      rewrite length_app in *. simpl in *. lia.
    + pose proof (represents_length k Hk q _ Hrep).
      pose proof Hrep as [_ _ (hist & [_ ? _ _ _ _ _] & _)].
      rewrite (try_push_full k Hk 0 q xs x Hrep ltac:(lia) ltac:(lia)). done.
  - intros n q xs (k & Hk & Hrep & Hsp). unfold ring_pop. destruct xs as [|x xs].
    + by rewrite (try_pop_empty T0 k Hk 0 q Hrep ltac:(lia)).
    + destruct (try_pop_item T0 k Hk 0 q x xs Hrep ltac:(lia)) as (q' & Hp & Hrep' & He).
      rewrite Hp. exists q'. split; [done|].
      split; [exists k; split; [done|]; split; [done|lia]|].
      by rewrite (capacity_represents k q' xs ltac:(lia) Hrep'), (capacity_represents k q _ ltac:(lia) Hrep).
  - intros n q xs (k & Hk & Hrep & _). pose proof (capacity_represents k q xs ltac:(lia) Hrep) as Hc.
    pose proof (represents_length k Hk q _ Hrep). pose proof (cap_pos k Hk).
    pose proof Hrep as [_ Hs (hist & [_ ? _ _ _ _ _] & _)]. lia.
  - intros n m q xs Hm (k & Hk & Hrep & Hsp). exists k. split; [done|]. split; [done|lia].
Defined.
End Implementation.

(** ** State and operations *)

Inductive Terminal : Type := TNone | TClosed | TInterrupted | TSessionFailed | TCallbackFailed.
#[export] Instance Terminal_eq_dec : EqDecision Terminal.
Proof. solve_decision. Defined.

Inductive ReadKind : Type :=
| KFrame | KEmpty | KTimeout | KClosed | KInterrupted | KSessionFailed | KCallbackFailed.

Definition read_kind (terminal : Terminal) : ReadKind :=
  match terminal with
  | TClosed => KClosed
  | TInterrupted => KInterrupted
  | TSessionFailed => KSessionFailed
  | TCallbackFailed => KCallbackFailed
  | TNone => KEmpty
  end.

Section Delivery.
Context {Q F : Type} `{BoundedFifo Q F}.

Record DeliveryRead : Type := mkDeliveryRead {
  dr_kind : ReadKind;
  dr_frame : option F;
  dr_error : BulkError
}.

(** [wakeup_fd] is the counter of the semaphore eventfd, [None] when the
    descriptor could not be created.  [dq_ingresses] are the ingress handles made
    so far, each with its [retired] flag. *)
Record State : Type := mkState {
  dq_queue : Q;
  dq_policy : DropPolicy;
  dq_wakeup : option Z;
  dq_accepting : bool;
  dq_terminal : Terminal;
  dq_waiting_readers : Z;
  dq_armed_reader : bool;
  dq_terminal_error : BulkError;
  dq_ingresses : list bool;
  dq_current_ingress : option nat;
  dq_taken : Z;
  dq_dropped : Z;
  dq_discarded : Z;
  dq_high_water : Z
}.

(** Field updates. *)
Definition set_queue (s : State) q := mkState q (dq_policy s) (dq_wakeup s) (dq_accepting s)
  (dq_terminal s) (dq_waiting_readers s) (dq_armed_reader s) (dq_terminal_error s) (dq_ingresses s)
  (dq_current_ingress s) (dq_taken s) (dq_dropped s) (dq_discarded s) (dq_high_water s).
Definition set_wake (s : State) w r a := mkState (dq_queue s) (dq_policy s) w (dq_accepting s)
  (dq_terminal s) r a (dq_terminal_error s) (dq_ingresses s)
  (dq_current_ingress s) (dq_taken s) (dq_dropped s) (dq_discarded s) (dq_high_water s).
Definition set_end (s : State) a t e := mkState (dq_queue s) (dq_policy s) (dq_wakeup s) a
  t (dq_waiting_readers s) (dq_armed_reader s) e (dq_ingresses s)
  (dq_current_ingress s) (dq_taken s) (dq_dropped s) (dq_discarded s) (dq_high_water s).
Definition set_ingress (s : State) l c := mkState (dq_queue s) (dq_policy s) (dq_wakeup s)
  (dq_accepting s) (dq_terminal s) (dq_waiting_readers s) (dq_armed_reader s) (dq_terminal_error s)
  l c (dq_taken s) (dq_dropped s) (dq_discarded s) (dq_high_water s).
Definition set_counts (s : State) t d c h := mkState (dq_queue s) (dq_policy s) (dq_wakeup s)
  (dq_accepting s) (dq_terminal s) (dq_waiting_readers s) (dq_armed_reader s) (dq_terminal_error s)
  (dq_ingresses s) (dq_current_ingress s) t d c h.

(** The constructor; [fd] is the result of [eventfd]. *)
Definition State_new (queue : Q) (policy : DropPolicy) (fd : option Z) : State :=
  mkState queue policy fd true TNone 0 false BulkError_default [] None 0 0 0 0.

(** [write] adds to the counter unless it would pass [2^64 - 2]; [read] on a
    semaphore takes one, or fails on zero. *)
Definition eventfd_write (w : option Z) (v : Z) : option Z :=
  match w with
  | Some n => Some (if n + v <=? 2 ^ 64 - 2 then n + v else n)
  | None => None
  end.
Definition eventfd_read (w : option Z) : option Z :=
  match w with
  | Some n => Some (if 0 <? n then n - 1 else n)
  | None => None
  end.

Definition signal_one (s : State) : State :=
  let waiting := dq_waiting_readers s in
  if negb (waiting =? 0)
  then set_wake s (eventfd_write (dq_wakeup s) 1) (waiting - 1) (dq_armed_reader s)
  else if dq_armed_reader s
  then set_wake s (eventfd_write (dq_wakeup s) 1) waiting false
  else s.

Definition signal_all (s : State) : State :=
  set_wake s (eventfd_write (dq_wakeup s) (Z.max (dq_waiting_readers s) 1)) 0 (dq_armed_reader s).

Definition remove_waiter (s : State) : State :=
  let waiting := dq_waiting_readers s in
  if negb (waiting =? 0) then set_wake s (dq_wakeup s) (waiting - 1) (dq_armed_reader s) else s.

Definition consume_one (s : State) : State :=
  set_wake s (eventfd_read (dq_wakeup s)) (dq_waiting_readers s) (dq_armed_reader s).

(** [while(read(...) > 0)]. *)
Definition drain_wakeups (s : State) : State :=
  set_wake s (match dq_wakeup s with Some _ => Some 0 | None => None end)
    (dq_waiting_readers s) (dq_armed_reader s).

Definition update_high_water (s : State) (depth : Z) : State :=
  set_counts s (dq_taken s) (dq_dropped s) (dq_discarded s)
    (if dq_high_water s <? depth then depth else dq_high_water s).

(** The queue operations of the state. *)
Definition state_push (s : State) (frame : F) : bool * State :=
  let '(b, q) := fifo_push (dq_queue s) frame in (b, set_queue s q).
Definition state_pop (s : State) : option F * State :=
  let '(o, q) := fifo_pop (dq_queue s) in (o, set_queue s q).

Definition count_taken (s : State) : State :=
  set_counts s (u64 (dq_taken s + 1)) (dq_dropped s) (dq_discarded s) (dq_high_water s).
Definition count_dropped (s : State) : State :=
  set_counts s (dq_taken s) (u64 (dq_dropped s + 1)) (dq_discarded s) (dq_high_water s).
Definition count_discarded (s : State) (n : Z) : State :=
  set_counts s (dq_taken s) (dq_dropped s) (u64 (dq_discarded s + n)) (dq_high_water s).

(** [push_frame]; [ingress] is an index of [dq_ingresses].  [active_pushes] is
    zero before and after. *)
Definition push_frame (s : State) (ingress : option nat) (frame : F) : bool * State :=
  let current := match ingress with
                 | None => true
                 | Some i => negb (default true (dq_ingresses s !! i))
                 end in
  let accepting := dq_accepting s in
  if negb current || negb accepting then (false, count_discarded s 1) else
  let '(queued, s) := state_push s frame in
  let '(queued, dropped, s) :=
    if negb queued && bool_decide (dq_policy s = DropOldest) then
      match state_pop s with
      | (Some oldest, s) =>
          let s := consume_one s in
          let '(queued, s) := state_push s frame in
          (queued, true, s)
      | (None, s) => (queued, false, s)
      end
    else (queued, false, s) in
  let dropped := dropped || negb queued in
  let s := if dropped then count_dropped s else s in
  let s := if queued then signal_one (update_high_water s (fifo_size (dq_queue s))) else s in
  (queued, s).

Definition push (s : State) (frame : F) : bool * State := push_frame s None frame.

(** [make_ingress] and [retire_ingress]; no push is under way. *)
Definition retire (s : State) (i : option nat) : list bool :=
  match i with Some i => <[i := true]> (dq_ingresses s) | None => dq_ingresses s end.
Definition make_ingress (s : State) : nat * State :=
  let fresh := length (dq_ingresses s) in
  (fresh, set_ingress s (retire s (dq_current_ingress s) ++ [false]) (Some fresh)).
Definition retire_ingress (s : State) : State :=
  set_ingress s (retire s (dq_current_ingress s)) None.

(** [while(queue.try_pop(frame))] with [each] after every pop; the queue holds
    at most [fifo_size] items. *)
Fixpoint pop_all (fuel : nat) (each : State -> State) (s : State) (n : Z) : Z * State :=
  match fuel with
  | O => (n, s)
  | S fuel =>
      match state_pop s with
      | (Some _, s) => pop_all fuel each (each s) (n + 1)
      | (None, s) => (n, s)
      end
  end.
Definition pop_fuel (s : State) : nat := S (Z.to_nat (fifo_size (dq_queue s))).

Definition discard (s : State) : Z * State :=
  let '(n, s) := pop_all (pop_fuel s) consume_one s 0 in
  (n, drain_wakeups (count_discarded s n)).

Definition set_terminal (s : State) (terminal : Terminal) (error : BulkError)
    (wait_for_pushes discard : bool) : State :=
  if bool_decide (dq_terminal s <> TNone) then s else
  let s := set_end s false (dq_terminal s) (dq_terminal_error s) in
  let s :=
    if discard then
      drain_wakeups (snd (pop_all (pop_fuel s) (fun s => count_discarded s 1) s 0))
    else if bool_decide (terminal = TInterrupted)
    then count_discarded s (fifo_size (dq_queue s))
    else s in
  signal_all (set_end s (dq_accepting s) terminal error).

Definition fail (s : State) (error : BulkError) : State :=
  set_terminal s TSessionFailed error true false.
Definition callback_failed (s : State) (error : BulkError) : State :=
  set_terminal s TCallbackFailed error true true.
Definition close (s : State) : State := set_terminal s TClosed BulkError_default true true.
Definition interrupt (s : State) : State :=
  set_terminal s TInterrupted BulkError_default false false.

Record Stats : Type := mkStats {
  st_depth : Z; st_capacity : Z; st_taken : Z; st_dropped : Z; st_discarded : Z; st_high_water : Z
}.

Definition stats (s : State) : Stats :=
  mkStats (if bool_decide (dq_terminal s = TInterrupted) then 0 else fifo_size (dq_queue s))
    (fifo_capacity (dq_queue s)) (dq_taken s) (dq_dropped s) (dq_discarded s) (dq_high_water s).

Definition arm (s : State) (b : bool) : State :=
  set_wake s (dq_wakeup s) (dq_waiting_readers s) b.

Definition take_one (s : State) : option F * State :=
  match state_pop s with
  | (None, s) => (None, s)
  | (Some out, s) => (Some out, count_taken (consume_one (arm s false)))
  end.

(** The second attempt after arming finds what another thread pushed. *)
Definition try_take (s : State) : option F * State :=
  match take_one s with
  | (Some out, s) => (Some out, s)
  | (None, s) => take_one (arm s true)
  end.

Definition terminal_result (s : State) (terminal : Terminal) : DeliveryRead :=
  mkDeliveryRead (read_kind terminal) None
    (if bool_decide (terminal = TSessionFailed) || bool_decide (terminal = TCallbackFailed)
     then dq_terminal_error s else BulkError_default).

(** The part common to [try_read_result] and one turn of [read_result]: a
    result, or nothing yet. *)
Definition read_once (s : State) : option DeliveryRead * State :=
  if bool_decide (dq_terminal s <> TNone) && bool_decide (dq_terminal s <> TSessionFailed)
  then (Some (terminal_result s (dq_terminal s)), s) else
  match take_one s with
  | (Some frame, s) => (Some (mkDeliveryRead KFrame (Some frame) BulkError_default), s)
  | (None, s) =>
      if bool_decide (dq_terminal s <> TNone)
      then (Some (terminal_result s (dq_terminal s)), s) else (None, s)
  end.

Definition try_read_result (s : State) : DeliveryRead * State :=
  match read_once s with
  | (Some r, s) => (r, s)
  | (None, s) => (mkDeliveryRead KEmpty None BulkError_default, arm s true)
  end.

(** What happens while a reader sleeps in [await]: the deadline has passed, or
    the other threads do [others] and [poll] reports [ready]. *)
Inductive wait_event : Type :=
| DeadlinePassed
| Slept (others : State -> State) (ready : bool).

Definition await (s : State) (event : wait_event) : bool * State :=
  match event with
  | DeadlinePassed => (false, s)
  | Slept others ready =>
      let s := set_wake s (dq_wakeup s) (u64 (dq_waiting_readers s + 1)) false in
      if negb (fifo_size (dq_queue s) =? 0) || bool_decide (dq_terminal s <> TNone)
      then (true, remove_waiter s)
      else match dq_wakeup s with
           | None => (true, remove_waiter (others s))
           | Some _ =>
               let s := others s in
               let s := if ready then consume_one s else s in
               (ready, remove_waiter s)
           end
  end.

(** [read_result]: one event per sleep; [None] while it still waits. *)
Fixpoint read_result (s : State) (events : list wait_event) : option DeliveryRead * State :=
  match read_once s with
  | (Some r, s) => (Some r, s)
  | (None, s) =>
      match events with
      | [] => (None, s)
      | event :: events =>
          match await s event with
          | (false, s) => (Some (mkDeliveryRead KTimeout None BulkError_default), arm s true)
          | (true, s) => read_result s events
          end
      end
  end.

(** [take]: the frame or nothing; [None] while it still waits. *)
Fixpoint take (s : State) (events : list wait_event) : option (option F) * State :=
  match take_one s with
  | (Some frame, s) => (Some (Some frame), s)
  | (None, s) =>
      if bool_decide (dq_terminal s <> TNone) then (Some None, s) else
      match events with
      | [] => (None, s)
      | event :: events =>
          match await s event with
          | (false, s) => (Some None, s)
          | (true, s) => take s events
          end
      end
  end.

(** ** What a state represents *)

(** [xs] is the queue, oldest first; [pushed] the number of frames offered so
    far; [n] more pushes fit the 64-bit counters. *)
Record dq_inv (n : nat) (s : State) (xs : list F) (pushed : Z) : Prop := {
  dv_repr : fifo_repr n (dq_queue s) xs;
  dv_accepting : dq_accepting s = bool_decide (dq_terminal s = TNone);
  dv_counts : 0 <= dq_taken s /\ 0 <= dq_dropped s /\ 0 <= dq_discarded s;
  dv_space : pushed + Z.of_nat n < 2 ^ 64;
  dv_account :
    dq_taken s + dq_dropped s + dq_discarded s +
      (if bool_decide (dq_terminal s = TInterrupted) then 0 else Z.of_nat (length xs)) = pushed;
  dv_high : 0 <= dq_high_water s <= fifo_capacity (dq_queue s) /\
    (dq_terminal s = TNone -> Z.of_nat (length xs) <= dq_high_water s)
}.

(** The fields of the state the invariant does not read. *)
Lemma dq_inv_wake n s xs p w r a : dq_inv n s xs p -> dq_inv n (set_wake s w r a) xs p.
Proof. by intros []; split. Qed.
Lemma dq_inv_ingress n s xs p l c : dq_inv n s xs p -> dq_inv n (set_ingress s l c) xs p.
Proof. by intros []; split. Qed.
Lemma dq_inv_weaken n m s xs p : (m <= n)%nat -> dq_inv n s xs p -> dq_inv m s xs p.
Proof. intros Hm []. split; try done; [by eapply fifo_repr_weaken|lia]. Qed.

Lemma signal_one_wake s : exists w r a, signal_one s = set_wake s w r a.
Proof.
  unfold signal_one. destruct (negb _); [by eexists _, _, _|].
  destruct (dq_armed_reader s) eqn:Ha; [by eexists _, _, _|].
  exists (dq_wakeup s), (dq_waiting_readers s), (dq_armed_reader s). by destruct s.
Qed.
Lemma remove_waiter_wake s : exists w r a, remove_waiter s = set_wake s w r a.
Proof.
  unfold remove_waiter. destruct (negb _); [by eexists _, _, _|].
  exists (dq_wakeup s), (dq_waiting_readers s), (dq_armed_reader s). by destruct s.
Qed.

Lemma state_push_spec n s xs x :
  fifo_repr (S n) (dq_queue s) xs ->
  (Z.of_nat (length xs) < fifo_capacity (dq_queue s) /\
   exists q, state_push s x = (true, set_queue s q) /\ fifo_repr n q (xs ++ [x]) /\
     fifo_capacity q = fifo_capacity (dq_queue s)) \/
  (Z.of_nat (length xs) = fifo_capacity (dq_queue s) /\ state_push s x = (false, s)).
Proof.
  intros Hr. pose proof (fifo_push_law n _ xs x Hr) as Hp.
  pose proof (fifo_size_law _ _ _ Hr) as (_ & ? & _). unfold state_push.
  case_bool_decide as Hc.
  - destruct Hp as (q & -> & ? & ?). left. eauto.
  - rewrite Hp. right. split; [lia|]. by destruct s.
Qed.

Lemma state_pop_spec n s xs :
  fifo_repr n (dq_queue s) xs ->
  match xs with
  | [] => state_pop s = (None, s)
  | x :: xs' => exists q, state_pop s = (Some x, set_queue s q) /\ fifo_repr n q xs' /\
                  fifo_capacity q = fifo_capacity (dq_queue s)
  end.
Proof.
  intros Hr. pose proof (fifo_pop_law n _ xs Hr) as Hp. unfold state_pop.
  destruct xs as [|x xs]; [rewrite Hp; by destruct s|].
  destruct Hp as (q & -> & ? & ?). eauto.
Qed.

(** ** Pushing *)

(** The queue after an accepted push, and whether a frame was lost. *)
Definition pushed_queue (policy : DropPolicy) (cap : Z) (xs : list F) (x : F)
    : bool * bool * list F :=
  if bool_decide (Z.of_nat (length xs) < cap) then (true, false, xs ++ [x])
  else if bool_decide (policy = DropOldest) then (true, true, tail xs ++ [x])
  else (false, true, xs).

Definition ingress_current (s : State) (ingress : option nat) : bool :=
  match ingress with
  | None => true
  | Some i => negb (default true (dq_ingresses s !! i))
  end.

(** The end of a push that queued its frame: high water, then the wake-up. *)
Lemma finish_push n s pushed :
  pushed + Z.of_nat (S n) < 2 ^ 64 -> 0 <= dq_high_water s <= fifo_capacity (dq_queue s) ->
  forall s1 xs1, fifo_repr n (dq_queue s1) xs1 ->
  fifo_capacity (dq_queue s1) = fifo_capacity (dq_queue s) -> dq_accepting s1 = true ->
  dq_terminal s1 = TNone -> dq_high_water s1 = dq_high_water s -> 0 <= dq_taken s1 ->
  0 <= dq_dropped s1 -> 0 <= dq_discarded s1 ->
  dq_taken s1 + dq_dropped s1 + dq_discarded s1 + Z.of_nat (length xs1) = pushed + 1 ->
  exists s', signal_one (update_high_water s1 (fifo_size (dq_queue s1))) = s' /\
    dq_inv n s' xs1 (pushed + 1) /\ dq_terminal s' = TNone /\ dq_taken s' = dq_taken s1 /\
    dq_discarded s' = dq_discarded s1 /\ dq_dropped s' = dq_dropped s1.
Proof.
  intros Hsp Hhw s1 xs1 Hr1 Hc1 Ha1 Ht1 Hh1 ? ? ? Hs1.
  destruct (fifo_size_law _ _ _ Hr1) as (Hsz & ? & _).
  destruct (signal_one_wake (update_high_water s1 (fifo_size (dq_queue s1)))) as (w & r & a & ->).
  eexists. split; [done|]. split; [|done]. apply dq_inv_wake. split; simpl.
  - done.
  - by rewrite Ha1, Ht1.
  - done.
  - lia.
  - by rewrite Ht1, bool_decide_eq_false_2 by done.
  - rewrite Hsz, Hh1. destruct (Z.ltb_spec (dq_high_water s) (Z.of_nat (length xs1))); lia.
Qed.

(** A push into an open queue, field by field. *)
Lemma push_frame_open n s xs pushed i x :
  dq_inv (S n) s xs pushed -> ingress_current s i = true -> dq_terminal s = TNone ->
  let '(queued, lost, xs') := pushed_queue (dq_policy s) (fifo_capacity (dq_queue s)) xs x in
  exists s', push_frame s i x = (queued, s') /\ dq_inv n s' xs' (pushed + 1) /\
    dq_terminal s' = TNone /\ dq_taken s' = dq_taken s /\ dq_discarded s' = dq_discarded s /\
    dq_dropped s' = dq_dropped s + (if lost then 1 else 0).
Proof.
  intros [Hr Hacc (? & ? & ?) Hsp Hsum Hhw] Hcur Hterm.
  unfold push_frame. fold (ingress_current s i). rewrite Hcur, Hacc, Hterm.
  rewrite bool_decide_eq_true_2 by done. cbn [negb orb].
  rewrite Hterm, bool_decide_eq_false_2 in Hsum by done.
  pose proof (fifo_size_law _ _ _ Hr) as (_ & Hle & Hpos). unfold pushed_queue.
  pose proof (finish_push n s pushed ltac:(lia) (proj1 Hhw)) as Hfinish.
  destruct (state_push_spec n s xs x Hr) as [(Hlt & q & -> & Hrq & Hcq)|(Heq & ->)].
  - rewrite bool_decide_eq_true_2 by done. cbn [negb andb orb].
    destruct (Hfinish (set_queue s q) (xs ++ [x])) as (s' & Hs' & Hi & ? & ? & ? & ?); simpl;
      try (by rewrite Hacc, Hterm); try (rewrite length_app; simpl; lia); try done.
    exists s'. split; [by rewrite <-Hs'|]. split; [done|]. simpl in *. split_all; done || lia.
  - rewrite bool_decide_eq_false_2 by lia. cbn [negb andb orb].
    destruct (decide (dq_policy s = DropOldest)) as [Hpol|Hpol];
      [rewrite !(bool_decide_eq_true_2 _ Hpol)|rewrite !(bool_decide_eq_false_2 _ Hpol)].
    + destruct xs as [|oldest xs]; [simpl in Heq; lia|].
      pose proof (state_pop_spec (S n) s (oldest :: xs) Hr) as (q & -> & Hrq & Hcq).
      unfold consume_one. simpl.
      destruct (state_push_spec n (set_wake (set_queue s q) (eventfd_read (dq_wakeup s))
        (dq_waiting_readers s) (dq_armed_reader s)) xs x Hrq)
        as [(Hlt & q2 & Hpush & Hrq2 & Hcq2)|(Heq2 & Hpush)]; [|simpl in *; lia].
      simpl in Hpush. rewrite Hpush. cbn [negb orb]. simpl in *.
      destruct (Hfinish (count_dropped (set_queue (set_wake (set_queue s q)
        (eventfd_read (dq_wakeup s)) (dq_waiting_readers s) (dq_armed_reader s)) q2))
        (xs ++ [x])) as (s' & Hs' & Hi & ? & ? & ? & Hdr); simpl;
        try (by rewrite Hacc, Hterm); try congruence;
        try (rewrite ?length_app, wrap_small by (unfold in_range; lia); simpl; lia); try done.
      exists s'. split; [by rewrite <-Hs'|]. split; [done|]. simpl in *.
      rewrite wrap_small in Hdr by (unfold in_range; lia). split_all; done || lia.
    + eexists. split; [done|]. unfold count_dropped. split; [split; simpl|].
      * by eapply fifo_repr_weaken; [|exact Hr]; lia.
      * done.
      * rewrite wrap_small by (unfold in_range; lia). lia.
      * lia.
      * rewrite Hterm, bool_decide_eq_false_2 by done.
        rewrite wrap_small by (unfold in_range; lia). lia.
      * rewrite Hterm in *. done.
      * simpl. rewrite wrap_small by (unfold in_range; lia). done.
Qed.

(** A push the queue does not take: retired ingress, or terminated queue. *)
Lemma push_frame_closed n s xs pushed i x :
  dq_inv (S n) s xs pushed -> ingress_current s i = false \/ dq_terminal s <> TNone ->
  push_frame s i x = (false, count_discarded s 1) /\
  dq_inv n (count_discarded s 1) xs (pushed + 1).
Proof.
  intros [Hr Hacc (? & ? & ?) Hsp Hsum Hhw] Hno. split.
  - unfold push_frame. fold (ingress_current s i). rewrite Hacc.
    destruct Hno as [->|Hterm]; [done|]. rewrite bool_decide_eq_false_2 by done.
    by rewrite orb_true_r.
  - assert (0 <= dq_discarded s <= pushed) 
      by (destruct (bool_decide (dq_terminal s = TInterrupted)); lia).
    split; simpl; rewrite ?wrap_small by (unfold in_range; lia).
    + by eapply fifo_repr_weaken; [|exact Hr]; lia.
    + done.
    + lia.
    + lia.
    + destruct (bool_decide _); lia.
    + done.
Qed.

(** ** Taking *)

Lemma take_one_spec n s xs pushed :
  dq_inv n s xs pushed -> dq_terminal s <> TInterrupted ->
  match xs with
  | [] => take_one s = (None, s)
  | x :: xs' => exists s', take_one s = (Some x, s') /\ dq_inv n s' xs' pushed /\
      dq_terminal s' = dq_terminal s /\ dq_terminal_error s' = dq_terminal_error s /\
      dq_taken s' = dq_taken s + 1
  end.
Proof.
  intros [Hr Hacc (? & ? & ?) Hsp Hsum Hhw] Hterm. pose proof (state_pop_spec n s xs Hr) as Hp.
  rewrite bool_decide_eq_false_2 in Hsum by done.
  unfold take_one. destruct xs as [|x xs]; [by rewrite Hp|].
  destruct Hp as (q & -> & Hrq & Hcq). eexists. split; [done|].
  simpl in Hsum. split; [|simpl; rewrite wrap_small by (unfold in_range; lia); done].
  split; simpl; rewrite ?wrap_small by (unfold in_range; lia).
  - done.
  - done.
  - lia.
  - lia.
  - rewrite bool_decide_eq_false_2 by done. lia.
  - rewrite Hcq. destruct Hhw as [? Hhw]. split; [done|]. intros Ht. specialize (Hhw Ht).
    simpl in Hhw. lia.
Qed.

(** Emptying the queue: [P k] holds after [k] pops. *)
Lemma pop_all_spec n each (P : nat -> State -> Prop) :
  (forall s, dq_queue (each s) = dq_queue s) ->
  (forall k s q, P k s -> P (S k) (each (set_queue s q))) ->
  forall xs fuel k s m, fifo_repr n (dq_queue s) xs -> (length xs < fuel)%nat -> P k s ->
  exists s', pop_all fuel each s m = (m + Z.of_nat (length xs), s') /\
    fifo_repr n (dq_queue s') [] /\ fifo_capacity (dq_queue s') = fifo_capacity (dq_queue s) /\
    P (k + length xs)%nat s'.
Proof.
  intros Heach HP. induction xs as [|x xs IH]; intros [|fuel] k s m Hr Hl Hk; simpl in Hl; try lia;
    cbn [pop_all]; pose proof (state_pop_spec n s _ Hr) as Hp.
  - rewrite Hp. exists s. rewrite Nat.add_0_r. split; [f_equal; simpl; lia|]. by repeat split.
  - destruct Hp as (q & -> & Hrq & Hcq).
    destruct (IH fuel (S k) (each (set_queue s q)) (m + 1)) as (s' & -> & Hr' & Hc' & Hk').
    { by rewrite Heach. }
    { lia. }
    { by apply HP. }
    exists s'. rewrite Heach in Hc'. split; [f_equal; simpl; lia|]. split; [done|].
    split; [simpl in *; congruence|]. simpl. by rewrite <-Nat.add_succ_comm.
Qed.

(** What emptying the queue leaves alone. *)
Definition same_delivery (s s' : State) : Prop :=
  dq_policy s' = dq_policy s /\ dq_accepting s' = dq_accepting s /\
  dq_terminal s' = dq_terminal s /\ dq_terminal_error s' = dq_terminal_error s /\
  dq_taken s' = dq_taken s /\ dq_dropped s' = dq_dropped s /\ dq_high_water s' = dq_high_water s.

Lemma pop_fuel_enough n s xs : fifo_repr n (dq_queue s) xs -> (length xs < pop_fuel s)%nat.
Proof. intros Hr. destruct (fifo_size_law _ _ _ Hr) as (Hs & _). unfold pop_fuel. lia. Qed.

Lemma discard_spec n s xs pushed :
  dq_inv n s xs pushed -> dq_terminal s <> TInterrupted ->
  exists s', discard s = (Z.of_nat (length xs), s') /\ dq_inv n s' [] pushed /\
    same_delivery s s' /\ dq_discarded s' = dq_discarded s + Z.of_nat (length xs).
Proof.
  intros [Hr Hacc (? & ? & ?) Hsp Hsum Hhw] Hterm.
  rewrite bool_decide_eq_false_2 in Hsum by done. unfold discard.
  destruct (pop_all_spec n consume_one (fun _ s' => same_delivery s s' /\
    dq_discarded s' = dq_discarded s)) with (xs := xs) (fuel := pop_fuel s) (k := 0%nat)
    (s := s) (m := 0) as (s1 & -> & Hr1 & Hc1 & (Hsd & Hd)).
  - done.
  - done.
  - done.
  - by eapply pop_fuel_enough.
  - split; [|done]. by repeat split.
  - destruct Hsd as (E1 & E2 & E3 & E4 & E5 & E6 & E7). simpl.
    eexists. split; [done|]. split; [|simpl; rewrite Hd, wrap_small by (unfold in_range; lia);
      split; [by repeat split|lia]].
    split; simpl; rewrite ?Hd, ?wrap_small by (unfold in_range; lia).
    + done.
    + by rewrite E2, E3.
    + lia.
    + done.
    + rewrite E3, bool_decide_eq_false_2 by done. lia.
    + rewrite E7, Hc1. split; [apply Hhw|]. lia.
Qed.

(** Terminating the queue on each of its branches. *)
Lemma set_terminal_spec n s xs pushed t e wait d :
  dq_inv n s xs pushed -> dq_terminal s = TNone -> t <> TNone -> (d = true -> t <> TInterrupted) ->
  exists s', set_terminal s t e wait d = s' /\
    dq_inv n s' (if d then [] else xs) pushed /\ dq_terminal s' = t /\
    dq_terminal_error s' = e /\ dq_taken s' = dq_taken s /\ dq_dropped s' = dq_dropped s.
Proof.
  intros [Hr Hacc (? & ? & ?) Hsp Hsum Hhw] Hterm Ht Hd. unfold set_terminal.
  rewrite Hterm, bool_decide_eq_false_2 in Hsum by done.
  rewrite bool_decide_eq_false_2 by (rewrite Hterm; naive_solver).
  set (s0 := set_end s false (dq_terminal s) (dq_terminal_error s)). destruct d.
  - destruct (pop_all_spec n (fun s => count_discarded s 1) (fun k s' => same_delivery s0 s' /\
      (Z.of_nat k <= Z.of_nat (length xs) -> dq_discarded s' = dq_discarded s + Z.of_nat k)))
      with (xs := xs) (fuel := pop_fuel s0) (k := 0%nat) (s := s0) (m := 0)
      as (s1 & -> & Hr1 & Hc1 & (Hsd & Hdi)).
    + done.
    + intros k s1 q [Hsd Hdi]. split; [done|]. intros Hk. simpl. rewrite Hdi by lia.
      rewrite wrap_small by (unfold in_range; lia). lia.
    + done.
    + by eapply pop_fuel_enough.
    + split; [by repeat split|]. simpl. lia.
    + destruct Hsd as (E1 & E2 & E3 & E4 & E5 & E6 & E7). simpl in *.
      specialize (Hdi ltac:(lia)). eexists. split; [done|]. split; [|by repeat split].
      apply dq_inv_wake. split; simpl.
      * done.
      * rewrite E2. symmetry. by apply bool_decide_eq_false_2.
      * lia.
      * done.
      * rewrite bool_decide_eq_false_2 by auto. lia.
      * rewrite E7, Hc1. split; [apply Hhw|by intros ?].
  - destruct (fifo_size_law _ _ _ Hr) as (Hsz & _). simpl.
    destruct (decide (t = TInterrupted)) as [->|Hni].
    + rewrite bool_decide_eq_true_2 by done. eexists. split; [done|].
      split; [|by repeat split]. apply dq_inv_wake.
      split; simpl; rewrite ?Hsz, ?wrap_small by (unfold in_range; lia); try done.
      * lia.
      * lia.
      * split; [apply Hhw|done].
    + rewrite (bool_decide_eq_false_2 (t = TInterrupted)) by done. eexists. split; [done|].
      split; [|by repeat split]. apply dq_inv_wake. split; simpl; try done.
      * symmetry. by apply bool_decide_eq_false_2.
      * by rewrite bool_decide_eq_false_2.
      * split; [apply Hhw|by intros ?].
Qed.

(** ** Reading *)

(** A reader may take frames while the queue is open and after a session failure. *)
Definition readable (s : State) : Prop := dq_terminal s = TNone \/ dq_terminal s = TSessionFailed.

Lemma try_read_frame n s x xs pushed :
  dq_inv n s (x :: xs) pushed -> readable s ->
  exists s', try_read_result s = (mkDeliveryRead KFrame (Some x) BulkError_default, s') /\
    dq_inv n s' xs pushed /\ dq_terminal s' = dq_terminal s /\
    dq_terminal_error s' = dq_terminal_error s.
Proof.
  intros Hi Hrd. assert (dq_terminal s <> TInterrupted) as Hni by (by destruct Hrd as [-> | ->]).
  destruct (take_one_spec n s (x :: xs) pushed Hi Hni) as (s' & Ht & Hi' & He1 & He2 & _).
  exists s'. split; [|done]. unfold try_read_result, read_once.
  assert (bool_decide (dq_terminal s <> TNone) && bool_decide (dq_terminal s <> TSessionFailed) =
    false) as ->; [|by rewrite Ht].
  destruct Hrd as [-> | ->]; done.
Qed.

Lemma try_read_drained n s pushed :
  dq_inv n s [] pushed -> dq_terminal s = TSessionFailed ->
  try_read_result s = (mkDeliveryRead KSessionFailed None (dq_terminal_error s), s).
Proof.
  intros Hi Ht. assert (dq_terminal s <> TInterrupted) as Hni by (by rewrite Ht).
  pose proof (take_one_spec n s [] pushed Hi Hni) as Hto.
  unfold try_read_result, read_once. rewrite Ht. simpl. rewrite Hto, Ht. done.
Qed.

Lemma try_read_ended s :
  dq_terminal s = TClosed \/ dq_terminal s = TInterrupted \/ dq_terminal s = TCallbackFailed ->
  try_read_result s = (terminal_result s (dq_terminal s), s).
Proof. unfold try_read_result, read_once. by intros [-> |[-> | ->]]. Qed.

Lemma try_read_empty n s pushed :
  dq_inv n s [] pushed -> dq_terminal s = TNone ->
  try_read_result s = (mkDeliveryRead KEmpty None BulkError_default, arm s true).
Proof.
  intros Hi Ht. assert (dq_terminal s <> TInterrupted) as Hni by (by rewrite Ht).
  pose proof (take_one_spec n s [] pushed Hi Hni) as Hto.
  unfold try_read_result, read_once. rewrite Ht. simpl. rewrite Hto, Ht. done.
Qed.

(** [m] calls of [try_read_result] in a row. *)
Fixpoint reads (m : nat) (s : State) : list DeliveryRead * State :=
  match m with
  | O => ([], s)
  | S m => let '(r, s) := try_read_result s in let '(rs, s) := reads m s in (r :: rs, s)
  end.

Lemma reads_ended m s r : try_read_result s = (r, s) -> reads m s = (replicate m r, s).
Proof. intros Hr. induction m as [|m IH]; simpl; [done|]. by rewrite Hr, IH. Qed.

Lemma reads_drain n xs : forall s pushed m,
  dq_inv n s xs pushed -> dq_terminal s = TSessionFailed ->
  exists s', reads (length xs + m) s =
    (map (fun x => mkDeliveryRead KFrame (Some x) BulkError_default) xs ++
     replicate m (mkDeliveryRead KSessionFailed None (dq_terminal_error s)), s').
Proof.
  induction xs as [|x xs IH]; intros s pushed m Hi Ht.
  - exists s. simpl. apply reads_ended. by eapply try_read_drained.
  - destruct (try_read_frame n s x xs pushed Hi) as (s1 & Hr & Hi1 & Ht1 & He1); [by right|].
    destruct (IH s1 pushed m Hi1) as (s' & Hrs); [congruence|].
    exists s'. simpl. rewrite Hr, Hrs, He1. done.
Qed.

(** ** Sequences of operations *)

Inductive dq_op : Type :=
| OpPush (ingress : option nat) (frame : F)
| OpRead
| OpTake
| OpFail (error : BulkError)
| OpCallbackFailed (error : BulkError)
| OpClose
| OpInterrupt
| OpDiscard
| OpMakeIngress
| OpRetireIngress.

Definition apply_op (s : State) (op : dq_op) : State :=
  match op with
  | OpPush i x => snd (push_frame s i x)
  | OpRead => snd (try_read_result s)
  | OpTake => snd (try_take s)
  | OpFail e => fail s e
  | OpCallbackFailed e => callback_failed s e
  | OpClose => close s
  | OpInterrupt => interrupt s
  | OpDiscard => snd (discard s)
  | OpMakeIngress => snd (make_ingress s)
  | OpRetireIngress => retire_ingress s
  end.

Definition run (s : State) (ops : list dq_op) : State := fold_left apply_op ops s.

Definition pushes (op : dq_op) : nat := match op with OpPush _ _ => 1%nat | _ => 0%nat end.
Definition count_pushes (ops : list dq_op) : nat := sum_list_with pushes ops.

(** Interrupting is constant-time: it counts the queued frames as discarded and
    leaves them in the ring.  What leaves the ring afterwards is counted again. *)
Definition recounted_by (s : State) (op : dq_op) : Z :=
  if bool_decide (dq_terminal s = TInterrupted)
  then fifo_size (dq_queue s) - fifo_size (dq_queue (apply_op s op)) else 0.
Fixpoint recounted (s : State) (ops : list dq_op) : Z :=
  match ops with
  | [] => 0
  | op :: ops => recounted_by s op + recounted (apply_op s op) ops
  end.

(** What an operation that is not a push may do to the queue of a state with the
    invariant; [m] frames were pushed. *)
Definition kept_by (n : nat) (s s' : State) (xs : list F) (pushed m : Z) : Prop :=
  exists xs', dq_inv n s' xs' (pushed + m) /\ Z.of_nat (length xs') <= Z.of_nat (length xs) + m /\
    (dq_terminal s = TInterrupted -> dq_terminal s' = TInterrupted /\ xs' = xs).

Lemma kept_by_same n s s' xs p :
  dq_inv n s' xs p -> dq_terminal s' = dq_terminal s -> kept_by n s s' xs p 0.
Proof. intros ? Ht. exists xs. rewrite Z.add_0_r, Ht. split; [done|]. split; [lia|done]. Qed.

Lemma set_terminal_kept n s xs pushed t e wait d :
  dq_inv n s xs pushed -> t <> TNone -> (d = true -> t <> TInterrupted) ->
  kept_by n s (set_terminal s t e wait d) xs pushed 0.
Proof.
  intros Hi Ht Hd. destruct (decide (dq_terminal s = TNone)) as [Hn|Hn].
  - destruct (set_terminal_spec n s xs pushed t e wait d Hi Hn Ht Hd) as (s' & -> & ? & _).
    exists (if d then [] else xs). rewrite Z.add_0_r. split; [done|]. rewrite Hn.
    split; [destruct d; simpl; lia|done].
  - unfold set_terminal. rewrite bool_decide_eq_true_2 by done. by apply kept_by_same.
Qed.

Lemma push_kept n s xs pushed i x :
  dq_inv (S n) s xs pushed -> kept_by n s (snd (push_frame s i x)) xs pushed 1.
Proof.
  intros Hi. destruct (ingress_current s i && bool_decide (dq_terminal s = TNone)) eqn:Hc.
  - apply andb_true_iff in Hc as [Hc Ht]. apply bool_decide_eq_true in Ht.
    pose proof (push_frame_open n s xs pushed i x Hi Hc Ht) as Hp.
    destruct (pushed_queue _ _ _ _) as [[b l] xs'] eqn:Hq. destruct Hp as (s' & -> & ? & ? & _).
    exists xs'. split; [done|]. rewrite Ht. split; [|done]. unfold pushed_queue in Hq.
    destruct (bool_decide _); [|destruct (bool_decide _)]; simplify_eq; rewrite ?length_app; simpl;
      rewrite ?length_tl; lia.
  - destruct (push_frame_closed n s xs pushed i x Hi) as [-> ?].
    { apply andb_false_iff in Hc as [?|Ht]; [by left|right]. by apply bool_decide_eq_false in Ht. }
    exists xs. split; [done|]. split; [lia|done].
Qed.

Lemma take_kept n s xs pushed :
  dq_inv n s xs pushed -> dq_terminal s <> TInterrupted ->
  kept_by n s (snd (take_one s)) xs pushed 0.
Proof.
  intros Hi Ht. pose proof (take_one_spec n s xs pushed Hi Ht) as H1.
  destruct xs as [|x xs]; [rewrite H1; by apply kept_by_same|].
  destruct H1 as (s' & -> & ? & _). exists xs. rewrite Z.add_0_r. split; [done|].
  split; [simpl; lia|done].
Qed.

Lemma read_kept n s xs pushed :
  dq_inv n s xs pushed -> kept_by n s (snd (try_read_result s)) xs pushed 0.
Proof.
  intros Hi. destruct (decide (readable s)) as [Hrd|Hrd].
  - destruct xs as [|x xs].
    + destruct Hrd as [Ht|Ht].
      * rewrite (try_read_empty n s pushed Hi Ht). apply kept_by_same; [by apply dq_inv_wake|done].
      * rewrite (try_read_drained n s pushed Hi Ht). by apply kept_by_same.
    + destruct (try_read_frame n s x xs pushed Hi Hrd) as (s' & -> & ? & Ht & _).
      exists xs. rewrite Z.add_0_r. split; [done|]. split; [simpl; lia|].
      intros Hn. by destruct Hrd; congruence.
  - rewrite (try_read_ended s); [by apply kept_by_same|]. unfold readable in Hrd.
    destruct (dq_terminal s); naive_solver.
Qed.

Lemma take_one_empty n s : fifo_repr n (dq_queue s) [] -> take_one s = (None, s).
Proof. intros Hr. unfold take_one. by rewrite (state_pop_spec n s [] Hr). Qed.

(** Frames that leave the ring of an interrupted queue. *)
Lemma take_one_interrupted n s x xs pushed :
  dq_inv (S n) s (x :: xs) pushed -> dq_terminal s = TInterrupted ->
  exists s', take_one s = (Some x, s') /\ dq_inv n s' xs (pushed + 1) /\
    dq_terminal s' = TInterrupted.
Proof.
  intros [Hr Hacc (? & ? & ?) Hsp Hsum Hhw] Hterm.
  destruct (state_pop_spec _ s _ Hr) as (q & Hp & Hrq & Hcq).
  rewrite bool_decide_eq_true_2 in Hsum by done.
  unfold take_one. rewrite Hp. eexists. split; [done|]. split; [|done].
  split; simpl; rewrite ?wrap_small by (unfold in_range; lia); try done; try lia.
  - by eapply fifo_repr_weaken; [|exact Hrq]; lia.
  - rewrite bool_decide_eq_true_2 by done. lia.
  - rewrite Hcq. split; [apply Hhw|]. by rewrite Hterm.
Qed.

Lemma discard_interrupted n s xs pushed :
  dq_inv (length xs + n) s xs pushed -> dq_terminal s = TInterrupted ->
  dq_inv n (snd (discard s)) [] (pushed + Z.of_nat (length xs)) /\
  dq_terminal (snd (discard s)) = TInterrupted.
Proof.
  intros [Hr Hacc (? & ? & ?) Hsp Hsum Hhw] Hterm.
  rewrite bool_decide_eq_true_2 in Hsum by done. unfold discard.
  destruct (pop_all_spec _ consume_one (fun _ s' => same_delivery s s' /\
    dq_discarded s' = dq_discarded s) ltac:(done) ltac:(done) xs (pop_fuel s) 0 s 0 Hr
    (pop_fuel_enough _ _ _ Hr)) as (s1 & -> & Hr1 & Hc1 & (Hsd & Hd)).
  { split; [|done]. by repeat split. }
  destruct Hsd as (E1 & E2 & E3 & E4 & E5 & E6 & E7). simpl. rewrite E3, Hterm. split; [|done].
  split; simpl; rewrite ?Hd, ?E3, ?Hterm, ?wrap_small by (unfold in_range; lia); try done; try lia.
  - by eapply fifo_repr_weaken; [|exact Hr1]; lia.
  - by rewrite E2, Hacc, Hterm.
  - rewrite bool_decide_eq_true_2 by done. lia.
Qed.

(** One operation accounts for its frames; [r] bounds the frames an interrupt
    may still count twice, and [n] pushes are left. *)
Definition accounts (n r : nat) (s : State) (pushed : Z) (op : dq_op) : Prop :=
  exists xs' r', dq_inv (r' + n) (apply_op s op) xs'
    (pushed + Z.of_nat (pushes op) + recounted_by s op) /\
  (length xs' <= r')%nat /\ (r' <= r + pushes op)%nat /\ 0 <= recounted_by s op /\
  (dq_terminal s = TInterrupted -> dq_terminal (apply_op s op) = TInterrupted).

Lemma kept_accounts n r s xs pushed op m :
  dq_inv m s xs pushed -> (length xs <= r)%nat ->
  kept_by (r + pushes op + n) s (apply_op s op) xs pushed (Z.of_nat (pushes op)) ->
  accounts n r s pushed op.
Proof.
  intros Hi Hl (xs' & Hi' & Hl' & Hx). exists xs', (r + pushes op)%nat.
  assert (recounted_by s op = 0) as ->.
  { unfold recounted_by. case_bool_decide as Ht; [|done]. destruct (Hx Ht) as [_ ->].
    destruct (fifo_size_law _ _ _ (dv_repr _ _ _ _ Hi)) as [-> _].
    destruct (fifo_size_law _ _ _ (dv_repr _ _ _ _ Hi')) as [-> _]. lia. }
  rewrite Z.add_0_r. split; [done|]. split; [lia|]. split; [lia|]. split; [lia|].
  intros Ht. by destruct (Hx Ht).
Qed.

Lemma counted_accounts n r s xs xs' pushed op m k :
  dq_inv m s xs pushed -> (length xs <= r)%nat -> dq_terminal s = TInterrupted ->
  dq_terminal (apply_op s op) = TInterrupted -> pushes op = 0%nat ->
  (length xs = k + length xs')%nat ->
  dq_inv (r - k + n) (apply_op s op) xs' (pushed + Z.of_nat k) -> accounts n r s pushed op.
Proof.
  intros Hi Hl Ht Ht' Hp Hk Hi'. exists xs', (r - k)%nat.
  assert (recounted_by s op = Z.of_nat k) as ->.
  { unfold recounted_by. rewrite bool_decide_eq_true_2 by done.
    destruct (fifo_size_law _ _ _ (dv_repr _ _ _ _ Hi)) as [-> _].
    destruct (fifo_size_law _ _ _ (dv_repr _ _ _ _ Hi')) as [-> _]. lia. }
  rewrite Hp, Z.add_0_r. split; [done|]. repeat split; lia || done.
Qed.

Lemma take_accounts n r s xs pushed :
  dq_inv (r + n) s xs pushed -> (length xs <= r)%nat -> accounts n r s pushed OpTake.
Proof.
  intros Hi Hl. assert (forall ys, dq_inv (r + n) (arm s true) ys pushed -> length ys = 0%nat ->
    take_one s = (None, s)) as Hnone.
  { intros [|] [Hr _ _ _ _ _] ?; [|done]. by eapply (take_one_empty (r + n) s). }
  pose proof (dq_inv_wake _ s xs pushed (dq_wakeup s) (dq_waiting_readers s) true Hi) as Ha.
  destruct (decide (dq_terminal s = TInterrupted)) as [Ht|Ht].
  - destruct xs as [|x xs].
    + apply (counted_accounts n r s [] [] pushed OpTake (r + n) 0); try done;
        cbn [apply_op]; unfold try_take; rewrite (Hnone [] Ha eq_refl);
        rewrite (take_one_empty (r + n)) by apply Hi; [done|].
      by rewrite Nat.sub_0_r, Z.add_0_r.
    + simpl in Hl. destruct r as [|r]; [lia|].
      destruct (take_one_interrupted (r + n) s x xs pushed Hi Ht) as (s' & Hs' & Hi' & Ht').
      apply (counted_accounts n (S r) s (x :: xs) xs pushed OpTake (S r + n) 1); try done;
        cbn [apply_op]; unfold try_take; rewrite Hs'; [done|].
      by replace (S r - 1 + n)%nat with (r + n)%nat by lia.
  - apply (kept_accounts n r s xs pushed OpTake (r + n)); [done..|].
    cbn [apply_op pushes]. rewrite Nat.add_0_r. unfold try_take.
    destruct xs as [|x xs].
    + rewrite (Hnone [] Ha eq_refl), (take_one_empty (r + n)) by apply Hi.
      by apply (kept_by_same _ s (arm s true)).
    + destruct (take_one_spec _ s _ pushed Hi Ht) as (s' & Hs' & Hi' & _). rewrite Hs'.
      exists xs. rewrite Z.add_0_r. split; [done|]. split; [simpl; lia|done].
Qed.

Lemma discard_accounts n r s xs pushed :
  dq_inv (r + n) s xs pushed -> (length xs <= r)%nat -> accounts n r s pushed OpDiscard.
Proof.
  intros Hi Hl. destruct (decide (dq_terminal s = TInterrupted)) as [Ht|Ht].
  - destruct (discard_interrupted (r - length xs + n) s xs pushed) as [Hi' Ht']; [|done|].
    { by replace (length xs + (r - length xs + n))%nat with (r + n)%nat by lia. }
    apply (counted_accounts n r s xs [] pushed OpDiscard (r + n) (length xs)); done || simpl; lia.
  - apply (kept_accounts n r s xs pushed OpDiscard (r + n)); [done..|].
    cbn [apply_op pushes]. rewrite Nat.add_0_r.
    destruct (discard_spec _ s xs pushed Hi Ht) as (s' & -> & ? & _).
    exists []. rewrite Z.add_0_r. split; [done|]. split; [simpl; lia|done].
Qed.

Lemma apply_op_inv n r s xs pushed op :
  dq_inv (pushes op + pushes op + (r + n)) s xs pushed -> (length xs <= r)%nat ->
  accounts n r s pushed op.
Proof.
  intros Hi Hl. destruct op; try (by eapply take_accounts); try (by eapply discard_accounts);
    (eapply kept_accounts; [exact Hi|done|]); cbn [pushes apply_op Nat.add] in *;
    rewrite ?Nat.add_0_r.
  - apply push_kept. by replace (S (r + 1 + n)) with (S (S (r + n))) by lia.
  - by apply read_kept.
  - by apply set_terminal_kept.
  - by apply set_terminal_kept.
  - by apply set_terminal_kept.
  - by apply set_terminal_kept.
  - apply kept_by_same; [by apply dq_inv_ingress|done].
  - apply kept_by_same; [by apply dq_inv_ingress|done].
Qed.

Lemma run_inv ops : forall n r s xs pushed,
  dq_inv (count_pushes ops + count_pushes ops + (r + n)) s xs pushed -> (length xs <= r)%nat ->
  exists xs', dq_inv n (run s ops) xs' (pushed + Z.of_nat (count_pushes ops) + recounted s ops) /\
    0 <= recounted s ops /\ (dq_terminal s = TInterrupted -> dq_terminal (run s ops) = TInterrupted) /\
    (dq_terminal (run s ops) <> TInterrupted -> recounted s ops = 0).
Proof.
  induction ops as [|op ops IH]; intros n r s xs pushed Hi Hl.
  - exists xs. cbn. rewrite !Z.add_0_r. split; [by eapply dq_inv_weaken; [|exact Hi]; lia|]. done.
  - change (count_pushes (op :: ops)) with (pushes op + count_pushes ops)%nat in *.
    destruct (apply_op_inv (count_pushes ops + count_pushes ops + n) r s xs pushed op)
      as (xs1 & r1 & Hi1 & Hl1 & Hr1 & H0 & Ht1).
    { by eapply dq_inv_weaken; [|exact Hi]; lia. }
    { done. }
    destruct (IH n r1 (apply_op s op) xs1 _ ltac:(by eapply dq_inv_weaken; [|exact Hi1]; lia) Hl1)
      as (xs' & Hi' & H0' & Ht' & Hz). exists xs'. cbn [recounted run fold_left].
    split; [|split; [lia|split; [auto|]]].
    + by replace (_ + _) with (pushed + Z.of_nat (pushes op) + recounted_by s op +
        Z.of_nat (count_pushes ops) + recounted (apply_op s op) ops) by lia.
    + intros Hn. rewrite (Hz Hn), Z.add_0_r. unfold recounted_by.
      rewrite bool_decide_eq_false_2; [done|]. intros Ht. by apply Hn, Ht', Ht1.
Qed.

Lemma State_new_inv n q policy fd :
  fifo_repr n q [] -> Z.of_nat n < 2 ^ 64 -> dq_inv n (State_new q policy fd) [] 0.
Proof.
  intros Hr Hn. destruct (fifo_size_law _ _ _ Hr) as (_ & _ & ?). split; simpl; try done; try lia.
Qed.
End Delivery.
Arguments State : clear implicits.
Arguments DeliveryRead : clear implicits.
Arguments dq_op : clear implicits.

(** ** The theorems *)


(** Four cells of numbers. *)
Definition sample_ring : BoundedQueue Z := BoundedQueue_new 0 4.
#[local] Instance sample_fifo : BoundedFifo (BoundedQueue Z) Z := ring_fifo 0.

Lemma sample_ring_repr : fifo_repr 100 sample_ring [].
Proof.
  exists 2. split; [lia|]. split; [|by vm_compute].
  apply (represents_new 0 2 ltac:(lia)). by vm_compute.
Qed.

Definition sample_ops : list (dq_op Z) :=
  [OpPush None 10; OpPush None 20; OpMakeIngress; OpPush (Some 0%nat) 30; OpRead;
   OpRetireIngress; OpPush (Some 0%nat) 40; OpPush None 50; OpInterrupt; OpRead].


(** what one push does on every branch.  On an open queue a frame is
    appended when there is room; when there is none, [DropOldest] evicts the
    oldest frame to make room and every other policy refuses the new one, one
    frame being counted dropped either way.  A retired ingress or a terminated
    queue refuses the frame, counts it discarded and leaves the queue alone. *)
Theorem push_policy {Q F} `{BoundedFifo Q F} n (s : State Q) xs pushed i (x : F)
  (Hi : dq_inv (S n) s xs pushed) :
  let cap := fifo_capacity (dq_queue s) in
  if ingress_current s i && bool_decide (dq_terminal s = TNone)
  then exists s' xs' lost, push_frame s i x = (negb lost || bool_decide (dq_policy s = DropOldest), s') /\
    dq_inv n s' xs' (pushed + 1) /\ lost = negb (bool_decide (Z.of_nat (length xs) < cap)) /\
    xs' = (if lost then if bool_decide (dq_policy s = DropOldest) then tail xs ++ [x] else xs
           else xs ++ [x]) /\
    dq_dropped s' = dq_dropped s + (if lost then 1 else 0) /\ dq_discarded s' = dq_discarded s
  else push_frame s i x = (false, count_discarded s 1) /\
    dq_inv n (count_discarded s 1) xs (pushed + 1).
Proof.
  intros cap. destruct (ingress_current s i && bool_decide (dq_terminal s = TNone)) eqn:Hc.
  - apply andb_true_iff in Hc as [Hc Ht]. apply bool_decide_eq_true in Ht.
    pose proof (push_frame_open n s xs pushed i x Hi Hc Ht) as Hp.
    unfold pushed_queue in Hp. fold cap in Hp.
    destruct (bool_decide (Z.of_nat (length xs) < cap)).
    + destruct Hp as (s' & ? & ? & _ & _ & ? & ?). exists s', (xs ++ [x]), false. done.
    + destruct (bool_decide (dq_policy s = DropOldest));
        destruct Hp as (s' & ? & ? & _ & _ & ? & ?); eexists s', _, true; done.
  - apply (push_frame_closed n s xs pushed i x Hi).
    apply andb_false_iff in Hc as [?|Ht]; [by left|right]. by apply bool_decide_eq_false in Ht.
Qed.

Lemma push_policy_witness :
  exists s' xs' lost, push_frame (State_new sample_ring DropNewest None) None 5 =
      (negb lost || false, s') /\
    dq_inv 99 s' xs' 1 /\ lost = false /\
    xs' = (if lost then if bool_decide (DropNewest = DropOldest) then tail [] ++ [5] else []
           else [] ++ [5]) /\
    dq_dropped s' = 0 + (if lost then 1 else 0) /\ dq_discarded s' = 0.
Proof.
  exact (push_policy 99 (State_new sample_ring DropNewest None) [] 0 None 5
    (State_new_inv 100 sample_ring DropNewest None sample_ring_repr eq_refl)).
Defined.

(** a session failure does not take frames away.  After [fail], reading
    returns every frame that was queued, in order, then the error of the
    failure, however often it is asked; and nothing pushed later is accepted. *)
Theorem failure_reported_after_queued_frames {Q F} `{BoundedFifo Q F} n (s : State Q) xs pushed e m
  (i : option nat) (x : F)
  (Hi : dq_inv n s xs pushed) (Hopen : dq_terminal s = TNone) :
  (exists s', reads (length xs + m) (fail s e) =
    (map (fun x => mkDeliveryRead KFrame (Some x) BulkError_default) xs ++
     replicate m (mkDeliveryRead KSessionFailed None e), s')) /\
  fst (push_frame (fail s e) i x) = false.
Proof.
  destruct (set_terminal_spec n s xs pushed TSessionFailed e true false Hi Hopen)
    as (s1 & Hs1 & Hi1 & Ht1 & He1 & _); [done|done|]. unfold fail. rewrite Hs1. split.
  - destruct (reads_drain n xs s1 pushed m Hi1 Ht1) as (s' & Hr). exists s'. by rewrite Hr, He1.
  - unfold push_frame. rewrite (dv_accepting _ _ _ _ Hi1), Ht1.
    rewrite bool_decide_eq_false_2 by done. by rewrite orb_true_r.
Qed.

Lemma failure_reported_after_queued_frames_witness :
  let s := snd (push_frame (State_new sample_ring DropNewest (Some 0)) None 5) in
  exists s', reads (1 + 2) (fail s (mkBulkError SessionExpired [] [])) =
    (map (fun x => mkDeliveryRead KFrame (Some x) BulkError_default) [5] ++
     replicate 2 (mkDeliveryRead KSessionFailed None (mkBulkError SessionExpired [] [])), s').
Proof.
  intros s.
  pose proof (push_frame_open 99 (State_new sample_ring DropNewest (Some 0)) [] 0 None 5
    (State_new_inv 100 sample_ring DropNewest (Some 0) sample_ring_repr eq_refl) eq_refl eq_refl)
    as (s' & Hs & Hi & Ht & _).
  assert (s = s') as -> by (unfold s; by rewrite Hs).
  exact (proj1 (failure_reported_after_queued_frames 99 s' [5] _
    (mkBulkError SessionExpired [] []) 2 None 5 Hi Ht)).
Defined.

(** after a close, an interrupt or a callback failure no frame is handed
    out: every read reports how the queue ended, with the error where there is
    one, and the first ending wins -- later ones change nothing. *)
Theorem ended_queue_delivers_nothing {Q F} `{BoundedFifo Q F} n (s : State Q) xs pushed m e e' t'
  (wait d : bool) (Hi : dq_inv n s xs pushed) (Hopen : dq_terminal s = TNone) :
  reads m (close s) = (replicate m (mkDeliveryRead KClosed None BulkError_default), close s) /\
  reads m (interrupt s) =
    (replicate m (mkDeliveryRead KInterrupted None BulkError_default), interrupt s) /\
  reads m (callback_failed s e) =
    (replicate m (mkDeliveryRead (F := F) KCallbackFailed None e), callback_failed s e) /\
  set_terminal (close s) t' e' wait d = close s /\
  set_terminal (interrupt s) t' e' wait d = interrupt s.
Proof.
  destruct (set_terminal_spec n s xs pushed TClosed BulkError_default true true Hi Hopen)
    as (s1 & Hs1 & _ & Ht1 & _); [done|done|].
  destruct (set_terminal_spec n s xs pushed TInterrupted BulkError_default false false Hi Hopen)
    as (s2 & Hs2 & _ & Ht2 & _); [done|done|].
  destruct (set_terminal_spec n s xs pushed TCallbackFailed e true true Hi Hopen)
    as (s3 & Hs3 & _ & Ht3 & He3 & _); [done|done|].
  unfold close, interrupt, callback_failed. rewrite Hs1, Hs2, Hs3.
  split; [|split; [|split; [|split]]].
  - apply reads_ended. rewrite try_read_ended by auto. by rewrite Ht1.
  - apply reads_ended. rewrite try_read_ended by auto. by rewrite Ht2.
  - apply reads_ended. rewrite try_read_ended by auto. rewrite Ht3. unfold terminal_result.
    simpl. by rewrite He3.
  - unfold set_terminal. by rewrite bool_decide_eq_true_2 by (by rewrite Ht1).
  - unfold set_terminal. by rewrite bool_decide_eq_true_2 by (by rewrite Ht2).
Qed.

Lemma ended_queue_delivers_nothing_witness :
  let s := State_new sample_ring DropOldest None in
  reads 3 (close s) = (replicate 3 (mkDeliveryRead KClosed None BulkError_default), close s).
Proof.
  intros s. exact (proj1 (ended_queue_delivers_nothing 100 s [] 0 3 BulkError_default
    BulkError_default TClosed true true
    (State_new_inv 100 sample_ring DropOldest None sample_ring_repr eq_refl) eq_refl)).
Defined.

(** an interrupted queue that is then discarded, as the subscription does
    when it tears its transport down, counts the same frames twice: one frame
    pushed, two discarded. *)
Theorem interrupted_frames_discarded_twice :
  let s := interrupt (snd (push_frame (State_new sample_ring DropNewest (Some 0)) None 5)) in
  st_discarded (stats s) = 1 /\ st_discarded (stats (snd (discard s))) = 2 /\
  st_taken (stats (snd (discard s))) = 0.
Proof. by vm_compute. Qed.
