(* ===== verification/DeliveryBarrier.v ===== *)
(** * Terminating a delivery queue while frames are being pushed

    The race [src/core/delivery_queue.cpp] guards with [active_pushes]:
    [push_frame], [set_terminal] with [wait_for_pushes] and [try_read_result] as
    a step relation whose steps are the atomic accesses of the source, in its
    order and sequentially consistent; the last section buffers the one store
    whose order the source leaves open.  The ring itself is atomic here, as [QueueConcurrency.v] justifies;
    counters and wake-ups play no part. *)
From stdpp Require Import list relations.
From S2P Require Import Prelude Enums BoundedQueue DeliveryQueue.
#[local] Open Scope Z_scope.

Section Barrier.
Context {F : Type}.

(** [push_frame]: entered the barrier; read [accepting]; about to leave. *)
Inductive producer_pc : Type :=
| PIdle
| PEntered (frame : F)
| PChecked (frame : F) (accepting : bool)
| PLeaving.

(** [set_terminal] for a session failure, under its mutex. *)
Inductive terminator_pc : Type := TmIdle | TmStopped | TmWaited | TmDone.

#[export] Instance terminator_pc_eq_dec : EqDecision terminator_pc.
Proof. solve_decision. Defined.

(** [try_read_result]: the first load of [terminal] ([true] when it already was
    [SessionFailed]), the pop, the second load. *)
Inductive reader_pc : Type :=
| RIdle
| RLoaded (failed : bool)
| REmpty (failed : bool)
| RFrame (frame : F)
| RFailed (failed_at_start : bool)
| RNothing.

Record barrier : Type := mkBarrier {
  br_queue : list F;
  br_active : Z;
  br_accepting : bool;
  br_failed : bool;
  br_producers : list producer_pc;
  br_terminator : terminator_pc;
  br_readers : list reader_pc
}.

Inductive barrier_step : barrier -> barrier -> Prop :=
| b_enter q n a f ps t rs i x :
    ps !! i = Some PIdle ->
    barrier_step (mkBarrier q n a f ps t rs) (mkBarrier q (n + 1) a f (<[i := PEntered x]> ps) t rs)
| b_check q n a f ps t rs i x :
    ps !! i = Some (PEntered x) ->
    barrier_step (mkBarrier q n a f ps t rs) (mkBarrier q n a f (<[i := PChecked x a]> ps) t rs)
| b_push q n a f ps t rs i x :
    ps !! i = Some (PChecked x true) ->
    barrier_step (mkBarrier q n a f ps t rs) (mkBarrier (q ++ [x]) n a f (<[i := PLeaving]> ps) t rs)
| b_refuse q n a f ps t rs i x :
    ps !! i = Some (PChecked x false) ->
    barrier_step (mkBarrier q n a f ps t rs) (mkBarrier q n a f (<[i := PLeaving]> ps) t rs)
| b_leave q n a f ps t rs i :
    ps !! i = Some PLeaving ->
    barrier_step (mkBarrier q n a f ps t rs) (mkBarrier q (n - 1) a f (<[i := PIdle]> ps) t rs)
| b_stop q n a f ps rs :
    barrier_step (mkBarrier q n a f ps TmIdle rs) (mkBarrier q n false f ps TmStopped rs)
| b_waited q a f ps rs :
    barrier_step (mkBarrier q 0 a f ps TmStopped rs) (mkBarrier q 0 a f ps TmWaited rs)
| b_publish q n a f ps rs :
    barrier_step (mkBarrier q n a f ps TmWaited rs) (mkBarrier q n a true ps TmDone rs)
| b_read_start q n a f ps t rs i :
    rs !! i = Some RIdle ->
    barrier_step (mkBarrier q n a f ps t rs) (mkBarrier q n a f ps t (<[i := RLoaded f]> rs))
| b_read_pop q n a f ps t rs i b x :
    rs !! i = Some (RLoaded b) ->
    barrier_step (mkBarrier (x :: q) n a f ps t rs) (mkBarrier q n a f ps t (<[i := RFrame x]> rs))
| b_read_empty n a f ps t rs i b :
    rs !! i = Some (RLoaded b) ->
    barrier_step (mkBarrier [] n a f ps t rs) (mkBarrier [] n a f ps t (<[i := REmpty b]> rs))
| b_read_failed q n a ps t rs i b :
    rs !! i = Some (REmpty b) ->
    barrier_step (mkBarrier q n a true ps t rs) (mkBarrier q n a true ps t (<[i := RFailed b]> rs))
| b_read_nothing q n a ps t rs i b :
    rs !! i = Some (REmpty b) ->
    barrier_step (mkBarrier q n a false ps t rs) (mkBarrier q n a false ps t (<[i := RNothing]> rs))
| b_read_again q n a f ps t rs i p :
    rs !! i = Some p -> (p = RNothing \/ (exists x, p = RFrame x) \/ (exists b, p = RFailed b)) ->
    barrier_step (mkBarrier q n a f ps t rs) (mkBarrier q n a f ps t (<[i := RIdle]> rs)).

Definition barrier_init (producers readers : nat) : barrier :=
  mkBarrier [] 0 true false (replicate producers PIdle) TmIdle (replicate readers RIdle).

(** ** The invariant *)

Definition active (p : producer_pc) : Z := match p with PIdle => 0 | _ => 1 end.
Definition active_count (ps : list producer_pc) : Z := foldr (fun p n => active p + n) 0 ps.

(** The terminator has seen the barrier empty. *)
Definition waited (t : terminator_pc) : bool :=
  match t with TmWaited | TmDone => true | _ => false end.

Record barrier_inv (b : barrier) : Prop := {
  bi_active : br_active b = active_count (br_producers b);
  bi_accepting : br_accepting b = bool_decide (br_terminator b = TmIdle);
  bi_failed : br_failed b = bool_decide (br_terminator b = TmDone);
  bi_quiet : waited (br_terminator b) = true ->
    forall i x, br_producers b !! i <> Some (PChecked x true);
  bi_readers : forall i r, br_readers b !! i = Some r ->
    match r with
    | RLoaded true => br_failed b = true
    | REmpty true | RFailed true => br_failed b = true /\ br_queue b = []
    | _ => True
    end
}.

Lemma active_count_insert ps i p q :
  ps !! i = Some p -> active_count (<[i := q]> ps) = active_count ps - active p + active q.
Proof.
  revert i. induction ps as [|x ps IH]; intros [|i]; simpl; [done|done| |].
  - intros [= ->]. lia.
  - intros Hi. rewrite (IH i Hi). lia.
Qed.

Lemma active_count_zero ps i p : active_count ps = 0 -> ps !! i = Some p -> p = PIdle.
Proof.
  assert (forall ps, 0 <= active_count ps) as Hnn.
  { clear. induction ps as [|[] ps IH]; simpl; lia. }
  revert i. induction ps as [|x ps IH]; intros [|i] H0 Hi; simpl in *; [done|done| |].
  - injection Hi as ->. specialize (Hnn ps). by destruct p; simpl in H0; try lia.
  - apply (IH i); [|done]. specialize (Hnn ps). destruct x; simpl in *; lia.
Qed.

Lemma lookup_insert_split {A} (l : list A) i j p q :
  <[i := p]> l !! j = Some q -> (j = i /\ q = p) \/ (j <> i /\ l !! j = Some q).
Proof. rewrite list_lookup_insert_Some. naive_solver. Qed.

Lemma barrier_init_inv n m : barrier_inv (barrier_init n m).
Proof.
  split; simpl; try done.
  - induction n as [|n IH]; simpl; [done|lia].
  - intros i r Hi. apply lookup_replicate in Hi as [-> _]. done.
Qed.

(** A producer step changes no reader's knowledge unless it pushes. *)
Lemma producer_move q n a f ps t rs i p p' :
  barrier_inv (mkBarrier q n a f ps t rs) -> ps !! i = Some p ->
  (waited t = true -> forall x, p' <> PChecked x true) ->
  barrier_inv (mkBarrier q (n - active p + active p') a f (<[i := p']> ps) t rs).
Proof.
  intros [Hac Hacc Hf Hq Hr] Hi Hp. split; cbn [br_active br_producers br_accepting br_failed
    br_terminator br_readers br_queue] in *; try done.
  - rewrite (active_count_insert ps i p p' Hi). lia.
  - intros Hw j x Hj. apply lookup_insert_split in Hj as [[_ Hj]|[_ Hj]]; [by apply (Hp Hw x)|].
    by apply (Hq Hw j x).
Qed.

(** A reader step. *)
Lemma reader_move q q' n a f ps t rs i r :
  barrier_inv (mkBarrier q n a f ps t rs) -> (q = [] -> q' = []) ->
  match r with
  | RLoaded true => f = true
  | REmpty true | RFailed true => f = true /\ q' = []
  | _ => True
  end ->
  barrier_inv (mkBarrier q' n a f ps t (<[i := r]> rs)).
Proof.
  intros [Hac Hacc Hf Hq Hr] Hqq Hk. split; cbn [br_active br_producers br_accepting br_failed
    br_terminator br_readers br_queue] in *; try done.
  intros j r' Hj. apply lookup_insert_split in Hj as [[-> ->]|[_ Hj]]; [done|].
  specialize (Hr j r' Hj). destruct r' as [|[]|[]|x|[]|]; naive_solver.
Qed.

Lemma barrier_step_inv b b' : barrier_inv b -> barrier_step b b' -> barrier_inv b'.
Proof.
  intros Hinv Hstep. destruct Hstep as [q n a f ps t rs i x Hi|q n a f ps t rs i x Hi
    |q n a f ps t rs i x Hi|q n a f ps t rs i x Hi|q n a f ps t rs i Hi|q n a f ps rs|q a f ps rs
    |q n a f ps rs|q n a f ps t rs i Hi|q n a f ps t rs i b x Hi|n a f ps t rs i b Hi
    |q n a ps t rs i b Hi|q n a ps t rs i b Hi|q n a f ps t rs i p Hi Hp];
    pose proof Hinv as [Hac Hacc Hf Hq Hr];
    cbn [br_active br_producers br_accepting br_failed br_terminator br_readers br_queue] in *.
  - pose proof (producer_move _ _ _ _ _ _ _ i _ (PEntered x) Hinv Hi ltac:(done)) as H.
    simpl in H. by replace (n - 0 + 1) with (n + 1) in H by lia.
  - pose proof (producer_move _ _ _ _ _ _ _ i _ (PChecked x a) Hinv Hi) as H.
    simpl in H. replace (n - 1 + 1) with n in H by lia. apply H.
    intros Hw y [= _ ->]. by destruct t.
  - split; cbn [br_active br_producers br_accepting br_failed br_terminator br_readers br_queue];
      try done.
    + rewrite (active_count_insert ps i _ _ Hi). simpl. lia.
    + intros Hw. by destruct (Hq Hw i x).
    + assert (f = false) as ->.
      { rewrite Hf. apply bool_decide_eq_false_2. intros ->. by apply (Hq eq_refl i x). }
      intros j r Hj. specialize (Hr j r Hj). destruct r as [|[]|[]|y|[]|]; naive_solver.
  - pose proof (producer_move _ _ _ _ _ _ _ i _ PLeaving Hinv Hi ltac:(done)) as H.
    simpl in H. by replace (n - 1 + 1) with n in H by lia.
  - pose proof (producer_move _ _ _ _ _ _ _ i _ PIdle Hinv Hi ltac:(done)) as H.
    simpl in H. by rewrite Z.add_0_r in H.
  - split; simpl; done.
  - split; simpl; try done. intros _ i x Hi. by apply (active_count_zero ps i _ (eq_sym Hac)) in Hi.
  - split; simpl; try done. intros i r Hi. specialize (Hr i r Hi).
    destruct r as [|[]|[]|y|[]|]; naive_solver.
  - eapply reader_move; [done|done|]. by destruct f.
  - by eapply reader_move.
  - eapply reader_move; [done|done|]. destruct b; [|done]. split; [|done]. apply (Hr i _ Hi).
  - eapply reader_move; [done|done|]. destruct b; [|done]. split; [done|].
    by destruct (Hr i _ Hi) as [_ ?].
  - by eapply reader_move.
  - by eapply reader_move.
Qed.

Lemma barrier_reachable n m b : rtc barrier_step (barrier_init n m) b -> barrier_inv b.
Proof.
  intros Hr. pose proof (barrier_init_inv n m) as Hi.
  induction Hr as [|b b' b'' Hs _ IH]; [done|]. eauto using barrier_step_inv.
Qed.

Lemma failed_queue_shrinks b b' :
  barrier_inv b -> br_failed b = true -> barrier_step b b' ->
  br_failed b' = true /\ exists k, br_queue b' = drop k (br_queue b).
Proof.
  intros [Hac Hacc Hf Hq Hr] Hfail Hstep. rewrite Hfail in Hf.
  symmetry in Hf. apply bool_decide_eq_true in Hf.
  destruct Hstep; cbn [br_queue br_failed br_terminator br_producers] in *; subst;
    (split; [done|]); try (by exists 0%nat); try done.
  - by destruct (Hq eq_refl i x).
  - by exists 1%nat.
Qed.
End Barrier.
Arguments barrier : clear implicits.

(** with sequentially consistent accesses the barrier works.  Once a session failure has been published, no frame
    enters the queue any more: in every later state the queue is what is left of
    the queue at publication.  So a reader that began its read after the
    publication and reports the failure saw an empty queue that stays empty. *)
Theorem failure_published_after_accepted_frames {F} n m (b b' : barrier F)
  (Hr : rtc barrier_step (barrier_init n m) b) (Hf : br_failed b = true)
  (Hr' : rtc barrier_step b b') :
  (exists k, br_queue b' = drop k (br_queue b)) /\
  (forall i, br_readers b' !! i = Some (RFailed true) -> br_queue b' = []).
Proof.
  pose proof (barrier_reachable n m b Hr) as Hinv.
  assert (barrier_inv b' /\ exists k, br_queue b' = drop k (br_queue b)) as [Hinv' Hk].
  { clear Hr. induction Hr' as [b|b b1 b' Hs _ IH]; [split; [done|by exists 0%nat]|].
    destruct (failed_queue_shrinks b b1 Hinv Hf Hs) as [Hf1 [k Hk]].
    destruct (IH Hf1 (barrier_step_inv b b1 Hinv Hs)) as [? [k' Hk']].
    split; [done|]. exists (k + k')%nat. by rewrite Hk', Hk, drop_drop. }
  split; [done|]. intros i Hi. apply (bi_readers _ Hinv' i _ Hi).
Qed.

(** A producer and a reader, and the terminator. *)
Abbreviation scene q n a f p t r := (mkBarrier (F := Z) q n a f [p] t [r]).

Lemma failure_published_after_accepted_frames_witness :
  (exists k, br_queue (scene [] 0 false true PIdle TmDone (RLoaded true)) =
     drop k (br_queue (scene [] 0 false true PIdle TmDone RIdle))) /\
  (forall i, br_readers (scene [] 0 false true PIdle TmDone (RLoaded true)) !! i =
     Some (RFailed true) -> br_queue (scene [] 0 false true PIdle TmDone (RLoaded true)) = []).
Proof.
  apply (failure_published_after_accepted_frames 1 1
    (scene [] 0 false true PIdle TmDone RIdle)); [|done|].
  - eapply rtc_l; [apply b_stop|]. eapply rtc_l; [apply b_waited|].
    eapply rtc_l; [apply b_publish|]. apply rtc_refl.
  - eapply rtc_l; [by apply (b_read_start _ _ _ _ _ _ _ 0)|]. apply rtc_refl.
Defined.

(** the reader does not close the race.  The comment on [fail] says that
    accepted frames remain claimable before a final session failure is reported;
    a reader whose pop found the queue empty, and which then sees the failure
    published, reports the failure while a frame pushed in between is still
    queued. *)
Theorem failure_reported_before_accepted_frame :
  exists b : barrier Z, rtc barrier_step (barrier_init 1 1) b /\
    br_readers b = [RFailed false] /\ br_queue b = [7].
Proof.
  exists (scene [7] 0 false true PIdle TmDone (RFailed false)). split; [|done].
  eapply rtc_l; [by apply (b_read_start _ _ _ _ _ _ _ 0)|].
  eapply rtc_l; [by apply (b_read_empty _ _ _ _ _ _ 0 false)|].
  eapply rtc_l; [by apply (b_enter _ _ _ _ _ _ _ 0 7)|].
  eapply rtc_l; [by apply (b_check _ _ _ _ _ _ _ 0 7)|].
  eapply rtc_l; [by apply (b_push _ _ _ _ _ _ _ 0 7)|].
  eapply rtc_l; [by apply (b_leave _ _ _ _ _ _ _ 0)|].
  eapply rtc_l; [apply b_stop|].
  eapply rtc_l; [apply b_waited|].
  eapply rtc_l; [apply b_publish|].
  eapply rtc_l; [by apply (b_read_failed _ _ _ _ _ _ 0 false)|]. apply rtc_refl.
Qed.

(** ** The barrier without sequential consistency

    [set_terminal] stores [accepting] with release order and then loads
    [active_pushes] with acquire order: nothing orders the load after the store,
    so the store may still sit in the core's store buffer while the load
    completes.  [buffered_step] is [barrier_step] with that one store buffered:
    it becomes visible at any later point, at the latest when the terminator
    takes [terminal_mutex] before it publishes. *)
Inductive buffered_step {F} : barrier F * bool -> barrier F * bool -> Prop :=
| bs_store q n a f ps rs :
    buffered_step (mkBarrier q n a f ps TmIdle rs, false) (mkBarrier q n a f ps TmStopped rs, true)
| bs_flush q n a f ps t rs :
    buffered_step (mkBarrier q n a f ps t rs, true) (mkBarrier q n false f ps t rs, false)
| bs_step b b' pending :
    barrier_step b b' ->
    (br_terminator b = TmIdle -> br_terminator b' = TmIdle) ->
    (pending = true -> br_terminator b' <> TmDone) ->
    buffered_step (b, pending) (b', pending).

(** the barrier needs an ordering the code does not ask for.  With the store
    of [accepting] in a store buffer, [set_terminal] can see no active push while
    a producer that enters afterwards still reads [accepting] as true: the
    failure is published, a reader that started after the publication reports it,
    and the accepted frame enters the queue behind it. *)
Theorem unordered_barrier_admits_late_frame :
  exists b : barrier Z, rtc buffered_step (barrier_init 1 1, false) (b, false) /\
    br_readers b = [RFailed true] /\ br_queue b = [7].
Proof.
  exists (scene [7] 1 false true PLeaving TmDone (RFailed true)). split; [|done].
  eapply rtc_l; [apply bs_store|].
  eapply rtc_l; [apply bs_step; [apply b_waited|done|done]|].
  eapply rtc_l; [apply bs_step; [by apply (b_enter _ _ _ _ _ _ _ 0 7)|done|done]|].
  eapply rtc_l; [apply bs_step; [by apply (b_check _ _ _ _ _ _ _ 0 7)|done|done]|].
  eapply rtc_l; [apply bs_flush|].
  eapply rtc_l; [apply bs_step; [apply b_publish|done|done]|].
  eapply rtc_l; [apply bs_step; [by apply (b_read_start _ _ _ _ _ _ _ 0)|done|done]|].
  eapply rtc_l; [apply bs_step; [by apply (b_read_empty _ _ _ _ _ _ 0 true)|done|done]|].
  eapply rtc_l; [apply bs_step; [by apply (b_read_failed _ _ _ _ _ _ 0 true)|done|done]|].
  eapply rtc_l; [apply bs_step; [by apply (b_push _ _ _ _ _ _ _ 0 7)|done|done]|].
  apply rtc_refl.
Qed.

(** ** What the barrier guarantees with a store buffer *)

(** The frames of the pushes that were let in and have not yet reached the ring. *)
Definition let_in {F} (p : producer_pc (F := F)) : option F :=
  match p with PChecked x true => Some x | _ => None end.
Definition let_in_frames {F} (ps : list (producer_pc (F := F))) : list F := omap let_in ps.

Lemma let_in_insert {F} (ps : list (producer_pc (F := F))) i p p' :
  ps !! i = Some p -> let_in p' = None ->
  let_in_frames ps ≡ₚ option_list (let_in p) ++ let_in_frames (<[i := p']> ps).
Proof.
  unfold let_in_frames. revert i. induction ps as [|q ps IH]; intros [|i] Hi Hp; simpl in *; try done.
  - injection Hi as ->. rewrite Hp. by destruct (let_in p).
  - destruct (let_in q) as [y|]; [|by apply IH]. rewrite (IH i Hi Hp) at 1.
    apply Permutation_middle.
Qed.

(** The reader began its read after the failure was published. *)
Definition began_failed {F} (r : reader_pc (F := F)) : bool :=
  match r with RLoaded true | REmpty true | RFailed true => true | _ => false end.

(** The store of [accepting] is visible when the failure is. *)
Definition buffered_inv {F} (bp : barrier F * bool) : Prop :=
  let '(b, pending) := bp in
  br_accepting b = bool_decide (br_terminator b = TmIdle) || pending /\
  br_failed b = bool_decide (br_terminator b = TmDone) /\
  (pending = true -> br_terminator b <> TmIdle /\ br_terminator b <> TmDone) /\
  (forall i r, br_readers b !! i = Some r -> began_failed r = true -> br_failed b = true).

Lemma readers_insert {F} (rs : list (reader_pc (F := F))) i r0 (P Q : reader_pc (F := F) -> Prop) :
  (forall j r, rs !! j = Some r -> P r -> Q r) -> (P r0 -> Q r0) ->
  forall j r, <[i := r0]> rs !! j = Some r -> P r -> Q r.
Proof. intros Hold Hnew j r Hj. apply lookup_insert_split in Hj as [[_ ->]|[_ Hj]]; eauto. Qed.

Lemma buffered_step_inv {F} (bp bp' : barrier F * bool) :
  buffered_inv bp -> buffered_step bp bp' -> buffered_inv bp'.
Proof.
  intros Hinv Hstep. destruct Hstep as [q n a f ps rs|q n a f ps t rs|b b' pending Hs Hidle Hdone];
    destruct Hinv as (Ha & Hf & Hp & Hr); unfold buffered_inv; cbn in *.
  - subst. by split; [|split; [|split]].
  - destruct (Hp eq_refl) as [Hi Hd]. split; [|split; [|split]]; try done.
    by rewrite bool_decide_eq_false_2 by done.
  - destruct Hs; cbn in *; subst; (split; [|split; [|split]]); try done;
      try (by specialize (Hidle eq_refl));
      try (intros Hpe; split; [|by apply Hdone]; by destruct (Hp Hpe));
      try (eapply (readers_insert _ _ _ (fun r => began_failed r = true)); [exact Hr|]; cbn); try done.
    + by destruct (bool_decide _).
    + destruct b; [intros _; by apply (Hr i (RLoaded true))|done].
Qed.

Lemma buffered_reachable {F} n m (bp : barrier F * bool) :
  rtc buffered_step (barrier_init n m, false) bp -> buffered_inv bp.
Proof.
  intros Hr. assert (buffered_inv (barrier_init (F := F) n m, false)) as Hi.
  { unfold buffered_inv; cbn. split; [|split; [|split]]; try done.
    intros i r Hl. by apply lookup_replicate in Hl as [-> _]. }
  induction Hr as [|? ? ? Hs _ IH]; [done|]. eauto using buffered_step_inv.
Qed.

(** The reader found the queue empty after the failure was published. *)
Definition saw_empty {F} (r : reader_pc (F := F)) : bool :=
  match r with REmpty true | RFailed true => true | _ => false end.

(** What has become of the queue [q] and of the pushes of [ps] since the
    publication: [k] frames were taken, [late] are the pushes completed since. *)
Definition after_failure {F} (q : list F) (ps : list (producer_pc (F := F))) (b : barrier F) : Prop :=
  exists k late, br_queue b = drop k (q ++ late) /\ (k <= length (q ++ late))%nat /\
    late ++ let_in_frames (br_producers b) ≡ₚ let_in_frames ps /\
    (forall i r, br_readers b !! i = Some r -> saw_empty r = true -> (length q <= k)%nat).

Lemma after_failure_producer {F} q ps q1 n n' a f ps1 t rs i p p' :
  after_failure (F := F) q ps (mkBarrier q1 n a f ps1 t rs) -> ps1 !! i = Some p ->
  let_in p = None -> let_in p' = None ->
  after_failure q ps (mkBarrier q1 n' a f (<[i := p']> ps1) t rs).
Proof.
  intros (k & late & Hq & Hk & Hl & Hr) Hi Hp Hp'. exists k, late. cbn in *. split; [done|].
  split; [done|]. split; [|done]. rewrite <-Hl, (let_in_insert ps1 i p p' Hi Hp'), Hp. done.
Qed.

Lemma after_failure_reader {F} q ps q1 n a f ps1 t rs i r :
  after_failure (F := F) q ps (mkBarrier q1 n a f ps1 t rs) ->
  (saw_empty r = true -> q1 = [] \/ exists j r', rs !! j = Some r' /\ saw_empty r' = true) ->
  after_failure q ps (mkBarrier q1 n a f ps1 t (<[i := r]> rs)).
Proof.
  intros (k & late & Hq & Hk & Hl & Hr) Hsaw. exists k, late. cbn in *. split; [done|].
  split; [done|]. split; [done|].
  apply (readers_insert _ _ _ (fun r => saw_empty r = true)); [exact Hr|].
  intros [->|(j & r' & Hj & Hr')]%Hsaw; [|by apply (Hr j r')].
  apply (f_equal length) in Hq. rewrite length_drop, length_app in Hq. simpl in Hq. lia.
Qed.

Lemma after_failure_step {F} q ps (b b' : barrier F) :
  br_failed b = true -> br_accepting b = false -> br_terminator b = TmDone -> barrier_step b b' ->
  after_failure q ps b -> br_failed b' = true /\ after_failure q ps b'.
Proof.
  intros Hf Ha Ht Hs HL. destruct Hs; cbn in *; subst; try done; (split; [done|]);
    try (by eapply after_failure_producer); try (by apply after_failure_reader).
  - destruct HL as (k & late & Hq & Hk & Hl & Hr). exists k, (late ++ [x]). cbn in *.
    rewrite app_assoc, drop_app_le, Hq by done. split; [done|].
    split; [rewrite length_app; lia|]. split; [|done].
    by rewrite <-Hl, (let_in_insert _ i _ PLeaving H eq_refl), <-app_assoc.
  - destruct HL as (k & late & Hq & Hk & Hl & Hr). exists (S k), late. cbn in *.
    apply (f_equal length) in Hq as Hlen. rewrite length_drop in Hlen. simpl in Hlen.
    split; [by rewrite <-Nat.add_1_r, <-drop_drop, <-Hq|]. split; [lia|]. split; [done|].
    apply (readers_insert _ _ _ (fun r => saw_empty r = true)); [|done].
    intros j r Hj Hs. specialize (Hr j r Hj Hs). lia.
  - apply after_failure_reader; [done|]. by left.
  - apply after_failure_reader; [done|]. destruct b; [|done]. right. by exists i, (REmpty true).
Qed.


