(* ===== verification/LeasePool.v ===== *)
(** * The pool of lease control blocks

    [src/core/lease_pool.h] and [.cpp]: a lock-free stack threaded through the
    blocks themselves.  One thread allocates; any number of threads give blocks
    back.  The steps are the atomic accesses of [allocate] and [deallocate] in
    the source's order, the weak compare-and-swap free to fail, and the owner of
    a block free to overwrite it. *)
From stdpp Require Import list relations.
From S2P Require Import Prelude Enums.
#[local] Open Scope Z_scope.

(** ** Definitions *)

Definition k_block_bytes : Z := 128.

(** The constructor's loop: block [i] points at block [i - 1]. *)
Definition initial_links (block_count : nat) : list (option nat) :=
  (fun i => match i with O => None | S j => Some j end) <$> seq 0 block_count.

Definition initial_head (block_count : nat) : option nat :=
  match block_count with O => None | S j => Some j end.

(** [owns]: a range test on addresses; block [i] is at [base + i * 128]. *)
Definition block_address (base : Z) (i : nat) : Z := base + Z.of_nat i * k_block_bytes.
Definition owns (base : Z) (block_count : nat) (p : Z) : bool :=
  if bool_decide (block_count = 0%nat) || (p =? 0) then false
  else (base <=? p) && (p <? base + Z.of_nat block_count * k_block_bytes).

(** [allocate]: after the load of the head; after reading the link in it. *)
Inductive allocate_pc : Type :=
| AIdle
| ALoaded (head : option nat)
| ALinked (head : nat) (next : option nat).

(** [deallocate p]: after the load of the head; after writing it into the block. *)
Inductive deallocate_pc : Type :=
| DIdle
| DLoaded (p : nat) (head : option nat)
| DLinked (p : nat) (head : option nat).

(** [lp_links] is the first word of each block, [lp_owned] the blocks handed out
    and not yet passed to [deallocate]. *)
Record lease_pool : Type := mkLeasePool {
  lp_links : list (option nat);
  lp_head : option nat;
  lp_overflows : Z;
  lp_owned : list nat;
  lp_allocator : allocate_pc;
  lp_releasers : list deallocate_pc
}.

Definition lease_pool_new (block_count threads : nat) : lease_pool :=
  mkLeasePool (initial_links block_count) (initial_head block_count) 0 [] AIdle
    (replicate threads DIdle).

Inductive pool_step : lease_pool -> lease_pool -> Prop :=
| a_too_large links hd ov ow ds bytes :
    k_block_bytes < bytes ->
    pool_step (mkLeasePool links hd ov ow AIdle ds) (mkLeasePool links hd (ov + 1) ow AIdle ds)
| a_load links hd ov ow ds bytes :
    bytes <= k_block_bytes ->
    pool_step (mkLeasePool links hd ov ow AIdle ds) (mkLeasePool links hd ov ow (ALoaded hd) ds)
| a_empty links hd ov ow ds :
    pool_step (mkLeasePool links hd ov ow (ALoaded None) ds)
      (mkLeasePool links hd (ov + 1) ow AIdle ds)
| a_link links hd ov ow ds h next :
    links !! h = Some next ->
    pool_step (mkLeasePool links hd ov ow (ALoaded (Some h)) ds)
      (mkLeasePool links hd ov ow (ALinked h next) ds)
| a_swap links ov ow ds h next :
    pool_step (mkLeasePool links (Some h) ov ow (ALinked h next) ds)
      (mkLeasePool links next ov (h :: ow) AIdle ds)
| a_retry links hd ov ow ds h next :
    pool_step (mkLeasePool links hd ov ow (ALinked h next) ds)
      (mkLeasePool links hd ov ow (ALoaded hd) ds)
| d_load links hd ov ow1 ow2 a ds i p :
    ds !! i = Some DIdle ->
    pool_step (mkLeasePool links hd ov (ow1 ++ p :: ow2) a ds)
      (mkLeasePool links hd ov (ow1 ++ ow2) a (<[i := DLoaded p hd]> ds))
| d_link links hd ov ow a ds i p h :
    ds !! i = Some (DLoaded p h) ->
    pool_step (mkLeasePool links hd ov ow a ds)
      (mkLeasePool (<[p := h]> links) hd ov ow a (<[i := DLinked p h]> ds))
| d_swap links h ov ow a ds i p :
    ds !! i = Some (DLinked p h) ->
    pool_step (mkLeasePool links h ov ow a ds)
      (mkLeasePool links (Some p) ov ow a (<[i := DIdle]> ds))
| d_retry links hd ov ow a ds i p h :
    ds !! i = Some (DLinked p h) ->
    pool_step (mkLeasePool links hd ov ow a ds)
      (mkLeasePool links hd ov ow a (<[i := DLoaded p hd]> ds))
| o_write links hd ov ow1 ow2 a ds p word :
    pool_step (mkLeasePool links hd ov (ow1 ++ p :: ow2) a ds)
      (mkLeasePool (<[p := word]> links) hd ov (ow1 ++ p :: ow2) a ds).

(** ** The invariant *)

(** The blocks reached from [hd] are exactly [free], in this order. *)
Fixpoint chain (links : list (option nat)) (hd : option nat) (free : list nat) : Prop :=
  match free with
  | [] => hd = None
  | h :: free => hd = Some h /\ exists next, links !! h = Some next /\ chain links next free
  end.

(** The block a releasing thread has taken back and not yet published. *)
Definition in_hand (d : deallocate_pc) : list nat :=
  match d with DIdle => [] | DLoaded p _ | DLinked p _ => [p] end.

(** What the allocating thread knows: the head it loaded is still free, and the
    link it read is still the one in the block. *)
Definition allocator_knows (links : list (option nat)) (free : list nat) (a : allocate_pc) : Prop :=
  match a with
  | ALoaded (Some h) => h ∈ free
  | ALinked h next => h ∈ free /\ links !! h = Some next
  | _ => True
  end.

Record pool_inv (n : nat) (s : lease_pool) (free : list nat) : Prop := {
  pi_chain : chain (lp_links s) (lp_head s) free;
  pi_blocks : free ++ lp_owned s ++ (lp_releasers s ≫= in_hand) ≡ₚ seq 0 n;
  pi_words : length (lp_links s) = n;
  pi_allocator : allocator_knows (lp_links s) free (lp_allocator s);
  pi_linked : forall i p h, lp_releasers s !! i = Some (DLinked p h) -> lp_links s !! p = Some h
}.

Lemma chain_insert links hd free p w :
  p ∉ free -> chain links hd free -> chain (<[p := w]> links) hd free.
Proof.
  revert hd. induction free as [|h free IH]; simpl; [done|].
  intros hd Hp [-> (next & Hn & Hc)]. apply not_elem_of_cons in Hp as [Hne Hp].
  split; [done|]. exists next. rewrite list_lookup_insert_ne by done. auto.
Qed.

Lemma chain_initial n m :
  (m <= n)%nat -> chain (initial_links n) (initial_head m) (rev (seq 0 m)).
Proof.
  induction m as [|m IH]; intros Hm; [done|].
  rewrite seq_S, rev_app_distr. simpl. split; [done|].
  exists (initial_head m). split; [|apply IH; lia].
  unfold initial_links. rewrite list_lookup_fmap, lookup_seq_lt by lia. by destruct m.
Qed.

Lemma in_hand_insert ds i d d' :
  ds !! i = Some d ->
  exists rest, (ds ≫= in_hand) ≡ₚ in_hand d ++ rest /\
    (<[i := d']> ds ≫= in_hand) ≡ₚ in_hand d' ++ rest.
Proof.
  revert i. induction ds as [|x ds IH]; intros [|i]; simpl; [done|done| |].
  - intros [= ->]. by exists (ds ≫= in_hand).
  - intros Hi. destruct (IH i Hi) as (rest & H1 & H2). exists (in_hand x ++ rest).
    rewrite H1, H2. split; solve_Permutation.
Qed.

Lemma pool_inv_new n m : pool_inv n (lease_pool_new n m) (rev (seq 0 n)).
Proof.
  split; simpl; try done.
  - by apply chain_initial.
  - assert (replicate m DIdle ≫= in_hand = []) as -> by (induction m; simpl; auto).
    rewrite !app_nil_r. symmetry. apply Permutation_rev.
  - unfold initial_links. by rewrite length_fmap, length_seq.
  - intros i p h Hi. by apply lookup_replicate in Hi as [? _].
Qed.

(** Every block is in one place only. *)
Lemma pool_distinct n s free :
  pool_inv n s free -> NoDup (free ++ lp_owned s ++ (lp_releasers s ≫= in_hand)).
Proof. intros [_ Hb _ _ _]. rewrite Hb. apply NoDup_seq. Qed.

Lemma hand_elem ds i d p : ds !! i = Some d -> p ∈ in_hand d -> p ∈ ds ≫= in_hand.
Proof. intros Hi Hp. apply list_elem_of_bind. exists d. split; [done|by eapply list_elem_of_lookup_2]. Qed.

Lemma other_hand ds i j d d' p :
  NoDup (ds ≫= in_hand) -> ds !! i = Some d -> ds !! j = Some d' -> i <> j ->
  p ∈ in_hand d -> p ∉ in_hand d'.
Proof.
  revert i j. induction ds as [|x ds IH]; intros i j Hnd Hi Hj Hij Hp Hp'; [done|].
  simpl in Hnd. apply list.NoDup_app in Hnd as (_ & Hd & Hnd).
  destruct i as [|i], j as [|j]; simpl in *; simplify_eq.
  - by apply (Hd p Hp), (hand_elem ds j d').
  - by apply (Hd p Hp'), (hand_elem ds i d).
  - by apply (IH i j Hnd Hi Hj) in Hp'; [|lia|].
Qed.

Lemma pool_write n links hd ov ow a ds free p w :
  pool_inv n (mkLeasePool links hd ov ow a ds) free -> p ∉ free -> (p < n)%nat ->
  (forall i q h, ds !! i = Some (DLinked q h) -> q <> p) ->
  pool_inv n (mkLeasePool (<[p := w]> links) hd ov ow a ds) free.
Proof.
  intros [Hc Hb Hw Ha Hl] Hp Hlt Hq. split; simpl in *; try done.
  - by apply chain_insert.
  - by rewrite length_insert.
  - destruct a as [|[h|]|h next]; simpl in *; try done. destruct Ha as [Hh Hn]. split; [done|].
    rewrite list_lookup_insert_ne; [done|]. intros ->. done.
  - intros i q h Hi. rewrite list_lookup_insert_ne; [by apply (Hl i)|]. intros ->. by apply (Hq i q h Hi).
Qed.

Lemma pool_thread n links hd ov ow a ds free i d d' :
  pool_inv n (mkLeasePool links hd ov ow a ds) free -> ds !! i = Some d -> in_hand d' = in_hand d ->
  (forall p h, d' = DLinked p h -> links !! p = Some h) ->
  pool_inv n (mkLeasePool links hd ov ow a (<[i := d']> ds)) free.
Proof.
  intros [Hc Hb Hw Ha Hl] Hi Hh Hd. split; simpl in *; try done.
  - destruct (in_hand_insert ds i d d' Hi) as (rest & H1 & H2). rewrite H2, Hh, <-H1. done.
  - intros j p h. rewrite list_lookup_insert_Some. intros [(<- & -> & _)|[_ Hj]]; [by apply Hd|].
    by apply (Hl j).
Qed.

Lemma pool_step_inv n s s' free :
  pool_inv n s free -> pool_step s s' -> exists free', pool_inv n s' free'.
Proof.
  intros Hinv Hstep. pose proof (pool_distinct n s free Hinv) as Hnd.
  destruct Hstep as [links hd ov ow ds bytes _|links hd ov ow ds bytes _|links hd ov ow ds
    |links hd ov ow ds h next Hn|links ov ow ds h next|links hd ov ow ds h next
    |links hd ov ow1 ow2 a ds i p Hi|links hd ov ow a ds i p h Hi|links h ov ow a ds i p Hi
    |links hd ov ow a ds i p h Hi|links hd ov ow1 ow2 a ds p word];
    pose proof Hinv as [Hc Hb Hw Ha Hl]; simpl in *.
  - exists free. by split.
  - exists free. split; simpl; try done. destruct free as [|h free]; simpl in Hc; [by subst|].
    destruct Hc as [-> _]. by left.
  - exists free. by split.
  - exists free. by split.
  - destruct Ha as [_ Hn]. destruct free as [|h' free]; [done|].
    destruct Hc as [[= <-] (next' & Hn' & Hc)]. simplify_eq. exists free. split; simpl; try done.
    rewrite <-Hb. solve_Permutation.
  - exists free. split; simpl; try done. destruct free as [|h' free]; simpl in Hc; [by subst|].
    destruct Hc as [-> _]. by left.
  - exists free. destruct (in_hand_insert ds i DIdle (DLoaded p hd) Hi) as (rest & H1 & H2).
    split; simpl; try done.
    + rewrite H2. rewrite <-Hb, H1. solve_Permutation.
    + intros j q h. rewrite list_lookup_insert_Some. intros [(_ & ? & _)|[_ Hj]]; [done|by apply (Hl j)].
  - exists free. assert (p ∈ ds ≫= in_hand) as Hp by (apply (hand_elem ds i _ p Hi); by left).
    assert (p < n)%nat as Hpn.
    { assert (p ∈ seq 0 n) as Hs; [|apply elem_of_seq in Hs; lia].
      rewrite <-Hb. set_solver. }
    apply list.NoDup_app in Hnd as (_ & Hfree & Hnd).
    apply list.NoDup_app in Hnd as (_ & _ & Hnd).
    apply (pool_thread n _ hd ov ow a ds free i (DLoaded p h)); [|done|done|].
    + apply (pool_write n links hd ov ow a ds free p h Hinv); [|done|].
      * intros Hf. apply (Hfree p Hf). rewrite elem_of_app. by right.
      * intros j q h' Hj ->. destruct (decide (i = j)) as [->|Hij]; [congruence|].
        eapply (other_hand ds i j _ _ p Hnd Hi Hj Hij); by left.
    + intros p' h' [= <- <-]. rewrite list_lookup_insert_eq; [done|]. by rewrite Hw.
  - exists (p :: free). destruct (in_hand_insert ds i (DLinked p h) DIdle Hi) as (rest & H1 & H2).
    split; simpl; try done.
    + split; [done|]. exists h. by split; [apply (Hl i)|].
    + rewrite H2, <-Hb, H1. simpl. solve_Permutation.
    + destruct a as [|[h'|]|h' next]; simpl in *; try done; [by right|]. destruct Ha; split; [by right|done].
    + intros j q h'. rewrite list_lookup_insert_Some. intros [(_ & ? & _)|[_ Hj]]; [done|by apply (Hl j)].
  - exists free. by apply (pool_thread n _ hd ov ow a ds free i (DLinked p h)).
  - exists free. assert (p < n)%nat as Hpn.
    { assert (p ∈ seq 0 n) as Hs; [|apply elem_of_seq in Hs; lia].
      rewrite <-Hb. set_solver. }
    apply list.NoDup_app in Hnd as (_ & Hfree & Hnd). apply list.NoDup_app in Hnd as (_ & Hown & _).
    apply pool_write; [done| |done|].
    + intros Hf. apply (Hfree p Hf). set_solver.
    + intros j q h Hj ->. apply (Hown p); [set_solver|].
      apply (hand_elem ds j _ p Hj). by left.
Qed.

Lemma pool_reachable n m s : rtc pool_step (lease_pool_new n m) s -> exists free, pool_inv n s free.
Proof.
  intros Hr. assert (exists free, pool_inv n (lease_pool_new n m) free) as Hi
    by (eexists; apply pool_inv_new).
  induction Hr as [|s s' s'' Hs _ IH]; [done|]. apply IH. destruct Hi as [free Hi].
  by eapply pool_step_inv.
Qed.

(** C38: however one allocating thread and any number of releasing threads
    interleave, with owners overwriting their blocks at will, no block is handed
    out twice or while it is being given back, no block is lost, and the free
    list the head points at is exactly the blocks in nobody's hands; so the pool
    reports itself empty only while every block is out. *)
Theorem lease_pool_exclusive n m s (Hr : rtc pool_step (lease_pool_new n m) s) :
  exists free, chain (lp_links s) (lp_head s) free /\
    free ++ lp_owned s ++ (lp_releasers s ≫= in_hand) ≡ₚ seq 0 n /\
    NoDup (lp_owned s) /\
    (lp_head s = None ->
     length (lp_owned s) + length (lp_releasers s ≫= in_hand) = n)%nat /\
    (forall i p h, lp_releasers s !! i = Some (DLinked p h) -> p ∉ lp_owned s).
Proof.
  destruct (pool_reachable n m s Hr) as [free Hi]. exists free.
  pose proof (pool_distinct n s free Hi) as Hnd. destruct Hi as [Hc Hb Hw Ha Hl].
  apply list.NoDup_app in Hnd as (_ & _ & Hnd). apply list.NoDup_app in Hnd as (Ho & Hd & _).
  split; [done|]. split; [done|]. split; [done|]. split.
  - intros Hn. rewrite Hn in Hc. destruct free; [|by destruct Hc].
    apply Permutation_length in Hb. simpl in Hb. rewrite length_app, length_seq in Hb. lia.
  - intros i p h Hp Hin. apply (Hd p Hin), (hand_elem _ _ _ p Hp). by left.
Qed.

(** One block allocated from a pool of two. *)
Lemma lease_pool_exclusive_witness :
  let s := mkLeasePool (initial_links 2) (Some 0%nat) 0 [1%nat] AIdle [DIdle] in
  NoDup (lp_owned s) /\ lp_owned s = [1%nat].
Proof.
  split; [|done].
  destruct (lease_pool_exclusive 2 1
    (mkLeasePool (initial_links 2) (Some 0%nat) 0 [1%nat] AIdle [DIdle])) as (_ & _ & _ & Hnd & _);
    [|exact Hnd].
  eapply rtc_l; [by apply (a_load _ _ _ _ _ 96)|].
  eapply rtc_l; [by apply a_link|]. eapply rtc_l; [apply a_swap|]. apply rtc_refl.
Defined.

(** Every block of the pool passes [owns], so the adapter gives it back here. *)
Lemma owns_block base n i : 0 < base -> (i < n)%nat -> owns base n (block_address base i) = true.
Proof.
  intros Hb Hi. unfold owns, block_address, k_block_bytes.
  rewrite bool_decide_eq_false_2 by lia. rewrite (proj2 (Z.eqb_neq _ _)) by lia.
  apply andb_true_iff. split; [apply Z.leb_le|apply Z.ltb_lt]; lia.
Qed.

(** ** [PoolAllocator] *)

(** Where a block comes from, and where it goes. *)
Inductive block_source : Type := FromPool (p : Z) | FromHeap (p : Z).

(** [allocate(n)] of objects of [size] bytes: [pool] is the pool's base and size, if there is one; [popped] is the block
    [LeasePool::allocate] finds, [heap] what [operator new] returns for so many bytes. *)
Definition allocator_allocate (pool : option (Z * nat)) (n size : Z) (popped : option nat) (heap : Z -> Z) : block_source :=
  match pool with
  | Some (base, _) =>
      if n =? 1 then
        match (if k_block_bytes <? size then None else popped) with
        | Some i => FromPool (block_address base i)
        | None => FromHeap (heap (n * size))
        end
      else FromHeap (heap (n * size))
  | None => FromHeap (heap (n * size))
  end.
Definition allocator_deallocate (pool : option (Z * nat)) (p : Z) : block_source :=
  match pool with
  | Some (base, count) => if owns base count p then FromPool p else FromHeap p
  | None => FromHeap p
  end.

(** What came from the pool goes back to it, and what came from the heap to the heap, since the heap never returns an
    address inside the pool's storage. *)
Lemma allocator_roundtrip base count n size popped heap :
  0 < base -> (forall i, popped = Some i -> (i < count)%nat) ->
  (forall bytes, owns base count (heap bytes) = false) ->
  let pool := Some (base, count) in
  match allocator_allocate pool n size popped heap with
  | FromPool p => allocator_deallocate pool p = FromPool p /\ exists i, popped = Some i /\ p = block_address base i /\ size <= k_block_bytes
  | FromHeap p => allocator_deallocate pool p = FromHeap p
  end.
Proof.
  intros Hb Hp Hh. cbn. destruct (n =? 1); [|by rewrite Hh]. destruct (Z.ltb_spec k_block_bytes size); [by rewrite Hh|].
  destruct popped as [i|]; [|by rewrite Hh]. rewrite owns_block by auto. split; [done|]. by exists i.
Qed.
