(* ===== verification/FrameView.v ===== *)
(** * Frame views and receive-slot leases

    [src/core/frame_view.cpp], [receive_slot.h], [frame_fields.h] and the class
    [FrameView] of [include/tango-bulk/frame.h].  A view shares a lease; the
    lease's control block counts its views, and destroying the last one returns
    the slot's credit to a [CreditSink].  Views, control blocks and the sink are
    one shared store, so aliasing is explicit: a view names its lease and its
    slot, it does not copy them. *)
From stdpp Require Import gmap list.
From S2P Require Import Prelude Enums Limits Geometry.
#[local] Open Scope Z_scope.

(** ** Data *)

Record FrameFields : Type := mkFrameFields {
  ff_shape : array4;
  ff_strides : array4;
  ff_sequence : Z;
  ff_event_counter : Z;
  ff_timestamp_ns : Z;
  ff_dropped_before : Z;
  ff_payload_bytes : Z;
  ff_element_type : ElementType;
  ff_element_size : Z;
  ff_rank : Z;
  ff_quality : Z;
  ff_generation : Z;
  ff_memory_kind : MemoryKind;
  ff_endian : Endian
}.

(** [empty_fields()]. *)
Definition FrameFields_default : FrameFields :=
  mkFrameFields array4_zero array4_zero 0 0 0 0 0 ET_Unknown 0 0 0 0 Host Little.

(** [lease_], [data_] and [fields_]: the control block, the address of the
    payload, and the slot whose description is pointed at. *)
Record FrameView : Type := mkFrameView {
  fv_lease : option nat;
  fv_data : option Z;
  fv_fields : option nat
}.

Definition FrameView_default : FrameView := mkFrameView None None None.

#[export] Instance FrameView_eq_dec : EqDecision FrameView.
Proof. solve_decision. Defined.

(** The control block of a [shared_ptr<ReceiveSlotLease>] with the lease in it. *)
Record ReceiveSlotLease : Type := mkReceiveSlotLease { ls_sequence : Z; ls_use_count : Z }.

(** [CreditSink]: what a lease's destructor calls. *)
Class CreditSink (S : Type) := { return_credit : S -> Z -> S }.

Section Views.
Context {S : Type} `{CreditSink S}.

Record view_store : Type := mkViewStore {
  vs_leases : gmap nat ReceiveSlotLease;
  vs_next : nat;
  vs_views : list FrameView;
  vs_sink : S
}.

Definition view_store_init (sink : S) : view_store := mkViewStore ∅ 0 [] sink.

Definition with_views (s : view_store) (views : list FrameView) : view_store :=
  mkViewStore (vs_leases s) (vs_next s) views (vs_sink s).

(** One reference more and one less; the last one runs [~ReceiveSlotLease]. *)
Definition lease_acquire (s : view_store) (l : option nat) : view_store :=
  match l with
  | None => s
  | Some l =>
      match vs_leases s !! l with
      | None => s
      | Some b =>
          mkViewStore (<[l := mkReceiveSlotLease (ls_sequence b) (ls_use_count b + 1)]> (vs_leases s))
            (vs_next s) (vs_views s) (vs_sink s)
      end
  end.

Definition lease_release (s : view_store) (l : option nat) : view_store :=
  match l with
  | None => s
  | Some l =>
      match vs_leases s !! l with
      | None => s
      | Some b =>
          if ls_use_count b =? 1
          then mkViewStore (delete l (vs_leases s)) (vs_next s) (vs_views s)
                 (return_credit (vs_sink s) (ls_sequence b))
          else mkViewStore
                 (<[l := mkReceiveSlotLease (ls_sequence b) (ls_use_count b - 1)]> (vs_leases s))
                 (vs_next s) (vs_views s) (vs_sink s)
      end
  end.

(** ** Operations.  A view object is an index into [vs_views]; a constructed
    view is appended. *)

(** [ReceiveSlotLease::make_view] on a lease just allocated. *)
Definition make_view (s : view_store) (sequence : Z) (data : Z) (fields : nat) : view_store :=
  mkViewStore (<[vs_next s := mkReceiveSlotLease sequence 1]> (vs_leases s)) (vs_next s + 1)%nat
    (vs_views s ++ [mkFrameView (Some (vs_next s)) (Some data) (Some fields)]) (vs_sink s).

Definition view_at (s : view_store) (i : nat) : FrameView :=
  default FrameView_default (vs_views s !! i).

(** The defaulted copy constructor. *)
Definition view_copy (s : view_store) (i : nat) : view_store :=
  let s := lease_acquire s (fv_lease (view_at s i)) in
  with_views s (vs_views s ++ [view_at s i]).

(** The defaulted move constructor: the lease moves, the raw pointers are
    copied and stay in the source. *)
Definition view_move (s : view_store) (i : nat) : view_store :=
  let v := view_at s i in
  with_views s (<[i := mkFrameView None (fv_data v) (fv_fields v)]> (vs_views s) ++ [v]).

(** The defaulted copy assignment, [views[i] = views[j]]. *)
Definition view_assign (s : view_store) (i j : nat) : view_store :=
  let v := view_at s j in
  let old := fv_lease (view_at s i) in
  let s := lease_acquire s (fv_lease v) in
  lease_release (with_views s (<[i := v]> (vs_views s))) old.

(** [reset]; a destructor has the same effect on the store. *)
Definition view_reset (s : view_store) (i : nat) : view_store :=
  let old := fv_lease (view_at s i) in
  lease_release (with_views s (<[i := FrameView_default]> (vs_views s))) old.

(** ** Accessors, given the slot descriptions *)

Definition view_bool (v : FrameView) : bool :=
  bool_decide (fv_lease v <> None) && bool_decide (fv_fields v <> None).

Definition view_fields (slots : list FrameFields) (v : FrameView) : FrameFields :=
  match fv_fields v with
  | Some i => default FrameFields_default (slots !! i)
  | None => FrameFields_default
  end.

Definition view_size (slots : list FrameFields) (v : FrameView) : Z :=
  ff_payload_bytes (view_fields slots v).

(** [end() - begin()] when there is data. *)
Definition view_end (slots : list FrameFields) (v : FrameView) : option Z :=
  match fv_data v with Some d => Some (d + view_size slots v) | None => None end.

Definition use_count (s : view_store) (v : FrameView) : Z :=
  match fv_lease v with
  | Some l => match vs_leases s !! l with Some b => ls_use_count b | None => 0 end
  | None => 0
  end.

(** ** Runs *)

Inductive view_op : Type :=
| OpMake (sequence data : Z) (fields : nat)
| OpCopy (i : nat)
| OpMove (i : nat)
| OpAssign (i j : nat)
| OpReset (i : nat).

(** A program only names views it has. *)
Definition view_op_ok (s : view_store) (op : view_op) : Prop :=
  match op with
  | OpMake _ _ _ => True
  | OpCopy i | OpMove i | OpReset i => (i < length (vs_views s))%nat
  | OpAssign i j => (i < length (vs_views s))%nat /\ (j < length (vs_views s))%nat
  end.

Definition apply_view_op (s : view_store) (op : view_op) : view_store :=
  match op with
  | OpMake sequence data fields => make_view s sequence data fields
  | OpCopy i => view_copy s i
  | OpMove i => view_move s i
  | OpAssign i j => view_assign s i j
  | OpReset i => view_reset s i
  end.

Definition issued_by (op : view_op) : list Z :=
  match op with OpMake sequence _ _ => [sequence] | _ => [] end.

(** ** Invariant *)

(** How many view objects hold lease [l]. *)
Definition holders (views : list FrameView) (l : nat) : Z :=
  Z.of_nat (length (filter (fun v => fv_lease v = Some l) views)).

Definition live (m : gmap nat ReceiveSlotLease) : list Z :=
  ls_sequence <$> (map_to_list m).*2.

Definition one (o : option nat) (l : nat) : Z := if bool_decide (o = Some l) then 1 else 0.

(** [d] counts references held by a view under construction or destruction. *)
Record lease_inv (d : nat -> Z) (s : view_store) : Prop := {
  li_count : forall l, holders (vs_views s) l + d l =
    match vs_leases s !! l with Some b => ls_use_count b | None => 0 end;
  li_live : forall l b, vs_leases s !! l = Some b -> 0 < ls_use_count b /\ (l < vs_next s)%nat
}.

(** What one operation may do to the leases: it keeps their sequences, and
    either destroys none or destroys one and returns its credit. *)
Record lease_move (s s' : view_store) (dropped : option Z) : Prop := {
  lm_kept : forall l b', vs_leases s' !! l = Some b' ->
    exists b, vs_leases s !! l = Some b /\ ls_sequence b' = ls_sequence b;
  lm_effect : match dropped with
    | None => vs_sink s' = vs_sink s /\ live (vs_leases s') ≡ₚ live (vs_leases s)
    | Some q => vs_sink s' = return_credit (vs_sink s) q /\
        live (vs_leases s) ≡ₚ q :: live (vs_leases s')
    end
}.
Abbreviation stable := (fun _ : nat => 0).

Lemma holders_nonneg vs l : 0 <= holders vs l.
Proof. unfold holders. lia. Qed.

Lemma holders_cons v vs l : holders (v :: vs) l = one (fv_lease v) l + holders vs l.
Proof.
  unfold holders, one. rewrite filter_cons.
  destruct (decide (fv_lease v = Some l)) as [Hv|Hv];
    [rewrite bool_decide_eq_true_2 by done|rewrite bool_decide_eq_false_2 by done];
    rewrite ?length_cons; lia.
Qed.

Lemma holders_app vs v l : holders (vs ++ [v]) l = holders vs l + one (fv_lease v) l.
Proof.
  induction vs as [|x vs IH]; simpl; rewrite ?holders_cons, ?IH; [|lia].
  unfold holders at 1 2. simpl. lia.
Qed.

Lemma holders_pos vs i v l : vs !! i = Some v -> fv_lease v = Some l -> 0 < holders vs l.
Proof.
  revert i. induction vs as [|x vs IH]; intros [|i]; [done|done| |]; rewrite holders_cons; simpl.
  - intros [= ->] Hv. pose proof (holders_nonneg vs l). unfold one. rewrite Hv.
    rewrite bool_decide_eq_true_2 by done. lia.
  - intros Hi Hv. specialize (IH i Hi Hv). unfold one. case_bool_decide; lia.
Qed.

Lemma holders_insert vs i v0 v l :
  vs !! i = Some v0 ->
  holders (<[i := v]> vs) l = holders vs l - one (fv_lease v0) l + one (fv_lease v) l.
Proof.
  revert i. induction vs as [|x vs IH]; intros [|i]; simpl; [done|done| |];
    rewrite !holders_cons.
  - intros [= ->]. lia.
  - intros Hi. rewrite (IH i Hi). lia.
Qed.

Lemma live_update m l b b' :
  m !! l = Some b -> ls_sequence b' = ls_sequence b -> live (<[l := b']> m) ≡ₚ live m.
Proof.
  intros Hl Hs. unfold live. rewrite <-(insert_delete_id m l b Hl) at 2.
  rewrite <-(insert_delete_eq m l b').
  rewrite !map_to_list_insert by apply lookup_delete_eq. simpl. by rewrite Hs.
Qed.

Lemma live_delete m l b : m !! l = Some b -> live m ≡ₚ ls_sequence b :: live (delete l m).
Proof.
  intros Hl. unfold live. rewrite <-(insert_delete_id m l b Hl) at 1.
  by rewrite map_to_list_insert by apply lookup_delete_eq.
Qed.

Lemma live_insert m l b : m !! l = None -> live (<[l := b]> m) ≡ₚ ls_sequence b :: live m.
Proof. intros Hl. unfold live. by rewrite map_to_list_insert. Qed.

(** ** The moves every operation is made of *)

Lemma inv_views d d' s views :
  lease_inv d s -> (forall l, holders views l + d' l = holders (vs_views s) l + d l) ->
  lease_inv d' (with_views s views).
Proof. intros [Hc Hl] Hd. split; simpl; [|done]. intros l. by rewrite Hd. Qed.

Lemma inv_acquire d s o :
  lease_inv d s -> (forall l, o = Some l -> is_Some (vs_leases s !! l)) ->
  lease_inv (fun l => d l + one o l) (lease_acquire s o) /\
  vs_views (lease_acquire s o) = vs_views s /\ lease_move s (lease_acquire s o) None.
Proof.
  intros [Hc Hl] Ho. destruct o as [l|]; simpl.
  2:{ split; [|split; [done|split; [eauto|done]]].
      split; [|done]. intros l. rewrite <-Hc. unfold one. simpl. lia. }
  destruct (Ho l eq_refl) as [b Hb]. rewrite Hb. split; [|split; [done|]]; split; simpl.
  - intros l'. unfold one. destruct (decide (l = l')) as [<-|Hne].
    + rewrite lookup_insert_eq. specialize (Hc l). rewrite Hb in Hc.
      rewrite bool_decide_eq_true_2 by done. simpl. lia.
    + rewrite lookup_insert_ne, <-Hc by done. rewrite bool_decide_eq_false_2 by naive_solver. lia.
  - intros l' b'. rewrite lookup_insert_Some. pose proof (Hl l b Hb).
    intros [[<- <-]|[_ Hb']]; [simpl; lia|by apply Hl].
  - intros l' b'. rewrite lookup_insert_Some. intros [[<- <-]|[_ Hb']]; eauto.
  - split; [done|]. by rewrite (live_update _ _ b).
Qed.

Lemma inv_release s o :
  lease_inv (one o) s -> (forall l, o = Some l -> is_Some (vs_leases s !! l)) ->
  lease_inv stable (lease_release s o) /\ vs_views (lease_release s o) = vs_views s /\
  exists dropped, lease_move s (lease_release s o) dropped.
Proof.
  intros [Hc Hl] Ho. destruct o as [l|]; simpl.
  2:{ split; [by split|]. split; [done|]. exists None. split; [eauto|done]. }
  destruct (Ho l eq_refl) as [b Hb]. rewrite Hb. pose proof (Hl l b Hb) as [Hpos Hlt].
  pose proof (Hc l) as Hcl. unfold one in Hcl. rewrite Hb, bool_decide_eq_true_2 in Hcl by done.
  destruct (Z.eqb_spec (ls_use_count b) 1) as [H1|H1];
    (split; [split; simpl|split; [done|]]).
  - intros l'. destruct (decide (l = l')) as [<-|Hne].
    + rewrite lookup_delete_eq. lia.
    + rewrite lookup_delete_ne, <-Hc by done. unfold one.
      rewrite bool_decide_eq_false_2 by naive_solver. lia.
  - intros l' b'. rewrite lookup_delete_Some. intros [_ ?]. by apply Hl.
  - exists (Some (ls_sequence b)). split; simpl.
    + intros l' b'. rewrite lookup_delete_Some. intros [_ ?]. eauto.
    + split; [done|]. by apply live_delete.
  - intros l'. destruct (decide (l = l')) as [<-|Hne].
    + rewrite lookup_insert_eq. simpl. lia.
    + rewrite lookup_insert_ne, <-Hc by done. unfold one.
      rewrite bool_decide_eq_false_2 by naive_solver. lia.
  - intros l' b'. rewrite lookup_insert_Some. intros [[<- <-]|[_ Hb']]; [simpl; lia|by apply Hl].
  - exists None. split; simpl; [|split; [done|by rewrite (live_update _ _ b)]].
    intros l' b'. rewrite lookup_insert_Some. intros [[<- <-]|[_ Hb']]; eauto.
Qed.

(** A view object's lease is in the store. *)
Lemma view_lease_live s i l :
  lease_inv stable s -> fv_lease (view_at s i) = Some l -> is_Some (vs_leases s !! l).
Proof.
  intros [Hc _] Hv. unfold view_at in Hv. destruct (vs_views s !! i) as [v|] eqn:Hi; [|done].
  simpl in Hv. pose proof (holders_pos _ _ _ _ Hi Hv). specialize (Hc l).
  destruct (vs_leases s !! l); [done|lia].
Qed.

Lemma acquire_keeps s o l : is_Some (vs_leases s !! l) -> is_Some (vs_leases (lease_acquire s o) !! l).
Proof.
  intros Hl. destruct o as [l'|]; simpl; [|done]. destruct (vs_leases s !! l') eqn:Hb; [|done].
  simpl. destruct (decide (l' = l)) as [->|]; [by rewrite lookup_insert_eq|by rewrite lookup_insert_ne].
Qed.

Lemma view_at_lookup s i : (i < length (vs_views s))%nat -> vs_views s !! i = Some (view_at s i).
Proof. intros [v Hv]%lookup_lt_is_Some. unfold view_at. by rewrite Hv. Qed.

Lemma lease_move_trans s s1 s2 dropped :
  lease_move s s1 None -> lease_move s1 s2 dropped -> lease_move s s2 dropped.
Proof.
  intros [Hk [Hs Hp]] [Hk' He]. split.
  - intros l b'' Hb''. destruct (Hk' l b'' Hb'') as (b' & Hb' & ->).
    destruct (Hk l b' Hb') as (b & Hb & ->). eauto.
  - destruct dropped as [q|]; destruct He as [Hs' Hp']; rewrite <-?Hs, <-?Hp; by split.
Qed.

Lemma lease_move_views s s' views dropped :
  lease_move (with_views s views) s' dropped -> lease_move s s' dropped.
Proof. intros [Hk He]. by split. Qed.

(** A view that holds a lease came from a view that held it. *)
Definition views_kept (s s' : view_store) : Prop :=
  forall i v l, vs_views s' !! i = Some v -> fv_lease v = Some l ->
    exists j, vs_views s !! j = Some v.

Lemma views_insert_kept s s' i v w :
  vs_views s' = <[i := v]> (vs_views s) ++ w ->
  (fv_lease v = None \/ exists j, vs_views s !! j = Some v) ->
  (forall x, x ∈ w -> exists j, vs_views s !! j = Some x) -> views_kept s s'.
Proof.
  intros Hs' Hv Hw k x l Hk Hx. rewrite Hs' in Hk.
  apply lookup_app_Some in Hk as [Hk|[_ Hk]].
  - apply list_lookup_insert_Some in Hk as [(_ & -> & _)|[_ Hk]]; [|by exists k].
    destruct Hv as [Hn|Hj]; [congruence|done].
  - apply Hw. by eapply list_elem_of_lookup_2.
Qed.

Lemma make_view_inv s sequence data fields :
  lease_inv stable s -> lease_inv stable (make_view s sequence data fields) /\
  vs_leases s !! vs_next s = None /\
  live (vs_leases (make_view s sequence data fields)) ≡ₚ sequence :: live (vs_leases s).
Proof.
  intros [Hc Hl]. assert (vs_leases s !! vs_next s = None) as Hn.
  { destruct (vs_leases s !! vs_next s) as [b|] eqn:Hb; [|done]. apply Hl in Hb. lia. }
  split; [|split; [done|by apply live_insert]]. split; simpl.
  - intros l. rewrite holders_app. simpl. unfold one. destruct (decide (vs_next s = l)) as [<-|Hne].
    + rewrite lookup_insert_eq, bool_decide_eq_true_2 by done. specialize (Hc (vs_next s)).
      rewrite Hn in Hc. simpl. lia.
    + rewrite lookup_insert_ne, bool_decide_eq_false_2 by naive_solver. specialize (Hc l). lia.
  - intros l b. rewrite lookup_insert_Some. intros [[<- <-]|[_ Hb]]; [simpl; lia|].
    apply Hl in Hb. lia.
Qed.

Definition makes (op : view_op) : bool := match op with OpMake _ _ _ => true | _ => false end.

(** Every operation on existing views. *)
Lemma view_op_move s op :
  lease_inv stable s -> view_op_ok s op -> makes op = false ->
  lease_inv stable (apply_view_op s op) /\ views_kept s (apply_view_op s op) /\
  vs_next (apply_view_op s op) = vs_next s /\
  exists dropped, lease_move s (apply_view_op s op) dropped.
Proof.
  intros Hinv Hok Hmk. destruct op as [sq dt fl|i|i|i j|i]; simpl in *; [done|..].
  - destruct (inv_acquire stable s (fv_lease (view_at s i)) Hinv) as (Hi & Hv & Hm);
      [intros l ?; by eapply view_lease_live|].
    assert (view_at (lease_acquire s (fv_lease (view_at s i))) i = view_at s i) as Hat
      by (unfold view_at at 1; by rewrite Hv).
    unfold view_copy. rewrite Hat. split; [|split; [|split]].
    + eapply inv_views; [exact Hi|]. intros l. rewrite Hv, holders_app. simpl. lia.
    + intros k x l. simpl. rewrite Hv, lookup_app_Some, list_lookup_singleton_Some.
      intros [Hk|[_ [_ <-]]] _; [by exists k|]. exists i. by apply view_at_lookup.
    + simpl. destruct (fv_lease (view_at s i)); simpl; [|done]. by case_match.
    + exists None. destruct Hm as [Hk He]. by split.
  - unfold view_move. split; [|split; [|split; [done|by exists None; split; [eauto|]]]].
    + eapply inv_views; [exact Hinv|]. intros l. rewrite holders_app.
      rewrite (holders_insert _ _ (view_at s i)) by (by apply view_at_lookup).
      unfold one at 2. simpl. lia.
    + eapply views_insert_kept; [done|by left|].
      intros x ->%list_elem_of_singleton. exists i. by apply view_at_lookup.
  - unfold view_assign. destruct Hok as [Hi Hj].
    destruct (inv_acquire stable s (fv_lease (view_at s j)) Hinv) as (Ha & Hv & Hm);
      [intros l ?; by eapply view_lease_live|].
    destruct (inv_release (with_views (lease_acquire s (fv_lease (view_at s j)))
      (<[i := view_at s j]> (vs_views s))) (fv_lease (view_at s i))) as (Hr & Hrv & dropped & Hrm).
    + eapply inv_views; [exact Ha|]. intros l. rewrite Hv.
      rewrite (holders_insert _ _ (view_at s i)) by (by apply view_at_lookup). simpl. lia.
    + intros l Hl. simpl. apply acquire_keeps. by eapply view_lease_live.
    + rewrite Hv. split; [done|]. split; [|split].
      * apply (views_insert_kept s _ i (view_at s j) []); [by rewrite Hrv, app_nil_r| |].
        { right. exists j. by apply view_at_lookup. }
        { by intros ? ?%elem_of_nil. }
      * destruct (fv_lease (view_at s i)), (fv_lease (view_at s j)); simpl; repeat case_match; done.
      * exists dropped. eapply lease_move_trans; [exact Hm|]. by eapply lease_move_views.
  - unfold view_reset.
    destruct (inv_release (with_views s (<[i := FrameView_default]> (vs_views s)))
      (fv_lease (view_at s i))) as (Hr & Hrv & dropped & Hrm).
    + eapply inv_views; [exact Hinv|]. intros l.
      rewrite (holders_insert _ _ (view_at s i)) by (by apply view_at_lookup).
      unfold one at 2. simpl. lia.
    + intros l Hl. simpl. by eapply view_lease_live.
    + split; [done|]. split; [|split].
      * apply (views_insert_kept s _ i FrameView_default []); [by rewrite Hrv, app_nil_r|by left|].
        by intros ? ?%elem_of_nil.
      * destruct (fv_lease (view_at s i)); simpl; repeat case_match; done.
      * exists dropped. by eapply lease_move_views.
Qed.

(** [issued] and [credits] are what was handed out and returned so far. *)
Record store_inv (sink0 : S) (s : view_store) (issued credits : list Z) : Prop := {
  si_lease : lease_inv stable s;
  si_sink : vs_sink s = foldl return_credit sink0 credits;
  si_conserve : issued ≡ₚ credits ++ live (vs_leases s)
}.

Lemma apply_view_op_inv sink0 s issued credits op :
  store_inv sink0 s issued credits -> view_op_ok s op ->
  exists credits', store_inv sink0 (apply_view_op s op) (issued ++ issued_by op) credits'.
Proof.
  intros [Hl Hs Hp] Hok. destruct (makes op) eqn:Hmk.
  - destruct op as [sq dt fl| | | |]; try done. exists credits. simpl.
    destruct (make_view_inv s sq dt fl Hl) as (? & _ & Hlive). split; [done|done|].
    rewrite Hlive, Hp. solve_Permutation.
  - destruct (view_op_move s op Hl Hok Hmk) as (? & _ & _ & dropped & [_ He]).
    assert (issued_by op = []) as -> by (by destruct op). rewrite app_nil_r.
    destruct dropped as [q|]; destruct He as [Hs' Hp'].
    + exists (credits ++ [q]). split; [done|by rewrite foldl_app, <-Hs|].
      rewrite Hp, Hp'. by rewrite <-app_assoc.
    + exists credits. split; [done|by rewrite Hs'|]. by rewrite Hp'.
Qed.

Inductive view_run (sink0 : S) : view_store -> list Z -> Prop :=
| run_init : view_run sink0 (view_store_init sink0) []
| run_op s issued op :
    view_run sink0 s issued -> view_op_ok s op ->
    view_run sink0 (apply_view_op s op) (issued ++ issued_by op).

Lemma lease_inv_init sink0 : lease_inv stable (view_store_init sink0).
Proof. split; simpl; [|done]. intros l. by rewrite lookup_empty. Qed.

Lemma view_run_inv sink0 s issued :
  view_run sink0 s issued -> exists credits, store_inv sink0 s issued credits.
Proof.
  induction 1 as [|s issued op Hr [credits IH] Hok]; [|by eapply apply_view_op_inv].
  exists []. split; simpl; [apply lease_inv_init|done|done].
Qed.
End Views.
Arguments view_store : clear implicits.
Arguments view_run {S H} sink0 s issued.

(** C9: the lease is a credit interlock.  Whatever a program does with its views
    -- copies, moves, assignments, resets, in any order -- every sequence handed
    out is either still held by some view or has had its credit returned, once;
    a view that holds a lease finds its control block alive, with a use count
    that is exactly the number of views sharing it; and when no view holds a
    lease any more, every credit has been returned. *)
Theorem lease_returned_exactly_once {S} `{CreditSink S} sink0 s issued
  (Hr : view_run sink0 s issued) :
  exists credits, vs_sink s = foldl return_credit sink0 credits /\
    issued ≡ₚ credits ++ live (vs_leases s) /\
    (forall i v l, vs_views s !! i = Some v -> fv_lease v = Some l ->
       exists b, vs_leases s !! l = Some b /\ ls_sequence b ∈ live (vs_leases s) /\
         use_count s v = holders (vs_views s) l /\ 0 < use_count s v) /\
    (Forall (fun v => fv_lease v = None) (vs_views s) -> issued ≡ₚ credits).
Proof.
  destruct (view_run_inv sink0 s issued Hr) as (credits & [[Hc Hl] Hs Hp]).
  exists credits. split; [done|]. split; [done|]. split.
  - intros i v l Hi Hv. pose proof (holders_pos _ _ _ _ Hi Hv). specialize (Hc l). simpl in Hc.
    destruct (vs_leases s !! l) as [b|] eqn:Hb; [|lia]. exists b. split; [done|].
    split; [|unfold use_count; rewrite Hv, Hb; lia].
    rewrite (live_delete _ l b Hb). by left.
  - intros Hnone. rewrite Hp. assert (vs_leases s = ∅) as ->; [|unfold live;
      rewrite map_to_list_empty; simpl; by rewrite app_nil_r].
    apply map_empty. intros l. destruct (vs_leases s !! l) as [b|] eqn:Hb; [|done].
    specialize (Hc l). rewrite Hb in Hc. destruct (Hl l b Hb) as [? _].
    assert (holders (vs_views s) l = 0); [|lia]. clear -Hnone. unfold holders.
    induction Hnone as [|v vs Hv _ IH]; [done|]. rewrite filter_cons_False; [done|by rewrite Hv].
Qed.

(** A sink that records what it is given. *)
#[local] Instance recording_sink : CreditSink (list Z) :=
  {| return_credit := fun l sequence => l ++ [sequence] |}.

(** Two frames; the first is copied and both of its views go, the second stays. *)
Definition sample_views : view_store (list Z) :=
  fold_left apply_view_op
    [OpMake 0 0 0; OpMake 1 4096 1; OpCopy 0; OpReset 0; OpMove 1; OpReset 2]
    (view_store_init []).

Lemma lease_returned_exactly_once_witness :
  vs_sink sample_views = [0] /\
  exists credits, vs_sink sample_views = foldl return_credit [] credits /\
    [0; 1] ≡ₚ credits ++ live (vs_leases sample_views).
Proof.
  split; [reflexivity|].
  destruct (lease_returned_exactly_once [] sample_views [0; 1]) as (credits & ? & ? & _).
  - assert (forall s issued op, view_run [] s issued -> view_op_ok s op ->
      view_run [] (apply_view_op s op) (issued ++ issued_by op)) as step by (intros; by constructor).
    change [0; 1] with ((((((([] ++ [0]) ++ [1]) ++ []) ++ []) ++ []) ++ []) : list Z).
    unfold sample_views. cbn [fold_left].
    repeat (apply (step _ _ (OpMake _ _ _)) || apply (step _ _ (OpCopy _)) ||
      apply (step _ _ (OpReset _)) || apply (step _ _ (OpMove _)));
      [apply run_init|vm_compute; repeat constructor..].
  - by exists credits.
Defined.
