(* ===== verification/SubscriberEngine.v ===== *)
(** * The receive engine

    [src/ucx/subscriber_engine.h] and [.cpp]: the arena a delivered view keeps
    alive, the handlers the transport runs for frames, probes, completions and
    credits, and the loop that returns credit.  What UCX does is an argument of
    the handler that asks for it: how a receive starts, what a completion
    reports, whether a send is accepted.  A handler that would read or write
    outside a slot or the slot table faults, so memory safety is a theorem. *)
From stdpp Require Import gmap list relations.
From S2P Require Import Prelude Enums Limits ByteOrder Geometry Protocol DataPlane.
From S2P Require Import CreditWindow BoundedQueue DeliveryQueue FrameView.
#[local] Open Scope Z_scope.

(** ** The arena *)

(** [ReceiveSlot], with the bytes its memory holds. *)
Record ReceiveSlot : Type := mkReceiveSlot {
  sl_fields : FrameFields;
  sl_data : Z;
  sl_capacity : Z;
  sl_occupied : bool;
  sl_bytes : bytes
}.

Section Engine.
Context {Q : Type} `{BoundedFifo Q Z}.

(** The part of [ReceiveArena] a lease's destructor touches; [as_assert_failed]
    is the assertion in [return_credit]. *)
Record ArenaSink : Type := mkArenaSink {
  as_credit_returns : Q;
  as_credits_returned : Z;
  as_views_outstanding : Z;
  as_assert_failed : bool
}.

Definition arena_return_credit (a : ArenaSink) (sequence : Z) : ArenaSink :=
  let '(pushed, q) := fifo_push (as_credit_returns a) sequence in
  mkArenaSink q (u64 (as_credits_returned a + 1)) (u64 (as_views_outstanding a - 1))
    (as_assert_failed a || negb pushed).

#[local] Instance arena_sink : CreditSink ArenaSink := {| return_credit := arena_return_credit |}.

Definition note_view_issued (a : ArenaSink) : ArenaSink :=
  mkArenaSink (as_credit_returns a) (as_credits_returned a) (u64 (as_views_outstanding a + 1))
    (as_assert_failed a).

(** ** The engine *)

Record EngineCounters : Type := mkEngineCounters {
  ec_frames_received : Z;
  ec_dropped_bad_header : Z;
  ec_dropped_oversize : Z;
  ec_dropped_stale_epoch : Z;
  ec_dropped_duplicate_seq : Z;
  ec_dropped_geometry_mismatch : Z;
  ec_credit_messages_sent : Z;
  ec_transport_errors : Z;
  ec_bytes_copied : Z
}.

Record SubscriberEngine : Type := mkSubscriberEngine {
  se_memory_kind : MemoryKind;
  se_slots : list ReceiveSlot;
  se_store : view_store ArenaSink;
  se_tracker : ReleaseTracker;
  se_pending : list bool;
  se_rndv_inflight : Z;
  se_closing : bool;
  se_probe_token : Z;
  se_probe_ack_pending : bool;
  se_state : SubscriberState;
  se_failure : option (Status * bytes);
  se_endpoint : bool;
  se_stream_id : Z;
  se_granted : GeometryBlock;
  se_counters : EngineCounters
}.

Definition with_slots (e : SubscriberEngine) slots := mkSubscriberEngine (se_memory_kind e) slots
  (se_store e) (se_tracker e) (se_pending e) (se_rndv_inflight e) (se_closing e) (se_probe_token e)
  (se_probe_ack_pending e) (se_state e) (se_failure e) (se_endpoint e) (se_stream_id e)
  (se_granted e) (se_counters e).
Definition with_store (e : SubscriberEngine) st := mkSubscriberEngine (se_memory_kind e) (se_slots e)
  st (se_tracker e) (se_pending e) (se_rndv_inflight e) (se_closing e) (se_probe_token e)
  (se_probe_ack_pending e) (se_state e) (se_failure e) (se_endpoint e) (se_stream_id e)
  (se_granted e) (se_counters e).
Definition with_tracker (e : SubscriberEngine) t := mkSubscriberEngine (se_memory_kind e)
  (se_slots e) (se_store e) t (se_pending e) (se_rndv_inflight e) (se_closing e) (se_probe_token e)
  (se_probe_ack_pending e) (se_state e) (se_failure e) (se_endpoint e) (se_stream_id e)
  (se_granted e) (se_counters e).
Definition with_pending (e : SubscriberEngine) p n := mkSubscriberEngine (se_memory_kind e)
  (se_slots e) (se_store e) (se_tracker e) p n (se_closing e) (se_probe_token e)
  (se_probe_ack_pending e) (se_state e) (se_failure e) (se_endpoint e) (se_stream_id e)
  (se_granted e) (se_counters e).
Definition with_probe (e : SubscriberEngine) token pending st := mkSubscriberEngine
  (se_memory_kind e) (se_slots e) (se_store e) (se_tracker e) (se_pending e) (se_rndv_inflight e)
  (se_closing e) token pending st (se_failure e) (se_endpoint e) (se_stream_id e) (se_granted e)
  (se_counters e).
Definition with_failure (e : SubscriberEngine) f st := mkSubscriberEngine (se_memory_kind e)
  (se_slots e) (se_store e) (se_tracker e) (se_pending e) (se_rndv_inflight e) (se_closing e)
  (se_probe_token e) (se_probe_ack_pending e) st f (se_endpoint e) (se_stream_id e) (se_granted e)
  (se_counters e).
Definition with_counters (e : SubscriberEngine) c := mkSubscriberEngine (se_memory_kind e)
  (se_slots e) (se_store e) (se_tracker e) (se_pending e) (se_rndv_inflight e) (se_closing e)
  (se_probe_token e) (se_probe_ack_pending e) (se_state e) (se_failure e) (se_endpoint e)
  (se_stream_id e) (se_granted e) c.

(** A relaxed [fetch_add] on one counter. *)
Inductive counter : Type :=
| FramesReceived | BadHeader | Oversize | StaleEpoch | DuplicateSeq | GeometryChanged
| CreditSent | TransportError | BytesCopied.

Definition count (e : SubscriberEngine) (k : counter) (n : Z) : SubscriberEngine :=
  let c := se_counters e in
  let at_ (k' : counter) (v : Z) : Z :=
    match k, k' with
    | FramesReceived, FramesReceived | BadHeader, BadHeader | Oversize, Oversize
    | StaleEpoch, StaleEpoch | DuplicateSeq, DuplicateSeq | GeometryChanged, GeometryChanged
    | CreditSent, CreditSent | TransportError, TransportError | BytesCopied, BytesCopied => u64 (v + n)
    | _, _ => v
    end in
  with_counters e (mkEngineCounters
    (at_ FramesReceived (ec_frames_received c)) (at_ BadHeader (ec_dropped_bad_header c))
    (at_ Oversize (ec_dropped_oversize c)) (at_ StaleEpoch (ec_dropped_stale_epoch c))
    (at_ DuplicateSeq (ec_dropped_duplicate_seq c))
    (at_ GeometryChanged (ec_dropped_geometry_mismatch c))
    (at_ CreditSent (ec_credit_messages_sent c)) (at_ TransportError (ec_transport_errors c))
    (at_ BytesCopied (ec_bytes_copied c))).

(** [fail]: the first reason stays. *)
Definition engine_fail (e : SubscriberEngine) (status : Status) (reason : bytes) : SubscriberEngine :=
  with_failure e (match se_failure e with None => Some (status, reason) | f => f end) Sub_Failed.

(** [last_error]. *)
Definition last_error (e : SubscriberEngine) : BulkError :=
  match se_failure e with
  | None => BulkError_default
  | Some (status, reason) => mkBulkError status reason (str "transport")
  end.

Abbreviation ores := (outcome Status).

Definition slot_at (e : SubscriberEngine) (i : nat) : ores ReceiveSlot :=
  match se_slots e !! i with Some s => Val s | None => Fault end.

Definition set_slot (e : SubscriberEngine) (i : nat) (s : ReceiveSlot) : SubscriberEngine :=
  with_slots e (<[i := s]> (se_slots e)).

Definition set_occupied (s : ReceiveSlot) (b : bool) : ReceiveSlot :=
  mkReceiveSlot (sl_fields s) (sl_data s) (sl_capacity s) b (sl_bytes s).

(** [tracker_.release], whose answer the engine ignores. *)
Definition tracker_release (e : SubscriberEngine) (sequence : Z) : ores SubscriberEngine :=
  let! (_, t) := release (se_tracker e) sequence in
  Val (with_tracker e t).

(** [commit]: allocate the lease, make the view, push it into the delivery
    queue.  The view is a live object from here on; the queue, the application
    and a queue that refuses it are what later copies, moves and resets it. *)
Definition commit (e : SubscriberEngine) (slot_index : nat) : ores SubscriberEngine :=
  let! slot := slot_at e slot_index in
  let e := count e FramesReceived 1 in
  let st := se_store e in
  let st := mkViewStore (vs_leases st) (vs_next st) (vs_views st) (note_view_issued (vs_sink st)) in
  Val (with_store e (make_view st (ff_sequence (sl_fields slot)) (sl_data slot) slot_index)).

(** How the payload of an active message is available, and what
    [ucp_am_recv_data_nbx] does with a rendezvous one. *)
Inductive rndv_start : Type :=
| RndvError
| RndvInline (landed : bytes)
| RndvInFlight.

Inductive am_data : Type :=
| Eager (data : bytes)
| Rndv (length : Z) (start : rndv_start).

Definition am_length (d : am_data) : Z :=
  match d with Eager data => Z.of_nat (length data) | Rndv n _ => n end.

(** The store into the slot's memory: a fault when it does not fit. *)
Definition land_payload (e : SubscriberEngine) (i : nat) (payload : bytes) : ores SubscriberEngine :=
  let! slot := slot_at e i in
  if sl_capacity slot <? Z.of_nat (length payload) then Fault else
  Val (set_slot e i (mkReceiveSlot (sl_fields slot) (sl_data slot) (sl_capacity slot)
                       (sl_occupied slot) payload)).

Definition describe_frame (frame : FrameHeader) (kind : MemoryKind) : FrameFields :=
  mkFrameFields (fh_shape frame) (fh_strides frame) (fh_sequence frame) (fh_event_counter frame)
    (fh_timestamp_ns frame) (fh_dropped_before frame) (fh_payload_bytes frame)
    (fh_element_type frame) (fh_element_size frame) (fh_rank frame) (fh_quality frame)
    (fh_generation frame) kind (fh_endian frame).

(** The array of a frame differs from the granted one. *)
Definition frame_differs (frame : FrameHeader) (granted : GeometryBlock) : bool :=
  bool_decide (fh_element_type frame <> gb_element_type granted) ||
  negb (fh_element_size frame =? gb_element_size granted) ||
  negb (fh_rank frame =? gb_rank granted) ||
  bool_decide (fh_shape frame <> gb_shape granted) ||
  bool_decide (fh_strides frame <> gb_strides granted).

(** From [slot.occupied = true] on. *)
Definition receive_frame (e : SubscriberEngine) (i : nat) (slot : ReceiveSlot) (frame : FrameHeader)
    (d : am_data) : ores SubscriberEngine :=
  let slot := mkReceiveSlot (describe_frame frame (se_memory_kind e)) (sl_data slot)
                (sl_capacity slot) true (sl_bytes slot) in
  let e := set_slot e i slot in
  match d with
  | Rndv _ start =>
      (* the receive may write as many bytes as it was asked for *)
      if sl_capacity slot <? fh_payload_bytes frame then Fault else
      match start with
      | RndvError =>
          let e := set_slot e i (set_occupied slot false) in
          let e := count e TransportError 1 in
          Val (engine_fail e TransportFailure (str "a rendezvous receive could not be started"))
      | RndvInline landed =>
          let! e := land_payload e i landed in
          commit e i
      | RndvInFlight =>
          Val (with_pending e (<[i := true]> (se_pending e)) (se_rndv_inflight e + 1))
      end
  | Eager data =>
      if bool_decide (se_memory_kind e <> Host) then
        let e := set_slot e i (set_occupied slot false) in
        let! e := tracker_release e (fh_sequence frame) in
        let e := count e TransportError 1 in
        Val (engine_fail e GeometryMismatch
          (str "the publisher sent an eager frame into a device ring, which it must not: the two sides disagree about the memory kind"))
      else
        let! e := land_payload e i data in
        let e := count e BytesCopied (Z.of_nat (length data)) in
        commit e i
  end.

(** [handle_frame]. *)
Definition handle_frame (e : SubscriberEngine) (header : bytes) (d : am_data)
    : ores SubscriberEngine :=
  if se_closing e then Val e else
  match decode_FrameHeader header with
  | Fault => Fault
  | Err _ => Val (count e BadHeader 1)
  | Val frame =>
      if negb (fh_stream_id frame =? se_stream_id e) then Val (count e BadHeader 1) else
      let granted := se_granted e in
      if negb (fh_generation frame =? gb_generation granted) then Val (count e StaleEpoch 1) else
      if negb (gb_rank granted =? 0) && frame_differs frame granted then
        let e := count e GeometryChanged 1 in
        let! e := tracker_release e (fh_sequence frame) in
        Val (engine_fail e GeometryMismatch (str "a frame described a different array from the one this session granted; the publisher changed a contract term without reopening"))
      else
      if negb (fh_payload_bytes frame =? am_length d) then
        let e := count e BadHeader 1 in
        tracker_release e (fh_sequence frame)
      else
      if gb_max_frame_bytes granted <? fh_payload_bytes frame then
        let e := count e Oversize 1 in
        tracker_release e (fh_sequence frame)
      else
      if gb_ring_depth granted =? 0 then Fault else
      let i := Z.to_nat (fh_sequence frame mod gb_ring_depth granted) in
      let! slot := slot_at e i in
      if sl_occupied slot || (fh_sequence frame <? rt_released_end (se_tracker e))
      then Val (count e DuplicateSeq 1)
      else receive_frame e i slot frame d
  end.

(** [on_rndv_complete] for the request pending on slot [i]; [landed] is what the
    transfer left in the slot when it succeeded. *)
Definition on_rndv_complete (e : SubscriberEngine) (i : nat) (landed : option bytes)
    : ores SubscriberEngine :=
  let e := if default false (se_pending e !! i)
           then with_pending e (<[i := false]> (se_pending e)) (se_rndv_inflight e - 1) else e in
  match landed with
  | None =>
      let! slot := slot_at e i in
      let e := set_slot e i (set_occupied slot false) in
      let e := count e TransportError 1 in
      Val (engine_fail e TransportFailure (str "a rendezvous receive failed; the endpoint is no longer a usable data path"))
  | Some payload =>
      let! e := land_payload e i payload in
      commit e i
  end.

(** [on_probe_am]. *)
Definition on_probe_am (e : SubscriberEngine) (header : bytes) : ores SubscriberEngine :=
  match decode_ProbeMessage header with
  | Fault => Fault
  | Err _ => Val (count e BadHeader 1)
  | Val probe =>
      if negb (pm_stream_id probe =? se_stream_id e) then Val (count e BadHeader 1)
      else Val (with_probe e (pm_probe_token probe) true (se_state e))
  end.

(** [send_pending_probe_ack]: the message handed to UCX, and whether UCX took
    it; taken, it ends [Probing]. *)
Definition send_pending_probe_ack (e : SubscriberEngine) (sent : bool)
    : option ProbeAckMessage * SubscriberEngine :=
  if negb (se_probe_ack_pending e) || negb (se_endpoint e) then (None, e) else
  let ack := mkProbeAckMessage (gb_generation (se_granted e)) (se_stream_id e) (se_probe_token e) in
  (Some ack,
   if sent then
     with_probe e (se_probe_token e) false
       (if bool_decide (se_state e = Sub_Probing) then Sub_Active else se_state e)
   else count e TransportError 1).

(** [drain_credit_returns]: one turn per credit in the queue. *)
Fixpoint drain_loop (fuel : nat) (e : SubscriberEngine) : ores SubscriberEngine :=
  match fuel with
  | O => Val e
  | S fuel =>
      let st := se_store e in
      let a := vs_sink st in
      match fifo_pop (as_credit_returns a) with
      | (None, _) => Val e
      | (Some sequence, q) =>
          let a := mkArenaSink q (as_credits_returned a) (as_views_outstanding a) (as_assert_failed a) in
          let e := with_store e (mkViewStore (vs_leases st) (vs_next st) (vs_views st) a) in
          let depth := gb_ring_depth (se_granted e) in
          let! e :=
            (if depth =? 0 then Val e else
             let i := Z.to_nat (sequence mod depth) in
             let! slot := slot_at e i in
             Val (set_slot e i (set_occupied slot false))) in
          let! e := tracker_release e sequence in
          drain_loop fuel e
      end
  end.

Definition drain_credit_returns (e : SubscriberEngine) : ores SubscriberEngine :=
  drain_loop (S (Z.to_nat (fifo_size (as_credit_returns (vs_sink (se_store e)))))) e.

(** [send_pending_credit]: the credit handed to UCX, and whether UCX took it. *)
Definition send_pending_credit (e : SubscriberEngine) (sent : bool)
    : option CreditMessage * SubscriberEngine :=
  if negb (se_endpoint e) then (None, e) else
  match take_pending_ack (se_tracker e) with
  | (None, t) => (None, with_tracker e t)
  | (Some ack, t) =>
      let e := with_tracker e t in
      (Some (mkCreditMessage (gb_generation (se_granted e)) (se_stream_id e) ack),
       if sent then count e CreditSent 1
       else count (with_tracker e (mark_ack_failed t)) TransportError 1)
  end.

(** [on_credit_sent] with an error. *)
Definition on_credit_failed (e : SubscriberEngine) : SubscriberEngine :=
  count (with_tracker e (mark_ack_failed (se_tracker e))) TransportError 1.

(** [quiesce]'s first step: [closing_ = true]. *)
Definition engine_closing (e : SubscriberEngine) : SubscriberEngine :=
  mkSubscriberEngine (se_memory_kind e) (se_slots e) (se_store e) (se_tracker e) (se_pending e)
    (se_rndv_inflight e) true (se_probe_token e) (se_probe_ack_pending e) (se_state e)
    (se_failure e) (se_endpoint e) (se_stream_id e) (se_granted e) (se_counters e).

(** The constructor's arena and tracker for a ring of [depth] slots of
    [slot_bytes], the slots at consecutive addresses from [base]; [q] is the
    credit queue of twice the depth. *)
Definition engine_new (kind : MemoryKind) (base slot_bytes : Z) (depth : nat) (q : Q)
    : SubscriberEngine :=
  mkSubscriberEngine kind
    ((fun i => mkReceiveSlot FrameFields_default (base + Z.of_nat i * slot_bytes) slot_bytes false [])
       <$> seq 0 depth)
    (view_store_init (mkArenaSink q 0 0 false)) (ReleaseTracker_new (Z.of_nat depth))
    (replicate depth false) 0 false 0 false Sub_Opening None false 0 GeometryBlock_default
    (mkEngineCounters 0 0 0 0 0 0 0 0 0).

(** [activate]: [endpoint] is whether UCX could create the endpoint. *)
Definition activate (e : SubscriberEngine) (stream_id : Z) (granted : GeometryBlock) (endpoint : bool)
    : Status * SubscriberEngine :=
  let e := mkSubscriberEngine (se_memory_kind e) (se_slots e) (se_store e)
    (ReleaseTracker_reset (se_tracker e) 0) (se_pending e) (se_rndv_inflight e) (se_closing e)
    (se_probe_token e) (se_probe_ack_pending e) (se_state e) (se_failure e) endpoint stream_id
    granted (se_counters e) in
  if endpoint then (Ok, with_failure e (se_failure e) Sub_Probing)
  else (TransportFailure, engine_fail e TransportFailure
    (str "could not create a UCX endpoint to the address the publisher returned")).
End Engine.
