(* ===== verification/EngineSafety.v ===== *)
(** * Safety of the receive engine against any publisher

    The invariant of [SubscriberEngine.v] and its consequences.  Nothing is
    assumed of what arrives: headers are arbitrary bytes, sequences arbitrary
    numbers.  What is assumed of UCX is in [event_ok]: a receive writes what it
    was asked to write, and a completion is delivered for a receive that is
    pending. *)
From stdpp Require Import gmap list relations.
From S2P Require Import Prelude Enums Limits ByteOrder Geometry Protocol DataPlane.
From S2P Require Import CreditWindow BoundedQueue DeliveryQueue FrameView SubscriberEngine.
#[local] Open Scope Z_scope.

(** ** The tracker never faults *)

Lemma release_total t e A s :
  tracks t e A -> e < 2 ^ 64 -> 0 <= s ->
  exists r t' e' A', release t s = Val (r, t') /\ tracks t' e' A' /\ e' < 2 ^ 64 /\ e <= e'.
Proof.
  intros Ht He Hs. pose proof Ht as [[Hd Hend _ _ _ _ _ _] _].
  destruct (Z.lt_ge_cases (e + rt_ring_depth t) (2 ^ 64)) as [Hfit|Hover].
  - destruct (release_rejected t e A s Ht Hs Hfit) as [Hdup Hout].
    destruct (decide (s < e \/ s ∈ A)) as [Hr|Hr]; [exists Duplicate, t, e, A; split; [auto|split; [done|lia]]|].
    destruct (Z.le_gt_cases (e + rt_ring_depth t) s) as [Ho|Ho];
      [exists OutOfWindow, t, e, A; split; [auto|split; [done|lia]]|].
    destruct (release_new t e A s Ht) as (r & t' & e' & A' & Hrel & Ht' & Hep & Hle & Hrs & _ & _);
      [lia|tauto|done|].
    exists r, t', e', A'. split; [done|]. split; [done|]. split; [|done].
    destruct (Z.lt_ge_cases e' (2 ^ 64)) as [|Hge]; [done|].
    assert (released e' A' (e + rt_ring_depth t)) as Hx by (left; lia).
    apply Hrs in Hx as [[Hx|Hx]|Hx]; [lia| |lia].
    apply (tk_ahead _ _ _ (proj1 Ht)) in Hx. lia.
  - unfold release. destruct (Z.ltb_spec s (rt_released_end t)); [exists Duplicate, t, e, A; split; [auto|split; [done|lia]]|].
    unfold add_overflow. rewrite Hend. rewrite (proj2 (Z.leb_le _ _)) by lia. simpl.
    exists OutOfWindow, t, e, A. split; [done|]. split; [done|lia].
Qed.

(** ** Indices of the slots with a receive in flight *)

Definition pending_slots (p : list bool) : list nat :=
  filter (fun i => p !! i = Some true) (seq 0 (length p)).

Lemma elem_of_pending p i : i ∈ pending_slots p <-> p !! i = Some true.
Proof.
  unfold pending_slots. rewrite list_elem_of_filter, elem_of_seq. split; [tauto|].
  intros Hi. split; [done|]. apply lookup_lt_Some in Hi. lia.
Qed.

Lemma NoDup_pending p : NoDup (pending_slots p).
Proof. apply list.NoDup_filter, NoDup_seq. Qed.

Lemma pending_set p i :
  p !! i = Some false -> pending_slots (<[i := true]> p) ≡ₚ i :: pending_slots p.
Proof.
  intros Hi. pose proof (lookup_lt_Some _ _ _ Hi). apply NoDup_Permutation; [apply NoDup_pending| |].
  - constructor; [rewrite elem_of_pending; congruence|apply NoDup_pending].
  - intros j. rewrite elem_of_cons, !elem_of_pending, list_lookup_insert_Some.
    destruct (decide (i = j)) as [->|]; naive_solver.
Qed.

Lemma pending_clear p i :
  p !! i = Some true -> i :: pending_slots (<[i := false]> p) ≡ₚ pending_slots p.
Proof.
  intros Hi. pose proof (lookup_lt_Some _ _ _ Hi). symmetry.
  rewrite <-(list_insert_id p i true Hi) at 1. rewrite <-(list_insert_insert_eq p i true false).
  apply pending_set. by apply list_lookup_insert_eq.
Qed.

(** ** The invariant *)

Section Safety.
Context {Q : Type} `{BoundedFifo Q Z}.
#[local] Existing Instance arena_sink.
Implicit Types e : SubscriberEngine (Q := Q).

Definition slot_of e (s : Z) : nat := Z.to_nat (s mod gb_ring_depth (se_granted e)).

(** What a slot that is in use says about its frame. *)
Definition fields_fit (g : GeometryBlock) (f : FrameFields) : Prop :=
  1 <= ff_payload_bytes f <= gb_max_frame_bytes g /\ ff_payload_bytes f < 2 ^ 64 /\
  array_ok (ff_shape f) /\ array_ok (ff_strides f) /\ in_range 32 (ff_rank f) /\
  1 <= ff_element_size f < 2 ^ 32 /\
  validate_shape_and_strides (ff_rank f) (ff_shape f) (ff_strides f) (ff_element_size f)
    (ff_payload_bytes f) = Ok.

Definition describes e (i : nat) (s : Z) : Prop :=
  0 <= s /\ slot_of e s = i /\
  exists slot, se_slots e !! i = Some slot /\ ff_sequence (sl_fields slot) = s /\
    fields_fit (se_granted e) (sl_fields slot).

Definition credit_queue e : Q := as_credit_returns (vs_sink (se_store e)).
Definition leased e : list Z := live (vs_leases (se_store e)).

(** The slots in use: being filled by the running handler, receiving, leased,
    or on the way back. *)
Definition busy (hand : list nat) e (xs : list Z) : list nat :=
  hand ++ pending_slots (se_pending e) ++ (slot_of e <$> leased e) ++ (slot_of e <$> xs).

(** How many credits can still be pushed. *)
Definition owed (n : nat) (hand : list nat) e : nat :=
  (n + length hand + length (pending_slots (se_pending e)) + length (leased e))%nat.

(** [n] more frames can arrive before the positions of the credit queue run
    out; [xs] is what the queue holds. *)
Record engine_inv (n : nat) (hand : list nat) e (xs : list Z) : Prop := {
  ei_depth : 0 < gb_ring_depth (se_granted e) <= Z.of_nat (length (se_slots e));
  ei_capacity : Forall (fun s => gb_max_frame_bytes (se_granted e) <= sl_capacity s) (se_slots e);
  ei_pending : length (se_pending e) = length (se_slots e);
  ei_tracker : exists k A, tracks (se_tracker e) k A /\ k < 2 ^ 64;
  ei_lease : lease_inv (fun _ => 0) (se_store e);
  ei_queue : fifo_repr (owed n hand e) (credit_queue e) xs;
  ei_room : Z.of_nat (length (se_slots e)) <= fifo_capacity (credit_queue e);
  ei_assert : as_assert_failed (vs_sink (se_store e)) = false;
  ei_busy : NoDup (busy hand e xs);
  ei_occupied : forall i slot, se_slots e !! i = Some slot ->
    (sl_occupied slot = true <-> i ∈ busy hand e xs);
  ei_nonneg : Forall (fun s => 0 <= s) xs;
  ei_live : forall l b, vs_leases (se_store e) !! l = Some b ->
    describes e (slot_of e (ls_sequence b)) (ls_sequence b);
  ei_receiving : forall i, i ∈ hand \/ se_pending e !! i = Some true -> exists s, describes e i s;
  ei_views : forall i v l b, vs_views (se_store e) !! i = Some v -> fv_lease v = Some l ->
    vs_leases (se_store e) !! l = Some b ->
    fv_fields v = Some (slot_of e (ls_sequence b)) /\
    exists slot, se_slots e !! slot_of e (ls_sequence b) = Some slot /\ fv_data v = Some (sl_data slot)
}.

Lemma slot_of_lt n hand e xs s :
  engine_inv n hand e xs -> 0 <= s -> (slot_of e s < length (se_slots e))%nat.
Proof.
  intros [[? ?] _ _ _ _ _ _ _ _ _ _ _ _ _] ?. unfold slot_of.
  pose proof (Z.mod_pos_bound s (gb_ring_depth (se_granted e)) ltac:(lia)). lia.
Qed.

Lemma leased_elem e s :
  s ∈ leased e <-> exists l b, vs_leases (se_store e) !! l = Some b /\ ls_sequence b = s.
Proof.
  unfold leased, live. rewrite list_elem_of_fmap. split.
  - intros (b & -> & Hb). apply list_elem_of_fmap in Hb as ([l b'] & -> & Hlb).
    apply elem_of_map_to_list in Hlb. eauto.
  - intros (l & b & Hb & <-). exists b. split; [done|]. apply list_elem_of_fmap. exists (l, b).
    split; [done|]. by apply elem_of_map_to_list.
Qed.

Lemma busy_lt n hand e xs i :
  engine_inv n hand e xs -> i ∈ busy hand e xs -> (i < length (se_slots e))%nat.
Proof.
  intros Hinv. unfold busy. rewrite !elem_of_app, !list_elem_of_fmap, elem_of_pending.
  intros [Hi|[Hi|[(s & -> & Hs)|(s & -> & Hs)]]].
  - destruct (ei_receiving _ _ _ _ Hinv i (or_introl Hi)) as (s & _ & _ & slot & Hs & _).
    by apply lookup_lt_Some in Hs.
  - apply lookup_lt_Some in Hi. by rewrite (ei_pending _ _ _ _ Hinv) in Hi.
  - apply leased_elem in Hs as (l & b & Hb & <-).
    apply (slot_of_lt n hand e xs); [done|]. apply (ei_live _ _ _ _ Hinv l b Hb).
  - apply (slot_of_lt n hand e xs); [done|]. pose proof (ei_nonneg _ _ _ _ Hinv) as Hnn.
    rewrite list.Forall_forall in Hnn. by apply Hnn.
Qed.

(** At most one slot per frame in use: the credit queue cannot fill. *)
Lemma busy_length n hand e xs :
  engine_inv n hand e xs -> (length (busy hand e xs) <= length (se_slots e))%nat.
Proof.
  intros Hinv. rewrite <-(length_seq (length (se_slots e)) 0).
  apply submseteq_length, NoDup_submseteq; [apply Hinv|].
  intros i Hi. apply elem_of_seq. pose proof (busy_lt n hand e xs i Hinv Hi). lia.
Qed.

(** ** Moves that leave the slots alone *)

Definition same_core e e' : Prop :=
  se_slots e' = se_slots e /\ se_store e' = se_store e /\ se_pending e' = se_pending e /\
  se_granted e' = se_granted e.

Definition tracker_ok e : Prop := exists k A, tracks (se_tracker e) k A /\ k < 2 ^ 64.

Lemma inv_quiet n m hand e e' xs :
  (m <= n)%nat -> engine_inv n hand e xs -> same_core e e' -> tracker_ok e' ->
  engine_inv m hand e' xs.
Proof.
  intros Hm [H1 H2 H3 _ H5 H6 H7 H8 H9 H10 H11 H12 H13 H14] (Hs & Hst & Hp & Hg) Ht.
  destruct e, e'. simpl in *. subst. split; simpl in *; try done.
  eapply fifo_repr_weaken; [|exact H6]. unfold owed, leased. simpl. lia.
Qed.

Lemma tracker_release_ok e s :
  tracker_ok e -> 0 <= s ->
  exists e', tracker_release e s = Val e' /\ same_core e e' /\ tracker_ok e' /\
    se_closing e' = se_closing e.
Proof.
  intros (k & A & Ht & Hk) Hs. unfold tracker_release.
  destruct (release_total _ _ _ s Ht Hk Hs) as (r & t' & k' & A' & -> & Ht' & Hk' & _).
  eexists. split; [reflexivity|]. split; [done|]. split; [|done]. by exists k', A'.
Qed.

(** ** Moves on one slot *)

Lemma set_slot_describes e i slot' j s :
  describes e j s -> (j <> i \/ exists slot, se_slots e !! i = Some slot /\ sl_fields slot' = sl_fields slot) ->
  describes (set_slot e i slot') j s.
Proof.
  intros (Hs & Hj & slot & Hl & Hseq & Hf) Hi. split; [done|]. split; [done|].
  destruct (decide (j = i)) as [->|Hne].
  - destruct Hi as [|(slot0 & Hl0 & Hf0)]; [done|]. simplify_eq. exists slot'.
    split; [apply list_lookup_insert_eq; by eapply lookup_lt_Some|]. by rewrite Hf0.
  - exists slot. by split; [simpl; rewrite list_lookup_insert_ne|].
Qed.

(** Replacing a slot, with the list of slots in hand changing with it. *)
Lemma inv_set_slot n m hand hand' e xs i slot slot' :
  engine_inv n hand e xs -> se_slots e !! i = Some slot ->
  sl_data slot' = sl_data slot -> sl_capacity slot' = sl_capacity slot ->
  (sl_fields slot' = sl_fields slot \/ i ∉ busy hand e xs) ->
  (m + length hand' <= n + length hand)%nat -> NoDup (busy hand' e xs) ->
  (forall j, j <> i -> (j ∈ hand' <-> j ∈ hand)) ->
  (sl_occupied slot' = true <-> i ∈ busy hand' e xs) ->
  (i ∈ hand' -> exists s, describes (set_slot e i slot') i s) ->
  engine_inv m hand' (set_slot e i slot') xs.
Proof.
  intros Hinv Hi Hd Hc Hf Hm Hnd Hh Hocc Hhand.
  pose proof Hinv as [H1 H2 H3 H4 H5 H6 H7 H8 H9 H10 H11 H12 H13 H14].
  assert (forall j s, describes e j s -> j ∈ busy hand e xs \/ j <> i -> describes (set_slot e i slot') j s)
    as Hdesc.
  { intros j s Hj Hor. apply set_slot_describes; [done|]. destruct (decide (j = i)) as [->|]; [|by left].
    destruct Hf as [Hf|Hf]; [right; eauto|naive_solver]. }
  split; try done; simpl.
  - by rewrite length_insert.
  - apply Forall_insert; [done|]. rewrite Hc. by eapply Forall_lookup_1 in H2.
  - by rewrite length_insert.
  - eapply fifo_repr_weaken; [|exact H6]. unfold owed, leased. simpl. lia.
  - by rewrite length_insert.
  - intros j sl Hj. apply list_lookup_insert_Some in Hj as [(<- & <- & _)|[Hne Hj]]; [done|].
    rewrite (H10 j sl Hj). unfold busy. rewrite !elem_of_app. by rewrite (Hh j) by done.
  - intros l b Hb. apply Hdesc; [by apply (H12 l b)|]. left. unfold busy. rewrite !elem_of_app.
    right; right; left. apply list_elem_of_fmap. exists (ls_sequence b). split; [done|].
    apply leased_elem. eauto.
  - intros j Hj. destruct (decide (j = i)) as [->|Hne].
    + destruct Hj as [Hj|Hj]; [by apply Hhand|]. destruct (H13 i (or_intror Hj)) as [s Hs].
      exists s. apply Hdesc; [done|]. left. unfold busy. rewrite !elem_of_app, elem_of_pending. auto.
    + destruct (H13 j) as [s Hs]; [rewrite <-(Hh j) by done; done|]. exists s. apply Hdesc; auto.
  - intros j v l b Hj Hv Hb. destruct (H14 j v l b Hj Hv Hb) as [? (sl & Hsl & ?)]. split; [done|].
    change (slot_of (set_slot e i slot') (ls_sequence b)) with (slot_of e (ls_sequence b)).
    destruct (decide (i = slot_of e (ls_sequence b))) as [->|].
    + exists slot'. split; [apply list_lookup_insert_eq; by eapply lookup_lt_Some|]. congruence.
    + exists sl. split; [by rewrite list_lookup_insert_ne|done].
Qed.

Lemma not_busy n hand e xs i slot :
  engine_inv n hand e xs -> se_slots e !! i = Some slot -> sl_occupied slot = false ->
  i ∉ busy hand e xs.
Proof. intros Hinv Hi Ho Hb. apply (ei_occupied _ _ _ _ Hinv i slot Hi) in Hb. congruence. Qed.

(** A free slot is taken for a frame. *)
Lemma inv_occupy n e xs i slot f b :
  engine_inv (S n) [] e xs -> se_slots e !! i = Some slot -> sl_occupied slot = false ->
  0 <= ff_sequence f -> slot_of e (ff_sequence f) = i -> fields_fit (se_granted e) f ->
  engine_inv n [i] (set_slot e i (mkReceiveSlot f (sl_data slot) (sl_capacity slot) true b)) xs.
Proof.
  intros Hinv Hi Ho Hs Hsl Hf. pose proof (not_busy _ _ _ _ _ _ Hinv Hi Ho) as Hnb.
  apply (inv_set_slot (S n) n [] [i] e xs i slot); try done; [by right|simpl; lia| | | |].
  - apply list.NoDup_cons. split; [done|apply Hinv].
  - intros j Hj. set_solver.
  - split; [|done]. intros _. by left.
  - intros _. exists (ff_sequence f). split; [done|]. split; [done|].
    eexists. split; [apply list_lookup_insert_eq; by eapply lookup_lt_Some|]. done.
Qed.

(** The handler gives up the slot it holds. *)
Lemma inv_vacate n e xs i slot :
  engine_inv n [i] e xs -> se_slots e !! i = Some slot ->
  engine_inv n [] (set_slot e i (set_occupied slot false)) xs.
Proof.
  intros Hinv Hi. pose proof (ei_busy _ _ _ _ Hinv) as Hnd. apply list.NoDup_cons in Hnd as [Hni Hnd].
  apply (inv_set_slot n n [i] [] e xs i slot); try done; [by left|simpl; lia| |].
  - intros j Hj. set_solver.
  - by intros ?%elem_of_nil.
Qed.

Lemma slot_in_hand n e xs i :
  engine_inv n [i] e xs -> exists slot, se_slots e !! i = Some slot /\
    gb_max_frame_bytes (se_granted e) <= sl_capacity slot /\
    exists s, 0 <= s /\ slot_of e s = i /\ ff_sequence (sl_fields slot) = s /\
      fields_fit (se_granted e) (sl_fields slot).
Proof.
  intros Hinv. destruct (ei_receiving _ _ _ _ Hinv i) as (s & Hs & Hi & slot & Hl & Hsq & Hf);
    [left; by left|].
  exists slot. split; [done|]. split; [|by exists s].
  pose proof (ei_capacity _ _ _ _ Hinv) as Hc. by eapply Forall_lookup_1 in Hc.
Qed.

(** The busy list only depends on its parts up to order. *)
Lemma busy_perm hand hand' e e' xs xs' :
  busy hand e xs ≡ₚ busy hand' e' xs' -> NoDup (busy hand e xs) -> NoDup (busy hand' e' xs').
Proof. by intros ->. Qed.

(** The slot in hand becomes one with a receive in flight, and back. *)
Lemma inv_start_receive n e xs i k :
  engine_inv n [i] e xs ->
  engine_inv n [] (with_pending e (<[i := true]> (se_pending e)) k) xs.
Proof.
  intros Hinv. destruct (slot_in_hand n e xs i Hinv) as (slot & Hi & _ & s & Hdesc).
  pose proof Hinv as [H1 H2 H3 H4 H5 H6 H7 H8 H9 H10 H11 H12 H13 H14].
  assert (se_pending e !! i = Some false) as Hpf.
  { pose proof (lookup_lt_Some _ _ _ Hi) as Hlt. rewrite <-H3 in Hlt.
    apply lookup_lt_is_Some in Hlt as [[|] Hp]; [|done]. exfalso.
    apply list.NoDup_cons in H9 as [Hni _]. apply Hni. simpl. unfold busy.
    rewrite elem_of_app, elem_of_pending. by left. }
  assert (busy [] (with_pending e (<[i := true]> (se_pending e)) k) xs ≡ₚ busy [i] e xs) as Hp.
  { unfold busy. simpl. by rewrite (pending_set _ _ Hpf). }
  split; try done; simpl.
  - by rewrite length_insert.
  - eapply fifo_repr_weaken; [|exact H6]. unfold owed, leased. simpl.
    rewrite (Permutation_length (pending_set _ _ Hpf)). simpl. lia.
  - by rewrite Hp.
  - intros j sl Hj. rewrite Hp. by apply H10.
  - intros j [Hj|Hj]; [by apply elem_of_nil in Hj|].
    apply list_lookup_insert_Some in Hj as [(<- & _ & _)|[_ Hj]]; [|by apply (H13 j (or_intror Hj))].
    apply (H13 i). left. by left.
Qed.

Lemma inv_end_receive n e xs i k :
  engine_inv n [] e xs -> se_pending e !! i = Some true ->
  engine_inv n [i] (with_pending e (<[i := false]> (se_pending e)) k) xs.
Proof.
  intros Hinv Hpt. pose proof Hinv as [H1 H2 H3 H4 H5 H6 H7 H8 H9 H10 H11 H12 H13 H14].
  assert (busy [i] (with_pending e (<[i := false]> (se_pending e)) k) xs ≡ₚ busy [] e xs) as Hp.
  { unfold busy. simpl. rewrite <-(pending_clear _ _ Hpt). done. }
  split; try done; simpl.
  - by rewrite length_insert.
  - eapply fifo_repr_weaken; [|exact H6]. unfold owed, leased. simpl.
    rewrite <-(Permutation_length (pending_clear _ _ Hpt)). simpl. lia.
  - by rewrite Hp.
  - intros j sl Hj. rewrite Hp. by apply H10.
  - intros j [->%list_elem_of_singleton|Hj]; [apply (H13 i); by right|].
    apply list_lookup_insert_Some in Hj as [(_ & ? & _)|[_ Hj]]; [done|by apply (H13 j (or_intror Hj))].
Qed.

Lemma land_payload_ok n e xs i payload :
  engine_inv n [i] e xs -> Z.of_nat (length payload) <= gb_max_frame_bytes (se_granted e) ->
  exists e', land_payload e i payload = Val e' /\ engine_inv n [i] e' xs /\
    se_tracker e' = se_tracker e.
Proof.
  intros Hinv Hlen. destruct (slot_in_hand n e xs i Hinv) as (slot & Hi & Hc & s & ? & ? & ? & Hf).
  unfold land_payload, slot_at. rewrite Hi. cbn [outcome_bind].
  rewrite (proj2 (Z.ltb_ge _ _)) by lia. eexists. split; [reflexivity|]. split; [|done].
  apply (inv_set_slot n n [i] [i] e xs i slot); try done; [by left|apply Hinv| |].
  - simpl. by apply (ei_occupied _ _ _ _ Hinv).
  - intros _. exists s. split; [done|]. split; [done|].
    eexists. split; [apply list_lookup_insert_eq; by eapply lookup_lt_Some|]. done.
Qed.

(** The slot in hand becomes a leased one, with a view on it. *)
Lemma commit_ok n e xs i :
  engine_inv n [i] e xs ->
  exists e', commit e i = Val e' /\ engine_inv n [] e' xs /\ se_tracker e' = se_tracker e /\
    se_slots e' = se_slots e.
Proof.
  intros Hinv. destruct (slot_in_hand n e xs i Hinv) as (slot & Hi & Hc & s & Hs & Hsl & Hsq & Hf).
  unfold commit, slot_at. rewrite Hi. cbn [outcome_bind]. rewrite Hsq.
  eexists. split; [reflexivity|]. split; [|done].
  pose proof Hinv as [H1 H2 H3 H4 H5 H6 H7 H8 H9 H10 H11 H12 H13 H14].
  set (st := mkViewStore _ _ _ _).
  assert (lease_inv (fun _ => 0) st) as Hst by (destruct H5 as [Hc5 Hl5]; by split).
  destruct (make_view_inv st s (sl_data slot) i Hst) as (Hst' & Hfresh & Hlive).
  set (st' := make_view st s (sl_data slot) i) in *.
  set (e' := with_store _ st').
  assert (leased e' ≡ₚ s :: leased e) as Hleased by done.
  assert (forall s', slot_of e' s' = slot_of e s') as Hso by done.
  assert (busy [] e' xs ≡ₚ busy [i] e xs) as Hp.
  { unfold busy. simpl. rewrite Hleased. simpl. change (slot_of e' s) with (slot_of e s).
    rewrite Hsl. solve_Permutation. }
  split; try done; cbn [e' with_store se_slots se_pending se_granted se_store count with_counters].
  - eapply fifo_repr_weaken; [|exact H6]. unfold owed.
    rewrite (Permutation_length Hleased). simpl. lia.
  - by rewrite Hp.
  - intros j sl Hj. rewrite Hp. by apply H10.
  - intros l b Hb. unfold st', make_view in Hb. simpl in Hb.
    apply lookup_insert_Some in Hb as [[_ <-]|[_ Hb]]; [|by apply (H12 l b)].
    simpl. rewrite Hso, Hsl. split; [done|]. split; [done|]. by exists slot.
  - intros j [Hj|Hj]; [by apply elem_of_nil in Hj|]. by apply (H13 j (or_intror Hj)).
  - intros j v l b Hj Hv Hb. unfold st', make_view in Hj, Hb. simpl in Hj, Hb.
    apply lookup_app_Some in Hj as [Hj|[_ Hj]].
    + apply lookup_insert_Some in Hb as [[<- _]|[_ Hb]]; [|by apply (H14 j v l b)].
      exfalso. pose proof (holders_pos _ _ _ _ Hj Hv) as Hpos. destruct H5 as [Hc5 _].
      specialize (Hc5 (vs_next (se_store e))). simpl in Hfresh. rewrite Hfresh in Hc5. lia.
    + apply list_lookup_singleton_Some in Hj as [_ <-]. simpl in *. simplify_eq.
      rewrite lookup_insert_eq in Hb. simplify_eq. simpl. split; [by rewrite Hso|].
      exists slot. by rewrite Hso.
Qed.

(** The application copies, moves, assigns and drops views. *)
Lemma view_op_ok_inv n e xs op :
  engine_inv n [] e xs -> view_op_ok (se_store e) op -> makes op = false ->
  exists xs', engine_inv n [] (with_store e (apply_view_op (se_store e) op)) xs'.
Proof.
  intros Hinv Hok Hmk. pose proof Hinv as [H1 H2 H3 H4 H5 H6 H7 H8 H9 H10 H11 H12 H13 H14].
  destruct (view_op_move _ op H5 Hok Hmk) as (Hl' & Hv' & _ & dropped & [Hk He]).
  set (st' := apply_view_op (se_store e) op) in *. set (e' := with_store e st').
  assert (forall i v l b, vs_views st' !! i = Some v -> fv_lease v = Some l -> vs_leases st' !! l = Some b ->
    fv_fields v = Some (slot_of e (ls_sequence b)) /\
    exists slot, se_slots e !! slot_of e (ls_sequence b) = Some slot /\ fv_data v = Some (sl_data slot))
    as Hviews.
  { intros i v l b' Hi Hv Hb'. destruct (Hv' i v l Hi Hv) as [j Hj].
    destruct (Hk l b' Hb') as (b & Hb & ->). by apply (H14 j v l b). }
  assert (forall l b, vs_leases st' !! l = Some b -> describes e' (slot_of e' (ls_sequence b)) (ls_sequence b))
    as Hlive.
  { intros l b' Hb'. destruct (Hk l b' Hb') as (b & Hb & ->). by apply (H12 l b). }
  destruct dropped as [q|]; destruct He as [Hsink Hp].
  - assert (leased e ≡ₚ q :: leased e') as Hleased by done.
    assert (0 <= q) as Hq.
    { assert (q ∈ leased e) as Hin by (rewrite Hleased; by left).
      apply leased_elem in Hin as (l & b & Hb & <-). by apply (H12 l b). }
    assert (busy [] e' (xs ++ [q]) ≡ₚ busy [] e xs) as Hbusy.
    { unfold busy. rewrite Hleased, fmap_app. simpl. solve_Permutation. }
    pose proof (busy_length _ _ _ _ Hinv) as Hlen. unfold busy in Hlen.
    rewrite Hleased, !length_app, !length_fmap in Hlen. simpl in Hlen.
    assert (owed n [] e = S (owed n [] e')) as Howed.
    { unfold owed. rewrite (Permutation_length Hleased). simpl. lia. }
    rewrite Howed in H6. pose proof (fifo_push_law _ _ _ q H6) as Hpush.
    rewrite bool_decide_eq_true_2 in Hpush by lia.
    destruct Hpush as (q' & Hpush & Hrepr & Hcap).
    exists (xs ++ [q]). split; try done; simpl.
    + unfold credit_queue. simpl. rewrite Hsink. simpl. unfold arena_return_credit.
      fold (credit_queue e). rewrite Hpush. done.
    + unfold credit_queue. simpl. rewrite Hsink. simpl. unfold arena_return_credit.
      fold (credit_queue e). rewrite Hpush. simpl. lia.
    + rewrite Hsink. simpl. unfold arena_return_credit. fold (credit_queue e). rewrite Hpush. simpl.
      by rewrite H8.
    + by rewrite Hbusy.
    + intros i slot Hi. rewrite Hbusy. by apply H10.
    + apply Forall_app. split; [done|]. by apply Forall_singleton.
  - assert (leased e' ≡ₚ leased e) as Hleased by done.
    assert (busy [] e' xs ≡ₚ busy [] e xs) as Hbusy by (unfold busy; by rewrite Hleased).
    exists xs. split; try done; simpl.
    + unfold credit_queue, owed. simpl. rewrite Hsink, (Permutation_length Hleased). done.
    + unfold credit_queue. simpl. by rewrite Hsink.
    + by rewrite Hsink.
    + by rewrite Hbusy.
    + intros i slot Hi. rewrite Hbusy. by apply H10.
Qed.

(** One turn of [drain_credit_returns] before the tracker is told. *)
Definition popped e (fq : Q) : SubscriberEngine :=
  let st := se_store e in
  let a := vs_sink st in
  with_store e (mkViewStore (vs_leases st) (vs_next st) (vs_views st)
    (mkArenaSink fq (as_credits_returned a) (as_views_outstanding a) (as_assert_failed a))).

Lemma drain_turn n e q xs :
  engine_inv n [] e (q :: xs) ->
  exists fq slot, fifo_pop (credit_queue e) = (Some q, fq) /\ 0 <= q /\
    se_slots e !! slot_of e q = Some slot /\
    engine_inv n [] (set_slot (popped e fq) (slot_of e q) (set_occupied slot false)) xs.
Proof.
  intros Hinv. pose proof Hinv as [H1 H2 H3 H4 H5 H6 H7 H8 H9 H10 H11 H12 H13 H14].
  apply Forall_cons_1 in H11 as [Hq Hxs].
  pose proof (fifo_pop_law _ _ _ H6) as (fq & Hpop & Hrepr & Hcap).
  assert (slot_of e q < length (se_slots e))%nat as Hlt by (by eapply slot_of_lt).
  apply lookup_lt_is_Some in Hlt as [slot Hslot].
  exists fq, slot. split; [done|]. split; [done|]. split; [done|].
  set (i := slot_of e q) in *. set (e' := set_slot _ i _).
  assert (busy [] e (q :: xs) ≡ₚ i :: busy [] e' xs) as Hbusy.
  { unfold busy. simpl. change (slot_of e' <$> leased e') with (slot_of e <$> leased e).
    change (slot_of e' <$> xs) with (slot_of e <$> xs).
    change (slot_of e q) with i. solve_Permutation. }
  rewrite Hbusy in H9. apply list.NoDup_cons in H9 as [Hni Hnd].
  assert (forall j s, describes e j s -> describes e' j s) as Hdesc.
  { intros j s Hj. apply (set_slot_describes e i (set_occupied slot false) j s Hj). right. by exists slot. }
  split; try done; cbn [e' set_slot with_slots popped with_store se_slots se_pending se_granted].
  - by rewrite length_insert.
  - apply Forall_insert; [done|]. simpl. by eapply (Forall_lookup_1 _ _ _ _ H2).
  - by rewrite length_insert.
  - destruct H5 as [Hc5 Hl5]. by split.
  - rewrite length_insert. unfold credit_queue. simpl. by rewrite Hcap.
  - intros j sl Hj. apply list_lookup_insert_Some in Hj as [(<- & <- & _)|[Hne Hj]].
    + simpl. split; [done|]. intros Hb. by destruct Hni.
    + rewrite (H10 j sl Hj), Hbusy, elem_of_cons. naive_solver.
  - intros l b Hb. apply Hdesc. by apply (H12 l b).
  - intros j Hj. destruct (H13 j Hj) as [s Hs]. exists s. by apply Hdesc.
  - intros j v l b Hj Hv Hb. destruct (H14 j v l b Hj Hv Hb) as [? (sl & Hsl & ?)]. split; [done|].
    change (slot_of e' (ls_sequence b)) with (slot_of e (ls_sequence b)).
    destruct (decide (i = slot_of e (ls_sequence b))) as [Heq|].
    + exists (set_occupied slot false). rewrite <-Heq in *.
      split; [apply list_lookup_insert_eq; by eapply lookup_lt_Some|]. simpl. congruence.
    + exists sl. split; [by rewrite list_lookup_insert_ne|done].
Qed.

Lemma drain_loop_ok n fuel e xs :
  engine_inv n [] e xs ->
  exists e' xs', drain_loop fuel e = Val e' /\ engine_inv n [] e' xs' /\
    xs' = drop fuel xs /\ vs_leases (se_store e') = vs_leases (se_store e) /\
    vs_views (se_store e') = vs_views (se_store e).
Proof.
  revert e xs. induction fuel as [|fuel IH]; intros e xs Hinv; [by exists e, xs|].
  destruct xs as [|q xs].
  - exists e, []. cbn [drain_loop].
    pose proof (fifo_pop_law _ _ _ (ei_queue _ _ _ _ Hinv)) as Hpop. unfold credit_queue in Hpop.
    by rewrite Hpop.
  - destruct (drain_turn n e q xs Hinv) as (fq & slot & Hpop & Hq & Hslot & Hinv').
    cbn [drain_loop]. unfold credit_queue in Hpop. rewrite Hpop. fold (popped e fq).
    pose proof (ei_depth _ _ _ _ Hinv) as Hd.
    change (gb_ring_depth (se_granted (popped e fq))) with (gb_ring_depth (se_granted e)).
    rewrite (proj2 (Z.eqb_neq _ _)) by lia.
    assert (slot_at (popped e fq) (Z.to_nat (q mod gb_ring_depth (se_granted e))) = Val slot) as ->
      by (unfold slot_at; simpl; unfold slot_of in Hslot; by rewrite Hslot).
    cbn [outcome_bind]. fold (slot_of e q).
    destruct (tracker_release_ok _ q (ei_tracker _ _ _ _ Hinv') Hq) as (e1 & -> & Hcore & Htr & _).
    cbn [outcome_bind].
    destruct (IH e1 xs) as (e' & xs' & Hrun & Hi' & Hx & Hl & Hv);
      [by eapply (inv_quiet n n)|].
    exists e', xs'. split; [done|]. split; [done|]. split; [done|].
    destruct Hcore as (_ & Hst & _). rewrite Hl, Hv, Hst. done.
Qed.

(** ** The slots behind live leases stay as they are *)

Definition frozen e e' : Prop :=
  se_granted e' = se_granted e /\
  forall s, s ∈ leased e -> se_slots e' !! slot_of e s = se_slots e !! slot_of e s.

Definition off (i : nat) e e' : Prop :=
  se_granted e' = se_granted e /\ forall j, j <> i -> se_slots e' !! j = se_slots e !! j.

Lemma frozen_same e e' : se_granted e' = se_granted e -> se_slots e' = se_slots e -> frozen e e'.
Proof. intros Hg Hs. split; [done|]. intros s _. by rewrite Hs. Qed.

Lemma frozen_off e e' i : off i e e' -> i ∉ slot_of e <$> leased e -> frozen e e'.
Proof.
  intros [Hg Hoff] Hi. split; [done|]. intros s Hs. apply Hoff. intros <-. apply Hi.
  apply list_elem_of_fmap. eauto.
Qed.

Lemma off_set_slot i e s : off i e (set_slot e i s).
Proof. split; [done|]. intros j Hj. simpl. by rewrite list_lookup_insert_ne. Qed.

Lemma off_trans i e e1 e' : off i e e1 -> off i e1 e' -> off i e e'.
Proof. intros [Hg H1] [Hg' H2]. split; [congruence|]. intros j Hj. rewrite H2, H1; done. Qed.

Lemma off_same i e e' : se_granted e' = se_granted e -> se_slots e' = se_slots e -> off i e e'.
Proof. intros Hg Hs. split; [done|]. intros j _. by rewrite Hs. Qed.

Lemma land_payload_off e i payload e' : land_payload e i payload = Val e' -> off i e e'.
Proof.
  unfold land_payload. intros (slot & _ & Hl)%bind_val_inv. destruct (_ <? _); [done|].
  injection Hl as <-. apply off_set_slot.
Qed.

Lemma commit_off e i e' : commit e i = Val e' -> off i e e'.
Proof. unfold commit. intros (slot & _ & Hl)%bind_val_inv. injection Hl as <-. by apply off_same. Qed.

(** ** The handlers *)

(** UCX: a receive that completes inline delivers what it was asked for. *)
Definition am_ok (d : am_data) : Prop :=
  match d with
  | Rndv n (RndvInline landed) => Z.of_nat (length landed) = n
  | _ => True
  end.

(** The checked header of an accepted frame fits its slot. *)
Lemma describe_frame_fits g frame kind :
  FrameHeader_typed frame -> FrameHeader_checked frame ->
  fh_payload_bytes frame <= gb_max_frame_bytes g -> fields_fit g (describe_frame frame kind).
Proof.
  intros (_ & _ & _ & _ & _ & _ & _ & _ & _ & ? & _ & _ & _ & ? & ?) ([? ?] & He & ?) ?.
  apply validate_element_size_ok in He as [? _].
  unfold fields_fit. simpl. split_all; done || lia.
Qed.

Lemma receive_frame_ok n e xs i slot frame d :
  engine_inv (S n) [] e xs -> am_ok d -> FrameHeader_typed frame -> FrameHeader_checked frame ->
  fh_payload_bytes frame = am_length d -> fh_payload_bytes frame <= gb_max_frame_bytes (se_granted e) ->
  i = slot_of e (fh_sequence frame) -> se_slots e !! i = Some slot -> sl_occupied slot = false ->
  exists e', receive_frame e i slot frame d = Val e' /\ engine_inv n [] e' xs /\ off i e e'.
Proof.
  intros Hinv Ham Hty Hck Hlen Hmax Hidx Hi Ho.
  assert (0 <= fh_sequence frame) as Hseq by apply Hty.
  pose proof (inv_occupy n e xs i slot (describe_frame frame (se_memory_kind e)) (sl_bytes slot)
    Hinv Hi Ho Hseq (eq_sym Hidx) (describe_frame_fits _ _ _ Hty Hck Hmax)) as Hocc.
  unfold receive_frame. set (slot1 := mkReceiveSlot _ _ _ true _) in *.
  pose proof (off_set_slot i e slot1) as Hoff.
  assert (se_slots (set_slot e i slot1) !! i = Some slot1) as Hi1
    by (simpl; apply list_lookup_insert_eq; by eapply lookup_lt_Some).
  destruct d as [data|len start].
  - case_bool_decide as Hkind.
    + pose proof (inv_vacate _ _ _ _ _ Hocc Hi1) as Hvac.
      destruct (tracker_release_ok _ (fh_sequence frame) (ei_tracker _ _ _ _ Hvac) Hseq)
        as (e2 & -> & Hcore & Htr & _). cbn [outcome_bind].
      eexists. split; [reflexivity|]. split.
      * eapply (inv_quiet n n); [lia|exact Hvac| |exact Htr]. destruct Hcore as (? & ? & ? & ?). done.
      * destruct Hcore as (Hs & _ & _ & Hg). eapply off_trans; [exact Hoff|].
        eapply off_trans; [apply off_set_slot|]. by apply off_same.
    + destruct (land_payload_ok n _ xs i data Hocc) as (e2 & Hl & Hinv2 & _); [simpl in *; lia|].
      rewrite Hl. cbn [outcome_bind].
      assert (engine_inv n [i] (count e2 BytesCopied (Z.of_nat (length data))) xs) as Hinv3
        by (eapply (inv_quiet n n); [lia|exact Hinv2|done|apply (ei_tracker _ _ _ _ Hinv2)]).
      destruct (commit_ok n _ xs i Hinv3) as (e' & Hc & Hinv' & _). exists e'.
      split; [done|]. split; [done|]. eapply off_trans; [exact Hoff|].
      eapply off_trans; [by eapply land_payload_off|]. apply commit_off in Hc as [Hg Hoffc]. by split.
  - pose proof (slot_in_hand n _ xs i Hocc) as (slot2 & Hi2 & Hcap & _). rewrite Hi1 in Hi2.
    injection Hi2 as <-. simpl in Hcap. rewrite (proj2 (Z.ltb_ge _ _)) by (simpl; lia).
    destruct start as [|landed|].
    + eexists. split; [reflexivity|]. split.
      * eapply (inv_quiet n n); [lia|exact (inv_vacate _ _ _ _ _ Hocc Hi1)|done|].
        apply (ei_tracker _ _ _ _ Hocc).
      * eapply off_trans; [exact Hoff|]. eapply off_trans; [apply off_set_slot|]. by apply off_same.
    + destruct (land_payload_ok n _ xs i landed Hocc) as (e2 & Hl & Hinv2 & _); [simpl in *; lia|].
      rewrite Hl. cbn [outcome_bind].
      destruct (commit_ok n _ xs i Hinv2) as (e' & Hc & Hinv' & _). exists e'.
      split; [done|]. split; [done|]. eapply off_trans; [exact Hoff|].
      eapply off_trans; [by eapply land_payload_off|by apply commit_off].
    + eexists. split; [reflexivity|]. split; [by apply inv_start_receive|].
      eapply off_trans; [exact Hoff|]. by apply off_same.
Qed.

(** A frame that is dropped changes counters, the tracker and the state only. *)
Lemma dropped_ok n e xs e1 s :
  engine_inv (S n) [] e xs -> same_core e e1 -> tracker_ok e1 -> 0 <= s ->
  exists e2, tracker_release e1 s = Val e2 /\ engine_inv n [] e2 xs /\ frozen e e2 /\
    (forall st r, engine_inv n [] (engine_fail e2 st r) xs /\ frozen e (engine_fail e2 st r)).
Proof.
  intros Hinv (Hs & Hst & Hp & Hg) Htr Hseq.
  destruct (tracker_release_ok e1 s Htr Hseq) as (e2 & -> & (Hs2 & Hst2 & Hp2 & Hg2) & Htr2 & _).
  assert (same_core e e2) as Hcore by (unfold same_core; split_all; congruence).
  exists e2. split; [done|]. split; [by apply (inv_quiet (S n) n [] e e2); [lia|..]|].
  split; [apply frozen_same; congruence|]. intros st r.
  split; [|apply frozen_same; simpl; congruence].
  by apply (inv_quiet (S n) n [] e); [lia|..].
Qed.

Lemma handle_frame_ok n e xs header d :
  engine_inv (S n) [] e xs -> am_ok d ->
  exists e', handle_frame e header d = Val e' /\ engine_inv n [] e' xs /\ frozen e e'.
Proof.
  intros Hinv Ham. pose proof (ei_tracker _ _ _ _ Hinv) as Htr.
  assert (forall e', same_core e e' -> tracker_ok e' ->
    engine_inv n [] e' xs /\ frozen e e') as Hquiet.
  { intros e' Hcore Ht. split; [apply (inv_quiet (S n) n [] e); [lia|done..]|].
    destruct Hcore as (Hs & _ & _ & Hg). by apply frozen_same. }
  unfold handle_frame. destruct (se_closing e); [exists e; split; [done|]; by apply Hquiet|].
  destruct (decode_FrameHeader_spec header) as [Hsafe Hval].
  destruct (decode_FrameHeader header) as [frame|st|]; [|eexists; split; [done|]; by apply Hquiet|done].
  destruct (Hval frame eq_refl) as [Hty Hck]. clear Hval Hsafe.
  assert (0 <= fh_sequence frame) as Hseq by apply Hty.
  destruct (negb (fh_stream_id frame =? _)); [eexists; split; [done|]; by apply Hquiet|].
  destruct (negb (fh_generation frame =? _)); [eexists; split; [done|]; by apply Hquiet|].
  destruct (negb (gb_rank _ =? 0) && frame_differs _ _).
  { destruct (dropped_ok n e xs (count e GeometryChanged 1) (fh_sequence frame) Hinv)
      as (e2 & -> & _ & _ & Hf); [done..|]. cbn [outcome_bind]. eexists. split; [done|]. apply Hf. }
  destruct (Z.eqb_spec (fh_payload_bytes frame) (am_length d)) as [Hlen|]; cbn [negb].
  2:{ destruct (dropped_ok n e xs (count e BadHeader 1) (fh_sequence frame) Hinv)
      as (e2 & -> & ? & ? & _); [done..|]. by exists e2. }
  destruct (Z.ltb_spec (gb_max_frame_bytes (se_granted e)) (fh_payload_bytes frame)) as [|Hmax].
  { destruct (dropped_ok n e xs (count e Oversize 1) (fh_sequence frame) Hinv)
      as (e2 & -> & ? & ? & _); [done..|]. by exists e2. }
  pose proof (ei_depth _ _ _ _ Hinv) as Hd. rewrite (proj2 (Z.eqb_neq _ _)) by lia.
  fold (slot_of e (fh_sequence frame)).
  pose proof (slot_of_lt _ _ _ _ (fh_sequence frame) Hinv Hseq) as Hlt.
  apply lookup_lt_is_Some in Hlt as [slot Hslot].
  unfold slot_at. rewrite Hslot. cbn [outcome_bind].
  destruct (sl_occupied slot) eqn:Ho; cbn [orb]; [eexists; split; [done|]; by apply Hquiet|].
  destruct (fh_sequence frame <? _); [eexists; split; [done|]; by apply Hquiet|].
  destruct (receive_frame_ok n e xs _ slot frame d Hinv Ham Hty Hck Hlen Hmax eq_refl Hslot Ho)
    as (e' & Hrun & Hinv' & Hoff).
  exists e'. split; [done|]. split; [done|]. apply (frozen_off _ _ _ Hoff).
  intros Hin. apply (not_busy _ _ _ _ _ _ Hinv Hslot Ho). unfold busy. simpl.
  rewrite !elem_of_app. auto.
Qed.

Lemma rndv_complete_ok n e xs i landed :
  engine_inv n [] e xs -> se_pending e !! i = Some true ->
  (forall p, landed = Some p -> exists slot, se_slots e !! i = Some slot /\
     Z.of_nat (length p) = ff_payload_bytes (sl_fields slot)) ->
  exists e', on_rndv_complete e i landed = Val e' /\ engine_inv n [] e' xs /\ frozen e e'.
Proof.
  intros Hinv Hp Hl. unfold on_rndv_complete. rewrite Hp. cbn [default from_option id].
  pose proof (inv_end_receive n e xs i (se_rndv_inflight e - 1) Hinv Hp) as Hinv1.
  set (e1 := with_pending _ _ _) in *.
  destruct (slot_in_hand n e1 xs i Hinv1) as (slot & Hi & _ & s & _ & _ & _ & Hfit).
  assert (i ∉ slot_of e <$> leased e) as Hni.
  { pose proof (ei_busy _ _ _ _ Hinv) as Hnd. unfold busy in Hnd. simpl in Hnd.
    apply list.NoDup_app in Hnd as (_ & Hd & _). intros Hin.
    apply (Hd i); [by apply elem_of_pending|]. rewrite elem_of_app. by left. }
  assert (off i e e1) as Hoff1 by (by apply off_same).
  destruct landed as [p|].
  - destruct (Hl p eq_refl) as (slot0 & Hi0 & Hlen). simpl in Hi. rewrite Hi0 in Hi. injection Hi as <-.
    destruct (land_payload_ok n e1 xs i p Hinv1) as (e2 & Hland & Hinv2 & _);
      [destruct Hfit as [? _]; simpl in *; lia|].
    rewrite Hland. cbn [outcome_bind].
    destruct (commit_ok n e2 xs i Hinv2) as (e' & Hc & Hinv' & _). exists e'.
    split; [done|]. split; [done|]. apply (frozen_off _ _ i); [|done].
    eapply off_trans; [exact Hoff1|]. eapply off_trans; [by eapply land_payload_off|by apply commit_off].
  - unfold slot_at. rewrite Hi. cbn [outcome_bind]. eexists. split; [reflexivity|]. split.
    + eapply (inv_quiet n n); [lia|exact (inv_vacate _ _ _ _ _ Hinv1 Hi)|done|].
      apply (ei_tracker _ _ _ _ Hinv1).
    + apply (frozen_off _ _ i); [|done]. eapply off_trans; [exact Hoff1|].
      eapply off_trans; [apply off_set_slot|]. by apply off_same.
Qed.

Lemma drain_frozen n fuel e xs e' :
  engine_inv n [] e xs -> drain_loop fuel e = Val e' -> frozen e e'.
Proof.
  revert e xs. induction fuel as [|fuel IH]; intros e xs Hinv Hrun.
  { injection Hrun as <-. by apply frozen_same. }
  destruct xs as [|q xs]; cbn [drain_loop] in Hrun.
  - pose proof (fifo_pop_law _ _ _ (ei_queue _ _ _ _ Hinv)) as Hpop. unfold credit_queue in Hpop.
    rewrite Hpop in Hrun. injection Hrun as <-. by apply frozen_same.
  - destruct (drain_turn n e q xs Hinv) as (fq & slot & Hpop & Hq & Hslot & Hinv').
    unfold credit_queue in Hpop. rewrite Hpop in Hrun. fold (popped e fq) in Hrun.
    pose proof (ei_depth _ _ _ _ Hinv) as Hd.
    change (gb_ring_depth (se_granted (popped e fq))) with (gb_ring_depth (se_granted e)) in Hrun.
    rewrite (proj2 (Z.eqb_neq _ _)) in Hrun by lia.
    assert (slot_at (popped e fq) (Z.to_nat (q mod gb_ring_depth (se_granted e))) = Val slot) as Hat
      by (unfold slot_at; simpl; unfold slot_of in Hslot; by rewrite Hslot).
    rewrite Hat in Hrun. cbn [outcome_bind] in Hrun. fold (slot_of e q) in Hrun.
    destruct (tracker_release_ok _ q (ei_tracker _ _ _ _ Hinv') Hq) as (e1 & Hr & Hcore & Htr & _).
    rewrite Hr in Hrun. cbn [outcome_bind] in Hrun.
    assert (engine_inv n [] e1 xs) as Hinv1 by (by eapply (inv_quiet n n)).
    destruct (IH e1 xs Hinv1 Hrun) as [Hg Hs]. destruct Hcore as (Hs1 & Hst1 & _ & Hg1).
    split; [by rewrite Hg, Hg1|]. intros s Hin.
    assert (slot_of e1 s = slot_of e s) as Hso by (unfold slot_of; by rewrite Hg1).
    assert (s ∈ leased e1) as Hin1 by (unfold leased in *; by rewrite Hst1).
    specialize (Hs s Hin1). rewrite Hso in Hs. rewrite Hs, Hs1. simpl.
    apply list_lookup_insert_ne. intros Heq.
    pose proof (ei_busy _ _ _ _ Hinv) as Hnd. unfold busy in Hnd. simpl in Hnd.
    apply list.NoDup_app in Hnd as (_ & _ & Hnd). apply list.NoDup_app in Hnd as (_ & Hdis & _).
    apply (Hdis (slot_of e s)); [apply list_elem_of_fmap; eauto|]. rewrite <-Heq. by left.
Qed.

(** ** Runs *)

Inductive engine_event : Type :=
| EvFrame (header : bytes) (d : am_data)
| EvRndvComplete (i : nat) (landed : option bytes)
| EvProbe (header : bytes)
| EvProbeAck (sent : bool)
| EvDrain
| EvSendCredit (sent : bool)
| EvCreditFailed
| EvClosing
| EvView (op : view_op).

Definition apply_event e (ev : engine_event) : outcome Status SubscriberEngine :=
  match ev with
  | EvFrame header d => handle_frame e header d
  | EvRndvComplete i landed => on_rndv_complete e i landed
  | EvProbe header => on_probe_am e header
  | EvProbeAck sent => Val (snd (send_pending_probe_ack e sent))
  | EvDrain => drain_credit_returns e
  | EvSendCredit sent => Val (snd (send_pending_credit e sent))
  | EvCreditFailed => Val (on_credit_failed e)
  | EvClosing => Val (engine_closing e)
  | EvView op => Val (with_store e (apply_view_op (se_store e) op))
  end.

(** What UCX promises of its callbacks, and that a program names its views. *)
Definition event_ok e (ev : engine_event) : Prop :=
  match ev with
  | EvFrame _ d => am_ok d
  | EvRndvComplete i landed => se_pending e !! i = Some true /\
      forall p, landed = Some p -> exists slot, se_slots e !! i = Some slot /\
        Z.of_nat (length p) = ff_payload_bytes (sl_fields slot)
  | EvView op => view_op_ok (se_store e) op /\ makes op = false
  | _ => True
  end.

Definition frames_of (ev : engine_event) : nat := match ev with EvFrame _ _ => 1%nat | _ => 0%nat end.

Inductive engine_run : nat -> SubscriberEngine (Q := Q) -> SubscriberEngine (Q := Q) -> Prop :=
| er_refl e : engine_run 0 e e
| er_step k e ev e1 e' :
    event_ok e ev -> apply_event e ev = Val e1 -> engine_run k e1 e' ->
    engine_run (frames_of ev + k) e e'.

Lemma send_credit_tracker e sent :
  tracker_ok e -> tracker_ok (snd (send_pending_credit e sent)) /\
  same_core e (snd (send_pending_credit e sent)).
Proof.
  intros (k & A & Ht & Hk). unfold send_pending_credit.
  destruct (se_endpoint e); simpl; [|by split; [exists k, A|]].
  assert (forall last b, tracks (rt_with_ack (se_tracker e) last b) k A) as Hack
    by (intros; by apply tracks_with_ack).
  unfold take_pending_ack.
  destruct (rt_released_end _ =? rt_start _); [by split; [exists k, A|]|].
  destruct (rt_ack_sent _ && _); [by split; [exists k, A|]|].
  destruct sent; (split; [|done]); exists k, A; (split; [|done]); simpl; [apply Hack|].
  apply tracks_with_ack, Hack.
Qed.

Lemma event_inv n e xs ev :
  engine_inv (frames_of ev + n) [] e xs -> event_ok e ev ->
  exists e' xs', apply_event e ev = Val e' /\ engine_inv n [] e' xs' /\ frozen e e'.
Proof.
  intros Hinv Hok. pose proof (ei_tracker _ _ _ _ Hinv) as Htr.
  assert (forall e', same_core e e' -> tracker_ok e' -> engine_inv n [] e' xs /\ frozen e e') as Hquiet.
  { intros e' Hcore Ht. split; [apply (inv_quiet (frames_of ev + n) n [] e); [lia|done..]|].
    destruct Hcore as (Hs & _ & _ & Hg). by apply frozen_same. }
  destruct ev as [header d|i landed|header|sent| |sent| | |op]; cbn [frames_of Nat.add] in Hinv;
    cbn [apply_event event_ok] in *.
  - destruct (handle_frame_ok n e xs header d Hinv Hok) as (e' & ? & ? & ?). by exists e', xs.
  - destruct Hok as [Hp Hl].
    destruct (rndv_complete_ok n e xs i landed Hinv Hp Hl) as (e' & ? & ? & ?). by exists e', xs.
  - unfold on_probe_am. destruct (decode_three_words_safe header DT_Probe mkProbeMessage eq_refl) as [Hs _].
    change (safe (decode_ProbeMessage header)) in Hs.
    destruct (decode_ProbeMessage header) as [m|st|]; [|eexists _, xs; split; [done|]; by apply Hquiet|done].
    destruct (negb _); eexists _, xs; (split; [done|]); by apply Hquiet.
  - eexists _, xs. split; [done|]. apply Hquiet; unfold send_pending_probe_ack;
      destruct (_ || _), sent; done.
  - unfold drain_credit_returns.
    edestruct (drain_loop_ok n) as (e' & xs' & Hrun & ? & _); [exact Hinv|].
    exists e', xs'. rewrite Hrun. split; [done|]. split; [done|]. by eapply drain_frozen.
  - eexists _, xs. split; [done|]. apply Hquiet; by apply send_credit_tracker.
  - eexists _, xs. split; [done|]. apply Hquiet; [done|]. destruct Htr as (k & A & Ht & Hk).
    exists k, A. split; [by apply tracks_with_ack|done].
  - eexists _, xs. split; [done|]. by apply Hquiet.
  - destruct Hok as [Hok Hmk]. destruct (view_op_ok_inv n e xs op Hinv Hok Hmk) as [xs' Hinv'].
    eexists _, xs'. split; [done|]. split; [done|]. by apply frozen_same.
Qed.

Lemma engine_run_inv n k e e' xs :
  engine_inv (k + n) [] e xs -> engine_run k e e' -> exists xs', engine_inv n [] e' xs'.
Proof.
  intros Hinv Hrun. revert xs Hinv. induction Hrun as [e|k e ev e1 e' Hok Hev Hrun IH]; intros xs Hinv.
  - by exists xs.
  - rewrite <-Nat.add_assoc in Hinv.
    destruct (event_inv (k + n) e xs ev Hinv Hok) as (e2 & xs2 & Hev2 & Hinv2 & _).
    rewrite Hev in Hev2. injection Hev2 as <-. by apply (IH xs2).
Qed.

(** The engine as [Subscription] starts it: constructed for a ring of [depth]
    slots of [slot_bytes], activated with a grant. *)
Definition activated kind base slot_bytes depth (q : Q) stream_id granted :=
  snd (activate (engine_new kind base slot_bytes depth q) stream_id granted true).

(** The grant fits the prepared ring, and the credit queue its depth. *)
Record grant_fits (depth : nat) (slot_bytes : Z) (granted : GeometryBlock) : Prop := {
  gf_depth : 0 < gb_ring_depth granted <= Z.of_nat depth;
  gf_width : Z.of_nat depth < 2 ^ 32;
  gf_bytes : gb_max_frame_bytes granted <= slot_bytes
}.

Lemma activated_inv n kind base slot_bytes depth q stream_id granted :
  grant_fits depth slot_bytes granted -> fifo_repr n q [] -> Z.of_nat depth <= fifo_capacity q ->
  engine_inv n [] (activated kind base slot_bytes depth q stream_id granted) [].
Proof.
  intros [Hd Hw Hb] Hq Hcap.
  assert (pending_slots (replicate depth false) = []) as Hp.
  { apply elem_of_nil_inv. intros i. rewrite elem_of_pending, lookup_replicate. naive_solver. }
  assert (leased (activated kind base slot_bytes depth q stream_id granted) = []) as Hl
    by (unfold leased, live; simpl; by rewrite map_to_list_empty).
  assert (busy [] (activated kind base slot_bytes depth q stream_id granted) [] = []) as Hbusy.
  { unfold busy. rewrite Hl. simpl. by rewrite Hp. }
  split; try rewrite Hbusy; try done; simpl.
  - rewrite length_fmap, length_seq. lia.
  - apply Forall_fmap, Forall_true. intros i. simpl. lia.
  - by rewrite length_replicate, length_fmap, length_seq.
  - exists 0, ∅. split; [|lia]. eapply tracks_reset; [by apply tracks_new; lia|lia].
  - unfold owed. rewrite Hl. simpl. rewrite Hp. simpl. by rewrite !Nat.add_0_r.
  - rewrite length_fmap, length_seq. done.
  - constructor.
  - intros i slot Hi. apply list_lookup_fmap_Some in Hi as (j & -> & _). simpl.
    split; [done|]. by intros ?%elem_of_nil.
  - intros i [Hi|Hi]; [by apply elem_of_nil in Hi|]. by apply lookup_replicate in Hi as [? _].
Qed.

(** What a view with a lease sees. *)
Lemma view_slot n e xs i v l :
  engine_inv n [] e xs -> vs_views (se_store e) !! i = Some v -> fv_lease v = Some l ->
  exists b slot, vs_leases (se_store e) !! l = Some b /\ fv_fields v = Some (slot_of e (ls_sequence b)) /\
    se_slots e !! slot_of e (ls_sequence b) = Some slot /\ fv_data v = Some (sl_data slot) /\
    ff_sequence (sl_fields slot) = ls_sequence b /\ sl_occupied slot = true /\
    fields_fit (se_granted e) (sl_fields slot) /\
    gb_max_frame_bytes (se_granted e) <= sl_capacity slot.
Proof.
  intros Hinv Hi Hv. pose proof (holders_pos _ _ _ _ Hi Hv) as Hpos.
  pose proof (li_count _ _ (ei_lease _ _ _ _ Hinv) l) as Hc. simpl in Hc.
  destruct (vs_leases (se_store e) !! l) as [b|] eqn:Hb; [|lia].
  destruct (ei_views _ _ _ _ Hinv i v l b Hi Hv Hb) as [Hf (slot & Hs & Hdata)].
  destruct (ei_live _ _ _ _ Hinv l b Hb) as (_ & _ & slot' & Hs' & Hsq & Hfit).
  rewrite Hs in Hs'. injection Hs' as <-. exists b, slot. repeat (split; [done|]). split.
  - apply (ei_occupied _ _ _ _ Hinv _ _ Hs). unfold busy. simpl. rewrite !elem_of_app. right. left.
    apply list_elem_of_fmap. exists (ls_sequence b). split; [done|]. apply leased_elem. eauto.
  - split; [done|]. by apply (Forall_lookup_1 _ _ _ _ (ei_capacity _ _ _ _ Hinv) Hs).
Qed.

(** Two leases never share a slot. *)
Lemma leases_apart n e xs l l' b b' :
  engine_inv n [] e xs -> vs_leases (se_store e) !! l = Some b ->
  vs_leases (se_store e) !! l' = Some b' -> l <> l' ->
  slot_of e (ls_sequence b) <> slot_of e (ls_sequence b').
Proof.
  intros Hinv Hb Hb' Hne Heq. pose proof (ei_busy _ _ _ _ Hinv) as Hnd. unfold busy in Hnd.
  simpl in Hnd. apply list.NoDup_app in Hnd as (_ & _ & Hnd). apply list.NoDup_app in Hnd as (Hnd & _ & _).
  unfold leased in Hnd. rewrite (live_delete _ l b Hb) in Hnd.
  rewrite (live_delete _ l' b') in Hnd by (by rewrite lookup_delete_ne).
  simpl in Hnd. apply list.NoDup_cons in Hnd as [Hni _]. apply Hni. rewrite Heq. by left.
Qed.
End Safety.

(** C5: the receive engine is memory safe against any publisher.  Whatever
    headers, sequences and payloads arrive, in any interleaving with completions,
    credits and an application copying and dropping views: no handler touches
    memory outside a slot or the slot table; the credit queue never overflows, so
    its assertion holds; a view that holds a lease points into a slot of its own,
    which no other lease shares, whose description is of the frame the lease is
    for, whose payload fits the slot, and in which every element the description
    names lies inside the payload. *)
Theorem receive_engine_memory_safe {Q} `{BoundedFifo Q Z} kind base slot_bytes depth (q : Q)
  stream_id granted n k e
  (Hg : grant_fits depth slot_bytes granted) (Hq : fifo_repr (k + S n) q [])
  (Hc : Z.of_nat depth <= fifo_capacity q)
  (Hr : engine_run k (activated kind base slot_bytes depth q stream_id granted) e) :
  (forall ev, event_ok e ev -> exists e', apply_event e ev = Val e') /\
  as_assert_failed (vs_sink (se_store e)) = false /\
  (forall (k : nat) v l, vs_views (se_store e) !! k = Some v -> fv_lease v = Some l ->
     exists b (i : nat) slot, vs_leases (se_store e) !! l = Some b /\
       fv_fields v = Some i /\ se_slots e !! i = Some slot /\ fv_data v = Some (sl_data slot) /\
       ff_sequence (sl_fields slot) = ls_sequence b /\ sl_occupied slot = true /\
       ff_payload_bytes (sl_fields slot) <= sl_capacity slot /\
       (forall idx, length idx = Z.to_nat (ff_rank (sl_fields slot)) ->
          (forall j, (j < Z.to_nat (ff_rank (sl_fields slot)))%nat ->
             0 <= idx !!! j < ff_shape (sl_fields slot) !!! j) ->
          0 <= offset_of idx (firstn (Z.to_nat (ff_rank (sl_fields slot))) (ff_strides (sl_fields slot))) /\
          offset_of idx (firstn (Z.to_nat (ff_rank (sl_fields slot))) (ff_strides (sl_fields slot))) +
            ff_element_size (sl_fields slot) <= ff_payload_bytes (sl_fields slot))) /\
  (forall (i j : nat) v w l l', vs_views (se_store e) !! i = Some v -> vs_views (se_store e) !! j = Some w ->
     fv_lease v = Some l -> fv_lease w = Some l' -> l <> l' -> fv_fields v <> fv_fields w).
Proof.
  destruct (engine_run_inv (S n) k _ e [] (activated_inv _ kind base slot_bytes depth q stream_id granted
    Hg Hq Hc) Hr) as [xs Hinv].
  split; [|split; [|split]].
  - intros ev Hok. destruct (event_inv n e xs ev) as (e' & _ & ? & _); [|done|by exists e'].
    destruct ev; try exact Hinv; by apply (inv_quiet (S n) n [] e); [lia| | |apply Hinv].
  - apply Hinv.
  - intros i v l Hi Hv.
    destruct (view_slot _ e xs i v l Hinv Hi Hv) as (b & slot & Hb & Hf & Hs & Hd & Hsq & Ho & Hfit & Hcap).
    exists b, (slot_of e (ls_sequence b)), slot. repeat (split; [done|]).
    destruct Hfit as ([? ?] & ? & Hsh & Hst & Hrk & Hes & Hval). split; [lia|].
    intros idx Hl Hidx. apply (elements_in_bounds (ff_rank (sl_fields slot)) (ff_shape (sl_fields slot)));
      try done. unfold in_range. lia.
  - intros i j v w l l' Hi Hj Hv Hw Hne.
    destruct (view_slot _ e xs i v l Hinv Hi Hv) as (b & _ & Hb & -> & _).
    destruct (view_slot _ e xs j w l' Hinv Hj Hw) as (b' & _ & Hb' & -> & _).
    intros [= Heq]. by apply (leases_apart _ e xs l l' b b' Hinv Hb Hb' Hne).
Qed.

(** C6: a frame the application holds does not change under it.  Whatever event
    the engine handles next, the slot behind a lease that is alive keeps its
    description and its bytes. *)
Theorem held_frame_unchanged {Q} `{BoundedFifo Q Z} kind base slot_bytes depth (q : Q)
  stream_id granted n k e ev e'
  (Hg : grant_fits depth slot_bytes granted) (Hq : fifo_repr (k + S n) q [])
  (Hc : Z.of_nat depth <= fifo_capacity q)
  (Hr : engine_run k (activated kind base slot_bytes depth q stream_id granted) e)
  (Hok : event_ok e ev) (Hev : apply_event e ev = Val e') :
  forall (i : nat) v l, vs_views (se_store e) !! i = Some v -> fv_lease v = Some l ->
    exists (j : nat) slot, fv_fields v = Some j /\ se_slots e !! j = Some slot /\
      se_slots e' !! j = Some slot.
Proof.
  destruct (engine_run_inv (S n) k _ e [] (activated_inv _ kind base slot_bytes depth q stream_id granted
    Hg Hq Hc) Hr) as [xs Hinv].
  assert (frozen e e') as [_ Hfrozen].
  { destruct (event_inv n e xs ev) as (e2 & _ & Hev2 & _ & Hf); [|done|congruence].
    destruct ev; try exact Hinv; by apply (inv_quiet (S n) n [] e); [lia| | |apply Hinv]. }
  intros i v l Hi Hv.
  destruct (view_slot _ e xs i v l Hinv Hi Hv) as (b & slot & Hb & Hf & Hs & _).
  exists (slot_of e (ls_sequence b)), slot. split; [done|]. split; [done|].
  rewrite Hfrozen; [done|]. apply leased_elem. eauto.
Qed.

(** A ring of four slots; a frame arrives whose header [sample_header] is. *)
#[local] Existing Instance arena_sink.
#[local] Instance sample_credit_fifo : BoundedFifo (BoundedQueue Z) Z := ring_fifo 0.
Definition sample_grant : GeometryBlock :=
  mkGeometryBlock 1 ET_UInt16 2 2 4096 4 2 [3; 4; 0; 0] [8; 2; 0; 0].
Definition sample_start : SubscriberEngine :=
  activated Host 65536 4096 4 (BoundedQueue_new 0 8) 7 sample_grant.
Definition sample_frame : engine_event :=
  EvFrame (FrameHeader_layout 0 [] sample_header) (Eager (replicate 96 (byte_of_Z 0))).
Definition sample_engine : SubscriberEngine :=
  match apply_event sample_start sample_frame with Val e => e | _ => sample_start end.

Lemma sample_grant_fits : grant_fits 4 4096 sample_grant.
Proof. split; simpl; lia. Defined.

Lemma sample_queue_repr : fifo_repr 3 (BoundedQueue_new 0 8) [].
Proof.
  exists 3. split; [lia|]. split; [|by vm_compute].
  apply (represents_new 0 3 ltac:(lia)). by vm_compute.
Qed.

Lemma sample_engine_run : engine_run 1 sample_start sample_engine.
Proof.
  apply (er_step 0 sample_start sample_frame sample_engine); [done|by vm_compute|constructor].
Qed.

Lemma receive_engine_memory_safe_witness :
  as_assert_failed (vs_sink (se_store sample_engine)) = false /\
  ec_frames_received (se_counters sample_engine) = 1 /\
  exists e', apply_event sample_engine (EvView (OpReset 0)) = Val e'.
Proof.
  pose proof (receive_engine_memory_safe Host 65536 4096 4 (BoundedQueue_new 0 8) 7 sample_grant 1 1
    sample_engine sample_grant_fits sample_queue_repr ltac:(by vm_compute) sample_engine_run)
    as (Hev & Ha & _).
  split; [exact Ha|]. split; [by vm_compute|]. apply Hev. split; [by vm_compute; lia|done].
Defined.

Lemma held_frame_unchanged_witness :
  exists (j : nat) (slot : ReceiveSlot), Some 3%nat = Some j /\ se_slots sample_engine !! j = Some slot /\
    se_slots (with_store sample_engine (apply_view_op (se_store sample_engine) (OpCopy 0))) !! j = Some slot.
Proof.
  refine (held_frame_unchanged Host 65536 4096 4 (BoundedQueue_new 0 8) 7 sample_grant 1 1
    sample_engine (EvView (OpCopy 0)) _ sample_grant_fits sample_queue_repr _ sample_engine_run
    _ _ 0 (mkFrameView (Some 0%nat) (Some (65536 + 3 * 4096)) (Some 3%nat)) 0%nat _ _).
  - by vm_compute.
  - split; [vm_compute; lia|done].
  - done.
  - by vm_compute.
  - done.
Defined.
