(* ===== verification/RegisteredRing.v ===== *)
(** * Registered memory and the ring of slots inside it

    [src/ucx/registered_memory.cpp] and [src/ucx/registered_ring.cpp]: how a
    region is budgeted, mapped and given back, and how slots are laid out in it.
    What [ucp_mem_map] and [ucp_mem_query] answer is an argument. *)
From stdpp Require Import list.
From S2P Require Import Prelude Enums Limits Text PinnedLedger.
#[local] Open Scope Z_scope.

(** ** [RegisteredMemory] *)

(** [rm_mapped]: there is a [memh_] to unmap.  A null pointer is 0. *)
Record RegisteredMemory : Type := mkRegisteredMemory {
  rm_mapped : bool;
  rm_base : Z;
  rm_bytes : Z;
  rm_reservation : Z;
  rm_owner : option Z
}.

(** [acquire]: the reservation and the process total after it. *)
Definition acquire (total bytes limit : Z) (origin : Prelude.bytes) : throws (Z * Z) :=
  let '(reservation, total) := try_acquire total bytes limit in
  if reservation =? 0 then
    Err (mkBulkError ResourceExhausted
      (str "pinned memory budget exceeded: this region needs " ++ to_string bytes ++
       str " bytes, the process already holds " ++ to_string total ++
       str ", limit is " ++ to_string limit) origin)
  else Val (reservation, total).

(** [release]. *)
Definition memory_release (total : Z) (m : RegisteredMemory) : RegisteredMemory * Z :=
  let '(reservation, total) := reset total (rm_reservation m) in
  (mkRegisteredMemory false 0 (rm_bytes m) reservation None, total).

(** An exception unwinds past [memory], whose destructor releases again; the
    total is what the process holds then. *)
Definition memory_unwind {A} (total : Z) (m : RegisteredMemory) (e : BulkError)
    : throws A * Z :=
  let '(m, total) := memory_release total m in
  let '(_, total) := memory_release total m in
  (Err e, total).

(** What UCX answers: the mapping, and for a mapping the query of its address
    and length.  [ucx_error] is the exception [throw_ucx_error] raises. *)
Inductive ucx_query : Type := QueryFailed | Queried (address length : Z).
Inductive ucx_map : Type := MapFailed | Mapped (query : ucx_query).

Section Memory.
Context (ucx_error : Prelude.bytes -> Prelude.bytes -> BulkError).

Definition ucx_allocated (total bytes pinned_limit : Z) (origin : Prelude.bytes) (ucx : ucx_map)
    : throws RegisteredMemory * Z :=
  match acquire total bytes pinned_limit origin with
  | Err e => (Err e, total)
  | Fault => (Fault, total)
  | Val (reservation, total) =>
      match ucx with
      | MapFailed =>
          memory_unwind total (mkRegisteredMemory false 0 bytes reservation None)
            (ucx_error (str "ucp_mem_map") origin)
      | Mapped QueryFailed =>
          memory_unwind total (mkRegisteredMemory true 0 bytes reservation None)
            (ucx_error (str "ucp_mem_query") origin)
      | Mapped (Queried address length) =>
          if length <? bytes then
            memory_unwind total (mkRegisteredMemory true address bytes reservation None)
              (mkBulkError Internal (str "ucp_mem_map returned a shorter region than requested") origin)
          else
          let '(extended, reservation, total) :=
            if bytes <? length then extend total reservation (u64 (length - bytes)) pinned_limit
            else (true, reservation, total) in
          if negb extended then
            memory_unwind total (mkRegisteredMemory true address bytes reservation None)
              (mkBulkError ResourceExhausted
                 (str "ucp_mem_map returned more bytes than the process budget allows") origin)
          else (Val (mkRegisteredMemory true address length reservation None), total)
      end
  end.

Definition adopted (total : Z) (owner bytes pinned_limit : Z) (mapped : bool)
    : throws RegisteredMemory * Z :=
  match acquire total bytes pinned_limit (str "subscriber") with
  | Err e => (Err e, total)
  | Fault => (Fault, total)
  | Val (reservation, total) =>
      if mapped then (Val (mkRegisteredMemory true owner bytes reservation (Some owner)), total)
      else memory_unwind total (mkRegisteredMemory false 0 bytes reservation (Some owner))
             (ucx_error (str "ucp_mem_map(adopted receive buffer)") (str "subscriber"))
  end.
End Memory.

Definition memory_contains (m : RegisteredMemory) (p : Z) : bool :=
  if (rm_base m =? 0) || (p =? 0) then false
  else (rm_base m <=? p) && (p <? rm_base m + rm_bytes m).

(** ** [RegisteredRing] *)

Definition k_page_bytes : Z := 4096.
Definition k_alias_threshold : Z := Z.shiftl 256 10.

Definition compute_stride (slot_bytes : Z) (pad : bool) : Z :=
  if pad then
    let stride := u64 (u64 (slot_bytes + k_page_bytes - 1) / k_page_bytes * k_page_bytes) in
    if (k_alias_threshold <=? stride) && (Z.land stride (u64 (stride - 1)) =? 0)
    then u64 (stride + k_page_bytes) else stride
  else slot_bytes.

Definition checked_region_bytes (stride depth : Z) (origin : Prelude.bytes) : throws Z :=
  if negb (depth =? 0) && (uint64_max / depth <? stride) then
    Err (mkBulkError ResourceExhausted (str "receive ring byte count overflows") origin)
  else Val (u64 (stride * depth)).

Definition checked_caller_region (slot_bytes depth supplied : Z) (origin : Prelude.bytes) : throws Z :=
  if negb (depth =? 0) && (uint64_max / depth <? slot_bytes) then
    Err (mkBulkError ResourceExhausted
           (str "caller-owned receive ring byte count overflows") origin)
  else if supplied <? u64 (slot_bytes * depth) then
    Err (mkBulkError ResourceExhausted
           (str "caller-owned receive ring is smaller than its plan") origin)
  else Val supplied.

Record RegisteredRing : Type := mkRegisteredRing {
  rr_memory : RegisteredMemory;
  rr_base : Z;
  rr_slot_bytes : Z;
  rr_stride : Z;
  rr_depth : Z
}.

Definition ring_slot (r : RegisteredRing) (index : nat) : Z :=
  rr_base r + Z.of_nat index * rr_stride r.

Definition ring_contains (r : RegisteredRing) (p : Z) : bool := memory_contains (rr_memory r) p.

(** The two constructors. *)
Definition ring_allocated (ucx_error : Prelude.bytes -> Prelude.bytes -> BulkError)
    (total slot_bytes depth : Z) (pad_stride : bool) (pinned_limit : Z) (origin : Prelude.bytes)
    (ucx : ucx_map) : throws RegisteredRing * Z :=
  let stride := compute_stride slot_bytes pad_stride in
  match checked_region_bytes stride depth origin with
  | Err e => (Err e, total)
  | Fault => (Fault, total)
  | Val region =>
      match ucx_allocated ucx_error total region pinned_limit origin ucx with
      | (Val m, total) => (Val (mkRegisteredRing m (rm_base m) slot_bytes stride depth), total)
      | (Err e, total) => (Err e, total)
      | (Fault, total) => (Fault, total)
      end
  end.

Definition ring_adopted (ucx_error : Prelude.bytes -> Prelude.bytes -> BulkError)
    (total slot_bytes depth owner receive_buffer_bytes pinned_limit : Z) (mapped : bool)
    : throws RegisteredRing * Z :=
  match checked_caller_region slot_bytes depth receive_buffer_bytes (str "subscriber") with
  | Err e => (Err e, total)
  | Fault => (Fault, total)
  | Val region =>
      match adopted ucx_error total owner region pinned_limit mapped with
      | (Val m, total) => (Val (mkRegisteredRing m (rm_base m) slot_bytes slot_bytes depth), total)
      | (Err e, total) => (Err e, total)
      | (Fault, total) => (Fault, total)
      end
  end.

(** ** The stride *)

Lemma page_round_spec n :
  0 <= n <= 2 ^ 32 ->
  u64 (u64 (n + k_page_bytes - 1) / k_page_bytes * k_page_bytes) =
    (n + 4095) / 4096 * 4096 /\
  n <= (n + 4095) / 4096 * 4096 < n + 4096.
Proof.
  intros Hn. unfold k_page_bytes. rewrite (wrap_small 64 (n + 4096 - 1)) by (unfold in_range; lia).
  replace (n + 4096 - 1) with (n + 4095) by lia.
  pose proof (Z.div_mod (n + 4095) 4096 ltac:(lia)). pose proof (Z.mod_pos_bound (n + 4095) 4096 ltac:(lia)).
  split; [|lia]. apply wrap_small. unfold in_range. lia.
Qed.

Lemma pow2_land k : 0 <= k -> Z.land (2 ^ k) (2 ^ k - 1) = 0.
Proof.
  intros Hk. replace (2 ^ k - 1) with (Z.ones k) by (rewrite Z.ones_equiv; lia).
  rewrite Z.land_ones by done. apply Z_mod_same_full.
Qed.

Lemma broken_pow2_land k : 19 <= k -> Z.land (2 ^ k - 4096) (2 ^ k - 4096 - 1) <> 0.
Proof.
  intros Hk H0.
  assert (2 ^ k = 8192 * 2 ^ (k - 13)) as E.
  { replace 8192 with (2 ^ 13) by done. rewrite <- Z.pow_add_r by lia. f_equal. lia. }
  assert (Z.odd (2 ^ (k - 13) - 1) = true) as Hodd.
  { rewrite Z.odd_sub, Z.odd_pow by lia. done. }
  assert (Z.testbit (Z.land (2 ^ k - 4096) (2 ^ k - 4096 - 1)) 13 = true) as Hb; [|by rewrite H0 in Hb].
  rewrite Z.land_spec, !Z.testbit_odd, !Z.shiftr_div_pow2 by lia. rewrite E.
  change (2 ^ 13) with 8192.
  replace ((8192 * 2 ^ (k - 13) - 4096) / 8192) with (2 ^ (k - 13) - 1)
    by (apply (Z.div_unique _ _ _ 4096); lia).
  replace ((8192 * 2 ^ (k - 13) - 4096 - 1) / 8192) with (2 ^ (k - 13) - 1)
    by (apply (Z.div_unique _ _ _ 4095); lia).
  by rewrite Hodd.
Qed.

Lemma compute_stride_bounds n pad :
  0 <= n <= 2 ^ 32 -> n <= compute_stride n pad <= n + 8191.
Proof.
  intros Hn. unfold compute_stride. destruct pad; [|lia].
  destruct (page_round_spec n Hn) as [-> ?]. case_match; [|lia].
  unfold k_page_bytes. rewrite wrap_small by (unfold in_range; lia). lia.
Qed.

(** a padded slot stride is a whole number of pages, holds the slot with less
    than two pages of slack, and is never a power of two of 256 KiB or more, the
    strides at which every slot of a ring falls into the same cache sets. *)
Theorem padded_stride_breaks_aliasing n (Hn : 0 <= n <= 2 ^ 32) :
  n <= compute_stride n true <= n + 8191 /\ compute_stride n true mod 4096 = 0 /\
  (forall k, 0 <= k -> compute_stride n true = 2 ^ k -> 2 ^ k < 256 * 1024).
Proof.
  split; [by apply compute_stride_bounds|]. unfold compute_stride.
  destruct (page_round_spec n Hn) as [-> ?]. set (s := (n + 4095) / 4096 * 4096) in *.
  assert (s mod 4096 = 0) by (unfold s; apply Z_mod_mult).
  change k_alias_threshold with (256 * 1024).
  rewrite (wrap_small 64 (s + _)) by (unfold in_range, k_page_bytes; lia).
  destruct (Z.leb_spec (256 * 1024) s); simpl.
  2:{ split; [done|]. intros k Hk <-. lia. }
  rewrite wrap_small by (unfold in_range; lia). unfold k_page_bytes.
  destruct (Z.eqb_spec (Z.land s (s - 1)) 0) as [Hl|Hl].
  - split. { rewrite Z.add_mod by lia. rewrite H0. done. }
    intros k Hk Hp. exfalso.
    assert (2 ^ 18 < 2 ^ k) as Hlt by (change (2 ^ 18) with (256 * 1024); lia).
    apply Z.pow_lt_mono_r_iff in Hlt; [|lia..].
    apply (broken_pow2_land k); [lia|]. by replace (2 ^ k - 4096) with s by lia.
  - split; [done|]. intros k Hk Hs. exfalso. apply Hl. rewrite Hs. by apply pow2_land.
Qed.

Lemma padded_stride_breaks_aliasing_witness :
  compute_stride (1024 * 1024) true = 1024 * 1024 + 4096 /\
  compute_stride (1024 * 1024) true mod 4096 = 0.
Proof.
  split; [by vm_compute|].
  apply (padded_stride_breaks_aliasing (1024 * 1024) ltac:(lia)).
Defined.

(** ** Regions and slots *)

(** A region that holds exactly what it charged to the process budget. *)
Record region_charged (total total' limit : Z) (m : RegisteredMemory) : Prop := {
  rc_reservation : rm_reservation m = rm_bytes m;
  rc_total : total' = total + rm_bytes m;
  rc_limit : total' <= limit
}.

Definition ucx_ok (ucx : ucx_map) : Prop :=
  match ucx with Mapped (Queried address length) => in_range 64 length | _ => True end.

Lemma memory_unwind_spec {A} total m e :
  in_range 64 total -> 0 <= rm_reservation m <= total ->
  memory_unwind (A := A) total m e = (Err e, total - rm_reservation m).
Proof.
  intros Ht Hm. unfold memory_unwind, memory_release. rewrite reset_exact by done.
  done.
Qed.

Lemma acquire_spec total bytes limit origin :
  in_range 64 total -> in_range 64 bytes -> in_range 64 limit ->
  if bool_decide (0 < bytes /\ total + bytes <= limit)
  then acquire total bytes limit origin = Val (bytes, total + bytes)
  else exists e, acquire total bytes limit origin = Err e.
Proof.
  intros Ht Hb Hl. unfold acquire. rewrite try_acquire_exact by done. unfold in_range in *.
  destruct (decide (total + bytes <= limit)) as [H1|H1].
  - rewrite (bool_decide_eq_true_2 (total + bytes <= limit)) by done.
    destruct (Z.eqb_spec bytes 0); case_bool_decide; try lia; eauto.
  - rewrite (bool_decide_eq_false_2 (total + bytes <= limit)) by done.
    rewrite bool_decide_eq_false_2 by lia. simpl. eauto.
Qed.

Lemma ucx_allocated_spec uerr total bytes limit origin ucx :
  in_range 64 total -> in_range 64 bytes -> in_range 64 limit -> ucx_ok ucx ->
  match ucx_allocated uerr total bytes limit origin ucx with
  | (Val m, total') => region_charged total total' limit m /\ bytes <= rm_bytes m /\ rm_mapped m = true
  | (Err _, total') => total' = total
  | (Fault, _) => False
  end.
Proof.
  intros Ht Hb Hl Hu. unfold ucx_allocated. pose proof (acquire_spec total bytes limit origin Ht Hb Hl) as Ha.
  case_bool_decide as Hroom; [|by destruct Ha as [e ->]]. rewrite Ha.
  assert (in_range 64 (total + bytes)) by (unfold in_range in *; lia).
  destruct ucx as [|[|address length]]; [rewrite memory_unwind_spec by (simpl; unfold in_range in *; lia); simpl; lia..|].
  simpl in Hu. destruct (Z.ltb_spec length bytes).
  { rewrite memory_unwind_spec by (simpl; unfold in_range in *; lia). simpl. lia. }
  destruct (Z.ltb_spec bytes length).
  - rewrite wrap_small by (unfold in_range in *; lia).
    rewrite extend_exact by (unfold in_range in *; lia). rewrite bool_decide_eq_false_2 by lia.
    case_bool_decide; simpl.
    + split; [|done || lia]. split; simpl; lia.
    + rewrite memory_unwind_spec by (simpl; unfold in_range in *; lia). simpl. lia.
  - simpl. split; [|done || lia]. split; simpl; lia.
Qed.

Lemma adopted_spec uerr total owner bytes limit mapped :
  in_range 64 total -> in_range 64 bytes -> in_range 64 limit ->
  match adopted uerr total owner bytes limit mapped with
  | (Val m, total') => region_charged total total' limit m /\ rm_bytes m = bytes /\ rm_base m = owner
  | (Err _, total') => total' = total
  | (Fault, _) => False
  end.
Proof.
  intros Ht Hb Hl. unfold adopted. pose proof (acquire_spec total bytes limit (str "subscriber") Ht Hb Hl) as Ha.
  case_bool_decide as Hroom; [|by destruct Ha as [e ->]]. rewrite Ha.
  destruct mapped; simpl.
  - split; [|done]. split; simpl; lia.
  - rewrite memory_unwind_spec by (simpl; unfold in_range in *; lia). simpl. lia.
Qed.

(** The slots of a ring lie apart from each other inside its region. *)
Definition slots_laid_out (r : RegisteredRing) : Prop :=
  (forall i, Z.of_nat i < rr_depth r ->
     rr_base r <= ring_slot r i /\
     ring_slot r i + rr_slot_bytes r <= rr_base r + rm_bytes (rr_memory r)) /\
  (forall i j, (i < j)%nat -> ring_slot r i + rr_slot_bytes r <= ring_slot r j).

Lemma laid_out m base slot_bytes stride depth :
  0 <= slot_bytes <= stride -> 0 <= depth -> stride * depth <= rm_bytes m ->
  slots_laid_out (mkRegisteredRing m base slot_bytes stride depth).
Proof.
  intros. split; unfold ring_slot; simpl; intros; [split|]; nia.
Qed.

Lemma product_fits stride depth :
  0 <= stride -> 0 < depth -> (uint64_max / depth <? stride) = false -> in_range 64 (stride * depth).
Proof.
  intros Hs Hd Hov. bool_to_prop. pose proof (Z.mul_div_le uint64_max depth ltac:(lia)).
  unfold in_range, uint64_max in *. nia.
Qed.

(** What a constructor of a ring leaves behind. *)
Definition ring_sound (total slot_bytes depth limit : Z) (res : throws RegisteredRing * Z) : Prop :=
  match res with
  | (Val r, total') =>
      slots_laid_out r /\ rr_depth r = depth /\ rr_slot_bytes r = slot_bytes /\
      region_charged total total' limit (rr_memory r) /\
      snd (memory_release total' (rr_memory r)) = total
  | (Err _, total') => total' = total
  | (Fault, _) => False
  end.

Lemma memory_release_charged total total' limit m :
  in_range 64 total -> in_range 64 limit -> region_charged total total' limit m -> 0 <= rm_bytes m ->
  snd (memory_release total' m) = total.
Proof.
  intros Ht Hl [Hr Htot Hlim] ?. unfold memory_release. rewrite Hr.
  rewrite reset_exact by (unfold in_range in *; lia). simpl. lia.
Qed.

Lemma ring_allocated_sound uerr total slot_bytes depth pad limit origin ucx :
  in_range 64 total -> 0 <= slot_bytes <= 2 ^ 32 -> 0 < depth < 2 ^ 32 -> in_range 64 limit -> ucx_ok ucx ->
  ring_sound total slot_bytes depth limit (ring_allocated uerr total slot_bytes depth pad limit origin ucx).
Proof.
  intros Ht Hs Hd Hl Hu. pose proof (compute_stride_bounds slot_bytes pad Hs) as Hst.
  unfold ring_allocated, checked_region_bytes. rewrite (proj2 (Z.eqb_neq depth 0)) by lia. simpl.
  destruct (uint64_max / depth <? compute_stride slot_bytes pad) eqn:Hov; [done|].
  apply product_fits in Hov; [|lia..]. rewrite wrap_small by done.
  pose proof (ucx_allocated_spec uerr total (compute_stride slot_bytes pad * depth) limit origin ucx
    Ht Hov Hl Hu) as Hspec.
  destruct (ucx_allocated _ _ _ _ _ _) as [[m|e|] total']; [|done..].
  destruct Hspec as (Hc & Hb & _).
  split; [apply laid_out; lia|]. split_all; try done.
  apply (memory_release_charged total total' limit); [done..|simpl; unfold in_range in *; lia].
Qed.

Lemma ring_adopted_sound uerr total slot_bytes depth owner supplied limit mapped :
  in_range 64 total -> 0 <= slot_bytes <= 2 ^ 32 -> 0 < depth < 2 ^ 32 -> in_range 64 limit -> in_range 64 supplied ->
  ring_sound total slot_bytes depth limit (ring_adopted uerr total slot_bytes depth owner supplied limit mapped).
Proof.
  intros Ht Hs Hd Hl Hsup. unfold ring_adopted, checked_caller_region. rewrite (proj2 (Z.eqb_neq depth 0)) by lia. simpl.
  destruct (uint64_max / depth <? slot_bytes) eqn:Hov; [done|].
  apply product_fits in Hov; [|lia..]. rewrite wrap_small by done.
  destruct (Z.ltb_spec supplied (slot_bytes * depth)); [done|].
  pose proof (adopted_spec uerr total owner supplied limit mapped Ht Hsup Hl) as Hspec.
  destruct (adopted _ _ _ _ _ _) as [[m|e|] total']; [|done..].
  destruct Hspec as (Hc & Hb & _). split; [apply laid_out; lia|].
  split_all; try done. apply (memory_release_charged total total' limit); [done..|simpl; unfold in_range in *; lia].
Qed.

(** whatever UCX answers, a ring that is constructed has its slots apart from
    each other inside the registered region, and has charged exactly the bytes
    of that region to the process budget, within the limit; giving the region
    back restores the budget.  A constructor that throws leaves the budget as it
    was.  This holds for a ring UCX allocates and for one laid over a buffer of
    the caller's. *)
Theorem registered_ring_sound uerr total slot_bytes depth pad limit origin ucx owner supplied mapped
  (Ht : in_range 64 total) (Hs : 0 <= slot_bytes <= 2 ^ 32) (Hd : 0 < depth < 2 ^ 32)
  (Hl : in_range 64 limit) (Hu : ucx_ok ucx) (Hsup : in_range 64 supplied) :
  let sound res := match res with
    | (Val r, total') =>
        slots_laid_out r /\ rr_depth r = depth /\ rr_slot_bytes r = slot_bytes /\
        region_charged total total' limit (rr_memory r) /\
        snd (memory_release total' (rr_memory r)) = total
    | (Err _, total') => total' = total
    | (Fault, _) => False
    end in
  sound (ring_allocated uerr total slot_bytes depth pad limit origin ucx) /\
  sound (ring_adopted uerr total slot_bytes depth owner supplied limit mapped).
Proof.
  cbv zeta. split; [by apply ring_allocated_sound|by apply ring_adopted_sound].
Qed.

Definition sample_ucx_error (what origin : Prelude.bytes) : BulkError :=
  mkBulkError TransportFailure what origin.

Lemma registered_ring_sound_witness :
  exists r total', ring_allocated sample_ucx_error 1000 (1024 * 1024) 4 true (Z.shiftl 1 30)
    (str "publisher") (Mapped (Queried 65536 (4 * 1024 * 1024 + 5 * 4096))) = (Val r, total') /\ slots_laid_out r /\ total' = 1000 + 4 * 1024 * 1024 + 5 * 4096.
Proof.
  pose proof (registered_ring_sound sample_ucx_error 1000 (1024 * 1024) 4 true (Z.shiftl 1 30)
    (str "publisher") (Mapped (Queried 65536 (4 * 1024 * 1024 + 5 * 4096))) 1 0 false
    ltac:(by vm_compute) ltac:(lia) ltac:(lia) ltac:(by vm_compute) ltac:(by vm_compute)
    ltac:(by vm_compute)) as [H _].
  set (res := ring_allocated _ _ _ _ _ _ _ _) in *. vm_compute in res. unfold res in H.
  destruct H as (H & _). do 2 eexists. split; [done|]. split; [exact H|done].
Defined.
