(* ===== verification/RegisteredMoves.v ===== *)
(** * Moving registered memory

    The move constructor, the move assignment and the destructor of [RegisteredMemory]
    ([src/ucx/registered_memory.cpp]) over the objects of a program: which of them has the
    mapping, the bytes it charged and the caller's buffer. *)
From stdpp Require Import list.
From S2P Require Import Prelude Enums Limits PinnedLedger RegisteredRing.
#[local] Open Scope Z_scope.

(** ** Operations *)

(** What a move leaves behind: [context_] and [bytes_] stay, the rest is gone. *)
Definition memory_moved_from (m : RegisteredMemory) : RegisteredMemory :=
  mkRegisteredMemory false 0 (rm_bytes m) (snd (move_construct (rm_reservation m))) None.
Definition memory_move (m : RegisteredMemory) : RegisteredMemory :=
  mkRegisteredMemory (rm_mapped m) (rm_base m) (rm_bytes m) (fst (move_construct (rm_reservation m))) (rm_owner m).

(** The objects, how many mappings UCX has for them, and the process total. *)
Record Memories : Type := mkMemories {
  me_objects : list RegisteredMemory;
  me_mappings : Z;
  me_total : Z
}.

(** [release] of an object: the mapping, then the reservation. *)
Definition memories_release (s : Memories) (i : nat) (m : RegisteredMemory) : Memories :=
  let '(m', total) := memory_release (me_total s) m in
  mkMemories (<[i := m']> (me_objects s)) (me_mappings s - Z.b2z (rm_mapped m)) total.

Inductive MemoryOp : Type :=
| MoveConstruct (from : nat)
| MoveAssign (to from : nat)
| Destroy (i : nat).

(** A new object is at the end of the list; an object that is destroyed keeps its place,
    empty. *)
Definition memory_op (s : Memories) (op : MemoryOp) : option Memories :=
  match op with
  | MoveConstruct from =>
      m ← me_objects s !! from;
      Some (mkMemories (<[from := memory_moved_from m]> (me_objects s) ++ [memory_move m]) (me_mappings s) (me_total s))
  | MoveAssign to from =>
      target ← me_objects s !! to;
      m ← me_objects s !! from;
      if bool_decide (to = from) then Some s else
      let s := memories_release s to target in
      Some (mkMemories (<[from := memory_moved_from m]> (<[to := memory_move m]> (me_objects s))) (me_mappings s) (me_total s))
  | Destroy i => m ← me_objects s !! i; Some (memories_release s i m)
  end.
Fixpoint memory_ops (s : Memories) (ops : list MemoryOp) : option Memories :=
  match ops with
  | [] => Some s
  | op :: ops => s ← memory_op s op; memory_ops s ops
  end.

(** ** Each region is owned once *)

Definition reservations (l : list RegisteredMemory) : Z := foldr Z.add 0 (rm_reservation <$> l).
Definition mappings (l : list RegisteredMemory) : Z := foldr Z.add 0 ((fun m => Z.b2z (rm_mapped m)) <$> l).

(** What UCX and the ledger hold is what the objects own; [others] is charged elsewhere. *)
Record memories_owned (others : Z) (s : Memories) : Prop := {
  mo_nonneg : Forall (fun m => 0 <= rm_reservation m) (me_objects s);
  mo_total : me_total s = others + reservations (me_objects s);
  mo_mappings : me_mappings s = mappings (me_objects s);
  mo_width : 0 <= others /\ me_total s < 2 ^ 64
}.

Lemma sum_insert (f : RegisteredMemory -> Z) l i m m' :
  l !! i = Some m -> foldr Z.add 0 (f <$> <[i := m']> l) = foldr Z.add 0 (f <$> l) - f m + f m'.
Proof.
  revert i. induction l as [|x l IH]; intros [|i] Hi; [done..| |].
  - injection Hi as ->. change (<[O := m']> (m :: l)) with (m' :: l). rewrite !fmap_cons. simpl. lia.
  - change (<[S i := m']> (x :: l)) with (x :: <[i := m']> l). rewrite !fmap_cons. simpl. rewrite (IH i Hi). lia.
Qed.
Lemma sum_app (f : RegisteredMemory -> Z) l l' :
  foldr Z.add 0 (f <$> l ++ l') = foldr Z.add 0 (f <$> l) + foldr Z.add 0 (f <$> l').
Proof. induction l as [|x l IH]; cbn; lia. Qed.
Lemma reservations_pos l : Forall (fun m => 0 <= rm_reservation m) l -> 0 <= reservations l.
Proof. unfold reservations. induction 1; cbn; lia. Qed.
Lemma reservation_le l i m :
  Forall (fun m => 0 <= rm_reservation m) l -> l !! i = Some m -> 0 <= rm_reservation m <= reservations l.
Proof.
  intros Hl. revert i. induction Hl as [|x l Hx Hl IH]; intros [|i] Hi; try done.
  - injection Hi as ->. pose proof (reservations_pos l Hl). cbn. unfold reservations in *. lia.
  - specialize (IH i Hi). cbn. unfold reservations in *. lia.
Qed.

(** An object that owns nothing. *)
Definition memory_empty (m : RegisteredMemory) : Prop :=
  rm_mapped m = false /\ rm_base m = 0 /\ rm_reservation m = 0 /\ rm_owner m = None.

Lemma memories_release_owned others s i m :
  memories_owned others s -> me_objects s !! i = Some m ->
  memories_owned others (memories_release s i m) /\
  exists m', me_objects (memories_release s i m) = <[i := m']> (me_objects s) /\ memory_empty m'.
Proof.
  intros [Hn Ht Hm Hw] Hi. pose proof (reservation_le _ _ _ Hn Hi) as Hr. pose proof (reservations_pos _ Hn).
  unfold memories_release, memory_release. rewrite reset_exact by (unfold in_range; lia).
  split; [|eexists; split; [done|by split_and!]]. split; cbn [me_objects me_mappings me_total].
  - apply Forall_insert; [done|]. cbn. lia.
  - unfold reservations in *. rewrite (sum_insert _ _ _ _ _ Hi). cbn. lia.
  - unfold mappings in *. rewrite (sum_insert (fun m => Z.b2z (rm_mapped m)) _ _ _ _ Hi). cbn. lia.
  - lia.
Qed.

Lemma memory_op_owned others s op s' :
  memories_owned others s -> memory_op s op = Some s' -> memories_owned others s'.
Proof.
  intros Hs. destruct op as [from|to from|i]; cbn [memory_op].
  - destruct (me_objects s !! from) as [m|] eqn:Hf; [|done]. intros <-%(inj Some). destruct Hs as [Hn Ht Hm Hw].
    pose proof (reservation_le _ _ _ Hn Hf). split; cbn [me_objects me_mappings me_total].
    + apply Forall_app. split; [apply Forall_insert; [done|cbn; lia]|]. apply list.Forall_singleton. cbn. lia.
    + unfold reservations in *. rewrite sum_app, (sum_insert _ _ _ _ _ Hf). cbn. lia.
    + unfold mappings in *. rewrite (sum_app (fun m => Z.b2z (rm_mapped m))), (sum_insert (fun m => Z.b2z (rm_mapped m)) _ _ _ _ Hf). cbn. lia.
    + lia.
  - destruct (me_objects s !! to) as [target|] eqn:Ht; [|done]. destruct (me_objects s !! from) as [m|] eqn:Hf; [|done].
    cbn [mbind option_bind]. case_bool_decide as Hne; [by intros <-%(inj Some)|]. intros <-%(inj Some).
    destruct (memories_release_owned _ _ _ _ Hs Ht) as [[Hn Htot Hm Hw] (m' & Hobj & He1 & _ & He3 & _)].
    set (s1 := memories_release s to target) in *. pose proof Hs as [Hn0 _ _ _].
    pose proof (reservation_le _ _ _ Hn0 Hf) as Hr. assert (to < length (me_objects s))%nat by (by apply lookup_lt_Some in Ht).
    assert (me_objects s1 !! to = Some m') as Hto by (by rewrite Hobj, list_lookup_insert_eq).
    assert (<[to := memory_move m]> (me_objects s1) !! from = Some m) as Hfrom
      by (by rewrite list_lookup_insert_ne, Hobj, list_lookup_insert_ne).
    split; cbn [me_objects me_mappings me_total].
    + apply Forall_insert; [apply Forall_insert; [done|]|]; cbn; lia.
    + unfold reservations in *. rewrite (sum_insert _ _ _ _ _ Hfrom), (sum_insert _ _ _ _ _ Hto), He3. cbn. lia.
    + unfold mappings in *. rewrite (sum_insert (fun m => Z.b2z (rm_mapped m)) _ _ _ _ Hfrom),
        (sum_insert (fun m => Z.b2z (rm_mapped m)) _ _ _ _ Hto), He1. cbn. lia.
    + done.
  - destruct (me_objects s !! i) as [m|] eqn:Hi; [|done]. intros <-%(inj Some). by apply memories_release_owned.
Qed.

Lemma memory_ops_owned others s ops s' :
  memories_owned others s -> memory_ops s ops = Some s' -> memories_owned others s'.
Proof.
  revert s. induction ops as [|op ops IH]; intros s Hs; cbn [memory_ops]; [by intros <-%(inj Some)|].
  destruct (memory_op s op) as [s1|] eqn:Ho; [|done]. cbn. apply IH. by eapply memory_op_owned.
Qed.

(** Nothing is left when every object is empty. *)
Lemma sum_zero (f : RegisteredMemory -> Z) l : Forall (fun m => f m = 0) l -> foldr Z.add 0 (f <$> l) = 0.
Proof. induction 1 as [|x l Hx Hl IH]; cbn; [done|]. rewrite Hx. exact IH. Qed.

(** However regions are moved, assigned over one another -- also onto themselves -- and destroyed: what UCX has
    mapped and what the process has charged is exactly what the objects own, so nothing is released twice or
    forgotten; a destroyed object owns nothing, and when all are destroyed neither a mapping nor a byte is left. *)
Theorem moved_regions_released_once others s ops s'
  (Hs : memories_owned others s) (Hops : memory_ops s ops = Some s') :
  me_total s' = others + reservations (me_objects s') /\ me_mappings s' = mappings (me_objects s') /\
  (forall i s'', memory_op s' (Destroy i) = Some s'' -> exists m, me_objects s'' !! i = Some m /\ memory_empty m) /\
  (Forall memory_empty (me_objects s') -> me_total s' = others /\ me_mappings s' = 0).
Proof.
  pose proof (memory_ops_owned _ _ _ _ Hs Hops) as [Hn Ht Hm Hw]. split; [done|]. split; [done|]. split.
  - intros i s''. cbn [memory_op]. destruct (me_objects s' !! i) as [m|] eqn:Hi; [|done]. intros <-%(inj Some).
    destruct (memories_release_owned others s' i m) as [_ (m' & Hobj & He)]; [by split|done|]. exists m'. split; [|done].
    rewrite Hobj. apply list_lookup_insert_eq. by apply lookup_lt_Some in Hi.
  - intros Hall. rewrite Ht, Hm. unfold reservations, mappings. rewrite !sum_zero; [lia| |];
      (eapply list.Forall_impl; [exact Hall|]); by intros m (He & _ & Hr & _); rewrite ?He, ?Hr.
Qed.

Definition sample_region : RegisteredMemory := mkRegisteredMemory true 65536 8192 8192 None.
Definition sample_memories : Memories := mkMemories [sample_region; mkRegisteredMemory true 131072 4096 4096 None] 2 (1000 + 12288).
Definition sample_moves : list MemoryOp :=
  [MoveConstruct 0; MoveAssign 1 2; MoveAssign 1 1; Destroy 0; Destroy 1; Destroy 2].
Lemma moved_regions_released_once_witness :
  exists s', memory_ops sample_memories sample_moves = Some s' /\
    me_total s' = 1000 /\ me_mappings s' = 0.
Proof.
  destruct (memory_ops sample_memories sample_moves) as [s'|] eqn:E;
    [|vm_compute in E; discriminate E].
  exists s'. split; [reflexivity|].
  apply (moved_regions_released_once 1000 sample_memories sample_moves s'); [|exact E|].
  - split; [repeat constructor; cbn; lia|reflexivity|reflexivity|cbn; lia].
  - vm_compute in E. injection E as <-. repeat constructor.
Defined.
