(* ===== verification/ProducerSlots.v ===== *)
(** * Producer slots and the handles that own them

    [src/ucx/producer_slots.h] and [BulkPublisher::SlotHandle] of
    [src/ucx/publisher_impl.cpp].  The free list is any ring with the
    [BoundedFifo] interface; the assertion that a release finds room is a
    [Fault]. *)
From stdpp Require Import list sets.
From S2P Require Import Prelude Enums Limits BoundedQueue DeliveryQueue RegisteredRing.
#[local] Open Scope Z_scope.

Section Slots.
Context {QS : Type} `{BoundedFifo QS nat}.

Record ProducerSlots : Type := mkProducerSlots {
  ps_ring : RegisteredRing;
  ps_free_slots : QS;
  ps_retained : Z
}.

(** [for(i = 0; i < depth; ++i) free_slots_.try_push(i)], whose answers are
    ignored. *)
Fixpoint fill_free (q : QS) (indices : list nat) : QS :=
  match indices with
  | [] => q
  | i :: indices => fill_free (snd (fifo_push q i)) indices
  end.

(** [q] is the free list the constructor makes for [depth] slots. *)
Definition ProducerSlots_new (ring : RegisteredRing) (q : QS) : ProducerSlots :=
  mkProducerSlots ring (fill_free q (seq 0 (Z.to_nat (rr_depth ring)))) 0.

Definition slots_try_acquire (s : ProducerSlots) : option nat * ProducerSlots :=
  match fifo_pop (ps_free_slots s) with
  | (None, q) => (None, mkProducerSlots (ps_ring s) q (ps_retained s))
  | (Some index, q) => (Some index, mkProducerSlots (ps_ring s) q (u64 (ps_retained s + 1)))
  end.

Definition slots_release (s : ProducerSlots) (index : nat) : outcome Status ProducerSlots :=
  match fifo_push (ps_free_slots s) index with
  | (true, q) => Val (mkProducerSlots (ps_ring s) q (u64 (ps_retained s - 1)))
  | (false, _) => Fault
  end.

(** ** [SlotHandle] *)

(** [sh_slots]: the handle owns the slot, [slots_] is not null. *)
Record SlotHandle : Type := mkSlotHandle {
  sh_slots : bool;
  sh_data : Z;
  sh_capacity : Z;
  sh_index : nat
}.

Definition SlotHandle_default : SlotHandle := mkSlotHandle false 0 0 0.

(** [reset]; the destructor is a [reset]. *)
Definition handle_reset (s : ProducerSlots) (h : SlotHandle)
    : outcome Status (ProducerSlots * SlotHandle) :=
  if sh_slots h then
    let! s := slots_release s (sh_index h) in Val (s, SlotHandle_default)
  else Val (s, SlotHandle_default).

(** The move constructor: the new handle and what is left in [other]. *)
Definition handle_move (other : SlotHandle) : SlotHandle * SlotHandle :=
  (other, SlotHandle_default).

(** Move assignment from a different handle. *)
Definition handle_assign (s : ProducerSlots) (h other : SlotHandle)
    : outcome Status (ProducerSlots * SlotHandle * SlotHandle) :=
  let! (s, _) := handle_reset s h in
  Val (s, other, SlotHandle_default).

(** ** Who owns which slot

    [owned ext holders s refs]: every slot index below the depth is in the free
    list, in [ext] -- the handles and the queue, one owner each -- or held by the
    entries of [holders], of which [refs] has the exact count. *)
Definition occurrences (i : nat) (l : list nat) : Z := Z.of_nat (count_occ Nat.eq_dec l i).

Record owned (n : nat) (ext holders : list nat) (s : ProducerSlots) (refs : list Z)
    (free : list nat) : Prop := {
  ow_free : fifo_repr n (ps_free_slots s) free;
  ow_room : rr_depth (ps_ring s) <= fifo_capacity (ps_free_slots s);
  ow_depth : Z.of_nat (length refs) = rr_depth (ps_ring s) /\ rr_depth (ps_ring s) < 2 ^ 32;
  ow_refs : forall i, (i < length refs)%nat -> refs !! i = Some (occurrences i holders);
  ow_unique : NoDup (free ++ ext);
  ow_apart : forall i, i ∈ free ++ ext -> (i < length refs)%nat /\ i ∉ holders;
  ow_total : forall i, (i < length refs)%nat -> i ∈ free ++ ext \/ i ∈ holders;
  ow_holders : forall i, i ∈ holders -> (i < length refs)%nat;
  ow_retained : ps_retained s = Z.of_nat (length refs) - Z.of_nat (length free)
}.

Lemma occurrences_elem i l : i ∈ l <-> 0 < occurrences i l.
Proof.
  unfold occurrences. rewrite list_elem_of_In. rewrite (count_occ_In Nat.eq_dec). lia.
Qed.

Lemma occurrences_zero i l : i ∉ l -> occurrences i l = 0.
Proof. rewrite occurrences_elem. unfold occurrences. lia. Qed.

Lemma occurrences_cons i j l : occurrences i (j :: l) = occurrences i l + (if decide (j = i) then 1 else 0).
Proof.
  unfold occurrences. simpl. destruct (Nat.eq_dec j i); destruct (decide (j = i)); try done; lia.
Qed.

Lemma occurrences_app i l k : occurrences i (l ++ k) = occurrences i l + occurrences i k.
Proof. unfold occurrences. rewrite count_occ_app. lia. Qed.

Lemma occurrences_bound i l : 0 <= occurrences i l <= Z.of_nat (length l).
Proof. unfold occurrences. pose proof (count_occ_bound Nat.eq_dec i l). lia. Qed.

Lemma owned_permute n ext holders ext' holders' s refs free :
  ext ≡ₚ ext' -> (forall i, occurrences i holders = occurrences i holders') ->
  owned n ext holders s refs free -> owned n ext' holders' s refs free.
Proof.
  intros He Hh [H1 H2 H3 H4 H5 H6 H7 H8 H9].
  assert (forall i, i ∈ holders <-> i ∈ holders') as Hel
    by (intros i; rewrite !occurrences_elem, Hh; done).
  constructor; [done..| | | | | |done].
  - intros i Hi. by rewrite <- Hh, H4.
  - by rewrite <- He.
  - intros i. rewrite <- He, <- Hel. apply H6.
  - intros i. rewrite <- He, <- Hel. apply H7.
  - intros i. rewrite <- Hel. apply H8.
Qed.

Lemma owned_free_length n ext holders s refs free :
  owned n ext holders s refs free -> (length free + length ext <= length refs)%nat.
Proof.
  intros [_ _ _ _ Hn Ha _ _ _]. rewrite <- length_app.
  rewrite <- (length_seq (length refs) 0). apply submseteq_length, NoDup_submseteq; [done|].
  intros i Hi. apply elem_of_seq. destruct (Ha i Hi). lia.
Qed.

Lemma owned_weaken n m ext holders s refs free :
  (m <= n)%nat -> owned n ext holders s refs free -> owned m ext holders s refs free.
Proof. intros ? []. constructor; try done. by eapply fifo_repr_weaken. Qed.

(** A slot one external owner had goes back to the free list. *)
Lemma release_owned n i ext holders s refs free :
  owned (S n) (i :: ext) holders s refs free ->
  exists s', slots_release s i = Val s' /\ ps_ring s' = ps_ring s /\
    owned n ext holders s' refs (free ++ [i]).
Proof.
  intros Ho. pose proof (owned_free_length _ _ _ _ _ _ Ho) as Hlen. simpl in Hlen.
  destruct Ho as [H1 H2 [H3 H3'] H4 H5 H6 H7 H8 H9]. unfold slots_release.
  pose proof (fifo_push_law _ _ _ i H1) as Hp. rewrite bool_decide_eq_true_2 in Hp by lia.
  destruct Hp as (q & -> & Hq & Hcap). eexists. split; [done|]. split; [done|].
  assert ((free ++ [i]) ++ ext ≡ₚ free ++ i :: ext) as Hperm by (by rewrite <- app_assoc).
  constructor; simpl; [done|lia|done|done| | | |done|].
  - by rewrite Hperm.
  - intros j. rewrite Hperm. apply H6.
  - intros j. rewrite Hperm. apply H7.
  - rewrite length_app. simpl. rewrite wrap_small; [lia|]. unfold in_range. lia.
Qed.

(** The last holder of a slot hands it to an external owner. *)
Lemma drop_holder n i ext holders s refs free :
  owned n ext (i :: holders) s refs free -> i ∉ holders ->
  owned n (i :: ext) holders s (<[i := 0]> refs) free.
Proof.
  intros [H1 H2 H3 H4 H5 H6 H7 H8 H9] Hi.
  assert (free ++ i :: ext ≡ₚ i :: free ++ ext) as Hperm by (symmetry; apply Permutation_middle).
  assert (i < length refs)%nat as Hlt by (apply H8; set_solver).
  constructor; rewrite ?length_insert; [done|done|done| | | | | |done].
  - intros j Hj. destruct (decide (i = j)) as [->|Hne].
    + rewrite list_lookup_insert_eq by done. f_equal.
      by rewrite occurrences_zero.
    + rewrite list_lookup_insert_ne by done. rewrite H4, occurrences_cons by done.
      destruct (decide (i = j)); [done|]. f_equal. lia.
  - rewrite Hperm. apply list.NoDup_cons. split; [|done].
    intros Hin. destruct (H6 i Hin) as [_ Hn]. set_solver.
  - intros j. rewrite Hperm, elem_of_cons. intros [->|Hj]; [done|].
    destruct (H6 j Hj). set_solver.
  - intros j Hj. rewrite Hperm, elem_of_cons. destruct (H7 j Hj) as [?|?]; set_solver.
  - intros j Hj. apply H8. set_solver.
Qed.

(** A holder of a slot others hold as well lets go. *)
Lemma drop_shared n i ext holders s refs free :
  owned n ext (i :: holders) s refs free -> i ∈ holders ->
  owned n ext holders s (<[i := occurrences i holders]> refs) free.
Proof.
  intros [H1 H2 H3 H4 H5 H6 H7 H8 H9] Hi.
  constructor; rewrite ?length_insert; [done|done|done| |done| | | |done].
  - intros j Hj. destruct (decide (i = j)) as [->|Hne].
    + by rewrite list_lookup_insert_eq.
    + rewrite list_lookup_insert_ne by done. rewrite H4, occurrences_cons by done.
      destruct (decide (i = j)); [done|]. f_equal. lia.
  - intros j Hj. destruct (H6 j Hj). set_solver.
  - intros j Hj. destruct (H7 j Hj); set_solver.
  - intros j Hj. apply H8. set_solver.
Qed.

(** One more holder of a slot that is already held. *)
Lemma add_holder n i ext holders s refs free :
  owned n ext holders s refs free -> i ∈ holders ->
  owned n ext (i :: holders) s (<[i := occurrences i holders + 1]> refs) free.
Proof.
  intros [H1 H2 H3 H4 H5 H6 H7 H8 H9] Hi.
  constructor; rewrite ?length_insert; [done|done|done| |done| | | |done].
  - intros j Hj. rewrite occurrences_cons. destruct (decide (i = j)) as [->|Hne].
    + by rewrite list_lookup_insert_eq.
    + rewrite list_lookup_insert_ne by done. rewrite H4 by done. f_equal. lia.
  - intros j Hj. destruct (H6 j Hj). set_solver.
  - intros j Hj. destruct (H7 j Hj); set_solver.
  - intros j Hj. apply H8. set_solver.
Qed.

(** An external owner becomes the first holder. *)
Lemma first_holder n i ext holders s refs free :
  owned n (i :: ext) holders s refs free ->
  owned n ext (i :: holders) s (<[i := 1]> refs) free.
Proof.
  intros [H1 H2 H3 H4 H5 H6 H7 H8 H9].
  assert (free ++ i :: ext ≡ₚ i :: free ++ ext) as Hperm by (symmetry; apply Permutation_middle).
  setoid_rewrite Hperm in H5. apply list.NoDup_cons in H5 as [H5' H5].
  destruct (H6 i) as [Hlt Hni]; [rewrite Hperm; set_solver|].
  constructor; rewrite ?length_insert; [done|done|done| |done| | | |done].
  - intros j Hj. rewrite occurrences_cons. destruct (decide (i = j)) as [->|Hne].
    + rewrite list_lookup_insert_eq by done. f_equal.
      by rewrite occurrences_zero.
    + rewrite list_lookup_insert_ne by done. rewrite H4 by done. f_equal. lia.
  - intros j Hj. destruct (H6 j) as [? ?]; [rewrite Hperm; set_solver|]. split; [done|].
    rewrite not_elem_of_cons. split; [|done]. intros ->. done.
  - intros j Hj. destruct (H7 j Hj) as [Hin|Hin]; [rewrite Hperm in Hin|]; set_solver.
  - intros j. rewrite elem_of_cons. intros [->|]; [done|by apply H8].
Qed.

(** [try_acquire] takes the oldest free slot. *)
Lemma acquire_owned n ext holders s refs free :
  owned n ext holders s refs free ->
  match slots_try_acquire s with
  | (Some i, s') => exists free', free = i :: free' /\ ps_ring s' = ps_ring s /\
      owned n (i :: ext) holders s' refs free'
  | (None, s') => free = [] /\ s' = s
  end.
Proof.
  intros Ho. pose proof (owned_free_length _ _ _ _ _ _ Ho) as Hlen.
  destruct Ho as [H1 H2 [H3 H3'] H4 H5 H6 H7 H8 H9]. unfold slots_try_acquire.
  pose proof (fifo_pop_law _ _ _ H1) as Hp. destruct free as [|i free].
  { rewrite Hp. split; [done|]. by destruct s. }
  destruct Hp as (q & -> & Hq & Hcap). exists free. split; [done|]. split; [done|].
  assert ((i :: free) ++ ext ≡ₚ free ++ i :: ext) as Hperm by (apply Permutation_middle).
  constructor; simpl in *; [done|lia|done|done| | | |done|].
  - by rewrite <- Hperm.
  - intros j. rewrite <- Hperm. apply H6.
  - intros j. rewrite <- Hperm. apply H7.
  - rewrite wrap_small; [lia|]. unfold in_range. lia.
Qed.
End Slots.
Arguments ProducerSlots : clear implicits.
