(* ===== verification/Publisher.v ===== *)
(** * The publisher: sessions, fan-out, credit, expiry

    [BulkPublisher::Impl] of [src/ucx/publisher_impl.cpp]: the session table,
    the engine thread's handlers, and the application's [try_acquire] and
    [publish].  [Coordination.v] has the handlers of the control path.

    What UCX does is an argument of the handler that asks for it.  A handler is
    one step; where the source names a race inside a handler (a [Close] between
    the eligibility check of [fan_out] and the exchange in [submit_to], messages
    delivered while [teardown] progresses the worker), the handler takes what
    happens there as an argument too.  An index outside a vector, a zero modulus
    and a failed assertion are a [Fault]. *)
From stdpp Require Import list sets.
From S2P Require Import Prelude Enums Limits ByteOrder Geometry Protocol DataPlane Config.
From S2P Require Import CreditWindow BoundedQueue DeliveryQueue PinnedLedger RegisteredRing ProducerSlots.
#[local] Open Scope Z_scope.

Abbreviation ores := (outcome Status).

(** ** Data *)

Record PublishItem : Type := mkPublishItem {
  it_slot_index : nat;
  it_payload_bytes : Z;
  it_ordinal : Z;
  it_header : FrameHeader
}.

Record InFlight : Type := mkInFlight {
  if_header : bytes;
  if_slot_index : nat;
  if_ordinal : Z
}.

Definition InFlight_default : InFlight := mkInFlight (replicate k_frame_header_bytes Byte.x00) 0 0.

Inductive EndReason : Type := ER_None | ER_Close | ER_Expire | ER_Transport.

#[export] Instance EndReason_eq_dec : EqDecision EndReason.
Proof. solve_decision. Defined.

(** [Session], in the groups of the source: what is written before [state]
    leaves [Unknown], ... *)
Record SessionIdentity : Type := mkSessionIdentity {
  si_id : SessionId;
  si_stream_id : Z;
  si_probe_token : Z;
  si_geometry : GeometryBlock;
  si_receive_memory_kind : MemoryKind
}.

(** ... the renew bookkeeping of the control thread, ... *)
Record RenewBook : Type := mkRenewBook {
  rb_rate_window_start_ms : Z;
  rb_renewals_in_window : Z;
  rb_last_activity_ms : Z
}.

(** ... and what only the engine thread touches. *)
Record SessionEngine : Type := mkSessionEngine {
  sn_ep : bool;
  sn_probe_sent : bool;
  sn_window : CreditWindow;
  sn_inflight : list InFlight;
  sn_dropped : Z;
  sn_processed_ordinal : Z;
  sn_sends_inflight : Z;
  sn_observed_lag : Z
}.

Record Session : Type := mkSession {
  ss_identity : SessionIdentity;
  ss_state : SessionState;
  ss_deadline_ms : Z;
  ss_end_reason : EndReason;
  ss_retired_seq : Z;
  ss_poisoned : bool;
  ss_renew : RenewBook;
  ss_engine : SessionEngine
}.

Definition ss_with_state (x : Session) (st : SessionState) (r : EndReason) : Session :=
  mkSession (ss_identity x) st (ss_deadline_ms x) r (ss_retired_seq x) (ss_poisoned x) (ss_renew x)
    (ss_engine x).
Definition ss_with_engine (x : Session) (e : SessionEngine) : Session :=
  mkSession (ss_identity x) (ss_state x) (ss_deadline_ms x) (ss_end_reason x) (ss_retired_seq x)
    (ss_poisoned x) (ss_renew x) e.
Definition ss_with_renew (x : Session) (deadline : Z) (b : RenewBook) : Session :=
  mkSession (ss_identity x) (ss_state x) deadline (ss_end_reason x) (ss_retired_seq x)
    (ss_poisoned x) b (ss_engine x).

Definition sn_with_window (e : SessionEngine) w := mkSessionEngine (sn_ep e) (sn_probe_sent e) w
  (sn_inflight e) (sn_dropped e) (sn_processed_ordinal e) (sn_sends_inflight e) (sn_observed_lag e).
Definition sn_with_inflight (e : SessionEngine) l := mkSessionEngine (sn_ep e) (sn_probe_sent e)
  (sn_window e) l (sn_dropped e) (sn_processed_ordinal e) (sn_sends_inflight e) (sn_observed_lag e).
Definition sn_with_dropped (e : SessionEngine) n := mkSessionEngine (sn_ep e) (sn_probe_sent e)
  (sn_window e) (sn_inflight e) n (sn_processed_ordinal e) (sn_sends_inflight e) (sn_observed_lag e).
Definition sn_with_processed (e : SessionEngine) n := mkSessionEngine (sn_ep e) (sn_probe_sent e)
  (sn_window e) (sn_inflight e) (sn_dropped e) n (sn_sends_inflight e) (sn_observed_lag e).
Definition sn_with_sends (e : SessionEngine) n := mkSessionEngine (sn_ep e) (sn_probe_sent e)
  (sn_window e) (sn_inflight e) (sn_dropped e) (sn_processed_ordinal e) n (sn_observed_lag e).
Definition sn_with_lag (e : SessionEngine) n := mkSessionEngine (sn_ep e) (sn_probe_sent e)
  (sn_window e) (sn_inflight e) (sn_dropped e) (sn_processed_ordinal e) (sn_sends_inflight e) n.
Definition sn_with_ep (e : SessionEngine) ep probe := mkSessionEngine ep probe
  (sn_window e) (sn_inflight e) (sn_dropped e) (sn_processed_ordinal e) (sn_sends_inflight e)
  (sn_observed_lag e).

(** The constructor of [Session]. *)
Definition Session_new (depth width : Z) : Session :=
  mkSession (mkSessionIdentity (replicate 16 Byte.x00) 0 0 GeometryBlock_default Host)
    SS_Unknown 0 ER_None 0 false (mkRenewBook 0 0 0)
    (mkSessionEngine false false (CreditWindow_new depth width)
       (replicate (Z.to_nat depth) InFlight_default) 0 0 0 0).

(** [AtomicPublisherCounters], one constructor for each of its atomics. *)
Inductive pcounter : Type :=
| frames_published | frames_submitted | frames_completed | frames_credited
| dropped_no_session | dropped_queue_full | dropped_credit_stalled | dropped_bad_metadata
| acquire_failed | credits_outstanding | publish_queue_depth | publish_queue_high_water
| sessions_opened | sessions_closed | sessions_expired | sessions_rejected
| renewals_accepted | renewals_late | renewals_rejected
| malformed_messages | transport_errors | pinned_bytes.

#[export] Instance pcounter_eq_dec : EqDecision pcounter.
Proof. solve_decision. Defined.

(** What [publish] reads on the application threads. *)
Record Admission : Type := mkAdmission {
  ad_admitted : Z;
  ad_credited : Z;
  ad_limit : Z;
  ad_dropped_before_all : Z;
  ad_armed_sessions : Z
}.

Section Publisher.
Context {QS QP : Type} `{BoundedFifo QS nat} `{BoundedFifo QP PublishItem}.

Record Impl : Type := mkImpl {
  im_config : PublisherConfig;
  im_slots : ProducerSlots QS;
  im_publish_queue : QP;
  im_slot_refs : list Z;
  im_counters : pcounter -> Z;
  im_admission : Admission;
  im_running : bool;
  im_sessions : list Session;
  im_retire_counter : Z;
  im_server_epoch_id : Z;
  im_generation : Z
}.

Definition with_slots (s : Impl) slots refs := mkImpl (im_config s) slots (im_publish_queue s) refs
  (im_counters s) (im_admission s) (im_running s) (im_sessions s) (im_retire_counter s)
  (im_server_epoch_id s) (im_generation s).
Definition with_queue (s : Impl) q := mkImpl (im_config s) (im_slots s) q (im_slot_refs s)
  (im_counters s) (im_admission s) (im_running s) (im_sessions s) (im_retire_counter s)
  (im_server_epoch_id s) (im_generation s).
Definition with_counters (s : Impl) c := mkImpl (im_config s) (im_slots s) (im_publish_queue s)
  (im_slot_refs s) c (im_admission s) (im_running s) (im_sessions s) (im_retire_counter s)
  (im_server_epoch_id s) (im_generation s).
Definition with_admission (s : Impl) a := mkImpl (im_config s) (im_slots s) (im_publish_queue s)
  (im_slot_refs s) (im_counters s) a (im_running s) (im_sessions s) (im_retire_counter s)
  (im_server_epoch_id s) (im_generation s).
Definition with_running (s : Impl) b := mkImpl (im_config s) (im_slots s) (im_publish_queue s)
  (im_slot_refs s) (im_counters s) (im_admission s) b (im_sessions s) (im_retire_counter s)
  (im_server_epoch_id s) (im_generation s).
Definition with_sessions (s : Impl) l := mkImpl (im_config s) (im_slots s) (im_publish_queue s)
  (im_slot_refs s) (im_counters s) (im_admission s) (im_running s) l (im_retire_counter s)
  (im_server_epoch_id s) (im_generation s).
Definition with_retire (s : Impl) n := mkImpl (im_config s) (im_slots s) (im_publish_queue s)
  (im_slot_refs s) (im_counters s) (im_admission s) (im_running s) (im_sessions s) n
  (im_server_epoch_id s) (im_generation s).

Definition set_counter (s : Impl) (k : pcounter) (v : Z) : Impl :=
  with_counters s (fun k' => if decide (k' = k) then v else im_counters s k').
Definition count (s : Impl) (k : pcounter) : Impl := set_counter s k (u64 (im_counters s k + 1)).

(** [dropped_before_all.fetch_add(1)]. *)
Definition note_dropped_before_all (s : Impl) : Impl :=
  let a := im_admission s in
  with_admission s (mkAdmission (ad_admitted a) (ad_credited a) (ad_limit a)
    (u64 (ad_dropped_before_all a + 1)) (ad_armed_sessions a)).

Definition put_session (s : Impl) (k : nat) (x : Session) : Impl :=
  with_sessions s (<[k := x]> (im_sessions s)).

Definition session_at (s : Impl) (k : nat) : ores Session :=
  match im_sessions s !! k with Some x => Val x | None => Fault end.

Definition sendable (st : SessionState) : bool :=
  bool_decide (st = SS_Armed) || bool_decide (st = SS_Active).
Definition live (st : SessionState) : bool := bool_decide (st = SS_Open) || sendable st.

Definition depth (s : Impl) : Z := rr_depth (ps_ring (im_slots s)).

(** [session.inflight[seq % slots->ring().depth()]]. *)
Definition inflight_at (s : Impl) (x : Session) (seq : Z) : ores InFlight :=
  if depth s =? 0 then Fault else
  match sn_inflight (ss_engine x) !! Z.to_nat (seq mod depth s) with
  | Some f => Val f
  | None => Fault
  end.

(** ** Slot references *)

Definition slot_ref (s : Impl) (i : nat) : ores Z :=
  match im_slot_refs s !! i with Some n => Val n | None => Fault end.

Definition set_slot_ref (s : Impl) (i : nat) (n : Z) : Impl :=
  with_slots s (im_slots s) (<[i := n]> (im_slot_refs s)).

Definition release_slot_ref (s : Impl) (i : nat) : ores Impl :=
  let! n := slot_ref s i in
  if n <=? 0 then Fault else
  let s := set_slot_ref s i (u32 (n - 1)) in
  if u32 (n - 1) =? 0 then
    let! slots := slots_release (im_slots s) i in
    Val (with_slots s slots (im_slot_refs s))
  else Val s.

(** ** Gauges *)

(** What one pass over the session table accumulates. *)
Record Gauges : Type := mkGauges {
  ga_best : Z;
  ga_worst : Z;
  ga_strict_limit : Z;
  ga_worst_outstanding : Z;
  ga_armed : Z
}.

(** The first ordinal the session has not retired. *)
Definition retired_ordinal (s : Impl) (x : Session) : ores Z :=
  let e := ss_engine x in
  if outstanding (sn_window e) =? 0 then Val (sn_processed_ordinal e)
  else let! f := inflight_at s x (cw_credited_end (sn_window e)) in Val (if_ordinal f).

Fixpoint gauge_loop (s : Impl) (xs : list Session) (g : Gauges) : ores (list Session * Gauges) :=
  match xs with
  | [] => Val ([], g)
  | x :: xs =>
      if sendable (ss_state x) then
        let e := ss_engine x in
        let! retired := retired_ordinal s x in
        let lag := outstanding (sn_window e) in
        let g := mkGauges (Z.max (ga_best g) retired) (Z.min (ga_worst g) retired)
                   (Z.min (ga_strict_limit g)
                      (u64 (retired + gb_credit_window (si_geometry (ss_identity x)))))
                   (Z.max (ga_worst_outstanding g) lag) (u32 (ga_armed g + 1)) in
        let! (xs, g) := gauge_loop s xs g in
        Val (ss_with_engine x (sn_with_lag e lag) :: xs, g)
      else
        let! (xs, g) := gauge_loop s xs g in Val (x :: xs, g)
  end.

Definition refresh_gauges (s : Impl) : ores Impl :=
  let a := im_admission s in
  let! (xs, g) := gauge_loop s (im_sessions s) (mkGauges 0 (ad_admitted a) uint64_max 0 0) in
  let credit := if bool_decide (pc_fanout_mode (im_config s) = AllActive) then ga_worst g else ga_best g in
  let armed := negb (ga_armed g =? 0) in
  let s := with_sessions s xs in
  let s := with_admission s (mkAdmission (ad_admitted a) (if armed then credit else ad_admitted a)
    (if armed then ga_strict_limit g else uint64_max) (ad_dropped_before_all a) (ga_armed g)) in
  Val (set_counter s credits_outstanding (ga_worst_outstanding g)).

(** ** Expiry is claimed once *)

Definition begin_expiry (x : Session) (reason : EndReason) : bool * Session :=
  if negb (live (ss_state x)) then (false, x) else
  if bool_decide (ss_end_reason x <> ER_None) then (false, x) else
  (true, ss_with_state x SS_Expiring reason).

(** ** Fan-out *)

(** What [ucp_am_send_nbx] returns for one session, and whether a [Close] for
    that session lands while the frame is submitted. *)
Inductive send_result : Type := SendError | SendInline | SendPending.
Record send_env : Type := mkSendEnv { en_send : send_result; en_close : bool }.

(** The header with the fields [submit_to] fills in. *)
Definition stamp (h : FrameHeader) (sequence stream_id dropped_before : Z) : FrameHeader :=
  mkFrameHeader (fh_generation h) stream_id sequence (fh_payload_bytes h) (fh_timestamp_ns h)
    (fh_event_counter h) dropped_before (fh_element_type h) (fh_element_size h) (fh_rank h)
    (fh_quality h) (fh_memory_kind h) (fh_endian h) (fh_shape h) (fh_strides h).

Definition submit_to (s : Impl) (k : nat) (item : PublishItem) (env : send_env)
    : ores (bool * Impl) :=
  let! x := session_at s k in
  let e := ss_engine x in
  let sequence := cw_next_sequence (sn_window e) in
  let! _ := inflight_at s x sequence in
  let header := stamp (it_header item) sequence (si_stream_id (ss_identity x))
    (u64 (ad_dropped_before_all (im_admission s) + sn_dropped e)) in
  match encode_FrameHeader header with
  | Err _ | Fault => Fault
  | Val encoded =>
      let f := mkInFlight encoded (it_slot_index item) (it_ordinal item) in
      let e := sn_with_inflight e
                 (<[Z.to_nat (sequence mod depth s) := f]> (sn_inflight e)) in
      let x := ss_with_engine x e in
      let x := if en_close env then snd (begin_expiry x ER_Close) else x in
      match en_send env with
      | SendError =>
          let s := count s transport_errors in
          Val (false, put_session s k (snd (begin_expiry x ER_Transport)))
      | result =>
          match note_submitted (sn_window e) with
          | None => Fault
          | Some (_, w) =>
              let x := ss_with_engine x (sn_with_window e w) in
              let s := count s frames_submitted in
              let x := if bool_decide (ss_state x = SS_Armed)
                       then ss_with_state x SS_Active (ss_end_reason x) else x in
              match result with
              | SendPending =>
                  let e := ss_engine x in
                  Val (true, put_session s k
                    (ss_with_engine x (sn_with_sends e (u64 (sn_sends_inflight e + 1)))))
              | _ => Val (true, put_session (count s frames_completed) k x)
              end
          end
      end
  end.

(** The body of the loop in [fan_out]. *)
Definition fan_out_session (s : Impl) (k : nat) (item : PublishItem) (env : send_env) : ores Impl :=
  let! x := session_at s k in
  if negb (sendable (ss_state x)) then Val s else
  let e := sn_with_processed (ss_engine x) (u64 (it_ordinal item + 1)) in
  let s := put_session s k (ss_with_engine x e) in
  if negb (can_submit (sn_window e)) then
    Val (put_session s k (ss_with_engine x (sn_with_dropped e (u64 (sn_dropped e + 1)))))
  else
    let i := it_slot_index item in
    let! n := slot_ref s i in
    let s := set_slot_ref s i (u32 (n + 1)) in
    let! (submitted, s) := submit_to s k item env in
    if (submitted : bool) then Val s else
    let! n := slot_ref s i in
    Val (set_slot_ref s i (u32 (n - 1))).

Fixpoint fan_out_loop (ks : list nat) (s : Impl) (item : PublishItem) (env : nat -> send_env)
    : ores Impl :=
  match ks with
  | [] => Val s
  | k :: ks =>
      let! s := fan_out_session s k item (env k) in
      fan_out_loop ks s item env
  end.

Definition fan_out (s : Impl) (item : PublishItem) (env : nat -> send_env) : ores Impl :=
  let i := it_slot_index item in
  let! _ := slot_ref s i in
  let s := set_slot_ref s i 1 in
  let! s := fan_out_loop (seq 0 (length (im_sessions s))) s item env in
  let! n := slot_ref s i in
  let s := if (n =? 1) && (ad_armed_sessions (im_admission s) =? 0)
           then note_dropped_before_all (count s dropped_no_session) else s in
  let! s := release_slot_ref s i in
  refresh_gauges s.

(** [submit_ready_frames]: at most [n] turns, 32 in the source. *)
Fixpoint submit_loop (n : nat) (s : Impl) (env : nat -> nat -> send_env) : ores Impl :=
  match n with
  | O => Val s
  | S n =>
      match fifo_pop (im_publish_queue s) with
      | (None, _) => Val s
      | (Some item, q) =>
          let s := with_queue s q in
          let s := set_counter s publish_queue_depth (fifo_size q) in
          let! s := fan_out s item (env n) in
          submit_loop n s env
      end
  end.

Definition submit_ready_frames (s : Impl) (env : nat -> nat -> send_env) : ores Impl :=
  submit_loop 32 s env.

(** ** Messages and completions from the transport *)

(** [on_send_complete] for a send of session [k] whose request is not null. *)
Definition on_send_complete (s : Impl) (k : nat) (ok : bool) : ores Impl :=
  let! x := session_at s k in
  let s := if ok then s else count s transport_errors in
  let s := count s frames_completed in
  let e := ss_engine x in
  Val (put_session s k (ss_with_engine x (sn_with_sends e (u64 (sn_sends_inflight e - 1))))).

Fixpoint find_session (p : Session -> bool) (xs : list Session) (k : nat) : option nat :=
  match xs with
  | [] => None
  | x :: xs => if p x then Some k else find_session p xs (S k)
  end.

Definition session_for_stream (s : Impl) (stream_id : Z) : option nat :=
  if stream_id =? 0 then None else
  find_session (fun x => live (ss_state x) && (si_stream_id (ss_identity x) =? stream_id))
    (im_sessions s) 0.

(** The release loop of [handle_credit]: [count] sequences from [seq] on. *)
Fixpoint credit_loop (n : nat) (s : Impl) (x : Session) (seq : Z) : ores Impl :=
  match n with
  | O => Val s
  | S n =>
      let! f := inflight_at s x seq in
      let! refs := slot_ref s (if_slot_index f) in
      let! s := release_slot_ref s (if_slot_index f) in
      let s := if refs =? 1 then count s frames_credited else s in
      credit_loop n s x (u64 (seq + 1))
  end.

Definition handle_credit (s : Impl) (header : bytes) : ores Impl :=
  match decode_CreditMessage header with
  | Fault => Fault
  | Err _ => Val (count s malformed_messages)
  | Val credit =>
      match session_for_stream s (cm_stream_id credit) with
      | None => Val (count s malformed_messages)
      | Some k =>
          let! x := session_at s k in
          let w := sn_window (ss_engine x) in
          let first := cw_credited_end w in
          let '(outcome, w') := apply_credit w (cm_ack_sequence credit) in
          let x := ss_with_engine x (sn_with_window (ss_engine x) w') in
          let s := put_session s k x in
          if bool_decide (co_status outcome <> Ok) then Val (count s malformed_messages) else
          let! s := credit_loop (Z.to_nat (co_released outcome)) s x first in
          if negb (co_released outcome =? 0) then refresh_gauges s else Val s
      end
  end.

(** [handle_probe_ack]; the placement report it ends with has no effect on the
    publisher. *)
Definition handle_probe_ack (s : Impl) (header : bytes) : ores Impl :=
  match decode_ProbeAckMessage header with
  | Fault => Fault
  | Err _ => Val (count s malformed_messages)
  | Val ack =>
      match session_for_stream s (pa_stream_id ack) with
      | None => Val (count s malformed_messages)
      | Some k =>
          let! x := session_at s k in
          if negb (pa_probe_token ack =? si_probe_token (ss_identity x))
          then Val (count s malformed_messages) else
          if bool_decide (ss_state x = SS_Open) then
            let x := ss_with_state x SS_Armed (ss_end_reason x) in
            let e := sn_with_processed (ss_engine x) (ad_admitted (im_admission s)) in
            refresh_gauges (put_session s k (ss_with_engine x e))
          else Val s
      end
  end.

(** [send_pending_probes]: the probe of session [k], if one is due. *)
Definition send_probe (s : Impl) (k : nat) (taken : bool) : ores (option ProbeMessage * Impl) :=
  let! x := session_at s k in
  let e := ss_engine x in
  if bool_decide (ss_state x <> SS_Open) || negb (sn_ep e) || sn_probe_sent e then Val (None, s) else
  let probe := mkProbeMessage (im_generation s) (si_stream_id (ss_identity x))
                 (si_probe_token (ss_identity x)) in
  let s := if taken then s else count s transport_errors in
  Val (Some probe, put_session s k (ss_with_engine x (sn_with_ep e (sn_ep e) true))).

(** What [ucp_worker_progress] may deliver. *)
Inductive transport_event : Type :=
| TCredit (header : bytes)
| TProbeAck (header : bytes)
| TComplete (k : nat) (ok : bool).

Definition deliver (s : Impl) (ev : transport_event) : ores Impl :=
  match ev with
  | TCredit header => handle_credit s header
  | TProbeAck header => handle_probe_ack s header
  | TComplete k ok => on_send_complete s k ok
  end.

Fixpoint progress (s : Impl) (evs : list transport_event) : ores Impl :=
  match evs with
  | [] => Val s
  | ev :: evs => let! s := deliver s ev in progress s evs
  end.

(** ** Teardown *)

(** Step 4: the slots of every sequence not yet credited. *)
Fixpoint reclaim_loop (n : nat) (s : Impl) (x : Session) (seq : Z) : ores Impl :=
  match n with
  | O => Val s
  | S n =>
      let! f := inflight_at s x seq in
      let! s := release_slot_ref s (if_slot_index f) in
      reclaim_loop n s x (u64 (seq + 1))
  end.

(** Steps 2 to 3b: flush, close, collect completions; [evs] is what the worker
    delivers in the bounded waits. *)
Definition close_endpoint (s : Impl) (k : nat) (evs : list transport_event) : ores Impl :=
  let! x := session_at s k in
  if sn_ep (ss_engine x) then
    let! s := progress s evs in
    let! x := session_at s k in
    let e := ss_engine x in
    Val (put_session s k (ss_with_engine x (sn_with_ep e false (sn_probe_sent e))))
  else Val s.

Definition teardown (s : Impl) (k : nat) (evs : list transport_event) : ores Impl :=
  let! s := close_endpoint s k evs in
  let! x := session_at s k in
  let w := sn_window (ss_engine x) in
  let! s := reclaim_loop (Z.to_nat (cw_next_sequence w - cw_credited_end w)) s x (cw_credited_end w) in
  let s := count s (if bool_decide (ss_end_reason x = ER_Close) then sessions_closed else sessions_expired) in
  let retire := u64 (im_retire_counter s + 1) in
  let s := with_retire s retire in
  let e := ss_engine x in
  let e := mkSessionEngine (sn_ep e) false (CreditWindow_reset (sn_window e) 0) (sn_inflight e) 0 0
             (sn_sends_inflight e) (sn_observed_lag e) in
  let x := mkSession (ss_identity x) SS_Closed (ss_deadline_ms x) (ss_end_reason x) retire
             (ss_poisoned x || negb (sn_sends_inflight e =? 0)) (ss_renew x) e in
  refresh_gauges (put_session s k x).

Definition sweep_session (s : Impl) (now : Z) (k : nat) (evs : list transport_event) : ores Impl :=
  let! x := session_at s k in
  let x := if live (ss_state x) && (ss_deadline_ms x <=? now)
           then snd (begin_expiry x ER_Expire) else x in
  let s := put_session s k x in
  if bool_decide (ss_state x = SS_Expiring) then teardown s k evs else Val s.

Fixpoint sweep_loop (ks : list nat) (s : Impl) (now : Z) (evs : nat -> list transport_event)
    : ores Impl :=
  match ks with
  | [] => Val s
  | k :: ks => let! s := sweep_session s now k (evs k) in sweep_loop ks s now evs
  end.

Definition sweep_sessions (s : Impl) (now : Z) (evs : nat -> list transport_event) : ores Impl :=
  sweep_loop (seq 0 (length (im_sessions s))) s now evs.

Definition shutdown_session (s : Impl) (k : nat) (evs : list transport_event) : ores Impl :=
  let! x := session_at s k in
  let x := snd (begin_expiry x ER_Expire) in
  let s := put_session s k x in
  if bool_decide (ss_state x = SS_Expiring) then teardown s k evs else Val s.

Fixpoint shutdown_loop (ks : list nat) (s : Impl) (evs : nat -> list transport_event) : ores Impl :=
  match ks with
  | [] => Val s
  | k :: ks => let! s := shutdown_session s k (evs k) in shutdown_loop ks s evs
  end.

(** The destructor stops the loop, which then runs [shutdown_all_sessions]. *)
Definition shutdown_all_sessions (s : Impl) (evs : nat -> list transport_event) : ores Impl :=
  shutdown_loop (seq 0 (length (im_sessions s))) (with_running s false) evs.

(** ** The application's side *)

Definition publisher_try_acquire (s : Impl) : SlotHandle * Impl :=
  match slots_try_acquire (im_slots s) with
  | (None, slots) => (SlotHandle_default, count (with_slots s slots (im_slot_refs s)) acquire_failed)
  | (Some index, slots) =>
      let ring := ps_ring slots in
      (mkSlotHandle true (ring_slot ring index) (rr_slot_bytes ring) index,
       with_slots s slots (im_slot_refs s))
  end.

(** [lease.reset()] inside [publish]. *)
Definition drop_lease (s : Impl) (h : SlotHandle) : ores (Impl * SlotHandle) :=
  let! (slots, h) := handle_reset (im_slots s) h in
  Val (with_slots s slots (im_slot_refs s), h).

Definition make_item (s : Impl) (h : SlotHandle) (m : FrameMetadata) (now_ns : Z) : PublishItem :=
  mkPublishItem (sh_index h) (fm_payload_bytes m) (ad_admitted (im_admission s))
    (mkFrameHeader (im_generation s) 0 0 (fm_payload_bytes m)
       (if fm_timestamp_ns m =? 0 then now_ns else fm_timestamp_ns m) (fm_event_counter m) 0
       (fm_element_type m) (fm_element_size m) (fm_rank m) (fm_quality m) (fm_memory_kind m)
       (fm_endian m) (fm_shape m) (fm_strides m)).

(** [contended]: [test_and_set] found the reservation taken by another thread. *)
Definition publish (s : Impl) (lease : SlotHandle) (meta : FrameMetadata) (now_ns : Z)
    (contended : bool) : ores (PublishResult * Impl * SlotHandle) :=
  let drop res s := let! (s, lease) := drop_lease s lease in Val (res, s, lease) in
  if negb (sh_slots lease) then Val (PR_BadMetadata, s, lease) else
  if negb (im_running s) then drop PR_Shutdown s else
  let '(resolved, status) := resolve meta (pc_max_frame_bytes (im_config s)) in
  if bool_decide (status <> Ok) || (sh_capacity lease <? fm_payload_bytes resolved)
  then drop PR_BadMetadata (count s dropped_bad_metadata) else
  if (0 <? fm_rank (pc_frame_metadata (im_config s))) &&
     negb (describes_same_array resolved (pc_frame_metadata (im_config s)))
  then drop PR_BadMetadata (count s dropped_bad_metadata) else
  let a := im_admission s in
  if ad_armed_sessions a =? 0
  then drop PR_NoSession (note_dropped_before_all (count s dropped_no_session)) else
  if contended then Val (PR_QueueFull, count s dropped_queue_full, lease) else
  let mode := pc_fanout_mode (im_config s) in
  if bool_decide (mode = AllActive) && (ad_limit a <=? ad_admitted a)
  then Val (PR_WouldBlock, s, lease) else
  if bool_decide (mode = BestEffort) &&
     (pc_credit_window (im_config s) <=? u64 (ad_admitted a - ad_credited a))
  then drop PR_CreditStalled (note_dropped_before_all (count s dropped_credit_stalled)) else
  match fifo_push (im_publish_queue s) (make_item s lease resolved now_ns) with
  | (false, _) => Val (PR_QueueFull, count s dropped_queue_full, lease)
  | (true, q) =>
      let s := with_queue s q in
      let s := with_admission s (mkAdmission (u64 (ad_admitted a + 1)) (ad_credited a) (ad_limit a)
                 (ad_dropped_before_all a) (ad_armed_sessions a)) in
      let size := fifo_size q in
      let s := set_counter s publish_queue_depth size in
      let s := if im_counters s publish_queue_high_water <? size
               then set_counter s publish_queue_high_water size else s in
      Val (PR_Accepted, count s frames_published, SlotHandle_default)
  end.

(** ** Construction *)

(** [BulkPublisher(config)] up to [make_unique<Impl>]. *)
Definition resolve_config (c : PublisherConfig) : throws PublisherConfig :=
  let with_metadata m := mkPublisherConfig (pc_stream_name c) m (pc_max_frame_bytes c)
    (pc_ring_depth c) (pc_credit_window c) (pc_max_sessions c) (pc_fanout_mode c)
    (pc_publish_queue_depth c) (pc_lease_ttl_ms c) (pc_renew_interval_ms c)
    (pc_max_renewals_per_ttl c) (pc_pinned_memory_limit_bytes c) (pc_ucx_tls c)
    (pc_engine_cpu_affinity c) (pc_pad_slot_stride c) in
  let m := pc_frame_metadata c in
  let! c :=
    (if bool_decide (fm_element_type m = ET_Unknown) && (fm_rank m =? 0) then
       Val (with_metadata (mkFrameMetadata ET_Byte 1 (fm_rank m) (fm_shape m) (fm_strides m)
              (pc_max_frame_bytes c) (fm_timestamp_ns m) (fm_event_counter m) (fm_quality m)
              (fm_memory_kind m) (fm_endian m)))
     else
       match resolve m (pc_max_frame_bytes c) with
       | (m, Ok) => Val (with_metadata m)
       | (_, status) => Err (mkBulkError status
           (str "invalid publisher frame geometry: " ++ Status_to_string status) (str "publisher"))
       end) in
  let status := PublisherConfig_validate c in
  if bool_decide (status <> Ok) then
    Err (mkBulkError status (str "invalid PublisherConfig: " ++ Status_to_string status) (str "publisher"))
  else Val c.

(** [Impl(cfg)]: [free] and [queue] are the two rings, [ring] the registered one. *)
Definition Impl_new (c : PublisherConfig) (ring : RegisteredRing) (free : QS) (queue : QP)
    (epoch : Z) : Impl :=
  mkImpl c (ProducerSlots_new ring free) queue (replicate (Z.to_nat (pc_ring_depth c)) 0)
    (fun k => if decide (k = pinned_bytes) then rm_bytes (rr_memory ring) else 0)
    (mkAdmission 0 0 uint64_max 0 0) true
    (replicate (Z.to_nat (pc_max_sessions c)) (Session_new (pc_ring_depth c) (pc_credit_window c)))
    0 epoch 1.

Definition current_geometry (s : Impl) : GeometryBlock :=
  let m := pc_frame_metadata (im_config s) in
  mkGeometryBlock (im_generation s) (fm_element_type m) (fm_element_size m) (fm_rank m)
    (pc_max_frame_bytes (im_config s)) (pc_ring_depth (im_config s))
    (pc_credit_window (im_config s)) (fm_shape m) (fm_strides m).
End Publisher.
Arguments Impl : clear implicits.
