(* ===== verification/Coordination.v ===== *)
(** * The publisher's control path

    The [Open], [Renew] and [Close] handlers of [src/ucx/publisher_impl.cpp], the
    encoded boundary in front of them, and the hand-over of endpoint creation to
    the engine thread.  [handle_open] takes [session_mutex] twice and waits for
    the engine in between; [open_begin] and [open_finish] are the two parts. *)
From stdpp Require Import gmap list sets.
From S2P Require Import Prelude Enums Limits ByteOrder Geometry Protocol DataPlane Config.
From S2P Require Import CreditWindow BoundedQueue DeliveryQueue PinnedLedger RegisteredRing ProducerSlots.
From S2P Require Import Publisher.
#[local] Open Scope Z_scope.

Inductive CoordinationRequest : Type :=
| Request_Open (m : OpenRequest)
| Request_Renew (m : RenewRequest)
| Request_Close (m : CloseRequest).

Inductive CoordinationReply : Type :=
| Reply_Open (m : OpenReply)
| Reply_Renew (m : RenewReply)
| Reply_Close (m : CloseReply)
| Reply_Error (m : ErrorMessage).

(** A handler returns a reply or throws. *)
Abbreviation handled := (CoordinationReply + BulkError)%type (only parsing).

Definition typed_error (status : Status) (message : bytes) : handled :=
  inl (Reply_Error (mkErrorMessage status message)).
Definition thrown (status : Status) (message : bytes) : handled :=
  inr (mkBulkError status message (str "publisher")).

Definition recover_coordination_correlation (data : bytes) : Z :=
  if (length data <? 24)%nat then 0 else
  match get64 (E := Status) data 16 with Val c => c | _ => 0 end.

(** ** Endpoint creation *)

(** [ConnectTask] lives on the stack of the thread that waits for it; a task
    that is not in [cn_tasks] has gone out of scope. *)
Record ConnectTask : Type := mkConnectTask { ct_ok : bool; ct_done : bool }.
Record Connecting : Type := mkConnecting {
  cn_tasks : gmap nat ConnectTask;
  cn_queue : list nat
}.

(** [connect] up to the wait. *)
Definition connect_begin (c : Connecting) (t : nat) : Connecting :=
  mkConnecting (<[t := mkConnectTask false false]> (cn_tasks c)) (cn_queue c ++ [t]).

(** [drain_connect_requests]: one write for each endpoint, one for each [done];
    [reachable t] is whether UCX makes an endpoint to the address of [t]. *)
Fixpoint connect_writes (f : nat -> ConnectTask -> ConnectTask) (batch : list nat)
    (tasks : gmap nat ConnectTask) : ores (gmap nat ConnectTask) :=
  match batch with
  | [] => Val tasks
  | t :: batch =>
      match tasks !! t with
      | None => Fault
      | Some task => connect_writes f batch (<[t := f t task]> tasks)
      end
  end.

Definition drain_connect_requests (c : Connecting) (reachable : nat -> bool) : ores Connecting :=
  let! tasks := connect_writes (fun t task => mkConnectTask (reachable t) (ct_done task))
                  (cn_queue c) (cn_tasks c) in
  let! tasks := connect_writes (fun t task => mkConnectTask (ct_ok task) true) (cn_queue c) tasks in
  Val (mkConnecting tasks []).

(** The end of [connect]: [None] while the wait goes on, [Some ok] when it
    returns; [timeout] is whether the five seconds are over. *)
Definition connect_end (c : Connecting) (t : nat) (timeout : bool) : ores (option bool * Connecting) :=
  match cn_tasks c !! t with
  | None => Fault
  | Some task =>
      if ct_done task || timeout
      then Val (Some (ct_done task && ct_ok task), mkConnecting (delete t (cn_tasks c)) (cn_queue c))
      else Val (None, c)
  end.

Section Coordination.
Context {QS QP : Type} `{BoundedFifo QS nat} `{BoundedFifo QP PublishItem}.
Abbreviation Impl := (Impl QS QP).

(** ** Open *)

(** The grant of step 5. *)
Definition grant (s : Impl) (request : OpenRequest) : GeometryBlock :=
  let g := current_geometry s in
  mkGeometryBlock (gb_generation g) (gb_element_type g) (gb_element_size g) (gb_rank g)
    (Z.min (oq_requested_max_frame_bytes request) (pc_max_frame_bytes (im_config s)))
    (Z.min (oq_requested_ring_depth request) (pc_ring_depth (im_config s)))
    (Z.min (oq_requested_credit_window request) (pc_credit_window (im_config s)))
    (gb_shape g) (gb_strides g).

(** The loop that looks for a seat: a seat never used ends it, otherwise the seat
    retired longest ago; [best] is the candidate and its [retired_seq]. *)
Fixpoint select_seat (xs : list Session) (k : nat) (best : option (nat * Z)) : option nat :=
  match xs with
  | [] => fst <$> best
  | x :: xs =>
      if bool_decide (ss_state x = SS_Unknown) then Some k else
      if bool_decide (ss_state x <> SS_Closed) || ss_poisoned x then select_seat xs (S k) best else
      let retired := ss_retired_seq x in
      let better := match best with None => true | Some (_, oldest) => retired <? oldest end in
      select_seat xs (S k) (if better then Some (k, retired) else best)
  end.

(** The first half of [handle_open]: an answer, or the seat to claim. *)
Definition open_begin (s : Impl) (request : OpenRequest) : (handled + nat * GeometryBlock) * Impl :=
  if bool_decide (oq_requested_transport request <> Any) &&
     bool_decide (oq_requested_transport request <> ActiveMessage)
  then (inl (thrown MalformedMessage (str "Open requested an unsupported transport")), s) else
  if bool_decide (oq_requested_memory_kind request <> Host) &&
     bool_decide (oq_requested_memory_kind request <> Cuda) &&
     bool_decide (oq_requested_memory_kind request <> Rocm)
  then (inl (thrown MalformedMessage (str "Open requested an unsupported memory kind")), s) else
  if (k_version_major <? oq_version_min request) || (oq_version_max request <? k_version_major)
  then (inl (typed_error UnsupportedVersion (str "no common protocol major")), s) else
  if bool_decide (oq_stream_name request <> pc_stream_name (im_config s))
  then (inl (typed_error UnknownStream (str "no such stream on this publisher")), s) else
  let geometry := grant s request in
  if (gb_max_frame_bytes geometry =? 0) || (gb_ring_depth geometry =? 0) ||
     (gb_credit_window geometry =? 0)
  then (inl (typed_error MalformedMessage (str "Open requested a zero geometry")), s) else
  match select_seat (im_sessions s) 0 None with
  | None => (inl (typed_error TooManySessions (str "no free session on this publisher")),
             count s sessions_rejected)
  | Some k => (inr (k, geometry), s)
  end.

(** What the second half reads from outside: the result of [connect], the
    identifiers it generates ([None] where the generator throws), the clock and
    the worker's address. *)
Record open_env : Type := mkOpenEnv {
  oe_connected : bool;
  oe_session_id : option SessionId;
  oe_stream_id : option Z;
  oe_probe_token : option Z;
  oe_rng_error : BulkError;
  oe_now_ms : Z;
  oe_address : bytes
}.

Definition session_with_identity (x : Session) (i : SessionIdentity) : Session :=
  mkSession i (ss_state x) (ss_deadline_ms x) (ss_end_reason x) (ss_retired_seq x) (ss_poisoned x)
    (ss_renew x) (ss_engine x).

(** The seat once every identifier has been generated. *)
Definition claimed_seat (s : Impl) (x : Session) (request : OpenRequest) (geometry : GeometryBlock)
    (id : SessionId) (stream_id token now : Z) : Session :=
  let e := ss_engine x in
  mkSession (mkSessionIdentity id stream_id token geometry (oq_requested_memory_kind request))
    SS_Open (u64 (now + pc_lease_ttl_ms (im_config s))) ER_None (ss_retired_seq x) (ss_poisoned x)
    (mkRenewBook now 0 now)
    (mkSessionEngine true false
       (CreditWindow_new (gb_ring_depth geometry) (gb_credit_window geometry)) (sn_inflight e)
       (sn_dropped e) (sn_processed_ordinal e) (sn_sends_inflight e) (sn_observed_lag e)).

Definition open_reply (s : Impl) (x : Session) (request : OpenRequest) (geometry : GeometryBlock)
    (address : bytes) : OpenReply :=
  mkOpenReply k_version_major Ok
    (Z.land (oq_requested_caps request) (Z.lor k_caps_credit_coalescing k_caps_probe))
    (si_id (ss_identity x)) (si_stream_id (ss_identity x)) (pc_lease_ttl_ms (im_config s))
    (pc_renew_interval_ms (im_config s)) ActiveMessage (im_server_epoch_id s) geometry address.

(** The second half of [handle_open]. *)
Definition open_finish (s : Impl) (k : nat) (geometry : GeometryBlock) (request : OpenRequest)
    (env : open_env) : ores (handled * Impl) :=
  if negb (oe_connected env) then
    Val (thrown TransportFailure (str "could not create an endpoint to the client"), s) else
  let! x := session_at s k in
  let x := ss_with_state x (ss_state x) ER_None in
  let i := ss_identity x in
  match oe_session_id env with
  | None => Val (inr (oe_rng_error env), put_session s k x)
  | Some id =>
      let i := mkSessionIdentity id (si_stream_id i) (si_probe_token i) (si_geometry i)
                 (si_receive_memory_kind i) in
      match oe_stream_id env with
      | None => Val (inr (oe_rng_error env), put_session s k (session_with_identity x i))
      | Some stream_id =>
          let i := mkSessionIdentity id stream_id (si_probe_token i) (si_geometry i)
                     (si_receive_memory_kind i) in
          match oe_probe_token env with
          | None => Val (inr (oe_rng_error env), put_session s k (session_with_identity x i))
          | Some token =>
              let x := claimed_seat s x request geometry id stream_id token (oe_now_ms env) in
              let s := count (put_session s k x) sessions_opened in
              Val (inl (Reply_Open (open_reply s x request geometry (oe_address env))), s)
          end
      end
  end.

Definition handle_open (s : Impl) (request : OpenRequest) (env : open_env) : ores (handled * Impl) :=
  match open_begin s request with
  | (inl answer, s) => Val (answer, s)
  | (inr (k, geometry), s) => open_finish s k geometry request env
  end.

(** ** Renew *)

Definition session_for_id (s : Impl) (id : SessionId) : option nat :=
  find_session (fun x => bool_decide (ss_state x <> SS_Unknown) &&
                         bool_decide (si_id (ss_identity x) = id)) (im_sessions s) 0.

(** The rate window of [handle_renew], opened anew when it is over. *)
Definition rate_window (c : PublisherConfig) (b : RenewBook) (now : Z) : RenewBook :=
  if pc_lease_ttl_ms c <=? u64 (now - rb_rate_window_start_ms b)
  then mkRenewBook now 0 (rb_last_activity_ms b) else b.

Definition handle_renew (s : Impl) (request : RenewRequest) (now : Z) : ores (handled * Impl) :=
  let c := im_config s in
  let reply status state geometry := inl (Reply_Renew (mkRenewReply (nq_session_id request) status
    (pc_lease_ttl_ms c) (pc_renew_interval_ms c) state geometry)) in
  match session_for_id s (nq_session_id request) with
  | None => Val (reply UnknownSession SS_Unknown GeometryBlock_default, s)
  | Some k =>
      let! x := session_at s k in
      let geometry := si_geometry (ss_identity x) in
      let state := ss_state x in
      if bool_decide (state = SS_Expiring) || bool_decide (state = SS_Closed) then
        let status := if bool_decide (state = SS_Closed) && bool_decide (ss_end_reason x = ER_Close)
                      then UnknownSession else SessionExpired in
        Val (reply status state geometry, s)
      else
      let b := rate_window c (ss_renew x) now in
      if pc_max_renewals_per_ttl c <=? rb_renewals_in_window b then
        let s := put_session s k (ss_with_renew x (ss_deadline_ms x) b) in
        Val (reply RenewTooFrequent state geometry, count s renewals_rejected)
      else
      let s := if pc_renew_interval_ms c <? u64 (now - rb_last_activity_ms b)
               then count s renewals_late else s in
      let b := mkRenewBook (rb_rate_window_start_ms b) (u32 (rb_renewals_in_window b + 1)) now in
      let s := put_session s k (ss_with_renew x (u64 (now + pc_lease_ttl_ms c)) b) in
      Val (reply Ok state geometry, count s renewals_accepted)
  end.

(** ** Close *)

Definition handle_close (s : Impl) (request : CloseRequest) : ores (handled * Impl) :=
  let reply status := inl (Reply_Close (mkCloseReply (cq_session_id request) status
    (u32 (im_counters s frames_credited)))) in
  match session_for_id s (cq_session_id request) with
  | None => Val (reply UnknownSession, s)
  | Some k =>
      let! x := session_at s k in
      match begin_expiry x ER_Close with
      | (false, _) => Val (reply UnknownSession, s)
      | (true, x) => Val (reply Ok, put_session s k x)
      end
  end.

(** ** The encoded boundary *)

Definition handle_coordination (s : Impl) (request : CoordinationRequest) (env : open_env)
    : ores (handled * Impl) :=
  match request with
  | Request_Open m => handle_open s m env
  | Request_Renew m => handle_renew s m (oe_now_ms env)
  | Request_Close m => handle_close s m
  end.

(** The empty result is the carrier's "no reply". *)
Definition encode_coordination_error (status : Status) (message : bytes) (c : Z) : ores bytes :=
  match encode_ErrorMessage (mkErrorMessage status message) c with
  | Val data => Val data
  | Err _ => Val []
  | Fault => Fault
  end.

Definition encode_coordination_reply (reply : CoordinationReply) (c : Z) : ores bytes :=
  let encoded := match reply with
    | Reply_Open m => encode_OpenReply m c
    | Reply_Renew m => encode_RenewReply m c
    | Reply_Close m => encode_CloseReply m c
    | Reply_Error m => encode_ErrorMessage m c
    end in
  match encoded with
  | Val data => Val data
  | Err _ => encode_coordination_error Internal (str "could not encode coordination reply") c
  | Fault => Fault
  end.

(** The [switch] on the message type: [None] for a type no publisher answers. *)
Definition decode_request (type : CoordType) (data : bytes) : option (result CoordinationRequest) :=
  match type with
  | CT_Open => Some (let! (m, _) := decode_OpenRequest data in Val (Request_Open m))
  | CT_Renew => Some (let! (m, _) := decode_RenewRequest data in Val (Request_Renew m))
  | CT_Close => Some (let! (m, _) := decode_CloseRequest data in Val (Request_Close m))
  | _ => None
  end.

Definition handle_encoded_coordination (s : Impl) (data : bytes) (expected : option CoordType)
    (env : open_env) : ores (bytes * Impl) :=
  let correlation_id := recover_coordination_correlation data in
  let refuse status message c :=
    let! reply := encode_coordination_error status message c in
    Val (reply, count s malformed_messages) in
  match decode_envelope data Envelope_default with
  | (_, Fault) => Fault
  | (_, Err status) =>
      refuse status (if bool_decide (status = UnsupportedVersion)
                     then str "unsupported coordination protocol version"
                     else str "undecodable envelope") correlation_id
  | (envelope, Val _) =>
      let c := env_correlation_id envelope in
      let type := env_msg_type envelope in
      (* the type the command carries, when the message has another one *)
      let other := match expected with
        | Some t => if bool_decide (type <> t) then Some t else None
        | None => None
        end in
      match other, decode_request type data with
      | Some t, _ =>
          refuse MalformedMessage (str "this command carries " ++ CoordType_to_string t ++
            str ", not " ++ CoordType_to_string type) c
      | None, None =>
          refuse MalformedMessage
            (CoordType_to_string type ++ str " is not a request a publisher answers") c
      | None, Some Fault => Fault
      | None, Some (Err status) => refuse status (str "undecodable " ++ CoordType_to_string type) c
      | None, Some (Val request) =>
          let! (answer, s) := handle_coordination s request env in
          let! reply := match answer with
            | inl reply => encode_coordination_reply reply c
            | inr e => encode_coordination_error (be_status e) (be_message e) c
            end in
          Val (reply, s)
      end
  end.
End Coordination.
