(* ===== verification/PublisherSafety.v ===== *)
(** * The publisher never loses and never reuses a slot too early

    The invariant of [Publisher.v] and [Coordination.v]: every producer slot is
    free, owned by one handle or one queued frame, or held by exactly as many
    outstanding sequences as its reference count says.  Nothing is assumed of the
    messages that arrive. *)
From stdpp Require Import gmap list sets.
From S2P Require Import Prelude Enums Limits ByteOrder Geometry Protocol DataPlane Config.
From S2P Require Import CreditWindow BoundedQueue DeliveryQueue PinnedLedger RegisteredRing ProducerSlots.
From S2P Require Import ProtocolSafety Publisher Coordination.
#[local] Open Scope Z_scope.

(** ** A frame header can always be encoded *)

Definition put_ok {E} (n : nat) (m : outcome E bytes) : Prop :=
  exists buf, m = Val buf /\ length buf = n.

Lemma put_ok_bind {E} n (m : outcome E bytes) k :
  put_ok n m -> (forall buf, length buf = n -> put_ok n (k buf)) -> put_ok n (outcome_bind m k).
Proof. intros (buf & -> & Hl) Hk. by apply Hk. Qed.

Lemma put_ok_write {E} (buf x : bytes) p :
  (p + length x <= length buf)%nat -> put_ok (E := E) (length buf) (Val (write buf p x)).
Proof. intros. eexists. split; [done|]. by apply length_write. Qed.

Lemma put8_ok {E} (buf : bytes) p v :
  (p + 1 <= length buf)%nat -> put_ok (E := E) (length buf) (put8 buf p v).
Proof. intros. rewrite put8_write by lia. by apply put_ok_write. Qed.
Lemma put16_ok {E} (buf : bytes) p v :
  (p + 2 <= length buf)%nat -> put_ok (E := E) (length buf) (put16 buf p v).
Proof. intros. rewrite put16_write by lia. apply put_ok_write. by rewrite length_le_bytes. Qed.
Lemma put32_ok {E} (buf : bytes) p v :
  (p + 4 <= length buf)%nat -> put_ok (E := E) (length buf) (put32 buf p v).
Proof. intros. rewrite put32_write by lia. apply put_ok_write. by rewrite length_le_bytes. Qed.
Lemma put64_ok {E} (buf : bytes) p v :
  (p + 8 <= length buf)%nat -> put_ok (E := E) (length buf) (put64 buf p v).
Proof. intros. rewrite put64_write by lia. apply put_ok_write. by rewrite length_le_bytes. Qed.

Ltac put_step :=
  match goal with
  | |- put_ok _ (outcome_bind _ _) => apply put_ok_bind; [|intros ? ?]
  | |- put_ok _ (Val _) => by eexists
  | H : length ?b = ?n |- put_ok ?n (put8 ?b _ _) => rewrite <- H at 1; apply put8_ok; rewrite H; lia
  | H : length ?b = ?n |- put_ok ?n (put16 ?b _ _) => rewrite <- H at 1; apply put16_ok; rewrite H; lia
  | H : length ?b = ?n |- put_ok ?n (put32 ?b _ _) => rewrite <- H at 1; apply put32_ok; rewrite H; lia
  | H : length ?b = ?n |- put_ok ?n (put64 ?b _ _) => rewrite <- H at 1; apply put64_ok; rewrite H; lia
  end.

Lemma encode_FrameHeader_total m : exists data, encode_FrameHeader m = Val data.
Proof.
  assert (put_ok (E := BulkError) 160 (encode_FrameHeader m)) as (data & ? & _); [|eauto].
  unfold encode_FrameHeader, put_data_prefix. cbv zeta.
  set (out := replicate k_frame_header_bytes _).
  assert (length out = 160%nat) by (apply length_replicate). clearbody out.
  cbn [put_arrays]. repeat put_step.
Qed.

(** ** Sequences and the slots they hold *)

Section Slots.
Context (d : Z).

Definition slot_index (s : Z) : nat := Z.to_nat (s mod d).

Definition slot_in (l : list InFlight) (s : Z) : nat :=
  match l !! slot_index s with Some f => if_slot_index f | None => 0%nat end.

Definition slots_between (l : list InFlight) (from to : Z) : list nat :=
  slot_in l <$> seqZ from (to - from).

(** The slots the session still holds, one for each sequence not yet credited. *)
Definition held_slots (x : Session) : list nat :=
  let e := ss_engine x in
  slots_between (sn_inflight e) (cw_credited_end (sn_window e)) (cw_next_sequence (sn_window e)).

Definition holders (xs : list Session) : list nat := mjoin (held_slots <$> xs).

(** A session that is neither live nor being torn down. *)
Definition vacant (st : SessionState) : bool := negb (live st) && negb (bool_decide (st = SS_Expiring)).

Record session_ok (fanned : Z) (x : Session) : Prop := {
  so_window : 0 <= cw_credited_end (sn_window (ss_engine x)) <= cw_next_sequence (sn_window (ss_engine x));
  so_next : cw_next_sequence (sn_window (ss_engine x)) <= fanned;
  so_width : cw_next_sequence (sn_window (ss_engine x)) - cw_credited_end (sn_window (ss_engine x))
               <= cw_width (sn_window (ss_engine x)) <= d;
  so_inflight : Z.of_nat (length (sn_inflight (ss_engine x))) = d;
  so_vacant : vacant (ss_state x) = true ->
    cw_next_sequence (sn_window (ss_engine x)) = cw_credited_end (sn_window (ss_engine x))
}.

Lemma held_slots_length fanned x :
  session_ok fanned x -> Z.of_nat (length (held_slots x)) <= d.
Proof. intros []. unfold held_slots, slots_between. rewrite length_fmap, length_seqZ. lia. Qed.

Lemma session_holders_cons x xs : holders (x :: xs) = held_slots x ++ holders xs.
Proof. done. Qed.

Lemma holders_length fanned xs :
  0 <= d -> Forall (session_ok fanned) xs ->
  Z.of_nat (length (holders xs)) <= d * Z.of_nat (length xs).
Proof.
  intros Hd. induction 1 as [|x xs Hx _ IH]; [simpl; lia|].
  rewrite session_holders_cons, length_app. cbn [length].
  pose proof (held_slots_length _ _ Hx). nia.
Qed.

Lemma session_holders_insert xs k x x' i :
  xs !! k = Some x ->
  occurrences i (holders (<[k := x']> xs)) + occurrences i (held_slots x) =
  occurrences i (holders xs) + occurrences i (held_slots x').
Proof.
  revert k. induction xs as [|y xs IH]; intros [|k] Hk; simplify_eq/=;
    rewrite !session_holders_cons, !occurrences_app; [lia|]. specialize (IH k Hk). lia.
Qed.

Lemma slot_index_lt {A} (l : list A) s :
  0 < d -> Z.of_nat (length l) = d -> (slot_index s < length l)%nat.
Proof. intros Hd Hl. unfold slot_index. pose proof (Z.mod_pos_bound s d Hd). lia. Qed.

(** The index of a sequence is its own within the window. *)
Lemma slot_index_apart a s u :
  0 < d -> a <= u < s -> s < a + d -> slot_index u <> slot_index s.
Proof.
  intros Hd Hs Hu Heq. unfold slot_index in Heq.
  pose proof (Z.mod_pos_bound u d Hd). pose proof (Z.mod_pos_bound s d Hd).
  assert (u = s); [|lia]. apply (mod_window d a); lia.
Qed.

Lemma slots_between_nil l a : slots_between l a a = [].
Proof. unfold slots_between. by rewrite Z.sub_diag. Qed.

Lemma slots_between_split l a m b :
  a <= m <= b -> slots_between l a b = slots_between l a m ++ slots_between l m b.
Proof.
  intros. unfold slots_between. replace (b - a) with ((m - a) + (b - m)) by lia.
  rewrite seqZ_app, fmap_app by lia. by replace (a + (m - a)) with m by lia.
Qed.

Lemma slots_between_cons l a b :
  a < b -> slots_between l a b = slot_in l a :: slots_between l (a + 1) b.
Proof.
  intros. unfold slots_between. rewrite seqZ_cons by lia. cbn [fmap list_fmap].
  by replace (Z.pred (b - a)) with (b - (a + 1)) by lia.
Qed.

Lemma slots_between_insert l a b f :
  0 < d -> b < a + d -> slots_between (<[slot_index b := f]> l) a b = slots_between l a b.
Proof.
  intros Hd Hb. unfold slots_between. apply list_fmap_ext. intros i s Hs.
  apply lookup_seqZ in Hs as [-> Hi]. unfold slot_in.
  rewrite list_lookup_insert_ne; [done|]. apply not_eq_sym, (slot_index_apart a); lia.
Qed.

Lemma slots_between_submit l a b f :
  0 < d -> Z.of_nat (length l) = d -> a <= b < a + d ->
  slots_between (<[slot_index b := f]> l) a (b + 1) = slots_between l a b ++ [if_slot_index f].
Proof.
  intros Hd Hl Hb. rewrite (slots_between_split _ a b) by lia. f_equal.
  - apply slots_between_insert; lia.
  - rewrite slots_between_cons, slots_between_nil by lia. unfold slot_in.
    by rewrite list_lookup_insert_eq by (by apply slot_index_lt).
Qed.
End Slots.

(** ** The invariant *)

Section Safety.
Context {QS QP : Type} `{BoundedFifo QS nat} `{BoundedFifo QP PublishItem}.
Abbreviation Impl := (Impl QS QP).
Implicit Types s : Impl.

(** Every slot that is not free will be pushed once more; [b] bounds how many
    will be taken from now on. *)
Definition acct (b : nat) (ext hold : list nat) (s : Impl) : Prop :=
  exists free, owned (b + (length (im_slot_refs s) - length free)) ext hold (im_slots s)
    (im_slot_refs s) free.

Record config_fits (s : Impl) : Prop := {
  cf_depth : 0 < depth s <= 1024;
  cf_ring : pc_ring_depth (im_config s) = depth s;
  cf_window : 0 <= pc_credit_window (im_config s) <= depth s;
  cf_sessions : Z.of_nat (length (im_sessions s)) <= 32
}.

(** [hand]: slots a handler is about to release; [held]: slots in handles;
    [items]: what the publish queue holds; [fanned]: frames taken from it. *)
Record pub_inv (b : nat) (fanned : Z) (hand held : list nat) (items : list PublishItem) (s : Impl)
    : Prop := {
  pi_config : config_fits s;
  pi_hand : (length hand <= 1024)%nat;
  pi_acct : acct b (held ++ (it_slot_index <$> items))
              (hand ++ holders (depth s) (im_sessions s)) s;
  pi_queue : fifo_repr b (im_publish_queue s) items;
  pi_sessions : Forall (session_ok (depth s) fanned) (im_sessions s);
  pi_fanned : 0 <= fanned /\ fanned + Z.of_nat (length items) + Z.of_nat b < 2 ^ 64
}.

(** What changes when slots are released and counters move. *)
Record untouched (s s' : Impl) : Prop := {
  un_config : im_config s' = im_config s;
  un_ring : ps_ring (im_slots s') = ps_ring (im_slots s);
  un_queue : im_publish_queue s' = im_publish_queue s;
  un_admission : im_admission s' = im_admission s;
  un_running : im_running s' = im_running s;
  un_sessions : im_sessions s' = im_sessions s;
  un_retire : im_retire_counter s' = im_retire_counter s;
  un_epoch : im_server_epoch_id s' = im_server_epoch_id s;
  un_generation : im_generation s' = im_generation s
}.

Lemma untouched_refl s : untouched s s.
Proof. done. Qed.
Lemma untouched_trans s1 s2 s3 : untouched s1 s2 -> untouched s2 s3 -> untouched s1 s3.
Proof. intros [] []. constructor; congruence. Qed.

Lemma release_ref b ext i hold s :
  acct b ext (i :: hold) s -> Z.of_nat (length hold) < 2 ^ 32 - 1 ->
  exists s', release_slot_ref s i = Val s' /\ acct b ext hold s' /\ untouched s s' /\
    im_counters s' = im_counters s.
Proof.
  intros [free Ho] Hlen. unfold release_slot_ref, slot_ref.
  assert (i < length (im_slot_refs s))%nat as Hi by (apply (ow_holders _ _ _ _ _ _ Ho); set_solver).
  rewrite (ow_refs _ _ _ _ _ _ Ho) by done. rewrite bind_val.
  rewrite occurrences_cons, decide_True by done. pose proof (occurrences_bound i hold).
  rewrite (proj2 (Z.leb_gt _ _)) by lia.
  replace (occurrences i hold + 1 - 1) with (occurrences i hold) by lia.
  rewrite wrap_small by (unfold in_range; lia).
  destruct (Z.eqb_spec (occurrences i hold) 0) as [Hz|Hz].
  - assert (i ∉ hold) as Hni by (rewrite occurrences_elem; lia).
    pose proof (drop_holder _ _ _ _ _ _ _ Ho Hni) as Hd.
    pose proof (owned_free_length _ _ _ _ _ _ Hd) as Hl. rewrite length_insert in Hl. simpl in Hl.
    destruct (length (im_slot_refs s) - length free)%nat as [|m] eqn:Hm; [lia|].
    rewrite Nat.add_succ_r in Hd.
    destruct (release_owned _ _ _ _ _ _ _ Hd) as (slots & Hrel & Hring & Hown).
    unfold set_slot_ref. rewrite Hz. cbn [im_slots with_slots]. rewrite Hrel, bind_val.
    eexists. split; [done|]. split; [|done]. exists (free ++ [i]).
    cbn [im_slot_refs im_slots with_slots]. rewrite length_insert, length_app. simpl.
    by replace (b + (length (im_slot_refs s) - (length free + 1)))%nat with (b + m)%nat by lia.
  - assert (i ∈ hold) as Hin by (rewrite occurrences_elem; lia).
    eexists. split; [done|]. split; [|done]. exists free. unfold set_slot_ref.
    cbn [im_slot_refs im_slots with_slots]. rewrite length_insert.
    by apply (drop_shared _ _ _ _ _ _ _ Ho).
Qed.

Lemma acct_occ b ext hold hold' s :
  (forall i, occurrences i hold = occurrences i hold') -> acct b ext hold s -> acct b ext hold' s.
Proof. intros Heq [free Ho]. exists free. by eapply owned_permute. Qed.

Lemma acct_ext b ext ext' hold s : ext ≡ₚ ext' -> acct b ext hold s -> acct b ext' hold s.
Proof. intros Heq [free Ho]. exists free. by eapply owned_permute. Qed.

Lemma acct_weaken b b' ext hold s : (b' <= b)%nat -> acct b ext hold s -> acct b' ext hold s.
Proof. intros Hle [free Ho]. exists free. eapply owned_weaken; [|done]. lia. Qed.

(** ** Moves that keep the invariant *)

Lemma inv_same_sessions b fanned hand held items s s' :
  im_config s' = im_config s -> im_slots s' = im_slots s -> im_slot_refs s' = im_slot_refs s ->
  im_publish_queue s' = im_publish_queue s -> im_sessions s' = im_sessions s ->
  pub_inv b fanned hand held items s -> pub_inv b fanned hand held items s'.
Proof.
  intros Hc Hsl Hr Hq Hx [[? ? ? ?] ? [free Ho] ? ? ?].
  unfold depth in *. constructor; rewrite ?Hx; try done.
  - constructor; unfold depth; rewrite ?Hsl, ?Hc, ?Hx; done.
  - exists free. unfold depth. by rewrite Hr, Hsl.
  - by rewrite Hq.
  - unfold depth. by rewrite Hsl.
Qed.

Lemma inv_count b fanned hand held items s k :
  pub_inv b fanned hand held items s -> pub_inv b fanned hand held items (count s k).
Proof. by apply inv_same_sessions. Qed.

Lemma inv_holders_bound b fanned hand held items s :
  pub_inv b fanned hand held items s ->
  Z.of_nat (length (hand ++ holders (depth s) (im_sessions s))) < 2 ^ 32 - 1.
Proof.
  intros [[Hd _ _ Hn] Hh _ _ Hs _]. rewrite length_app.
  pose proof (holders_length (depth s) fanned _ ltac:(lia) Hs). nia.
Qed.

(** The slots of one session change against those in hand. *)
Lemma inv_put b fanned fanned' hand hand' held items s k x x' :
  pub_inv b fanned hand held items s -> im_sessions s !! k = Some x ->
  session_ok (depth s) fanned' x' -> fanned <= fanned' ->
  fanned' + Z.of_nat (length items) + Z.of_nat b < 2 ^ 64 -> (length hand' <= 1024)%nat ->
  (forall i, occurrences i hand' + occurrences i (held_slots (depth s) x') =
             occurrences i hand + occurrences i (held_slots (depth s) x)) ->
  pub_inv b fanned' hand' held items (put_session s k x').
Proof.
  intros [[? ? ? Hn] ? Ha ? Hs ?] Hk Hx' Hle Hf Hh Hocc.
  constructor; [|done| |done| |lia].
  - constructor; try done. simpl. by rewrite length_insert.
  - eapply acct_occ; [|exact Ha]. intros i. rewrite !occurrences_app.
    change (depth (put_session s k x')) with (depth s). cbn [im_sessions put_session with_sessions].
    pose proof (session_holders_insert (depth s) (im_sessions s) k x x' i Hk). specialize (Hocc i). lia.
  - apply (Forall_insert (session_ok (depth s) fanned')); [|done].
    eapply Forall_impl; [|exact Hs]. intros y []. by constructor; try lia.
Qed.

Lemma inv_swap b fanned hand hand' held items s k x x' :
  pub_inv b fanned hand held items s -> im_sessions s !! k = Some x ->
  session_ok (depth s) fanned x' -> (length hand' <= 1024)%nat ->
  (forall i, occurrences i hand' + occurrences i (held_slots (depth s) x') =
             occurrences i hand + occurrences i (held_slots (depth s) x)) ->
  pub_inv b fanned hand' held items (put_session s k x').
Proof. intros Hinv. pose proof (pi_fanned _ _ _ _ _ _ Hinv). intros. eapply inv_put; done || lia. Qed.

(** A session changes without touching its window or its slots. *)
Lemma pub_inv_quiet b fanned hand held items s k x x' :
  pub_inv b fanned hand held items s -> im_sessions s !! k = Some x ->
  sn_window (ss_engine x') = sn_window (ss_engine x) ->
  sn_inflight (ss_engine x') = sn_inflight (ss_engine x) ->
  (vacant (ss_state x') = true -> vacant (ss_state x) = true) ->
  pub_inv b fanned hand held items (put_session s k x').
Proof.
  intros Hinv Hx Hw Hl Hv. pose proof (Forall_lookup_1 _ _ _ _ (pi_sessions _ _ _ _ _ _ Hinv) Hx) as [].
  eapply inv_swap; [done..| |by destruct Hinv|].
  - constructor; rewrite ?Hw, ?Hl; auto.
  - intros i. unfold held_slots. by rewrite Hw, Hl.
Qed.

(** One slot in hand is released. *)
Lemma pub_inv_release b fanned i hand held items s :
  pub_inv b fanned (i :: hand) held items s ->
  exists s', release_slot_ref s i = Val s' /\ untouched s s' /\ im_counters s' = im_counters s /\
    pub_inv b fanned hand held items s'.
Proof.
  intros Hinv. pose proof (inv_holders_bound _ _ _ _ _ _ Hinv) as Hb.
  destruct Hinv as [[? ? ? ?] Hh Ha ? ? ?]. simpl in Hb, Hh, Ha.
  destruct (release_ref _ _ _ _ _ Ha ltac:(lia)) as (s' & Hrel & Ha' & Hu & Hc).
  exists s'. split; [done|]. split; [done|]. split; [done|]. destruct Hu.
  assert (depth s' = depth s) as Hd by (unfold depth; by rewrite un_ring0).
  constructor; rewrite ?Hd, ?un_sessions0, ?un_queue0; try done; [|lia].
  constructor; rewrite ?Hd, ?un_config0, ?un_sessions0; done.
Qed.

(** ** Reading the table *)

Lemma session_at_some s k x : im_sessions s !! k = Some x -> session_at s k = Val x.
Proof. intros Hk. unfold session_at. by rewrite Hk. Qed.

Lemma inv_session b fanned hand held items s k x :
  pub_inv b fanned hand held items s -> im_sessions s !! k = Some x ->
  session_ok (depth s) fanned x /\ fanned + Z.of_nat b < 2 ^ 64.
Proof.
  intros [_ _ _ _ Hs Hf] Hk. split; [|lia]. by apply (Forall_lookup_1 _ _ _ _ Hs Hk).
Qed.

Lemma inflight_at_ok s x l seq :
  config_fits s -> sn_inflight (ss_engine x) = l -> Z.of_nat (length l) = depth s ->
  exists f, inflight_at s x seq = Val f /\ l !! slot_index (depth s) seq = Some f /\
    if_slot_index f = slot_in (depth s) l seq.
Proof.
  intros [Hd _ _ _] <- Hl. unfold inflight_at. rewrite (proj2 (Z.eqb_neq _ _)) by lia.
  destruct (lookup_lt_is_Some_2 (sn_inflight (ss_engine x)) (slot_index (depth s) seq)) as [f Hf].
  { apply slot_index_lt; [lia|done]. }
  exists f. unfold slot_in. fold (slot_index (depth s) seq). rewrite Hf. done.
Qed.

Lemma find_session_some p xs j k :
  find_session p xs j = Some k ->
  exists x, (j <= k)%nat /\ xs !! (k - j)%nat = Some x /\ p x = true.
Proof.
  revert j. induction xs as [|x xs IH]; intros j; simpl; [done|].
  destruct (p x) eqn:Hp.
  - intros [= ->]. exists x. rewrite Nat.sub_diag. done.
  - intros Hf. destruct (IH _ Hf) as (y & Hle & Hy & Hpy). exists y.
    split; [lia|]. split; [|done]. by replace (k - j)%nat with (S (k - S j)) by lia.
Qed.

Lemma session_for_stream_some s id k :
  session_for_stream s id = Some k ->
  exists x, im_sessions s !! k = Some x /\ live (ss_state x) = true /\ si_stream_id (ss_identity x) = id.
Proof.
  unfold session_for_stream. destruct (id =? 0); [done|]. intros Hf.
  apply find_session_some in Hf as (x & _ & Hx & Hp). rewrite Nat.sub_0_r in Hx.
  apply andb_true_iff in Hp as [? ?%Z.eqb_eq]. eauto.
Qed.

(** ** Gauges *)

(** A pass over the table only writes the observed lag. *)
Definition lag_only (x x' : Session) : Prop :=
  exists n, x' = ss_with_engine x (sn_with_lag (ss_engine x) n).

Lemma lag_only_refl x : lag_only x x.
Proof. exists (sn_observed_lag (ss_engine x)). by destruct x as [? ? ? ? ? ? ? []]. Qed.

Lemma gauge_loop_ok s xs g fanned :
  config_fits s -> Forall (session_ok (depth s) fanned) xs ->
  exists xs' g', gauge_loop s xs g = Val (xs', g') /\ Forall2 lag_only xs xs'.
Proof.
  intros Hc Hs. revert g. induction Hs as [|x xs Hx _ IH]; intros g; [by eexists _, _|].
  simpl. destruct (sendable (ss_state x)).
  - unfold retired_ordinal. destruct Hx.
    destruct (inflight_at_ok s x _ (cw_credited_end (sn_window (ss_engine x))) Hc eq_refl so_inflight0)
      as (f & Hf & _).
    destruct (outstanding (sn_window (ss_engine x)) =? 0); rewrite ?Hf, ?bind_val;
      edestruct IH as (xs' & g' & -> & Hall); rewrite bind_val; eexists _, _; (split; [done|]);
      constructor; [by eexists|done|by eexists|done].
  - destruct (IH g) as (xs' & g' & -> & Hall). rewrite bind_val. eexists _, _. split; [done|].
    constructor; [apply lag_only_refl|done].
Qed.

Lemma holders_lag d xs xs' : Forall2 lag_only xs xs' -> holders d xs' = holders d xs.
Proof.
  induction 1 as [|x x' xs xs' [n ->] _ IH]; [done|]. rewrite !session_holders_cons, IH. done.
Qed.

Lemma sessions_lag d fanned xs xs' :
  Forall2 lag_only xs xs' -> Forall (session_ok d fanned) xs -> Forall (session_ok d fanned) xs'.
Proof.
  intros Hl Hs. revert xs' Hl. induction Hs as [|x xs Hx _ IH]; intros xs' Hl; inversion Hl; subst; [done|].
  constructor; [|by apply IH]. destruct Hx. by match goal with H : lag_only _ _ |- _ => destruct H as [n ->] end.
Qed.

(** What [refresh_gauges] leaves alone. *)
Record regauged (s s' : Impl) : Prop := {
  rg_config : im_config s' = im_config s;
  rg_slots : im_slots s' = im_slots s;
  rg_refs : im_slot_refs s' = im_slot_refs s;
  rg_queue : im_publish_queue s' = im_publish_queue s;
  rg_running : im_running s' = im_running s;
  rg_sessions : Forall2 lag_only (im_sessions s) (im_sessions s');
  rg_counters : forall k, k <> credits_outstanding -> im_counters s' k = im_counters s k;
  rg_retire : im_retire_counter s' = im_retire_counter s;
  rg_admitted : ad_admitted (im_admission s') = ad_admitted (im_admission s)
}.

Lemma inv_regauged b fanned hand held items s s' :
  regauged s s' -> pub_inv b fanned hand held items s -> pub_inv b fanned hand held items s'.
Proof.
  intros [Hc Hsl Hr Hq _ Hx _ _] [[? ? ? ?] ? [free Ho] ? Hs ?]. unfold depth in *.
  constructor; unfold depth; rewrite ?Hsl; try done.
  - constructor; unfold depth; rewrite ?Hsl, ?Hc; try done. by rewrite <- (Forall2_length Hx).
  - exists free. by rewrite (holders_lag _ _ _ Hx), Hr, Hsl.
  - by rewrite Hq.
  - by eapply sessions_lag.
Qed.

Lemma inv_refresh b fanned hand held items s :
  pub_inv b fanned hand held items s ->
  exists s', refresh_gauges s = Val s' /\ regauged s s' /\ pub_inv b fanned hand held items s'.
Proof.
  intros Hinv. pose proof Hinv as [Hc _ _ _ Hs _]. unfold refresh_gauges.
  destruct (gauge_loop_ok s (im_sessions s)
    (mkGauges 0 (ad_admitted (im_admission s)) uint64_max 0 0) fanned Hc Hs) as (xs & g & -> & Hl).
  rewrite bind_val. eexists. split; [done|].
  assert (forall s', regauged s s' -> regauged s s' /\ pub_inv b fanned hand held items s') as Hboth
    by (intros s' Hr; split; [done|by eapply inv_regauged]).
  apply Hboth. constructor; try done. intros k Hk. simpl. by rewrite decide_False.
Qed.

(** ** Credits, probes and completions *)

(** What no handler of the engine changes but the fan-out itself. *)
Record kept (s s' : Impl) : Prop := {
  ke_config : im_config s' = im_config s;
  ke_ring : ps_ring (im_slots s') = ps_ring (im_slots s);
  ke_queue : im_publish_queue s' = im_publish_queue s;
  ke_sessions : length (im_sessions s') = length (im_sessions s);
  ke_admitted : ad_admitted (im_admission s') = ad_admitted (im_admission s);
  ke_vacant : forall k x, im_sessions s !! k = Some x -> vacant (ss_state x) = true ->
    exists x', im_sessions s' !! k = Some x' /\ vacant (ss_state x') = true
}.

Lemma kept_same s s' :
  im_config s' = im_config s -> ps_ring (im_slots s') = ps_ring (im_slots s) ->
  im_publish_queue s' = im_publish_queue s -> im_sessions s' = im_sessions s ->
  ad_admitted (im_admission s') = ad_admitted (im_admission s) -> kept s s'.
Proof. intros ? ? ? Hs ?. constructor; rewrite ?Hs; eauto. Qed.
#[local] Hint Extern 0 (kept _ _) => (apply kept_same; reflexivity) : core.
Lemma kept_refl s : kept s s.
Proof. done. Qed.
Lemma kept_trans s1 s2 s3 : kept s1 s2 -> kept s2 s3 -> kept s1 s3.
Proof.
  intros [? ? ? ? ? Hv] [? ? ? ? ? Hv']. constructor; try congruence.
  intros k x Hx Hvx. destruct (Hv k x Hx Hvx) as (y & Hy & Hvy). eauto.
Qed.
Lemma kept_count s k : kept s (count s k).
Proof. done. Qed.
Lemma kept_put s k x y :
  im_sessions s !! k = Some x -> (vacant (ss_state x) = true -> vacant (ss_state y) = true) ->
  kept s (put_session s k y).
Proof.
  intros Hx Hv. constructor; try done; simpl; [by rewrite length_insert|].
  intros j z Hz Hvz. destruct (decide (k = j)) as [<-|Hne].
  - simplify_eq. exists y. rewrite list_lookup_insert_eq by (by eapply lookup_lt_Some). auto.
  - exists z. by rewrite list_lookup_insert_ne.
Qed.
Lemma kept_untouched s s' : untouched s s' -> kept s s'.
Proof. intros []. apply kept_same; congruence. Qed.
Lemma kept_regauged s s' : regauged s s' -> kept s s'.
Proof.
  intros [? ? ? ? ? Hl ? ? ?]. constructor; try congruence; [symmetry; by eapply Forall2_length|].
  intros k x Hx Hv. destruct (Forall2_lookup_l _ _ _ _ _ Hl Hx) as (y & Hy & [n ->]). eauto.
Qed.

Lemma kept_session s s' k x :
  kept s s' -> im_sessions s !! k = Some x -> exists x', im_sessions s' !! k = Some x'.
Proof.
  intros [_ _ _ Hl _ _] Hx. apply lookup_lt_is_Some_2. rewrite Hl. by eapply lookup_lt_Some.
Qed.

Lemma depth_untouched s s' : untouched s s' -> depth s' = depth s.
Proof. intros []. unfold depth. by rewrite un_ring0. Qed.

Lemma inflight_untouched s s' x seq : untouched s s' -> inflight_at s' x seq = inflight_at s x seq.
Proof. intros Hu. unfold inflight_at. by rewrite (depth_untouched _ _ Hu). Qed.

Lemma slot_ref_in_hand b fanned i hand held items s :
  pub_inv b fanned (i :: hand) held items s -> exists n, slot_ref s i = Val n.
Proof.
  intros [_ _ [free Ho] _ _ _]. unfold slot_ref.
  rewrite (ow_refs _ _ _ _ _ _ Ho); [eauto|]. apply (ow_holders _ _ _ _ _ _ Ho). set_solver.
Qed.

Lemma credit_loop_inv n b fanned hand held items s x l a :
  sn_inflight (ss_engine x) = l -> Z.of_nat (length l) = depth s -> 0 <= a ->
  a + Z.of_nat n < 2 ^ 64 ->
  pub_inv b fanned (slots_between (depth s) l a (a + Z.of_nat n) ++ hand) held items s ->
  exists s', credit_loop n s x a = Val s' /\ untouched s s' /\
    (forall k, k <> frames_credited -> im_counters s' k = im_counters s k) /\
    pub_inv b fanned hand held items s'.
Proof.
  intros Hx Hl. revert s a Hl. induction n as [|n IH]; intros s a Hl Ha Hn Hinv.
  { rewrite Z.add_0_r, slots_between_nil in Hinv. by exists s. }
  rewrite slots_between_cons in Hinv by lia. simpl.
  destruct (inflight_at_ok s x l a (pi_config _ _ _ _ _ _ Hinv) Hx Hl) as (f & -> & _ & Hf).
  rewrite bind_val, Hf. destruct (slot_ref_in_hand _ _ _ _ _ _ _ Hinv) as [m Hm].
  rewrite Hm, bind_val. destruct (pub_inv_release _ _ _ _ _ _ _ Hinv) as (s1 & -> & Hu & Hc & Hinv1).
  rewrite bind_val, wrap_small by (unfold in_range; lia).
  set (s2 := if m =? 1 then _ else _).
  assert (untouched s1 s2 /\ (forall k, k <> frames_credited -> im_counters s2 k = im_counters s1 k) /\
    pub_inv b fanned (slots_between (depth s) l (a + 1) (a + Z.of_nat (S n)) ++ hand) held items s2)
    as (Hu2 & Hc2 & Hinv2).
  { unfold s2. destruct (m =? 1); [|done]. split; [done|]. split; [|by apply inv_count].
    intros k Hk. simpl. by rewrite decide_False. }
  pose proof (untouched_trans _ _ _ Hu Hu2) as Hu12. rewrite <- (depth_untouched _ _ Hu12) in Hinv2, Hl.
  destruct (IH s2 (a + 1)) as (s' & -> & Hu' & Hc' & Hinv'); [done|lia|lia| |].
  { by replace (a + 1 + Z.of_nat n) with (a + Z.of_nat (S n)) by lia. }
  exists s'. split; [done|]. split; [by eapply untouched_trans|]. split; [|done].
  intros k Hk. rewrite Hc', Hc2, Hc; done.
Qed.

Lemma reclaim_loop_inv n b fanned hand held items s x l a :
  sn_inflight (ss_engine x) = l -> Z.of_nat (length l) = depth s -> 0 <= a ->
  a + Z.of_nat n < 2 ^ 64 ->
  pub_inv b fanned (slots_between (depth s) l a (a + Z.of_nat n) ++ hand) held items s ->
  exists s', reclaim_loop n s x a = Val s' /\ untouched s s' /\ im_counters s' = im_counters s /\
    pub_inv b fanned hand held items s'.
Proof.
  intros Hx Hl. revert s a Hl. induction n as [|n IH]; intros s a Hl Ha Hn Hinv.
  { rewrite Z.add_0_r, slots_between_nil in Hinv. by exists s. }
  rewrite slots_between_cons in Hinv by lia. simpl.
  destruct (inflight_at_ok s x l a (pi_config _ _ _ _ _ _ Hinv) Hx Hl) as (f & -> & _ & Hf).
  rewrite bind_val, Hf. destruct (pub_inv_release _ _ _ _ _ _ _ Hinv) as (s1 & -> & Hu & Hc & Hinv1).
  rewrite bind_val, wrap_small by (unfold in_range; lia).
  pose proof (depth_untouched _ _ Hu) as Hd. rewrite <- Hd in Hinv1, Hl.
  destruct (IH s1 (a + 1)) as (s' & -> & Hu' & Hc' & Hinv'); [done|lia|lia| |].
  { by replace (a + 1 + Z.of_nat n) with (a + Z.of_nat (S n)) by lia. }
  exists s'. split; [done|]. split; [by eapply untouched_trans|]. split; [congruence|done].
Qed.

(** [apply_credit] with no assumption on how the window was granted. *)
Lemma apply_credit_moves w ack o w' :
  0 <= cw_credited_end w <= cw_next_sequence w -> cw_next_sequence w < 2 ^ 64 -> 0 <= ack ->
  apply_credit w ack = (o, w') ->
  (co_status o <> Ok /\ w' = w \/
   co_status o = Ok /\ 0 <= co_released o /\ cw_next_sequence w' = cw_next_sequence w /\
   cw_credited_end w' = cw_credited_end w + co_released o /\ cw_credited_end w' <= cw_next_sequence w /\
   cw_width w' = cw_width w /\ cw_ring_depth w' = cw_ring_depth w).
Proof.
  intros Hw Hn Ha. unfold apply_credit.
  destruct (Z.leb_spec (cw_next_sequence w) ack). { intros [= <- <-]. by left. }
  rewrite wrap_small by (unfold in_range; lia).
  destruct (Z.leb_spec (ack + 1) (cw_credited_end w)); intros [= <- <-]; right; simpl.
  { split_all; done || lia. }
  rewrite wrap_small by (unfold in_range; lia). split_all; done || lia.
Qed.

Definition with_window (x : Session) (w : CreditWindow) : Session :=
  ss_with_engine x (sn_with_window (ss_engine x) w).

(** A credit moves its slots into the hands of the handler. *)
Lemma credit_session d fanned x w' r :
  0 < d -> session_ok d fanned x -> 0 <= r ->
  cw_next_sequence w' = cw_next_sequence (sn_window (ss_engine x)) ->
  cw_credited_end w' = cw_credited_end (sn_window (ss_engine x)) + r ->
  cw_credited_end w' <= cw_next_sequence w' ->
  cw_width w' = cw_width (sn_window (ss_engine x)) -> vacant (ss_state x) = false ->
  session_ok d fanned (with_window x w') /\
  held_slots d x = slots_between d (sn_inflight (ss_engine x)) (cw_credited_end (sn_window (ss_engine x)))
    (cw_credited_end (sn_window (ss_engine x)) + r) ++ held_slots d (with_window x w').
Proof.
  intros Hd [? ? ? ? ?] Hr Hn Hc Hle Hwd Hv. split.
  - constructor; simpl; rewrite ?Hwd, ?Hn, ?Hc; try lia. by rewrite Hv.
  - unfold held_slots. simpl. rewrite Hn, Hc. apply slots_between_split. lia.
Qed.

Lemma live_not_vacant st : live st = true -> vacant st = false.
Proof. unfold vacant. by intros ->. Qed.

Lemma handle_credit_inv b fanned held items s header :
  pub_inv b fanned [] held items s ->
  exists s', handle_credit s header = Val s' /\ pub_inv b fanned [] held items s' /\ kept s s'.
Proof.
  intros Hinv. unfold handle_credit.
  pose proof (decode_CreditMessage_spec header) as [Hsafe Hty].
  destruct (decode_CreditMessage header) as [credit|?|]; [|eexists; split; [done|split; [by apply inv_count|apply kept_count]]|done].
  destruct (session_for_stream s (cm_stream_id credit)) as [k|] eqn:Hk;
    [|eexists; split; [done|split; [by apply inv_count|apply kept_count]]].
  apply session_for_stream_some in Hk as (x & Hx & Hlive & _). rewrite (session_at_some _ _ _ Hx), bind_val.
  destruct (inv_session _ _ _ _ _ _ _ _ Hinv Hx) as [Hok Hb]. pose proof Hok as [Hw Hnx Hwd Hl _].
  destruct (apply_credit (sn_window (ss_engine x)) (cm_ack_sequence credit)) as [o w'] eqn:Ha.
  destruct (Hty credit eq_refl) as (_ & _ & Hack).
  pose proof (pi_config _ _ _ _ _ _ Hinv) as [Hd _ _ _].
  apply apply_credit_moves in Ha as [[Hst ->]|(Hst & Hr & Hn & Hc & Hle & Hwi & _)];
    [..|lia|lia|unfold in_range in *; lia].
  - rewrite bool_decide_eq_true_2 by done. eexists. split; [done|].
    split; [by eapply inv_count, pub_inv_quiet|].
    eapply kept_trans; [|apply kept_count]. by eapply kept_put.
  - rewrite bool_decide_eq_false_2 by (intros Hne; by apply Hne).
    destruct (credit_session (depth s) fanned x w' (co_released o)) as [Hok' Hheld];
      [lia|done|done|done|done|lia|done|by apply live_not_vacant|].
    fold (with_window x w'). set (n := Z.to_nat (co_released o)).
    assert (Z.of_nat n = co_released o) as Hnn by lia.
    destruct (credit_loop_inv n b fanned [] held items (put_session s k (with_window x w'))
      (with_window x w') (sn_inflight (ss_engine x)) (cw_credited_end (sn_window (ss_engine x))))
      as (s1 & -> & Hu & Hc1 & Hinv1); [done|done|lia|lia| |].
    { rewrite Hnn, app_nil_r. eapply inv_swap; [done..| |].
      - unfold slots_between. rewrite length_fmap, length_seqZ. lia.
      - intros i. rewrite Hheld, occurrences_app. unfold occurrences at 3. simpl.
        change (depth (put_session s k (with_window x w'))) with (depth s). lia. }
    rewrite bind_val. pose proof (kept_trans _ _ _ (kept_put s k x (with_window x w') Hx (fun h => h)) (kept_untouched _ _ Hu)) as Hk1.
    destruct (negb (co_released o =? 0)); [|by eexists].
    destruct (inv_refresh _ _ _ _ _ _ Hinv1) as (s2 & -> & Hrg & Hinv2). eexists. split; [done|].
    split; [done|]. eapply kept_trans; [exact Hk1|by apply kept_regauged].
Qed.

Lemma handle_probe_ack_inv b fanned held items s header :
  pub_inv b fanned [] held items s ->
  exists s', handle_probe_ack s header = Val s' /\ pub_inv b fanned [] held items s' /\ kept s s'.
Proof.
  intros Hinv. unfold handle_probe_ack.
  pose proof (decode_ProbeAckMessage_spec header) as [Hsafe _].
  assert (exists s', Val (count s malformed_messages) = Val (E := Status) s' /\
    pub_inv b fanned [] held items s' /\ kept s s') as Hbad
    by (eexists; split; [done|split; [by apply inv_count|apply kept_count]]).
  destruct (decode_ProbeAckMessage header) as [ack|?|]; [|done..].
  destruct (session_for_stream s (pa_stream_id ack)) as [k|] eqn:Hk; [|done].
  apply session_for_stream_some in Hk as (x & Hx & Hlive & _). rewrite (session_at_some _ _ _ Hx), bind_val.
  destruct (negb (pa_probe_token ack =? _)); [done|].
  case_bool_decide as Hopen; [|exists s; split; [done|split; [done|apply kept_refl]]]. cbv zeta.
  match goal with |- context [put_session s k ?x'] => set (y := x') end.
  assert (pub_inv b fanned [] held items (put_session s k y)) as Hinv1
    by (eapply pub_inv_quiet; [done..|]; by rewrite Hopen).
  destruct (inv_refresh _ _ _ _ _ _ Hinv1) as (s2 & -> & Hrg & Hinv2). eexists. split; [done|].
  split; [done|]. eapply kept_trans; [|by apply kept_regauged].
  eapply kept_put; [done|]. by rewrite Hopen.
Qed.

Lemma on_send_complete_inv b fanned held items s k ok :
  pub_inv b fanned [] held items s -> (k < length (im_sessions s))%nat ->
  exists s', on_send_complete s k ok = Val s' /\ pub_inv b fanned [] held items s' /\ kept s s'.
Proof.
  intros Hinv Hk. apply lookup_lt_is_Some_2 in Hk as [x Hx]. unfold on_send_complete.
  rewrite (session_at_some _ _ _ Hx), bind_val.
  eexists. split; [done|]. set (s1 := count _ frames_completed).
  assert (pub_inv b fanned [] held items s1 /\ kept s s1 /\ im_sessions s1 = im_sessions s) as (? & ? & Hs1).
  { unfold s1. destruct ok; (split; [|done]); repeat apply inv_count; done. }
  split; [eapply pub_inv_quiet; [done|by rewrite Hs1|done..]|]. eapply kept_trans; [done|by eapply kept_put; [rewrite Hs1|]].
Qed.

(** A completion names a session of the table. *)
Definition event_ok (n : nat) (ev : transport_event) : Prop :=
  match ev with TComplete k _ => (k < n)%nat | _ => True end.

Lemma progress_inv b fanned held items evs s :
  pub_inv b fanned [] held items s -> Forall (event_ok (length (im_sessions s))) evs ->
  exists s', progress s evs = Val s' /\ pub_inv b fanned [] held items s' /\ kept s s'.
Proof.
  intros Hinv Hevs. revert s Hinv Hevs. induction evs as [|ev evs IH]; intros s Hinv Hevs; [by exists s|].
  inversion Hevs as [|? ? Hev Hrest]; subst. simpl.
  assert (exists s1, deliver s ev = Val s1 /\ pub_inv b fanned [] held items s1 /\ kept s s1)
    as (s1 & -> & Hinv1 & Hk1).
  { destruct ev; simpl in *; [by apply handle_credit_inv|by apply handle_probe_ack_inv|by apply on_send_complete_inv]. }
  rewrite bind_val. destruct (IH s1) as (s' & -> & Hinv' & Hk'); [done|by rewrite (ke_sessions _ _ Hk1)|].
  exists s'. split; [done|]. split; [done|by eapply kept_trans].
Qed.

(** ** Teardown *)

Lemma closed_session_ok d fanned x ret p :
  0 <= fanned -> session_ok d fanned x ->
  let e := ss_engine x in
  let x' := mkSession (ss_identity x) SS_Closed (ss_deadline_ms x) (ss_end_reason x) ret p (ss_renew x)
    (mkSessionEngine (sn_ep e) false (CreditWindow_reset (sn_window e) 0) (sn_inflight e) 0 0
       (sn_sends_inflight e) (sn_observed_lag e)) in
  session_ok d fanned x' /\ held_slots d x' = [].
Proof.
  intros Hf [? ? ? ? ?]. split; [constructor; simpl; lia|].
  unfold held_slots. simpl. apply slots_between_nil.
Qed.

(** Releasing slots does not look at the table. *)
Lemma release_put s k y i :
  release_slot_ref (put_session s k y) i =
  (let! s := release_slot_ref s i in Val (put_session s k y)).
Proof.
  unfold release_slot_ref, slot_ref. simpl. destruct (im_slot_refs s !! i) as [n|]; [|done]. simpl.
  destruct (n <=? 0); [done|]. destruct (u32 (n - 1) =? 0); [|done].
  by destruct (slots_release (im_slots s) i).
Qed.

Lemma reclaim_put n s k y x a :
  reclaim_loop n (put_session s k y) x a =
  (let! s := reclaim_loop n s x a in Val (put_session s k y)).
Proof.
  revert s a. induction n as [|n IH]; intros s a; [done|]. simpl.
  change (inflight_at (put_session s k y) x a) with (inflight_at s x a).
  destruct (inflight_at s x a) as [f|?|]; [|done..]. rewrite !bind_val, release_put.
  destruct (release_slot_ref s (if_slot_index f)) as [s1|?|]; [|done..]. rewrite !bind_val. apply IH.
Qed.

Lemma put_put s k x y : put_session (put_session s k x) k y = put_session s k y.
Proof. unfold put_session, with_sessions. simpl. by rewrite list_insert_insert_eq. Qed.

Lemma close_endpoint_inv b fanned held items s k x evs :
  pub_inv b fanned [] held items s -> im_sessions s !! k = Some x ->
  Forall (event_ok (length (im_sessions s))) evs ->
  exists s1 x1, close_endpoint s k evs = Val s1 /\ im_sessions s1 !! k = Some x1 /\
    pub_inv b fanned [] held items s1 /\ kept s s1.
Proof.
  intros Hinv Hx Hevs. unfold close_endpoint. rewrite (session_at_some _ _ _ Hx), bind_val.
  destruct (sn_ep (ss_engine x)); [|by exists s, x].
  destruct (progress_inv _ _ _ _ _ _ Hinv Hevs) as (s1 & -> & Hinv1 & Hk1). rewrite bind_val.
  destruct (kept_session _ _ _ _ Hk1 Hx) as [x1 Hx1]. rewrite (session_at_some _ _ _ Hx1), bind_val.
  eexists _, _. split; [done|]. split; [apply list_lookup_insert_eq; by eapply lookup_lt_Some|].
  split; [by eapply pub_inv_quiet|eapply kept_trans; [exact Hk1|by eapply kept_put]].
Qed.

Lemma teardown_inv b fanned held items s k x evs :
  pub_inv b fanned [] held items s -> im_sessions s !! k = Some x ->
  Forall (event_ok (length (im_sessions s))) evs ->
  exists s', teardown s k evs = Val s' /\ pub_inv b fanned [] held items s' /\ kept s s'.
Proof.
  intros Hinv Hx Hevs. unfold teardown.
  destruct (close_endpoint_inv _ _ _ _ _ _ _ _ Hinv Hx Hevs) as (s1 & x1 & -> & Hx1 & Hinv1 & Hk1).
  rewrite bind_val, (session_at_some _ _ _ Hx1), bind_val.
  destruct (inv_session _ _ _ _ _ _ _ _ Hinv1 Hx1) as [Hok Hb]. pose proof Hok as [Hw Hn Hwd Hl _].
  destruct (closed_session_ok (depth s1) fanned x1 (u64 (im_retire_counter s1 + 1))
    (ss_poisoned x1 || negb (sn_sends_inflight (ss_engine x1) =? 0)) ltac:(lia) Hok) as [Hcok Hcheld].
  set (closed := mkSession _ _ _ _ _ _ _ _) in *.
  set (w := sn_window (ss_engine x1)) in *.
  set (n := Z.to_nat (cw_next_sequence w - cw_credited_end w)).
  (* the slots of the session are taken in hand, then released *)
  pose proof (pi_config _ _ _ _ _ _ Hinv1) as [Hd _ _ _].
  destruct (reclaim_loop_inv n b fanned [] held items (put_session s1 k closed) x1
    (sn_inflight (ss_engine x1)) (cw_credited_end w)) as (s2' & Hrec & Hu & _ & Hinv2);
    [done|done|lia|lia| |].
  { rewrite app_nil_r. eapply inv_swap; [done..| |].
    - unfold slots_between. rewrite length_fmap, length_seqZ. lia.
    - intros i. rewrite Hcheld. unfold held_slots. fold w.
      change (depth (put_session s1 k closed)) with (depth s1).
      replace (cw_credited_end w + Z.of_nat n) with (cw_next_sequence w) by lia.
      unfold occurrences at 2 3. simpl. lia. }
  rewrite reclaim_put in Hrec. destruct (reclaim_loop n s1 x1 (cw_credited_end w)) as [s2|?|]; [|done..].
  rewrite bind_val in Hrec |- *. injection Hrec as <-.
  match goal with |- context [refresh_gauges ?t] => set (s3 := t) end.
  assert (im_retire_counter s2 = im_retire_counter s1) as Hret by apply Hu.
  assert (im_sessions s3 = im_sessions (put_session s2 k closed)) as Hs3
    by (unfold s3, closed; simpl; by rewrite Hret).
  assert (pub_inv b fanned [] held items s3) as Hinv3 by (by eapply inv_same_sessions; [..|exact Hinv2]).
  destruct (inv_refresh _ _ _ _ _ _ Hinv3) as (s4 & -> & Hrg & Hinv4). exists s4.
  split; [done|]. split; [done|]. eapply kept_trans; [exact Hk1|].
  eapply kept_trans; [by apply (kept_put s1 k x1 closed)|].
  eapply kept_trans; [by apply kept_untouched|]. eapply kept_trans; [|by apply kept_regauged].
  by apply kept_same.
Qed.

Lemma begin_expiry_engine x r : ss_engine (snd (begin_expiry x r)) = ss_engine x.
Proof. unfold begin_expiry. destruct (negb _); [done|]. by case_bool_decide. Qed.

Lemma begin_expiry_vacant x r : vacant (ss_state (snd (begin_expiry x r))) = vacant (ss_state x).
Proof.
  unfold begin_expiry. destruct (live (ss_state x)) eqn:Hl; simpl; [|done].
  case_bool_decide; [done|]. simpl. unfold vacant at 2. by rewrite Hl.
Qed.

Lemma inv_begin_expiry b fanned hand held items s k x r :
  pub_inv b fanned hand held items s -> im_sessions s !! k = Some x ->
  pub_inv b fanned hand held items (put_session s k (snd (begin_expiry x r))).
Proof.
  intros. eapply pub_inv_quiet; [done..| | |]; rewrite ?begin_expiry_engine, ?begin_expiry_vacant; done.
Qed.

Lemma put_session_at s k x y : im_sessions s !! k = Some x -> im_sessions (put_session s k y) !! k = Some y.
Proof. intros Hx. apply list_lookup_insert_eq. by eapply lookup_lt_Some. Qed.

Lemma expire_teardown_inv b fanned held items s k x evs :
  pub_inv b fanned [] held items s -> im_sessions s !! k = Some x ->
  Forall (event_ok (length (im_sessions s))) evs -> forall r (c : bool),
  let y := if c then snd (begin_expiry x r) else x in
  exists s', (if bool_decide (ss_state y = SS_Expiring) then teardown (put_session s k y) k evs
              else Val (put_session s k y)) = Val s' /\ pub_inv b fanned [] held items s' /\ kept s s'.
Proof.
  intros Hinv Hx Hevs r c y.
  assert (pub_inv b fanned [] held items (put_session s k y)) as Hinv1.
  { unfold y. destruct c; [by apply inv_begin_expiry|by eapply pub_inv_quiet]. }
  assert (kept s (put_session s k y)) as Hkp.
  { eapply kept_put; [done|]. unfold y. destruct c; [by rewrite begin_expiry_vacant|done]. }
  case_bool_decide.
  - destruct (teardown_inv b fanned held items (put_session s k y) k y evs) as (s' & -> & ? & ?);
      [done|by eapply put_session_at|simpl; by rewrite length_insert|].
    exists s'. split; [done|]. split; [done|]. eapply kept_trans; [exact Hkp|done].
  - eexists. split; [done|]. split; [done|exact Hkp].
Qed.

Lemma sweep_loop_inv b fanned held items ks s now evs :
  pub_inv b fanned [] held items s -> Forall (fun k => (k < length (im_sessions s))%nat) ks ->
  (forall k, Forall (event_ok (length (im_sessions s))) (evs k)) ->
  exists s', sweep_loop ks s now evs = Val s' /\ pub_inv b fanned [] held items s' /\ kept s s'.
Proof.
  revert s. induction ks as [|k ks IH]; intros s Hinv Hks Hevs; [by exists s|].
  inversion Hks as [|? ? Hk Hrest]; subst. apply lookup_lt_is_Some_2 in Hk as [x Hx]. simpl.
  unfold sweep_session. rewrite (session_at_some _ _ _ Hx), bind_val.
  destruct (expire_teardown_inv _ _ _ _ _ _ _ (evs k) Hinv Hx (Hevs k) ER_Expire
    (live (ss_state x) && (ss_deadline_ms x <=? now))) as (s1 & -> & Hinv1 & Hk1). rewrite bind_val.
  pose proof (ke_sessions _ _ Hk1) as Hl.
  destruct (IH s1) as (s' & -> & Hinv' & Hk'); [done|by rewrite Hl|by rewrite Hl|].
  exists s'. split; [done|]. split; [done|by eapply kept_trans].
Qed.

Lemma shutdown_loop_inv b fanned held items ks s evs :
  pub_inv b fanned [] held items s -> Forall (fun k => (k < length (im_sessions s))%nat) ks ->
  (forall k, Forall (event_ok (length (im_sessions s))) (evs k)) ->
  exists s', shutdown_loop ks s evs = Val s' /\ pub_inv b fanned [] held items s' /\ kept s s'.
Proof.
  revert s. induction ks as [|k ks IH]; intros s Hinv Hks Hevs; [by exists s|].
  inversion Hks as [|? ? Hk Hrest]; subst. apply lookup_lt_is_Some_2 in Hk as [x Hx]. simpl.
  unfold shutdown_session. rewrite (session_at_some _ _ _ Hx), bind_val.
  destruct (expire_teardown_inv _ _ _ _ _ _ _ (evs k) Hinv Hx (Hevs k) ER_Expire true)
    as (s1 & -> & Hinv1 & Hk1). rewrite bind_val.
  pose proof (ke_sessions _ _ Hk1) as Hl.
  destruct (IH s1) as (s' & -> & Hinv' & Hk'); [done|by rewrite Hl|by rewrite Hl|].
  exists s'. split; [done|]. split; [done|by eapply kept_trans].
Qed.

Lemma table_indices s : Forall (fun k => (k < length (im_sessions s))%nat) (seq 0 (length (im_sessions s))).
Proof. apply Forall_forall. intros k Hk. apply in_seq in Hk. lia. Qed.

(** ** Fan-out *)

Lemma sendable_not_vacant st : sendable st = true -> vacant st = false.
Proof. intros Hs. apply live_not_vacant. unfold live. rewrite Hs. apply orb_true_r. Qed.

(** A header context is written for a sequence that is not assigned yet. *)
Lemma write_context_ok d fanned x f :
  0 < d -> session_ok d fanned x ->
  cw_next_sequence (sn_window (ss_engine x)) - cw_credited_end (sn_window (ss_engine x)) < d ->
  let e := ss_engine x in
  let l := <[slot_index d (cw_next_sequence (sn_window e)) := f]> (sn_inflight e) in
  Z.of_nat (length l) = d /\
  slots_between d l (cw_credited_end (sn_window e)) (cw_next_sequence (sn_window e)) = held_slots d x /\
  slots_between d l (cw_credited_end (sn_window e)) (cw_next_sequence (sn_window e) + 1) =
    held_slots d x ++ [if_slot_index f].
Proof.
  intros Hd [? ? ? ? ?] Hroom e l. unfold l. rewrite length_insert. split; [done|].
  unfold held_slots. fold e. split; [apply slots_between_insert; unfold e; lia|].
  apply slots_between_submit; unfold e; done || lia.
Qed.

Lemma can_submit_room d fanned x :
  session_ok d fanned x -> fanned < 2 ^ 64 -> can_submit (sn_window (ss_engine x)) = true ->
  cw_next_sequence (sn_window (ss_engine x)) - cw_credited_end (sn_window (ss_engine x)) < d.
Proof.
  intros [] Hf. unfold can_submit, outstanding. rewrite wrap_small by (unfold in_range; lia).
  intros. bool_to_prop. lia.
Qed.

(** Only session [k] of the table is different. *)
Definition only_session (k : nat) (s s' : Impl) : Prop :=
  forall j, j <> k -> im_sessions s' !! j = im_sessions s !! j.

Lemma only_put k s x : only_session k s (put_session s k x).
Proof. intros j Hj. simpl. by rewrite list_lookup_insert_ne. Qed.

Lemma submit_to_inv b fanned hand held items s k x item env :
  pub_inv b fanned (it_slot_index item :: hand) held items s -> im_sessions s !! k = Some x ->
  sendable (ss_state x) = true -> can_submit (sn_window (ss_engine x)) = true ->
  cw_next_sequence (sn_window (ss_engine x)) + 1 <= fanned ->
  exists (ok : bool) s', submit_to s k item env = Val (ok, s') /\ kept s s' /\ only_session k s s' /\
    pub_inv b fanned (if ok then hand else it_slot_index item :: hand) held items s'.
Proof.
  intros Hinv Hx Hsend Hcan Hnext.
  destruct (inv_session _ _ _ _ _ _ _ _ Hinv Hx) as [Hok Hb]. pose proof Hok as [Hw Hn Hwd Hl _].
  pose proof (pi_config _ _ _ _ _ _ Hinv) as Hc. pose proof (cf_depth _ Hc) as Hd.
  pose proof (can_submit_room _ _ _ Hok ltac:(lia) Hcan) as Hroom.
  unfold submit_to. rewrite (session_at_some _ _ _ Hx), bind_val.
  destruct (inflight_at_ok s x _ (cw_next_sequence (sn_window (ss_engine x))) Hc eq_refl Hl) as (g & -> & _).
  rewrite bind_val. match goal with |- context [encode_FrameHeader ?h] =>
    destruct (encode_FrameHeader_total h) as [data ->] end.
  set (f := mkInFlight data (it_slot_index item) (it_ordinal item)).
  destruct (write_context_ok (depth s) fanned x f ltac:(lia) Hok Hroom) as (Hl' & Hsame & Hsnoc).
  change (Z.to_nat (cw_next_sequence (sn_window (ss_engine x)) mod depth s))
    with (slot_index (depth s) (cw_next_sequence (sn_window (ss_engine x)))).
  set (l := <[_ := f]> _) in *. cbv zeta.
  set (x1 := ss_with_engine x (sn_with_inflight (ss_engine x) l)).
  set (x2 := if en_close env then snd (begin_expiry x1 ER_Close) else x1).
  assert (ss_engine x2 = sn_with_inflight (ss_engine x) l) as He2
    by (unfold x2; destruct (en_close env); [apply begin_expiry_engine|done]).
  pose proof (sendable_not_vacant _ Hsend) as Hvx.
  assert (vacant (ss_state x2) = false) as Hv2.
  { unfold x2. destruct (en_close env); [|done].
    by rewrite begin_expiry_vacant. }
  assert (pub_inv b fanned (it_slot_index item :: hand) held items
    (put_session s k (snd (begin_expiry x2 ER_Transport)))) as Hfail.
  { eapply inv_swap; [exact Hinv|exact Hx| |apply Hinv|].
    - constructor; rewrite begin_expiry_engine, He2; simpl; try done.
      rewrite begin_expiry_vacant, Hv2. done.
    - intros i. unfold held_slots. rewrite begin_expiry_engine, He2. simpl. fold (held_slots (depth s) x).
      by rewrite Hsame. }
  assert (forall x', cw_next_sequence (sn_window (ss_engine x')) = cw_next_sequence (sn_window (ss_engine x)) + 1 ->
    cw_credited_end (sn_window (ss_engine x')) = cw_credited_end (sn_window (ss_engine x)) ->
    cw_width (sn_window (ss_engine x')) = cw_width (sn_window (ss_engine x)) ->
    sn_inflight (ss_engine x') = l -> vacant (ss_state x') = false ->
    pub_inv b fanned hand held items (put_session s k x')) as Hdone.
  { intros x' E1 E2 E3 E4 E5. unfold can_submit, outstanding in Hcan.
    rewrite wrap_small in Hcan by (unfold in_range; lia). bool_to_prop.
    eapply inv_swap; [exact Hinv|exact Hx| |pose proof (pi_hand _ _ _ _ _ _ Hinv); simpl in *; lia|].
    - constructor; rewrite ?E1, ?E2, ?E3, ?E4, ?E5; done || lia.
    - intros i. unfold held_slots. rewrite E1, E2, E4, Hsnoc, occurrences_app, !occurrences_cons.
      fold (held_slots (depth s) x). unfold occurrences at 3. simpl. lia. }
  unfold note_submitted. cbn [sn_window sn_with_inflight]. rewrite Hcan.
  rewrite wrap_small by (unfold in_range; lia).
  set (x3 := ss_with_engine x2 _).
  assert (vacant (ss_state (if bool_decide (ss_state x3 = SS_Armed)
    then ss_with_state x3 SS_Active (ss_end_reason x3) else x3)) = false) as Hv3
    by (case_bool_decide; done).
  destruct (en_send env); eexists _, _; (split; [done|]).
  - split; [eapply kept_trans; [apply kept_count|eapply kept_put; [exact Hx|]; by rewrite Hvx]|]. split; [apply (only_put k s)|].
    eapply inv_same_sessions; [..|exact Hfail]; done.
  - split; [eapply kept_trans; [apply kept_count|]; eapply kept_trans; [apply kept_count|eapply kept_put; [exact Hx|]; by rewrite Hvx]|].
    split; [apply (only_put k s)|].
    eapply inv_same_sessions; [..|apply Hdone]; try done; case_bool_decide; done.
  - split; [eapply kept_trans; [apply kept_count|eapply kept_put; [exact Hx|]; by rewrite Hvx]|]. split; [apply (only_put k s)|].
    eapply inv_same_sessions; [..|apply Hdone]; try done; case_bool_decide; done.
Qed.

(** The reference count of a slot in hand goes up and down with the hand. *)
Lemma inv_add_ref b fanned i hand held items s :
  pub_inv b fanned (i :: hand) held items s -> (length hand < 1023)%nat ->
  exists n, slot_ref s i = Val n /\ pub_inv b fanned (i :: i :: hand) held items (set_slot_ref s i (u32 (n + 1))).
Proof.
  intros Hinv Hlen. pose proof (inv_holders_bound _ _ _ _ _ _ Hinv) as Hb.
  destruct Hinv as [[? ? ? ?] Hh [free Ho] ? ? ?]. unfold slot_ref.
  set (hold := (i :: hand) ++ holders _ _) in *.
  assert (i ∈ hold) as Hin by (unfold hold; set_solver). pose proof (ow_holders _ _ _ _ _ _ Ho i Hin).
  rewrite (ow_refs _ _ _ _ _ _ Ho) by done. eexists. split; [done|]. pose proof (occurrences_bound i hold).
  rewrite wrap_small by (unfold in_range; lia).
  constructor; [by constructor|simpl in *; lia| |done..].
  exists free. cbn [im_slot_refs im_slots set_slot_ref with_slots]. rewrite length_insert.
  by apply (add_holder _ _ _ hold).
Qed.

Lemma inv_drop_ref b fanned i hand held items s :
  pub_inv b fanned (i :: i :: hand) held items s ->
  exists n, slot_ref s i = Val n /\ pub_inv b fanned (i :: hand) held items (set_slot_ref s i (u32 (n - 1))).
Proof.
  intros Hinv. pose proof (inv_holders_bound _ _ _ _ _ _ Hinv) as Hb.
  destruct Hinv as [[? ? ? ?] Hh [free Ho] ? ? ?]. unfold slot_ref.
  set (hold := (i :: hand) ++ holders (depth s) (im_sessions s)) in *.
  change ((i :: i :: hand) ++ holders (depth s) (im_sessions s)) with (i :: hold) in *.
  assert (i ∈ hold) as Hin by (unfold hold; set_solver).
  assert (i < length (im_slot_refs s))%nat by (apply (ow_holders _ _ _ _ _ _ Ho); set_solver).
  rewrite (ow_refs _ _ _ _ _ _ Ho) by done. eexists. split; [done|].
  rewrite occurrences_cons, decide_True by done. pose proof (occurrences_bound i hold). cbn [length] in Hb.
  replace (occurrences i hold + 1 - 1) with (occurrences i hold) by lia.
  rewrite wrap_small by (unfold in_range; lia).
  constructor; [by constructor|simpl in *; lia| |done..].
  exists free. cbn [im_slot_refs im_slots set_slot_ref with_slots]. rewrite length_insert.
  by apply (drop_shared _ _ _ hold).
Qed.

Lemma fan_out_session_inv b fanned held items s k x item env :
  pub_inv b fanned [it_slot_index item] held items s -> im_sessions s !! k = Some x ->
  cw_next_sequence (sn_window (ss_engine x)) + 1 <= fanned ->
  exists s', fan_out_session s k item env = Val s' /\ kept s s' /\ only_session k s s' /\
    pub_inv b fanned [it_slot_index item] held items s'.
Proof.
  intros Hinv Hx Hnext. unfold fan_out_session. rewrite (session_at_some _ _ _ Hx), bind_val.
  destruct (sendable (ss_state x)) eqn:Hsend; simpl; [|by exists s].
  set (e := sn_with_processed (ss_engine x) _).
  set (y := ss_with_engine x e).
  assert (forall y, sn_window (ss_engine y) = sn_window (ss_engine x) ->
    sn_inflight (ss_engine y) = sn_inflight (ss_engine x) -> ss_state y = ss_state x ->
    pub_inv b fanned [it_slot_index item] held items (put_session s k y)) as Hq.
  { intros z E1 E2 E3. eapply pub_inv_quiet; [done..|]. by rewrite E3. }
  destruct (can_submit (sn_window (ss_engine x))) eqn:Hcan; simpl.
  2:{ eexists. split; [done|]. rewrite put_put. split; [by eapply kept_put|]. split; [apply only_put|]. by apply Hq. }
  destruct (inv_add_ref _ _ _ _ _ _ _ (Hq y eq_refl eq_refl eq_refl) ltac:(simpl; lia)) as (n & -> & Hinv1).
  rewrite bind_val. set (s1 := set_slot_ref _ _ _) in *.
  destruct (submit_to_inv b fanned [it_slot_index item] held items s1 k y item env Hinv1)
    as (ok & s2 & -> & Hk2 & Ho2 & Hinv2); [by eapply put_session_at|done..|].
  rewrite bind_val. assert (kept s s1) as Hk1 by (eapply kept_trans; [by apply (kept_put s k x y)|by apply kept_same]).
  assert (only_session k s s1) as Ho1 by apply (only_put k s y).
  assert (only_session k s s2) as Ho by (intros j Hj; rewrite Ho2, Ho1; done).
  destruct ok.
  - exists s2. split; [done|]. split; [by eapply kept_trans|]. done.
  - destruct (inv_drop_ref _ _ _ _ _ _ _ Hinv2) as (m & -> & Hinv3). rewrite bind_val.
    eexists. split; [done|]. split; [|by split].
    eapply kept_trans; [exact Hk1|]. eapply kept_trans; [exact Hk2|done].
Qed.

Lemma fan_out_loop_inv b fanned held items ks s item env :
  pub_inv b fanned [it_slot_index item] held items s -> NoDup ks ->
  (forall k, k ∈ ks -> exists x, im_sessions s !! k = Some x /\
     cw_next_sequence (sn_window (ss_engine x)) + 1 <= fanned) ->
  exists s', fan_out_loop ks s item env = Val s' /\ kept s s' /\
    pub_inv b fanned [it_slot_index item] held items s'.
Proof.
  revert s. induction ks as [|k ks IH]; intros s Hinv Hnd Hks; [by exists s|].
  apply list.NoDup_cons in Hnd as [Hk Hnd]. destruct (Hks k) as (x & Hx & Hn); [set_solver|]. simpl.
  destruct (fan_out_session_inv _ _ _ _ _ _ _ _ (env k) Hinv Hx Hn) as (s1 & -> & Hk1 & Ho1 & Hinv1).
  rewrite bind_val. destruct (IH s1) as (s' & -> & Hk' & Hinv'); [done|done| |].
  - intros j Hj. rewrite Ho1 by (intros ->; done). apply Hks. set_solver.
  - exists s'. split; [done|]. split; [by eapply kept_trans|done].
Qed.

Lemma fan_out_inv b fanned held items s item env :
  pub_inv b fanned [] (it_slot_index item :: held) items s ->
  fanned + 1 + Z.of_nat (length items) + Z.of_nat b < 2 ^ 64 ->
  exists s', fan_out s item env = Val s' /\ kept s s' /\ pub_inv b (fanned + 1) [] held items s'.
Proof.
  intros Hinv Hb. unfold fan_out.
  pose proof Hinv as [[? ? ? ?] _ [free Ho] Hq Hs ?]. simpl in Ho.
  assert (it_slot_index item < length (im_slot_refs s))%nat as Hi.
  { apply (ow_apart _ _ _ _ _ _ Ho). set_solver. }
  unfold slot_ref at 1. destruct (lookup_lt_is_Some_2 _ _ Hi) as [n0 ->]. rewrite bind_val.
  set (s1 := set_slot_ref s _ 1).
  assert (pub_inv b (fanned + 1) [it_slot_index item] held items s1) as Hinv1.
  { constructor; [by constructor|simpl; lia| |done| |lia].
    - exists free. cbn [s1 im_slot_refs im_slots set_slot_ref with_slots]. rewrite length_insert.
      by apply (first_holder _ _ _ (holders (depth s) (im_sessions s))).
    - eapply Forall_impl; [|exact Hs]. intros y []. by constructor; try lia. }
  destruct (fan_out_loop_inv b (fanned + 1) held items (seq 0 (length (im_sessions s1))) s1 item env)
    as (s2 & -> & Hk2 & Hinv2); [done|apply NoDup_seq| |].
  { intros k Hk. apply elem_of_seq in Hk. destruct (lookup_lt_is_Some_2 (im_sessions s1) k) as [x Hx]; [lia|].
    exists x. split; [done|]. pose proof (Forall_lookup_1 _ _ _ _ Hs Hx) as []. lia. }
  rewrite bind_val. destruct (slot_ref_in_hand _ _ _ _ _ _ _ Hinv2) as [n ->]. rewrite bind_val.
  set (s3 := if _ && _ then _ else s2).
  assert (pub_inv b (fanned + 1) [it_slot_index item] held items s3 /\ kept s2 s3) as [Hinv3 Hk3].
  { unfold s3. destruct (_ && _); [|done]. split; [|done]. by eapply inv_same_sessions; [..|exact Hinv2]. }
  destruct (pub_inv_release _ _ _ _ _ _ _ Hinv3) as (s4 & -> & Hu4 & _ & Hinv4). rewrite bind_val.
  destruct (inv_refresh _ _ _ _ _ _ Hinv4) as (s5 & -> & Hrg & Hinv5).
  exists s5. split; [done|]. split; [|done]. apply (kept_trans s s1); [done|].
  eapply kept_trans; [exact Hk2|]. eapply kept_trans; [exact Hk3|].
  eapply kept_trans; [by apply kept_untouched|by apply kept_regauged].
Qed.

Lemma inv_weaken b b' fanned hand held items s :
  (b' <= b)%nat -> pub_inv b fanned hand held items s -> pub_inv b' fanned hand held items s.
Proof.
  intros Hle [? ? ? ? ? ?]. constructor; try done; [by eapply acct_weaken|by eapply fifo_repr_weaken|lia].
Qed.

(** What no handler changes. *)
Record steady (s s' : Impl) : Prop := {
  sy_config : im_config s' = im_config s;
  sy_sessions : length (im_sessions s') = length (im_sessions s);
  sy_vacant : forall k x, im_sessions s !! k = Some x -> vacant (ss_state x) = true ->
    exists x', im_sessions s' !! k = Some x' /\ vacant (ss_state x') = true
}.

Lemma kept_steady s s' : kept s s' -> steady s s'.
Proof. by intros []. Qed.
Lemma steady_trans s1 s2 s3 : steady s1 s2 -> steady s2 s3 -> steady s1 s3.
Proof.
  intros [? ? Hv] [? ? Hv']. constructor; try congruence.
  intros k x Hx Hvx. destruct (Hv k x Hx Hvx) as (y & Hy & Hvy). eauto.
Qed.
Lemma steady_same s s' : im_config s' = im_config s -> im_sessions s' = im_sessions s -> steady s s'.
Proof. intros ? Hs. constructor; rewrite ?Hs; eauto. Qed.

Lemma submit_loop_inv n b fanned held items s env :
  pub_inv b fanned [] held items s ->
  exists s' fanned' items', submit_loop n s env = Val s' /\ pub_inv b fanned' [] held items' s' /\
    steady s s' /\ (items' = [] \/ (length items' + n = length items)%nat).
Proof.
  revert fanned items s. induction n as [|n IH]; intros fanned items s Hinv.
  { exists s, fanned, items. split; [done|]. split; [done|]. split; [by apply steady_same|]. right. lia. }
  simpl. pose proof (fifo_pop_law _ _ _ (pi_queue _ _ _ _ _ _ Hinv)) as Hp. destruct items as [|item items].
  { rewrite Hp. exists s, fanned, []. do 2 (split; [done|]). split; [by apply steady_same|]. by left. }
  destruct Hp as (q & -> & Hq & Hcap). set (s1 := set_counter _ _ _).
  pose proof Hinv as [[? ? ? ?] ? [free Ho] ? ? Hf]. simpl in Hf.
  assert (pub_inv b fanned [] (it_slot_index item :: held) items s1) as Hinv1.
  { constructor; [by constructor|done| |done|done|lia]. exists free. simpl.
    eapply owned_permute; [| |exact Ho]; [|done]. simpl. by rewrite Permutation_middle. }
  destruct (fan_out_inv b fanned held items s1 item (env n) Hinv1) as (s2 & -> & Hk2 & Hinv2); [lia|].
  rewrite bind_val. destruct (IH _ _ _ Hinv2) as (s' & fanned' & items' & -> & Hinv' & Hst & Hlen).
  exists s', fanned', items'. split; [done|]. split; [done|]. split.
  - eapply steady_trans; [|exact Hst]. eapply steady_trans; [|by apply kept_steady]. by apply steady_same.
  - destruct Hlen as [|Hlen]; [by left|]. right. simpl. lia.
Qed.
End Safety.
