(* ===== verification/PublisherRuns.v ===== *)
(** * Runs of a publisher

    The application's handles, the engine thread and the control path composed:
    any sequence of their operations, with [Open] split where the source drops
    [session_mutex].  The theorems are about every reachable state. *)
From stdpp Require Import gmap list sets.
From S2P Require Import Prelude Enums Limits ByteOrder Geometry Protocol DataPlane Config.
From S2P Require Import CreditWindow BoundedQueue DeliveryQueue PinnedLedger RegisteredRing ProducerSlots.
From S2P Require Import Publisher Coordination PublisherSafety.
#[local] Open Scope Z_scope.

(** ** Handles *)

Definition own (h : SlotHandle) : list nat := if sh_slots h then [sh_index h] else [].

(** The slots the application's handle objects own. *)
Definition held_of (hs : list SlotHandle) : list nat := mjoin (own <$> hs).

Lemma held_of_cons h hs : held_of (h :: hs) = own h ++ held_of hs.
Proof. done. Qed.

Lemma held_of_app hs hs' : held_of (hs ++ hs') = held_of hs ++ held_of hs'.
Proof. unfold held_of. by rewrite fmap_app, join_app. Qed.

Lemma held_of_insert hs i h h' :
  hs !! i = Some h -> held_of (<[i := h']> hs) ++ own h ≡ₚ held_of hs ++ own h'.
Proof.
  revert i. induction hs as [|g hs IH]; intros [|i] Hi; simplify_eq/=; rewrite !held_of_cons.
  - rewrite (Permutation_app_comm (own h')), <- !app_assoc, (Permutation_app_comm (own h')).
    rewrite (app_assoc (held_of hs)), (Permutation_app_comm (held_of hs)). by rewrite <- app_assoc.
  - rewrite <- !app_assoc. by rewrite (IH i Hi).
Qed.

Section Runs.
Context {QS QP : Type} `{BoundedFifo QS nat} `{BoundedFifo QP PublishItem}.
Abbreviation Impl := (Impl QS QP).
Implicit Types s : Impl.

(** ** The application *)

Lemma inv_ext b fanned hand held held' items s :
  held ≡ₚ held' -> pub_inv b fanned hand held items s -> pub_inv b fanned hand held' items s.
Proof.
  intros Hp [? ? Ha ? ? ?]. constructor; try done. eapply acct_ext; [|exact Ha]. by rewrite Hp.
Qed.

(** A handle gives its slot back. *)
Lemma inv_handle_reset b fanned held items s h :
  pub_inv b fanned [] (own h ++ held) items s ->
  exists slots, handle_reset (im_slots s) h = Val (slots, SlotHandle_default) /\
    pub_inv b fanned [] held items (with_slots s slots (im_slot_refs s)).
Proof.
  intros Hinv. unfold handle_reset, own in *. destruct (sh_slots h); simpl in Hinv.
  2:{ exists (im_slots s). split; [done|]. eapply inv_same_sessions; [..|exact Hinv]; done. }
  destruct Hinv as [[? ? ? ?] ? [free Ho] ? ? ?]. simpl in Ho.
  pose proof (owned_free_length _ _ _ _ _ _ Ho) as Hl. simpl in Hl.
  destruct (length (im_slot_refs s) - length free)%nat as [|m] eqn:Hm; [lia|].
  rewrite Nat.add_succ_r in Ho.
  destruct (release_owned _ _ _ _ _ _ _ Ho) as (slots & -> & Hring & Hown). rewrite bind_val.
  exists slots. split; [done|]. unfold depth in *.
  constructor; unfold depth; cbn [im_slots with_slots]; rewrite ?Hring; try done.
  - constructor; unfold depth; cbn [im_slots with_slots]; by rewrite ?Hring.
  - exists (free ++ [sh_index h]). cbn [im_slots im_slot_refs with_slots]. rewrite length_app. simpl.
    by replace (b + (length (im_slot_refs s) - (length free + 1)))%nat with (b + m)%nat by lia.
Qed.

Lemma try_acquire_inv b fanned held items s :
  pub_inv (S b) fanned [] held items s ->
  let '(h, s') := publisher_try_acquire s in
  pub_inv b fanned [] (own h ++ held) items s' /\ steady s s'.
Proof.
  intros Hinv. unfold publisher_try_acquire.
  pose proof Hinv as [[? ? ? ?] ? [free Ho] ? ? ?]. simpl in Ho.
  pose proof (owned_free_length _ _ _ _ _ _ Ho) as Hl.
  pose proof (acquire_owned _ _ _ _ _ _ Ho) as Ha.
  destruct (slots_try_acquire (im_slots s)) as [[i|] slots].
  - destruct Ha as (free' & -> & Hring & Hown). simpl in Hl. split; [|by apply steady_same].
    destruct (inv_weaken (S b) b _ _ _ _ _ ltac:(lia) Hinv) as [? ? _ ? ? ?]. unfold depth in *.
    constructor; unfold depth; cbn [im_slots with_slots]; rewrite ?Hring; try done.
    + constructor; unfold depth; cbn [im_slots with_slots]; by rewrite ?Hring.
    + exists free'. cbn [im_slots im_slot_refs with_slots own sh_slots sh_index app].
      eapply owned_weaken; [|exact Hown]. simpl. lia.
  - destruct Ha as [-> ->]. split; [|by apply steady_same]. simpl.
    eapply inv_same_sessions; [..|eapply (inv_weaken (S b) b); [lia|exact Hinv]]; done.
Qed.

Lemma inv_drop_lease b fanned held items s s' h :
  pub_inv b fanned [] (own h ++ held) items s -> im_slots s' = im_slots s ->
  im_slot_refs s' = im_slot_refs s -> im_config s' = im_config s ->
  im_publish_queue s' = im_publish_queue s -> im_sessions s' = im_sessions s ->
  exists s'', drop_lease s' h = Val (s'', SlotHandle_default) /\
    pub_inv b fanned [] held items s'' /\ steady s s''.
Proof.
  intros Hinv Hsl Hr Hc Hq Hx. unfold drop_lease.
  assert (pub_inv b fanned [] (own h ++ held) items s') as Hinv' by (eapply inv_same_sessions; done).
  destruct (inv_handle_reset _ _ _ _ _ _ Hinv') as (slots & -> & Hinv''). rewrite bind_val.
  eexists. split; [done|]. split; [done|]. by apply steady_same.
Qed.

(** What a call of [publish] with handle [h] may do. *)
Definition publishes b fanned held s h (r : ores (PublishResult * Impl * SlotHandle)) : Prop :=
  exists res s' h' items', r = Val (res, s', h') /\
    pub_inv b fanned [] (own h' ++ held) items' s' /\ steady s s' /\
    (h' = h \/ h' = SlotHandle_default).

Lemma publish_inv b fanned held items s h meta now contended :
  pub_inv (S b) fanned [] (own h ++ held) items s ->
  publishes b fanned held s h (publish s h meta now contended).
Proof.
  intros Hinv. pose proof (inv_weaken (S b) b _ _ _ _ _ ltac:(lia) Hinv) as Hw. unfold publish.
  assert (forall (res : PublishResult) s', im_slots s' = im_slots s -> im_slot_refs s' = im_slot_refs s ->
    im_config s' = im_config s -> im_publish_queue s' = im_publish_queue s ->
    im_sessions s' = im_sessions s ->
    publishes b fanned held s h (let! (s, lease) := drop_lease s' h in Val (res, s, lease))) as Hdrop.
  { intros res s' E1 E2 E3 E4 E5.
    destruct (inv_drop_lease _ _ _ _ s s' h Hw E1 E2 E3 E4 E5) as (s'' & -> & Hinv'' & Hst).
    exists res, s'', SlotHandle_default, items. auto. }
  assert (forall (res : PublishResult) s', im_slots s' = im_slots s -> im_slot_refs s' = im_slot_refs s ->
    im_config s' = im_config s -> im_publish_queue s' = im_publish_queue s ->
    im_sessions s' = im_sessions s -> publishes b fanned held s h (Val (res, s', h))) as Hkeep.
  { intros res s' E1 E2 E3 E4 E5. exists res, s', h, items. split; [done|].
    split; [by eapply inv_same_sessions|]. split; [by apply steady_same|auto]. }
  destruct (sh_slots h) eqn:Hown; simpl; [|by apply Hkeep].
  destruct (im_running s); simpl; [|by eapply Hdrop].
  destruct (resolve meta (pc_max_frame_bytes (im_config s))) as [resolved status].
  destruct (bool_decide (status <> Ok) || _); [by eapply Hdrop|].
  destruct ((0 <? _) && negb _); [by eapply Hdrop|].
  destruct (ad_armed_sessions (im_admission s) =? 0); [by eapply Hdrop|].
  destruct contended; [by apply Hkeep|].
  destruct (bool_decide (_ = AllActive) && _); [by apply Hkeep|].
  destruct (bool_decide (_ = BestEffort) && _); [by eapply Hdrop|].
  pose proof (fifo_push_law _ _ _ (make_item s h resolved now) (pi_queue _ _ _ _ _ _ Hinv)) as Hp.
  case_bool_decide; [|rewrite Hp; by apply Hkeep].
  destruct Hp as (q & -> & Hq & _). eexists _, _, SlotHandle_default, _. split; [done|].
  split; [|split; [|by right]].
  - destruct Hinv as [[? ? ? ?] ? [free Ho] _ ? Hf].
    match goal with |- pub_inv _ _ _ _ _ ?t => set (s' := t) end.
    assert (im_config s' = im_config s /\ im_slots s' = im_slots s /\ im_slot_refs s' = im_slot_refs s /\
      im_publish_queue s' = q /\ im_sessions s' = im_sessions s) as (E1 & E2 & E3 & E4 & E5)
      by (unfold s'; by destruct (_ <? _)).
    clearbody s'. unfold depth in *.
    constructor; unfold depth; rewrite ?E1, ?E2, ?E3, ?E4, ?E5; try done.
    + constructor; unfold depth; by rewrite ?E1, ?E2, ?E5.
    + exists free. rewrite ?E2, ?E3, ?E5. eapply owned_weaken; [|eapply owned_permute; [| |exact Ho]]; [lia| |done].
      rewrite fmap_app. cbn [own SlotHandle_default sh_slots app fmap list_fmap it_slot_index make_item].
      unfold own. rewrite Hown. simpl. rewrite app_assoc. by rewrite Permutation_cons_append.
    + rewrite length_app. simpl. lia.
  - apply steady_same; by destruct (_ <? _).
Qed.

(** ** The control path *)

Lemma select_seat_some xs j best k :
  select_seat xs j best = Some k ->
  fst <$> best = Some k \/
  exists x, (j <= k)%nat /\ xs !! (k - j)%nat = Some x /\ vacant (ss_state x) = true /\
    (ss_state x = SS_Unknown \/ ss_state x = SS_Closed /\ ss_poisoned x = false).
Proof.
  revert j best. induction xs as [|x xs IH]; intros j best; simpl; [by left|].
  case_bool_decide as Hu.
  { intros [= ->]. right. exists x. rewrite Nat.sub_diag, Hu. do 3 (split; [done|]). by left. }
  assert (forall best', select_seat xs (S j) best' = Some k -> (fst <$> best' = fst <$> best \/
    (best' = Some (j, ss_retired_seq x) /\ ss_state x = SS_Closed /\ ss_poisoned x = false)) ->
    fst <$> best = Some k \/ exists y, (j <= k)%nat /\ (x :: xs) !! (k - j)%nat = Some y /\
      vacant (ss_state y) = true /\ (ss_state y = SS_Unknown \/ ss_state y = SS_Closed /\ ss_poisoned y = false)) as Hgo.
  { intros best' Hs Hb. destruct (IH _ _ Hs) as [Hf|(y & Hle & Hy & Hrest)].
    - destruct Hb as [Hb|(-> & Hc & Hp)]; [left; congruence|]. right. simplify_eq/=.
      exists x. rewrite Nat.sub_diag, Hc. do 3 (split; [done|]). by right.
    - right. exists y. split; [lia|]. split; [|done]. by replace (k - j)%nat with (S (k - S j)) by lia. }
  case_bool_decide as Hc; simpl; [eauto|]. destruct (ss_poisoned x) eqn:Hp; [eauto|].
  intros Hs. apply Hgo with (1 := Hs).
  destruct (match best with Some (_, oldest) => _ | None => true end); [right; auto|by left].
Qed.

(** What [open_begin] promises of the seat and the grant it hands on. *)
Definition seat_promised s (k : nat) (g : GeometryBlock) : Prop :=
  (k < length (im_sessions s))%nat /\ 0 <= gb_credit_window g <= pc_credit_window (im_config s).

Lemma steady_seat s s' k g : steady s s' -> seat_promised s k g -> seat_promised s' k g.
Proof. intros [Hc Hl _]. unfold seat_promised. by rewrite Hc, Hl. Qed.

(** Nobody has the seat: what [open_begin] found, and what may have changed since. *)
Definition seat_vacant s (k : nat) : Prop :=
  exists x, im_sessions s !! k = Some x /\ vacant (ss_state x) = true.

(** The second half of an [Open] claims its seat. *)
Definition claims_seat (env : open_env) : bool :=
  oe_connected env && bool_decide (is_Some (oe_session_id env)) &&
  bool_decide (is_Some (oe_stream_id env)) && bool_decide (is_Some (oe_probe_token env)).

Lemma open_begin_inv b fanned held items s request :
  pub_inv b fanned [] held items s -> 0 <= oq_requested_credit_window request ->
  let '(r, s') := open_begin s request in
  pub_inv b fanned [] held items s' /\ steady s s' /\
  match r with inr (k, g) => seat_vacant s' k /\ seat_promised s' k g | inl _ => True end.
Proof.
  intros Hinv Hreq. unfold open_begin.
  assert (steady s s) by (by apply steady_same).
  do 5 (match goal with |- context [if ?c then _ else _] => destruct c; [done|] end).
  destruct (select_seat (im_sessions s) 0 None) as [k|] eqn:Hs.
  - split; [done|]. split; [done|]. apply select_seat_some in Hs as [?|(x & _ & Hx & Hv & _)]; [done|].
    rewrite Nat.sub_0_r in Hx. split; [by exists x|]. split; [by eapply lookup_lt_Some|].
    pose proof (pi_config _ _ _ _ _ _ Hinv) as []. simpl. lia.
  - split; [by apply inv_count|]. split; [by apply steady_same|done].
Qed.

Lemma claimed_ok d fanned s x request g id stream token now :
  0 <= fanned -> 0 <= gb_credit_window g <= d -> session_ok d fanned x ->
  session_ok d fanned (claimed_seat s x request g id stream token now) /\
  held_slots d (claimed_seat s x request g id stream token now) = [].
Proof.
  intros Hf Hg []. split; [constructor; simpl; done || lia|]. apply slots_between_nil.
Qed.

(** Claiming a seat drops what its session held: with nobody in it, nothing. *)
Lemma open_finish_claims b fanned held items s k g request env x :
  pub_inv b fanned [] held items s -> seat_promised s k g -> im_sessions s !! k = Some x ->
  claims_seat env = true ->
  exists r s', open_finish s k g request env = Val (r, s') /\
    pub_inv b fanned (held_slots (depth s) x) held items s' /\
    im_config s' = im_config s /\ length (im_sessions s') = length (im_sessions s).
Proof.
  intros Hinv [_ Hg] Hx Hcl. unfold open_finish. unfold claims_seat in Hcl.
  destruct (oe_connected env); [|done]. cbn [negb]. rewrite (session_at_some _ _ _ Hx), bind_val. cbv zeta.
  destruct (oe_session_id env) as [id|]; [|done]. destruct (oe_stream_id env) as [stream|]; [|done].
  destruct (oe_probe_token env) as [token|]; [|done].
  eexists _, _. split; [done|]. split; [|split; [done|apply length_insert]]. apply inv_count.
  destruct (inv_session _ _ _ _ _ _ _ _ Hinv Hx) as [Hok _]. pose proof (pi_config _ _ _ _ _ _ Hinv) as [].
  pose proof (pi_fanned _ _ _ _ _ _ Hinv). pose proof (held_slots_length _ _ _ Hok).
  set (x0 := ss_with_state x (ss_state x) ER_None).
  assert (session_ok (depth s) fanned x0) as Hok0 by (by destruct Hok).
  destruct (claimed_ok (depth s) fanned s x0 request g id stream token (oe_now_ms env)
    ltac:(lia) ltac:(lia) Hok0) as [Hclm Hh].
  eapply inv_swap; [done|done|exact Hclm|lia|]. intros i. rewrite Hh. unfold occurrences at 2 3. simpl. lia.
Qed.

Lemma open_finish_inv b fanned held items s k g request env :
  pub_inv b fanned [] held items s -> seat_promised s k g -> (claims_seat env = true -> seat_vacant s k) ->
  exists r s', open_finish s k g request env = Val (r, s') /\ pub_inv b fanned [] held items s' /\
    im_config s' = im_config s /\ length (im_sessions s') = length (im_sessions s).
Proof.
  intros Hinv Hseat Hv. destruct (claims_seat env) eqn:Hcl.
  - destruct (Hv eq_refl) as (x & Hx & Hvx).
    destruct (open_finish_claims b fanned held items s k g request env x Hinv Hseat Hx Hcl)
      as (r & s' & Hf & Hinv' & Hrest). exists r, s'. split; [done|]. split; [|done].
    destruct (inv_session _ _ _ _ _ _ _ _ Hinv Hx) as [Hok _]. revert Hinv'.
    unfold held_slots. by rewrite (so_vacant _ _ _ Hok Hvx), slots_between_nil.
  - destruct Hseat as [Hk _]. apply lookup_lt_is_Some_2 in Hk as [x Hx].
    unfold open_finish. unfold claims_seat in Hcl. destruct (oe_connected env); simpl; [|by eexists _, _].
    rewrite (session_at_some _ _ _ Hx), bind_val. cbv zeta.
    destruct (oe_session_id env) as [id|]; [|eexists _, _; split; [done|]; split;
      [by eapply pub_inv_quiet|split; [done|apply length_insert]]].
    destruct (oe_stream_id env) as [stream|]; [|eexists _, _; split; [done|]; split;
      [by eapply pub_inv_quiet|split; [done|apply length_insert]]].
    destruct (oe_probe_token env) as [token|]; [|eexists _, _; split; [done|]; split;
      [by eapply pub_inv_quiet|split; [done|apply length_insert]]].
    by rewrite !bool_decide_eq_true_2 in Hcl.
Qed.

Lemma session_for_id_some s id k :
  session_for_id s id = Some k ->
  exists x, im_sessions s !! k = Some x /\ ss_state x <> SS_Unknown /\ si_id (ss_identity x) = id.
Proof.
  unfold session_for_id. intros Hf. apply find_session_some in Hf as (x & _ & Hx & Hp).
  rewrite Nat.sub_0_r in Hx. apply andb_true_iff in Hp as [Hp1 Hp2].
  apply bool_decide_eq_true in Hp1, Hp2. eauto.
Qed.

Lemma handle_renew_inv b fanned held items s request now :
  pub_inv b fanned [] held items s ->
  exists r s', handle_renew s request now = Val (r, s') /\ pub_inv b fanned [] held items s' /\ steady s s'.
Proof.
  intros Hinv. unfold handle_renew.
  assert (steady s s) by (by apply steady_same).
  destruct (session_for_id s (nq_session_id request)) as [k|] eqn:Hk; [|by eexists _, _].
  apply session_for_id_some in Hk as (x & Hx & _). rewrite (session_at_some _ _ _ Hx), bind_val.
  destruct (bool_decide _ || _); [by eexists _, _|].
  assert (forall s1 c y, im_sessions s1 = im_sessions s -> kept s s1 -> pub_inv b fanned [] held items s1 ->
    ss_engine y = ss_engine x -> ss_state y = ss_state x ->
    pub_inv b fanned [] held items (count (put_session s1 k y) c) /\ steady s (count (put_session s1 k y) c)) as Hput.
  { intros s1 c y Hs1 Hk1 Hinv1 He Hst. split.
    - apply inv_count. eapply pub_inv_quiet; [done|by rewrite Hs1|by rewrite He..|by rewrite Hst].
    - apply (steady_trans _ s1); [by apply kept_steady|].
      apply (steady_trans _ (put_session s1 k y)); [|by apply steady_same].
      apply kept_steady. eapply kept_put; [by rewrite Hs1|by rewrite Hst]. }
  cbv zeta. destruct (_ <=? _); (eexists _, _; split; [done|]); (apply Hput; [..|done|done]).
  - done.
  - apply kept_refl.
  - done.
  - by destruct (_ <? _).
  - destruct (_ <? _); [apply kept_count|apply kept_refl].
  - destruct (_ <? _); [by apply inv_count|done].
Qed.

Lemma handle_close_inv b fanned held items s request :
  pub_inv b fanned [] held items s ->
  exists r s', handle_close s request = Val (r, s') /\ pub_inv b fanned [] held items s' /\ steady s s'.
Proof.
  intros Hinv. unfold handle_close. assert (steady s s) by (by apply steady_same).
  destruct (session_for_id s (cq_session_id request)) as [k|] eqn:Hk; [|by eexists _, _].
  apply session_for_id_some in Hk as (x & Hx & _). rewrite (session_at_some _ _ _ Hx), bind_val.
  pose proof (inv_begin_expiry _ _ _ _ _ _ _ _ ER_Close Hinv Hx) as Hinv1.
  pose proof (begin_expiry_vacant x ER_Close) as Hv.
  destruct (begin_expiry x ER_Close) as [[|] y]; [|by eexists _, _]. eexists _, _. split; [done|].
  split; [done|]. apply kept_steady. eapply kept_put; [done|]. simpl in Hv. by rewrite Hv.
Qed.

Lemma send_probe_inv b fanned held items s k taken :
  pub_inv b fanned [] held items s -> (k < length (im_sessions s))%nat ->
  exists r s', send_probe s k taken = Val (r, s') /\ pub_inv b fanned [] held items s' /\ steady s s'.
Proof.
  intros Hinv Hk. apply lookup_lt_is_Some_2 in Hk as [x Hx]. unfold send_probe.
  rewrite (session_at_some _ _ _ Hx), bind_val.
  destruct (bool_decide _ || _ || _); [eexists _, _; split; [done|]; split; [done|by apply steady_same]|].
  eexists _, _. split; [done|].
  assert (forall s1, im_sessions s1 = im_sessions s -> pub_inv b fanned [] held items s1 -> kept s s1 ->
    forall y, ss_engine y = sn_with_ep (ss_engine x) (sn_ep (ss_engine x)) true -> ss_state y = ss_state x ->
    pub_inv b fanned [] held items (put_session s1 k y) /\ steady s (put_session s1 k y)) as Hput.
  { intros s1 Hs1 Hinv1 Hk1 y He Hst. split.
    - eapply pub_inv_quiet; [done|by rewrite Hs1|by rewrite He..|by rewrite Hst].
    - eapply steady_trans; [by apply kept_steady|]. apply kept_steady.
      eapply kept_put; [by rewrite Hs1|by rewrite Hst]. }
  destruct taken; apply Hput; try done; [apply kept_refl|by apply inv_count|apply kept_count].
Qed.

(** ** The whole publisher *)

(** [pw_opening]: the [Open]s between their two halves. *)
Record pworld : Type := mkWorld {
  pw_impl : Impl;
  pw_handles : list SlotHandle;
  pw_opening : list (nat * GeometryBlock * OpenRequest)
}.

Inductive publisher_op : Type :=
| PAcquire
| PMove (i : nat)
| PAssign (i j : nat)
| PReset (i : nat)
| PPublish (i : nat) (meta : FrameMetadata) (now_ns : Z) (contended : bool)
| PProgress (evs : list transport_event)
| PFrames (env : nat -> nat -> send_env)
| PSweep (now : Z) (evs : nat -> list transport_event)
| PProbe (k : nat) (taken : bool)
| PShutdown (evs : nat -> list transport_event)
| POpenBegin (request : OpenRequest)
| POpenFinish (j : nat) (env : open_env)
| PRenew (request : RenewRequest) (now : Z)
| PClose (request : CloseRequest).

Definition handle_at (w : pworld) (i : nat) : ores SlotHandle :=
  match pw_handles w !! i with Some h => Val h | None => Fault end.

Definition with_impl (w : pworld) (s : Impl) : pworld := mkWorld s (pw_handles w) (pw_opening w).
Definition with_handles (w : pworld) (s : Impl) hs : pworld := mkWorld s hs (pw_opening w).

Definition pstep (w : pworld) (op : publisher_op) : ores pworld :=
  let s := pw_impl w in
  let hs := pw_handles w in
  let slots_of slots := with_slots s slots (im_slot_refs s) in
  match op with
  | PAcquire => let '(h, s) := publisher_try_acquire s in Val (with_handles w s (hs ++ [h]))
  | PMove i =>
      let! h := handle_at w i in
      let '(h, rest) := handle_move h in
      Val (with_handles w s (<[i := rest]> hs ++ [h]))
  | PAssign i j =>
      let! h := handle_at w i in
      let! other := handle_at w j in
      let! (slots, h, rest) := handle_assign (im_slots s) h other in
      Val (with_handles w (slots_of slots) (<[j := rest]> (<[i := h]> hs)))
  | PReset i =>
      let! h := handle_at w i in
      let! (slots, h) := handle_reset (im_slots s) h in
      Val (with_handles w (slots_of slots) (<[i := h]> hs))
  | PPublish i meta now contended =>
      let! h := handle_at w i in
      let! (_, s, h) := publish s h meta now contended in
      Val (with_handles w s (<[i := h]> hs))
  | PProgress evs => let! s := progress s evs in Val (with_impl w s)
  | PFrames env => let! s := submit_ready_frames s env in Val (with_impl w s)
  | PSweep now evs => let! s := sweep_sessions s now evs in Val (with_impl w s)
  | PProbe k taken => let! (_, s) := send_probe s k taken in Val (with_impl w s)
  | PShutdown evs => let! s := shutdown_all_sessions s evs in Val (with_impl w s)
  | POpenBegin request =>
      match open_begin s request with
      | (inl _, s) => Val (with_impl w s)
      | (inr (k, g), s) => Val (mkWorld s hs (pw_opening w ++ [(k, g, request)]))
      end
  | POpenFinish j env =>
      match pw_opening w !! j with
      | None => Fault
      | Some (k, g, request) =>
          let! (_, s) := open_finish s k g request env in
          Val (mkWorld s hs (delete j (pw_opening w)))
      end
  | PRenew request now => let! (_, s) := handle_renew s request now in Val (with_impl w s)
  | PClose request => let! (_, s) := handle_close s request in Val (with_impl w s)
  end.

(** A program names handles it has and does not assign a handle to itself; a
    completion names a session; a decoded request has a window that is not negative.
    [Open]s may overlap, but one does not claim a seat that is no longer vacant; what
    the code does when it does is said under "Two opens at once". *)
Definition op_ok (w : pworld) (op : publisher_op) : Prop :=
  let n := length (im_sessions (pw_impl w)) in
  let hs := length (pw_handles w) in
  match op with
  | PMove i | PReset i | PPublish i _ _ _ => (i < hs)%nat
  | PAssign i j => (i < hs)%nat /\ (j < hs)%nat /\ i <> j
  | PProgress evs => Forall (event_ok n) evs
  | PSweep _ evs | PShutdown evs => forall k, Forall (event_ok n) (evs k)
  | PProbe k _ => (k < n)%nat
  | POpenBegin request => 0 <= oq_requested_credit_window request
  | POpenFinish j env =>
      match pw_opening w !! j with
      | Some (k, _, _) => claims_seat env = true -> seat_vacant (pw_impl w) k
      | None => False
      end
  | _ => True
  end.

(** [prun n w w']: [n] operations lead from [w] to [w']. *)
Inductive prun : nat -> pworld -> pworld -> Prop :=
| prun_done w : prun 0 w w
| prun_step n w op w1 w2 :
    op_ok w op -> pstep w op = Val w1 -> prun n w1 w2 -> prun (S n) w w2.

(** ** The invariant of a run *)

Definition opening_ok (w : pworld) : Prop :=
  Forall (fun '(k, g, _) => seat_promised (pw_impl w) k g) (pw_opening w).

Definition world_inv (b : nat) (w : pworld) : Prop :=
  (exists fanned items, pub_inv b fanned [] (held_of (pw_handles w)) items (pw_impl w)) /\
  opening_ok w.

Lemma opening_steady w s hs :
  steady (pw_impl w) s -> opening_ok w -> opening_ok (with_handles w s hs).
Proof.
  intros Hs. unfold opening_ok. simpl. apply Forall_impl. intros [[k g] r]. by apply steady_seat.
Qed.

(** A handler that keeps the handles. *)
Lemma world_impl b fanned items w s :
  opening_ok w -> pub_inv b fanned [] (held_of (pw_handles w)) items s -> steady (pw_impl w) s ->
  world_inv b (with_impl w s).
Proof.
  intros Ho Hinv Hs. split; [by exists fanned, items|].
  by apply (opening_steady w s (pw_handles w)).
Qed.

Lemma handle_in w i : (i < length (pw_handles w))%nat ->
  exists h, pw_handles w !! i = Some h /\ handle_at w i = Val h.
Proof.
  intros Hi. destruct (lookup_lt_is_Some_2 _ _ Hi) as [h Hh]. exists h. split; [done|].
  unfold handle_at. by rewrite Hh.
Qed.

Lemma held_split hs i h : hs !! i = Some h -> exists rest, held_of hs ≡ₚ own h ++ rest /\
  (forall h', held_of (<[i := h']> hs) ≡ₚ own h' ++ rest).
Proof.
  intros Hi. exists (held_of (<[i := SlotHandle_default]> hs)). split.
  - rewrite <- (app_nil_r (held_of hs)), <- (held_of_insert hs i h SlotHandle_default Hi).
    apply Permutation_app_comm.
  - intros h'. assert (i < length hs)%nat by (by eapply lookup_lt_Some).
    pose proof (held_of_insert (<[i := h']> hs) i h' SlotHandle_default
      ltac:(by apply list_lookup_insert_eq)) as Hp.
    rewrite list_insert_insert_eq in Hp. change (own SlotHandle_default) with (@nil nat) in Hp.
    rewrite app_nil_r in Hp. rewrite <- Hp. apply Permutation_app_comm.
Qed.

Definition steps_to (b : nat) (r : ores pworld) : Prop := exists w', r = Val w' /\ world_inv b w'.

Lemma step_handle b fanned items w i :
  pub_inv b fanned [] (held_of (pw_handles w)) items (pw_impl w) -> opening_ok w ->
  (i < length (pw_handles w))%nat -> steps_to b (pstep w (PMove i)) /\ steps_to b (pstep w (PReset i)).
Proof.
  intros Hinv Ho Hi. destruct (handle_in w i Hi) as (h & Hh & Hat).
  destruct (held_split _ _ _ Hh) as (rest & Hp & Hp'). split; simpl; rewrite Hat, bind_val.
  - eexists. split; [done|]. split; [|apply opening_steady; [by apply steady_same|done]].
    exists fanned, items. simpl. eapply inv_ext; [|exact Hinv].
    rewrite held_of_app, Hp'. change (held_of [h]) with (own h ++ []).
    rewrite app_nil_r, Hp. simpl. apply Permutation_app_comm.
  - destruct (inv_handle_reset b fanned rest items (pw_impl w) h) as (slots & -> & Hinv');
      [by eapply inv_ext|]. rewrite bind_val. eexists. split; [done|].
    split; [|apply opening_steady; [by apply steady_same|done]].
    exists fanned, items. simpl. eapply inv_ext; [|exact Hinv']. by rewrite Hp'.
Qed.

Lemma step_assign b fanned items w i j :
  pub_inv b fanned [] (held_of (pw_handles w)) items (pw_impl w) -> opening_ok w ->
  (i < length (pw_handles w))%nat -> (j < length (pw_handles w))%nat -> i <> j ->
  steps_to b (pstep w (PAssign i j)).
Proof.
  intros Hinv Ho Hi Hj Hne. destruct (handle_in w i Hi) as (h & Hh & Hat).
  destruct (handle_in w j Hj) as (h' & Hh' & Hat'). simpl. rewrite Hat, bind_val, Hat', bind_val.
  unfold handle_assign. destruct (held_split _ _ _ Hh) as (rest & Hp & Hp').
  destruct (inv_handle_reset b fanned rest items (pw_impl w) h) as (slots & -> & Hinv');
    [by eapply inv_ext|]. rewrite !bind_val. eexists. split; [done|].
  split; [|apply opening_steady; [by apply steady_same|done]].
  exists fanned, items. simpl. eapply inv_ext; [|exact Hinv'].
  destruct (held_split (<[i := h']> (pw_handles w)) j h') as (rest' & Hq & Hq').
  { by rewrite list_lookup_insert_ne. }
  rewrite Hq'. simpl. apply (Permutation_app_inv_l (own h')). by rewrite <- Hq, Hp'.
Qed.

Lemma step_publish b fanned items w i meta now contended :
  pub_inv (S b) fanned [] (held_of (pw_handles w)) items (pw_impl w) -> opening_ok w ->
  (i < length (pw_handles w))%nat -> steps_to b (pstep w (PPublish i meta now contended)).
Proof.
  intros Hinv Ho Hi. destruct (handle_in w i Hi) as (h & Hh & Hat). simpl. rewrite Hat, bind_val.
  destruct (held_split _ _ _ Hh) as (rest & Hp & Hp').
  destruct (publish_inv b fanned rest items (pw_impl w) h meta now contended)
    as (res & s' & h' & items' & -> & Hinv' & Hst & _); [by eapply inv_ext|].
  rewrite bind_val. eexists. split; [done|]. split; [|by apply opening_steady].
  exists fanned, items'. simpl. eapply inv_ext; [|exact Hinv']. by rewrite Hp'.
Qed.

Lemma step_open_begin b fanned items w request :
  pub_inv b fanned [] (held_of (pw_handles w)) items (pw_impl w) -> opening_ok w ->
  0 <= oq_requested_credit_window request -> steps_to b (pstep w (POpenBegin request)).
Proof.
  intros Hinv Ho Hreq. simpl. pose proof (open_begin_inv _ _ _ _ _ request Hinv Hreq) as Hb.
  destruct (open_begin (pw_impl w) request) as [[r|[k g]] s'].
  - destruct Hb as (Hinv' & Hst & _). eexists. split; [done|]. by eapply world_impl.
  - destruct Hb as (Hinv' & Hst & _ & Hp). eexists. split; [done|]. split; [by exists fanned, items|].
    apply Forall_app. split; [by apply (opening_steady w s' (pw_handles w))|by apply Forall_singleton].
Qed.

(** The [Open]s that go on, once one is over. *)
Lemma opening_delete w s hs j :
  opening_ok w -> im_config s = im_config (pw_impl w) ->
  length (im_sessions s) = length (im_sessions (pw_impl w)) ->
  opening_ok (mkWorld s hs (delete j (pw_opening w))).
Proof.
  unfold opening_ok. rewrite !list.Forall_forall. intros Ho Hc Hl o Hin. simpl in *.
  apply list_elem_of_lookup in Hin as [i Hi].
  assert (o ∈ pw_opening w) as Ho'.
  { rewrite list_lookup_delete in Hi. destruct (decide _); by eapply list_elem_of_lookup_2. }
  specialize (Ho o Ho'). destruct o as [[k g] r]. unfold seat_promised in *. by rewrite Hc, Hl.
Qed.

Lemma step_open_finish b fanned items w j env :
  pub_inv b fanned [] (held_of (pw_handles w)) items (pw_impl w) -> opening_ok w ->
  op_ok w (POpenFinish j env) -> steps_to b (pstep w (POpenFinish j env)).
Proof.
  intros Hinv Ho Hok. simpl in *. destruct (pw_opening w !! j) as [[[k g] r]|] eqn:Hj; [|done].
  pose proof (proj1 (Forall_lookup _ _) Ho j _ Hj) as Hseat. simpl in Hseat.
  destruct (open_finish_inv _ _ _ _ _ _ _ r env Hinv Hseat Hok) as (r' & s' & -> & Hinv' & Hc & Hl).
  rewrite bind_val. eexists. split; [done|]. split; [by exists fanned, items|by apply opening_delete].
Qed.

Lemma pstep_inv b w op : world_inv (S b) w -> op_ok w op -> steps_to b (pstep w op).
Proof.
  intros [(fanned & items & Hinv) Ho] Hok.
  pose proof (inv_weaken (S b) b _ _ _ _ _ ltac:(lia) Hinv) as Hw.
  destruct op; simpl in Hok.
  - simpl. pose proof (try_acquire_inv _ _ _ _ _ Hinv) as Ha.
    destruct (publisher_try_acquire (pw_impl w)) as [h s']. destruct Ha as [Ha Hst].
    eexists. split; [done|]. split; [|by apply opening_steady]. exists fanned, items. simpl.
    eapply inv_ext; [|exact Ha]. rewrite held_of_app. change (held_of [h]) with (own h ++ []).
    rewrite app_nil_r. apply Permutation_app_comm.
  - by eapply step_handle.
  - destruct Hok as (? & ? & ?). by eapply step_assign.
  - by eapply step_handle.
  - by eapply step_publish.
  - destruct (progress_inv _ _ _ _ _ _ Hw Hok) as (s' & Hp & Hinv' & Hk). simpl. rewrite Hp, bind_val.
    eexists. split; [done|]. eapply world_impl; [done..|by apply kept_steady].
  - destruct (submit_loop_inv 32 _ _ _ _ _ env Hw) as (s' & f' & items' & Hp & Hinv' & Hst & _).
    simpl. unfold submit_ready_frames. rewrite Hp, bind_val. eexists. split; [done|]. by eapply world_impl.
  - destruct (sweep_loop_inv _ _ _ _ _ _ now evs Hw (table_indices _) Hok) as (s' & Hp & Hinv' & Hk).
    simpl. unfold sweep_sessions. rewrite Hp, bind_val. eexists. split; [done|].
    eapply world_impl; [done..|by apply kept_steady].
  - destruct (send_probe_inv _ _ _ _ _ k taken Hw Hok) as (r & s' & Hp & Hinv' & Hst).
    simpl. rewrite Hp, bind_val. eexists. split; [done|]. by eapply world_impl.
  - assert (pub_inv b fanned [] (held_of (pw_handles w)) items (with_running (pw_impl w) false)) as Hr
      by (eapply inv_same_sessions; [..|exact Hw]; done).
    destruct (shutdown_loop_inv _ _ _ _ _ _ evs Hr (table_indices _) Hok) as (s' & Hp & Hinv' & Hk).
    simpl. unfold shutdown_all_sessions. simpl in Hp. rewrite Hp, bind_val. eexists. split; [done|].
    eapply world_impl; [done..|]. eapply steady_trans; [|by apply kept_steady]. by apply steady_same.
  - by eapply step_open_begin.
  - by eapply step_open_finish.
  - destruct (handle_renew_inv _ _ _ _ _ request now Hw) as (r & s' & Hp & Hinv' & Hst).
    simpl. rewrite Hp, bind_val. eexists. split; [done|]. by eapply world_impl.
  - destruct (handle_close_inv _ _ _ _ _ request Hw) as (r & s' & Hp & Hinv' & Hst).
    simpl. rewrite Hp, bind_val. eexists. split; [done|]. by eapply world_impl.
Qed.

Lemma prun_inv b n w w' : world_inv (n + b) w -> prun n w w' -> world_inv b w'.
Proof.
  intros Hinv Hr. revert Hinv. induction Hr as [w|n w op w1 w2 Hok Hs _ IH]; intros Hinv; [done|].
  destruct (pstep_inv (n + b) w op Hinv Hok) as (w1' & Hs' & Hinv').
  rewrite Hs in Hs'. injection Hs' as <-. by apply IH.
Qed.

(** ** The start *)

Lemma fill_free_repr n q xs l :
  fifo_repr (n + length l) q xs -> Z.of_nat (length xs + length l) <= fifo_capacity q ->
  fifo_repr n (fill_free (QS := QS) q l) (xs ++ l) /\
  fifo_capacity (fill_free (QS := QS) q l) = fifo_capacity q.
Proof.
  revert q xs. induction l as [|i l IH]; intros q xs Hq Hcap; simpl in *.
  { rewrite app_nil_r. by rewrite Nat.add_0_r in Hq. }
  rewrite Nat.add_succ_r in Hq. pose proof (fifo_push_law _ _ _ i Hq) as Hp.
  rewrite bool_decide_eq_true_2 in Hp by lia. destruct Hp as (q' & -> & Hq' & Hcap').
  simpl. destruct (IH q' (xs ++ [i])) as [Hr Hc]; [done|rewrite length_app; simpl; lia|].
  rewrite <- app_assoc in Hr. split; [done|congruence].
Qed.

(** A publisher as the constructor leaves it, over empty rings. *)
Record starts (b : nat) (c : PublisherConfig) (ring : RegisteredRing) (free : QS) (queue : QP) : Prop := {
  st_config : exists c0, resolve_config c0 = Val c;
  st_ring : rr_depth ring = pc_ring_depth c;
  st_free : fifo_repr (b + Z.to_nat (pc_ring_depth c)) free [];
  st_room : pc_ring_depth c <= fifo_capacity free;
  st_queue : fifo_repr b queue [];
  st_bound : Z.of_nat b < 2 ^ 64
}.

Lemma validated_config c :
  PublisherConfig_validate c = Ok ->
  2 <= pc_ring_depth c <= 1024 /\ 1 <= pc_credit_window c <= pc_ring_depth c /\ 1 <= pc_max_sessions c <= 32.
Proof.
  unfold PublisherConfig_validate. intros Hv.
  case_bool_decide as Hc; [by rewrite Hv in Hc|].
  match type of Hv with context [bool_decide (?st <> Ok)] =>
    destruct (bool_decide_reflect (st <> Ok)) as [Hs|_]; [by rewrite Hv in Hs|] end.
  unfold validate_common in Hc. unfold_limits. split_guards. lia.
Qed.

Lemma resolved_config c0 c :
  resolve_config c0 = Val c -> PublisherConfig_validate c = Ok.
Proof.
  unfold resolve_config. intros Hr. apply bind_val_inv in Hr as (c1 & _ & Hr).
  case_bool_decide as Hv; [done|]. by simplify_eq.
Qed.

Lemma start_inv b c ring free queue epoch :
  starts b c ring free queue -> world_inv b (mkWorld (Impl_new c ring free queue epoch) [] []).
Proof.
  intros [[c0 Hc0] Hring Hfree Hroom Hqueue Hb]. apply resolved_config, validated_config in Hc0 as (Hd & Hw & Hm).
  split; [|by apply Forall_nil_2]. exists 0, []. simpl.
  set (n := Z.to_nat (pc_ring_depth c)) in *.
  assert (holders (rr_depth ring) (replicate (Z.to_nat (pc_max_sessions c))
    (Session_new (pc_ring_depth c) (pc_credit_window c))) = []) as Hh.
  { induction (Z.to_nat (pc_max_sessions c)) as [|m IH]; [done|]. simpl replicate. by rewrite session_holders_cons, IH. }
  constructor; unfold depth; simpl; [| |exists (seq 0 n)|done| |lia].
  - constructor; unfold depth; simpl; rewrite ?length_replicate; lia.
  - lia.
  - rewrite Hh. fold n. destruct (fill_free_repr b free [] (seq 0 n)) as [Hr Hcap];
      [by rewrite length_seq|rewrite length_seq; simpl; lia|]. simpl in Hr.
    constructor; simpl; rewrite ?length_replicate, ?length_seq, ?Hring; fold n; rewrite ?Hcap; try done.
    + by rewrite Nat.sub_diag, Nat.add_0_r.
    + lia.
    + intros i Hi. rewrite lookup_replicate_2 by done. done.
    + rewrite app_nil_r. apply NoDup_seq.
    + intros i. rewrite app_nil_r, elem_of_seq. split; [lia|set_solver].
    + intros i Hi. left. rewrite app_nil_r, elem_of_seq. lia.
    + set_solver.
    + lia.
  - apply Forall_replicate. constructor; simpl; rewrite ?length_replicate; lia.
Qed.

Lemma holders_vacant d fanned xs :
  Forall (fun x => vacant (ss_state x) = true) xs -> Forall (session_ok d fanned) xs -> holders d xs = [].
Proof.
  induction 1 as [|x xs Hv _ IH]; [done|]. intros [Hx Hxs]%list.Forall_cons.
  rewrite session_holders_cons, IH by done. unfold held_slots. by rewrite (so_vacant _ _ _ Hx Hv), slots_between_nil.
Qed.

(** Every slot accounted for: free, owned by one handle or one queued frame, or
    held by as many uncredited sequences as its count says, those in [lost] included,
    which no session has. *)
Definition slots_but (lost : list nat) (w : pworld) : Prop :=
  let s := pw_impl w in
  let sent := lost ++ holders (depth s) (im_sessions s) in
  exists free queued,
    fifo_repr 0 (ps_free_slots (im_slots s)) free /\ fifo_repr 0 (im_publish_queue s) queued /\
    NoDup (free ++ held_of (pw_handles w) ++ (it_slot_index <$> queued)) /\
    Forall (fun i => Z.of_nat i < depth s)
      (free ++ held_of (pw_handles w) ++ (it_slot_index <$> queued)) /\
    Forall (fun i => Z.of_nat i < depth s) sent /\
    ps_retained (im_slots s) = depth s - Z.of_nat (length free) /\
    forall i, Z.of_nat i < depth s ->
      im_slot_refs s !! i = Some (occurrences i sent) /\
      (i ∈ free ++ held_of (pw_handles w) ++ (it_slot_index <$> queued) <-> i ∉ sent).

Definition slots_exact (w : pworld) : Prop := slots_but [] w.

Lemma inv_slots b fanned lost items w :
  pub_inv b fanned lost (held_of (pw_handles w)) items (pw_impl w) -> slots_but lost w.
Proof.
  intros [? ? [free Ho] Hq ? ?]. simpl in Ho. destruct Ho as [H1 H2 [H3 H3'] H4 H5 H6 H7 H8 H9]. exists free, items. unfold depth.
  split; [by eapply fifo_repr_weaken; [|exact H1]; lia|].
  split; [by eapply fifo_repr_weaken; [|exact Hq]; lia|].
  split; [done|]. split; [apply list.Forall_forall; intros i Hi; destruct (H6 i Hi); lia|].
  split; [apply list.Forall_forall; intros i Hi; specialize (H8 i Hi); lia|].
  split; [by rewrite H9, H3|]. intros i Hi. assert (i < length (im_slot_refs (pw_impl w)))%nat by lia.
  split; [by apply H4|]. split; [by intros Hin; apply H6|]. intros Hn. by destruct (H7 i).
Qed.

Lemma world_slots b w : world_inv b w -> slots_exact w.
Proof. intros [(fanned & items & Hinv) _]. by eapply inv_slots. Qed.

(** The account cannot hold both with and without sequences lost. *)
Lemma slots_but_exact lost w : slots_but lost w -> slots_exact w -> lost = [].
Proof.
  intros (free & queued & _ & _ & _ & _ & Hlt & _ & Hl) (free' & queued' & _ & _ & _ & _ & _ & _ & Hl').
  destruct lost as [|i lost]; [done|]. exfalso. apply list.Forall_cons in Hlt as [Hi _].
  destruct (Hl i Hi) as [Hr _]. destruct (Hl' i Hi) as [Hr' _]. rewrite Hr in Hr'.
  simpl in Hr'. injection Hr' as Hr'. rewrite occurrences_cons, decide_True, occurrences_app in Hr' by done.
  unfold occurrences in Hr'. lia.
Qed.
End Runs.
Arguments pworld : clear implicits.

(** C10: the publisher keeps exact account of its producer slots.  However the
    application acquires, moves, drops and publishes handles, whatever credits,
    probe answers and completions arrive, and whenever sessions open, renew,
    close, expire or are torn down, in any interleaving and with any number of
    [Open]s waiting for their endpoints at once -- as long as none claims a seat that
    an overlapping one has filled meanwhile: no assertion fails and no index is out of
    range; every slot is free, in one handle, in one queued frame, or counted once
    for each sequence no session has credited yet; so a slot is handed to the
    producer again only when nobody holds it. *)
Theorem publisher_slots_accounted {QS QP} `{BoundedFifo QS nat} `{BoundedFifo QP PublishItem}
  n c ring (free : QS) (queue : QP) epoch w
  (Hs : starts (S n) c ring free queue)
  (Hr : prun n (mkWorld (Impl_new c ring free queue epoch) [] []) w) :
  slots_exact w /\ forall op, op_ok w op -> exists w', pstep w op = Val w' /\ slots_exact w'.
Proof.
  apply start_inv with (epoch := epoch) in Hs.
  assert (world_inv 1 w) as Hinv.
  { eapply prun_inv; [|exact Hr]. by rewrite Nat.add_1_r. }
  split; [by eapply world_slots|]. intros op Hok. destruct (pstep_inv 0 w op Hinv Hok) as (w' & -> & Hinv').
  exists w'. split; [done|by eapply world_slots].
Qed.

(** C11: nothing leaks.  In any state reached so, in which no handle owns a slot, no
    frame is queued and every seat is empty or closed, all slots are back in the
    free list. *)
Theorem publisher_slots_all_returned {QS QP} `{BoundedFifo QS nat} `{BoundedFifo QP PublishItem}
  n c ring (free : QS) (queue : QP) epoch w
  (Hs : starts n c ring free queue)
  (Hr : prun n (mkWorld (Impl_new c ring free queue epoch) [] []) w)
  (Hhandles : held_of (pw_handles w) = [])
  (Hqueue : fifo_size (im_publish_queue (pw_impl w)) = 0)
  (Hseats : Forall (fun x => vacant (ss_state x) = true) (im_sessions (pw_impl w))) :
  exists all, fifo_repr 0 (ps_free_slots (im_slots (pw_impl w))) all /\
    all ≡ₚ seq 0 (Z.to_nat (depth (pw_impl w))) /\ ps_retained (im_slots (pw_impl w)) = 0.
Proof.
  apply start_inv with (epoch := epoch) in Hs.
  assert (world_inv 0 w) as Hinv.
  { eapply prun_inv; [|exact Hr]. by rewrite Nat.add_0_r. }
  pose proof (world_slots _ _ Hinv) as (all & queued & Hf & Hq & Hnd & Hlt & _ & Hret & Hi).
  destruct Hinv as [(fanned & items & [[? ? ? ?] _ _ _ Hss _]) _].
  assert (queued = []) as ->.
  { destruct (fifo_size_law _ _ _ Hq) as [Hz _]. rewrite Hqueue in Hz. destruct queued; [done|]. simpl in Hz. lia. }
  assert (holders (depth (pw_impl w)) (im_sessions (pw_impl w)) = []) as Hh.
  { by eapply holders_vacant. }
  rewrite Hhandles, Hh in *. simpl in Hnd, Hi, Hlt. rewrite app_nil_r in Hnd, Hlt.
  setoid_rewrite app_nil_r in Hi. exists all. split; [done|].
  assert (all ≡ₚ seq 0 (Z.to_nat (depth (pw_impl w)))) as Hp.
  { apply NoDup_Permutation; [done|apply NoDup_seq|]. intros i. rewrite elem_of_seq.
    rewrite list.Forall_forall in Hlt. split.
    - intros Hin. specialize (Hlt i Hin). lia.
    - intros Hin. apply Hi; [lia|set_solver]. }
  split; [done|]. rewrite Hret, Hp, length_seq. lia.
Qed.

(** ** A run

    One client opens, answers the probe, receives a frame, credits it and closes. *)
#[local] Instance sample_free_fifo : BoundedFifo (BoundedQueue nat) nat := ring_fifo 0%nat.
Definition sample_item : PublishItem :=
  mkPublishItem 0 0 0 (mkFrameHeader 0 0 0 0 0 0 0 ET_Unknown 0 0 0 Host Little array4_zero array4_zero).
#[local] Instance sample_item_fifo : BoundedFifo (BoundedQueue PublishItem) PublishItem := ring_fifo sample_item.

Definition sample_pconfig0 : PublisherConfig :=
  mkPublisherConfig (str "camera") FrameMetadata_default 4096 2 2 2 BestEffort 8 10000 3333 10
    (Z.shiftl 16 20) [] (-1) true.
Definition sample_pconfig : PublisherConfig :=
  match resolve_config sample_pconfig0 with Val c => c | _ => sample_pconfig0 end.
Definition sample_pring : RegisteredRing :=
  mkRegisteredRing (mkRegisteredMemory true 65536 8192 8192 None) 65536 4096 4096 2.
Abbreviation sample_world := (pworld (BoundedQueue nat) (BoundedQueue PublishItem)).
Definition sample_free : BoundedQueue nat := BoundedQueue_new 0%nat 2.
Definition sample_queue : BoundedQueue PublishItem := BoundedQueue_new sample_item 8.
Definition sample_w0 : sample_world :=
  mkWorld (Impl_new sample_pconfig sample_pring sample_free sample_queue 99) [] [].

Lemma sample_starts : starts 9 sample_pconfig sample_pring sample_free sample_queue.
Proof.
  constructor; [exists sample_pconfig0; by vm_compute|done| |by vm_compute| |lia].
  - exists 1. split; [lia|]. split; [|by vm_compute].
    apply (represents_new 0%nat 1 ltac:(lia)). by vm_compute.
  - exists 3. split; [lia|]. split; [|by vm_compute].
    apply (represents_new sample_item 3 ltac:(lia)). by vm_compute.
Qed.

Definition sample_oreq : OpenRequest :=
  mkOpenRequest 1 1 5 (replicate 16 Byte.x01) 4096 2 1 Host Any (DropPolicy_of_raw 0) (str "camera")
    [Byte.x01].
Definition sample_oenv : open_env :=
  mkOpenEnv true (Some (replicate 16 Byte.x07)) (Some 5) (Some 6) BulkError_default 1000 [Byte.x02].
Definition sample_ack : bytes :=
  match encode_ProbeAckMessage (mkProbeAckMessage 1 5 6) with Val b => b | _ => [] end.
Definition sample_credit : bytes :=
  match encode_CreditMessage (mkCreditMessage 1 5 0) with Val b => b | _ => [] end.
Definition sample_meta : FrameMetadata :=
  mkFrameMetadata ET_Byte 1 0 array4_zero array4_zero 100 7 0 0 Host Little.
Definition sample_sends (n k : nat) : send_env := mkSendEnv SendInline false.
Definition sample_pops : list publisher_op :=
  [PAcquire; POpenBegin sample_oreq; POpenFinish 0 sample_oenv; PProgress [TProbeAck sample_ack];
   PPublish 0 sample_meta 1 false; PFrames sample_sends; PProgress [TCredit sample_credit];
   PClose (mkCloseRequest (replicate 16 Byte.x07) (CloseReason_of_raw 0)); PSweep 2000 (fun _ => [])].

(** The world an operation leads to, and the one after a list of them. *)
Definition after (w : sample_world) (op : publisher_op) : sample_world :=
  match pstep w op with Val w => w | _ => w end.
Fixpoint replay (w : sample_world) (ops : list publisher_op) : sample_world :=
  match ops with [] => w | op :: ops => replay (after w op) ops end.
Definition sample_w (n : nat) : sample_world := replay sample_w0 (firstn n sample_pops).

Definition returns {A} (r : ores A) : bool := match r with Val _ => true | _ => false end.

Fixpoint replay_ok (w : sample_world) (ops : list publisher_op) : Prop :=
  match ops with
  | [] => True
  | op :: ops => op_ok w op /\ returns (pstep w op) = true /\ replay_ok (after w op) ops
  end.

Lemma prun_replay ops w : replay_ok w ops -> prun (length ops) w (replay w ops).
Proof.
  revert w. induction ops as [|op ops IH]; intros w; simpl; [intros; apply prun_done|].
  intros (Hok & Hr & Hrest). eapply prun_step; [exact Hok| |by apply IH]. unfold after.
  by destruct (pstep w op).
Qed.

#[local] Ltac solve_op :=
  vm_compute; first [intros _; eexists; split; reflexivity
                    |repeat split; repeat constructor; try lia; try discriminate].

Lemma sample_ok : replay_ok sample_w0 sample_pops.
Proof.
  unfold sample_pops. cbn [replay_ok].
  do 9 (split; [solve_op|split; [vm_compute; reflexivity|]]). done.
Qed.

Lemma replay_ok_firstn n w ops : replay_ok w ops -> replay_ok w (firstn n ops).
Proof.
  revert n w. induction ops as [|op ops IH]; intros [|n] w; simpl; try done. intros (? & ? & ?). auto.
Qed.

Lemma sample_prun n : (n <= 9)%nat -> prun n sample_w0 (sample_w n).
Proof.
  intros Hn. pose proof (prun_replay _ _ (replay_ok_firstn n _ _ sample_ok)) as Hr.
  by rewrite length_firstn, Nat.min_l in Hr.
Qed.

Lemma starts_weaken {QS QP} `{BoundedFifo QS nat} `{BoundedFifo QP PublishItem} m n c ring
    (free : QS) (queue : QP) :
  (m <= n)%nat -> starts n c ring free queue -> starts m c ring free queue.
Proof.
  intros Hle []. constructor; try done; [| |lia]; (eapply fifo_repr_weaken; [|done]); lia.
Qed.

Lemma publisher_slots_accounted_witness :
  slots_exact (sample_w 6) /\ im_slot_refs (pw_impl (sample_w 6)) = [1; 0] /\
  exists w', pstep (sample_w 6) (PProgress [TCredit sample_credit]) = Val w' /\ slots_exact w'.
Proof.
  pose proof (publisher_slots_accounted 6 sample_pconfig sample_pring sample_free sample_queue 99 (sample_w 6)
    (starts_weaken 7 9 _ _ _ _ ltac:(lia) sample_starts) (sample_prun 6 ltac:(lia))) as [Hs Hnext].
  split; [exact Hs|]. split; [by vm_compute|]. apply Hnext. by repeat constructor.
Defined.

Lemma publisher_slots_all_returned_witness :
  exists all, fifo_repr 0 (ps_free_slots (im_slots (pw_impl (sample_w 9)))) all /\
    all ≡ₚ [0%nat; 1%nat] /\ ps_retained (im_slots (pw_impl (sample_w 9))) = 0.
Proof.
  apply (publisher_slots_all_returned 9 sample_pconfig sample_pring sample_free sample_queue 99 (sample_w 9)
    sample_starts (sample_prun 9 ltac:(lia))); [by vm_compute|by vm_compute|].
  refine (bool_decide_unpack _ _). by vm_compute.
Defined.

(** ** Two opens at once *)

Definition sample_oenv2 : open_env :=
  mkOpenEnv true (Some (replicate 16 Byte.x08)) (Some 15) (Some 16) BulkError_default 1500 [Byte.x02].
Definition racing_opens : list publisher_op :=
  [POpenBegin sample_oreq; POpenBegin sample_oreq; POpenFinish 0 sample_oenv;
   PProgress [TProbeAck sample_ack]; PAcquire; PPublish 0 sample_meta 1 false; PFrames sample_sends;
   POpenFinish 0 sample_oenv2; PClose (mkCloseRequest (replicate 16 Byte.x08) (CloseReason_of_raw 0));
   PSweep 2000 (fun _ => [])].


(** The run above the second [Open] of which finishes late: the first session has
    one sequence to credit.  When every seat is closed again, the queue is empty and
    no handle is left, its slot is still retained. *)
Lemma racing_opens_ok : replay_ok sample_w0 (firstn 7 racing_opens).
Proof.
  unfold racing_opens. cbn [firstn replay_ok].
  do 7 (split; [solve_op|split; [vm_compute; reflexivity|]]). done.
Qed.


(** ** Strict fan-out and a session that arms late *)

Definition strict_config : PublisherConfig :=
  match resolve_config (mkPublisherConfig (str "camera") FrameMetadata_default 4096 4 4 2 AllActive 8
    10000 3333 10 (Z.shiftl 16 20) [] (-1) true) with Val c => c | _ => sample_pconfig0 end.
Definition strict_w0 : sample_world :=
  mkWorld (Impl_new strict_config
    (mkRegisteredRing (mkRegisteredMemory true 65536 16384 16384 None) 65536 4096 4096 4)
    (BoundedQueue_new 0%nat 4) sample_queue 99) [] [].
Definition strict_req (window : Z) : OpenRequest :=
  mkOpenRequest 1 1 5 (replicate 16 Byte.x01) 4096 4 window Host Any (DropPolicy_of_raw 0) (str "camera")
    [Byte.x01].
Definition late_ack : bytes :=
  match encode_ProbeAckMessage (mkProbeAckMessage 1 15 16) with Val b => b | _ => [] end.
Definition late_arming : list publisher_op :=
  [POpenBegin (strict_req 4); POpenFinish 0 sample_oenv; PProgress [TProbeAck sample_ack];
   PAcquire; PAcquire; PPublish 0 sample_meta 1 false;
   POpenBegin (strict_req 1); POpenFinish 0 sample_oenv2; PProgress [TProbeAck late_ack];
   PPublish 1 sample_meta 2 false; PFrames sample_sends].

(** strict fan-out drops a frame.  [AllActive] promises to accept a frame only
    when every armed subscriber can receive it.  A session that arms while frames
    are queued starts its admission at the current publish count, but the queued
    frames are submitted to it all the same: here a window of one is filled by
    the frame published before the session armed, and the frame accepted after
    it armed is dropped for it. *)
Theorem strict_fanout_drops_after_late_arming :
  let w := replay strict_w0 late_arming in
  (ss_state <$> im_sessions (pw_impl (replay strict_w0 (firstn 9 late_arming)))) = [SS_Armed; SS_Armed] /\
  im_counters (pw_impl w) frames_published = 2 /\
  ((fun x => sn_dropped (ss_engine x)) <$> im_sessions (pw_impl w)) = [0; 1] /\
  ((fun x => cw_next_sequence (sn_window (ss_engine x))) <$> im_sessions (pw_impl w)) = [2; 1].
Proof. vm_compute. done. Qed.
