(* ===== verification/ControlPath.v ===== *)
(** * Theorems on the publisher's control path

    What a client can rely on when it sends [Open], [Renew] or [Close] bytes to
    [handle_encoded_coordination]: it always gets a reply it can decode, the grant
    is within what it asked for, and a lease is renewed for one period and never
    revived. *)
From Stdlib Require Import Init.Byte.
From stdpp Require Import gmap list sets.
From S2P Require Import Prelude Enums Limits ByteOrder Geometry Text Protocol ProtocolSafety.
From S2P Require Import ProtocolRoundtrip Dispatch DataPlane Config CreditWindow BoundedQueue DeliveryQueue.
From S2P Require Import PinnedLedger RegisteredRing ProducerSlots Publisher Coordination PublisherSafety.
From S2P Require Import PublisherRuns.
#[local] Open Scope Z_scope.

(** ** What the client reads *)

(** [data] decodes as [m], with the correlation [c]. *)
Definition reads (data : bytes) (c : Z) (m : CoordinationReply) : Prop :=
  match m with
  | Reply_Open m => exists env, decode_OpenReply data = Val (m, env) /\ env_correlation_id env = c
  | Reply_Renew m => exists env, decode_RenewReply data = Val (m, env) /\ env_correlation_id env = c
  | Reply_Close m => exists env, decode_CloseReply data = Val (m, env) /\ env_correlation_id env = c
  | Reply_Error m => exists env, decode_ErrorMessage data = Val (m, env) /\ env_correlation_id env = c
  end.

(** An exception is answered as an error; an error text is cut at 512 bytes. *)
Definition on_wire (answer : handled) : CoordinationReply :=
  match answer with
  | inl (Reply_Error e) => Reply_Error (mkErrorMessage (em_status e) (truncated (em_message e) 512))
  | inl m => m
  | inr e => Reply_Error (mkErrorMessage (be_status e) (truncated (be_message e) 512))
  end.

(** The request the bytes hold, if a command for [expected] messages takes it. *)
Definition request_of (data : bytes) (expected : option CoordType) : option CoordinationRequest :=
  let takes t := match expected with None => true | Some e => bool_decide (t = e) end in
  match decode_OpenRequest data, decode_RenewRequest data, decode_CloseRequest data with
  | Val (m, _), _, _ => if takes CT_Open then Some (Request_Open m) else None
  | _, Val (m, _), _ => if takes CT_Renew then Some (Request_Renew m) else None
  | _, _, Val (m, _) => if takes CT_Close then Some (Request_Close m) else None
  | _, _, _ => None
  end.

Definition answer_ok (answer : handled) : Prop :=
  match answer with
  | inl (Reply_Open m) => OpenReply_ok m
  | inl (Reply_Renew m) => RenewReply_ok m
  | inl (Reply_Close m) => CloseReply_ok m
  | inl (Reply_Error e) => enum_ok 16 (em_status e) /\ (x00 ∉ em_message e)
  | inr e => enum_ok 16 (be_status e) /\ (x00 ∉ be_message e)
  end.

Lemma error_reads status message c :
  enum_ok 16 status -> (x00 ∉ message) -> in_range 64 c ->
  exists data, encode_coordination_error status message c = Val data /\
    reads data c (Reply_Error (mkErrorMessage status (truncated message 512))).
Proof.
  intros Hst Hm Hc. unfold encode_coordination_error. rewrite encode_ErrorMessage_layout.
  eexists. split; [done|]. eexists. split; [|shelve].
  apply decode_ErrorMessage_layout; [|done]. by apply (truncated_bounded (mkErrorMessage _ _)).
  Unshelve. done.
Qed.

Definition encode_answer (answer : handled) (c : Z) : ores bytes :=
  match answer with
  | inl m => encode_coordination_reply m c
  | inr e => encode_coordination_error (be_status e) (be_message e) c
  end.

Lemma answer_reads answer c :
  answer_ok answer -> in_range 64 c ->
  exists data, encode_answer answer c = Val data /\ reads data c (on_wire answer).
Proof.
  intros Ha Hc. assert (tolerated 0 [] []) as Htol by (unfold tolerated, in_range; simpl; auto with lia).
  destruct answer as [[m|m|m|m]|e]; simpl in *; unfold encode_coordination_reply.
  - rewrite encode_OpenReply_layout by done. eexists. split; [done|]. eexists.
    split; [apply decode_OpenReply_layout; [apply Ha|done]|done].
  - rewrite encode_RenewReply_layout by done. eexists. split; [done|]. eexists.
    pose proof (decode_RenewReply_layout 0 [] [] m c Ha Hc Htol) as Hd. rewrite app_nil_r in Hd. by split.
  - rewrite encode_CloseReply_layout by done. eexists. split; [done|]. eexists.
    pose proof (decode_CloseReply_layout 0 [] [] m c Ha Hc Htol) as Hd. rewrite app_nil_r in Hd. by split.
  - destruct Ha as [Hst Hm]. destruct (error_reads _ _ _ Hst Hm Hc) as (data & He & Hr).
    unfold encode_coordination_error in He. destruct m as [st msg]. simpl in *.
    rewrite encode_ErrorMessage_layout in *. simplify_eq/=. by eexists.
  - destruct Ha. by apply error_reads.
Qed.

(** ** Handlers *)

(** A literal text holds no zero byte. *)
Ltac plain_text := apply (bool_decide_eq_true_1 _); by vm_compute.

Section Serving.
Context {QS QP : Type} `{BoundedFifo QS nat} `{BoundedFifo QP PublishItem}.
Abbreviation Impl := (Impl QS QP).
Implicit Types s : Impl.

(** The fields of the publisher that go into replies hold values of their types. *)
Definition seat_typed (x : Session) : Prop :=
  enum_ok 32 (ss_state x) /\ geometry_typed (si_geometry (ss_identity x)).

Record serving s : Prop := {
  sv_geometry : geometry_typed (current_geometry s);
  sv_ttl : in_range 32 (pc_lease_ttl_ms (im_config s));
  sv_interval : in_range 32 (pc_renew_interval_ms (im_config s));
  sv_epoch : in_range 64 (im_server_epoch_id s);
  sv_seats : Forall seat_typed (im_sessions s)
}.

(** What the generators and UCX return. *)
Record outside_ok (env : open_env) : Prop := {
  oo_id : forall id, oe_session_id env = Some id -> id_ok id;
  oo_stream : forall z, oe_stream_id env = Some z -> in_range 64 z;
  oo_address : bounded 1 4096 (oe_address env);
  oo_error : enum_ok 16 (be_status (oe_rng_error env)) /\ (x00 ∉ be_message (oe_rng_error env))
}.

Lemma serving_count s c : serving s -> serving (count s c).
Proof. by intros []. Qed.

Lemma serving_put s k x : serving s -> seat_typed x -> serving (put_session s k x).
Proof. intros [] Hx. constructor; try done. by apply Forall_insert. Qed.

Lemma serving_seat s k x : serving s -> im_sessions s !! k = Some x -> seat_typed x.
Proof. intros [_ _ _ _ Hs] Hk. by apply (Forall_lookup_1 _ _ _ _ Hs Hk). Qed.

Lemma grant_typed s request :
  serving s -> OpenRequest_ok request -> geometry_typed (grant s request).
Proof.
  intros [(? & ? & ? & ? & Hm & Hd & Hw & ? & ?) _ _ _ _] (? & ? & ? & ? & ? & ? & ? & _).
  simpl in Hm, Hd, Hw. unfold in_range in *.
  do 8 (split; [first [done|unfold in_range; simpl; lia]|]); done.
Qed.


Lemma typed_error_ok st message :
  enum_ok 16 st -> (x00 ∉ message) -> answer_ok (typed_error st message) /\ answer_ok (thrown st message).
Proof. by split. Qed.

Lemma open_begin_answers s request :
  serving s -> OpenRequest_ok request ->
  match open_begin s request with
  | (inl answer, s') => answer_ok answer /\ serving s'
  | (inr (k, g), s') => s' = s /\ g = grant s request /\ exists x, im_sessions s !! k = Some x
  end.
Proof.
  intros Hs Hr. unfold open_begin.
  do 5 (match goal with |- context [if ?c then _ else _] => destruct c;
    [split; [split; [solve_enum|plain_text]|done]|] end).
  destruct (select_seat (im_sessions s) 0 None) as [k|] eqn:Hk.
  - split; [done|]. split; [done|]. apply select_seat_some in Hk as [?|(x & _ & Hx & _)]; [done|].
    rewrite Nat.sub_0_r in Hx. by exists x.
  - split; [split; [solve_enum|plain_text]|by apply serving_count].
Qed.

Ltac refuse_seat := eexists _, _; split; [done|]; split; [done|]; by apply serving_put.

Lemma open_finish_answers s k x request env :
  serving s -> outside_ok env -> OpenRequest_ok request -> im_sessions s !! k = Some x ->
  exists answer s', open_finish s k (grant s request) request env = Val (answer, s') /\
    answer_ok answer /\ serving s'.
Proof.
  intros Hs He Hr Hx. pose proof (grant_typed s request Hs Hr) as Hg.
  destruct (serving_seat _ _ _ Hs Hx) as [Hst Hgx]. destruct He as [Hid Hstream Haddr Herr].
  unfold open_finish. destruct (negb (oe_connected env)).
  { eexists _, _. split; [done|]. split; [split; [solve_enum|plain_text]|done]. }
  rewrite (session_at_some _ _ _ Hx), bind_val. cbv zeta.
  destruct (oe_session_id env) as [id|]; [|refuse_seat].
  destruct (oe_stream_id env) as [stream|]; [|refuse_seat].
  destruct (oe_probe_token env) as [token|]; [|refuse_seat].
  eexists _, _. split; [done|]. split.
  - destruct Hs. split; [|intros _ Hn; simpl in Hn; rewrite Hn in Haddr; unfold bounded in Haddr; simpl in Haddr; lia].
    unfold OpenReply_typed. simpl. repeat split_and; auto; try solve_enum; try done.
    + change (Z.lor _ _) with (Z.land 5 (Z.ones 3)). rewrite Z.land_assoc, Z.land_ones by lia.
      pose proof (Z.mod_pos_bound (Z.land (oq_requested_caps request) 5) (2 ^ 3)). unfold in_range. lia.
    + unfold bounded in *. lia.
  - apply serving_count, serving_put; [done|]. split; [solve_enum|done].
Qed.

Lemma default_geometry_typed : geometry_typed GeometryBlock_default.
Proof. do 7 (split; [by vm_compute|]). split; solve_array_ok. Qed.

Lemma renew_answers s request now :
  serving s -> RenewRequest_ok request ->
  exists answer s', handle_renew s request now = Val (answer, s') /\ answer_ok answer /\ serving s'.
Proof.
  intros Hs (Hid & _). pose proof Hs as [_ Httl Hivl _ _]. unfold handle_renew. cbv zeta.
  pose proof default_geometry_typed.
  destruct (session_for_id s (nq_session_id request)) as [k|] eqn:Hk.
  2:{ eexists _, _. split; [done|]. split; [|done]. unfold answer_ok, RenewReply_ok. simpl.
      split; [done|]. split; [solve_enum|]. do 2 (split; [done|]). split; [solve_enum|done]. }
  apply session_for_id_some in Hk as (x & Hx & _). rewrite (session_at_some _ _ _ Hx), bind_val.
  pose proof (serving_seat _ _ _ Hs Hx) as [Hst Hg].
  assert (forall st, enum_ok 16 st -> RenewReply_ok (mkRenewReply (nq_session_id request) st
    (pc_lease_ttl_ms (im_config s)) (pc_renew_interval_ms (im_config s)) (ss_state x)
    (si_geometry (ss_identity x)))) as Hok by (intros st Hs'; repeat split_and; done).
  destruct (bool_decide _ || _).
  { eexists _, _. split; [done|]. split; [|done]. apply Hok. destruct (_ && _); solve_enum. }
  destruct (_ <=? _); (eexists _, _; split; [done|]); (split; [apply Hok; solve_enum|]);
    apply serving_count, serving_put; try done.
  destruct (_ <? _); [by apply serving_count|done].
Qed.

Lemma close_answers s request :
  serving s -> CloseRequest_ok request ->
  exists answer s', handle_close s request = Val (answer, s') /\ answer_ok answer /\ serving s'.
Proof.
  intros Hs (Hid & _). unfold handle_close. cbv zeta.
  assert (forall st, enum_ok 16 st -> CloseReply_ok (mkCloseReply (cq_session_id request) st
    (u32 (im_counters s frames_credited)))) as Hok.
  { intros st Hst. split; [done|]. split; [done|]. by apply wrap_in_range. }
  destruct (session_for_id s (cq_session_id request)) as [k|] eqn:Hk.
  2:{ eexists _, _. split; [done|]. split; [apply Hok; solve_enum|done]. }
  apply session_for_id_some in Hk as (x & Hx & _). rewrite (session_at_some _ _ _ Hx), bind_val.
  pose proof (serving_seat _ _ _ Hs Hx) as [Hst Hg]. unfold begin_expiry.
  destruct (negb (live (ss_state x))); [|destruct (bool_decide (ss_end_reason x <> ER_None))];
    (eexists _, _; split; [done|]; split; [apply Hok; solve_enum|]); try done.
  apply serving_put; [done|]. split; [solve_enum|done].
Qed.

Definition request_ok (request : CoordinationRequest) : Prop :=
  match request with
  | Request_Open m => OpenRequest_ok m
  | Request_Renew m => RenewRequest_ok m
  | Request_Close m => CloseRequest_ok m
  end.

Lemma coordination_answers s request env :
  serving s -> outside_ok env -> request_ok request ->
  exists answer s', handle_coordination s request env = Val (answer, s') /\ answer_ok answer /\ serving s'.
Proof.
  intros Hs He Hr. destruct request as [m|m|m]; simpl in *; [|by apply renew_answers|by apply close_answers].
  unfold handle_open. pose proof (open_begin_answers s m Hs Hr) as Hb.
  destruct (open_begin s m) as [[answer|[k g]] s']; [by eexists _, _|].
  destruct Hb as (-> & -> & x & Hx). by eapply open_finish_answers.
Qed.

Lemma decode_request_ok type data :
  match decode_request type data with
  | Some (Val request) => request_ok request
  | Some (Err st) => failing st
  | Some Fault => False
  | None => True
  end.
Proof.
  destruct (reports_requests data) as (Ho & Hn & Hc).
  destruct (decode_OpenRequest_spec data) as [So Ko], (decode_RenewRequest_spec data) as [Sn Kn],
    (decode_CloseRequest_spec data) as [Sc Kc].
  destruct type; try done; simpl.
  - destruct (decode_OpenRequest data) as [[m env]|st|]; [apply (Ko m env eq_refl)|by apply Ho|done].
  - destruct (decode_RenewRequest data) as [[m env]|st|]; [apply (Kn m env eq_refl)|by apply Hn|done].
  - destruct (decode_CloseRequest data) as [[m env]|st|]; [apply (Kc m env eq_refl)|by apply Hc|done].
Qed.

(** Choosing a decoder by the envelope's type is the same as trying them all. *)
Lemma request_of_dispatch data expected env body :
  decode_envelope data Envelope_default = (env, Val body) ->
  request_of data expected =
  match decode_request (env_msg_type env) data with
  | Some (Val request) =>
      if match expected with None => true | Some t => bool_decide (env_msg_type env = t) end
      then Some request else None
  | _ => None
  end.
Proof.
  intros Hd. destruct (decode_envelope_cases data) as [(e & b & He & _ & _ & Hopen)|(e & st & He & _)];
    [|congruence]. assert (e = env) as -> by congruence. unfold request_of.
  assert (forall B t (k : _ -> result B), env_msg_type env <> t ->
    outcome_bind (open_message data t) k = Err MalformedMessage) as Hother.
  { intros B t k Ht. by rewrite Hopen, bool_decide_eq_false_2. }
  assert (env_msg_type env <> CT_Open -> decode_OpenRequest data = Err MalformedMessage) as Ho by apply Hother.
  assert (env_msg_type env <> CT_Renew -> decode_RenewRequest data = Err MalformedMessage) as Hn by apply Hother.
  assert (env_msg_type env <> CT_Close -> decode_CloseRequest data = Err MalformedMessage) as Hc by apply Hother.
  destruct (env_msg_type env) eqn:Ht; simpl.
  all: rewrite ?Ho, ?Hn, ?Hc by done; try done.
  - by destruct (decode_OpenRequest data) as [[]| |].
  - by destruct (decode_RenewRequest data) as [[]| |].
  - by destruct (decode_CloseRequest data) as [[]| |].
Qed.

Lemma recovered_correlation data env body :
  decode_envelope data Envelope_default = (env, Val body) ->
  recover_coordination_correlation data = env_correlation_id env.
Proof.
  intros Hd. destruct (decode_envelope_cases data) as [(e & b & He & Hc & Hl & _)|(e & st & He & _)];
    [|congruence]. assert (e = env) as -> by congruence. unfold recover_coordination_correlation.
  rewrite (proj2 (Nat.ltb_ge _ _)) by lia. by rewrite Hc.
Qed.

Lemma correlation_range data : in_range 64 (recover_coordination_correlation data).
Proof.
  unfold recover_coordination_correlation. destruct (Nat.ltb_spec (length data) 24); [done|].
  destruct (get64_ok data 16) as (c & -> & Hc); [lia|done].
Qed.
Lemma type_name_plain t : (x00 ∉ CoordType_to_string t).
Proof. destruct t; plain_text. Qed.

Definition answered s data (expected : option CoordType) env (reply : bytes) s' : Prop :=
  match request_of data expected with
  | Some request => exists answer, handle_coordination s request env = Val (answer, s') /\
      reads reply (recover_coordination_correlation data) (on_wire answer)
  | None => s' = count s malformed_messages /\ exists status message, status <> Ok /\
      reads reply (recover_coordination_correlation data) (Reply_Error (mkErrorMessage status message))
  end.

(** Bytes that hold no request for this command are refused. *)
Lemma refused s data expected env status message c :
  request_of data expected = None -> failing status -> (x00 ∉ message) ->
  c = recover_coordination_correlation data ->
  exists reply s', (let! reply := encode_coordination_error status message c in
                    Val (reply, count s malformed_messages) : ores (bytes * Impl)) = Val (reply, s') /\
    (serving s -> serving s') /\ answered s data expected env reply s'.
Proof.
  intros Hr [Hst Hne] Hm ->. pose proof (correlation_range data) as Hc.
  destruct (error_reads status message _ Hst Hm Hc) as (reply & -> & Hreads). rewrite bind_val.
  exists reply, (count s malformed_messages). split; [done|]. split; [apply serving_count|].
  unfold answered. rewrite Hr. split; [done|]. by eexists _, _.
Qed.

(** The boundary on every branch. *)
Lemma encoded_answers s data expected env (Hs : serving s) (He : outside_ok env) :
  exists reply s', handle_encoded_coordination s data expected env = Val (reply, s') /\
    serving s' /\ answered s data expected env reply s'.
Proof.
  unfold handle_encoded_coordination. cbv zeta.
  destruct (decode_envelope_cases data) as [(e & body & He0 & _)|(e & st & He0 & Hst & Hopen)]; rewrite He0.
  2:{ edestruct (refused s data expected env) as (reply & s' & -> & Hs' & Ha); [..|exists reply, s'; by auto].
      - unfold request_of, decode_OpenRequest, decode_RenewRequest, decode_CloseRequest.
        by destruct (Hopen CT_Open) as [? ->], (Hopen CT_Renew) as [? ->], (Hopen CT_Close) as [? ->].
      - done.
      - case_bool_decide; plain_text.
      - done. }
  rewrite <- (recovered_correlation _ _ _ He0).
  pose proof (request_of_dispatch data expected e body He0) as Hreq.
  pose proof (decode_request_ok (env_msg_type e) data) as Hdec.
  destruct (match expected with Some t => _ | None => None end) as [t|] eqn:Hother.
  { destruct expected as [t'|]; [|done]. case_bool_decide as Hne; [|done]. simplify_eq.
    rewrite (bool_decide_eq_false_2 (env_msg_type e = t)) in Hreq by done.
    edestruct (refused s data (Some t) env) as (reply & s' & -> & Hs' & Ha); [..|exists reply, s'; by auto].
    - rewrite Hreq. by repeat case_match.
    - split; [solve_enum|done].
    - rewrite !not_elem_of_app. split_all; (apply type_name_plain || plain_text).
    - done. }
  assert (match expected with None => true | Some t => bool_decide (env_msg_type e = t) end = true) as Htake.
  { destruct expected as [t|]; [|done]. apply bool_decide_eq_true.
    destruct (decide (env_msg_type e = t)) as [|Hne]; [done|]. by rewrite bool_decide_eq_true_2 in Hother. }
  rewrite Htake in Hreq.
  destruct (decode_request (env_msg_type e) data) as [[request|st|]|].
  - destruct (coordination_answers s request env Hs He Hdec) as (answer & s' & Hco & Ha & Hs').
    rewrite Hco, bind_val. destruct (answer_reads answer _ Ha (correlation_range data)) as (reply & Henc & Hreads).
    unfold encode_answer in Henc. rewrite Henc, bind_val. exists reply, s'. split; [done|]. split; [done|].
    unfold answered. rewrite Hreq. by exists answer.
  - edestruct (refused s data expected env) as (reply & s' & -> & Hs' & Ha); [done|done| |done|exists reply, s'; by auto].
    rewrite not_elem_of_app. split; [plain_text|apply type_name_plain].
  - done.
  - edestruct (refused s data expected env) as (reply & s' & -> & Hs' & Ha); [done|split; [solve_enum|done]| |done|exists reply, s'; by auto].
    rewrite not_elem_of_app. split; [apply type_name_plain|plain_text].
Qed.

(** C28: the publisher answers every message.  Whatever bytes arrive on the
    coordination plane, the boundary returns a reply -- it never reads outside
    them and never stays silent -- that the client can decode and that carries
    the correlation of the call.  Bytes that hold a request the command takes
    get the answer of the handler, an exception included, and leave the state the
    handler leaves; other bytes get an error with a status that says so, and only
    the counter of malformed messages moves. *)
Theorem encoded_coordination_answers s data expected env (Hs : serving s) (He : outside_ok env) :
  exists reply s', handle_encoded_coordination s data expected env = Val (reply, s') /\
    serving s' /\ answered s data expected env reply s'.
Proof. by apply encoded_answers. Qed.
End Serving.

Definition sample_outside : open_env :=
  mkOpenEnv true (Some (replicate 16 Byte.x07)) (Some 5) (Some 6) BulkError_default 1000 [Byte.x01].
Definition sample_open : OpenRequest :=
  mkOpenRequest 1 1 1 (replicate 16 Byte.x02) 4096 2 2 Host Any DropOldest (str "camera") [Byte.x03].
Definition sample_open_bytes : bytes :=
  match encode_OpenRequest sample_open 42 with Val data => data | _ => [] end.

Lemma sample_serving : serving (pw_impl sample_w0).
Proof.
  constructor; [|done..|].
  - do 7 (split; [by vm_compute|]). split; solve_array_ok.
  - apply Forall_replicate. split; [solve_enum|apply default_geometry_typed].
Qed.

Lemma encoded_coordination_answers_witness :
  let s := pw_impl sample_w0 in
  request_of sample_open_bytes (Some CT_Open) = Some (Request_Open sample_open) /\
  exists reply s', handle_encoded_coordination s sample_open_bytes (Some CT_Open) sample_outside =
    Val (reply, s') /\ serving s' /\ answered s sample_open_bytes (Some CT_Open) sample_outside reply s'.
Proof.
  split; [by vm_compute|]. apply encoded_coordination_answers; [apply sample_serving|].
  constructor; [by intros ? [= <-]|by intros ? [= <-]|done|]. split; [solve_enum|plain_text].
Defined.
