(* ===== verification/Leases.v ===== *)
(** * Leases: what an [Open] grants and a [Renew] extends

    Theorems on [handle_open], [handle_renew] and [connect] of
    [src/ucx/publisher_impl.cpp]: the grant and the choice of the seat, the
    deadline and the rate of renewals, and the task that [connect] leaves with the
    engine. *)
From Stdlib Require Import Sorting.Sorted.
From stdpp Require Import gmap list sets.
From S2P Require Import Prelude Enums Limits ByteOrder Geometry Protocol ProtocolSafety.
From S2P Require Import Config CreditWindow BoundedQueue DeliveryQueue RegisteredRing ProducerSlots.
From S2P Require Import Publisher Coordination PublisherSafety PublisherRuns ControlPath.
#[local] Open Scope Z_scope.

(** ** The seat *)

(** A seat an [Open] may take after every seat has been used. *)
Definition retired (x : Session) : bool :=
  bool_decide (ss_state x = SS_Closed) && negb (ss_poisoned x).
Definition unused (x : Session) : bool := bool_decide (ss_state x = SS_Unknown).

(** [k] is the first seat never used or, when all have been, one retired longest
    ago. *)
Definition right_seat (xs : list Session) (k : nat) : Prop :=
  exists x, xs !! k = Some x /\
    (unused x = true /\ (forall j y, xs !! j = Some y -> unused y = true -> (k <= j)%nat) \/
     retired x = true /\ forall j y, xs !! j = Some y ->
       unused y = false /\ (retired y = true -> ss_retired_seq x <= ss_retired_seq y)).

(** [best] is the choice among the seats already passed. *)
Definition best_of (xs : list Session) (best : option (nat * Z)) : Prop :=
  (forall j y, xs !! j = Some y -> unused y = false) /\
  match best with
  | None => forall j y, xs !! j = Some y -> retired y = false
  | Some (k, seq) => exists x, xs !! k = Some x /\ retired x = true /\ ss_retired_seq x = seq /\
      forall j y, xs !! j = Some y -> retired y = true -> seq <= ss_retired_seq y
  end.

Lemma lookup_snoc_cases {A} (l : list A) x j y :
  (l ++ [x]) !! j = Some y -> l !! j = Some y \/ (j = length l /\ y = x).
Proof.
  intros Hj. destruct (decide (j < length l)%nat) as [Hl|Hl]; [left; by rewrite lookup_app_l in Hj|right].
  rewrite lookup_app_r in Hj by lia. destruct (j - length l)%nat eqn:Hd; simplify_eq/=. split; [lia|done].
Qed.

Lemma best_of_pass xs x best :
  best_of xs best -> unused x = false -> retired x = false -> best_of (xs ++ [x]) best.
Proof.
  intros [Hu Hb] Hx Hr. split.
  { intros j y Hj. apply lookup_snoc_cases in Hj as [Hj|[_ ->]]; [by eapply Hu|done]. }
  destruct best as [[k seq]|].
  - destruct Hb as (b & Hk & Hb & Hs & Hmin). exists b. split; [by apply lookup_app_l_Some|].
    do 2 (split; [done|]). intros j y Hj Hy.
    apply lookup_snoc_cases in Hj as [Hj|[_ ->]]; [by eapply Hmin|congruence].
  - intros j y Hj. apply lookup_snoc_cases in Hj as [Hj|[_ ->]]; [by eapply Hb|done].
Qed.

Lemma best_of_take xs x best :
  best_of xs best -> unused x = false -> retired x = true ->
  best_of (xs ++ [x])
    (if match best with None => true | Some (_, oldest) => ss_retired_seq x <? oldest end
     then Some (length xs, ss_retired_seq x) else best).
Proof.
  intros [Hu Hb] Hx Hr. split.
  { intros j y Hj. apply lookup_snoc_cases in Hj as [Hj|[_ ->]]; [by eapply Hu|done]. }
  assert ((xs ++ [x]) !! length xs = Some x) as Hl by (by apply list_lookup_middle).
  destruct best as [[k seq]|].
  - destruct Hb as (b & Hk & Hb & Hs & Hmin). destruct (Z.ltb_spec (ss_retired_seq x) seq).
    + exists x. do 3 (split; [done|]). intros j y Hj Hy.
      apply lookup_snoc_cases in Hj as [Hj|[_ ->]]; [|lia]. specialize (Hmin j y Hj Hy). lia.
    + exists b. split; [by apply lookup_app_l_Some|]. do 2 (split; [done|]). intros j y Hj Hy.
      apply lookup_snoc_cases in Hj as [Hj|[_ ->]]; [by eapply Hmin|lia].
  - exists x. do 3 (split; [done|]). intros j y Hj Hy.
    apply lookup_snoc_cases in Hj as [Hj|[_ ->]]; [|lia]. by rewrite (Hb j y Hj) in Hy.
Qed.

Lemma select_seat_right xs passed best :
  best_of passed best ->
  match select_seat xs (length passed) best with
  | Some k => right_seat (passed ++ xs) k
  | None => forall j y, (passed ++ xs) !! j = Some y -> unused y = false /\ retired y = false
  end.
Proof.
  revert passed best. induction xs as [|x xs IH]; intros passed best Hb; simpl.
  { rewrite app_nil_r. destruct Hb as [Hu Hb]. destruct best as [[k seq]|]; simpl; [|by eauto].
    destruct Hb as (b & Hk & Hr & Hs & Hmin). exists b. split; [done|]. right. split; [done|].
    intros j y Hj. split; [by eapply Hu|]. intros Hy. subst seq. by eapply Hmin. }
  rewrite cons_middle, app_assoc. specialize (IH (passed ++ [x])).
  rewrite length_app, Nat.add_1_r in IH. case_bool_decide as Hx.
  { exists x. rewrite <- app_assoc. split; [by apply list_lookup_middle|]. left.
    split; [by apply bool_decide_eq_true|]. intros j y Hj Hy.
    destruct (decide (j < length passed)%nat) as [Hlt|]; [|lia]. rewrite lookup_app_l in Hj by done.
    destruct Hb as [Hu _]. by rewrite (Hu j y Hj) in Hy. }
  assert (unused x = false) as Hu by (by apply bool_decide_eq_false).
  case_bool_decide as Hc; simpl.
  { apply IH, best_of_pass; [done..|]. unfold retired. by rewrite bool_decide_eq_false_2. }
  destruct (ss_poisoned x) eqn:Hp.
  { apply IH, best_of_pass; [done..|]. unfold retired. by rewrite Hp, andb_false_r. }
  apply IH, best_of_take; [done..|]. unfold retired. by rewrite Hp, bool_decide_eq_true_2.
Qed.

Section Leases.
Context {QS QP : Type} `{BoundedFifo QS nat} `{BoundedFifo QP PublishItem}.
Abbreviation Impl := (Impl QS QP).
Implicit Types s : Impl.

(** ** Open *)

(** The grant is within the request and the configuration. *)
Definition within_request s (request : OpenRequest) (g : GeometryBlock) : Prop :=
  0 < gb_max_frame_bytes g <= Z.min (oq_requested_max_frame_bytes request) (pc_max_frame_bytes (im_config s)) /\
  0 < gb_ring_depth g <= Z.min (oq_requested_ring_depth request) (pc_ring_depth (im_config s)) /\
  0 < gb_credit_window g <= Z.min (oq_requested_credit_window request) (pc_credit_window (im_config s)).

(** The lease the seat holds after the [Open] that was answered with [reply]. *)
Definition leased_to (x : Session) (reply : OpenReply) (now : Z) : Prop :=
  let g := or_geometry reply in
  ss_state x = SS_Open /\ ss_end_reason x = ER_None /\ si_id (ss_identity x) = or_session_id reply /\
  si_stream_id (ss_identity x) = or_stream_id reply /\ si_geometry (ss_identity x) = g /\
  ss_deadline_ms x = u64 (now + or_lease_ttl_ms reply) /\ rb_renewals_in_window (ss_renew x) = 0 /\
  sn_window (ss_engine x) = CreditWindow_new (gb_ring_depth g) (gb_credit_window g) /\
  sn_ep (ss_engine x) = true /\ sn_probe_sent (ss_engine x) = false.

(** What a seat is to everyone but the [Open] under way. *)
Definition seat_status (x : Session) := (ss_state x, ss_deadline_ms x, ss_renew x, ss_engine x).

Definition open_outcome s (request : OpenRequest) (now : Z) (answer : handled) s' : Prop :=
  match answer with
  | inl (Reply_Open reply) =>
      or_status reply = Ok /\ within_request s request (or_geometry reply) /\
      exists k x, right_seat (im_sessions s) k /\ im_sessions s' = <[k := x]> (im_sessions s) /\
        leased_to x reply now
  | inl (Reply_Error e) =>
      em_status e <> Ok /\ im_sessions s' = im_sessions s /\
      (em_status e = TooManySessions ->
         Forall (fun x => unused x = false /\ retired x = false) (im_sessions s))
  | inr _ => seat_status <$> im_sessions s' = seat_status <$> im_sessions s
  | _ => False
  end.

Lemma grant_within s request :
  serving s -> OpenRequest_ok request ->
  (gb_max_frame_bytes (grant s request) =? 0) || (gb_ring_depth (grant s request) =? 0) ||
    (gb_credit_window (grant s request) =? 0) = false ->
  within_request s request (grant s request).
Proof.
  intros Hs Hr Hz. destruct (grant_typed s request Hs Hr) as (_ & _ & _ & _ & [? _] & [? _] & [? _] & _).
  bool_to_prop. unfold within_request. simpl in *. lia.
Qed.

Lemma put_status s k x x' :
  im_sessions s !! k = Some x -> seat_status x' = seat_status x ->
  seat_status <$> im_sessions (put_session s k x') = seat_status <$> im_sessions s.
Proof.
  intros Hx Hs. simpl. rewrite list_fmap_insert, Hs. apply list_insert_id. by rewrite list_lookup_fmap, Hx.
Qed.

Lemma open_finish_outcome s k x request env :
  within_request s request (grant s request) -> right_seat (im_sessions s) k ->
  im_sessions s !! k = Some x ->
  exists answer s', open_finish s k (grant s request) request env = Val (answer, s') /\
    open_outcome s request (oe_now_ms env) answer s'.
Proof.
  intros Hg Hk Hx. unfold open_finish. destruct (negb (oe_connected env)); [by eexists _, _|].
  rewrite (session_at_some _ _ _ Hx), bind_val. cbv zeta.
  destruct (oe_session_id env) as [id|];
    [|eexists _, _; split; [done|]; by eapply put_status].
  destruct (oe_stream_id env) as [stream|];
    [|eexists _, _; split; [done|]; by eapply put_status].
  destruct (oe_probe_token env) as [token|];
    [|eexists _, _; split; [done|]; by eapply put_status].
  eexists _, _. split; [done|]. split; [done|]. split; [done|]. eexists k, _.
  split; [done|]. split; [done|]. by repeat split.
Qed.

Lemma handle_open_outcome s request env (Hs : serving s) (Hr : OpenRequest_ok request) :
  exists answer s', handle_open s request env = Val (answer, s') /\
    open_outcome s request (oe_now_ms env) answer s'.
Proof.
  unfold handle_open, open_begin. pose proof (grant_within s request Hs Hr) as Hg.
  do 5 (match goal with |- context [if ?c then _ else _] => destruct c;
    [eexists _, _; split; [done|]; done|] end).
  pose proof (select_seat_right (im_sessions s) [] None) as Hsel. simpl in Hsel.
  destruct (select_seat (im_sessions s) 0 None) as [k|].
  - pose proof Hsel as (x & Hx & _); [by split|]. apply (open_finish_outcome _ _ x); [by apply Hg|by apply Hsel|done].
  - eexists _, _. split; [done|]. split; [done|]. split; [done|]. intros _. apply list.Forall_lookup.
    intros j y Hj. by eapply Hsel.
Qed.

(** what an [Open] leaves behind on every branch.  A granted session is
    within both the request and the configuration in frame size, depth and
    window, none of them zero; it sits in the first seat never used, or else the
    one retired longest ago, with the lease, the identifiers and the window of
    the reply, and no other seat changes.  A refusal changes no seat, and "too
    many sessions" is only said when every seat is taken.  An exception leaves
    every seat's state, lease and transport as they were. *)
Theorem open_grants_lease s request env (Hs : serving s) (Hr : OpenRequest_ok request) :
  exists answer s', handle_open s request env = Val (answer, s') /\
    open_outcome s request (oe_now_ms env) answer s'.
Proof. by apply handle_open_outcome. Qed.

(** ** Renew *)

(** The seat [x] became [x'] by a renewal at [now] that was answered with [st]. *)
Definition renewed (c : PublisherConfig) (now : Z) (st : Status) (x x' : Session) : Prop :=
  ss_state x' = ss_state x /\ ss_identity x' = ss_identity x /\ ss_engine x' = ss_engine x /\
  ss_end_reason x' = ss_end_reason x /\
  (st = Ok -> ss_deadline_ms x' = u64 (now + pc_lease_ttl_ms c) /\
     ss_state x <> SS_Expiring /\ ss_state x <> SS_Closed /\
     rb_renewals_in_window (rate_window c (ss_renew x) now) < pc_max_renewals_per_ttl c) /\
  (st <> Ok -> ss_deadline_ms x' = ss_deadline_ms x) /\
  (ss_state x = SS_Expiring \/ ss_state x = SS_Closed -> st <> Ok /\ x' = x).

Definition renew_outcome s (request : RenewRequest) now (answer : handled) s' : Prop :=
  exists reply, answer = inl (Reply_Renew reply) /\ nr_session_id reply = nq_session_id request /\
  match session_for_id s (nq_session_id request) with
  | None => nr_status reply = UnknownSession /\ s' = s
  | Some k => exists x x', im_sessions s !! k = Some x /\ im_sessions s' = <[k := x']> (im_sessions s) /\
      nr_server_state reply = ss_state x /\ nr_geometry reply = si_geometry (ss_identity x) /\
      renewed (im_config s) now (nr_status reply) x x' /\
      ss_renew x' = (match nr_status reply with
        | Ok => mkRenewBook (rb_rate_window_start_ms (rate_window (im_config s) (ss_renew x) now))
                  (u32 (rb_renewals_in_window (rate_window (im_config s) (ss_renew x) now) + 1)) now
        | RenewTooFrequent => rate_window (im_config s) (ss_renew x) now
        | _ => ss_renew x
        end)
  end.

(** a renewal on every branch.  Only a session that is neither expiring nor
    closed and has not used up its renewals is extended, and then to exactly one
    lease period from now, whatever its deadline was; a refusal leaves the
    deadline alone, an expiring or closed session is never touched, no renewal
    changes a session's state, and no other seat changes. *)
Theorem renew_extends_by_one_ttl s request now :
  exists answer s', handle_renew s request now = Val (answer, s') /\ renew_outcome s request now answer s'.
Proof.
  unfold handle_renew, renew_outcome. cbv zeta.
  destruct (session_for_id s (nq_session_id request)) as [k|] eqn:Hk.
  2:{ eexists _, _. split; [done|]. eexists. by repeat split. }
  apply session_for_id_some in Hk as (x & Hx & _). rewrite (session_at_some _ _ _ Hx), bind_val.
  destruct (bool_decide (ss_state x = SS_Expiring) || bool_decide (ss_state x = SS_Closed)) eqn:Hend.
  { eexists _, _. split; [done|]. eexists. split; [done|]. split; [done|]. exists x, x.
    split; [done|]. rewrite list_insert_id by done. do 3 (split; [done|]). simpl.
    destruct (_ && _); (split; [|done]); by repeat split. }
  apply orb_false_iff in Hend as [He Hc]. apply bool_decide_eq_false in He, Hc.
  destruct (Z.leb_spec (pc_max_renewals_per_ttl (im_config s))
    (rb_renewals_in_window (rate_window (im_config s) (ss_renew x) now)));
    (eexists _, _; split; [done|]; eexists; split; [done|]; split; [done|]; eexists x, _;
     split; [done|]; split; [try done; by destruct (_ <? _)|]; do 2 (split; [done|])); simpl;
    (split; [|done]); unfold renewed; simpl; naive_solver lia.
Qed.

(** ** The rate of renewals *)

Definition accepted (answer : handled) : bool :=
  match answer with
  | inl (Reply_Renew reply) => bool_decide (nr_status reply = Ok)
  | _ => false
  end.

(** One client that renews at the times of a list: which renewals are accepted. *)
Fixpoint renew_all s (request : RenewRequest) (times : list Z) : ores (list bool * Impl) :=
  match times with
  | [] => Val ([], s)
  | now :: times =>
      let! (answer, s) := handle_renew s request now in
      let! (answers, s) := renew_all s request times in
      Val (accepted answer :: answers, s)
  end.

Lemma find_session_insert p xs j k x x' :
  xs !! k = Some x -> p x' = p x -> find_session p (<[k := x']> xs) j = find_session p xs j.
Proof.
  intros Hk Hp. revert j k Hk. induction xs as [|y xs IH]; intros j [|k] Hk; simplify_eq/=; [by rewrite Hp|].
  destruct (p y); [done|]. by apply IH.
Qed.

(** The session [k] is open, answers to [request], and its rate window is [b]. *)
Definition booked s (request : RenewRequest) (k : nat) (b : RenewBook) : Prop :=
  session_for_id s (nq_session_id request) = Some k /\
  exists x, im_sessions s !! k = Some x /\ ss_renew x = b /\
    ss_state x <> SS_Expiring /\ ss_state x <> SS_Closed.

Lemma handle_renew_books s request now k b :
  booked s request k b ->
  let w := rate_window (im_config s) b now in
  let ok := bool_decide (rb_renewals_in_window w < pc_max_renewals_per_ttl (im_config s)) in
  exists answer s', handle_renew s request now = Val (answer, s') /\ accepted answer = ok /\
    im_config s' = im_config s /\
    booked s' request k (if ok then mkRenewBook (rb_rate_window_start_ms w)
      (u32 (rb_renewals_in_window w + 1)) now else w).
Proof.
  intros [Hk (x & Hx & <- & He & Hc)] w ok. pose proof Hk as Hk'.
  apply session_for_id_some in Hk' as (x0 & Hx0 & _ & _).
  assert (forall s' x', im_sessions s' = <[k := x']> (im_sessions s) -> ss_state x' = ss_state x ->
    ss_identity x' = ss_identity x -> booked s' request k (ss_renew x')) as Hb.
  { intros s' x' Hs' Hst Hi. unfold booked, session_for_id. rewrite Hs'. split.
    - by rewrite (find_session_insert _ _ _ _ x) by (done || by rewrite Hst, Hi).
    - exists x'. rewrite Hst. split; [|done]. apply list_lookup_insert_eq. by eapply lookup_lt_Some. }
  unfold handle_renew. cbv zeta. rewrite Hk, (session_at_some _ _ _ Hx), bind_val.
  rewrite !bool_decide_eq_false_2 by done. cbn [orb]. subst ok w.
  destruct (Z.leb_spec (pc_max_renewals_per_ttl (im_config s))
    (rb_renewals_in_window (rate_window (im_config s) (ss_renew x) now))) as [Hle|Hle];
    [rewrite bool_decide_eq_false_2 by lia|rewrite bool_decide_eq_true_2 by lia];
    (eexists _, _; split; [done|]; split; [done|]).
  - split; [done|]. by apply (Hb _ (ss_with_renew x (ss_deadline_ms x) _)).
  - split; [by destruct (_ <? _)|].
    apply (Hb _ (ss_with_renew x (u64 (now + pc_lease_ttl_ms (im_config s))) _)); try done.
    by destruct (_ <? _).
Qed.

(** ** The rate limit as a schedule *)

(** The window each renewal falls in, named by its start: a window runs until the
    first renewal that comes [ttl] or more after its start, which begins the next. *)
Fixpoint rate_windows (ttl start : Z) (times : list Z) : list Z :=
  match times with
  | [] => []
  | t :: times =>
      let w := if ttl <=? t - start then t else start in w :: rate_windows ttl w times
  end.

(** How many renewals came before the [i]-th in its window. *)
Definition rank (windows : list Z) (i : nat) : Z :=
  match windows !! i with
  | Some w => Z.of_nat (length (filter (eq w) (firstn i windows)))
  | None => 0
  end.

(** With [used] renewals accepted in the window begun at [start]. *)
Fixpoint rate_schedule (max ttl start used : Z) (times : list Z) : list bool :=
  match times with
  | [] => []
  | t :: times =>
      let '(w, u) := if ttl <=? t - start then (t, 0) else (start, used) in
      bool_decide (u < max) :: rate_schedule max ttl w (if bool_decide (u < max) then u + 1 else u) times
  end.

Lemma length_rate_schedule max ttl times : forall start used,
  length (rate_schedule max ttl start used times) = length times.
Proof. induction times as [|t times IH]; intros; simpl; [done|]. by case_match; simpl; rewrite IH. Qed.

Lemma rate_windows_later ttl times : forall start w,
  0 < ttl -> StronglySorted Z.le (start :: times) -> w ∈ rate_windows ttl start times -> start <= w.
Proof.
  induction times as [|t times IH]; intros start w Httl Hs Hw; [by apply elem_of_nil in Hw|].
  apply StronglySorted_inv in Hs as [Hs Hle]. apply list.Forall_cons in Hle as [Hst Hle].
  simpl in Hw. destruct (Z.leb_spec ttl (t - start)) as [Ht|Ht].
  - apply elem_of_cons in Hw as [->|Hw]; [done|]. specialize (IH t w Httl Hs Hw). lia.
  - apply elem_of_cons in Hw as [->|Hw]; [done|]. apply (IH start w Httl); [|done].
    apply StronglySorted_inv in Hs as [Hs _]. by constructor.
Qed.

Lemma rank_cons w ws i w' :
  ws !! i = Some w' -> rank (w :: ws) (S i) = (if bool_decide (w' = w) then 1 else 0) + rank ws i.
Proof.
  intros Hi. unfold rank. simpl. rewrite Hi, filter_cons. case_decide; case_bool_decide; try done; simpl length; lia.
Qed.

Lemma rate_windows_lookup ttl times i : forall start,
  (i < length times)%nat -> is_Some (rate_windows ttl start times !! i).
Proof.
  revert i. induction times as [|t times IH]; intros [|i] start Hi; simpl in *; try lia; [done|].
  apply IH. lia.
Qed.

(** The schedule accepts exactly the first [max] renewals of every window; [r]
    renewals were asked for in the first window before. *)
Lemma rate_schedule_rank max ttl times : forall start r i w,
  0 < ttl -> 0 <= max -> 0 <= r -> StronglySorted Z.le (start :: times) ->
  rate_windows ttl start times !! i = Some w ->
  rate_schedule max ttl start (Z.min max r) times !! i =
    Some (bool_decide ((if bool_decide (w = start) then r else 0) +
                       rank (rate_windows ttl start times) i < max)).
Proof.
  induction times as [|t times IH]; intros start r i w Httl Hmax Hr Hs Hi; [done|].
  apply StronglySorted_inv in Hs as [Hs Hle]. apply list.Forall_cons in Hle as [Hst Hle].
  set (new := ttl <=? t - start). set (w0 := if new then t else start).
  set (r0 := if new then 0 else r).
  assert (rate_schedule max ttl start (Z.min max r) (t :: times) =
    bool_decide (Z.min max r0 < max) :: rate_schedule max ttl w0 (Z.min max (r0 + 1)) times) as ->.
  { assert (0 <= r0) as Hr0 by (subst r0; destruct new; lia).
    assert ((if new then (t, 0) else (start, Z.min max r)) = (w0, Z.min max r0)) as Hwu.
    { subst w0 r0. destruct new; [|done]. by rewrite Z.min_r by lia. }
    simpl. fold new. rewrite Hwu. do 2 f_equal. case_bool_decide; lia. }
  simpl in Hi. fold new w0 in Hi. simpl. fold new w0.
  assert (new = true -> start < t) as Hnew by (subst new; intros ?%Z.leb_le; lia).
  assert (StronglySorted Z.le (w0 :: times)) as Hs0.
  { subst w0. destruct new; [done|]. constructor; [|done]. by apply StronglySorted_inv in Hs as [? _]. }
  destruct i as [|i]; simpl in Hi.
  - injection Hi as <-. unfold rank. simpl. unfold w0, r0. do 2 f_equal. destruct new.
    + rewrite (bool_decide_eq_false_2 (t = start)) by (specialize (Hnew eq_refl); lia).
      apply bool_decide_ext. lia.
    + rewrite (bool_decide_eq_true_2 (start = start)) by done. apply bool_decide_ext. lia.
  - rewrite (rank_cons _ _ _ _ Hi). simpl. rewrite (IH w0 (r0 + 1) i w); try done; [|subst r0; destruct new; lia].
    do 2 f_equal. assert (w0 <= w) as Hw.
    { eapply (rate_windows_later ttl times w0 w Httl Hs0). by eapply list_elem_of_lookup_2. }
    unfold w0, r0 in *. destruct new.
    + specialize (Hnew eq_refl). rewrite (bool_decide_eq_false_2 (w = start)) by lia.
      apply bool_decide_ext. destruct (bool_decide (w = t)); lia.
    + apply bool_decide_ext. destruct (bool_decide (w = start)); lia.
Qed.

(** How many renewals were accepted at times in [[from, to)]. *)
Fixpoint accepted_between (from to : Z) (times : list Z) (answers : list bool) : Z :=
  match times, answers with
  | t :: times, ok :: answers =>
      (if ok && (from <=? t) && (t <? to) then 1 else 0) + accepted_between from to times answers
  | _, _ => 0
  end.

Lemma accepted_between_past from to times : forall answers,
  Forall (Z.le to) times -> accepted_between from to times answers = 0.
Proof.
  induction times as [|t times IH]; intros [|ok answers] Ht; simpl; try done.
  apply list.Forall_cons in Ht as [Ht Hts]. rewrite IH by done.
  destruct (Z.ltb_spec t to); [lia|]. by rewrite andb_false_r.
Qed.

(** From a time in the period on: what is left of the window that began at [start],
    and the next window when the period reaches it. *)
Lemma schedule_burst_from max ttl from times : forall start used,
  0 < ttl -> 0 <= used <= max -> StronglySorted Z.le (start :: times) -> Forall (Z.le from) times ->
  accepted_between from (from + ttl) times (rate_schedule max ttl start used times) <=
    max - used + (if from <=? start then 0 else max).
Proof.
  induction times as [|t times IH]; intros start used Httl Hu Hs Hf; [by simpl; case_match; lia|].
  apply StronglySorted_inv in Hs as [Hs Hle]. apply list.Forall_cons in Hle as [Hst Hle].
  apply list.Forall_cons in Hf as [Hft Hf].
  assert (StronglySorted Z.le (start :: times)) as Hs0.
  { constructor; [|done]. by apply StronglySorted_inv in Hs as [? _]. }
  assert (forall b n, (if b && (from <=? t) && (t <? from + ttl) then 1 else 0) + n <=
    (if b then 1 else 0) + n) as Hone by (intros [] n; repeat case_match; lia).
  simpl. destruct (Z.leb_spec ttl (t - start)) as [Hn|Hn].
  - destruct (Z.leb_spec from start) as [Hfs|Hfs].
    + rewrite accepted_between_past.
      { destruct (Z.ltb_spec t (from + ttl)); [lia|]. rewrite andb_false_r. lia. }
      apply StronglySorted_inv in Hs as [_ Hs]. eapply list.Forall_impl; [exact Hs|]. simpl. lia.
    + specialize (IH t (if bool_decide (0 < max) then 0 + 1 else 0) Httl).
      rewrite (proj2 (Z.leb_le from t)) in IH by done.
      etransitivity; [apply Hone|]. case_bool_decide; specialize (IH ltac:(lia) Hs Hf); lia.
  - specialize (IH start (if bool_decide (used < max) then used + 1 else used) Httl).
    etransitivity; [apply Hone|]. case_bool_decide; specialize (IH ltac:(lia) Hs0 Hf); lia.
Qed.

(** In any period of one [ttl] at most two windows' worth is accepted. *)
Lemma schedule_burst max ttl from times : forall start used,
  0 < ttl -> 0 <= used <= max -> StronglySorted Z.le (start :: times) ->
  accepted_between from (from + ttl) times (rate_schedule max ttl start used times) <= 2 * max.
Proof.
  induction times as [|t times IH]; intros start used Httl Hu Hs; [simpl; lia|].
  destruct (Z.le_gt_cases from t) as [Hft|Hft].
  - etransitivity; [apply schedule_burst_from; try done|case_match; lia].
    constructor; [done|]. apply StronglySorted_inv in Hs as [Hs _].
    apply StronglySorted_inv in Hs as [_ Hs]. eapply list.Forall_impl; [exact Hs|]. simpl. lia.
  - apply StronglySorted_inv in Hs as [Hs Hle]. apply list.Forall_cons in Hle as [Hst Hle].
    assert (StronglySorted Z.le (start :: times)) as Hs0.
    { constructor; [|done]. by apply StronglySorted_inv in Hs as [? _]. }
    assert (from <=? t = false) as Hno by (apply Z.leb_gt; lia).
    simpl. destruct (ttl <=? t - start); simpl; rewrite Hno, andb_false_r; simpl;
      apply IH; try done; case_bool_decide; lia.
Qed.

(** [renew_all] follows the schedule. *)
Lemma renew_all_schedule s request k b times :
  booked s request k b -> 0 < pc_lease_ttl_ms (im_config s) ->
  in_range 32 (pc_max_renewals_per_ttl (im_config s)) ->
  0 <= rb_renewals_in_window b <= pc_max_renewals_per_ttl (im_config s) ->
  StronglySorted Z.le (rb_rate_window_start_ms b :: times) ->
  0 <= rb_rate_window_start_ms b -> Forall (in_range 64) times ->
  exists s', renew_all s request times =
    Val (rate_schedule (pc_max_renewals_per_ttl (im_config s)) (pc_lease_ttl_ms (im_config s))
           (rb_rate_window_start_ms b) (rb_renewals_in_window b) times, s').
Proof.
  revert s b. induction times as [|now times IH]; intros s b Hb Httl Hmax Hu Hs Hz Ht; [by eexists|].
  apply StronglySorted_inv in Hs as [Hs Hle]. apply list.Forall_cons in Hle as [Hst Hle].
  apply list.Forall_cons in Ht as [Hnow Ht].
  destruct (handle_renew_books s request now k b Hb) as (answer & s1 & Hr & Ha & Hcfg & Hb1).
  cbn [renew_all]. rewrite Hr, bind_val, Ha. rewrite <-Hcfg in *.
  assert (u64 (now - rb_rate_window_start_ms b) = now - rb_rate_window_start_ms b) as Hw
    by (apply wrap_small; unfold in_range in *; lia).
  assert (StronglySorted Z.le (rb_rate_window_start_ms b :: times)) as Hs0.
  { constructor; [|done]. by apply StronglySorted_inv in Hs as [? _]. }
  cbn [rate_schedule]. unfold rate_window in *. rewrite Hw in *.
  destruct (pc_lease_ttl_ms (im_config s1) <=? now - rb_rate_window_start_ms b); simpl in *;
    case_bool_decide; simpl in *;
    (edestruct IH as (s' & Hs'); [exact Hb1|try done; simpl; rewrite ?wrap_small; unfold in_range in *; lia..|]);
    rewrite Hs', bind_val; simpl; rewrite ?wrap_small by (unfold in_range in *; lia); by eexists.
Qed.

(** C29: the rate limit is the one configured.  The renewals of an open session
    fall into windows: a window runs until the first renewal that comes a lease
    period or more after its start, which begins the next one.  Whatever the times
    at which a client renews, a renewal is accepted exactly when fewer than
    [max_renewals_per_ttl] came before it in its window; unused renewals are not
    carried over, so no lease period, wherever it begins, sees more than twice
    that number accepted.  No renewal faults. *)
Theorem renewal_rate_bounded s request k b times
  (Hb : booked s request k b) (Hfresh : rb_renewals_in_window b = 0)
  (Httl : 0 < pc_lease_ttl_ms (im_config s)) (Hmax : in_range 32 (pc_max_renewals_per_ttl (im_config s)))
  (Hsorted : StronglySorted Z.le (rb_rate_window_start_ms b :: times))
  (Hstart : 0 <= rb_rate_window_start_ms b) (Htimes : Forall (in_range 64) times) :
  let max := pc_max_renewals_per_ttl (im_config s) in
  let ttl := pc_lease_ttl_ms (im_config s) in
  let windows := rate_windows ttl (rb_rate_window_start_ms b) times in
  exists answers s', renew_all s request times = Val (answers, s') /\
    length answers = length times /\
    (forall i, (i < length times)%nat -> answers !! i = Some (bool_decide (rank windows i < max))) /\
    (forall from, accepted_between from (from + ttl) times answers <= 2 * max).
Proof.
  intros max ttl windows.
  destruct (renew_all_schedule s request k b times) as (s' & Hr); try done.
  { rewrite Hfresh. unfold in_range in Hmax. lia. }
  rewrite Hfresh in Hr. eexists _, s'. split; [exact Hr|]. fold max ttl.
  assert (0 <= max) as H0max by (unfold in_range in Hmax; lia).
  split; [apply length_rate_schedule|]. split.
  - intros i Hi. destruct (rate_windows_lookup ttl times i (rb_rate_window_start_ms b) Hi) as [w Hw].
    replace 0 with (Z.min max 0) at 1 by lia. erewrite rate_schedule_rank; [|try done; lia..].
    by case_match.
  - intros from. by apply schedule_burst.
Qed.
End Leases.

Lemma open_grants_lease_witness :
  exists answer s', handle_open (pw_impl sample_w0) sample_open sample_outside = Val (answer, s') /\
    open_outcome (pw_impl sample_w0) sample_open 1000 answer s'.
Proof.
  apply (open_grants_lease (pw_impl sample_w0) sample_open sample_outside); [apply sample_serving|].
  unfold OpenRequest_ok. do 7 (split; [by vm_compute|]). do 3 (split; [solve_enum|]). split; [by vm_compute|].
  unfold bounded. simpl. lia.
Defined.

(** The sample publisher with one session, opened at 1000 ms. *)
Definition sample_opened : Impl (BoundedQueue nat) (BoundedQueue PublishItem) :=
  match handle_open (pw_impl sample_w0) sample_open sample_outside with
  | Val (_, s) => s | _ => pw_impl sample_w0 end.
Definition sample_renew : RenewRequest := mkRenewRequest (replicate 16 Byte.x07) 0 0 0.

(** Ten renewals are accepted in the first window, the eleventh and twelfth are
    refused, and the thirteenth begins a new window. *)
Lemma renewal_rate_bounded_witness :
  let times := [1000; 1001; 1002; 1003; 1004; 1005; 1006; 1007; 1008; 1009; 1010; 1011; 11000; 11001] in
  let windows := rate_windows 10000 1000 times in
  windows = replicate 12 1000 ++ [11000; 11000] /\
  exists answers s', renew_all sample_opened sample_renew times = Val (answers, s') /\
    length answers = length times /\
    (forall i, (i < length times)%nat -> answers !! i = Some (bool_decide (rank windows i < 10))) /\
    (forall from, accepted_between from (from + 10000) times answers <= 2 * 10).
Proof.
  intros times windows. split; [by vm_compute|].
  assert (pc_lease_ttl_ms (im_config sample_opened) = 10000) as Httl by by vm_compute.
  assert (pc_max_renewals_per_ttl (im_config sample_opened) = 10) as Hmax by by vm_compute.
  assert (booked sample_opened sample_renew 0 (mkRenewBook 1000 0 1000)) as Hb.
  { split; [by vm_compute|]. eexists. split; [by vm_compute|]. by vm_compute. }
  pose proof (renewal_rate_bounded sample_opened sample_renew 0 (mkRenewBook 1000 0 1000) times Hb
    eq_refl) as H.
  cbv zeta in H. rewrite Httl, Hmax in H. apply H; try done.
  - repeat first [apply SSorted_nil|apply SSorted_cons|apply List.Forall_nil|apply List.Forall_cons|simpl; lia].
  - repeat first [apply List.Forall_nil|apply List.Forall_cons|by vm_compute].
Defined.

(** a lease can be renewed after its deadline.  The specification refuses a
    renewal that comes after expiry; [handle_renew] looks at the session's state
    only, which the engine's sweep changes later, so a renewal that arrives after
    the deadline but before the next sweep is accepted and the session lives on. *)
Theorem renewal_after_deadline_accepted :
  (ss_deadline_ms <$> im_sessions sample_opened) = [11000; 0] /\
  match handle_renew sample_opened sample_renew 99000 with
  | Val (inl (Reply_Renew reply), s') => nr_status reply = Ok /\
      (ss_deadline_ms <$> im_sessions s') = [109000; 0] /\
      im_counters s' renewals_accepted = 1
  | _ => False
  end.
Proof. by vm_compute. Qed.

(** ** The hand-over of [connect] *)

(** [connect] on a command thread, in parts, and the engine's turn. *)
Inductive connect_op : Type :=
| CBegin (t : nat)
| CDrain (reachable : nat -> bool)
| CEnd (t : nat) (timeout : bool).

Definition connect_step (c : Connecting) (op : connect_op) : ores Connecting :=
  match op with
  | CBegin t => Val (connect_begin c t)
  | CDrain reachable => drain_connect_requests c reachable
  | CEnd t timeout => let! (_, c) := connect_end c t timeout in Val c
  end.

(** A thread waits for a task of its own, and the engine gets to it in time. *)
Definition in_time (c : Connecting) (op : connect_op) : Prop :=
  match op with
  | CBegin t => cn_tasks c !! t = None
  | CDrain _ => True
  | CEnd t timeout => is_Some (cn_tasks c !! t) /\ timeout = false
  end.

Inductive connect_run : Connecting -> Connecting -> Prop :=
| connect_none c : connect_run c c
| connect_more c op c1 c2 : in_time c op -> connect_step c op = Val c1 -> connect_run c1 c2 -> connect_run c c2.

(** The queue holds tasks whose threads still wait, and [done] tasks are not in it. *)
Definition connect_inv (c : Connecting) : Prop :=
  NoDup (cn_queue c) /\
  forall t, t ∈ cn_queue c -> exists task, cn_tasks c !! t = Some task /\ ct_done task = false.

Lemma connect_writes_ok f batch tasks :
  (forall t, t ∈ batch -> is_Some (tasks !! t)) -> NoDup batch ->
  exists tasks', connect_writes f batch tasks = Val tasks' /\
    forall t, tasks' !! t = if decide (t ∈ batch) then f t <$> tasks !! t else tasks !! t.
Proof.
  revert tasks. induction batch as [|t batch IH]; intros tasks Hall Hnd.
  { eexists. split; [done|]. intros t. by rewrite decide_False by apply not_elem_of_nil. }
  apply list.NoDup_cons in Hnd as [Hnin Hnd]. simpl.
  destruct (Hall t) as [task Ht]; [by left|]. rewrite Ht.
  destruct (IH (<[t := f t task]> tasks)) as (tasks' & -> & Hl); [|done|].
  { intros u Hu. rewrite lookup_insert_ne by set_solver. apply Hall. by right. }
  eexists. split; [done|]. intros u. rewrite Hl. destruct (decide (u = t)) as [->|Hne].
  - rewrite decide_False by done. rewrite decide_True by (by left). by rewrite lookup_insert_eq, Ht.
  - rewrite lookup_insert_ne by done. destruct (decide (u ∈ batch)).
    + by rewrite decide_True by (by right).
    + rewrite decide_False; [done|]. by rewrite not_elem_of_cons.
Qed.

Lemma drain_ok c reachable :
  connect_inv c ->
  exists c', drain_connect_requests c reachable = Val c' /\ cn_queue c' = [] /\
    (forall t, t ∈ cn_queue c -> cn_tasks c' !! t = Some (mkConnectTask (reachable t) true)) /\
    (forall t, t ∉ cn_queue c -> cn_tasks c' !! t = cn_tasks c !! t).
Proof.
  intros [Hnd Hq]. unfold drain_connect_requests.
  destruct (connect_writes_ok (fun t task => mkConnectTask (reachable t) (ct_done task)) (cn_queue c) (cn_tasks c))
    as (tasks1 & -> & H1); [|done|].
  { intros t Ht. destruct (Hq t Ht) as (task & -> & _). by eexists. }
  rewrite bind_val.
  destruct (connect_writes_ok (fun t task => mkConnectTask (ct_ok task) true) (cn_queue c) tasks1)
    as (tasks2 & -> & H2); [|done|].
  { intros t Ht. rewrite H1, decide_True by done. destruct (Hq t Ht) as (task & -> & _). by eexists. }
  rewrite bind_val. eexists. split; [done|]. split; [done|]. simpl.
  split; intros t Ht.
  - rewrite H2, decide_True, H1, decide_True by done. by destruct (Hq t Ht) as (task & -> & _).
  - by rewrite H2, decide_False, H1, decide_False.
Qed.

Lemma connect_step_ok c op :
  connect_inv c -> in_time c op -> exists c', connect_step c op = Val c' /\ connect_inv c'.
Proof.
  intros Hinv Hop. pose proof Hinv as [Hnd Hq]. destruct op as [t|reachable|t timeout]; simpl in *.
  - eexists. split; [done|]. split; simpl.
    + apply list.NoDup_app. split; [done|]. split; [|apply NoDup_singleton]. intros u Hu Ht. apply list_elem_of_singleton in Ht as ->.
      destruct (Hq t Hu) as (task & Hs & _). congruence.
    + intros u Hu. apply elem_of_app in Hu as [Hu|Hu]; [|apply list_elem_of_singleton in Hu as ->].
      * destruct (Hq u Hu) as (task & Ht & Hd). exists task.
        rewrite lookup_insert_ne by congruence. done.
      * exists (mkConnectTask false false). by rewrite lookup_insert_eq.
  - destruct (drain_ok c reachable Hinv) as (c' & -> & Hnil & _). eexists. split; [done|].
    unfold connect_inv. rewrite Hnil. split; [constructor|]. intros t Ht. by apply elem_of_nil in Ht.
  - destruct Hop as [[task Ht] ->]. unfold connect_end. rewrite Ht. destruct (ct_done task) eqn:Hd; simpl.
    2:{ by exists c. }
    eexists. split; [done|]. split; [done|]. simpl. intros u Hu. destruct (Hq u Hu) as (task' & Hu' & Hd').
    exists task'. rewrite lookup_delete_ne by congruence. done.
Qed.

Lemma connect_run_inv c c' : connect_run c c' -> connect_inv c -> connect_inv c'.
Proof.
  induction 1 as [|c op c1 c2 Hop Hstep _ IH]; [done|]. intros Hinv.
  destruct (connect_step_ok c op Hinv Hop) as (c1' & Hstep' & Hinv'). apply IH. congruence.
Qed.

(** as long as no wait times out, the engine never writes to a task that has
    gone, and each [connect] it serves learns whether its own client was
    reachable, however many command threads wait at once. *)
Theorem connect_in_time_safe c (Hrun : connect_run (mkConnecting ∅ []) c) :
  (forall op, in_time c op -> exists c', connect_step c op = Val c') /\
  (forall reachable, exists c', drain_connect_requests c reachable = Val c' /\
     forall t, t ∈ cn_queue c -> exists c'', connect_end c' t false = Val (Some (reachable t), c'')).
Proof.
  apply connect_run_inv in Hrun; [|split; [constructor|intros t Ht; by apply elem_of_nil in Ht]]. split.
  - intros op Hop. destruct (connect_step_ok c op Hrun Hop) as (c' & ? & _). by exists c'.
  - intros reachable. destruct (drain_ok c reachable Hrun) as (c' & Hd & _ & Hdone & _). exists c'.
    split; [done|]. intros t Ht. unfold connect_end. rewrite (Hdone t Ht). simpl. by eexists.
Qed.

Lemma connect_in_time_safe_witness :
  let c := connect_begin (connect_begin (mkConnecting ∅ []) 0) 1 in
  exists c', drain_connect_requests c (fun t => bool_decide (t = 1%nat)) = Val c' /\
    forall t, t ∈ [0%nat; 1%nat] -> exists c'', connect_end c' t false = Val (Some (bool_decide (t = 1%nat)), c'').
Proof.
  apply (connect_in_time_safe (connect_begin (connect_begin (mkConnecting ∅ []) 0) 1)).
  apply (connect_more _ (CBegin 0) (connect_begin (mkConnecting ∅ []) 0)); [done|done|].
  apply (connect_more _ (CBegin 1) (connect_begin (connect_begin (mkConnecting ∅ []) 0) 1)); [done|done|].
  apply connect_none.
Defined.

(** a wait that times out leaves the engine a dangling task.  [connect] puts
    the address of a local [ConnectTask] in [connect_queue] and returns after five
    seconds without taking it out; the engine, which a teardown can hold for longer
    than that, then writes through the pointer. *)
Theorem connect_timeout_dangles :
  exists c, connect_step (connect_begin (mkConnecting ∅ []) 0) (CEnd 0 true) = Val c /\
    cn_tasks c !! 0%nat = None /\ cn_queue c = [0%nat] /\
    forall reachable, drain_connect_requests c reachable = Fault.
Proof. eexists. split; [done|]. by repeat split. Qed.
