(* ===== verification/Subscription.v ===== *)
(** * The subscription

    [Subscription::Impl] and [SubscriptionFactory::open] of
    [src/core/subscription.cpp]: opening a session, keeping it alive, reconnecting,
    and ending.  The coordination channel, the transport, the random source and the
    clock are arguments.  The control thread is a machine whose steps end where the
    source waits, looks at [running], or has an exchange with the publisher between
    two changes of what the application sees; the calls of the application are steps
    of their own, so a run is any interleaving of the two.  A command that only
    precedes the changes of its step -- [BulkRenew], [BulkClose] -- is part of it. *)
From Stdlib Require Import Init.Byte.
From stdpp Require Import list.
From S2P Require Import Prelude Enums Limits ByteOrder Geometry Protocol Offer Config.
From S2P Require Import ClientSession BoundedQueue DeliveryQueue.
#[local] Open Scope Z_scope.

(** ** What comes from outside *)

(** A [BulkException], or another [std::exception] with its [what()]. *)
Inductive raised : Type := RaisedBulk (e : BulkError) | RaisedStd (what : bytes).

Definition error_of (status : Status) (r : raised) : BulkError :=
  match r with RaisedBulk e => e | RaisedStd what => mkBulkError status what (str "subscriber") end.

Definition subscriber_error (status : Status) (message : bytes) : BulkError :=
  mkBulkError status message (str "subscriber").

(** [CoordinationChannel]. *)
Definition channel : Type := CoordType -> bytes -> bytes + raised.

(** What a transport answers to [state], [last_error] and [counters]. *)
Record transport_view : Type := mkView {
  tv_state : SubscriberState;
  tv_error : BulkError;
  tv_counters : SubscriberCounters
}.

(** What one [open_subscription] meets up to the wait for the probe: the factory
    ([inl None] is a null transport, [inl (Some address)] one with that local
    address), the generator, the channel, and [activate] with the error the
    transport reports when it fails. *)
Record open_answers : Type := mkOpenAnswers {
  oa_factory : option bytes + raised;
  oa_instance : bytes + raised;
  oa_channel : channel;
  oa_activate : Status;
  oa_activate_error : BulkError;
  oa_old : SubscriberCounters;
  oa_new : SubscriberCounters
}.

(** ** State *)

(** What is guarded by [observation]. *)
Record Observed : Type := mkObserved {
  ob_retired : SubscriberCounters;
  ob_live : SubscriberCounters;
  ob_last_lease_ttl_ms : Z;
  ob_current_geometry : Geometry;
  ob_actual_plan : ReceivePlan;
  ob_retired_geometry : Geometry;
  ob_last_error : BulkError
}.

(** The atomic counters. *)
Record Tallies : Type := mkTallies {
  ta_correlation : Z;
  ta_reconnects : Z;
  ta_geometry_changes : Z;
  ta_renewals_sent : Z;
  ta_renewals_failed : Z
}.

(** The life cycle flags. *)
Record Lifecycle : Type := mkLifecycle {
  lc_state : SubscriberState;
  lc_running : bool;
  lc_interrupted : bool;
  lc_shutdown_started : bool;
  lc_shutdown_complete : bool;
  lc_control_started : bool;
  lc_control_finished : bool
}.

Section Subscription.
Context {Q F : Type} `{BoundedFifo Q F}.
Abbreviation Delivery := (State Q).

(** [su_transport] is the ingress the live transport was made with. *)
Record Subscription : Type := mkSubscription {
  su_config : SubscriberConfig;
  su_session : ClientSession;
  su_delivered_at_open : Z;
  su_delivery : Delivery;
  su_transport : option nat;
  su_observed : Observed;
  su_tallies : Tallies;
  su_life : Lifecycle
}.

Definition with_session (s : Subscription) x := mkSubscription (su_config s) x
  (su_delivered_at_open s) (su_delivery s) (su_transport s) (su_observed s) (su_tallies s) (su_life s).
Definition with_delivered_at_open (s : Subscription) n := mkSubscription (su_config s) (su_session s)
  n (su_delivery s) (su_transport s) (su_observed s) (su_tallies s) (su_life s).
Definition with_delivery (s : Subscription) d := mkSubscription (su_config s) (su_session s)
  (su_delivered_at_open s) d (su_transport s) (su_observed s) (su_tallies s) (su_life s).
Definition with_transport (s : Subscription) t := mkSubscription (su_config s) (su_session s)
  (su_delivered_at_open s) (su_delivery s) t (su_observed s) (su_tallies s) (su_life s).
Definition with_observed (s : Subscription) o := mkSubscription (su_config s) (su_session s)
  (su_delivered_at_open s) (su_delivery s) (su_transport s) o (su_tallies s) (su_life s).
Definition with_tallies (s : Subscription) t := mkSubscription (su_config s) (su_session s)
  (su_delivered_at_open s) (su_delivery s) (su_transport s) (su_observed s) t (su_life s).
Definition with_life (s : Subscription) l := mkSubscription (su_config s) (su_session s)
  (su_delivered_at_open s) (su_delivery s) (su_transport s) (su_observed s) (su_tallies s) l.

Definition set_state (s : Subscription) (st : SubscriberState) : Subscription :=
  let l := su_life s in
  with_life s (mkLifecycle st (lc_running l) (lc_interrupted l) (lc_shutdown_started l)
    (lc_shutdown_complete l) (lc_control_started l) (lc_control_finished l)).
Definition stop_running (s : Subscription) : Subscription :=
  let l := su_life s in
  with_life s (mkLifecycle (lc_state l) false (lc_interrupted l) (lc_shutdown_started l)
    (lc_shutdown_complete l) (lc_control_started l) (lc_control_finished l)).
Definition set_live (s : Subscription) (c : SubscriberCounters) : Subscription :=
  let o := su_observed s in
  with_observed s (mkObserved (ob_retired o) c (ob_last_lease_ttl_ms o) (ob_current_geometry o)
    (ob_actual_plan o) (ob_retired_geometry o) (ob_last_error o)).
Definition set_geometry (s : Subscription) (g : Geometry) (p : ReceivePlan) : Subscription :=
  let o := su_observed s in
  with_observed s (mkObserved (ob_retired o) (ob_live o) (ob_last_lease_ttl_ms o) g p
    (ob_retired_geometry o) (ob_last_error o)).
Definition set_last_error (s : Subscription) (e : BulkError) : Subscription :=
  let o := su_observed s in
  with_observed s (mkObserved (ob_retired o) (ob_live o) (ob_last_lease_ttl_ms o)
    (ob_current_geometry o) (ob_actual_plan o) (ob_retired_geometry o) e).

(** [next_correlation_id]: the number and the state after it. *)
Definition next_correlation_id (s : Subscription) : Z * Subscription :=
  let t := su_tallies s in
  let c := u64 (ta_correlation t + 1) in
  (c, with_tallies s (mkTallies c (ta_reconnects t) (ta_geometry_changes t) (ta_renewals_sent t)
         (ta_renewals_failed t))).
Definition count_reconnect (s : Subscription) : Subscription :=
  let t := su_tallies s in
  with_tallies s (mkTallies (ta_correlation t) (u64 (ta_reconnects t + 1)) (ta_geometry_changes t)
    (ta_renewals_sent t) (ta_renewals_failed t)).
Definition count_geometry_change (s : Subscription) : Subscription :=
  let t := su_tallies s in
  with_tallies s (mkTallies (ta_correlation t) (ta_reconnects t) (u64 (ta_geometry_changes t + 1))
    (ta_renewals_sent t) (ta_renewals_failed t)).
Definition count_renewal_sent (s : Subscription) : Subscription :=
  let t := su_tallies s in
  with_tallies s (mkTallies (ta_correlation t) (ta_reconnects t) (ta_geometry_changes t)
    (u64 (ta_renewals_sent t + 1)) (ta_renewals_failed t)).
Definition count_renewal_failed (s : Subscription) : Subscription :=
  let t := su_tallies s in
  with_tallies s (mkTallies (ta_correlation t) (ta_reconnects t) (ta_geometry_changes t)
    (ta_renewals_sent t) (u64 (ta_renewals_failed t + 1))).

(** ** Publication *)

Definition publish_observation (s : Subscription) (sampled : SubscriberCounters) : Subscription :=
  set_live s (match su_transport s with Some _ => sampled | None => SubscriberCounters_default end).

(** [publish_transport]; [old] are the counters of the transport that goes,
    [new] those of the one that comes. *)
Definition publish_transport (s : Subscription) (next : option nat) (discard_queued : bool)
    (old new : SubscriberCounters) : Subscription :=
  let s := match su_transport s with
    | None => s
    | Some _ =>
        let s := with_delivery s (retire_ingress (su_delivery s)) in
        let o := su_observed s in
        let g := ob_current_geometry o in
        let s := with_observed s
          (mkObserved (accumulate (ob_retired o) old) SubscriberCounters_default
             (Z.max (ob_last_lease_ttl_ms o) (cs_lease_ttl_ms (su_session s)))
             Geometry_default ReceivePlan_default
             (if negb (geo_generation g =? 0) then g else ob_retired_geometry o) (ob_last_error o)) in
        let s := with_transport (with_session s ClientSession_default) None in
        if discard_queued then with_delivery s (snd (discard (su_delivery s))) else s
    end in
  publish_observation (with_transport s next) new.

Definition transition (s : Subscription) (next : SubscriberState) (error : BulkError) : Subscription :=
  let s := if bool_decide (next = Sub_Failed) then with_delivery s (fail (su_delivery s) error) else s in
  let s := set_state s next in
  if bool_decide (next = Sub_Failed) then set_last_error s error
  else if bool_decide (next = Sub_Active) then set_last_error s BulkError_default
  else s.

(** ** Opening and closing a session *)

(** [close_candidate]: the answer is ignored. *)
Definition close_candidate (s : Subscription) : Subscription := snd (next_correlation_id s).

(** [close_session]: [BulkClose] is sent and its answer ignored. *)
Definition close_session (s : Subscription) (discard_queued : bool) (old : SubscriberCounters)
    : Subscription :=
  let s := match su_transport s with Some _ => snd (next_correlation_id s) | None => s end in
  publish_transport s None discard_queued old SubscriberCounters_default.

Definition retire_made (s : Subscription) : Subscription :=
  with_delivery s (retire_ingress (su_delivery s)).

(** The exchange of [open_subscription]: the adopted candidate, or the error. *)
Definition open_exchange (s : Subscription) (address : bytes) (a : open_answers)
    : result ((ClientSession + BulkError) * Subscription) :=
  let '(correlation_id, s) := next_correlation_id s in
  match oa_instance a with
  | inr r => Val (inr (error_of TransportFailure r), s)
  | inl instance =>
      match make_open_request (su_config s) address correlation_id instance with
      | Fault => Fault
      | Err e => Val (inr e, s)
      | Val request =>
          match oa_channel a CT_Open request with
          | inr r => Val (inr (error_of TransportFailure r), s)
          | inl reply =>
              let! (status, candidate) :=
                adopt_open_reply ClientSession_default reply (su_config s) correlation_id in
              Val (if bool_decide (status <> Ok)
                   then inr (subscriber_error status
                               (str "BulkOpen was refused: " ++ Status_to_string status))
                   else inl candidate, s)
          end
      end
  end.

(** [open_subscription] up to the command: the ingress of the transport that is
    made, and its address. *)
Definition open_prepare (s : Subscription) (a : open_answers) : (nat * bytes + BulkError) * Subscription :=
  let '(ingress, d) := make_ingress (su_delivery s) in
  let s := with_delivery s d in
  match oa_factory a with
  | inr r => (inr (error_of Internal r), retire_made s)
  | inl None =>
      (inr (subscriber_error Internal (str "the transport factory returned nothing")), retire_made s)
  | inl (Some address) => (inl (ingress, address), s)
  end.

(** From the command up to the wait for the probe: [None] when it goes on to wait,
    [Some error] when it returns false. *)
Definition open_complete (s : Subscription) (ingress : nat) (address : bytes) (a : open_answers)
    : result (option BulkError * Subscription) :=
  let! (answer, s) := open_exchange s address a in
  match answer with
  | inr error => Val (Some error, retire_made s)
  | inl candidate =>
      let granted := to_geometry (cs_granted candidate) in
      let retired := ob_retired_geometry (su_observed s) in
      if negb (geo_generation retired =? 0) && negb (Geometry_describes_same_array retired granted) then
        let s := retire_made (close_candidate (count_geometry_change s)) in
        Val (Some (subscriber_error GeometryMismatch
               (str "the reopened session describes a different array than the one that was retired; the application must open a new subscription with the new contract in hand")), s)
      else
      let s := with_session s candidate in
      let s := set_geometry s granted (from_limits (geo_max_frame_bytes granted)
                 (geo_ring_depth granted) (geo_credit_window granted)) in
      let s := with_delivered_at_open s (st_taken (stats (su_delivery s))) in
      if bool_decide (oa_activate a <> Ok) then
        let error := if bool_decide (be_status (oa_activate_error a) <> Ok) then oa_activate_error a
          else subscriber_error (oa_activate a) (str "the transport could not adopt the grant") in
        let s := retire_made (close_candidate s) in
        Val (Some error, set_geometry (with_session s ClientSession_default)
                           Geometry_default ReceivePlan_default)
      else
      let s := publish_transport s (Some ingress) true (oa_old a) (oa_new a) in
      Val (None, transition s Sub_Probing BulkError_default)
  end.

(** [open_subscription] up to the wait for the probe, with nothing in between. *)
Definition open_session (s : Subscription) (a : open_answers)
    : result (option BulkError * Subscription) :=
  match open_prepare s a with
  | (inr error, s) => Val (Some error, s)
  | (inl (ingress, address), s) => open_complete s ingress address a
  end.

(** One turn of the wait for the probe: [Some None] for true, [Some (Some error)]
    for false, [None] to sleep and look again.  [running] is read in the turn. *)
Definition probe_turn (s : Subscription) (v : transport_view) (now deadline : Z)
    : option (option BulkError) * Subscription :=
  let observed := match su_transport s with Some _ => tv_state v | None => Sub_Failed end in
  let failed error := (Some (Some error), close_session s true (tv_counters v)) in
  if bool_decide (observed = Sub_Active)
  then (Some None, transition s Sub_Active BulkError_default)
  else if bool_decide (observed = Sub_Failed) || negb (lc_running (su_life s)) then
    let error := match su_transport s with Some _ => tv_error v | None => BulkError_default end in
    failed (if bool_decide (be_status error = Ok)
            then subscriber_error TransportFailure
                   (str "the transport failed before the probe was answered")
            else error)
  else if deadline <=? now then
    failed (subscriber_error TransportFailure
      (str "no Probe arrived within probe_timeout_ms; the publisher cannot reach this client's UCX endpoint"))
  else (None, s).

(** ** Renewing *)

Definition current_renew_interval (s : Subscription) : Z :=
  let granted := cs_renew_interval_ms (su_session s) in
  if granted =? 0 then 1000 else granted.

Definition renew_once (s : Subscription) (v : transport_view) (ch : channel)
    : result (Status * BulkError * Subscription) :=
  match su_transport s with
  | None => Val (Internal, subscriber_error Internal (str "the transport disappeared"), s)
  | Some _ =>
      let '(correlation_id, s) := next_correlation_id s in
      let failed status error s :=
        Val (status, error, if bool_decide (status <> Ok) then count_renewal_failed s else s) in
      match make_renew_request (su_session s) correlation_id
              (u64 (st_taken (stats (su_delivery s)) - su_delivered_at_open s))
              (tv_counters v SC_credits_returned) (u32 (raw (tv_state v))) with
      | Fault => Fault
      | Err e => failed (be_status e) e s
      | Val request =>
          let s := count_renewal_sent s in
          match ch CT_Renew request with
          | inr r => let e := error_of TransportFailure r in failed (be_status e) e s
          | inl reply =>
              let! (outcome, x) := adopt_renew_reply (su_session s) reply correlation_id in
              let s := with_session s x in
              let status := ro_status outcome in
              if bool_decide (status <> Ok)
              then failed status (subscriber_error status
                     (str "BulkRenew was refused: " ++ Status_to_string status)) s
              else Val (Ok, BulkError_default, s)
          end
      end
  end.

(** ** The control thread *)

(** Where the control thread is: at the top of [control_loop], waiting in
    [run_session] for the next renewal, past a session that was lost, at the top of
    [reconnect]'s loop, in [backoff], past it, in the exchange of [open_subscription]
    with a transport made, waiting for the probe, and at the end. *)
Inductive control_pc : Type :=
| C_Top
| C_Session (next_renew : Z)
| C_Lost (error : BulkError)
| C_Retry (attempt : Z) (error : BulkError)
| C_Backoff (attempt : Z) (error : BulkError)
| C_Reopen (attempt : Z)
| C_Exchange (attempt : Z) (ingress : nat) (address : bytes)
| C_Probe (attempt : Z) (deadline : Z)
| C_Finish
| C_Done.

(** What one step meets: the clock before and after its calls, the transport, the
    channel and an attempt to open. *)
Record control_env : Type := mkControlEnv {
  ce_now : Z;
  ce_after : Z;
  ce_view : transport_view;
  ce_channel : channel;
  ce_open : open_answers
}.

(** One turn of [run_session] after its wait. *)
Definition session_turn (s : Subscription) (next_renew : Z) (env : control_env)
    : result (control_pc * Subscription) :=
  if negb (lc_running (su_life s)) then Val (C_Finish, s) else
  match su_transport s with
  | None => Val (C_Lost (subscriber_error Internal (str "the transport disappeared")), s)
  | Some _ =>
      let v := ce_view env in
      let s := publish_observation s (tv_counters v) in
      if bool_decide (tv_state v = Sub_Failed) then
        Val (C_Lost (if bool_decide (be_status (tv_error v) <> Ok) then tv_error v
                     else subscriber_error TransportFailure (str "the transport reported a failure")), s)
      else if ce_now env <? next_renew then Val (C_Session next_renew, s)
      else
      let! (status, error, s) := renew_once s v (ce_channel env) in
      if bool_decide (status = Ok) || bool_decide (status = RenewTooFrequent)
      then Val (C_Session (ce_after env + current_renew_interval s), s)
      else Val (C_Lost error, s)
  end.

(** After [open_subscription] returned false in [reconnect]. *)
Definition retry_or_fail (s : Subscription) (attempt : Z) (error : BulkError) : control_pc * Subscription :=
  if bool_decide (be_status error = GeometryMismatch)
  then (C_Finish, transition s Sub_Failed error)
  else (C_Retry attempt error, s).

Definition control_step (pc : control_pc) (s : Subscription) (env : control_env)
    : result (control_pc * Subscription) :=
  let c := su_config s in
  match pc with
  | C_Top =>
      if negb (lc_running (su_life s)) then Val (C_Finish, s)
      else Val (C_Session (ce_now env + current_renew_interval s), s)
  | C_Session next_renew => session_turn s next_renew env
  | C_Lost error =>
      let s := close_session s false (tv_counters (ce_view env)) in
      if negb (lc_running (su_life s)) then Val (C_Finish, s)
      else if bool_decide (sc_reconnect_policy c <> RP_BoundedRetry)
      then Val (C_Finish, transition s Sub_Failed error)
      else Val (C_Retry 0 error, s)
  | C_Retry attempt error =>
      if negb (lc_running (su_life s)) then Val (C_Finish, s)
      else if sc_reconnect_max_attempts c <=? attempt then
        Val (C_Finish, transition s Sub_Failed
               (mkBulkError (be_status error) (str "reconnect attempts exhausted: " ++ be_message error)
                  (be_origin error)))
      else
      let s := count_reconnect (transition s Sub_Reconnecting error) in
      if backoff_delay attempt (sc_reconnect_backoff_ms c) (ob_last_lease_ttl_ms (su_observed s)) <=? 0
      then Val (C_Finish, s) else Val (C_Backoff attempt error, s)
  | C_Backoff attempt error =>
      if negb (lc_running (su_life s)) then Val (C_Finish, s)
      else Val (C_Reopen (u32 (attempt + 1)), s)
  | C_Reopen attempt =>
      let s := with_delivery s (snd (discard (su_delivery s))) in
      let s := transition s Sub_Opening BulkError_default in
      Val (match open_prepare s (ce_open env) with
           | (inr error, s) => retry_or_fail s attempt error
           | (inl (ingress, address), s) => (C_Exchange attempt ingress address, s)
           end)
  | C_Exchange attempt ingress address =>
      let! (failure, s) := open_complete s ingress address (ce_open env) in
      Val (match failure with
           | Some error => retry_or_fail s attempt error
           | None => (C_Probe attempt (ce_now env + sc_probe_timeout_ms c), s)
           end)
  | C_Probe attempt deadline =>
      match probe_turn s (ce_view env) (ce_now env) deadline with
      | (None, s) => Val (C_Probe attempt deadline, s)
      | (Some None, s) => Val (C_Top, s)
      | (Some (Some error), s) => Val (retry_or_fail s attempt error)
      end
  | C_Finish =>
      let s := if negb (lc_interrupted (su_life s))
               then close_session s true (tv_counters (ce_view env)) else s in
      let s := if bool_decide (lc_state (su_life s) = Sub_Failed) then stop_running s else s in
      let l := su_life s in
      Val (C_Done, with_life s (mkLifecycle (lc_state l) (lc_running l) (lc_interrupted l)
             (lc_shutdown_started l) (lc_shutdown_complete l) (lc_control_started l) true))
  | C_Done => Val (C_Done, s)
  end.

(** ** The application *)

Definition subscription_interrupt (s : Subscription) : Subscription :=
  let l := su_life s in
  let s := with_life s (mkLifecycle (lc_state l) false true (lc_shutdown_started l)
             (lc_shutdown_complete l) (lc_control_started l) (lc_control_finished l)) in
  with_delivery s (interrupt (su_delivery s)).

(** [shutdown] up to the wait for the threads; a second caller only waits. *)
Definition shutdown_begin (s : Subscription) : Subscription :=
  let l := su_life s in
  if lc_shutdown_complete l || lc_shutdown_started l then s else
  let s := with_life s (mkLifecycle (lc_state l) false (lc_interrupted l) true
             (lc_shutdown_complete l) (lc_control_started l) (lc_control_finished l)) in
  with_delivery s (close (su_delivery s)).

(** The rest of [shutdown]: [control_detached] when the control thread is the
    caller or did not finish in time. *)
Definition shutdown_finish (s : Subscription) (control_detached announce_closed : bool)
    (old : SubscriberCounters) : Subscription :=
  let l := su_life s in
  let s := if negb (lc_control_started l) || (lc_interrupted l && negb control_detached)
           then close_session s true old else s in
  let s := if announce_closed then transition s Sub_Closed BulkError_default else s in
  let l := su_life s in
  with_life s (mkLifecycle (lc_state l) (lc_running l) (lc_interrupted l) (lc_shutdown_started l)
    true (lc_control_started l) (lc_control_finished l)).

(** [throw_delivery_terminal]. *)
Definition delivery_terminal (r : DeliveryRead F) : BulkError :=
  match dr_kind r with
  | KClosed => subscriber_error Shutdown (str "the subscription is closed")
  | KInterrupted => subscriber_error Shutdown (str "the subscription was interrupted")
  | KSessionFailed =>
      if bool_decide (be_status (dr_error r) = Ok)
      then subscriber_error TransportFailure (str "the subscription failed") else dr_error r
  | KCallbackFailed =>
      if bool_decide (be_status (dr_error r) = Ok)
      then subscriber_error Internal (str "the frame callback failed") else dr_error r
  | KFrame | KEmpty | KTimeout => subscriber_error Internal (str "the delivery result was not terminal")
  end.

(** [try_read] and [read_for]; [None] from [read_for] while it still waits. *)
Definition try_read (s : Subscription) : (option F + BulkError) * Subscription :=
  if bool_decide (sc_delivery_mode (su_config s) <> DM_Pull)
  then (inr (subscriber_error Internal (str "try_read() requires DeliveryMode::Pull")), s) else
  let '(r, d) := try_read_result (su_delivery s) in
  let s := with_delivery s d in
  match dr_kind r with
  | KFrame => (inl (dr_frame r), s)
  | KEmpty => (inl None, s)
  | _ => (inr (delivery_terminal r), s)
  end.

Definition read_for (s : Subscription) (events : list (wait_event (Q := Q)))
    : option (option F + BulkError) * Subscription :=
  if bool_decide (sc_delivery_mode (su_config s) <> DM_Pull)
  then (Some (inr (subscriber_error Internal (str "read_for() requires DeliveryMode::Pull"))), s) else
  let '(r, d) := read_result (su_delivery s) events in
  let s := with_delivery s d in
  match r with
  | None => (None, s)
  | Some r =>
      match dr_kind r with
      | KFrame => (Some (inl (dr_frame r)), s)
      | KEmpty | KTimeout => (Some (inl None), s)
      | _ => (Some (inr (delivery_terminal r)), s)
      end
  end.

Definition fail_delivery (s : Subscription) : Subscription :=
  let error := subscriber_error Internal (str "the frame callback threw") in
  let s := with_delivery s (callback_failed (su_delivery s) error) in
  stop_running (transition s Sub_Failed error).

(** The frames after the first in [deliver_frames]: [throws] is whether the
    callback throws on each; the frames it was given and the state. *)
Fixpoint deliver_loop (throws : list bool) (s : Subscription) : list F * Subscription :=
  match throws with
  | [] => ([], s)
  | t :: throws =>
      let '(r, d) := try_read_result (su_delivery s) in
      let s := with_delivery s d in
      match dr_frame r with
      | None => ([], s)
      | Some frame =>
          if t then ([frame], fail_delivery s)
          else let '(frames, s) := deliver_loop throws s in (frame :: frames, s)
      end
  end.

(** [deliver_frames]: [None] while the first read still waits. *)
Definition deliver_frames (s : Subscription) (events : list (wait_event (Q := Q))) (first : bool)
    (throws : list bool) : option (list F) * Subscription :=
  let '(r, d) := read_result (su_delivery s) events in
  let s := with_delivery s d in
  match r with
  | None => (None, s)
  | Some r =>
      match dr_frame r with
      | None => (Some [], s)
      | Some frame =>
          if first then (Some [frame], fail_delivery s)
          else let '(frames, s) := deliver_loop throws s in (Some (frame :: frames), s)
      end
  end.

(** The test of [dispatch_loop]: whether the dispatcher ends. *)
Definition dispatch_ends (s : Subscription) : bool :=
  let l := su_life s in
  let active := lc_running l && negb (lc_interrupted l) && bool_decide (lc_state l <> Sub_Failed) in
  negb active && (lc_interrupted l || bool_decide (lc_state l = Sub_Closed) ||
                  (st_depth (stats (su_delivery s)) =? 0)).

(** One turn of [dispatch_loop], of at most 32 frames: [None] when it returns.  A
    dispatcher that only drains what is left does not wait. *)
Definition dispatch_turn (s : Subscription) (events : list (wait_event (Q := Q))) (first : bool)
    (throws : list bool) : option (option (list F)) * Subscription :=
  if dispatch_ends s then (None, s) else
  let l := su_life s in
  let active := lc_running l && negb (lc_interrupted l) && bool_decide (lc_state l <> Sub_Failed) in
  let '(frames, s) := deliver_frames s (if active then events else [DeadlinePassed]) first (firstn 31 throws) in
  (Some frames, s).

(** [counters]. *)
Definition subscription_counters (s : Subscription) : SubscriberCounters :=
  let o := su_observed s in
  let t := su_tallies s in
  let total := accumulate (ob_retired o) (ob_live o) in
  let queue := stats (su_delivery s) in
  fun k =>
    match k with
    | SC_reconnects => ta_reconnects t
    | SC_geometry_changes => u64 (total k + ta_geometry_changes t)
    | SC_renewals_sent => ta_renewals_sent t
    | SC_renewals_failed => ta_renewals_failed t
    | SC_frames_delivered => st_taken queue
    | SC_frames_dropped_queue_full => st_dropped queue
    | SC_delivery_queue_depth => st_depth queue
    | SC_delivery_queue_high_water => st_high_water queue
    | _ => total k
    end.

(** The other accessors: only a subscription that is read by its owner has a descriptor. *)
Definition subscription_state (s : Subscription) : SubscriberState := lc_state (su_life s).
Definition subscription_fd (s : Subscription) (queue_fd : Z) : Z :=
  match sc_delivery_mode (su_config s) with DM_Pull => queue_fd | DM_Push => -1 end.
Definition subscription_geometry (s : Subscription) : Geometry := ob_current_geometry (su_observed s).
Definition subscription_plan (s : Subscription) : ReceivePlan := ob_actual_plan (su_observed s).
Record SubscriptionSnapshot : Type := mkSubscriptionSnapshot {
  ss_state : SubscriberState;
  ss_error : BulkError;
  ss_counters : SubscriberCounters;
  ss_interrupted : bool
}.
Definition subscription_snapshot (s : Subscription) : SubscriptionSnapshot :=
  mkSubscriptionSnapshot (subscription_state s) (ob_last_error (su_observed s)) (subscription_counters s)
    (lc_interrupted (su_life s)).

(** ** Establishment *)

(** The whole wait: [None] when it is still waiting after the polls given. *)
Fixpoint probe_wait (s : Subscription) (polls : list (transport_view * Z)) (deadline : Z)
    : option (option BulkError) * Subscription :=
  match polls with
  | [] => (None, s)
  | (v, now) :: polls =>
      match probe_turn s v now deadline with
      | (None, s) => probe_wait s polls deadline
      | (Some r, s) => (Some r, s)
      end
  end.

Definition open_subscription (s : Subscription) (a : open_answers) (polls : list (transport_view * Z))
    (deadline : Z) : result (option (option BulkError) * Subscription) :=
  let! (failure, s) := open_session s a in
  Val (match failure with
       | Some error => (Some (Some error), s)
       | None => probe_wait s polls deadline
       end).

Definition retryable_establishment (status : Status) : bool :=
  bool_decide (status = TransportFailure) || bool_decide (status = UnknownStream) ||
  bool_decide (status = UnknownSession) || bool_decide (status = SessionExpired).

(** What one turn of the retry loop of [SubscriptionFactory::open] meets: whether
    the establishment deadline has passed, the time left, whether it has passed
    after the wait, and an attempt with the deadline of its probe. *)
Record attempt_env : Type := mkAttemptEnv {
  ae_late : bool;
  ae_remaining_ms : Z;
  ae_late_after : bool;
  ae_answers : open_answers;
  ae_polls : list (transport_view * Z);
  ae_deadline : Z
}.

(** [backoff] with a deadline: whether it returns true. *)
Definition backoff_waits (s : Subscription) (attempt remaining : Z) (late_after : bool) : bool :=
  let delay := backoff_delay attempt (sc_reconnect_backoff_ms (su_config s))
                 (ob_last_lease_ttl_ms (su_observed s)) in
  let delay := if remaining <? delay then remaining else delay in
  if delay <=? 0 then false else lc_running (su_life s) && negb late_after.

(** The loop, with [remaining] attempts to go: [Some None] when a session is open,
    [Some (Some error)] when it gives up, [None] while it waits for a probe. *)
Fixpoint establish_loop (remaining : nat) (attempt : nat) (s : Subscription) (error : BulkError)
    (env : nat -> attempt_env) : result (option (option BulkError) * Subscription) :=
  match remaining with
  | O => Val (Some (Some error), s)
  | S remaining =>
      let e := env attempt in
      if negb (retryable_establishment (be_status error)) || ae_late e then Val (Some (Some error), s) else
      let s := transition s Sub_Reconnecting error in
      if negb (backoff_waits s (Z.of_nat attempt) (ae_remaining_ms e) (ae_late_after e))
      then Val (Some (Some error), s) else
      let s := transition s Sub_Opening BulkError_default in
      let! (r, s) := open_subscription s (ae_answers e) (ae_polls e) (ae_deadline e) in
      match r with
      | None => Val (None, s)
      | Some None => Val (Some None, s)
      | Some (Some error) => establish_loop remaining (S attempt) s error env
      end
  end.

(** The configuration every transport sees. *)
Definition normalised (c : SubscriberConfig) : SubscriberConfig :=
  let upper := upper_receive_plan c in
  mkSubscriberConfig (sc_stream_name c) (rp_max_frame_bytes upper) (rp_ring_depth upper)
    (rp_credit_window upper) (sc_delivery_queue_depth c) (sc_delivery_mode c) (sc_drop_policy c)
    (sc_reconnect_policy c) (sc_reconnect_max_attempts c) (sc_reconnect_backoff_ms c)
    (sc_command_timeout_ms c) (sc_establishment_timeout_ms c) (sc_probe_timeout_ms c)
    (sc_pinned_memory_limit_bytes c) (sc_ucx_tls c) (sc_engine_cpu_affinity c) (sc_receive_buffer c)
    (sc_receive_buffer_bytes c) (sc_receive_memory_kind c) (sc_receive_plan c) (sc_discovery_offer c).

(** The constructor of [Impl], with [running] set. *)
Definition Subscription_new (c : SubscriberConfig) (queue : Q) (fd : option Z) : Subscription :=
  mkSubscription c ClientSession_default 0 (State_new queue (sc_drop_policy c) fd) None
    (mkObserved SubscriberCounters_default SubscriberCounters_default 0 Geometry_default
       ReceivePlan_default Geometry_default BulkError_default)
    (mkTallies 0 0 0 0 0) (mkLifecycle Sub_Closed true false false false false false).

Definition start_control (s : Subscription) : Subscription :=
  let l := su_life s in
  with_life s (mkLifecycle (lc_state l) (lc_running l) (lc_interrupted l) (lc_shutdown_started l)
    (lc_shutdown_complete l) true (lc_control_finished l)).

(** [SubscriptionFactory::open]: the subscription or the exception; [None] while
    it waits for a probe.  [given] is whether the channel and the factory are not
    empty, [callback] whether there is a frame callback.  On failure the source also
    moves the object it is about to destroy to [Failed] and shuts it down. *)
Definition subscription_open (c : SubscriberConfig) (queue : Q) (fd : option Z) (given callback : bool)
    (a : open_answers) (polls : list (transport_view * Z)) (deadline : Z) (env : nat -> attempt_env)
    : result (option (Subscription + BulkError)) :=
  let status := SubscriberConfig_validate c in
  if bool_decide (status <> Ok) then
    Val (Some (inr (subscriber_error status
           (str "invalid SubscriberConfig: " ++ Status_to_string status)))) else
  let c := normalised c in
  if negb given then
    Val (Some (inr (subscriber_error Internal
      (str "a Subscription needs both a coordination channel and a transport factory")))) else
  if bool_decide (sc_delivery_mode c = DM_Push) && negb callback then
    Val (Some (inr (subscriber_error Internal (str "SubscriptionCallbacks needs on_frame")))) else
  let s := transition (Subscription_new c queue fd) Sub_Opening BulkError_default in
  let! (r, s) := open_subscription s a polls deadline in
  let! (r, s) :=
    match r with
    | Some (Some error) =>
        if bool_decide (sc_reconnect_policy c = RP_BoundedRetry)
        then establish_loop (Z.to_nat (sc_reconnect_max_attempts c)) 0 s error env
        else Val (r, s)
    | _ => Val (r, s)
    end in
  Val (match r with
       | None => None
       | Some None => Some (inl (start_control s))
       | Some (Some error) => Some (inr error)
       end).
End Subscription.
