(* ===== verification/SubscriptionSafety.v ===== *)
(** * Theorems on the subscription's life cycle

    Runs of a subscription: the control thread, the application and transports --
    also ones already replaced -- in any interleaving.  The invariant says which
    transport may still deliver, that an end is always reported to readers, and
    what the control thread may assume where it is. *)
From Stdlib Require Import Init.Byte.
From stdpp Require Import list.
From S2P Require Import Prelude Enums Limits ByteOrder Geometry Text Protocol ProtocolSafety.
From S2P Require Import ProtocolRoundtrip Offer Config ClientSession BoundedQueue DeliveryQueue Subscription.
#[local] Open Scope Z_scope.

Section Life.
Context {Q F : Type} `{BoundedFifo Q F}.
Abbreviation Delivery := (State Q).
Abbreviation Subscription := (Subscription (Q := Q)).
Implicit Types (d : Delivery) (s : Subscription).

(** ** What the life cycle sees of the delivery queue *)

Definition ends d := (dq_ingresses d, dq_current_ingress d, dq_terminal d).

Lemma state_pop_ends d : ends (snd (state_pop d)) = ends d.
Proof. unfold state_pop. by destruct (fifo_pop (dq_queue d)). Qed.
Lemma state_push_ends d (x : F) : ends (snd (state_push d x)) = ends d.
Proof. unfold state_push. by destruct (fifo_push (dq_queue d) x). Qed.

Lemma pop_all_ends fuel each d n :
  (forall d, ends (each d) = ends d) -> ends (snd (pop_all fuel each d n)) = ends d.
Proof.
  intros He. revert d n. induction fuel as [|fuel IH]; intros d n; [done|]. simpl.
  pose proof (state_pop_ends d) as Hp. destruct (state_pop d) as [[x|] d']; simpl in *; [|done].
  by rewrite IH, He.
Qed.

Lemma discard_ends d : ends (snd (discard d)) = ends d.
Proof.
  unfold discard. pose proof (pop_all_ends (pop_fuel d) consume_one d 0) as Hp.
  destruct (pop_all (pop_fuel d) consume_one d 0) as [n d']. simpl in *. by rewrite <- Hp.
Qed.

Lemma push_frame_ends d i (x : F) : ends (snd (push_frame d i x)) = ends d.
Proof.
  unfold push_frame. destruct (_ || _); [done|].
  pose proof (state_push_ends d x) as H1. destruct (state_push d x) as [queued d1]. simpl in H1.
  assert (forall (b : bool) (d2 : Delivery) n, ends d2 = ends d ->
    ends (if b then signal_one (update_high_water d2 n) else d2) = ends d) as Hsig.
  { intros [|] d2 n H2; [|done]. by destruct (signal_one_wake (update_high_water d2 n)) as (? & ? & ? & ->). }
  destruct (negb queued && _); simpl.
  - pose proof (state_pop_ends d1) as H2. destruct (state_pop d1) as [[y|] d2]; simpl in H2.
    + pose proof (state_push_ends (consume_one d2) x) as H3.
      destruct (state_push (consume_one d2) x) as [q3 d3]. simpl in *. apply Hsig.
      transitivity (ends (consume_one d2)); [exact H3|]. by rewrite <- H1, <- H2.
    + simpl. apply Hsig. transitivity (ends d2); [by destruct (negb queued)|]. congruence.
  - apply Hsig. transitivity (ends d1); [by destruct (negb queued)|done].
Qed.

Lemma take_one_ends d : ends (snd (take_one (F := F) d)) = ends d.
Proof. unfold take_one. pose proof (state_pop_ends d) as Hp. by destruct (state_pop d) as [[x|] d']. Qed.

Lemma read_once_ends d : ends (snd (read_once (F := F) d)) = ends d.
Proof.
  unfold read_once. destruct (_ && _); [done|]. pose proof (take_one_ends d) as Ht.
  destruct (take_one d) as [[x|] d']; simpl in *; [done|]. by destruct (bool_decide _).
Qed.

Lemma try_read_ends d : ends (snd (try_read_result (F := F) d)) = ends d.
Proof.
  unfold try_read_result. pose proof (read_once_ends d) as Hr. by destruct (read_once d) as [[r|] d'].
Qed.

(** A reader sleeps while others do things of this kind. *)
Definition quiet_event (ev : wait_event (Q := Q)) : Prop :=
  match ev with DeadlinePassed => True | Slept others _ => forall d, ends (others d) = ends d end.

Lemma await_ends d ev : quiet_event ev -> ends (snd (await d ev)) = ends d.
Proof.
  destruct ev as [|others ready]; [done|]. simpl. intros Ho.
  assert (forall d, ends (remove_waiter d) = ends d) as Hr.
  { intros d'. by destruct (remove_waiter_wake d') as (? & ? & ? & ->). }
  destruct (_ || _); simpl; [by rewrite Hr|].
  destruct (dq_wakeup _); simpl; rewrite Hr; [|by rewrite Ho]. 
  destruct ready; [apply (Ho (set_wake d _ _ _))|by rewrite Ho].
Qed.

Lemma read_result_ends d evs : Forall quiet_event evs -> ends (snd (read_result (F := F) d evs)) = ends d.
Proof.
  intros Hq. revert d. induction Hq as [|ev evs He _ IH]; intros d; simpl;
    pose proof (read_once_ends d) as Hr; destruct (read_once d) as [[r|] d1]; simpl in *; try done.
  pose proof (await_ends d1 ev He) as Ha. destruct (await d1 ev) as [[|] d2]; simpl in *; [|transitivity (ends d2); [done|congruence]].
  rewrite IH. congruence.
Qed.

Lemma set_terminal_ends d t e w b :
  t <> TNone ->
  dq_ingresses (set_terminal d t e w b) = dq_ingresses d /\
  dq_current_ingress (set_terminal d t e w b) = dq_current_ingress d /\
  dq_terminal (set_terminal d t e w b) <> TNone /\
  (dq_terminal d <> TNone -> set_terminal d t e w b = d).
Proof.
  intros Ht. unfold set_terminal. case_bool_decide as Hd; [done|].
  set (d1 := set_end d false (dq_terminal d) (dq_terminal_error d)).
  set (d2 := if b then _ else _).
  assert (ends d2 = ends d) as Hends.
  { subst d2. destruct b; [|by case_bool_decide].
    apply (pop_all_ends (pop_fuel d1) (fun d => count_discarded d 1) d1 0). done. }
  injection Hends as H1 H2 H3. simpl. done.
Qed.

(** ** Runs *)

Inductive sub_op : Type :=
| O_Control (env : control_env)
| O_Interrupt
| O_CloseBegin
| O_CloseFinish (detached : bool) (old : SubscriberCounters)
| O_Push (ingress : nat) (frame : F)
| O_TryRead
| O_ReadFor (events : list (wait_event (Q := Q)))
| O_Deliver (events : list (wait_event (Q := Q))) (first : bool) (throws : list bool).

Definition sub_step (w : control_pc * Subscription) (op : sub_op) : result (control_pc * Subscription) :=
  let '(pc, s) := w in
  match op with
  | O_Control env => control_step pc s env
  | O_Interrupt => Val (pc, subscription_interrupt s)
  | O_CloseBegin => Val (pc, shutdown_begin s)
  | O_CloseFinish detached old => Val (pc, shutdown_finish s detached true old)
  | O_Push i frame => Val (pc, with_delivery s (snd (push_frame (su_delivery s) (Some i) frame)))
  | O_TryRead => Val (pc, snd (try_read s))
  | O_ReadFor events => Val (pc, snd (read_for s events))
  | O_Deliver events first throws => Val (pc, snd (deliver_frames s events first throws))
  end.

(** [close] waits for the control thread unless it runs out of time or is called
    on it; a generated client instance identifier has 16 bytes. *)
Definition sub_op_ok (w : control_pc * Subscription) (op : sub_op) : Prop :=
  match op with
  | O_Control env => forall id, oa_instance (ce_open env) = inl id -> id_ok id
  | O_CloseFinish detached _ => lc_shutdown_started (su_life w.2) = true /\ (detached = true \/ w.1 = C_Done)
  | O_ReadFor events | O_Deliver events _ _ => Forall quiet_event events
  | _ => True
  end.

Inductive sub_run : control_pc * Subscription -> control_pc * Subscription -> Prop :=
| sub_run_none w : sub_run w w
| sub_run_more w op w1 w2 : sub_op_ok w op -> sub_step w op = Val w1 -> sub_run w1 w2 -> sub_run w w2.

(** ** The invariant *)

(** The live transport's ingress, and no other, may still push. *)
Definition live_exact s : Prop :=
  dq_current_ingress (su_delivery s) = su_transport s /\
  (forall i, su_transport s = Some i -> (i < length (dq_ingresses (su_delivery s)))%nat) /\
  forall i b, dq_ingresses (su_delivery s) !! i = Some b -> b = negb (bool_decide (su_transport s = Some i)).

(** A transport has been made and is not yet published. *)
Definition made s (fresh : nat) : Prop :=
  su_transport s = None /\ dq_current_ingress (su_delivery s) = Some fresh /\
  (fresh < length (dq_ingresses (su_delivery s)))%nat /\
  forall i b, dq_ingresses (su_delivery s) !! i = Some b -> b = negb (bool_decide (i = fresh)).

(** The ingress of the transport that the control thread is making, which takes the
    place of the live one. *)
Definition making (pc : control_pc) : option nat :=
  match pc with C_Exchange _ fresh _ => Some fresh | _ => None end.
Definition ingress_exact (making : option nat) s : Prop :=
  match making with Some fresh => made s fresh | None => live_exact s end.

(** Without a transport there is no session. *)
Definition session_exact s : Prop :=
  su_transport s = None ->
  su_session s = ClientSession_default /\ ob_current_geometry (su_observed s) = Geometry_default.

(** An end is known to readers. *)
Definition ended s : Prop := dq_terminal (su_delivery s) <> TNone.
Definition life_exact s : Prop :=
  (lc_running (su_life s) = false -> ended s) /\ (lc_state (su_life s) = Sub_Failed -> ended s) /\
  (lc_shutdown_started (su_life s) = true -> lc_running (su_life s) = false).

(** There is a delay to back off by. *)
Definition delayed s : Prop := 1 <= sc_reconnect_backoff_ms (su_config s).

(** What the control thread knows where it is. *)
Definition pc_exact (pc : control_pc) s : Prop :=
  match pc with
  | C_Retry attempt _ => su_transport s = None /\ 0 <= attempt <= sc_reconnect_max_attempts (su_config s)
  | C_Backoff attempt _ => su_transport s = None /\ 0 <= attempt < sc_reconnect_max_attempts (su_config s)
  | C_Reopen attempt | C_Exchange attempt _ _ =>
      su_transport s = None /\ 0 <= attempt <= sc_reconnect_max_attempts (su_config s)
  | C_Probe attempt _ => 0 <= attempt <= sc_reconnect_max_attempts (su_config s)
  | C_Finish => delayed s -> lc_running (su_life s) = false \/ lc_state (su_life s) = Sub_Failed
  | C_Done => delayed s -> lc_running (su_life s) = false
  | _ => True
  end.

(** The widths of the fields. *)
Record sconfig_ok (c : SubscriberConfig) : Prop := {
  sk_attempts : in_range 32 (sc_reconnect_max_attempts c);
  sk_backoff : in_range 32 (sc_reconnect_backoff_ms c)
}.

Definition session_typed s : Prop :=
  id_ok (cs_session_id (su_session s)) /\ in_range 32 (cs_lease_ttl_ms (su_session s)) /\
  in_range 32 (ob_last_lease_ttl_ms (su_observed s)).

Record sub_inv (w : control_pc * Subscription) : Prop := {
  iv_config : sconfig_ok (su_config w.2);
  iv_typed : session_typed w.2;
  iv_ingress : ingress_exact (making w.1) w.2;
  iv_session : session_exact w.2;
  iv_life : life_exact w.2;
  iv_pc : pc_exact w.1 w.2
}.

(** ** Opening *)

Lemma make_made s :
  live_exact s -> su_transport s = None ->
  made (with_delivery s (snd (make_ingress (su_delivery s)))) (fst (make_ingress (su_delivery s))).
Proof.
  intros (Hc & _ & Hl) Ht. rewrite Ht in *. unfold make_ingress, retire. rewrite Hc. simpl.
  split; [done|]. split; [done|]. simpl. rewrite length_app. simpl. split; [lia|].
  intros i b Hi. rewrite lookup_app in Hi. destruct (dq_ingresses (su_delivery s) !! i) as [b'|] eqn:Hb.
  - simplify_eq. apply lookup_lt_Some in Hb as Hlt. rewrite bool_decide_eq_false_2 by lia.
    specialize (Hl i b Hb). by rewrite bool_decide_eq_false_2 in Hl.
  - apply lookup_ge_None in Hb. destruct (i - length (dq_ingresses (su_delivery s)))%nat eqn:Hd; [|done].
    simplify_eq/=. rewrite bool_decide_eq_true_2 by lia. done.
Qed.

(** [s] and [s'] agree on everything the invariant reads but the session and the
    ingresses. *)
Record steady_life s s' : Prop := {
  sl_config : su_config s' = su_config s;
  sl_terminal : dq_terminal (su_delivery s') = dq_terminal (su_delivery s);
  sl_running : lc_running (su_life s') = lc_running (su_life s);
  sl_interrupted : lc_interrupted (su_life s') = lc_interrupted (su_life s);
  sl_started : lc_shutdown_started (su_life s') = lc_shutdown_started (su_life s)
}.

Lemma steady_life_trans s1 s2 s3 : steady_life s1 s2 -> steady_life s2 s3 -> steady_life s1 s3.
Proof. intros [] []. constructor; congruence. Qed.

Lemma retire_made_exact s fresh : made s fresh -> live_exact (retire_made s).
Proof.
  intros (Ht & Hc & Hlt & Hl). unfold retire_made, retire_ingress, retire. rewrite Hc.
  split; [done|]. split; [intros i; simpl; by rewrite Ht|]. simpl. rewrite Ht. intros i b Hi.
  rewrite list_lookup_insert in Hi. destruct (decide (fresh = i /\ (fresh < _)%nat)) as [?|Hne]; [by simplify_eq|].
  specialize (Hl i b Hi). rewrite bool_decide_eq_false_2 in Hl; [done|]. intros ->. by apply Hne.
Qed.

Lemma made_same s s' fresh :
  made s fresh -> su_transport s' = su_transport s -> su_delivery s' = su_delivery s -> made s' fresh.
Proof. unfold made. intros Hm -> ->. done. Qed.

Lemma publish_made s fresh old new :
  made s fresh -> live_exact (publish_transport s (Some fresh) true old new).
Proof.
  intros (Ht & Hc & Hlt & Hl). unfold publish_transport. rewrite Ht. split; [done|]. simpl.
  split; [by intros i [= <-]|]. intros i b Hi. rewrite (Hl i b Hi). f_equal.
  apply bool_decide_ext. split; congruence.
Qed.

Lemma open_exchange_ok s address a :
  (forall id, oa_instance a = inl id -> id_ok id) ->
  exists answer s', open_exchange s address a = Val (answer, s') /\
    s' = snd (next_correlation_id s) /\
    match answer with
    | inl x => id_ok (cs_session_id x) /\ in_range 32 (cs_lease_ttl_ms x)
    | inr _ => True
    end.
Proof.
  intros Hid. unfold open_exchange. destruct (next_correlation_id s) as [c s'] eqn:Hn.
  destruct (oa_instance a) as [id|r]; [|by eexists _, _].
  assert (safe (make_open_request (su_config s') address c id)) as Hsafe.
  { apply encode_OpenRequest_safe. by apply Hid. }
  destruct (make_open_request (su_config s') address c id) as [request|e|]; [|by eexists _, _|done].
  destruct (oa_channel a CT_Open request) as [reply|r]; [|by eexists _, _].
  destruct (adopt_open_spec ClientSession_default reply (su_config s') c) as (st & x' & -> & Hx).
  rewrite bind_val. eexists _, _. split; [done|]. split; [done|]. case_bool_decide; [done|].
  destruct Hx as [(_ & reply' & env & Hd & _ & _ & -> & _)|[-> _]].
  - destruct (decode_OpenReply_spec reply) as [_ Hspec].
    destruct (Hspec reply' env Hd) as [(_ & _ & _ & Hi & _ & Ht & _) _]. done.
  - done.
Qed.

Definition after_open s (r : option BulkError) s' : Prop :=
  steady_life s s' /\ live_exact s' /\ session_exact s' /\ session_typed s' /\
  match r with
  | Some _ => su_transport s' = None /\ lc_state (su_life s') = lc_state (su_life s)
  | None => su_transport s' <> None /\ lc_state (su_life s') = Sub_Probing
  end.

Lemma opened_ok s s2 fresh old new :
  made s2 fresh -> steady_life s s2 -> session_typed s2 ->
  after_open s None (transition (publish_transport s2 (Some fresh) true old new) Sub_Probing BulkError_default).
Proof.
  intros Hm [] Hty. pose proof (publish_made s2 fresh old new Hm) as Hi. destruct Hm as (Ht & _).
  unfold publish_transport in *. rewrite Ht in *. by split; [constructor|split; [|split; [|split]]].
Qed.

Lemma not_opened_ok s s2 fresh r :
  made s2 fresh -> steady_life s s2 -> session_typed s2 -> lc_state (su_life s2) = lc_state (su_life s) ->
  su_session s2 = ClientSession_default -> ob_current_geometry (su_observed s2) = Geometry_default ->
  after_open s (Some r) (retire_made s2).
Proof.
  intros Hm [] Hty Hst Hs Hg. pose proof (retire_made_exact s2 fresh Hm). destruct Hm as (Ht & _).
  by split; [constructor|split; [|split; [|split]]].
Qed.

(** What a transport is made from, and what is left when none is. *)
Lemma open_prepare_ok s a :
  live_exact s -> su_transport s = None ->
  match open_prepare s a with
  | (inl (fresh, _), s') => made s' fresh
  | (inr _, s') => live_exact s'
  end /\ exists d, (open_prepare s a).2 = with_delivery s d /\ dq_terminal d = dq_terminal (su_delivery s).
Proof.
  intros Hi Ht. pose proof (make_made s Hi Ht) as Hm. unfold open_prepare.
  destruct (make_ingress (su_delivery s)) as [fresh d] eqn:Hmk. simpl in Hm.
  assert (dq_terminal d = dq_terminal (su_delivery s)) as Hterm by (by injection Hmk as <- <-).
  destruct (oa_factory a) as [[address|]|r]; split; try done; try (by apply (retire_made_exact _ fresh)).
  - by exists d.
  - by eexists.
  - by eexists.
Qed.

Lemma open_complete_ok s fresh address a :
  made s fresh -> session_exact s -> session_typed s ->
  (forall id, oa_instance a = inl id -> id_ok id) ->
  exists r s', open_complete s fresh address a = Val (r, s') /\ after_open s r s'.
Proof.
  intros Hm Hs Hty Hid. destruct (Hs (proj1 Hm)) as [Hsess Hgeo]. unfold open_complete.
  destruct (open_exchange_ok s address a Hid) as (answer & s2 & -> & -> & Hans). rewrite bind_val.
  set (s2 := snd (next_correlation_id s)).
  assert (made s2 fresh) as Hm2 by (by apply (made_same s)).
  assert (steady_life s s2) as Hl2 by (by constructor).
  assert (session_typed s2) as Hty2 by done.
  assert (su_session s2 = ClientSession_default /\ ob_current_geometry (su_observed s2) = Geometry_default /\
    lc_state (su_life s2) = lc_state (su_life s)) as (Hs2 & Hg2 & Hst2) by done.
  clearbody s2. destruct answer as [x|error]; [|eexists _, _; split; [done|]; by apply (not_opened_ok s s2 fresh)].
  destruct (_ && _).
  { eexists _, _. split; [done|]. apply (not_opened_ok s _ fresh); try done.
    by destruct Hl2; constructor. }
  case_bool_decide.
  { eexists _, _. split; [done|].
    set (s3 := set_geometry (with_session (close_candidate
      (with_delivered_at_open s2 (st_taken (stats (su_delivery s2))))) ClientSession_default)
      Geometry_default ReceivePlan_default).
    match goal with |- after_open _ ?r _ => change (after_open s r (retire_made s3)) end.
    apply (not_opened_ok s s3 fresh); try done; [by destruct Hl2; constructor|].
    destruct Hty2 as (_ & _ & ?). by split; [|split]. }
  eexists _, _. split; [done|]. apply opened_ok.
  - by apply (made_same s2).
  - by destruct Hl2; constructor.
  - destruct Hty2 as (_ & _ & ?), Hans. by split; [|split].
Qed.

(** ** Closing and changing state *)

(** The part of the invariant that holds between any two statements, while the
    transport [m] is being made. *)
Record core_while (m : option nat) s : Prop := {
  co_config : sconfig_ok (su_config s);
  co_typed : session_typed s;
  co_ingress : ingress_exact m s;
  co_session : session_exact s;
  co_life : life_exact s
}.
Abbreviation core_inv := (core_while None).

Lemma sub_inv_split w : sub_inv w <-> core_while (making w.1) w.2 /\ pc_exact w.1 w.2.
Proof. split; [intros []; split; [by constructor|done]|intros [[] ?]; by constructor]. Qed.

(** A delivery queue with the same ingresses that has not come back to life. *)
Definition goes_on d d' : Prop :=
  dq_ingresses d' = dq_ingresses d /\ dq_current_ingress d' = dq_current_ingress d /\
  (dq_terminal d <> TNone -> dq_terminal d' <> TNone).

Lemma goes_on_ends d d' : ends d' = ends d -> goes_on d d'.
Proof. intros [= H1 H2 H3]. split; [done|]. split; [done|congruence]. Qed.

Lemma goes_on_terminal d t e w b : t <> TNone -> goes_on d (set_terminal d t e w b).
Proof. intros Ht. destruct (set_terminal_ends d t e w b Ht) as (? & ? & ? & _). done. Qed.

Lemma core_delivery m s d' : goes_on (su_delivery s) d' -> core_while m s -> core_while m (with_delivery s d').
Proof.
  intros (H1 & H2 & H3) [Hc Hty Hi Hs (Hl1 & Hl2 & Hl3)]. constructor; try done.
  - destruct m as [fresh|]; unfold ingress_exact, made, live_exact in *; simpl; by rewrite H1, H2.
  - split; [|split]; simpl; auto; unfold ended; simpl; intros Hx; apply H3; [by apply Hl1|by apply Hl2].
Qed.

(** What [close_session] leaves of a session, with the queue [d]. *)
Definition closed_session s d old : Subscription :=
  let o := su_observed s in
  let g := ob_current_geometry o in
  mkSubscription (su_config s) ClientSession_default (su_delivered_at_open s) d None
    (mkObserved (accumulate (ob_retired o) old) SubscriberCounters_default
       (Z.max (ob_last_lease_ttl_ms o) (cs_lease_ttl_ms (su_session s))) Geometry_default
       ReceivePlan_default (if negb (geo_generation g =? 0) then g else ob_retired_geometry o)
       (ob_last_error o))
    (su_tallies (snd (next_correlation_id s))) (su_life s).

Lemma close_session_some s b old i :
  su_transport s = Some i -> exists d, close_session s b old = closed_session s d old /\
    ends d = ends (retire_ingress (su_delivery s)).
Proof.
  intros Ht. exists (if b then snd (discard (retire_ingress (su_delivery s))) else retire_ingress (su_delivery s)).
  unfold close_session, publish_transport. rewrite Ht. cbn [next_correlation_id snd with_tallies su_transport].
  rewrite Ht. destruct b; (split; [reflexivity|]); [apply discard_ends|done].
Qed.

Lemma close_session_none s b old :
  su_transport s = None -> close_session s b old = with_transport (set_live s SubscriberCounters_default) None.
Proof. intros Ht. destruct s. simpl in Ht. by rewrite Ht. Qed.

Lemma close_session_gone s b old : su_transport (close_session s b old) = None.
Proof.
  destruct (su_transport s) as [i|] eqn:Ht; [|by rewrite close_session_none].
  by destruct (close_session_some s b old i Ht) as (d & -> & _).
Qed.

Lemma retired_exact s i d :
  live_exact s -> su_transport s = Some i -> ends d = ends (retire_ingress (su_delivery s)) ->
  forall s', su_delivery s' = d -> su_transport s' = None -> live_exact s'.
Proof.
  intros (Hi1 & Hi2 & Hi3) Ht [= He1 He2 _] s' <- Ht'. unfold live_exact.
  rewrite He1, He2, Ht'. unfold retire_ingress, retire. rewrite Hi1, Ht. simpl.
  split; [done|]. split; [done|]. intros j c Hj.
  rewrite list_lookup_insert in Hj. destruct (decide _) as [|Hne]; [by simplify_eq|].
  rewrite (Hi3 j c Hj), Ht. case_bool_decide as Hij; [|done]. simplify_eq. destruct Hne.
  split; [done|by apply Hi2].
Qed.

Lemma close_session_core m s b old :
  core_while m s ->
  core_while m (close_session s b old) /\ su_transport (close_session s b old) = None /\ steady_life s (close_session s b old) /\ lc_state (su_life (close_session s b old)) = lc_state (su_life s).
Proof.
  intros [Hc Hty Hi Hs Hl]. destruct (su_transport s) as [i|] eqn:Ht.
  - destruct (close_session_some s b old i Ht) as (d & -> & Hd). pose proof Hd as Hd'. injection Hd as He1 He2 He3.
    split; [|split; [done|split; [|done]]]; [|by constructor; [done|rewrite <- He3|done..]]. constructor; try done.
    + destruct Hty as (_ & [? ?] & [? ?]). split; [done|]. split; [done|]. unfold in_range. simpl. lia.
    + destruct m as [fresh|]; [|by eapply (retired_exact s i d)]. destruct Hi as (Hn & _). congruence.
    + unfold life_exact, ended in *. simpl. by rewrite He3.
  - rewrite close_session_none by done. split; [|done]. constructor; try done.
    + destruct m as [fresh|]; [by destruct Hi|]. destruct Hi as (Hi1 & _ & Hi3). rewrite Ht in *. by split; [|split].
    + intros _. by apply Hs.
Qed.

(** The life cycle after a change of state: everything but the state, the last
    error and, for a failure, the end of the queue. *)
Record moved s s' : Prop := {
  mo_config : su_config s' = su_config s;
  mo_transport : su_transport s' = su_transport s;
  mo_running : lc_running (su_life s') = lc_running (su_life s);
  mo_started : lc_shutdown_started (su_life s') = lc_shutdown_started (su_life s);
  mo_observed : ob_retired_geometry (su_observed s') = ob_retired_geometry (su_observed s) /\
    ob_current_geometry (su_observed s') = ob_current_geometry (su_observed s);
  mo_ttl : ob_last_lease_ttl_ms (su_observed s') = ob_last_lease_ttl_ms (su_observed s)
}.

Lemma transition_core m s st e :
  core_while m s ->
  core_while m (transition s st e) /\ moved s (transition s st e) /\ lc_state (su_life (transition s st e)) = st /\
  (ended s \/ st = Sub_Failed -> ended (transition s st e)).
Proof.
  intros Hcore. unfold transition. case_bool_decide as Hf.
  - pose proof (goes_on_terminal (su_delivery s) TSessionFailed e true false ltac:(done)) as Hg.
    destruct (set_terminal_ends (su_delivery s) TSessionFailed e true false ltac:(done)) as (_ & _ & Hend & _).
    destruct (core_delivery m s _ Hg Hcore) as [Hc Hty Hi Hs (Hl1 & Hl2 & Hl3)].
    split; [|split; [by constructor|split; [done|by intros _]]]. by constructor.
  - destruct Hcore as [Hc Hty Hi Hs (Hl1 & Hl2 & Hl3)].
    case_bool_decide; (split; [|split; [by constructor|split; [done|intros [?|?]; done]]]); by constructor.
Qed.

(** Counting and publishing what the transport counts. *)
Lemma core_same m s s' :
  su_config s' = su_config s -> su_session s' = su_session s -> su_transport s' = su_transport s ->
  su_delivery s' = su_delivery s -> su_life s' = su_life s ->
  ob_current_geometry (su_observed s') = ob_current_geometry (su_observed s) ->
  ob_last_lease_ttl_ms (su_observed s') = ob_last_lease_ttl_ms (su_observed s) ->
  core_while m s -> core_while m s'.
Proof.
  intros H1 H2 H3 H4 H5 H6 H7 [Hc Hty Hi Hs Hl].
  constructor; unfold session_typed, ingress_exact, made, live_exact, session_exact, life_exact, ended in *;
    rewrite ?H1, ?H2, ?H3, ?H4, ?H5, ?H6, ?H7; done.
Qed.

Lemma renew_once_core s v ch :
  core_inv s ->
  exists status error s', renew_once s v ch = Val (status, error, s') /\ core_inv s' /\ moved s s' /\
    lc_state (su_life s') = lc_state (su_life s).
Proof.
  intros Hcore. unfold renew_once. destruct (su_transport s) as [i|] eqn:Ht.
  2:{ eexists _, _, _. split; [done|]. split; [done|]. split; [by constructor|done]. }
  cbn [next_correlation_id]. set (c := u64 _). set (s1 := with_tallies s _).
  assert (core_inv s1) as Hcore1 by (by apply (core_same _ s)).
  assert (moved s s1) as Hm1 by (by constructor).
  assert (lc_state (su_life s1) = lc_state (su_life s)) as Hst1 by done. clearbody s1.
  unfold make_renew_request. destruct (co_typed _ _ Hcore1) as (Hid & Hty).
  rewrite encode_RenewRequest_bytes by done.
  assert (forall s2, core_inv s2 -> moved s s2 -> lc_state (su_life s2) = lc_state (su_life s) ->
    forall (st : Status) (e : BulkError), exists status error s', Val (E := Status) (st, e, if bool_decide (st <> Ok) then count_renewal_failed s2 else s2) =
      Val (status, error, s') /\ core_inv s' /\ moved s s' /\ lc_state (su_life s') = lc_state (su_life s)) as Hfail.
  { intros s2 Hc2 Hm2 Hst2 st e. eexists _, _, _. split; [done|]. case_bool_decide; [|done].
    split; [by apply (core_same _ s2)|]. split; [by destruct Hm2; constructor|done]. }
  destruct (ch CT_Renew _) as [reply|r].
  2:{ apply Hfail; [by apply (core_same _ s1)|by destruct Hm1; constructor|done]. }
  cbn [count_renewal_sent with_tallies su_session].
  destruct (adopt_renew_spec (su_session s1) reply c) as (o & x' & -> & Hx & _). rewrite bind_val.
  assert (core_inv (with_session (count_renewal_sent s1) x')) as Hc2.
  { destruct Hx as [(_ & reply' & env & Hd & _ & _ & _ & ->)|[-> _]].
    - destruct Hcore1 as [Hc _ Hi Hs Hl]. destruct Hm1 as [_ Htr _ _ _ _].
      destruct (decode_RenewReply_spec reply) as [_ Hspec]. destruct (Hspec reply' env Hd) as [(_ & _ & Httl & _) _].
      constructor; try done.
      + by destruct Hty.
      + intros Hn. simpl in Hn. congruence.
    - by apply (core_same _ s1). }
  case_bool_decide.
  - eexists _, _, _. split; [done|]. split; [by apply (core_same _ (with_session (count_renewal_sent s1) x'))|].
    split; [by destruct Hm1; constructor|done].
  - eexists _, _, _. split; [done|]. split; [done|]. split; [by destruct Hm1; constructor|done].
Qed.

(** ** The control thread *)

Lemma inv_failed pc s e :
  core_inv s -> pc = C_Finish -> sub_inv (pc, transition s Sub_Failed e).
Proof.
  intros Hcore ->. destruct (transition_core _ s Sub_Failed e Hcore) as (Hc & _ & Hst & _).
  apply sub_inv_split. split; [done|]. by right.
Qed.

Lemma inv_stopped s : core_inv s -> negb (lc_running (su_life s)) = true -> sub_inv (C_Finish, s).
Proof. intros Hc Hr. apply sub_inv_split. split; [done|]. intros _. left. by apply negb_true_iff. Qed.

Lemma retry_or_fail_inv s attempt e :
  core_inv s -> su_transport s = None -> 0 <= attempt <= sc_reconnect_max_attempts (su_config s) ->
  sub_inv (retry_or_fail s attempt e).
Proof.
  intros Hc Ht Ha. unfold retry_or_fail. case_bool_decide; [by apply inv_failed|].
  by apply sub_inv_split.
Qed.

Lemma backoff_positive s attempt :
  core_inv s -> 0 <= attempt -> delayed s ->
  0 < backoff_delay attempt (sc_reconnect_backoff_ms (su_config s)) (ob_last_lease_ttl_ms (su_observed s)).
Proof.
  intros [[_ Hb] (_ & _ & Ht) _ _ _] Ha Hb1. unfold backoff_delay, delayed in *.
  rewrite backoff_loop_closed by (unfold in_range in *; lia). rewrite Z2Nat.id by done.
  assert (0 < 2 ^ attempt) by (by apply Z.pow_pos_nonneg). nia.
Qed.

Lemma probe_turn_inv s v now deadline :
  core_inv s ->
  match probe_turn s v now deadline with
  | (None, s') => s' = s
  | (Some None, s') => core_inv s'
  | (Some (Some _), s') => core_inv s' /\ su_transport s' = None /\ su_config s' = su_config s
  end.
Proof.
  intros Hc. unfold probe_turn. cbv zeta.
  destruct (close_session_core _ s true (tv_counters v) Hc) as (H1 & H2 & [H3 _ _ _ _] & _).
  case_bool_decide; [by apply transition_core|]. destruct (_ || _); [done|]. by destruct (_ <=? _).
Qed.

Lemma session_turn_inv s next env :
  core_inv s -> exists pc' s', session_turn s next env = Val (pc', s') /\ sub_inv (pc', s').
Proof.
  intros Hc. unfold session_turn. destruct (negb (lc_running (su_life s))) eqn:Hr.
  { eexists _, _. split; [done|]. by apply inv_stopped. }
  destruct (su_transport s) as [i|] eqn:Ht; [|eexists _, _; split; [done|]; by apply sub_inv_split].
  set (s1 := publish_observation s (tv_counters (ce_view env))).
  assert (core_inv s1) as Hc1 by (by apply (core_same _ s)). clearbody s1.
  case_bool_decide; [eexists _, _; split; [done|]; by apply sub_inv_split|].
  destruct (_ <? _); [eexists _, _; split; [done|]; by apply sub_inv_split|].
  destruct (renew_once_core s1 (ce_view env) (ce_channel env) Hc1) as (st & e & s2 & -> & Hc2 & _).
  rewrite bind_val. destruct (_ || _); (eexists _, _; split; [done|]); by apply sub_inv_split.
Qed.

Lemma discarded_core s : core_inv s -> core_inv (with_delivery s (snd (discard (su_delivery s)))).
Proof. apply core_delivery, goes_on_ends, discard_ends. Qed.

Lemma lost_inv error s env :
  core_inv s -> pc_exact (C_Lost error) s ->
  exists pc' s', control_step (C_Lost error) s env = Val (pc', s') /\ sub_inv (pc', s').
Proof.
  intros Hc Hpc. unfold control_step. cbv beta iota zeta.
  destruct (close_session_core _ s false (tv_counters (ce_view env)) Hc) as (Hc1 & Ht1 & [Hcf _ _ _ _] & _).
  set (s1 := close_session s false _) in *. clearbody s1.
  destruct (negb (lc_running (su_life s1))) eqn:Hr; [eexists _, _; split; [done|]; by apply inv_stopped|].
  case_bool_decide; [eexists _, _; split; [done|]; by apply inv_failed|].
  eexists _, _. split; [done|]. apply sub_inv_split. split; [done|]. split; [done|].
  destruct (sk_attempts _ (co_config _ _ Hc1)). simpl. lia.
Qed.

Lemma retry_inv attempt error s env :
  core_inv s -> pc_exact (C_Retry attempt error) s ->
  exists pc' s', control_step (C_Retry attempt error) s env = Val (pc', s') /\ sub_inv (pc', s').
Proof.
  intros Hc Hpc. unfold control_step. cbv beta iota zeta.
  destruct Hpc as [Ht Ha]. destruct (negb (lc_running (su_life s))) eqn:Hr.
  { eexists _, _. split; [done|]. by apply inv_stopped. }
  destruct (Z.leb_spec (sc_reconnect_max_attempts (su_config s)) attempt);
    [eexists _, _; split; [done|]; by apply inv_failed|].
  destruct (transition_core _ s Sub_Reconnecting error Hc) as (Hc1 & [Hcf Htr _ _ _ _] & _).
  set (s1 := transition s Sub_Reconnecting error) in *. clearbody s1.
  assert (core_inv (count_reconnect s1)) as Hc2 by (by apply (core_same _ s1)).
  pose proof (backoff_positive _ attempt Hc2 ltac:(lia)) as Hpos. unfold delayed in Hpos. simpl in Hpos. rewrite Hcf in Hpos.
  destruct (Z.leb_spec (backoff_delay attempt (sc_reconnect_backoff_ms (su_config s))
    (ob_last_lease_ttl_ms (su_observed (count_reconnect s1)))) 0);
    (eexists _, _; split; [done|]; apply sub_inv_split; split; [done|]).
  - unfold pc_exact, delayed. simpl. rewrite Hcf. intros Hd. specialize (Hpos Hd). simpl in *. lia.
  - simpl. rewrite Htr, Hcf. split; [done|lia].
Qed.

Lemma backoff_inv attempt error s env :
  core_inv s -> pc_exact (C_Backoff attempt error) s ->
  exists pc' s', control_step (C_Backoff attempt error) s env = Val (pc', s') /\ sub_inv (pc', s').
Proof.
  intros Hc [Ht Ha]. unfold control_step. cbv beta iota zeta. destruct (negb (lc_running (su_life s))) eqn:Hr;
    (eexists _, _; split; [done|]); [by apply inv_stopped|]. apply sub_inv_split. split; [done|]. split; [done|].
  destruct (sk_attempts _ (co_config _ _ Hc)). simpl in *. rewrite wrap_small by (unfold in_range; lia). lia.
Qed.

Lemma reopen_inv attempt s env :
  core_inv s -> pc_exact (C_Reopen attempt) s ->
  exists pc' s', control_step (C_Reopen attempt) s env = Val (pc', s') /\ sub_inv (pc', s').
Proof.
  intros Hc [Ht Ha]. unfold control_step. cbv beta iota zeta.
  pose proof (discarded_core s Hc) as Hc1. set (s1 := with_delivery s _) in *.
  assert (su_transport s1 = None /\ su_config s1 = su_config s) as [Ht1 Hcf1] by done. clearbody s1.
  destruct (transition_core _ s1 Sub_Opening BulkError_default Hc1) as (Hc2 & [Hcf2 Htr2 _ _ _ _] & _).
  set (s2 := transition s1 Sub_Opening BulkError_default) in *. clearbody s2.
  assert (su_transport s2 = None) as Ht2 by congruence. rewrite Hcf1 in Hcf2.
  destruct (open_prepare_ok s2 (ce_open env) (co_ingress _ _ Hc2) Ht2) as (Hi & d & Hd & Hterm).
  destruct Hc2 as [K1 K2 _ K4 (J1 & J2 & J3)].
  assert (forall m, ingress_exact m (with_delivery s2 d) -> core_while m (with_delivery s2 d)) as Hcore.
  { intros m Hm. constructor; try done. unfold life_exact, ended in *. simpl. by rewrite Hterm. }
  destruct (open_prepare s2 (ce_open env)) as [[[fresh address]|error] s3]; simpl in Hd; subst s3.
  - eexists _, _. split; [done|]. apply sub_inv_split. split; [by apply Hcore|]. simpl. by rewrite Hcf2.
  - destruct (retry_or_fail (with_delivery s2 d) attempt error) as [pc' s'] eqn:Hrf. exists pc', s'. split; [done|].
    rewrite <- Hrf. apply retry_or_fail_inv; [by apply (Hcore None)|done|]. simpl. by rewrite Hcf2.
Qed.

(** What [open_complete] leaves. *)
Lemma open_complete_core s fresh address a :
  core_while (Some fresh) s -> (forall id, oa_instance a = inl id -> id_ok id) ->
  exists r s', open_complete s fresh address a = Val (r, s') /\ core_inv s' /\ steady_life s s' /\
    match r with
    | Some _ => su_transport s' = None /\ lc_state (su_life s') = lc_state (su_life s)
    | None => su_transport s' <> None /\ lc_state (su_life s') = Sub_Probing
    end.
Proof.
  intros [K1 K2 K3 K4 (J1 & J2 & J3)] Hid.
  destruct (open_complete_ok s fresh address a K3 K4 K2 Hid) as (r & s' & Ho & Hl & M2 & M3 & M4 & M5).
  exists r, s'. split; [done|]. split; [|done]. destruct Hl as [L1 L2 L3 L4 L5].
  constructor; [by rewrite L1|done..|]. split; [|split]; unfold ended in *; rewrite ?L2, ?L3, ?L5; auto.
  destruct r; destruct M5 as [_ M5]; rewrite M5; auto; done.
Qed.

Lemma exchange_inv attempt fresh address s env :
  core_while (Some fresh) s -> pc_exact (C_Exchange attempt fresh address) s ->
  (forall id, oa_instance (ce_open env) = inl id -> id_ok id) ->
  exists pc' s', control_step (C_Exchange attempt fresh address) s env = Val (pc', s') /\ sub_inv (pc', s').
Proof.
  intros Hc [Ht Ha] Hid. unfold control_step. cbv beta iota zeta.
  destruct (open_complete_core s fresh address (ce_open env) Hc Hid) as (r & s3 & -> & Hc3 & [L1 _ _ _ _] & Hr).
  rewrite bind_val. destruct r as [error'|].
  - destruct (retry_or_fail s3 attempt error') as [pc' s'] eqn:Hrf. exists pc', s'. split; [done|].
    rewrite <- Hrf. apply retry_or_fail_inv; [done|by destruct Hr|by rewrite L1].
  - eexists _, _. split; [done|]. apply sub_inv_split. split; [done|]. simpl. by rewrite L1.
Qed.

Lemma probe_inv attempt deadline s env :
  core_inv s -> pc_exact (C_Probe attempt deadline) s ->
  exists pc' s', control_step (C_Probe attempt deadline) s env = Val (pc', s') /\ sub_inv (pc', s').
Proof.
  intros Hc Hpc. unfold control_step. cbv beta iota zeta.
  pose proof (probe_turn_inv s (ce_view env) (ce_now env) deadline Hc) as Hp.
  destruct (probe_turn s (ce_view env) (ce_now env) deadline) as [[[error|]|] s'].
  + destruct Hp as (Hc' & Ht' & Hcf). destruct (retry_or_fail s' attempt error) as [pc2 s2] eqn:Hrf.
    exists pc2, s2. split; [done|]. rewrite <- Hrf. apply retry_or_fail_inv; [done|done|]. by rewrite Hcf.
  + eexists _, _. split; [done|]. by apply sub_inv_split.
  + subst s'. eexists _, _. split; [done|]. by apply sub_inv_split.
Qed.

Lemma finish_inv s env :
  core_inv s -> pc_exact (C_Finish) s ->
  exists pc' s', control_step (C_Finish) s env = Val (pc', s') /\ sub_inv (pc', s').
Proof.
  intros Hc Hpc. unfold control_step. cbv beta iota zeta.
  set (s1 := if negb (lc_interrupted (su_life s)) then close_session s true (tv_counters (ce_view env)) else s).
  assert (core_inv s1 /\ lc_running (su_life s1) = lc_running (su_life s) /\
    lc_state (su_life s1) = lc_state (su_life s) /\ su_config s1 = su_config s) as (Hc1 & Hr1 & Hst1 & Hcf1).
  { subst s1. destruct (negb _); [|done].
    by destruct (close_session_core _ s true (tv_counters (ce_view env)) Hc) as (? & _ & [] & ?). }
  clearbody s1. eexists _, _. split; [done|]. apply sub_inv_split.
  destruct Hc1 as [K1 K2 K3 K4 (J1 & J2 & J3)].
  case_bool_decide as Hst; simpl.
  + split; [|done]. constructor; try done. split; [by intros _; apply J2|]. split; [by intros _; apply J2|done].
  + split; [by constructor|]. unfold delayed. simpl. rewrite Hr1, Hcf1. intros Hd.
    destruct (Hpc Hd) as [?|?]; [done|congruence].
Qed.

Lemma control_step_inv pc s env :
  sub_inv (pc, s) -> (forall id, oa_instance (ce_open env) = inl id -> id_ok id) ->
  exists pc' s', control_step pc s env = Val (pc', s') /\ sub_inv (pc', s').
Proof.
  intros Hinv Hid. apply sub_inv_split in Hinv as [Hc Hpc]. simpl in Hc, Hpc.
  destruct pc as [|next|error|attempt error|attempt error|attempt|attempt fresh address|attempt deadline| |].
  - unfold control_step. destruct (negb (lc_running (su_life s))) eqn:Hr; (eexists _, _; split; [done|]);
      [by apply inv_stopped|by apply sub_inv_split].
  - by apply session_turn_inv.
  - by apply lost_inv.
  - by apply retry_inv.
  - by apply backoff_inv.
  - by apply reopen_inv.
  - by apply exchange_inv.
  - by apply probe_inv.
  - by apply finish_inv.
  - eexists _, _. split; [done|]. by apply sub_inv_split.
Qed.

(** ** The application *)

Lemma pc_keep pc s s' :
  su_transport s' = su_transport s \/ su_transport s' = None -> su_config s' = su_config s ->
  (lc_running (su_life s) = false -> lc_running (su_life s') = false) ->
  (lc_state (su_life s) = Sub_Failed -> lc_state (su_life s') = Sub_Failed \/ lc_running (su_life s') = false) ->
  pc_exact pc s -> pc_exact pc s'.
Proof.
  intros Ht Hc Hr Hf Hpc.
  assert (su_transport s = None -> su_transport s' = None) by (intros Hn; destruct Ht; congruence).
  assert (delayed s' -> delayed s) as Hde by (unfold delayed; by rewrite Hc).
  destruct pc; simpl in *; rewrite ?Hc; try done; try (by destruct Hpc; auto).
  - intros Hd. destruct (Hpc (Hde Hd)) as [?|Hs]; [auto|]. destruct (Hf Hs); auto.
  - auto.
Qed.

(** A change of the delivery queue that keeps its ingresses and its end. *)
Lemma inv_delivery pc s d : goes_on (su_delivery s) d -> sub_inv (pc, s) -> sub_inv (pc, with_delivery s d).
Proof.
  intros Hg Hinv. apply sub_inv_split in Hinv as [Hc Hpc]. apply sub_inv_split.
  split; [by apply core_delivery|done].
Qed.

(** The queue ends and [running] is cleared. *)
Lemma inv_stop pc s d l :
  goes_on (su_delivery s) d -> dq_terminal d <> TNone -> lc_running l = false ->
  (lc_state (su_life s) = Sub_Failed -> lc_state l = Sub_Failed \/ lc_running l = false) ->
  sub_inv (pc, s) -> sub_inv (pc, with_delivery (with_life s l) d).
Proof.
  intros Hg Hd Hl Hf Hinv. apply sub_inv_split in Hinv as [Hc Hpc].
  destruct (core_delivery _ s d Hg Hc) as [K1 K2 K3 K4 _]. apply sub_inv_split. split.
  - by constructor.
  - apply (pc_keep pc s); simpl; auto.
Qed.

Lemma fail_delivery_inv pc s : sub_inv (pc, s) -> sub_inv (pc, fail_delivery s).
Proof.
  intros Hinv. unfold fail_delivery. cbv zeta.
  set (e := subscriber_error Internal _).
  pose proof (goes_on_terminal (su_delivery s) TCallbackFailed e true true ltac:(done)) as Hg.
  apply (inv_delivery pc s _ Hg) in Hinv. set (s1 := with_delivery s _) in *.
  apply sub_inv_split in Hinv as [Hc Hpc]. simpl in Hc, Hpc.
  destruct (transition_core _ s1 Sub_Failed e Hc) as ([K1 K2 K3 K4 (J1 & J2 & J3)] & [M1 M2 M3 M4 _ _] & Hst & Hend).
  set (s2 := transition s1 Sub_Failed e) in *. clearbody s2. apply sub_inv_split. split.
  - constructor; try done. split; [by intros _; apply Hend; right|]. split; [by intros _; apply Hend; right|done].
  - apply (pc_keep pc s1); simpl; auto.
Qed.

Lemma deliver_loop_inv pc throws s : sub_inv (pc, s) -> sub_inv (pc, snd (deliver_loop throws s)).
Proof.
  revert s. induction throws as [|t throws IH]; intros s Hinv; [done|]. cbn [deliver_loop].
  pose proof (try_read_ends (su_delivery s)) as He. destruct (try_read_result (su_delivery s)) as [r d].
  apply (inv_delivery pc s d) in Hinv; [|by apply goes_on_ends].
  destruct (dr_frame r); [|done]. destruct t; [by apply fail_delivery_inv|].
  specialize (IH _ Hinv). by destruct (deliver_loop throws (with_delivery s d)).
Qed.

Lemma deliver_frames_inv pc s evs first throws :
  Forall quiet_event evs -> sub_inv (pc, s) -> sub_inv (pc, snd (deliver_frames s evs first throws)).
Proof.
  intros Hq Hinv. unfold deliver_frames. pose proof (read_result_ends (su_delivery s) evs Hq) as He.
  destruct (read_result (su_delivery s) evs) as [r d].
  apply (inv_delivery pc s d) in Hinv; [|by apply goes_on_ends].
  destruct r as [r|]; [|done]. destruct (dr_frame r); [|done].
  destruct first; [by apply fail_delivery_inv|]. pose proof (deliver_loop_inv pc throws _ Hinv) as Hl.
  by destruct (deliver_loop throws (with_delivery s d)).
Qed.

Lemma shutdown_finish_inv pc s detached old :
  lc_shutdown_started (su_life s) = true -> sub_inv (pc, s) ->
  sub_inv (pc, shutdown_finish s detached true old).
Proof.
  intros Hst Hinv. apply sub_inv_split in Hinv as [Hc Hpc]. simpl in Hc, Hpc. unfold shutdown_finish. cbv zeta.
  set (s1 := if _ || _ then _ else s).
  assert (core_while (making pc) s1 /\ pc_exact pc s1 /\ lc_running (su_life s1) = false) as (Hc1 & Hpc1 & Hr1).
  { pose proof (proj2 (proj2 (co_life _ _ Hc)) Hst). subst s1. destruct (_ || _); [|done].
    destruct (close_session_core _ s true old Hc) as (? & Ht & [? _ Hr _ _] & Hs). split; [done|].
    split; [|congruence]. apply (pc_keep pc s); auto; congruence || (rewrite Hs; auto). }
  clearbody s1.
  destruct (transition_core _ s1 Sub_Closed BulkError_default Hc1) as ([K1 K2 K3 K4 (J1 & J2 & J3)] & [M1 M2 M3 M4 _ _] & Hs2 & _).
  set (s2 := transition s1 Sub_Closed BulkError_default) in *. clearbody s2. apply sub_inv_split. split.
  - by constructor.
  - apply (pc_keep pc s1); simpl; auto; try congruence. intros _. right. congruence.
Qed.

Lemma sub_step_inv w op :
  sub_inv w -> sub_op_ok w op -> exists w', sub_step w op = Val w' /\ sub_inv w'.
Proof.
  destruct w as [pc s]. intros Hinv Hop. destruct op as [env| | |detached old|i frame| |evs|evs first throws]; simpl in *.
  - destruct (control_step_inv pc s env Hinv Hop) as (pc' & s' & -> & ?). by eexists.
  - eexists. split; [done|].
    destruct (set_terminal_ends (su_delivery s) TInterrupted BulkError_default false false ltac:(done)) as (_ & _ & Hend & _).
    apply inv_stop; try done; [by apply goes_on_terminal|by right].
  - eexists. split; [done|]. unfold shutdown_begin. destruct (_ || _); [done|].
    destruct (set_terminal_ends (su_delivery s) TClosed BulkError_default true true ltac:(done)) as (_ & _ & Hend & _).
    apply inv_stop; try done; [by apply goes_on_terminal|by right].
  - destruct Hop as [Hst _]. eexists. split; [done|]. by apply shutdown_finish_inv.
  - eexists. split; [done|]. apply inv_delivery; [|done]. apply goes_on_ends, push_frame_ends.
  - eexists. split; [done|]. unfold try_read. case_bool_decide; [done|].
    pose proof (try_read_ends (su_delivery s)) as He. destruct (try_read_result (su_delivery s)) as [r d].
    apply (inv_delivery pc s d) in Hinv; [|by apply goes_on_ends]. by destruct (dr_kind r).
  - eexists. split; [done|]. unfold read_for. case_bool_decide; [done|].
    pose proof (read_result_ends (su_delivery s) evs Hop) as He. destruct (read_result (su_delivery s) evs) as [r d].
    apply (inv_delivery pc s d) in Hinv; [|by apply goes_on_ends]. destruct r as [r|]; [|done]. by destruct (dr_kind r).
  - eexists. split; [done|]. by apply deliver_frames_inv.
Qed.

Lemma sub_run_inv w w' : sub_run w w' -> sub_inv w -> sub_inv w'.
Proof.
  induction 1 as [|w op w1 w2 Hop Hstep _ IH]; [done|]. intros Hinv.
  destruct (sub_step_inv w op Hinv Hop) as (w1' & Hstep' & Hinv'). apply IH. congruence.
Qed.

(** ** Establishment *)

Lemma open_session_core s a :
  core_inv s -> su_transport s = None -> (forall id, oa_instance a = inl id -> id_ok id) ->
  exists r s', open_session s a = Val (r, s') /\ core_inv s' /\ steady_life s s' /\
    match r with
    | Some _ => su_transport s' = None /\ lc_state (su_life s') = lc_state (su_life s)
    | None => su_transport s' <> None /\ lc_state (su_life s') = Sub_Probing
    end.
Proof.
  intros Hc Ht Hid. destruct (open_prepare_ok s a (co_ingress _ _ Hc) Ht) as (Hi & d & Hd & Hterm).
  destruct Hc as [K1 K2 _ K4 (J1 & J2 & J3)].
  assert (forall m, ingress_exact m (with_delivery s d) -> core_while m (with_delivery s d)) as Hcore.
  { intros m Hm. constructor; try done. unfold life_exact, ended in *. simpl. by rewrite Hterm. }
  assert (steady_life s (with_delivery s d)) as Hl by (by constructor).
  unfold open_session. destruct (open_prepare s a) as [[[fresh address]|error] s1]; simpl in Hd; subst s1.
  - destruct (open_complete_core (with_delivery s d) fresh address a) as (r & s' & Ho & Hc' & Hl' & Hr); [by apply Hcore|done|].
    exists r, s'. split; [done|]. split; [done|]. split; [by eapply steady_life_trans|done].
  - eexists _, _. split; [done|]. split; [by apply (Hcore None)|]. by split.
Qed.

Definition attempted s (r : option (option BulkError)) s' : Prop :=
  core_inv s' /\ su_config s' = su_config s /\ lc_running (su_life s') = lc_running (su_life s) /\
  match r with
  | Some None => lc_state (su_life s') = Sub_Active /\ su_transport s' <> None
  | Some (Some _) => su_transport s' = None
  | None => True
  end.

#[local] Ltac solve_attempted := unfold attempted in *; split_and!; congruence || done.

Lemma probe_wait_core s polls deadline :
  core_inv s -> let '(r, s') := probe_wait s polls deadline in attempted s r s'.
Proof.
  revert s. induction polls as [|[v now] polls IH]; intros s Hc; [done|]. cbn [probe_wait].
  unfold probe_turn. cbv zeta.
  destruct (close_session_core _ s true (tv_counters v) Hc) as (H1 & H2 & [H3 _ H4 _ _] & _).
  case_bool_decide as Ha.
  - destruct (transition_core _ s Sub_Active BulkError_default Hc) as (? & [? Htr Hr _ _ _] & ? & _).
    split; [done|]. split; [done|]. split; [done|]. split; [done|]. rewrite Htr. by destruct (su_transport s).
  - destruct (_ || _); [done|]. destruct (_ <=? _); [done|]. by apply IH.
Qed.

Lemma open_subscription_core s a polls deadline :
  core_inv s -> su_transport s = None -> (forall id, oa_instance a = inl id -> id_ok id) ->
  exists r s', open_subscription s a polls deadline = Val (r, s') /\ attempted s r s'.
Proof.
  intros Hc Ht Hid. unfold open_subscription.
  destruct (open_session_core s a Hc Ht Hid) as (r & s1 & -> & Hc1 & [L1 _ L3 _ _] & Hr). rewrite bind_val.
  destruct r as [error|]; [eexists _, _; split; [done|]; by destruct Hr|].
  pose proof (probe_wait_core s1 polls deadline Hc1) as Hp.
  destruct (probe_wait s1 polls deadline) as [r s2]. eexists _, _. split; [done|].
  destruct Hp as (? & ? & ? & ?). solve_attempted.
Qed.

Lemma establish_loop_core n attempt s error env :
  core_inv s -> su_transport s = None ->
  (forall k id, oa_instance (ae_answers (env k)) = inl id -> id_ok id) ->
  exists r s', establish_loop n attempt s error env = Val (r, s') /\ attempted s r s'.
Proof.
  intros Hc Ht Hid. revert attempt s error Hc Ht. induction n as [|n IH]; intros attempt s error Hc Ht; cbn [establish_loop].
  { eexists _, _. split; [done|]. solve_attempted. }
  destruct (_ || _); [eexists _, _; split; [done|]; solve_attempted|].
  destruct (transition_core _ s Sub_Reconnecting error Hc) as (Hc1 & [C1 T1 R1 _ _ _] & _).
  set (s1 := transition s Sub_Reconnecting error) in *. clearbody s1.
  destruct (negb _); [eexists _, _; split; [done|]; solve_attempted|].
  destruct (transition_core _ s1 Sub_Opening BulkError_default Hc1) as (Hc2 & [C2 T2 R2 _ _ _] & _).
  set (s2 := transition s1 Sub_Opening BulkError_default) in *. clearbody s2.
  destruct (open_subscription_core s2 (ae_answers (env attempt)) (ae_polls (env attempt)) (ae_deadline (env attempt)))
    as (r & s3 & -> & A1 & A2 & A3 & A4); [done|congruence|apply Hid|]. rewrite bind_val.
  assert (attempted s r s3) as Hat by (solve_attempted).
  destruct r as [[error'|]|]; [|by eexists _, _..].
  destruct (IH (S attempt) s3 error' A1 A4) as (r & s4 & -> & B1 & B2 & B3 & B4).
  exists r, s4. split; [done|]. solve_attempted.
Qed.

(** What an established subscription starts its threads with. *)
Lemma subscription_open_inv c queue fd given callback a polls deadline env :
  sconfig_ok c -> (forall id, oa_instance a = inl id -> id_ok id) ->
  (forall k id, oa_instance (ae_answers (env k)) = inl id -> id_ok id) ->
  exists r, subscription_open c queue fd given callback a polls deadline env = Val r /\
    match r with
    | Some (inl s) => SubscriberConfig_validate c = Ok /\ su_config s = normalised c /\ sub_inv (C_Top, s) /\
        lc_state (su_life s) = Sub_Active /\ su_transport s <> None /\ lc_running (su_life s) = true
    | _ => True
    end.
Proof.
  intros Hk Hid Hids. unfold subscription_open. cbv zeta.
  case_bool_decide as Hv; [by eexists|]. destruct (negb given); [by eexists|]. destruct (_ && _); [by eexists|].
  set (s0 := Subscription_new (normalised c) queue fd).
  assert (core_inv s0) as Hc0.
  { constructor; [by destruct Hk|done| |done|].
    - split; [done|]. split; [done|]. intros i b Hi. by destruct i.
    - by split; [|split]. }
  destruct (transition_core _ s0 Sub_Opening BulkError_default Hc0) as (Hc1 & [C1 T1 R1 _ _ _] & _).
  change (su_config s0) with (normalised c) in C1. change (lc_running (su_life s0)) with true in R1.
  set (s1 := transition s0 Sub_Opening BulkError_default) in *. clearbody s1.
  destruct (open_subscription_core s1 a polls deadline) as (r & s2 & -> & A); [done|by rewrite T1|done|].
  rewrite bind_val.
  assert (exists r' s', match r with
    | Some (Some error) => if bool_decide (sc_reconnect_policy (normalised c) = RP_BoundedRetry)
        then establish_loop (Z.to_nat (sc_reconnect_max_attempts (normalised c))) 0 s2 error env
        else Val (r, s2)
    | _ => Val (r, s2) end = Val (r', s') /\ attempted s1 r' s') as (r' & s3 & -> & B1 & B2 & B3 & B4).
  { destruct r as [[error|]|]; [|by eexists _, _..]. destruct A as (A1 & A2 & A3 & A4).
    case_bool_decide; [|eexists _, _; split; [done|]; solve_attempted].
    destruct (establish_loop_core (Z.to_nat (sc_reconnect_max_attempts (normalised c))) 0 s2 error env A1 A4 Hids)
      as (r' & s3 & -> & B1 & B2 & B3 & B4).
    eexists _, _. split; [done|]. solve_attempted. }
  rewrite bind_val. eexists. split; [done|]. destruct r' as [[error|]|]; [done| |done].
  destruct B4 as [Hst Ht]. split; [done|]. split; [simpl; congruence|].
  split; [|split; [done|split; [done|simpl; congruence]]].
  apply sub_inv_split. split; [|done]. simpl. destruct B1 as [K1 K2 K3 K4 (J1 & J2 & J3)]. by constructor.
Qed.
End Life.
