(* ===== verification/SubscriptionRuns.v ===== *)
(** * Whole runs of a subscription

    Sequences of steps of the control thread, the application and the transports:
    they never fault, they end once stopped, a reconnect takes a bounded number of
    turns, and a reopened session describes the array of the one before it. *)
From Stdlib Require Import Init.Byte.
From stdpp Require Import list.
From S2P Require Import Prelude Enums Limits ByteOrder Geometry Text Protocol ProtocolSafety.
From S2P Require Import ProtocolRoundtrip Offer Config ClientSession BoundedQueue DeliveryQueue Subscription.
From S2P Require Import SubscriptionSafety.
#[local] Open Scope Z_scope.

Section Runs.
Context {Q F : Type} `{BoundedFifo Q F}.
Abbreviation Subscription := (Subscription (Q := Q)).
Abbreviation world := (control_pc * Subscription)%type.
Abbreviation op := (sub_op (Q := Q) (F := F)).
Implicit Types (s : Subscription) (w : world).

(** ** Sequences of steps *)

Fixpoint sub_exec w (ops : list op) : result world :=
  match ops with
  | [] => Val w
  | o :: ops => let! w' := sub_step w o in sub_exec w' ops
  end.

Fixpoint ops_ok w (ops : list op) : Prop :=
  match ops with
  | [] => True
  | o :: ops => sub_op_ok w o /\ forall w', sub_step w o = Val w' -> ops_ok w' ops
  end.

(** How many of them are the control thread's. *)
Definition is_control (o : op) : bool := match o with O_Control _ => true | _ => false end.
Definition controls (ops : list op) : nat := length (filter is_control ops).

Lemma controls_cons o ops : controls (o :: ops) = ((if is_control o then 1 else 0) + controls ops)%nat.
Proof. unfold controls. rewrite filter_cons. by destruct o. Qed.

Lemma ops_ok_app w ops1 ops2 w1 :
  ops_ok w (ops1 ++ ops2) -> sub_exec w ops1 = Val w1 -> ops_ok w1 ops2.
Proof.
  revert w. induction ops1 as [|o ops1 IH]; intros w Hok Hex; [by injection Hex as ->|].
  destruct Hok as [Ho Hok]. simpl in Hex. destruct (sub_step w o) as [w'| |]; try done. by apply (IH w'), Hex; apply Hok.
Qed.

(** An invariant of the steps, with the one proved, holds after any run, and
    nothing faults on the way. *)
Lemma exec_rule (P : world -> Prop) w ops :
  (forall w o w', sub_inv w -> P w -> sub_op_ok w o -> sub_step w o = Val w' -> P w') ->
  sub_inv w -> P w -> ops_ok w ops -> exists w', sub_exec w ops = Val w' /\ sub_inv w' /\ P w'.
Proof.
  intros Hstep. revert w. induction ops as [|o ops IH]; intros w Hinv HP Hok; [by eexists|].
  destruct Hok as [Ho Hok]. destruct (sub_step_inv w o Hinv Ho) as (w1 & Hs & Hinv1). simpl. rewrite Hs, bind_val.
  apply IH; [done| |by apply Hok]. by apply (Hstep w o).
Qed.

Lemma run_exec w w' : sub_run w w' -> exists ops, ops_ok w ops /\ sub_exec w ops = Val w'.
Proof.
  induction 1 as [|w o w1 w2 Ho Hs _ (ops & Hok & Hex)]; [by exists []|].
  exists (o :: ops). simpl. rewrite Hs, bind_val. split; [|done]. split; [done|]. intros w' [= <-]. done.
Qed.

(** ** What every step keeps *)

(** The flags only go one way: what [s'] has of [s]. *)
Record onward s s' : Prop := {
  ow_stopped : lc_running (su_life s) = false -> lc_running (su_life s') = false;
  ow_interrupted : lc_interrupted (su_life s') = false -> lc_interrupted (su_life s) = false;
  ow_started : lc_control_started (su_life s') = lc_control_started (su_life s);
  ow_finished : lc_control_finished (su_life s) = true -> lc_control_finished (su_life s') = true;
  ow_config : su_config s' = su_config s
}.

#[local] Instance onward_preorder : PreOrder onward.
Proof.
  split; [by intros s; constructor|]. intros s1 s2 s3 [] []. constructor; auto; congruence.
Qed.

(** The description of the array that a subscription is bound to: that of the live
    session, or of the last one. *)
Definition pinned s : Geometry :=
  let o := su_observed s in
  if geo_generation (ob_current_geometry o) =? 0 then ob_retired_geometry o else ob_current_geometry o.

(** A step that opens nothing. *)
Record quiet s s' : Prop := {
  qu_onward : onward s s';
  qu_pinned : pinned s' = pinned s;
  qu_transport : su_transport s = None -> su_transport s' = None
}.

#[local] Instance quiet_preorder : PreOrder quiet.
Proof.
  split; [by intros s; constructor|]. intros s1 s2 s3 [H1 ? ?] [H2 ? ?].
  constructor; [by transitivity s2|congruence|auto].
Qed.

Lemma quiet_life s s' :
  su_life s' = su_life s -> su_config s' = su_config s ->
  ob_current_geometry (su_observed s') = ob_current_geometry (su_observed s) ->
  ob_retired_geometry (su_observed s') = ob_retired_geometry (su_observed s) ->
  su_transport s' = su_transport s -> quiet s s'.
Proof.
  intros Hl Hc Hg Hr Ht. constructor; [by constructor; rewrite ?Hl| |congruence].
  unfold pinned. by rewrite Hg, Hr.
Qed.

Lemma quiet_delivery s d : quiet s (with_delivery s d).
Proof. by apply quiet_life. Qed.

Lemma quiet_close_session s b old : quiet s (close_session s b old).
Proof.
  destruct (su_transport s) as [i|] eqn:Ht.
  - destruct (close_session_some s b old i Ht) as (d & -> & _).
    constructor; [by constructor| |done]. unfold pinned. simpl. by destruct (_ =? 0).
  - rewrite close_session_none by done. by constructor.
Qed.

Lemma quiet_transition s st e : quiet s (transition s st e).
Proof. unfold transition. destruct (bool_decide _); [done|]. by destruct (bool_decide _). Qed.

Lemma quiet_fail_delivery s : quiet s (fail_delivery s).
Proof.
  unfold fail_delivery. cbv zeta. set (e := subscriber_error Internal _).
  transitivity (transition (with_delivery s (callback_failed (su_delivery s) e)) Sub_Failed e); [|by constructor].
  etrans; [apply quiet_delivery|apply quiet_transition].
Qed.

Lemma quiet_deliver_loop throws s : quiet s (snd (deliver_loop throws s)).
Proof.
  revert s. induction throws as [|t throws IH]; intros s; [done|]. cbn [deliver_loop].
  destruct (try_read_result (su_delivery s)) as [r d]. destruct (dr_frame r); [|by apply quiet_delivery].
  destruct t; [etrans; [apply quiet_delivery|apply quiet_fail_delivery]|].
  specialize (IH (with_delivery s d)). destruct (deliver_loop throws (with_delivery s d)).
  etrans; [apply quiet_delivery|done].
Qed.

Lemma quiet_deliver_frames s evs first throws : quiet s (snd (deliver_frames s evs first throws)).
Proof.
  unfold deliver_frames. destruct (read_result (su_delivery s) evs) as [[r|] d]; [|apply quiet_delivery].
  destruct (dr_frame r); [|apply quiet_delivery].
  destruct first; [etrans; [apply quiet_delivery|apply quiet_fail_delivery]|].
  pose proof (quiet_deliver_loop throws (with_delivery s d)). destruct (deliver_loop throws (with_delivery s d)).
  etrans; [apply quiet_delivery|done].
Qed.

Lemma quiet_shutdown_finish s detached old : quiet s (shutdown_finish s detached true old).
Proof.
  unfold shutdown_finish. cbv zeta. set (s1 := if _ || _ then _ else s).
  assert (quiet s s1) as H1 by (subst s1; destruct (_ || _); [apply quiet_close_session|done]). clearbody s1.
  transitivity (transition s1 Sub_Closed BulkError_default); [etrans; [done|apply quiet_transition]|by constructor].
Qed.

Lemma other_step_quiet w o w' :
  is_control o = false -> sub_step w o = Val w' -> w'.1 = w.1 /\ quiet w.2 w'.2.
Proof.
  destruct w as [pc s]. destruct o as [env| | |detached old|i frame| |evs|evs first throws];
    intros Ho Hs; try done; injection Hs as <-; (split; [done|]); cbn [snd].
  - by constructor.
  - unfold shutdown_begin. destruct (_ || _); [done|by constructor].
  - apply quiet_shutdown_finish.
  - apply quiet_delivery.
  - unfold try_read. case_bool_decide; [done|]. destruct (try_read_result (su_delivery s)) as [r d].
    by destruct (dr_kind r).
  - unfold read_for. case_bool_decide; [done|]. destruct (read_result (su_delivery s) evs) as [[r|] d]; [|done].
    by destruct (dr_kind r).
  - apply quiet_deliver_frames.
Qed.

(** ** The control thread's steps *)

(** The array a subscription is bound to, once it is, stays the same. *)
Definition kept s s' : Prop :=
  geo_generation (pinned s) <> 0 ->
  geo_generation (pinned s') <> 0 /\ Geometry_describes_same_array (pinned s) (pinned s') = true.

Lemma same_array_iff g g' :
  Geometry_describes_same_array g g' = true <->
  (geo_element_type g, geo_element_size g, geo_rank g, geo_shape g, geo_strides g) =
  (geo_element_type g', geo_element_size g', geo_rank g', geo_shape g', geo_strides g').
Proof.
  unfold Geometry_describes_same_array. rewrite !andb_true_iff, !bool_decide_eq_true, !Z.eqb_eq.
  split; [intros [[[[-> ->] ->] ->] ->]; done|intros Heq; injection Heq; intros; split_and!; done].
Qed.

Lemma kept_pinned s s' : pinned s' = pinned s -> kept s s'.
Proof. intros Hp Hg. rewrite Hp. split; [done|]. by apply same_array_iff. Qed.

#[local] Instance kept_preorder : PreOrder kept.
Proof.
  split; [intros s; by apply kept_pinned|]. intros s1 s2 s3 H1 H2 Hg.
  destruct (H1 Hg) as [Hg2 Hs1]. destruct (H2 Hg2) as [Hg3 Hs2]. split; [done|].
  apply same_array_iff in Hs1, Hs2. apply same_array_iff. congruence.
Qed.

Lemma open_exchange_state s address a answer s' :
  open_exchange s address a = Val (answer, s') -> s' = snd (next_correlation_id s).
Proof.
  unfold open_exchange. destruct (next_correlation_id s) as [c s1].
  destruct (oa_instance a); [|by intros [= _ <-]].
  destruct (make_open_request _ _ _ _); [|by intros [= _ <-]|done].
  destruct (oa_channel a CT_Open _); [|by intros [= _ <-]].
  destruct (adopt_open_reply _ _ _ _) as [[st x]| |]; [|done..]. by intros [= _ <-].
Qed.

Lemma open_prepare_quiet s a : quiet s (open_prepare s a).2.
Proof.
  unfold open_prepare. destruct (make_ingress (su_delivery s)) as [fresh d].
  destruct (oa_factory a) as [[address|]|]; by apply quiet_life.
Qed.

(** An attempt that fails opens nothing; one that succeeds keeps the array. *)
Lemma open_complete_kept s fresh address a r s' :
  su_transport s = None -> ob_current_geometry (su_observed s) = Geometry_default ->
  open_complete s fresh address a = Val (r, s') ->
  onward s s' /\ kept s s' /\ match r with Some _ => pinned s' = pinned s | None => True end.
Proof.
  intros Ht Hg. unfold open_complete.
  assert (forall s2, quiet s s2 -> onward s s2 /\ kept s s2 /\ pinned s2 = pinned s) as Hq.
  { intros s2 [? Hp _]. split; [done|]. split; [by apply kept_pinned|done]. }
  destruct (open_exchange s address a) as [[answer s2]| |] eqn:He; [|done..].
  apply open_exchange_state in He as ->. rewrite bind_val.
  destruct answer as [x|error]; [|intros [= <- <-]; apply Hq; by apply quiet_life].
  destruct (_ && _) eqn:Hsame; [intros [= <- <-]; apply Hq; by apply quiet_life|].
  case_bool_decide; [intros [= <- <-]; apply Hq; by constructor; [constructor|unfold pinned; simpl; rewrite Hg|]|].
  intros [= <- <-]. unfold publish_transport.
  cbn [with_delivery with_session set_geometry with_observed with_delivered_at_open next_correlation_id snd with_tallies su_transport].
  rewrite Ht. split; [by constructor|]. split; [|done]. intros Hr.
  assert (pinned s = ob_retired_geometry (su_observed s)) as Hp by (unfold pinned; by rewrite Hg).
  match goal with |- context [pinned ?s' ] => assert (pinned s' = if geo_generation (to_geometry (cs_granted x)) =? 0
    then ob_retired_geometry (su_observed s) else to_geometry (cs_granted x)) as Hp' by reflexivity end.
  rewrite Hp', Hp in *. apply Z.eqb_neq in Hr as Hr'.
  destruct (geo_generation (to_geometry _) =? 0) eqn:Hx; [split; [done|by apply same_array_iff]|].
  split; [by apply Z.eqb_neq|]. change (ob_retired_geometry (su_observed (snd _))) with (ob_retired_geometry (su_observed s)) in Hsame.
  rewrite Hr' in Hsame. by apply negb_false_iff in Hsame.
Qed.

Lemma renew_once_quiet s v ch st e s' : renew_once s v ch = Val (st, e, s') -> quiet s s'.
Proof.
  unfold renew_once. destruct (su_transport s) as [i|] eqn:Ht; [|by intros [= _ _ <-]].
  cbn [next_correlation_id]. set (s1 := with_tallies s _).
  assert (quiet s s1) as H1 by (by apply quiet_life). clearbody s1.
  destruct (make_renew_request _ _ _ _ _); [|intros [= _ _ <-]; etrans; [done|]; by case_bool_decide|done].
  destruct (ch CT_Renew _); [|intros [= _ _ <-]; etrans; [done|]; case_bool_decide; by apply quiet_life].
  destruct (adopt_renew_reply _ _ _) as [[o x]| |]; [|done..]. rewrite bind_val.
  case_bool_decide; intros [= _ _ <-]; (etrans; [done|]); try case_bool_decide; by apply quiet_life.
Qed.

Lemma probe_turn_quiet s v now deadline r s' : probe_turn s v now deadline = (r, s') -> quiet s s'.
Proof.
  unfold probe_turn. cbv zeta. case_bool_decide; [intros [= _ <-]; apply quiet_transition|].
  destruct (_ || _); [intros [= _ <-]; apply quiet_close_session|].
  destruct (_ <=? _); intros [= _ <-]; [apply quiet_close_session|done].
Qed.

Lemma retry_or_fail_quiet s attempt e : quiet s (retry_or_fail s attempt e).2.
Proof. unfold retry_or_fail. case_bool_decide; [apply quiet_transition|done]. Qed.

Lemma reopen_step_quiet attempt s env pc' s' :
  control_step (C_Reopen attempt) s env = Val (pc', s') -> quiet s s'.
Proof.
  unfold control_step. cbv beta iota zeta. set (s1 := transition _ Sub_Opening BulkError_default).
  assert (quiet s s1) as H1 by (etrans; [apply quiet_delivery|apply quiet_transition]). clearbody s1.
  pose proof (open_prepare_quiet s1 (ce_open env)) as H2.
  destruct (open_prepare s1 (ce_open env)) as [[[fresh address]|error] s2]; simpl in H2; intros [= Heq].
  - simplify_eq. by transitivity s1.
  - pose proof (retry_or_fail_quiet s2 attempt error) as H3. rewrite Heq in H3.
    transitivity s1; [done|]. by transitivity s2.
Qed.

Lemma exchange_step_kept attempt fresh address s env pc' s' :
  sub_inv (C_Exchange attempt fresh address, s) ->
  control_step (C_Exchange attempt fresh address) s env = Val (pc', s') -> onward s s' /\ kept s s'.
Proof.
  intros [_ _ _ Hs _ [Ht _]]. simpl in Hs, Ht. destruct (Hs Ht) as [_ Hg]. unfold control_step. cbv beta iota zeta.
  destruct (open_complete s fresh address (ce_open env)) as [[r s2]| |] eqn:Ho; [|done..]. rewrite bind_val.
  apply open_complete_kept in Ho as (Hon & Hk & _); [|done..].
  destruct r as [error'|]; intros [= Heq]; [|by simplify_eq].
  pose proof (retry_or_fail_quiet s2 attempt error') as [? ? _]. rewrite Heq in *.
  split; [by transitivity s2|]. transitivity s2; [done|by apply kept_pinned].
Qed.

Lemma control_step_kept pc s env pc' s' :
  sub_inv (pc, s) -> control_step pc s env = Val (pc', s') -> onward s s' /\ kept s s'.
Proof.
  intros Hinv. assert (quiet s s' -> onward s s' /\ kept s s') as Hq.
  { intros []. split; [done|by apply kept_pinned]. }
  destruct pc as [|next|error|attempt error|attempt error|attempt|attempt fresh address|attempt deadline| |].
  6:{ intros Hs. by eapply Hq, reopen_step_quiet. }
  6:{ by apply exchange_step_kept. }
  all: unfold control_step; cbv beta iota zeta.
  - destruct (negb _); intros [= <- <-]; by apply Hq.
  - intros Hs. apply Hq. revert Hs. unfold session_turn. destruct (negb _); [by intros [= <- <-]|].
    destruct (su_transport s); [|by intros [= <- <-]]. set (s1 := publish_observation s _).
    assert (quiet s s1) as H1 by (by apply quiet_life). clearbody s1.
    case_bool_decide; [by intros [= <- <-]|]. destruct (_ <? _); [by intros [= <- <-]|].
    destruct (renew_once s1 _ _) as [[[st e] s2]| |] eqn:Hr; [|done..]. rewrite bind_val.
    apply renew_once_quiet in Hr. destruct (_ || _); intros [= <- <-]; by transitivity s1.
  - intros Hs. apply Hq. revert Hs. pose proof (quiet_close_session s false (tv_counters (ce_view env))) as H1.
    set (s1 := close_session s false _) in *. clearbody s1. destruct (negb _); [by intros [= <- <-]|].
    case_bool_decide; intros [= <- <-]; [|done]. etrans; [done|apply quiet_transition].
  - intros Hs. apply Hq. revert Hs. destruct (negb _); [by intros [= <- <-]|].
    destruct (_ <=? _); [intros [= <- <-]; apply quiet_transition|].
    destruct (_ <=? _); intros [= <- <-]; (etrans; [apply quiet_transition|by apply quiet_life]).
  - intros Hs. apply Hq. revert Hs. by destruct (negb _); intros [= <- <-].
  - destruct (probe_turn s _ _ deadline) as [[[error|]|] s2] eqn:Hp; apply probe_turn_quiet in Hp; intros [= Heq].
    + pose proof (retry_or_fail_quiet s2 attempt error) as Hr. rewrite Heq in Hr. apply Hq. by transitivity s2.
    + simplify_eq. by apply Hq.
    + simplify_eq. by apply Hq.
  - intros [= <- <-]. apply Hq. clear Hq Hinv. set (s1 := if negb _ then _ else s).
    assert (quiet s s1) as H1 by (subst s1; destruct (negb _); [apply quiet_close_session|done]). clearbody s1.
    transitivity s1; [done|]. case_bool_decide; (constructor; [by constructor|done..]).
  - intros [= <- <-]. by apply Hq.
Qed.

Lemma sub_step_kept w o w' :
  sub_inv w -> sub_step w o = Val w' -> onward w.2 w'.2 /\ kept w.2 w'.2.
Proof.
  intros Hinv Hs. destruct (is_control o) eqn:Ho.
  - destruct w as [pc s], w' as [pc' s'], o; try done. by apply (control_step_kept pc s env pc').
  - destruct (other_step_quiet w o w' Ho Hs) as (_ & [? ? _]). split; [done|by apply kept_pinned].
Qed.

(** ** Ending *)

Definition rank (pc : control_pc) : nat :=
  match pc with C_Reopen _ => 5 | C_Exchange _ _ _ => 4 | C_Probe _ _ => 3 | C_Finish => 1 | C_Done => 0 | _ => 2 end.

(** The turns that an opening takes before it looks at [running] again. *)
Definition inside_open (pc : control_pc) : nat :=
  match pc with C_Reopen _ => 2 | C_Exchange _ _ _ => 1 | _ => 0 end.

Lemma rank_inside pc : (rank pc <= 3 + inside_open pc)%nat.
Proof. destruct pc; simpl; lia. Qed.

Lemma retry_or_fail_rank s attempt e : (rank (retry_or_fail s attempt e).1 <= 2)%nat.
Proof. unfold retry_or_fail. case_bool_decide; simpl; lia. Qed.

Lemma stopped_step pc s env pc' s' :
  lc_running (su_life s) = false -> control_step pc s env = Val (pc', s') -> (rank pc' <= rank pc - 1)%nat.
Proof.
  intros Hr. destruct pc as [|next|error|attempt error|attempt error|attempt|attempt fresh address|attempt deadline| |];
    unfold control_step, session_turn; cbv beta iota zeta; rewrite ?Hr; try by intros [= <- <-].
  - destruct (qu_onward _ _ (quiet_close_session s false (tv_counters (ce_view env)))) as [Hst _ _ _ _].
    rewrite Hst by done. by intros [= <- <-].
  - destruct (open_prepare _ _) as [[[fresh address]|error] s2]; intros [= Heq]; [simplify_eq; simpl; lia|].
    pose proof (retry_or_fail_rank s2 attempt error) as Hx. rewrite Heq in Hx. simpl in *. lia.
  - destruct (open_complete _ _ _ _) as [[[error|] s2]| |]; try done; rewrite bind_val; intros [= Heq]; [|simplify_eq; simpl; lia].
    pose proof (retry_or_fail_rank s2 attempt error) as Hx. rewrite Heq in Hx. simpl in *. lia.
  - unfold probe_turn. rewrite Hr, orb_true_r. cbv zeta. case_bool_decide; [intros [= <- <-]; simpl; lia|].
    unfold retry_or_fail. case_bool_decide; intros [= <- <-]; simpl; lia.
Qed.

Lemma stopped_exec w ops :
  sub_inv w -> lc_running (su_life w.2) = false -> ops_ok w ops ->
  exists w', sub_exec w ops = Val w' /\ (rank w'.1 <= rank w.1 - controls ops)%nat.
Proof.
  revert w. induction ops as [|o ops IH]; intros w Hinv Hr Hok; [exists w; split; [done|unfold controls; simpl; lia]|].
  destruct Hok as [Ho Hok]. destruct (sub_step_inv w o Hinv Ho) as (w1 & Hs & Hinv1).
  destruct (sub_step_kept w o w1 Hinv Hs) as [[Hst _ _ _ _] _].
  destruct (IH w1) as (w' & He & Hrank); [done|by apply Hst|by apply Hok|].
  exists w'. simpl. rewrite Hs, bind_val. split; [done|]. rewrite controls_cons.
  destruct (is_control o) eqn:Hc.
  - destruct w as [pc s], w1 as [pc1 s1], o; try done. apply stopped_step in Hs; [|done]. simpl in *. lia.
  - destruct (other_step_quiet w o w1 Hc Hs) as [Hpc _]. rewrite Hpc in Hrank. lia.
Qed.

(** A control thread that has ended has closed its session, unless it was
    interrupted. *)
Definition tidy w : Prop :=
  w.1 = C_Done -> lc_control_finished (su_life w.2) = true /\
                  (lc_interrupted (su_life w.2) = false -> su_transport w.2 = None).

Lemma tidy_step w o w' : sub_inv w -> tidy w -> sub_op_ok w o -> sub_step w o = Val w' -> tidy w'.
Proof.
  intros Hinv Ht _ Hs. destruct (is_control o) eqn:Hc.
  - destruct w as [pc s], w' as [pc' s'], o; try done. intros Hd. simpl in *. subst pc'.
    destruct pc as [|next|error|attempt error|attempt error|attempt|attempt fresh address|attempt deadline| |]; unfold control_step in Hs; cbv beta iota zeta in Hs.
    + by destruct (negb _).
    + unfold session_turn in Hs. destruct (negb _); [done|]. destruct (su_transport s); [|done].
      case_bool_decide; [done|]. destruct (_ <? _); [done|]. destruct (renew_once _ _ _) as [[[st e] s2]| |]; try done.
      rewrite bind_val in Hs. by destruct (_ || _).
    + destruct (negb _); [done|]. by case_bool_decide.
    + destruct (negb _); [done|]. destruct (_ <=? _); [done|]. by destruct (_ <=? _).
    + by destruct (negb _).
    + destruct (open_prepare _ _) as [[[fresh address]|e] s2]; [done|]. unfold retry_or_fail in Hs. by case_bool_decide.
    + destruct (open_complete _ _ _ _) as [[[e|] s2]| |]; try done.
      rewrite bind_val in Hs. unfold retry_or_fail in Hs. by case_bool_decide.
    + destruct (probe_turn _ _ _ _) as [[[e|]|] s2]; try done. unfold retry_or_fail in Hs. by case_bool_decide.
    + injection Hs as <-. split; [done|]. cbn [with_life su_life lc_interrupted].
      destruct (lc_interrupted (su_life s)) eqn:Hi; cbn [negb]; [by case_bool_decide; simpl; rewrite Hi|].
      intros _. set (s1 := close_session _ _ _). assert (su_transport s1 = None) as H1 by apply close_session_gone.
      clearbody s1. by case_bool_decide.
    + injection Hs as <-. by apply Ht.
  - destruct (other_step_quiet w o w' Hc Hs) as (Hpc & [[_ Hi _ Hf _] _ Htr]). intros Hd.
    rewrite Hpc in Hd. destruct (Ht Hd) as [Hfin Hnone]. split; [by apply Hf|]. intros Hni. apply Htr, Hnone, Hi, Hni.
Qed.

(** ** Reconnecting *)

Definition reconnecting (pc : control_pc) : bool :=
  match pc with C_Retry _ _ | C_Backoff _ _ | C_Reopen _ | C_Exchange _ _ _ | C_Probe _ _ => true | _ => false end.

(** The control thread's clock does not go back, and advances by a millisecond at
    least while it sleeps between two looks at the probe. *)
Definition next_time (pc pc' : control_pc) (now : Z) : Z :=
  match pc, pc' with C_Probe _ _, C_Probe _ _ => now + 1 | _, _ => now end.
Fixpoint clocked w (earliest : Z) (ops : list op) : Prop :=
  match ops with
  | [] => True
  | o :: ops =>
      match o with
      | O_Control env => earliest <= ce_now env /\ forall w', sub_step w o = Val w' ->
                           clocked w' (next_time w.1 w'.1 (ce_now env)) ops
      | _ => forall w', sub_step w o = Val w' -> clocked w' earliest ops
      end
  end.

(** The turns one attempt can take: the backoff, making the transport, the exchange,
    and a look at the probe in every millisecond of its timeout. *)
Definition attempt_turns (c : SubscriberConfig) : Z := sc_probe_timeout_ms c + 5.

(** The turns left of a reconnect. *)
Definition turns_left (c : SubscriberConfig) (earliest : Z) (pc : control_pc) : Z :=
  let left attempt := (sc_reconnect_max_attempts c - attempt) * attempt_turns c in
  match pc with
  | C_Retry attempt _ => left attempt + 1
  | C_Backoff attempt _ => left attempt
  | C_Reopen attempt => left attempt + 4 + sc_probe_timeout_ms c
  | C_Exchange attempt _ _ => left attempt + 3 + sc_probe_timeout_ms c
  | C_Probe attempt deadline => left attempt + 2 + Z.max 0 (deadline - earliest)
  | _ => 0
  end.

Lemma turns_left_positive c e pc s :
  0 <= sc_probe_timeout_ms c -> su_config s = c -> pc_exact pc s -> reconnecting pc = true -> 1 <= turns_left c e pc.
Proof.
  intros Hp <- Hpc Hr. unfold turns_left, attempt_turns. destruct pc; try done; simpl in Hpc.
  1-4: destruct Hpc; nia.
  nia.
Qed.

Lemma retry_or_fail_pc s attempt e pc' s' :
  Val (E := Status) (retry_or_fail s attempt e) = Val (pc', s') -> pc' = C_Retry attempt e \/ pc' = C_Finish.
Proof. unfold retry_or_fail. case_bool_decide; intros [= <- <-]; auto. Qed.

(** A reconnect that is over: a session is open again, or the thread ends. *)
Definition reopened w : Prop :=
  w.1 = C_Top /\ lc_state (su_life w.2) = Sub_Active /\ su_transport w.2 <> None.

Lemma transition_transport s st e : su_transport (transition s st e) = su_transport s.
Proof. unfold transition. case_bool_decide; [done|]. by case_bool_decide. Qed.

Lemma reconnect_step pc s env pc' s' e :
  sub_inv (pc, s) -> 0 <= sc_probe_timeout_ms (su_config s) ->
  reconnecting pc = true -> e <= ce_now env -> control_step pc s env = Val (pc', s') ->
  reopened (pc', s') \/ pc' = C_Finish \/
  (reconnecting pc' = true /\
   turns_left (su_config s) (next_time pc pc' (ce_now env)) pc' < turns_left (su_config s) e pc).
Proof.
  intros Hinv HT Hrec He. apply sub_inv_split in Hinv as [[[Hmax _] _ _ _ _] Hpc]. simpl in Hmax, Hpc.
  unfold in_range in Hmax. set (c := su_config s) in *.
  assert (forall s2 attempt error b, Val (E := Status) (retry_or_fail s2 attempt error) = Val (pc', s') ->
    turns_left c (next_time pc (C_Retry attempt error) (ce_now env)) (C_Retry attempt error) < b ->
    reopened (pc', s') \/ pc' = C_Finish \/
    (reconnecting pc' = true /\ turns_left c (next_time pc pc' (ce_now env)) pc' < b)) as Hretry.
  { intros s2 attempt error b Heq Hb. apply retry_or_fail_pc in Heq as [-> | ->]; auto. }
  destruct pc as [| | |attempt error|attempt error|attempt|attempt fresh address|attempt deadline| |]; try done;
    unfold control_step; cbv beta iota zeta; fold c.
  - destruct (negb _); [intros [= <- <-]; auto|]. destruct (_ <=? _); [intros [= <- <-]; auto|].
    destruct (_ <=? _); intros [= <- <-]; [auto|]. right. right. split; [done|]. simpl. lia.
  - destruct (negb _); [intros [= <- <-]; auto|]. destruct Hpc as [_ Hpc]. fold c in Hpc. intros [= <- <-].
    right. right. split; [done|]. simpl. rewrite wrap_small by (unfold in_range; lia). unfold attempt_turns. nia.
  - destruct (open_prepare _ _) as [[[fresh address]|error'] s2]; intros Heq.
    + simplify_eq. right. right. split; [done|]. simpl. lia.
    + apply (Hretry s2 attempt error'); [done|]. simpl. lia.
  - destruct (open_complete _ _ _ _) as [[[error'|] s2]| |]; try done; rewrite bind_val; intros Heq.
    + apply (Hretry s2 attempt error'); [done|]. simpl. lia.
    + simplify_eq. right. right. split; [done|]. simpl. lia.
  - unfold probe_turn. cbv zeta. case_bool_decide as Ha.
    { intros [= <- <-]. left. split; [done|]. split; [done|].
      cbn [snd]. rewrite transition_transport. by destruct (su_transport s). }
    destruct (_ || _); [|destruct (Z.leb_spec deadline (ce_now env))].
    1,2: intros Heq; eapply Hretry; [done|]; simpl; lia.
    intros [= <- <-]. right. right. split; [done|]. simpl. lia.
Qed.

(** Within the turns left, the control thread has a session again or ends. *)
Lemma reconnect_exec ops w e :
  sub_inv w -> 0 <= sc_probe_timeout_ms (su_config w.2) -> reconnecting w.1 = true ->
  ops_ok w ops -> clocked w e ops -> turns_left (su_config w.2) e w.1 <= Z.of_nat (controls ops) ->
  exists ops1 ops2 w1, ops = ops1 ++ ops2 /\ sub_exec w ops1 = Val w1 /\ sub_inv w1 /\
    su_config w1.2 = su_config w.2 /\ (reopened w1 \/ w1.1 = C_Finish).
Proof.
  revert w e. induction ops as [|o ops IH]; intros w e Hinv HT Hrec Hok Hck Hle.
  { pose proof (turns_left_positive (su_config w.2) e w.1 w.2 HT eq_refl (iv_pc _ Hinv) Hrec) as Hpos.
    unfold controls in Hle. simpl in Hle. lia. }
  destruct Hok as [Ho Hok]. destruct (sub_step_inv w o Hinv Ho) as (w1 & Hs & Hinv1).
  pose proof (sub_step_kept w o w1 Hinv Hs) as [[_ _ _ _ Hcfg] _]. rewrite controls_cons in Hle.
  assert (forall e', reconnecting w1.1 = true -> clocked w1 e' ops ->
    turns_left (su_config w1.2) e' w1.1 <= Z.of_nat (controls ops) ->
    exists ops1 ops2 w2, o :: ops = ops1 ++ ops2 /\ sub_exec w ops1 = Val w2 /\ sub_inv w2 /\
      su_config w2.2 = su_config w.2 /\ (reopened w2 \/ w2.1 = C_Finish)) as Hgo.
  { intros e' Hrec1 Hck1 Hle1. destruct (IH w1 e') as (ops1 & ops2 & w2 & -> & He & Hi & Hc2 & Hw); auto; [by rewrite Hcfg|].
    exists (o :: ops1), ops2, w2. split; [done|]. split; [simpl; by rewrite Hs, bind_val|].
    split; [done|]. split; [congruence|done]. }
  destruct (is_control o) eqn:Hc.
  - destruct w as [pc s], w1 as [pc1 s1], o as [env| | | | | | |]; try done. destruct Hck as [Hnow Hck].
    destruct (reconnect_step pc s env pc1 s1 e Hinv HT Hrec Hnow Hs) as [Hx|[Hx|[Hrec1 Hlt]]];
      [exists [O_Control env], ops, (pc1, s1); simpl in *; rewrite Hs, bind_val; split_and!; auto..|].
    apply (Hgo _ Hrec1 (Hck _ Hs)). simpl in *. rewrite Hcfg. lia.
  - destruct (other_step_quiet w o w1 Hc Hs) as [Hpc _]. apply (Hgo e).
    + by rewrite Hpc.
    + destruct o; try done; by apply Hck.
    + rewrite Hpc, Hcfg. lia.
Qed.

(** ** From an opened subscription *)

(** What [SubscriptionFactory::open] returned, whatever its configuration and
    whatever it met. *)
Definition established s : Prop :=
  exists c queue fd given callback a polls deadline env,
    sconfig_ok c /\ (forall id, oa_instance a = inl id -> id_ok id) /\
    (forall k id, oa_instance (ae_answers (env k)) = inl id -> id_ok id) /\
    subscription_open (F := F) c queue fd given callback a polls deadline env = Val (Some (inl s)).

Lemma established_inv s :
  established s -> sub_inv (C_Top, s) /\ lc_state (su_life s) = Sub_Active /\ su_transport s <> None /\
    lc_running (su_life s) = true.
Proof.
  intros (c & queue & fd & given & callback & a & polls & deadline & env & Hc & Ha & He & Ho).
  destruct (subscription_open_inv c queue fd given callback a polls deadline env Hc Ha He) as (r & Hr & Hs).
  rewrite Ho in Hr. injection Hr as <-. by destruct Hs as (_ & _ & ? & ? & ? & ?).
Qed.

Lemma established_reaches s w : established s -> sub_run (F := F) (C_Top, s) w -> sub_inv w /\ tidy w /\ kept s w.2.
Proof.
  intros Hs Hrun. destruct (established_inv s Hs) as (Hinv & _).
  destruct (run_exec _ _ Hrun) as (ops & Hok & He).
  destruct (exec_rule (fun w' => tidy w' /\ kept s w'.2) (C_Top, s) ops) as (w' & He' & Hi & Ht & Hk); try done.
  - intros w1 o w2 Hi [Ht Hk] Ho Hs2. split; [by apply (tidy_step w1 o)|].
    transitivity w1.2; [done|]. by apply (sub_step_kept w1 o).
  - by rewrite He in He'; injection He' as <-.
Qed.

(** C12: whatever the publisher, the network and the application do, in whatever
    order: no step of an opened subscription faults; a frame that a transport other
    than the live one, or the one being opened, still delivers is thrown away; there
    is no session without a transport; a subscription that was stopped, or has failed,
    has told its readers; and, if the configured reconnect delay is not zero, its
    control thread ends only when it was stopped or has failed. *)
Theorem subscription_run_sound s w (Hs : established s) (Hw : sub_run (C_Top, s) w) :
  (forall o : op, sub_op_ok w o -> exists w', sub_step w o = Val w') /\
  (forall i (frame : F), su_transport w.2 <> Some i -> making w.1 <> Some i ->
     push_frame (su_delivery w.2) (Some i) frame = (false, count_discarded (su_delivery w.2) 1)) /\
  (su_transport w.2 = None -> su_session w.2 = ClientSession_default) /\
  (lc_running (su_life w.2) = false \/ lc_state (su_life w.2) = Sub_Failed ->
     dq_terminal (su_delivery w.2) <> TNone) /\
  (1 <= sc_reconnect_backoff_ms (su_config w.2) -> w.1 = C_Done -> lc_running (su_life w.2) = false).
Proof.
  destruct (established_reaches s w Hs Hw) as (Hinv & _).
  pose proof Hinv as [_ _ Hi Hse (Hl1 & Hl2 & _) Hpc]. split_and!.
  - intros o Ho. destruct (sub_step_inv w o Hinv Ho) as (w' & ? & _). by exists w'.
  - intros i frame Hne Hm. unfold push_frame. destruct (dq_ingresses (su_delivery w.2) !! i) as [b|] eqn:Hb; [|done].
    destruct (making w.1) as [fresh|]; [destruct Hi as (_ & _ & _ & Hi)|destruct Hi as (_ & _ & Hi)];
      rewrite (Hi i b Hb), bool_decide_eq_false_2 by congruence; done.
  - intros Ht. by apply Hse.
  - intros [?|?]; [by apply Hl1|by apply Hl2].
  - intros Hb Hd. rewrite Hd in Hpc. by apply Hpc.
Qed.

(** C13: once [interrupt], [close] or a failed callback has stopped a subscription,
    three turns of its control thread -- and, inside an opening, the one or two that
    it takes to look at [running] again -- are enough for it to end, whatever the
    application and old transports do between them; and the end of [close] then
    leaves no session open, also when the thread had been interrupted and left its
    session alone. *)
Theorem stopped_control_ends s w ops old
    (Hs : established s) (Hw : sub_run (C_Top, s) w) (Hr : lc_running (su_life w.2) = false)
    (Hok : ops_ok w ops) (Hn : (3 + inside_open w.1 <= controls ops)%nat) :
  exists w', sub_exec w ops = Val w' /\ w'.1 = C_Done /\ lc_control_finished (su_life w'.2) = true /\
    su_transport (shutdown_finish w'.2 false true old) = None.
Proof.
  destruct (established_reaches s w Hs Hw) as (Hinv & Ht & _).
  destruct (stopped_exec w ops Hinv Hr Hok) as (w' & He & Hrank).
  destruct (exec_rule tidy w ops tidy_step Hinv Ht Hok) as (w2 & He2 & Hinv' & Ht').
  rewrite He in He2. injection He2 as <-.
  assert (w'.1 = C_Done) as Hd.
  { pose proof (rank_inside w.1). assert (rank w'.1 = 0)%nat as Hz by lia. by destruct w'.1. }
  exists w'. split; [done|]. split; [done|]. destruct (Ht' Hd) as [Hf Hnone]. split; [done|].
  apply (qu_transport (if negb (lc_control_started (su_life w'.2)) || lc_interrupted (su_life w'.2) && negb false
    then close_session w'.2 true old else w'.2)).
  { unfold shutdown_finish. cbv zeta. match goal with |- quiet ?x _ => transitivity (transition x Sub_Closed BulkError_default) end;
      [apply quiet_transition|by constructor]. }
  rewrite andb_true_r. destruct (lc_interrupted (su_life w'.2)); [rewrite orb_true_r; by apply close_session_gone|].
  rewrite orb_false_r. destruct (negb _); [by apply close_session_gone|by apply Hnone].
Qed.

(** C15: a reconnect ends: if the configured delay is not zero, and the thread's
    clock does not go back and moves while it sleeps, then within
    [reconnect_max_attempts] times the turns of an attempt, whatever the publisher,
    the network and the application do, the subscription is active on an open session
    again; or its control thread has given up, the readers have been told of the end,
    and the subscription has failed or was stopped meanwhile. *)
Theorem reconnect_bounded s w error e ops
    (Hs : established s) (Hw : sub_run (C_Top, s) w) (Hpc : w.1 = C_Retry 0 error)
    (Hb : 1 <= sc_reconnect_backoff_ms (su_config w.2))
    (Hp : 0 <= sc_probe_timeout_ms (su_config w.2)) (Hok : ops_ok w ops) (Hck : clocked w e ops)
    (Hn : sc_reconnect_max_attempts (su_config w.2) * attempt_turns (su_config w.2) + 1 <= Z.of_nat (controls ops)) :
  exists ops1 ops2 w1, ops = ops1 ++ ops2 /\ sub_exec w ops1 = Val w1 /\
    ((w1.1 = C_Top /\ lc_state (su_life w1.2) = Sub_Active /\ su_transport w1.2 <> None) \/
     (w1.1 = C_Finish /\ dq_terminal (su_delivery w1.2) <> TNone /\
      (lc_state (su_life w1.2) = Sub_Failed \/ lc_running (su_life w1.2) = false))).
Proof.
  destruct (established_reaches s w Hs Hw) as (Hinv & _ & _).
  destruct (reconnect_exec ops w e) as (ops1 & ops2 & w1 & -> & He & [_ _ _ _ (Hl1 & Hl2 & _) Hf] & Hc & Hend);
    rewrite ?Hpc; try done; [simpl; lia|].
  exists ops1, ops2, w1. split; [done|]. split; [done|]. destruct Hend as [?|Hfin]; [by left|]. right.
  rewrite Hfin in Hf. unfold pc_exact, delayed in Hf. rewrite Hc in Hf. destruct (Hf Hb); split_and!; auto; first [by apply Hl1|by apply Hl2].
Qed.

(** C16: through any number of reconnects a subscription stays bound to the array it
    was opened with: the session that is live, and the last one there was, describe
    an array of the same element type and size, rank, shape and strides. *)
Theorem reconnect_keeps_array s w
    (Hs : established s) (Hw : sub_run (F := F) (C_Top, s) w)
    (Hg : geo_generation (ob_current_geometry (su_observed s)) <> 0) :
  let o := su_observed w.2 in
  let g := ob_current_geometry (su_observed s) in
  (geo_generation (ob_current_geometry o) <> 0 -> Geometry_describes_same_array g (ob_current_geometry o) = true) /\
  (geo_generation (ob_current_geometry o) = 0 -> Geometry_describes_same_array g (ob_retired_geometry o) = true).
Proof.
  destruct (established_reaches s w Hs Hw) as (_ & _ & Hk). unfold kept, pinned in Hk.
  apply Z.eqb_neq in Hg as Hg'. rewrite Hg' in Hk. destruct (Hk Hg) as [_ Hsame]. cbv zeta.
  split; intros Hx; [apply Z.eqb_neq in Hx|apply Z.eqb_eq in Hx]; by rewrite Hx in Hsame.
Qed.

(** one [BulkRenew] that the channel fails on -- a lost or slow command --
    drops a session whose transport works: the control thread takes the session for
    lost, and its next turn closes it. *)
Theorem failed_renew_drops_session s next env env' r
    (Hr : lc_running (su_life s) = true) (Ht : su_transport s <> None) (Hid : id_ok (cs_session_id (su_session s)))
    (Hv : tv_state (ce_view env) <> Sub_Failed) (Hnow : next <= ce_now env)
    (Hch : forall request, ce_channel env CT_Renew request = inr (RaisedStd r)) :
  exists s' error, control_step (C_Session next) s env = Val (C_Lost error, s') /\
    be_status error = TransportFailure /\ su_transport s' = su_transport s /\
    exists pc s2, control_step (C_Lost error) s' env' = Val (pc, s2) /\ su_transport s2 = None.
Proof.
  unfold control_step at 1, session_turn. rewrite Hr. destruct (su_transport s) as [i|] eqn:Hi; [|done].
  rewrite bool_decide_eq_false_2 by done. rewrite (proj2 (Z.ltb_ge _ _)) by done. unfold renew_once.
  change (su_transport (publish_observation s _)) with (su_transport s). rewrite Hi.
  cbn [next_correlation_id negb]. set (s1 := with_tallies _ _). unfold make_renew_request.
  rewrite encode_RenewRequest_bytes by done. rewrite Hch. cbn [error_of be_status].
  rewrite bool_decide_eq_true_2 by done. rewrite bind_val. cbn [orb].
  do 2 rewrite (bool_decide_eq_false_2 (TransportFailure = _)) by done. eexists _, _. split; [done|].
  split; [done|]. split; [by simpl|]. unfold control_step. cbv beta iota zeta.
  set (s2 := close_session _ false _). assert (su_transport s2 = None) as H2.
  { subst s2. match goal with |- context [close_session ?x ?b ?o] => destruct (close_session_some x b o i) as (d & -> & _) end; done. }
  clearbody s2. destruct (negb _); [by eexists _, _|].
  case_bool_decide; [|by eexists _, _]. eexists _, _. split; [done|]. by apply (qu_transport s2); [apply quiet_transition|].
Qed.

(** C40: with a reconnect delay of zero -- which the validation accepts -- the first
    lost session is the last: the control thread ends without an attempt, and leaves
    a subscription that is reconnecting, running, and has told its readers nothing. *)
Theorem zero_backoff_strands_subscription s error env env'
    (Hb : sc_reconnect_backoff_ms (su_config s) = 0) (Hm : 0 < sc_reconnect_max_attempts (su_config s))
    (Hr : lc_running (su_life s) = true) (Hd : dq_terminal (su_delivery s) = TNone) :
  exists s1 s2, control_step (C_Retry 0 error) s env = Val (C_Finish, s1) /\
    control_step C_Finish s1 env' = Val (C_Done, s2) /\
    lc_state (su_life s2) = Sub_Reconnecting /\ lc_running (su_life s2) = true /\
    lc_control_finished (su_life s2) = true /\ dq_terminal (su_delivery s2) = TNone.
Proof.
  unfold control_step at 1. cbv beta iota zeta. rewrite Hr. rewrite (proj2 (Z.leb_gt _ _)) by done. cbn [negb].
  assert (backoff_delay 0 (sc_reconnect_backoff_ms (su_config s))
    (ob_last_lease_ttl_ms (su_observed (count_reconnect (transition s Sub_Reconnecting error)))) = 0) as ->.
  { unfold backoff_delay. rewrite Hb. simpl. lia. }
  simpl (0 <=? 0). cbv iota. set (s1 := count_reconnect _).
  assert (lc_state (su_life s1) = Sub_Reconnecting /\ lc_running (su_life s1) = true /\
    dq_terminal (su_delivery s1) = TNone) as (H1 & H2 & H3) by done.
  clearbody s1. exists s1. unfold control_step. cbv beta iota zeta.
  set (s2 := if negb _ then close_session s1 _ _ else s1).
  assert (su_life s2 = su_life s1 /\ dq_terminal (su_delivery s2) = TNone) as [E1 E2].
  { subst s2. destruct (negb _); [|done]. destruct (su_transport s1) as [i|] eqn:Ht.
    - destruct (close_session_some s1 true (tv_counters (ce_view env')) i Ht) as (d & -> & [= _ _ He]).
      split; [done|]. simpl. rewrite He. exact H3.
    - by rewrite close_session_none. }
  clearbody s2. rewrite E1, bool_decide_eq_false_2 by congruence. eexists. split; [done|]. split; [done|]. simpl. by rewrite ?E1.
Qed.
End Runs.

(** ** A concrete subscription *)

#[local] Instance sample_frames : BoundedFifo (BoundedQueue Z) Z := ring_fifo 0.

Definition sample_subscriber (backoff : Z) : SubscriberConfig :=
  mkSubscriberConfig (str "camera-1") 65536 8 4 64 DM_Pull DropNewest RP_BoundedRetry 2 backoff 5000
    30000 5 (2 ^ 24) [] (-1) false 0 Host None None.
Definition no_error : BulkError := BulkError_default.
Definition sample_view (st : SubscriberState) : transport_view := mkView st no_error SubscriberCounters_default.

(** A publisher that grants what is asked for, under the correlation id [c]. *)
Definition granting (c : Z) : channel := fun _ _ =>
  match encode_OpenReply sample_reply c with Val reply => inl reply | _ => inr (RaisedStd []) end.
Definition unreachable : channel := fun _ _ => inr (RaisedStd (str "timeout")).
Definition sample_answers (ch : channel) : open_answers :=
  mkOpenAnswers (inl (Some (str "ucx-address"))) (inl sample_id) ch Ok no_error
    SubscriberCounters_default SubscriberCounters_default.
Definition sample_attempt : nat -> attempt_env := fun _ =>
  mkAttemptEnv false 1000 false (sample_answers unreachable) [] 0.
Definition sample_opening (backoff : Z) := subscription_open (F := Z) (sample_subscriber backoff)
  (BoundedQueue_new 0 64) None true false (sample_answers (granting 1)) [(sample_view Sub_Active, 0)] 5 sample_attempt.
Definition sample_subscription (backoff : Z) : Subscription (Q := BoundedQueue Z) :=
  match sample_opening backoff with
  | Val (Some (inl s)) => s
  | _ => Subscription_new (sample_subscriber backoff) (BoundedQueue_new 0 64) None
  end.

(** A turn at [now], with the transport in [st]. *)
Definition turn (now : Z) (st : SubscriberState) (ch : channel) : control_env :=
  mkControlEnv now now (sample_view st) ch (sample_answers ch).
Definition turns (l : list control_env) : list (sub_op (Q := BoundedQueue Z) (F := Z)) := map O_Control l.

Lemma sample_ids : forall id, @inl bytes raised sample_id = inl id -> id_ok id.
Proof. by intros id [= <-]. Qed.

Lemma sample_established : established (sample_subscription 500).
Proof.
  exists (sample_subscriber 500), (BoundedQueue_new 0 64), None, true, false, (sample_answers (granting 1)),
    [(sample_view Sub_Active, 0)], 5, sample_attempt.
  split; [by split|]. split; [apply sample_ids|]. split; [intros k; apply sample_ids|]. by vm_compute.
Qed.

(** A run that the evaluator follows. *)
Lemma exec_run (w w' : control_pc * Subscription (Q := BoundedQueue Z)) (l : list control_env) :
  Forall (fun env => oa_instance (ce_open env) = inl sample_id) l ->
  sub_exec w (turns l) = Val w' -> sub_run (F := Z) w w'.
Proof.
  revert w. induction l as [|env l IH]; intros w Hl He; [injection He as ->; constructor|].
  apply list.Forall_cons in Hl as [Henv Hl]. cbn [turns map sub_exec] in He.
  destruct (sub_step w (O_Control env)) as [w1| |] eqn:Hs; try done.
  apply (sub_run_more w (O_Control env) w1); [|done|by apply IH]. simpl. rewrite Henv. apply sample_ids.
Qed.

Lemma turns_ok (w : control_pc * Subscription (Q := BoundedQueue Z)) l :
  Forall (fun env => oa_instance (ce_open env) = inl sample_id) l -> ops_ok w (turns l).
Proof.
  intros Hl. revert w. induction Hl as [|env l Henv _ IH]; intros w; [done|].
  split; [simpl; rewrite Henv; apply sample_ids|]. intros w' _. apply IH.
Qed.

Lemma turns_clocked (w : control_pc * Subscription (Q := BoundedQueue Z)) st ch n t e :
  e <= t -> clocked w e (turns (map (fun k => turn k st ch) (seqZ t (Z.of_nat n)))).
Proof.
  revert w t e. induction n as [|n IH]; intros w t e He; [done|].
  rewrite seqZ_cons by lia. cbn [turns map clocked]. split; [done|]. intros w' _.
  replace (Z.pred (Z.of_nat (S n))) with (Z.of_nat n) by lia. apply IH. unfold next_time. simpl.
  destruct w.1, w'.1; lia.
Qed.

(** The session is lost: the transport reports a failure. *)
Definition sample_loss : list control_env :=
  [turn 0 Sub_Active unreachable; turn 1 Sub_Failed unreachable; turn 2 Sub_Failed unreachable].
Definition sample_lost (backoff : Z) : control_pc * Subscription (Q := BoundedQueue Z) :=
  match sub_exec (C_Top, sample_subscription backoff) (turns sample_loss) with
  | Val w => w | _ => (C_Done, sample_subscription backoff) end.

Lemma sample_lost_run : sub_run (F := Z) (C_Top, sample_subscription 500) (sample_lost 500).
Proof. apply (exec_run _ _ sample_loss); [by repeat constructor|]. by vm_compute. Qed.

Lemma subscription_run_sound_witness :
  lc_running (su_life (sample_lost 500).2) = true /\ su_transport (sample_lost 500).2 = None /\
  push_frame (su_delivery (sample_lost 500).2) (Some 0%nat) 7 =
    (false, count_discarded (su_delivery (sample_lost 500).2) 1).
Proof.
  split; [by vm_compute|]. split; [by vm_compute|].
  apply (subscription_run_sound (sample_subscription 500) (sample_lost 500) sample_established sample_lost_run);
    by vm_compute.
Defined.

Lemma reconnect_bounded_witness :
  let ops := turns (map (fun k => turn k Sub_Failed unreachable) (seqZ 3 21)) in
  exists ops1 ops2 w1, ops = ops1 ++ ops2 /\ sub_exec (sample_lost 500) ops1 = Val w1 /\
    ((w1.1 = C_Top /\ lc_state (su_life w1.2) = Sub_Active /\ su_transport w1.2 <> None) \/
     (w1.1 = C_Finish /\ dq_terminal (su_delivery w1.2) <> TNone /\
      (lc_state (su_life w1.2) = Sub_Failed \/ lc_running (su_life w1.2) = false))).
Proof.
  intros ops. refine (reconnect_bounded (sample_subscription 500) (sample_lost 500)
    (subscriber_error TransportFailure (str "the transport reported a failure")) 3 ops
    sample_established sample_lost_run _ _ _ _ _ _).
  - by vm_compute.
  - by vm_compute.
  - by vm_compute.
  - apply turns_ok. by repeat constructor.
  - by apply (turns_clocked _ _ _ 21).
  - by vm_compute.
Defined.

(** Interrupted while it reconnects. *)
Definition sample_stopped : control_pc * Subscription (Q := BoundedQueue Z) :=
  ((sample_lost 500).1, subscription_interrupt (sample_lost 500).2).

Lemma sub_run_snoc (w w1 w2 : control_pc * Subscription (Q := BoundedQueue Z)) (o : sub_op (F := Z)) :
  sub_run w w1 -> sub_op_ok w1 o -> sub_step w1 o = Val w2 -> sub_run w w2.
Proof.
  induction 1 as [w|w o1 w1 w3 Ho Hs _ IH]; intros Hok He.
  - by apply (sub_run_more w o w2); [..|constructor].
  - by apply (sub_run_more w o1 w1); [..|apply IH].
Qed.

Lemma sample_stopped_run : sub_run (F := Z) (C_Top, sample_subscription 500) sample_stopped.
Proof. apply (sub_run_snoc _ (sample_lost 500) _ O_Interrupt sample_lost_run); [exact I|]. by vm_compute. Qed.

Lemma stopped_control_ends_witness :
  let ops := turns (map (fun k => turn k Sub_Failed unreachable) (seqZ 3 3)) in
  exists w', sub_exec sample_stopped ops = Val w' /\ w'.1 = C_Done /\
    lc_control_finished (su_life w'.2) = true /\
    su_transport (shutdown_finish w'.2 false true SubscriberCounters_default) = None.
Proof.
  intros ops. apply (stopped_control_ends (sample_subscription 500) sample_stopped ops SubscriberCounters_default
    sample_established sample_stopped_run).
  - by vm_compute.
  - apply turns_ok. by repeat constructor.
  - by vm_compute.
Defined.

(** The lost session is opened again: [Close] took the correlation id 2. *)
Definition sample_reopening : list control_env :=
  sample_loss ++ [turn 3 Sub_Failed unreachable; turn 500 Sub_Probing unreachable; turn 501 Sub_Probing unreachable;
    turn 502 Sub_Probing (granting 3); turn 503 Sub_Active unreachable].
Definition sample_reopened : control_pc * Subscription (Q := BoundedQueue Z) :=
  match sub_exec (C_Top, sample_subscription 500) (turns sample_reopening) with
  | Val w => w | _ => (C_Done, sample_subscription 500) end.

Lemma sample_reopened_run : sub_run (F := Z) (C_Top, sample_subscription 500) sample_reopened.
Proof. apply (exec_run _ _ sample_reopening); [by repeat constructor|]. by vm_compute. Qed.

Lemma reconnect_keeps_array_witness :
  su_transport sample_reopened.2 = Some 1%nat /\
  Geometry_describes_same_array (ob_current_geometry (su_observed (sample_subscription 500)))
    (ob_current_geometry (su_observed sample_reopened.2)) = true.
Proof.
  split; [by vm_compute|].
  refine (proj1 (reconnect_keeps_array (sample_subscription 500) sample_reopened sample_established
    sample_reopened_run _) _); by vm_compute.
Defined.

Lemma failed_renew_drops_session_witness :
  exists s' error, control_step (C_Session 1000) (sample_subscription 500) (turn 1000 Sub_Active unreachable) =
    Val (C_Lost error, s') /\ be_status error = TransportFailure /\ su_transport s' = Some 0%nat /\
    exists pc s2, control_step (C_Lost error) s' (turn 1001 Sub_Active unreachable) = Val (pc, s2) /\
      su_transport s2 = None.
Proof.
  apply (failed_renew_drops_session (sample_subscription 500) 1000 (turn 1000 Sub_Active unreachable)
    (turn 1001 Sub_Active unreachable) (str "timeout")); by vm_compute.
Defined.

Lemma zero_backoff_strands_subscription_witness :
  SubscriberConfig_validate (sample_subscriber 0) = Ok /\ (sample_lost 0).1 <> C_Done /\
  exists s1 s2, control_step (C_Retry 0 no_error) (sample_lost 0).2 (turn 3 Sub_Failed unreachable) = Val (C_Finish, s1) /\
    control_step C_Finish s1 (turn 4 Sub_Failed unreachable) = Val (C_Done, s2) /\
    lc_state (su_life s2) = Sub_Reconnecting /\ lc_running (su_life s2) = true /\
    lc_control_finished (su_life s2) = true /\ dq_terminal (su_delivery s2) = TNone.
Proof.
  split; [by vm_compute|]. split; [by vm_compute|].
  apply (zero_backoff_strands_subscription (sample_lost 0).2 no_error); by vm_compute.
Defined.

(** [close] on a subscription whose control thread is busy. *)
Definition closing_ops : list (sub_op (Q := BoundedQueue Z) (F := Z)) :=
  [O_Control (turn 0 Sub_Active unreachable); O_CloseBegin; O_CloseFinish true SubscriberCounters_default;
   O_Control (turn 1 Sub_Active unreachable); O_Control (turn 2 Sub_Active unreachable)].
Definition closing (n : nat) : control_pc * Subscription (Q := BoundedQueue Z) :=
  match sub_exec (C_Top, sample_subscription 500) (firstn n closing_ops) with
  | Val w => w | _ => (C_Top, sample_subscription 500) end.

Lemma closing_run : sub_run (F := Z) (C_Top, sample_subscription 500) (closing 3).
Proof.
  apply (sub_run_snoc _ (closing 2) _ (O_CloseFinish true SubscriberCounters_default)).
  - apply (sub_run_snoc _ (closing 1) _ O_CloseBegin); [|exact I|by vm_compute].
    apply (sub_run_snoc _ (closing 0) _ (O_Control (turn 0 Sub_Active unreachable))); [|exact sample_ids|by vm_compute].
    constructor.
  - split; [by vm_compute|by left].
  - by vm_compute.
Qed.

(** [close] can return while the control thread still talks to the device.  When
    the thread does not finish within the command timeout it is detached; [close] ends,
    and afterwards the thread sends [BulkClose] on the channel it was given, although
    the caller is told that all use of the proxy is over. *)
Theorem detached_control_outlives_close :
  sub_run (F := Z) (C_Top, sample_subscription 500) (closing 3) /\
  lc_shutdown_complete (su_life (closing 3).2) = true /\
  sub_exec (closing 3) (skipn 3 closing_ops) = Val (closing 5) /\ (closing 5).1 = C_Done /\
  ta_correlation (su_tallies (closing 5).2) = ta_correlation (su_tallies (closing 3).2) + 1.
Proof. split; [apply closing_run|]. by vm_compute. Qed.
