(* ===== verification/SubscriptionShutdown.v ===== *)
(** * Shutting a subscription down

    [shutdown] of [src/core/subscription.cpp], with the last acts of [control_loop] and
    [dispatch_loop], when several threads close the subscription at once -- the
    application, a frame callback, a coordination call -- and any of them may be one that
    [shutdown] waits for.  What the two halves of [shutdown] do to the session is in
    [Subscription]; here are the waits: who does the work, which thread is joined and which
    is detached, and that every caller returns.  A [std::thread] that is still joinable
    when it is destroyed ends the process, and one that joins itself throws. *)
From stdpp Require Import gmap list relations.
From S2P Require Import Prelude.
#[local] Open Scope Z_scope.

(** ** State *)

Inductive ThreadId : Type := ControlThread | DispatchThread | AppThread (k : nat).
#[export] Instance ThreadId_eq_dec : EqDecision ThreadId.
Proof. solve_decision. Defined.
#[export, refine] Instance ThreadId_countable : Countable ThreadId :=
  inj_countable' (fun t => match t with ControlThread => 0 | DispatchThread => 1 | AppThread k => S (S k) end)%nat
    (fun n => match n with O => ControlThread | S O => DispatchThread | S (S k) => AppThread k end) _.
Proof. by intros []. Defined.

(** A [std::thread]; [Absent] was never started. *)
Inductive Handle : Type := Absent | Joinable | Joined | Detached.
#[export] Instance Handle_eq_dec : EqDecision Handle.
Proof. solve_decision. Defined.

(** Where the owner is inside [shutdown]. *)
Inductive Stage : Type :=
| AtControl
| AtDispatch (control_detached : bool)
| AtClose (control_detached : bool)
| AtComplete
| Returned.
#[export] Instance Stage_eq_dec : EqDecision Stage.
Proof. solve_decision. Defined.

(** [sd_owner] is [shutdown_owner] once [shutdown_started], and [sd_stage] where it is; the
    waiters are the other threads inside [shutdown]; [sd_session_closed] is whether the
    session of the subscription was closed. *)
Record ShutdownState : Type := mkShutdown {
  sd_owner : option ThreadId;
  sd_stage : Stage;
  sd_complete : bool;
  sd_waiters : gset ThreadId;
  sd_control : Handle;
  sd_dispatch : Handle;
  sd_control_finished : bool;
  sd_dispatch_finished : bool;
  sd_interrupted : bool;
  sd_session_closed : bool;
  sd_now : Z;
  sd_deadline : Z
}.

(** After [open]: [push] says whether there is a dispatch thread.  A subscription that
    failed to open has no threads, and [open] shuts it down. *)
Definition shutdown_state_new (opened push : bool) (now : Z) : ShutdownState :=
  mkShutdown None AtControl false ∅ (if opened then Joinable else Absent) (if opened && push then Joinable else Absent)
    false false false false now 0.

Definition set_waiters (s : ShutdownState) (waiters : gset ThreadId) : ShutdownState :=
  mkShutdown (sd_owner s) (sd_stage s) (sd_complete s) waiters (sd_control s) (sd_dispatch s) (sd_control_finished s)
    (sd_dispatch_finished s) (sd_interrupted s) (sd_session_closed s) (sd_now s) (sd_deadline s).

(** ** Operations *)

(** The first critical section. *)
Definition shutdown_enter (s : ShutdownState) (self : ThreadId) (command_timeout_ms : Z) : ShutdownState :=
  if sd_complete s then s else
  match sd_owner s with
  | Some owner => if bool_decide (owner = self) then s else set_waiters s ({[self]} ∪ sd_waiters s)
  | None =>
      mkShutdown (Some self) AtControl false (sd_waiters s) (sd_control s) (sd_dispatch s)
        (sd_control_finished s) (sd_dispatch_finished s) (sd_interrupted s) (sd_session_closed s) (sd_now s)
        (sd_now s + command_timeout_ms)
  end.

(** [if(t.joinable())]: what becomes of a thread, [None] while the owner waits for it. *)
Definition handle_turn (h : Handle) (is_self finished timed_out : bool) : option Handle :=
  match h with
  | Joinable => if is_self then Some Detached else if finished then Some Joined else if timed_out then Some Detached else None
  | _ => Some h
  end.

(** One turn of the owner, [None] while it waits. *)
Definition owner_turn (s : ShutdownState) (self : ThreadId) : option ShutdownState :=
  let timed_out := sd_deadline s <=? sd_now s in
  let go stage complete control dispatch closed :=
    mkShutdown (sd_owner s) stage complete (sd_waiters s) control dispatch (sd_control_finished s)
      (sd_dispatch_finished s) (sd_interrupted s) closed (sd_now s) (sd_deadline s) in
  match sd_stage s with
  | AtControl =>
      h ← handle_turn (sd_control s) (bool_decide (self = ControlThread)) (sd_control_finished s) timed_out;
      Some (go (AtDispatch (bool_decide (h = Detached))) false h (sd_dispatch s) (sd_session_closed s))
  | AtDispatch detached =>
      h ← handle_turn (sd_dispatch s) (bool_decide (self = DispatchThread)) (sd_dispatch_finished s) timed_out;
      Some (go (AtClose detached) false (sd_control s) h (sd_session_closed s))
  | AtClose detached =>
      let started := negb (bool_decide (sd_control s = Absent)) in
      let closes := negb started || (sd_interrupted s && negb detached) in
      Some (go AtComplete false (sd_control s) (sd_dispatch s) (sd_session_closed s || closes))
  | AtComplete => Some (go Returned true (sd_control s) (sd_dispatch s) (sd_session_closed s))
  | Returned => None
  end.
(** ... and of a waiter. *)
Definition waiter_turn (s : ShutdownState) (self : ThreadId) : option ShutdownState :=
  if sd_complete s then Some (set_waiters s (sd_waiters s ∖ {[self]})) else None.

(** A thread is inside [shutdown] until it returns. *)
Definition inside (s : ShutdownState) (t : ThreadId) : Prop :=
  t ∈ sd_waiters s \/ (sd_owner s = Some t /\ sd_stage s <> Returned).
Definition shutdown_turn (s : ShutdownState) (self : ThreadId) : option ShutdownState :=
  if bool_decide (self ∈ sd_waiters s) then waiter_turn s self
  else if bool_decide (sd_owner s = Some self) then owner_turn s self else None.

(** The end of [control_loop], which closes the session unless it was interrupted, and of
    [dispatch_loop]. *)
Definition control_ends (s : ShutdownState) : ShutdownState :=
  mkShutdown (sd_owner s) (sd_stage s) (sd_complete s) (sd_waiters s) (sd_control s) (sd_dispatch s) true
    (sd_dispatch_finished s) (sd_interrupted s) (sd_session_closed s || negb (sd_interrupted s)) (sd_now s) (sd_deadline s).
Definition dispatch_ends (s : ShutdownState) : ShutdownState :=
  mkShutdown (sd_owner s) (sd_stage s) (sd_complete s) (sd_waiters s) (sd_control s) (sd_dispatch s) (sd_control_finished s)
    true (sd_interrupted s) (sd_session_closed s) (sd_now s) (sd_deadline s).
Definition interrupted_now (s : ShutdownState) : ShutdownState :=
  mkShutdown (sd_owner s) (sd_stage s) (sd_complete s) (sd_waiters s) (sd_control s) (sd_dispatch s) (sd_control_finished s)
    (sd_dispatch_finished s) true (sd_session_closed s) (sd_now s) (sd_deadline s).
Definition time_passes (s : ShutdownState) (ms : Z) : ShutdownState :=
  mkShutdown (sd_owner s) (sd_stage s) (sd_complete s) (sd_waiters s) (sd_control s) (sd_dispatch s) (sd_control_finished s)
    (sd_dispatch_finished s) (sd_interrupted s) (sd_session_closed s) (sd_now s + ms) (sd_deadline s).

(** A thread that exists, has not ended and is not inside [shutdown].  (A call it makes from
    its own [close_session] returns at once: [shutdown_enter] of the owner.) *)
Definition at_large (s : ShutdownState) (t : ThreadId) : Prop :=
  ~ inside s t /\
  match t with
  | ControlThread => sd_control s <> Absent /\ sd_control_finished s = false
  | DispatchThread => sd_dispatch s <> Absent /\ sd_dispatch_finished s = false
  | AppThread _ => True
  end.

(** The steps of all threads, and time. *)
Inductive shutdown_step (command_timeout_ms : Z) : ShutdownState -> ShutdownState -> Prop :=
| step_enter s t : at_large s t -> shutdown_step command_timeout_ms s (shutdown_enter s t command_timeout_ms)
| step_turn s t s' : shutdown_turn s t = Some s' -> shutdown_step command_timeout_ms s s'
| step_control s : at_large s ControlThread -> shutdown_step command_timeout_ms s (control_ends s)
| step_dispatch s : at_large s DispatchThread -> shutdown_step command_timeout_ms s (dispatch_ends s)
| step_interrupt s : shutdown_step command_timeout_ms s (interrupted_now s)
| step_time s ms : 0 <= ms -> shutdown_step command_timeout_ms s (time_passes s ms).

(** ** What always holds *)

Definition stage_rank (g : Stage) : nat :=
  match g with AtControl => 0 | AtDispatch _ => 1 | AtClose _ => 2 | AtComplete => 3 | Returned => 4 end.

(** A thread that [shutdown] dealt with: joined after it had ended and by another thread,
    or left to itself because it is the caller or was late. *)
Definition handled (s : ShutdownState) (t : ThreadId) (h : Handle) (finished : bool) : Prop :=
  (h = Joined -> finished = true /\ sd_owner s <> Some t) /\
  (h = Detached -> sd_owner s = Some t \/ sd_deadline s <= sd_now s).

Record shutdown_inv (s : ShutdownState) : Prop := {
  si_complete : sd_complete s = bool_decide (sd_stage s = Returned);
  si_idle : sd_owner s = None -> sd_stage s = AtControl /\ sd_waiters s = ∅;
  si_start : sd_stage s = AtControl -> sd_control s = Absent \/ sd_control s = Joinable;
  si_control : (1 <= stage_rank (sd_stage s))%nat -> sd_control s <> Joinable;
  si_dispatch : (2 <= stage_rank (sd_stage s))%nat -> sd_dispatch s <> Joinable;
  si_dispatch_start : (stage_rank (sd_stage s) <= 1)%nat -> sd_dispatch s = Absent \/ sd_dispatch s = Joinable;
  si_flag : forall b, sd_stage s = AtDispatch b \/ sd_stage s = AtClose b -> b = bool_decide (sd_control s = Detached);
  si_owner_waits : forall t, sd_owner s = Some t -> t ∉ sd_waiters s;
  si_alive_control : inside s ControlThread -> sd_control_finished s = false;
  si_alive_dispatch : inside s DispatchThread -> sd_dispatch_finished s = false;
  si_handled_control : handled s ControlThread (sd_control s) (sd_control_finished s);
  si_handled_dispatch : handled s DispatchThread (sd_dispatch s) (sd_dispatch_finished s);
  si_finished : sd_control_finished s = true -> sd_session_closed s = true \/ sd_interrupted s = true;
  si_closed : (3 <= stage_rank (sd_stage s))%nat -> sd_control s <> Detached -> sd_session_closed s = true
}.

Lemma shutdown_inv_new opened push now : shutdown_inv (shutdown_state_new opened push now).
Proof.
  split; cbn; try done; try lia.
  - by destruct opened; auto.
  - by destruct opened, push; auto.
  - naive_solver.
  - split; by destruct opened.
  - split; by destruct opened, push.
Qed.

Lemma enter_inv timeout s t :
  shutdown_inv s -> at_large s t -> shutdown_inv (shutdown_enter s t timeout).
Proof.
  intros Hinv [Hin Hal]. pose proof Hinv as [Hcomp Hidle Hst Hc Hd Hds Hfl How Hac Had Hhc Hhd Hfin Hcl]. unfold shutdown_enter.
  destruct (sd_complete s) eqn:Hco; [done|]. destruct (sd_owner s) as [o|] eqn:Ho.
  - destruct (bool_decide (o = t)) eqn:Hot; [done|]. apply bool_decide_eq_false in Hot.
    assert (forall t', inside (set_waiters s ({[t]} ∪ sd_waiters s)) t' -> t' = t \/ inside s t') as Hins.
    { unfold inside. cbn. set_solver. }
    split; cbn; rewrite ?Ho; rewrite ?Hco; try done.
    + intros t' [= <-]. specialize (How o eq_refl). set_solver.
    + intros [<-|H]%Hins; [apply Hal|by apply Hac].
    + intros [<-|H]%Hins; [apply Hal|by apply Had].
  - destruct (Hidle eq_refl) as [Hs Hw].
    assert (forall s' t', sd_waiters s' = sd_waiters s -> sd_owner s' = Some t -> inside s' t' -> t' = t) as Hins.
    { unfold inside. intros s' t' -> ->. rewrite Hw. intros [Hbad|[Heq _]]; [by apply elem_of_empty in Hbad|congruence]. }
    rewrite Hs in *. specialize (Hst eq_refl). specialize (Hds ltac:(cbn; lia)).
    assert (forall h t' b o, h = Absent \/ h = Joinable -> handled (mkShutdown o AtControl false (sd_waiters s) (sd_control s)
      (sd_dispatch s) (sd_control_finished s) (sd_dispatch_finished s) (sd_interrupted s) (sd_session_closed s) (sd_now s)
      (sd_now s + timeout)) t' h b) as Hh by (intros h t' b o [-> | ->]; by split).
    split; cbn [sd_owner sd_stage sd_complete sd_waiters sd_control sd_dispatch sd_control_finished sd_dispatch_finished
      sd_interrupted sd_session_closed stage_rank]; try done; try lia.
    + intros t' _. rewrite Hw. apply not_elem_of_empty.
    + intros H. apply Hins in H; [|done..]. subst t. apply Hal.
    + intros H. apply Hins in H; [|done..]. subst t. apply Hal.
    + by apply Hh.
    + by apply Hh.
Qed.

Lemma handle_turn_spec h self finished timed_out h' :
  handle_turn h self finished timed_out = Some h' ->
  (h <> Joinable -> h' = h) /\ h' <> Joinable /\
  (h = Joinable -> h' = Joined /\ self = false /\ finished = true \/ h' = Detached /\ (self = true \/ timed_out = true)).
Proof. destruct h, self, finished, timed_out; intros [= <-]; naive_solver. Qed.

Lemma inside_same s s' t :
  sd_owner s' = sd_owner s -> sd_waiters s' = sd_waiters s -> sd_stage s <> Returned -> inside s' t -> inside s t.
Proof. unfold inside. intros -> ->. naive_solver. Qed.

(** The fields of the invariant that a turn of the owner cannot touch. *)
Ltac shutdown_fields Hs :=
  split; cbn [sd_owner sd_stage sd_complete sd_waiters sd_control sd_dispatch sd_control_finished sd_dispatch_finished
    sd_interrupted sd_session_closed stage_rank]; try done; try lia;
  try (match goal with
  | Hin : inside _ ?t -> _ |- inside _ ?t -> _ =>
      intros Hinside; apply Hin; revert Hinside; apply inside_same; [done|done|rewrite Hs; done]
  | |- forall b, _ = _ \/ _ = _ -> _ => intros ? [Heq|Heq]; [injection Heq as <- || discriminate Heq..]; by auto
  | H : _ -> ?G |- _ -> ?G => intros _; apply H; lia
  | |- sd_owner _ = None -> _ => congruence
  end).

(** A thread dealt with by [handle_turn]. *)
Lemma handle_turn_handled s t who h finished h' :
  sd_owner s = Some t -> h = Absent \/ h = Joinable ->
  handle_turn h (bool_decide (t = who)) finished (sd_deadline s <=? sd_now s) = Some h' ->
  h' <> Joinable /\ handled s who h' finished.
Proof.
  intros Ho Hh Ht. apply handle_turn_spec in Ht as (Hk & Hnj & Hj). split; [done|].
  destruct Hh as [-> | ->]; [by rewrite Hk|]. unfold handled. rewrite Ho.
  destruct (Hj eq_refl) as [(-> & Hself%bool_decide_eq_false & ->)|(-> & Hself)]; (split; [|]); try done.
  - intros _. split; [done|congruence].
  - intros _. destruct Hself as [Hself%bool_decide_eq_true|Hself]; [left; congruence|right; lia].
Qed.

Lemma owner_turn_inv s t s' :
  shutdown_inv s -> sd_owner s = Some t -> owner_turn s t = Some s' -> shutdown_inv s'.
Proof.
  intros Hinv Ho. pose proof Hinv as [Hcomp Hidle Hst Hc Hd Hds Hfl How Hac Had Hhc Hhd Hfin Hcl].
  unfold owner_turn. cbv zeta. destruct (sd_stage s) as [|b|b| |] eqn:Hs; cbn [stage_rank] in *; [| | | |done].
  - destruct (handle_turn _ _ _ _) as [h|] eqn:Hh; [|done]. cbn [mbind option_bind]. intros <-%(inj Some).
    destruct (handle_turn_handled s t ControlThread _ _ h Ho (Hst eq_refl) Hh) as [Hj Hhand]. shutdown_fields Hs.
  - destruct (handle_turn _ _ _ _) as [h|] eqn:Hh; [|done]. cbn [mbind option_bind]. intros <-%(inj Some).
    destruct (handle_turn_handled s t DispatchThread _ _ h Ho (Hds ltac:(lia)) Hh) as [Hj Hhand]. shutdown_fields Hs.
  - intros <-%(inj Some). shutdown_fields Hs.
    + intros Hf. destruct (Hfin Hf) as [-> | ->]; auto.
    + intros _ Hdet. rewrite (Hfl b ltac:(auto)), (bool_decide_eq_false_2 _ Hdet), andb_true_r.
      destruct (sd_control s) eqn:Hctl; [by rewrite orb_true_r|by destruct Hc; [lia|]| |done].
      destruct Hhc as [Hjoined _]. destruct (Hfin (proj1 (Hjoined eq_refl))) as [-> | ->]; [done|by rewrite orb_true_r].
  - intros <-%(inj Some). shutdown_fields Hs.
Qed.

(** Every step keeps the invariant. *)
Lemma shutdown_step_inv timeout s s' : shutdown_inv s -> shutdown_step timeout s s' -> shutdown_inv s'.
Proof.
  intros Hinv Hstep. destruct Hstep as [s t Hl|s t s' Ht|s Hl|s Hl|s|s ms Hms].
  - by apply enter_inv.
  - unfold shutdown_turn in Ht. case_bool_decide as Hw.
    + unfold waiter_turn in Ht. destruct (sd_complete s) eqn:Hco; [|done]. injection Ht as <-.
      pose proof Hinv as [Hcomp Hidle Hst Hc Hd Hds Hfl How Hac Had Hhc Hhd Hfin Hcl].
      assert (forall t', inside (set_waiters s (sd_waiters s ∖ {[t]})) t' -> inside s t') as Hins by (unfold inside; cbn; set_solver).
      split; cbn; try done; try (by rewrite ?Hco); try (intros H; by eauto).
      * intros Hn. destruct (Hidle Hn) as [? ->]. split; [done|]. set_solver.
      * intros t' Ho. specialize (How t' Ho). set_solver.
    + case_bool_decide as Ho; [|done]. by eapply owner_turn_inv.
  - destruct Hl as [Hin [Hst0 Hf0]]. destruct Hinv as [Hcomp Hidle Hst Hc Hd Hds Hfl How Hac Had Hhc Hhd Hfin Hcl].
    split; cbn; try done.
    + unfold handled in *. cbn. naive_solver.
    + intros _. destruct (sd_interrupted s); [by right|left; apply orb_true_r].
    + intros Hr Hdet. by rewrite Hcl.
  - destruct Hl as [Hin [Hst0 Hf0]]. destruct Hinv as [Hcomp Hidle Hst Hc Hd Hds Hfl How Hac Had Hhc Hhd Hfin Hcl].
    split; cbn; try done.
    unfold handled in *. cbn. naive_solver.
  - destruct Hinv as [Hcomp Hidle Hst Hc Hd Hds Hfl How Hac Had Hhc Hhd Hfin Hcl]. split; cbn; try done. by auto.
  - destruct Hinv as [Hcomp Hidle Hst Hc Hd Hds Hfl How Hac Had Hhc Hhd Hfin Hcl].
    split; cbn; try done; unfold handled in *; cbn in *; (split; [naive_solver|]); intros H;
      [apply Hhc in H|apply Hhd in H]; destruct H as [H|H]; auto; right; lia.
Qed.

Lemma shutdown_reachable timeout opened push now s :
  rtc (shutdown_step timeout) (shutdown_state_new opened push now) s -> shutdown_inv s.
Proof.
  intros Hr. assert (shutdown_inv (shutdown_state_new opened push now)) as H0 by apply shutdown_inv_new.
  induction Hr; [done|]. eauto using shutdown_step_inv.
Qed.

(** ** Every caller returns *)

(** Turns of the threads inside [shutdown], and how many are left. *)
Definition turn (s s' : ShutdownState) : Prop := exists t, shutdown_turn s t = Some s'.
Definition turns_left (s : ShutdownState) : nat := (4 - stage_rank (sd_stage s)) + size (sd_waiters s).

Lemma turn_decreases s s' : turn s s' ->
  (turns_left s' < turns_left s)%nat /\ sd_now s' = sd_now s /\ sd_deadline s' = sd_deadline s.
Proof.
  intros [t Ht]. unfold shutdown_turn in Ht. unfold turns_left. case_bool_decide as Hw.
  - unfold waiter_turn in Ht. destruct (sd_complete s); [|done]. injection Ht as <-. cbn.
    assert (size (sd_waiters s ∖ {[t]}) < size (sd_waiters s))%nat by (apply subset_size; set_solver). lia.
  - case_bool_decide; [|done]. unfold owner_turn in Ht. cbv zeta in Ht. destruct (sd_stage s); [| | | |done].
    1,2: destruct (handle_turn _ _ _ _); [|done]; cbn [mbind option_bind] in Ht.
    all: apply (inj Some) in Ht; subst s'; cbn; lia.
Qed.

(** The owner does not wait for a thread that is itself, has ended, never was, or is late. *)
Definition ready (s : ShutdownState) (t : ThreadId) (h : Handle) (finished : bool) : Prop :=
  h <> Joinable \/ sd_owner s = Some t \/ finished = true \/ sd_deadline s <= sd_now s.
Lemma ready_turn s t who h finished :
  sd_owner s = Some t -> ready s who h finished ->
  exists h', handle_turn h (bool_decide (t = who)) finished (sd_deadline s <=? sd_now s) = Some h'.
Proof.
  intros Ho [Hh|[Hs|[-> |Hd]]]; unfold handle_turn.
  - destruct h; [by eauto|done|by eauto..].
  - rewrite Ho in Hs. injection Hs as ->. rewrite bool_decide_eq_true_2 by done. by destruct h; eauto.
  - by destruct h, (bool_decide (t = who)); eauto.
  - rewrite (proj2 (Z.leb_le _ _) Hd). by destruct h, (bool_decide (t = who)), finished; eauto.
Qed.

Lemma turn_progress s t :
  shutdown_inv s -> inside s t -> ready s ControlThread (sd_control s) (sd_control_finished s) ->
  ready s DispatchThread (sd_dispatch s) (sd_dispatch_finished s) -> exists s', turn s s'.
Proof.
  intros Hinv Hin Hc Hd. unfold turn, shutdown_turn. pose proof (si_complete _ Hinv) as Hcomp.
  destruct (sd_owner s) as [o|] eqn:Ho.
  2: { destruct (si_idle _ Hinv Ho) as [_ Hw]. destruct Hin as [Hin|[Hin _]]; [|congruence].
       rewrite Hw in Hin. by apply elem_of_empty in Hin. }
  destruct (decide (sd_stage s = Returned)) as [Hs|Hs].
  - rewrite bool_decide_eq_true_2 in Hcomp by done. destruct Hin as [Hin|[_ Hin]]; [|done].
    eexists _, t. rewrite bool_decide_eq_true_2 by done. unfold waiter_turn. by rewrite Hcomp.
  - assert (exists s', owner_turn s o = Some s') as [s' Hs'].
    { unfold owner_turn. cbv zeta. destruct (sd_stage s); [| |by eauto..|done].
      - destruct (ready_turn s o _ _ _ Ho Hc) as [h ->]. cbn. by eauto.
      - destruct (ready_turn s o _ _ _ Ho Hd) as [h ->]. cbn. by eauto. }
    exists s', o. rewrite bool_decide_eq_false_2 by by apply (si_owner_waits _ Hinv).
    by rewrite bool_decide_eq_true_2.
Qed.

Lemma turns_step timeout k s s' : nsteps turn k s s' -> rtc (shutdown_step timeout) s s'.
Proof.
  induction 1 as [|k s s1 s' [t Ht] _ IH]; [done|]. eapply rtc_l; [by eapply step_turn|done].
Qed.
Lemma turns_bounded k s s' : nsteps turn k s s' ->
  (k + turns_left s' <= turns_left s)%nat /\ sd_now s' = sd_now s /\ sd_deadline s' = sd_deadline s.
Proof.
  induction 1 as [|k s s1 s' Ht _ IH]; [done|]. destruct (turn_decreases _ _ Ht) as (? & ? & ?), IH as (? & ? & ?).
  split; [lia|]. split; congruence.
Qed.

(** C14: however many threads close a subscription at once -- frame callbacks and coordination calls among them --
    exactly one does the work and each of them returns. In every reachable state: a thread that was joined had
    ended and was not the caller; one that was detached is the caller or had not ended by the deadline; once
    [shutdown] is complete neither thread is joinable, and the session was closed, unless the control thread
    was left to itself. From the deadline on no thread has to do anything more: whatever the order of the
    callers' turns, there are at most as many as the owner has stages plus one for each waiter, and when no turn is left
    nobody is inside. *)
Theorem shutdown_returns timeout opened push now s
  (Hr : rtc (shutdown_step timeout) (shutdown_state_new opened push now) s) :
  handled s ControlThread (sd_control s) (sd_control_finished s) /\
  handled s DispatchThread (sd_dispatch s) (sd_dispatch_finished s) /\
  (sd_complete s = true ->
     sd_control s <> Joinable /\ sd_dispatch s <> Joinable /\ (sd_control s <> Detached -> sd_session_closed s = true)) /\
  (sd_deadline s <= sd_now s -> forall k s', nsteps turn k s s' ->
     (k <= 4 + size (sd_waiters s))%nat /\ ((forall s'', ~ turn s' s'') -> forall t, ~ inside s' t)).
Proof.
  pose proof (shutdown_reachable _ _ _ _ _ Hr) as Hinv. split; [apply Hinv|]. split; [apply Hinv|]. split.
  - rewrite (si_complete _ Hinv). intros Hret%bool_decide_eq_true. pose proof Hinv as [_ _ _ Hc Hd _ _ _ _ _ _ _ _ Hcl].
    rewrite Hret in *. cbn [stage_rank] in *. split; [apply Hc; lia|]. split; [apply Hd; lia|]. intros H. apply Hcl; [lia|done].
  - intros Hlate k s' Hk. destruct (turns_bounded _ _ _ Hk) as (Hb & Hnow & Hdl). split; [unfold turns_left in *; lia|].
    intros Hno t Hin. assert (shutdown_inv s') as Hinv'.
    { eapply shutdown_reachable. etransitivity; [exact Hr|by apply (turns_step timeout k)]. }
    destruct (turn_progress s' t Hinv' Hin) as [s'' Ht]; [| |by apply (Hno s'')]; right; right; right; lia.
Qed.

(** A frame callback closes while the application closes: the application waits for the
    dispatch thread and the dispatch thread for the application. *)
Definition cross_closing (k : nat) (s : ShutdownState) : Prop :=
  sd_owner s = Some (AppThread k) /\ DispatchThread ∈ sd_waiters s /\ sd_dispatch s = Joinable /\
  (stage_rank (sd_stage s) <= 1)%nat.
Lemma cross_closing_step timeout k s s' :
  shutdown_inv s -> cross_closing k s -> shutdown_step timeout s s' ->
  sd_deadline s' = sd_deadline s /\ (cross_closing k s' \/ sd_deadline s' <= sd_now s').
Proof.
  intros Hinv (Ho & Hw & Hj & Hs) Hstep. unfold cross_closing.
  assert (sd_complete s = false) as Hco.
  { rewrite (si_complete _ Hinv). apply bool_decide_eq_false_2. intros Hret. rewrite Hret in Hs. cbn in Hs. lia. }
  destruct Hstep as [s t Hl|s t s' Ht|s Hl|s Hl|s|s ms Hms]; try (split; [done|by left]).
  - unfold shutdown_enter. rewrite Hco, Ho. destruct (bool_decide (AppThread k = t)); (split; [done|left]); [done|].
    cbn. split; [done|]. split; [set_solver|done].
  - unfold shutdown_turn, waiter_turn in Ht. rewrite Hco in Ht. case_bool_decide; [done|]. case_bool_decide as Hot; [|done].
    rewrite Ho in Hot. injection Hot as <-. unfold owner_turn in Ht. cbv zeta in Ht.
    assert (sd_dispatch_finished s = false) as Hdf by (apply (si_alive_dispatch _ Hinv); by left).
    destruct (sd_stage s) as [|b|b| |] eqn:Hst; cbn in Hs; [| |lia..].
    + destruct (handle_turn _ _ _ _) as [h|]; [|done]. cbn in Ht. injection Ht as <-. cbn. split; [done|]. left. auto with lia.
    + rewrite Hj, Hdf in Ht. cbn in Ht. destruct (Z.leb_spec (sd_deadline s) (sd_now s)); [|done].
      injection Ht as <-. cbn. split; [done|]. by right.
Qed.

(** Once there is an owner it stays, with its deadline. *)
Lemma owner_stays timeout s s' o :
  sd_owner s = Some o -> shutdown_step timeout s s' ->
  sd_owner s' = Some o /\ sd_deadline s' = sd_deadline s /\ sd_now s <= sd_now s'.
Proof.
  intros Ho Hstep. destruct Hstep as [s t Hl|s t s' Ht|s Hl|s Hl|s|s ms Hms]; try (cbn; split; [done|lia]).
  - unfold shutdown_enter. rewrite Ho. destruct (sd_complete s), (bool_decide (o = t)); cbn; (split; [done|lia]).
  - unfold shutdown_turn, waiter_turn, owner_turn in Ht. cbv zeta in Ht.
    destruct (bool_decide (t ∈ sd_waiters s)), (sd_complete s), (bool_decide (sd_owner s = Some t)), (sd_stage s);
      try done; try (destruct (handle_turn _ _ _ _); [|done]); cbn in Ht; injection Ht as <-; cbn; (split; [done|lia]).
Qed.

(** ... and neither gets on before the whole command timeout is over, whatever else happens. *)
Theorem cross_close_waits_for_deadline timeout opened push now s k s'
  (Hr : rtc (shutdown_step timeout) (shutdown_state_new opened push now) s)
  (Hcross : cross_closing k s) (Hrun : rtc (shutdown_step timeout) s s') (Hnow : sd_now s' < sd_deadline s) :
  inside s' (AppThread k) /\ inside s' DispatchThread /\ sd_complete s' = false.
Proof.
  pose proof (shutdown_reachable _ _ _ _ _ Hr) as Hinv. clear Hr.
  assert (shutdown_inv s' /\ (cross_closing k s' \/ sd_deadline s <= sd_now s')) as [Hinv' [(Ho & Hw & Hj & Hs)|]]; [| |lia].
  { clear Hnow. remember (sd_deadline s) as d eqn:Hd. symmetry in Hd. pose proof (proj1 Hcross) as Ho.
    assert (cross_closing k s \/ d <= sd_now s) as Hc by by left. clear Hcross.
    induction Hrun as [s|s s1 s' Hstep _ IH]; [done|].
    destruct (owner_stays _ _ _ _ Ho Hstep) as (Ho1 & Hd1 & Hn1). apply IH; [by eapply shutdown_step_inv|congruence|done|].
    destruct Hc as [Hc|]; [|right; lia]. destruct (cross_closing_step _ _ _ _ Hinv Hc Hstep) as [_ [?|?]]; [by left|right; lia]. }
  assert (sd_stage s' <> Returned) as Hret by (intros Hret; rewrite Hret in Hs; cbn in Hs; lia).
  split; [by right|]. split; [by left|]. rewrite (si_complete _ Hinv'). by apply bool_decide_eq_false_2.
Qed.

(** ** Samples *)

Fixpoint run_turns (s : ShutdownState) (ts : list ThreadId) : ShutdownState :=
  match ts with
  | [] => s
  | t :: ts => match shutdown_turn s t with Some s => run_turns s ts | None => s end
  end.

(** The application closes, then the frame callback does. *)
Definition sample_cross : ShutdownState :=
  shutdown_enter (shutdown_enter (shutdown_state_new true true 0) (AppThread 0) 5000) DispatchThread 5000.
Lemma sample_cross_reachable : rtc (shutdown_step 5000) (shutdown_state_new true true 0) sample_cross.
Proof.
  eapply rtc_l; [apply (step_enter _ _ (AppThread 0))|eapply rtc_l; [apply (step_enter _ _ DispatchThread)|constructor]].
  - split; [|exact I]. intros [H|[H _]]; [by apply elem_of_empty in H|discriminate H].
  - split; [|by split]. intros [H|[H _]]; [by apply elem_of_empty in H|discriminate H].
Qed.
Lemma late_reachable ms : 0 <= ms -> rtc (shutdown_step 5000) (shutdown_state_new true true 0) (time_passes sample_cross ms).
Proof. intros Hms. eapply rtc_r; [exact sample_cross_reachable|by apply step_time]. Qed.

Lemma cross_close_waits_for_deadline_witness :
  cross_closing 0 sample_cross /\ inside (time_passes sample_cross 4999) DispatchThread.
Proof.
  assert (cross_closing 0 sample_cross) as Hc by (split; [reflexivity|split; [vm_compute; reflexivity|split; [reflexivity|vm_compute; lia]]]).
  split; [exact Hc|].
  refine (proj1 (proj2 (cross_close_waits_for_deadline 5000 true true 0 sample_cross 0 (time_passes sample_cross 4999)
    sample_cross_reachable Hc _ _))); [|vm_compute; reflexivity].
  apply rtc_once. apply (step_time 5000 sample_cross 4999). lia.
Defined.

Definition sample_turns : list ThreadId := [AppThread 0; AppThread 0; AppThread 0; AppThread 0; DispatchThread].
Lemma shutdown_returns_witness :
  nsteps turn 5 (time_passes sample_cross 5000) (run_turns (time_passes sample_cross 5000) sample_turns) /\
  (5 <= 4 + size (sd_waiters (time_passes sample_cross 5000)))%nat /\
  sd_complete (run_turns (time_passes sample_cross 5000) sample_turns) = true /\
  sd_dispatch (run_turns (time_passes sample_cross 5000) sample_turns) = Detached.
Proof.
  assert (nsteps turn 5 (time_passes sample_cross 5000) (run_turns (time_passes sample_cross 5000) sample_turns)) as Hn.
  { do 4 (eapply nsteps_l; [exists (AppThread 0); vm_compute; reflexivity|]).
    eapply nsteps_l; [exists DispatchThread; vm_compute; reflexivity|]. constructor. }
  split; [exact Hn|].
  destruct (shutdown_returns 5000 true true 0 (time_passes sample_cross 5000) (late_reachable 5000 ltac:(lia))) as (_ & _ & _ & H).
  split; [|split; reflexivity]. exact (proj1 (H ltac:(vm_compute; discriminate) 5%nat _ Hn)).
Defined.

(** ** The deadline of a coordination call *)

(** [coordination_deadline]: that of the shutdown, once there is one. *)
Definition coordination_deadline (s : ShutdownState) (command_timeout_ms : Z) : Z :=
  match sd_owner s with
  | Some _ => sd_deadline s
  | None => sd_now s + command_timeout_ms
  end.

Lemma deadline_monotone timeout s s' :
  shutdown_inv s -> shutdown_step timeout s s' ->
  coordination_deadline s timeout <= coordination_deadline s' timeout /\
  (sd_owner s <> None -> sd_owner s' = sd_owner s /\ sd_deadline s' = sd_deadline s).
Proof.
  intros Hinv Hstep. pose proof (si_idle s Hinv) as Hidle. unfold coordination_deadline.
  destruct Hstep as [s t Hl|s t s' Ht|s Hl|s Hl|s|s ms Hms]; cbn [control_ends dispatch_ends interrupted_now time_passes sd_owner sd_deadline sd_now].
  - unfold shutdown_enter. destruct (sd_complete s); [by destruct (sd_owner s)|]. destruct (sd_owner s) as [o|] eqn:E.
    + destruct (bool_decide (o = t)); cbn [set_waiters sd_owner sd_deadline]; rewrite ?E; by split.
    + cbn. split; [lia|done].
  - unfold shutdown_turn in Ht. destruct (bool_decide (t ∈ sd_waiters s)).
    { unfold waiter_turn in Ht. destruct (sd_complete s); [|done]. injection Ht as <-. cbn. by destruct (sd_owner s). }
    destruct (bool_decide (sd_owner s = Some t)) eqn:Ho; [|done]. unfold owner_turn in Ht.
    destruct (sd_stage s); [destruct (handle_turn _ _ _ _); [|done]|destruct (handle_turn _ _ _ _); [|done]|..|done];
      injection Ht as <-; cbn; by destruct (sd_owner s).
  - by destruct (sd_owner s).
  - by destruct (sd_owner s).
  - by destruct (sd_owner s).
  - destruct (sd_owner s); [done|]. split; [lia|done].
Qed.

(** a call to the publisher does not outlast the shutdown. Whenever it began and whatever
    the threads did since, the deadline the call was given is no later than that of the
    shutdown; and the shutdown's own does not move once it is set. *)
Theorem coordination_within_shutdown timeout opened push now s s'
  (Hs : rtc (shutdown_step timeout) (shutdown_state_new opened push now) s) (Hs' : rtc (shutdown_step timeout) s s')
  (Ho : sd_owner s' <> None) :
  coordination_deadline s timeout <= sd_deadline s' /\ (sd_owner s <> None -> sd_deadline s' = sd_deadline s).
Proof.
  apply shutdown_reachable in Hs.
  assert (coordination_deadline s timeout <= coordination_deadline s' timeout /\
    (sd_owner s <> None -> sd_owner s' = sd_owner s /\ sd_deadline s' = sd_deadline s)) as [Hle Hfix].
  { clear Ho. induction Hs' as [|a b c Hab Hbc IH]; [by split|]. destruct (deadline_monotone _ _ _ Hs Hab) as [Hle Hfix].
    destruct IH as [Hle' Hfix']; [by eapply shutdown_step_inv|]. split; [lia|]. intros Ha. destruct (Hfix Ha) as [Hb Hd].
    rewrite <-Hb in Ha. destruct (Hfix' Ha). split; congruence. }
  split; [|by intros H; apply Hfix]. unfold coordination_deadline at 2 in Hle. by destruct (sd_owner s').
Qed.

Lemma coordination_within_shutdown_witness :
  coordination_deadline (shutdown_state_new true true 0) 5000 <= sd_deadline sample_cross.
Proof.
  apply (coordination_within_shutdown 5000 true true 0 (shutdown_state_new true true 0) sample_cross);
    [apply rtc_refl|apply sample_cross_reachable|vm_compute; discriminate].
Defined.

(** ** The wait of [backoff] *)

(** The control thread in [wake.wait_for(lock, delay, ...)], which evaluates its predicate
    with [mutex] held and gives the mutex up as it falls asleep; [shutdown] and [interrupt]
    store [running] and notify without [mutex]. *)
Inductive Sleeper : Type := SlChecking | SlChecked | SlAsleep | SlDone (timed_out : bool).
Inductive Notifier : Type := NtStore | NtNotify | NtDone.
Record BackoffWait : Type := mkBackoffWait { bw_running : bool; bw_sleeper : Sleeper; bw_notifier : Notifier }.
Definition BackoffWait_new : BackoffWait := mkBackoffWait true SlChecking NtStore.

Inductive BackoffEvent : Type := BwSleeper | BwNotifier | BwTimeout.
Definition backoff_event (s : BackoffWait) (ev : BackoffEvent) : BackoffWait :=
  match ev, bw_sleeper s, bw_notifier s with
  | BwSleeper, SlChecking, n => mkBackoffWait (bw_running s) (if bw_running s then SlChecked else SlDone false) n
  | BwSleeper, SlChecked, n => mkBackoffWait (bw_running s) SlAsleep n
  | BwNotifier, sl, NtStore => mkBackoffWait false sl NtNotify
  | BwNotifier, sl, NtNotify => mkBackoffWait (bw_running s) (match sl with SlAsleep => SlChecking | _ => sl end) NtDone
  | BwTimeout, SlAsleep, n => mkBackoffWait (bw_running s) (SlDone true) n
  | _, _, _ => s
  end.

(** A shutdown between the check and the sleep is not noticed: both threads have done all
    they do, and only the end of the delay wakes the control thread. *)
Theorem backoff_sleeps_through_shutdown :
  let s := foldl backoff_event BackoffWait_new [BwSleeper; BwNotifier; BwNotifier; BwSleeper] in
  bw_running s = false /\ bw_notifier s = NtDone /\ bw_sleeper s = SlAsleep /\
  forall evs, BwTimeout ∉ evs -> foldl backoff_event s evs = s.
Proof.
  cbv zeta. do 3 (split; [done|]). induction evs as [|ev evs IH]; intros Hno; [done|].
  apply not_elem_of_cons in Hno as [Hev Hno]. destruct ev; [by apply IH..|done].
Qed.

(** A check that comes after the notification ends the wait. *)
Theorem backoff_wakes_otherwise evs :
  let s := foldl backoff_event BackoffWait_new evs in
  bw_notifier s = NtDone -> bw_sleeper s = SlChecking -> bw_sleeper (backoff_event s BwSleeper) = SlDone false.
Proof.
  cbv zeta. intros Hn Hs. enough (bw_running (foldl backoff_event BackoffWait_new evs) = false) as Hr.
  { unfold backoff_event at 1. by rewrite Hs, Hr. }
  assert (bw_notifier (foldl backoff_event BackoffWait_new evs) <> NtStore) as Hne by congruence. clear Hn Hs.
  revert Hne. induction evs as [|ev evs IH] using rev_ind; [done|]. rewrite foldl_app. cbn [foldl].
  destruct (foldl backoff_event BackoffWait_new evs) as [r sl n]. cbn in *. destruct ev, sl, n; cbn in *; try done;
    intros _; try (by rewrite IH); by auto.
Qed.
