(* ===== verification/Handshake.v ===== *)
(** * Opening a session, both ends

    The client of [src/core/subscription.cpp] and the publisher of
    [src/ucx/publisher_impl.cpp] joined by the bytes of the coordination protocol:
    what each of them holds after one [Open]. *)
From Stdlib Require Import Init.Byte.
From stdpp Require Import gmap list sets.
From S2P Require Import Prelude Enums Limits ByteOrder Geometry Text Protocol ProtocolSafety.
From S2P Require Import ProtocolRoundtrip Dispatch DataPlane Offer Config CreditWindow BoundedQueue DeliveryQueue.
From S2P Require Import PinnedLedger RegisteredRing ProducerSlots Publisher Coordination PublisherSafety.
From S2P Require Import PublisherRuns ControlPath Leases ClientSession.
#[local] Open Scope Z_scope.

(** ** What the client makes of a reply *)

(** The envelope of a message that opens with the type [t]. *)
Lemma opened_envelope_of data t env body :
  open_message data t = Val (env, body) ->
  decode_envelope data Envelope_default = (env, Val body) /\ env_msg_type env = t.
Proof.
  intros Ho. destruct (decode_envelope_cases data) as [(e & b & He & _ & _ & Hall)|(e & st & _ & _ & Hall)].
  - rewrite Hall in Ho. by case_bool_decide; simplify_eq.
  - destruct (Hall t) as [st' Ht]. congruence.
Qed.

Lemma reply_status_reply data c m :
  (exists env, decode_OpenReply data = Val (m, env) /\ env_correlation_id env = c) ->
  reply_status data c = Val None.
Proof.
  intros (env & Hd & Hc). destruct (proj1 (decoded_replies_opened data) m env Hd) as [body Ho].
  apply opened_envelope_of in Ho as [He Ht]. unfold reply_status. rewrite He, Hc, Z.eqb_refl, Ht. done.
Qed.

Lemma reply_status_error data c m :
  (exists env, decode_ErrorMessage data = Val (m, env) /\ env_correlation_id env = c) ->
  reply_status data c = Val (Some (em_status m)).
Proof.
  intros (env & Hd & Hc). destruct (proj2 (proj2 (proj2 (decoded_replies_opened data))) m env Hd) as [body Ho].
  apply opened_envelope_of in Ho as [He Ht]. unfold reply_status. rewrite He, Hc, Z.eqb_refl, Ht, Hd. done.
Qed.

(** The grant is one the client can use. *)
Definition acceptable (c : SubscriberConfig) (g : GeometryBlock) : Prop :=
  GeometryBlock_validate g = Ok /\ gb_max_frame_bytes g <= sc_max_frame_bytes c /\
  gb_ring_depth g <= sc_ring_depth c /\ gb_credit_window g <= sc_credit_window c.

#[local] Instance acceptable_dec c g : Decision (acceptable c g).
Proof. unfold acceptable. apply _. Defined.

Lemma adopt_read_reply data c correlation m :
  reads data correlation (Reply_Open m) -> or_status m = Ok ->
  adopt_open_reply ClientSession_default data c correlation =
  Val (if decide (acceptable c (or_geometry m))
       then (Ok, mkClientSession (or_session_id m) (or_stream_id m) (or_server_ucx_address m)
                   (or_geometry m) (or_lease_ttl_ms m) (or_renew_interval_ms m))
       else (GeometryMismatch, ClientSession_default)).
Proof.
  intros Hr Hst. unfold adopt_open_reply. rewrite (reply_status_reply _ _ m) by done. rewrite bind_val.
  destruct Hr as (env & -> & _). rewrite Hst. rewrite bool_decide_eq_false_2 by auto.
  destruct (decide _) as [(Hv & H1 & H2 & H3)|Hn].
  - rewrite bool_decide_eq_false_2 by auto. rewrite !(proj2 (Z.ltb_ge _ _)) by done. done.
  - case_bool_decide as Hv; [done|]. destruct (_ || _ || _) eqn:Hb; [done|].
    destruct Hn. split; [done|]. bool_to_prop. lia.
Qed.

Lemma adopt_read_error data c correlation m :
  reads data correlation (Reply_Error m) ->
  adopt_open_reply ClientSession_default data c correlation = Val (em_status m, ClientSession_default).
Proof.
  intros Hr. unfold adopt_open_reply. by rewrite (reply_status_error _ _ m).
Qed.

(** ** The exchange *)

Section Exchange.
Context {QS QP : Type} `{BoundedFifo QS nat} `{BoundedFifo QP PublishItem}.
Abbreviation Impl := (Impl QS QP).
Implicit Types s : Impl.

(** The request [make_open_request] encodes. *)
Definition open_request (c : SubscriberConfig) (address instance : bytes) : OpenRequest :=
  mkOpenRequest k_version_major k_version_major (Z.lor k_caps_credit_coalescing k_caps_probe)
    instance (sc_max_frame_bytes c) (sc_ring_depth c) (sc_credit_window c)
    (sc_receive_memory_kind c) ActiveMessage (sc_drop_policy c) (sc_stream_name c) address.

(** The client sends, the publisher answers, the client reads the answer. *)
Definition exchange s (c : SubscriberConfig) (address instance : bytes) (correlation : Z) (env : open_env)
    : option (Status * ClientSession * Impl) :=
  match make_open_request c address correlation instance with
  | Val request =>
      match handle_encoded_coordination s request (Some CT_Open) env with
      | Val (reply, s') =>
          match adopt_open_reply ClientSession_default reply c correlation with
          | Val (status, x) => Some (status, x, s')
          | _ => None
          end
      | _ => None
      end
  | _ => None
  end.

Lemma open_request_read c address instance correlation :
  OpenRequest_ok (open_request c address instance) -> in_range 64 correlation ->
  exists data, make_open_request c address correlation instance = Val data /\
    request_of data (Some CT_Open) = Some (Request_Open (open_request c address instance)) /\
    recover_coordination_correlation data = correlation.
Proof.
  intros Hok Hc. eexists. split; [by apply (encode_OpenRequest_layout (open_request c address instance))|].
  set (data := coord_layout _ _ _ _ _).
  assert (decode_OpenRequest data = Val (open_request c address instance,
    envelope_of 0 [] CT_Open correlation (OpenRequest_body (open_request c address instance)))) as Hd
    by (by apply decode_OpenRequest_layout).
  split; [unfold request_of; by rewrite Hd|].
  pose proof Hd as Ho. apply bind_val_inv in Ho as ([env body] & Ho & Hrest).
  apply opened_envelope_of in Ho as [He _]. rewrite (recovered_correlation _ _ _ He).
  assert (env = envelope_of 0 [] CT_Open correlation (OpenRequest_body (open_request c address instance))) as ->; [|done].
  repeat (apply bind_val_inv in Hrest as ([? ?] & ? & Hrest) || apply bind_val_inv in Hrest as (? & ? & Hrest) ||
          (apply guard_val_inv in Hrest as (? & Hrest))). by simplify_eq.
Qed.

(** A handler that throws gives a status. *)
Lemma handle_open_raises s request env e s' :
  be_status (oe_rng_error env) <> Ok -> handle_open s request env = Val (inr e, s') -> be_status e <> Ok.
Proof.
  intros He. unfold handle_open, open_begin.
  do 5 (match goal with |- context [if ?c then _ else _] => destruct c; [by intros [= <- _]|] end).
  destruct (select_seat _ _ _) as [k|]; [|done]. unfold open_finish.
  destruct (negb (oe_connected env)); [by intros [= <- _]|].
  destruct (session_at s k) as [x| |]; [|done..]. rewrite bind_val.
  destruct (oe_session_id env); [|by intros [= <- _]]. destruct (oe_stream_id env); [|by intros [= <- _]].
  by destruct (oe_probe_token env); [|intros [= <- _]].
Qed.

Lemma handle_open_grant s request env m s' :
  handle_open s request env = Val (inl (Reply_Open m), s') -> or_geometry m = grant s request.
Proof.
  unfold handle_open, open_begin.
  do 5 (match goal with |- context [if ?c then _ else _] => destruct c; [done|] end).
  destruct (select_seat _ _ _) as [k|]; [|done]. unfold open_finish. destruct (negb (oe_connected env)); [done|].
  destruct (session_at s k) as [x| |]; [|done..]. rewrite bind_val.
  destruct (oe_session_id env); [|done]. destruct (oe_stream_id env); [|done].
  destruct (oe_probe_token env); [|done]. by intros [= <- _].
Qed.

(** What the two ends hold when the client has a session. *)
Definition agreed (x : ClientSession) (seat : Session) (now : Z) : Prop :=
  ss_state seat = SS_Open /\ si_id (ss_identity seat) = cs_session_id x /\
  si_stream_id (ss_identity seat) = cs_stream_id x /\ si_geometry (ss_identity seat) = cs_granted x /\
  ss_deadline_ms seat = u64 (now + cs_lease_ttl_ms x) /\
  sn_window (ss_engine seat) = CreditWindow_new (gb_ring_depth (cs_granted x)) (gb_credit_window (cs_granted x)).

Definition handshake s (c : SubscriberConfig) (now : Z) (granted : GeometryBlock) (status : Status)
    (x : ClientSession) s' : Prop :=
  (status = Ok /\ acceptable c granted /\ cs_granted x = granted /\
     exists k seat, right_seat (im_sessions s) k /\ im_sessions s' = <[k := seat]> (im_sessions s) /\
       agreed x seat now) \/
  (status <> Ok /\ x = ClientSession_default /\
     seat_status <$> im_sessions s' = seat_status <$> im_sessions s) \/
  (status = GeometryMismatch /\ x = ClientSession_default /\ ~ acceptable c granted /\
     exists k seat, right_seat (im_sessions s) k /\ im_sessions s' = <[k := seat]> (im_sessions s) /\
       ss_state seat = SS_Open).

Lemma exchange_outcome s c address instance correlation env :
  serving s -> outside_ok env -> be_status (oe_rng_error env) <> Ok ->
  OpenRequest_ok (open_request c address instance) -> in_range 64 correlation ->
  exists status x s', exchange s c address instance correlation env = Some (status, x, s') /\
    handshake s c (oe_now_ms env) (grant s (open_request c address instance)) status x s' /\
    (forall m s2, handle_open s (open_request c address instance) env = Val (inl (Reply_Open m), s2) ->
       acceptable c (grant s (open_request c address instance)) -> status = Ok).
Proof.
  intros Hs He Hrng Hok Hc. unfold exchange.
  destruct (open_request_read c address instance correlation Hok Hc) as (data & -> & Hreq & Hcor).
  destruct (encoded_answers s data (Some CT_Open) env Hs He) as (reply & s' & -> & _ & Ha).
  unfold answered in Ha. rewrite Hreq, Hcor in Ha. destruct Ha as (answer & Hh & Hreads). simpl in Hh.
  destruct (handle_open_outcome s (open_request c address instance) env Hs Hok) as (answer' & s2 & Hh' & Hout).
  rewrite Hh in Hh'. injection Hh' as <- <-. rewrite Hh.
  destruct answer as [[m|m|m|m]|e]; try done; simpl in Hreads, Hout.
  - destruct Hout as (Hst & _ & k & seat & Hk & Hins & (L1 & _ & L3 & L4 & L5 & L6 & _ & L8 & _)).
    rewrite (adopt_read_reply reply c correlation m Hreads Hst). rewrite <- (handle_open_grant _ _ _ _ _ Hh).
    destruct (decide _) as [Hacc|Hacc]; eexists _, _, _; (split; [done|]); (split; [|done]).
    + left. split; [done|]. split; [done|]. split; [done|]. exists k, seat. by repeat split.
    + right. right. do 3 (split; [done|]). by exists k, seat.
  - destruct Hout as (Hne & Hsess & _). rewrite (adopt_read_error reply c correlation _ Hreads).
    eexists _, _, _. split; [done|]. split; [|done]. right. left. split; [done|]. split; [done|]. by rewrite Hsess.
  - rewrite (adopt_read_error reply c correlation _ Hreads). eexists _, _, _. split; [done|]. split; [|done].
    right. left. split; [|done]. simpl. by eapply handle_open_raises.
Qed.

(** ** When it succeeds *)

(** Nothing stands in the way of a session: the stream is the publisher's, a seat is
    free, the client can be reached, and the array fits in the client's frames. *)
Record can_open s (c : SubscriberConfig) (env : open_env) : Prop := {
  cp_name : sc_stream_name c = pc_stream_name (im_config s);
  cp_memory : sc_receive_memory_kind c = Host \/ sc_receive_memory_kind c = Cuda \/ sc_receive_memory_kind c = Rocm;
  cp_seat : exists k x, im_sessions s !! k = Some x /\ (unused x = true \/ retired x = true);
  cp_connected : oe_connected env = true;
  cp_ids : oe_session_id env <> None /\ oe_stream_id env <> None /\ oe_probe_token env <> None;
  cp_geometry : GeometryBlock_validate (current_geometry s) = Ok;
  cp_plan : plan_fits (from_limits (sc_max_frame_bytes c) (sc_ring_depth c) (sc_credit_window c));
  cp_window : 0 <= sc_credit_window c;
  cp_fits : let g := current_geometry s in
    validate_shape_and_strides (gb_rank g) (gb_shape g) (gb_strides g) (gb_element_size g) (sc_max_frame_bytes c) = Ok
}.

Lemma grant_acceptable s c env address instance :
  serving s -> can_open s c env -> acceptable c (grant s (open_request c address instance)).
Proof.
  intros Hs [_ _ _ _ _ Hg [Hf Hd Hw _] Hw0 Hfit]. apply GeometryBlock_validate_ok in Hg as Hgv.
  destruct Hgv as (Hg1 & Hg2 & Hg3 & Hg4 & Hg5 & Hg6 & Hg7). destruct (sv_geometry _ Hs) as (_ & _ & _ & _ & _ & _ & [Hg8 _] & _).
  cbn [from_limits rp_max_frame_bytes rp_ring_depth rp_credit_window] in *. simpl in Hg3, Hg4, Hg5, Hg6, Hg7, Hg8.
  split; [|simpl; lia]. unfold GeometryBlock_validate in *. simpl in *. destruct (_ =? 0); [done|].
  case_bool_decide; [done|]. unfold_limits. rewrite !(proj2 (Z.ltb_ge _ _)) by lia.
  rewrite (proj2 (Z.eqb_neq _ _)) by lia. cbn [orb].
  destruct (Z.min_spec (sc_max_frame_bytes c) (pc_max_frame_bytes (im_config s))) as [[_ ->]|[_ ->]]; done.
Qed.

Lemma handle_open_granted s c env address instance :
  serving s -> can_open s c env ->
  exists m s', handle_open s (open_request c address instance) env = Val (inl (Reply_Open m), s').
Proof.
  intros Hs Hcan. destruct (grant_acceptable s c env address instance Hs Hcan) as (Hv & _).
  apply GeometryBlock_validate_ok in Hv as (_ & _ & H1 & H2 & H3 & _).
  destruct Hcan as [Hn Hm (k & x & Hk & Hx) Hcn (Hi1 & Hi2 & Hi3) _ _ _ _]. unfold handle_open, open_begin.
  rewrite (bool_decide_eq_false_2 (oq_requested_transport _ <> ActiveMessage)) by auto. rewrite andb_false_r.
  match goal with |- context [if ?b then (inl (thrown MalformedMessage (str "Open requested an unsupported memory kind")), _) else _] =>
    assert (b = false) as -> end.
  { simpl. destruct Hm as [-> |[-> | ->]]; done. }
  cbn [oq_version_min oq_version_max open_request]. rewrite Z.ltb_irrefl. cbn [orb].
  rewrite (bool_decide_eq_false_2 (oq_stream_name _ <> _)) by auto. cbv zeta.
  rewrite !(proj2 (Z.eqb_neq _ _)) by lia. cbn [orb].
  pose proof (select_seat_right (im_sessions s) [] None) as Hsel. simpl in Hsel.
  destruct (select_seat (im_sessions s) 0 None) as [j|].
  2:{ destruct (Hsel ltac:(by split) k x Hk) as [Ha Hb]. destruct Hx; congruence. }
  pose proof Hsel as (y & Hy & _); [by split|]. unfold open_finish. rewrite Hcn.
  rewrite (session_at_some _ _ _ Hy). cbn [negb]. rewrite bind_val.
  destruct (oe_session_id env); [|done]. destruct (oe_stream_id env); [|done].
  destruct (oe_probe_token env); [|done]. by eexists _, _.
Qed.

(** C17: one [Open] between a client and a publisher, over the bytes of the
    protocol, always ends with both in agreement: the client has a session, and then
    the seat of that session holds the same identifiers, geometry, window and lease;
    or it has none and no seat has changed state; or the publisher granted what the
    client cannot use, which only the client knows. *)
Theorem open_handshake_agrees s c address instance correlation env
    (Hs : serving s) (He : outside_ok env) (Hrng : be_status (oe_rng_error env) <> Ok)
    (Hok : OpenRequest_ok (open_request c address instance)) (Hc : in_range 64 correlation) :
  exists status x s', exchange s c address instance correlation env = Some (status, x, s') /\
    handshake s c (oe_now_ms env) (grant s (open_request c address instance)) status x s'.
Proof.
  destruct (exchange_outcome s c address instance correlation env Hs He Hrng Hok Hc) as (status & x & s' & Hx & Hh & _).
  by exists status, x, s'.
Qed.

(** C18: an [Open] for the publisher's stream, with a free seat, a reachable client
    and an array that fits in the client's frames, opens a session: the clamped grant
    is always one the client accepts. *)
Theorem open_handshake_succeeds s c address instance correlation env
    (Hs : serving s) (He : outside_ok env) (Hrng : be_status (oe_rng_error env) <> Ok)
    (Hok : OpenRequest_ok (open_request c address instance)) (Hc : in_range 64 correlation)
    (Hcan : can_open s c env) :
  exists x s' k seat, exchange s c address instance correlation env = Some (Ok, x, s') /\
    im_sessions s' !! k = Some seat /\ agreed x seat (oe_now_ms env).
Proof.
  destruct (exchange_outcome s c address instance correlation env Hs He Hrng Hok Hc) as (status & x & s' & Hx & Hh & Hgr).
  pose proof (grant_acceptable s c env address instance Hs Hcan) as Hacc.
  destruct (handle_open_granted s c env address instance Hs Hcan) as (m & s2 & Ho). specialize (Hgr m s2 Ho Hacc). subst status.
  destruct Hh as [(_ & _ & _ & k & seat & (y & Hy & _) & Hins & Hag)|[[Hne _]|[Hne _]]]; [|done..].
  exists x, s', k, seat. split; [done|]. rewrite Hins. split; [|done].
  apply list_lookup_insert_eq. by eapply lookup_lt_Some.
Qed.
End Exchange.

(** ** A concrete client *)

#[local] Instance client_free_fifo : BoundedFifo (BoundedQueue nat) nat := ring_fifo 0%nat.
#[local] Instance client_item_fifo : BoundedFifo (BoundedQueue PublishItem) PublishItem := ring_fifo sample_item.

Definition client_config : SubscriberConfig :=
  mkSubscriberConfig (str "camera") 4096 2 2 64 DM_Pull DropNewest RP_BoundedRetry 2 500 5000
    30000 5000 (2 ^ 24) [] (-1) false 0 Host None None.
Definition client_outside : open_env :=
  mkOpenEnv true (Some (replicate 16 x07)) (Some 5) (Some 6) (mkBulkError Internal [] []) 1000 [x01].

Lemma client_outside_ok : outside_ok client_outside.
Proof.
  constructor; [by intros ? [= <-]|by intros ? [= <-]|done|]. split; [solve_enum|plain_text].
Qed.

Lemma client_request_ok : OpenRequest_ok (open_request client_config [x03] (replicate 16 x02)).
Proof. unfold OpenRequest_ok. cbn -[raw of_raw]. split_and!; try done; try solve_enum. Qed.

Lemma open_handshake_agrees_witness :
  exists status x s', exchange (pw_impl sample_w0) client_config [x03] (replicate 16 x02) 42 client_outside = Some (status, x, s') /\
    handshake (pw_impl sample_w0) client_config 1000
      (grant (pw_impl sample_w0) (open_request client_config [x03] (replicate 16 x02))) status x s'.
Proof.
  apply (open_handshake_agrees (pw_impl sample_w0) client_config [x03] (replicate 16 x02) 42 client_outside);
    [apply sample_serving|apply client_outside_ok|done|apply client_request_ok|done].
Defined.

Lemma client_can_open : can_open (pw_impl sample_w0) client_config client_outside.
Proof.
  constructor; try by vm_compute.
  - by left.
  - exists 0%nat. eexists. split; [by vm_compute|by left].
Qed.

Lemma open_handshake_succeeds_witness :
  exists x s' k seat, exchange (pw_impl sample_w0) client_config [x03] (replicate 16 x02) 42 client_outside = Some (Ok, x, s') /\
    im_sessions s' !! k = Some seat /\ agreed x seat 1000.
Proof.
  apply (open_handshake_succeeds (pw_impl sample_w0) client_config [x03] (replicate 16 x02) 42 client_outside);
    [apply sample_serving|apply client_outside_ok|done|apply client_request_ok|done|apply client_can_open].
Defined.

(** A publisher of images of 64 by 64 pixels of two bytes. *)
Definition wide_pconfig0 : PublisherConfig :=
  mkPublisherConfig (str "camera")
    (mkFrameMetadata ET_UInt16 0 2 [64; 64; 0; 0] array4_zero 0 0 0 0 Host Little) 8192 2 2 2 BestEffort 8 10000 3333 10
    (Z.shiftl 16 20) [] (-1) true.
Definition wide_publisher : Impl (BoundedQueue nat) (BoundedQueue PublishItem) :=
  Impl_new (match resolve_config wide_pconfig0 with Val c => c | _ => wide_pconfig0 end)
    (mkRegisteredRing (mkRegisteredMemory true 65536 16384 16384 None) 65536 8192 8192 2)
    sample_free sample_queue 99.

(** a publisher clamps the frame size it grants to what the client asked for
    without looking at its array: a client whose frames are too small is granted a
    geometry that is not valid, refuses it, and does not close it.  The seat stays
    taken until its lease expires, and with as many attempts as there are seats the
    publisher is full. *)
Theorem refused_grant_takes_seat :
  SubscriberConfig_validate client_config = Ok /\ GeometryBlock_validate (current_geometry wide_publisher) = Ok /\
  match exchange wide_publisher client_config [x03] (replicate 16 x02) 42 client_outside with
  | Some (status, x, s1) =>
      status = GeometryMismatch /\ x = ClientSession_default /\
      ss_state <$> im_sessions s1 = [SS_Open; SS_Unknown] /\
      match exchange s1 client_config [x03] (replicate 16 x02) 43 client_outside with
      | Some (status, _, s2) =>
          status = GeometryMismatch /\ ss_state <$> im_sessions s2 = [SS_Open; SS_Open] /\
          match exchange s2 client_config [x03] (replicate 16 x02) 44 client_outside with
          | Some (status, _, _) => status = TooManySessions
          | None => False
          end
      | None => False
      end
  | None => False
  end.
Proof. by vm_compute. Qed.
