(* ===== verification/TangoDevice.v ===== *)
(** * The device side of the Tango binding

    [BulkPublisher::snapshot] and [PublisherSnapshot] of
    [src/ucx/publisher_impl.cpp] and [publisher.h], and [src/tango/registration.cpp]
    with [commands.cpp]: the attributes a device publishes, the commands it installs,
    and the registry that joins a device to its publisher.  Tango itself is what
    calls these; a device is a number, a [DevVarCharArray] a list of bytes. *)
From Stdlib Require Import Init.Byte.
From stdpp Require Import gmap list sets.
From S2P Require Import Prelude Enums Limits ByteOrder Geometry Text Protocol ProtocolSafety.
From S2P Require Import ProtocolRoundtrip Dispatch DataPlane SessionIds Offer Config CreditWindow BoundedQueue.
From S2P Require Import DeliveryQueue PinnedLedger RegisteredRing ProducerSlots Publisher Coordination.
From S2P Require Import PublisherRuns ControlPath.
#[local] Open Scope Z_scope.

(** ** Snapshots *)

Record SessionObservation : Type := mkSessionObservation {
  sb_session_id : bytes;
  sb_state : bytes;
  sb_lag_frames : Z
}.

(** [counters] with its gauge of retained leases. *)
Record PublisherSnapshot : Type := mkPublisherSnapshot {
  sp_stream_name : bytes;
  sp_geometry : Geometry;
  sp_counters : pcounter -> Z;
  sp_leases_retained : Z;
  sp_sessions : list SessionObservation;
  sp_active_sessions : Z;
  sp_transport : bytes;
  sp_worst_lag_frames : Z;
  sp_sampled_at_steady_ns : Z;
  sp_accepting : bool
}.

Definition PublisherSnapshot_default : PublisherSnapshot :=
  mkPublisherSnapshot [] Geometry_default (fun _ => 0) 0 [] 0 [] 0 0 false.

Definition frames_dropped (p : PublisherSnapshot) : Z :=
  u64 (sp_counters p dropped_no_session + sp_counters p dropped_queue_full +
       sp_counters p dropped_credit_stalled + sp_counters p dropped_bad_metadata).

Definition stream_offer (p : PublisherSnapshot) : StreamOffer :=
  mkStreamOffer k_offer_version (sp_stream_name p) (sp_geometry p) 0
    (if sp_accepting p then Ok else UnknownStream)
    (if sp_accepting p then [] else str "publisher is not accepting sessions").

Definition observed_state (st : SessionState) : bool :=
  bool_decide (st = SS_Open) || bool_decide (st = SS_Armed) || bool_decide (st = SS_Active).

Definition observe_session (x : Session) : SessionObservation :=
  mkSessionObservation (to_hex (si_id (ss_identity x))) (SessionState_to_string (ss_state x))
    (sn_observed_lag (ss_engine x)).

Section Snapshot.
Context {QS QP : Type} `{BoundedFifo QS nat} `{BoundedFifo QP PublishItem}.
Abbreviation Impl := (Impl QS QP).

Definition session_count (s : Impl) : Z := ad_armed_sessions (im_admission s).

(** [snapshot]; [now_ms] is the steady clock. *)
Definition snapshot (s : Impl) (now_ms : Z) : PublisherSnapshot :=
  let seen := filter (fun x => observed_state (ss_state x)) (im_sessions s) in
  let active := filter (fun x => bool_decide (ss_state x = SS_Armed) || bool_decide (ss_state x = SS_Active)) seen in
  mkPublisherSnapshot (pc_stream_name (im_config s)) (to_geometry (current_geometry s)) (im_counters s)
    (ps_retained (im_slots s)) (observe_session <$> seen) (Z.of_nat (length active)) (str "ActiveMessage")
    (im_counters s credits_outstanding) (u64 (now_ms * 1000000)) (im_running s).
End Snapshot.

(** ** Attributes *)

Definition session_rows (p : PublisherSnapshot) : list bytes :=
  (fun o => sb_session_id o ++ str "|" ++ sb_state o ++ str "|" ++ to_string (sb_lag_frames o)) <$> sp_sessions p.

(** [BulkStreamsAttribute::read]. *)
Definition bulk_streams_rows (p : PublisherSnapshot) : list bytes :=
  let offer := stream_offer p in
  if bool_decide (so_status offer = Ok) then [to_bulk_stream_row offer] else [].

Inductive ScalarObservation : Type := FramesPublished | FramesDropped | WorstLagFrames.
Definition scalar_value (o : ScalarObservation) (p : PublisherSnapshot) : Z :=
  match o with
  | FramesPublished => sp_counters p frames_published
  | FramesDropped => frames_dropped p
  | WorstLagFrames => sp_worst_lag_frames p
  end.

(** [install_bulk_attributes]: the names it adds, in order. *)
Definition install_bulk_attributes (attributes : list bytes) : list bytes :=
  attributes ++ [str "BulkStreams"; str "BulkSessions"; str "BulkFramesPublished";
                 str "BulkFramesDropped"; str "BulkTransport"; str "BulkWorstLagFrames"].

(** ** Commands *)

Definition tolower (c : byte) : byte :=
  let z := Z_of_byte c in if (65 <=? z) && (z <=? 90) then byte_of_Z (z + 32) else c.
Definition lowercase (text : bytes) : bytes := tolower <$> text.

Record CommandNames : Type := mkCommandNames {
  cn_open : bytes;
  cn_renew : bytes;
  cn_close : bytes
}.
Definition CommandNames_default : CommandNames :=
  mkCommandNames (str "BulkOpen") (str "BulkRenew") (str "BulkClose").
Definition with_prefix (prefix : bytes) : CommandNames :=
  let names := CommandNames_default in
  mkCommandNames (prefix ++ cn_open names) (prefix ++ cn_renew names) (prefix ++ cn_close names).

(** A command of the class; [dc_expected] is the message a bulk command is the door
    for. *)
Record DeviceCommand : Type := mkDeviceCommand { dc_name : bytes; dc_expected : option CoordType }.

Definition tango_error (status : Status) (message : bytes) : BulkError :=
  mkBulkError status message (str "tango").

(** The first loop of [reject_collisions]: each name is not empty and not the same
    as a later one. *)
Fixpoint reject_among (wanted : list bytes) : throws unit :=
  match wanted with
  | [] => Val tt
  | name :: rest =>
      if bool_decide (name = []) then Err (tango_error MalformedMessage (str "a bulk command name is empty")) else
      if existsb (fun other => bool_decide (lowercase name = lowercase other)) rest
      then Err (tango_error MalformedMessage (str "two bulk commands share the name '" ++ name ++ str "'"))
      else reject_among rest
  end.

(** The second: no command of the class, of those that are not null, has the name of
    a wanted one. *)
Fixpoint reject_existing (existing : list (option DeviceCommand)) (wanted : list bytes) : throws unit :=
  match existing with
  | [] => Val tt
  | None :: existing => reject_existing existing wanted
  | Some command :: existing =>
      match filter (fun name => bool_decide (lowercase (dc_name command) = lowercase name)) wanted with
      | name :: _ =>
          Err (tango_error MalformedMessage (str "the device class already has a command named '" ++ name ++
                 str "'; pass CommandNames::with_prefix() to move the bulk commands"))
      | [] => reject_existing existing wanted
      end
  end.

Definition reject_collisions (existing : list (option DeviceCommand)) (names : CommandNames) : throws unit :=
  let wanted := [cn_open names; cn_renew names; cn_close names] in
  let! _ := reject_among wanted in
  reject_existing existing wanted.

Definition make_bulk_commands (names : CommandNames) : list DeviceCommand :=
  [mkDeviceCommand (cn_open names) (Some CT_Open); mkDeviceCommand (cn_renew names) (Some CT_Renew);
   mkDeviceCommand (cn_close names) (Some CT_Close)].

Definition install_bulk_commands (existing : list (option DeviceCommand)) (names : CommandNames)
    : throws (list (option DeviceCommand)) :=
  let! _ := reject_collisions existing names in
  Val (existing ++ (Some <$> make_bulk_commands names)).

(** ** The registry *)

(** [Registry::publishers]; a publisher is its address. *)
Abbreviation registry := (gmap nat nat).
Definition attach_publisher (r : registry) (device publisher : nat) : registry := <[device := publisher]> r.
Definition detach_publisher (r : registry) (device : nat) : registry := delete device r.

(** What a command or a read finds: nothing for the null device. *)
Definition find_publisher (r : registry) (device : option nat) : option nat := d ← device; r !! d.

Section Registry.
Context {QS QP : Type} `{BoundedFifo QS nat} `{BoundedFifo QP PublishItem}.
Abbreviation Impl := (Impl QS QP).

(** [snapshot_for]; a publisher that is gone is an access outside memory. *)
Definition snapshot_for (r : registry) (publishers : gmap nat Impl) (device : option nat) (now_ms : Z)
    : ores PublisherSnapshot :=
  match find_publisher r device with
  | None => Val PublisherSnapshot_default
  | Some p => match publishers !! p with Some s => Val (snapshot s now_ms) | None => Fault end
  end.

(** [dispatch_coordination] for a device without a publisher. *)
Definition unattached_reply (data : bytes) : ores bytes :=
  let correlation_id := match decode_envelope data Envelope_default with
    | (envelope, Val _) => env_correlation_id envelope
    | _ => 0
    end in
  encode_coordination_error UnknownStream (str "no bulk publisher is attached to this device") correlation_id.

(** [dispatch_coordination]. *)
Definition dispatch_coordination (r : registry) (publishers : gmap nat Impl) (device : option nat)
    (data : bytes) (expected : option CoordType) (env : open_env) : ores (bytes * gmap nat Impl) :=
  match find_publisher r device with
  | None => let! reply := unattached_reply data in Val (reply, publishers)
  | Some p =>
      match publishers !! p with
      | None => Fault
      | Some s =>
          let! (reply, s) := handle_encoded_coordination s data expected env in
          Val (reply, <[p := s]> publishers)
      end
  end.

(** [CoordinationCommand::execute]: [None] for an argument that is not a
    [DevVarCharArray], on which Tango's [extract] throws. *)
Definition command_execute (r : registry) (publishers : gmap nat Impl) (command : DeviceCommand)
    (device : option nat) (argument : option bytes) (env : open_env)
    : ores (option bytes * gmap nat Impl) :=
  match argument with
  | None => Val (None, publishers)
  | Some data =>
      let! (reply, publishers) := dispatch_coordination r publishers device data (dc_expected command) env in
      Val (Some reply, publishers)
  end.
End Registry.

(** ** Commands can be reached *)

(** What cppTango calls for a name: it ignores case, and takes the first command it
    finds. *)
Fixpoint resolve_command (commands : list (option DeviceCommand)) (name : bytes) : option DeviceCommand :=
  match commands with
  | [] => None
  | Some c :: commands => if bool_decide (lowercase (dc_name c) = lowercase name) then Some c else resolve_command commands name
  | None :: commands => resolve_command commands name
  end.

Lemma resolve_command_app l1 l2 name :
  resolve_command (l1 ++ l2) name =
  match resolve_command l1 name with Some c => Some c | None => resolve_command l2 name end.
Proof. induction l1 as [|[c|] l1 IH]; simpl; [done| |done]. by case_bool_decide. Qed.

Lemma reject_existing_ok existing wanted :
  match reject_existing existing wanted with
  | Val _ => forall name, name ∈ wanted -> resolve_command existing name = None
  | Err e => be_status e = MalformedMessage /\ exists name, name ∈ wanted /\ resolve_command existing name <> None
  | Fault => False
  end.
Proof.
  induction existing as [|[c|] existing IH]; simpl; [done| |done].
  destruct (filter _ wanted) as [|name rest] eqn:Hf.
  - assert (forall name, name ∈ wanted -> lowercase (dc_name c) <> lowercase name) as Hne.
    { intros name Hin Heq. assert (name ∈ @nil bytes) as Hx; [|by apply elem_of_nil in Hx].
      rewrite <- Hf. apply list_elem_of_filter. split; [|done]. by apply bool_decide_pack. }
    destruct (reject_existing existing wanted); [|destruct IH as [? (name & Hin & Hr)]|done].
    + intros name Hin. rewrite bool_decide_eq_false_2 by (by apply Hne). by apply IH.
    + split; [done|]. exists name. split; [done|]. by rewrite bool_decide_eq_false_2 by (by apply Hne).
  - split; [done|]. exists name. assert (name ∈ name :: rest) as Hx by left. rewrite <- Hf in Hx.
    apply list_elem_of_filter in Hx as [Hb Hin]. split; [done|]. by rewrite (proj1 (Is_true_true _) Hb).
Qed.

Lemma reject_among_ok wanted :
  match reject_among wanted with
  | Val _ => Forall (fun name => name <> []) wanted /\ NoDup (lowercase <$> wanted)
  | Err e => be_status e = MalformedMessage /\
      ~ (Forall (fun name => name <> []) wanted /\ NoDup (lowercase <$> wanted))
  | Fault => False
  end.
Proof.
  induction wanted as [|name wanted IH]; simpl; [split; [constructor|apply NoDup_nil_2]|].
  case_bool_decide as He; [split; [done|]; intros [Hall _]; by apply list.Forall_cons in Hall as [? _]|].
  destruct (existsb _ wanted) eqn:Hex.
  - split; [done|]. intros [_ Hnd]. apply list.NoDup_cons in Hnd as [Hnin _]. apply Hnin.
    apply existsb_exists in Hex as (other & Hin & Hb). apply bool_decide_eq_true in Hb. rewrite Hb.
    apply list_elem_of_fmap_2. by apply list_elem_of_In.
  - assert (lowercase name ∉ lowercase <$> wanted) as Hnin.
    { intros (other & Hl & Hin)%list_elem_of_fmap. apply not_true_iff_false in Hex. apply Hex, existsb_exists.
      exists other. split; [by apply list_elem_of_In|by apply bool_decide_eq_true]. }
    destruct (reject_among wanted); [destruct IH|destruct IH as [? Hn]|done].
    + split; [by constructor|]. by apply list.NoDup_cons.
    + split; [done|]. intros [Hall Hnd]. apply Hn. apply list.Forall_cons in Hall as [_ ?].
      by apply list.NoDup_cons in Hnd as [_ ?].
Qed.

(** Names that can be installed beside the commands of the class. *)
Definition installable (existing : list (option DeviceCommand)) (names : CommandNames) : Prop :=
  let wanted := [cn_open names; cn_renew names; cn_close names] in
  Forall (fun name => name <> []) wanted /\ NoDup (lowercase <$> wanted) /\
  forall name, name ∈ wanted -> resolve_command existing name = None.

Lemma installed_commands existing names :
  match install_bulk_commands existing names with
  | Val commands => installable existing names /\
      (forall name, lowercase name = lowercase (cn_open names) ->
         resolve_command commands name = Some (mkDeviceCommand (cn_open names) (Some CT_Open))) /\
      (forall name, lowercase name = lowercase (cn_renew names) ->
         resolve_command commands name = Some (mkDeviceCommand (cn_renew names) (Some CT_Renew))) /\
      (forall name, lowercase name = lowercase (cn_close names) ->
         resolve_command commands name = Some (mkDeviceCommand (cn_close names) (Some CT_Close))) /\
      (forall name c, resolve_command existing name = Some c -> resolve_command commands name = Some c)
  | Err e => be_status e = MalformedMessage /\ ~ installable existing names
  | Fault => False
  end.
Proof.
  unfold install_bulk_commands, reject_collisions, installable. set (wanted := [_; _; _]).
  pose proof (reject_among_ok wanted) as Ha.
  destruct (reject_among wanted) as [[]|e|]; [|destruct Ha as [? Ha]; split; [done|]; by intros (? & ? & _); apply Ha|done].
  destruct Ha as [Hne Hnd]. rewrite bind_val. pose proof (reject_existing_ok existing wanted) as He.
  destruct (reject_existing existing wanted) as [[]|e|]; rewrite ?bind_val; simpl; [| |done].
  2:{ destruct He as [? (name & Hin & Hr)]. split; [done|]. intros (_ & _ & Hall). by apply Hr, Hall. }
  split; [done|].
  assert (forall a b, lowercase a = lowercase b -> resolve_command existing a = resolve_command existing b) as Hcase.
  { intros a b Hab. induction existing as [|[c|] existing IH]; simpl; [done| |by apply IH].
    rewrite Hab. case_bool_decide; [done|]. apply IH. intros name Hin. specialize (He name Hin). simpl in He.
    by case_bool_decide. }
  apply list.NoDup_cons in Hnd as [Hn1 Hnd]. apply list.NoDup_cons in Hnd as [Hn2 _].
  assert (lowercase (cn_open names) <> lowercase (cn_renew names) /\
    lowercase (cn_open names) <> lowercase (cn_close names) /\ lowercase (cn_renew names) <> lowercase (cn_close names)) as (D1 & D2 & D3).
  { unfold wanted in *. simpl in Hn1, Hn2. set_solver. }
  split_and!; try (intros name Hl; rewrite resolve_command_app, (Hcase _ _ Hl), He by (subst wanted; set_solver);
    simpl; rewrite Hl; repeat case_bool_decide; congruence).
  intros name c Hr. by rewrite resolve_command_app, Hr.
Qed.

(** [install_bulk_commands] installs exactly when no two names clash and none is
    empty or taken, and then every spelling of a bulk command reaches the door of its
    own message and every command the class had is reached as before; otherwise it
    says why and the class is as it was. *)
Theorem bulk_commands_reachable existing names :
  match install_bulk_commands existing names with
  | Val commands => installable existing names /\
      (forall name, lowercase name = lowercase (cn_open names) ->
         resolve_command commands name = Some (mkDeviceCommand (cn_open names) (Some CT_Open))) /\
      (forall name, lowercase name = lowercase (cn_renew names) ->
         resolve_command commands name = Some (mkDeviceCommand (cn_renew names) (Some CT_Renew))) /\
      (forall name, lowercase name = lowercase (cn_close names) ->
         resolve_command commands name = Some (mkDeviceCommand (cn_close names) (Some CT_Close))) /\
      (forall name c, resolve_command existing name = Some c -> resolve_command commands name = Some c)
  | Err e => be_status e = MalformedMessage /\ ~ installable existing names
  | Fault => False
  end.
Proof. apply installed_commands. Qed.

(** ** Publishers outlive the commands inside them

    The threads of a device server that are in [registration.cpp], one turn per action;
    what [Registry::mutex] guards is in the threads' own actions, in the order of the
    source. *)

(** [std::shared_mutex], with the threads that hold it. *)
Record shared_mutex : Type := mkSharedMutex { sm_shared : gset nat; sm_unique : option nat }.
Definition lock_shared (m : shared_mutex) (t : nat) : option shared_mutex :=
  match sm_unique m with
  | None => Some (mkSharedMutex ({[t]} ∪ sm_shared m) None)
  | Some _ => None
  end.
Definition unlock_shared (m : shared_mutex) (t : nat) : shared_mutex :=
  mkSharedMutex (sm_shared m ∖ {[t]}) (sm_unique m).
Definition lock_unique (m : shared_mutex) (t : nat) : option shared_mutex :=
  match sm_unique m with
  | None => if bool_decide (sm_shared m = ∅) then Some (mkSharedMutex ∅ (Some t)) else None
  | Some _ => None
  end.
Definition unlock_unique (m : shared_mutex) (t : nat) : shared_mutex :=
  if bool_decide (sm_unique m = Some t) then mkSharedMutex (sm_shared m) None else m.

(** The actions: the locks of the registry, the look-up, what is called on the
    publisher that was found, and the two writes. *)
Inductive registry_action : Type :=
| A_lock_shared
| A_find (device : option nat)
| A_coordination (data : bytes) (expected : option CoordType) (env : open_env)
| A_snapshot (now_ms : Z)
| A_unlock_shared
| A_lock_unique
| A_insert (device publisher : nat)
| A_erase (device : nat)
| A_unlock_unique.

(** The bodies of [dispatch_coordination], [snapshot_for], [attach_publisher] and
    [detach_publisher]. *)
Definition dispatch_actions (device : option nat) (data : bytes) (expected : option CoordType) (env : open_env) :=
  [A_lock_shared; A_find device; A_coordination data expected env; A_unlock_shared].
Definition snapshot_actions (device : option nat) (now_ms : Z) :=
  [A_lock_shared; A_find device; A_snapshot now_ms; A_unlock_shared].
Definition attach_actions (device publisher : nat) :=
  [A_lock_unique; A_insert device publisher; A_unlock_unique].
Definition detach_actions (device : nat) :=
  [A_lock_unique; A_erase device; A_unlock_unique].

Inductive registry_call : Type :=
| C_dispatch (device : option nat) (data : bytes) (expected : option CoordType) (env : open_env)
| C_snapshot (device : option nat) (now_ms : Z)
| C_attach (device publisher : nat)
| C_detach (device : nat).
Definition actions_of (c : registry_call) : list registry_action :=
  match c with
  | C_dispatch device data expected env => dispatch_actions device data expected env
  | C_snapshot device now_ms => snapshot_actions device now_ms
  | C_attach device publisher => attach_actions device publisher
  | C_detach device => detach_actions device
  end.

(** A thread in a call: how many actions it has taken, and the publisher it found
    and has not left. *)
Record registry_thread : Type := mkRegistryThread {
  rt_call : registry_call;
  rt_taken : nat;
  rt_found : option nat
}.

Section Lifetime.
Context {QS QP : Type} `{BoundedFifo QS nat} `{BoundedFifo QP PublishItem}.
Abbreviation Impl := (Impl QS QP).

Record device_world : Type := mkDeviceWorld {
  dw_registry : registry;
  dw_publishers : gmap nat Impl;
  dw_mutex : shared_mutex;
  dw_threads : gmap nat registry_thread
}.
Implicit Types w : device_world.

Definition device_world_empty : device_world := mkDeviceWorld ∅ ∅ (mkSharedMutex ∅ None) ∅.

(** One action of thread [t]: the registry, the publishers, the mutex and what the
    thread has found after it; [None] when the thread has to wait.  A publisher that
    is gone is an access outside memory. *)
Definition take_action (r : registry) (ps : gmap nat Impl) (m : shared_mutex) (t : nat) (found : option nat)
    (a : registry_action) : ores (option (registry * gmap nat Impl * shared_mutex * option nat)) :=
  match a with
  | A_lock_shared => Val ((fun m => (r, ps, m, found)) <$> lock_shared m t)
  | A_find device => Val (Some (r, ps, m, find_publisher r device))
  | A_coordination data expected env =>
      match found with
      | None => let! _ := unattached_reply data in Val (Some (r, ps, m, found))
      | Some p =>
          match ps !! p with
          | None => Fault
          | Some s => let! (_, s) := handle_encoded_coordination s data expected env in
                      Val (Some (r, <[p := s]> ps, m, found))
          end
      end
  | A_snapshot now_ms =>
      match found with
      | None => Val (Some (r, ps, m, found))
      | Some p => match ps !! p with None => Fault | Some _ => Val (Some (r, ps, m, found)) end
      end
  | A_unlock_shared => Val (Some (r, ps, unlock_shared m t, None))
  | A_lock_unique => Val ((fun m => (r, ps, m, found)) <$> lock_unique m t)
  | A_insert device publisher => Val (Some (attach_publisher r device publisher, ps, m, found))
  | A_erase device => Val (Some (detach_publisher r device, ps, m, found))
  | A_unlock_unique => Val (Some (r, ps, unlock_unique m t, None))
  end.

(** One turn of thread [t]; [None] when it has no action left or has to wait. *)
Definition thread_turn w (t : nat) : ores (option device_world) :=
  match dw_threads w !! t with
  | None => Val None
  | Some th =>
      match actions_of (rt_call th) !! rt_taken th with
      | None => Val None
      | Some a =>
          let! next := take_action (dw_registry w) (dw_publishers w) (dw_mutex w) t (rt_found th) a in
          Val ((fun '(r, ps, m, found) =>
            mkDeviceWorld r ps m (<[t := mkRegistryThread (rt_call th) (S (rt_taken th)) found]> (dw_threads w))) <$> next)
      end
  end.

Inductive device_op : Type :=
| D_Create (publisher : nat) (s : Impl)
| D_Destroy (publisher : nat)
| D_Call (thread : nat) (c : registry_call)
| D_Turn (thread : nat).

Definition device_step w (op : device_op) : ores (option device_world) :=
  let '(mkDeviceWorld r ps m ts) := w in
  match op with
  | D_Create p s => Val (Some (mkDeviceWorld r (<[p := s]> ps) m ts))
  | D_Destroy p => Val (Some (mkDeviceWorld r (delete p ps) m ts))
  | D_Call t c => Val (Some (mkDeviceWorld r ps m (<[t := mkRegistryThread c 0 None]> ts)))
  | D_Turn t => thread_turn w t
  end.

(** The thread has returned from its call. *)
Definition returned (th : registry_thread) : Prop := actions_of (rt_call th) !! rt_taken th = None.

(** What the server's own code owes: it attaches a publisher that is there, destroys
    one only when it is attached to no device and no thread is about to attach it, and
    a thread makes one call at a time. *)
Definition device_ready w (op : device_op) : Prop :=
  match op with
  | D_Create p s => serving s /\ dw_publishers w !! p = None
  | D_Destroy p => (forall d, dw_registry w !! d <> Some p) /\
      (forall t th d, dw_threads w !! t = Some th -> rt_call th = C_attach d p -> returned th)
  | D_Call t c => (forall th, dw_threads w !! t = Some th -> returned th) /\
      match c with
      | C_dispatch _ _ _ env => outside_ok env
      | C_attach _ p => is_Some (dw_publishers w !! p)
      | _ => True
      end
  | D_Turn _ => True
  end.

Inductive device_run : device_world -> device_world -> Prop :=
| device_run_none w : device_run w w
| device_run_more w op w1 w2 :
    device_ready w op -> device_step w op = Val (Some w1) -> device_run w1 w2 -> device_run w w2.

(** ** The invariant *)

(** Which lock a thread holds. *)
Inductive lock_mode : Type := Held_shared | Held_unique.
#[export] Instance lock_mode_eq_dec : EqDecision lock_mode.
Proof. solve_decision. Defined.

Definition holds (th : registry_thread) : option lock_mode :=
  match rt_call th, rt_taken th with
  | (C_dispatch _ _ _ _ | C_snapshot _ _), (1 | 2 | 3)%nat => Some Held_shared
  | (C_attach _ _ | C_detach _), (1 | 2)%nat => Some Held_unique
  | _, _ => None
  end.
Definition held_by (m : shared_mutex) (t : nat) : option lock_mode :=
  if bool_decide (sm_unique m = Some t) then Some Held_unique
  else if bool_decide (t ∈ sm_shared m) then Some Held_shared else None.

Record device_inv w : Prop := {
  dv_attached : forall d p, dw_registry w !! d = Some p -> is_Some (dw_publishers w !! p);
  dv_serving : forall p s, dw_publishers w !! p = Some s -> serving s;
  dv_locks : forall t, held_by (dw_mutex w) t = dw_threads w !! t ≫= holds;
  dv_alone : sm_unique (dw_mutex w) <> None -> sm_shared (dw_mutex w) = ∅;
  dv_inside : forall t th p, dw_threads w !! t = Some th -> rt_found th = Some p ->
    holds th = Some Held_shared /\ exists d, dw_registry w !! d = Some p;
  dv_calls : forall t th, dw_threads w !! t = Some th ->
    match rt_call th with
    | C_dispatch _ _ _ env => outside_ok env
    | C_attach _ p => ~ returned th -> is_Some (dw_publishers w !! p)
    | C_detach d => rt_taken th = 2%nat -> dw_registry w !! d = None
    | _ => True
    end
}.

Lemma find_publisher_attached (r : registry) device p :
  find_publisher r device = Some p -> exists d, r !! d = Some p.
Proof. destruct device as [d|]; simpl; [|done]. by exists d. Qed.

Lemma lock_shared_held m t m' :
  held_by m t = None -> lock_shared m t = Some m' ->
  (forall t', held_by m' t' = if decide (t' = t) then Some Held_shared else held_by m t') /\
  (sm_unique m' <> None -> sm_shared m' = ∅).
Proof.
  unfold lock_shared, held_by. destruct m as [sh [u|]]; simpl; [done|]. intros _ [= <-]. simpl.
  split; [|done]. intros t'. repeat case_bool_decide; case_decide; set_solver.
Qed.
Lemma lock_unique_held m t m' :
  lock_unique m t = Some m' -> sm_shared m = ∅ /\
  (forall t', held_by m' t' = if decide (t' = t) then Some Held_unique else held_by m t') /\
  (sm_unique m' <> None -> sm_shared m' = ∅).
Proof.
  unfold lock_unique, held_by. destruct m as [sh [u|]]; simpl; [done|]. case_bool_decide as Hs; [|done].
  intros [= <-]. simpl. split; [done|]. split; [|done]. intros t'. subst sh.
  repeat case_bool_decide; case_decide; set_solver.
Qed.
Lemma unlock_shared_held m t :
  held_by m t = Some Held_shared -> (sm_unique m <> None -> sm_shared m = ∅) ->
  (forall t', held_by (unlock_shared m t) t' = if decide (t' = t) then None else held_by m t') /\
  (sm_unique (unlock_shared m t) <> None -> sm_shared (unlock_shared m t) = ∅).
Proof.
  unfold unlock_shared, held_by. destruct m as [sh u]; simpl. intros Ht Ha. split; [|set_solver].
  intros t'. repeat case_bool_decide; case_decide; set_solver.
Qed.
Lemma unlock_unique_held m t :
  held_by m t = Some Held_unique -> (sm_unique m <> None -> sm_shared m = ∅) ->
  (forall t', held_by (unlock_unique m t) t' = if decide (t' = t) then None else held_by m t') /\
  (sm_unique (unlock_unique m t) <> None -> sm_shared (unlock_unique m t) = ∅).
Proof.
  unfold unlock_unique, held_by. destruct m as [sh u]; simpl. intros Ht Ha.
  case_bool_decide as Hu; [|by case_bool_decide]. subst u. rewrite Ha by done. split; [|done]. simpl.
  intros t'. repeat case_bool_decide; case_decide; set_solver.
Qed.

Lemma held_unique_alone w t t' o :
  device_inv w -> held_by (dw_mutex w) t = Some Held_unique -> held_by (dw_mutex w) t' = Some o -> t' = t.
Proof.
  intros Hinv. pose proof (dv_alone _ Hinv) as Hal. unfold held_by.
  case_bool_decide as Hu; [|by case_bool_decide]. intros _. rewrite Hal by congruence.
  repeat case_bool_decide; set_solver.
Qed.

(** One action of a thread preserves the invariant when the mutex says what the
    thread holds and the registry is only written under the exclusive lock. *)
Lemma turn_inv w t c k f a r' ps' m' f' :
  device_inv w -> dw_threads w !! t = Some (mkRegistryThread c k f) -> actions_of c !! k = Some a ->
  (forall t', held_by m' t' = if decide (t' = t) then holds (mkRegistryThread c (S k) f')
                              else held_by (dw_mutex w) t') ->
  (sm_unique m' <> None -> sm_shared m' = ∅) ->
  (forall p, is_Some (dw_publishers w !! p) -> is_Some (ps' !! p)) ->
  (forall p s, ps' !! p = Some s -> serving s) ->
  (forall d p, r' !! d = Some p -> is_Some (ps' !! p)) ->
  (forall p, f' = Some p -> holds (mkRegistryThread c (S k) f') = Some Held_shared /\ exists d, r' !! d = Some p) ->
  (forall d, c = C_detach d -> S k = 2%nat -> r' !! d = None) ->
  r' = dw_registry w \/ held_by (dw_mutex w) t = Some Held_unique ->
  device_inv (mkDeviceWorld r' ps' m' (<[t := mkRegistryThread c (S k) f']> (dw_threads w))).
Proof.
  intros Hinv Ht Ha Hm Hal' Hps Hsv' Hatt' Hf' Hd' Hr. pose proof Hinv as [Hatt Hsv Hl Hal Hin Hc].
  assert (forall t' th o, t <> t' -> dw_threads w !! t' = Some th -> holds th = Some o -> r' = dw_registry w) as Hsame.
  { intros t' th o Hne Hth Hh. destruct Hr as [Hr|Hr]; [done|]. specialize (Hl t'). rewrite Hth in Hl. simpl in Hl.
    rewrite Hh in Hl. by destruct Hne; symmetry; eapply held_unique_alone. }
  constructor; simpl; try done.
  - intros t'. rewrite Hm. case_decide as Htt; [subst; by rewrite lookup_insert_eq|].
    by rewrite lookup_insert_ne by done.
  - intros t' th p [[<- <-]|[Hne Hth]]%lookup_insert_Some Hp; [by apply Hf'|].
    destruct (Hin t' th p Hth Hp) as [Hh [d Hd]]. split; [done|]. exists d. by rewrite (Hsame _ _ _ Hne Hth Hh).
  - intros t' th [[<- <-]|[Hne Hth]]%lookup_insert_Some.
    + specialize (Hc t _ Ht). simpl in *. destruct c; try done; [|auto]. intros _. apply Hps, Hc.
      unfold returned. simpl in *. by rewrite Ha.
    + specialize (Hc t' th Hth). destruct th as [[] k' f0]; simpl in *; try done; [auto|]. intros ->.
      by rewrite (Hsame t' _ Held_unique Hne Hth eq_refl); auto.
Qed.

Lemma unattached_total data : exists reply, unattached_reply data = Val reply.
Proof.
  unfold unattached_reply, encode_coordination_error. rewrite encode_ErrorMessage_layout. by eexists.
Qed.

(** A thread that must wait holds nothing, and somebody else has the lock. *)
Definition waits w (t : nat) : Prop :=
  exists c, dw_threads w !! t = Some (mkRegistryThread c 0 None) /\
    exists t', t' <> t /\ held_by (dw_mutex w) t' <> None.

Lemma lock_shared_waits w t c :
  dw_threads w !! t = Some (mkRegistryThread c 0 None) -> held_by (dw_mutex w) t = None ->
  lock_shared (dw_mutex w) t = None -> waits w t.
Proof.
  intros Ht Hh. unfold lock_shared. destruct (sm_unique (dw_mutex w)) as [u|] eqn:Hu; [|done]. intros _.
  assert (held_by (dw_mutex w) u = Some Held_unique) as Hhu by (unfold held_by; by rewrite bool_decide_eq_true_2).
  exists c. split; [done|]. exists u. split; congruence.
Qed.
Lemma lock_unique_waits w t c :
  dw_threads w !! t = Some (mkRegistryThread c 0 None) -> held_by (dw_mutex w) t = None ->
  lock_unique (dw_mutex w) t = None -> waits w t.
Proof.
  intros Ht Hh. unfold lock_unique. destruct (sm_unique (dw_mutex w)) as [u|] eqn:Hu.
  - intros _. by apply (lock_shared_waits w t c); [done..|unfold lock_shared; rewrite Hu].
  - case_bool_decide as Hs; [done|]. intros _. exists c. split; [done|].
    apply set_choose_L in Hs as [u Hin]. exists u.
    assert (held_by (dw_mutex w) u = Some Held_shared) as Hhu.
    { unfold held_by. rewrite Hu. by rewrite bool_decide_eq_false_2, bool_decide_eq_true_2. }
    split; congruence.
Qed.

(** The mutex as it is. *)
Lemma held_same w t o : held_by (dw_mutex w) t = o ->
  forall t', held_by (dw_mutex w) t' = if decide (t' = t) then o else held_by (dw_mutex w) t'.
Proof. intros Ht t'. by case_decide; subst. Qed.

Ltac turn := eapply turn_inv; eauto using held_same; try (intros ? [=]; done); try done.

Lemma thread_turn_inv w t :
  device_inv w ->
  match thread_turn w t with
  | Val (Some w') => device_inv w'
  | Val None => (forall th, dw_threads w !! t = Some th -> returned th) \/ waits w t
  | _ => False
  end.
Proof.
  intros Hinv. pose proof Hinv as [Hatt Hsv Hl Hal Hin Hc]. unfold thread_turn.
  destruct (dw_threads w !! t) as [[c k f]|] eqn:Ht; [|by left]. simpl.
  destruct (actions_of c !! k) as [a|] eqn:Ha; [|left; by intros ? [= <-]].
  pose proof (Hl t) as Hlt. rewrite Ht in Hlt. simpl in Hlt.
  pose proof (fun p Hp => Hin t _ p Ht Hp) as Hint. simpl in Hint.
  pose proof (Hc t _ Ht) as Hct. simpl in Hct.
  assert (holds (mkRegistryThread c k f) <> Some Held_shared -> f = None) as Hf.
  { intros Hn. destruct f as [p|]; [|done]. by destruct (Hint p eq_refl). }
  destruct c as [d data ex env|d now|d p|d]; destruct k as [|[|[|[|k]]]]; try done; simpl in Ha;
    injection Ha as <-; simpl in Hlt, Hint; try (specialize (Hf ltac:(done)); subst f); cbn [take_action].
  - destruct (lock_shared _ t) as [m'|] eqn:Hlock; simpl; [|right; by eapply lock_shared_waits].
    destruct (lock_shared_held _ _ _ Hlt Hlock). turn.
  - turn. simpl. intros p Hp. split; [done|].
    by apply find_publisher_attached in Hp.
  - destruct f as [p|].
    + destruct (Hint p eq_refl) as [_ [d0 Hd0]]. destruct (Hatt d0 p Hd0) as [s Hs]. rewrite Hs.
      destruct (encoded_answers s data ex env (Hsv p s Hs) Hct) as (reply & s' & -> & Hs' & _).
      rewrite !bind_val. simpl. turn.
      * intros p' Hp'. rewrite lookup_insert_is_Some. destruct (decide (p = p')); [by left|by right].
      * intros p' s0 [[? ?]|[? Hq]]%lookup_insert_Some; [by simplify_eq|by eapply Hsv].
      * intros d' p' Hd'. rewrite lookup_insert_is_Some. destruct (decide (p = p')); [by left|right; split; [done|by eapply Hatt]].
    + destruct (unattached_total data) as [reply ->]. rewrite !bind_val. simpl.
      turn.
  - destruct (unlock_shared_held _ t Hlt Hal). turn.
  - destruct (lock_shared _ t) as [m'|] eqn:Hlock; simpl; [|right; by eapply lock_shared_waits].
    destruct (lock_shared_held _ _ _ Hlt Hlock). turn.
  - turn. simpl. intros p Hp. split; [done|].
    by apply find_publisher_attached in Hp.
  - destruct f as [p|].
    + destruct (Hint p eq_refl) as [_ [d0 Hd0]]. destruct (Hatt d0 p Hd0) as [s Hs]. rewrite Hs.
      turn.
    + turn.
  - destruct (unlock_shared_held _ t Hlt Hal). turn.
  - destruct (lock_unique _ t) as [m'|] eqn:Hlock; simpl; [|right; by eapply lock_unique_waits].
    destruct (lock_unique_held _ _ _ Hlock) as (_ & ? & ?). turn.
  - simpl. turn.
    unfold attach_publisher. intros d' p' [[? ?]|[? ?]]%lookup_insert_Some; [|by eapply Hatt].
    simplify_eq. apply Hct. by unfold returned.
  - simpl. destruct (unlock_unique_held _ t Hlt Hal). turn.
  - destruct (lock_unique _ t) as [m'|] eqn:Hlock; simpl; [|right; by eapply lock_unique_waits].
    destruct (lock_unique_held _ _ _ Hlock) as (_ & ? & ?). turn.
  - simpl. unfold detach_publisher. turn.
    + intros d' p' [? ?]%lookup_delete_Some. by eapply Hatt.
    + intros ? [= <-] _. apply lookup_delete_eq.
  - simpl. destruct (unlock_unique_held _ t Hlt Hal). turn.
Qed.
Lemma returned_holds th : returned th -> holds th = None.
Proof.
  destruct th as [[] k f]; unfold returned; simpl; destruct k as [|[|[|[|k]]]]; try done.
Qed.

Lemma device_step_inv w op :
  device_inv w -> device_ready w op ->
  match device_step w op with
  | Val (Some w') => device_inv w'
  | Val None => exists t, op = D_Turn t
  | _ => False
  end.
Proof.
  intros Hinv Hr. destruct w as [r ps m ts]. destruct op as [p s|p|t c|t]; simpl in *.
  - destruct Hinv as [Hatt Hsv Hl Hal Hin Hc], Hr as [Hs Hp]. simpl in *.
    assert (forall p', is_Some (ps !! p') -> is_Some (<[p := s]> ps !! p')) as Hps.
    { intros p' Hp'. rewrite lookup_insert_is_Some. destruct (decide (p = p')); [by left|by right]. }
    constructor; simpl; eauto.
    + intros p' s' [[? ?]|[? Hq]]%lookup_insert_Some; [by simplify_eq|by eapply Hsv].
    + intros t th Hth. specialize (Hc t th Hth). destruct (rt_call th); try done. auto.
  - destruct Hinv as [Hatt Hsv Hl Hal Hin Hc], Hr as [Hno Hpend]. simpl in *. constructor; simpl; eauto.
    + intros d p' Hd. rewrite lookup_delete_ne; [by eapply Hatt|]. intros ->. by eapply Hno.
    + intros p' s' [? ?]%lookup_delete_Some. by eapply Hsv.
    + intros t th Hth. specialize (Hc t th Hth). destruct (rt_call th) as [| |d p'|] eqn:Hcall; try done.
      intros Hnr. rewrite lookup_delete_ne; [by apply Hc|]. intros ->. by apply Hnr, (Hpend t th d).
  - destruct Hinv as [Hatt Hsv Hl Hal Hin Hc], Hr as [Hfree Hcall]. simpl in *. constructor; simpl; eauto.
    + intros t'. rewrite Hl. destruct (decide (t' = t)) as [->|Hne]; [|by rewrite lookup_insert_ne].
      rewrite lookup_insert_eq. destruct (ts !! t) as [th|] eqn:Hth; simpl; [rewrite returned_holds by auto|];
        by destruct c.
    + intros t' th p [[<- <-]|[Hne Hth]]%lookup_insert_Some Hp; [done|by eapply Hin].
    + intros t' th [[<- <-]|[Hne Hth]]%lookup_insert_Some; [|by apply (Hc t')]. destruct c; simpl; done.
  - pose proof (thread_turn_inv _ t Hinv) as Ht. destruct (thread_turn _ t) as [[w'|]| |]; try done. by exists t.
Qed.

Lemma device_run_inv w w' : device_run w w' -> device_inv w -> device_inv w'.
Proof.
  induction 1 as [|w op w1 w2 Hr Hs _ IH]; [done|]. intros Hinv. apply IH.
  pose proof (device_step_inv w op Hinv Hr) as Hw. by rewrite Hs in Hw.
Qed.

Lemma device_inv_empty : device_inv device_world_empty.
Proof.
  constructor; simpl; try done; intros ? ?; by rewrite lookup_empty.
Qed.

(** C20: a publisher outlives every command inside it.  However devices are created
    and torn down while any number of commands and attribute reads arrive, interleaved
    at every action on the registry -- as long as a publisher is destroyed only when it
    is attached to no device -- no command and no read touches a publisher that is gone,
    and every publisher a thread has found and not left is alive.  When a thread
    returns from [detach_publisher], the device has no publisher and no command or read
    is inside any publisher.  And a thread that waits for the registry waits for one
    that can go on. *)
Theorem publisher_outlives_commands w (Hrun : device_run device_world_empty w) :
  (forall op, device_ready w op -> exists next, device_step w op = Val next) /\
  (forall t th p, dw_threads w !! t = Some th -> rt_found th = Some p -> is_Some (dw_publishers w !! p)) /\
  (forall t d f w', dw_threads w !! t = Some (mkRegistryThread (C_detach d) 2 f) ->
     thread_turn w t = Val (Some w') ->
     (exists th, dw_threads w' !! t = Some th /\ returned th) /\ dw_registry w' !! d = None /\
     forall t' th', dw_threads w' !! t' = Some th' -> rt_found th' = None) /\
  (forall t, waits w t -> exists t' w', t' <> t /\ thread_turn w t' = Val (Some w')).
Proof.
  pose proof (device_run_inv _ _ Hrun device_inv_empty) as Hinv. pose proof Hinv as [Hatt Hsv Hl Hal Hin Hc].
  split; [|split; [|split]].
  - intros op Hr. pose proof (device_step_inv w op Hinv Hr) as Hs.
    destruct (device_step w op) as [next| |]; [by exists next|done..].
  - intros t th p Hth Hp. destruct (Hin t th p Hth Hp) as [_ [d Hd]]. by eapply Hatt.
  - intros t d f w' Ht. unfold thread_turn. rewrite Ht. simpl. intros [= <-]. simpl.
    specialize (Hc t _ Ht). simpl in Hc. split; [|split; [by apply Hc|]].
    + eexists. split; [apply lookup_insert_eq|done].
    + intros t' th' [[_ <-]|[Hne Hth]]%lookup_insert_Some; [done|].
      destruct (rt_found th') as [p|] eqn:Hf; [|done]. destruct (Hin t' th' p Hth Hf) as [Hh _].
      pose proof (Hl t) as Hlt. pose proof (Hl t') as Hlt'. rewrite Ht in Hlt. rewrite Hth in Hlt'. simpl in *.
      rewrite Hh in Hlt'. by destruct Hne; symmetry; eapply held_unique_alone.
  - intros t (c & Ht & t' & Hne & Hh). exists t'. pose proof (thread_turn_inv w t' Hinv) as Hturn.
    rewrite Hl in Hh. destruct (dw_threads w !! t') as [th|] eqn:Hth; [|done]. simpl in Hh.
    destruct (thread_turn w t') as [[w'|]| |]; [by exists w'| |done..]. exfalso. apply Hh.
    destruct Hturn as [Hret|(c' & Hw & _)]; [by apply returned_holds, Hret|].
    rewrite Hth in Hw. injection Hw as ->. by destruct c'.
Qed.
End Lifetime.

#[local] Instance device_free_fifo : BoundedFifo (BoundedQueue nat) nat := ring_fifo 0%nat.
#[local] Instance device_item_fifo : BoundedFifo (BoundedQueue PublishItem) PublishItem := ring_fifo sample_item.

(** A device with its publisher; a command inside it and a thread that waits to
    detach it. *)
Abbreviation sample_found := {[8%nat := pw_impl sample_w0]}.
Definition sample_attach : registry_thread := mkRegistryThread (C_attach 3 8) 3 None.
Definition sample_inside : registry_thread :=
  mkRegistryThread (C_dispatch (Some 3%nat) [] (Some CT_Open) sample_outside) 2 (Some 8%nat).
Definition sample_waiting : registry_thread := mkRegistryThread (C_detach 3) 0 None.
Definition sample_device : device_world :=
  mkDeviceWorld {[3%nat := 8%nat]} sample_found (mkSharedMutex {[1%nat]} None)
    (<[2%nat := sample_waiting]> (<[1%nat := sample_inside]> {[0%nat := sample_attach]})).

Lemma sample_outside_ok : outside_ok sample_outside.
Proof. constructor; [by intros ? [= <-]|by intros ? [= <-]|done|]. split; [solve_enum|plain_text]. Qed.

Ltac run_op op := eapply (device_run_more _ op); [|reflexivity|].

Lemma sample_device_run : device_run device_world_empty sample_device.
Proof.
  run_op (D_Create (QS := BoundedQueue nat) (QP := BoundedQueue PublishItem) 8 (pw_impl sample_w0));
    [split; [apply sample_serving|done]|].
  run_op (D_Call (QS := BoundedQueue nat) (QP := BoundedQueue PublishItem) 0 (C_attach 3 8));
    [split; [by intros ? ?|by eexists]|].
  do 3 (run_op (D_Turn (QS := BoundedQueue nat) (QP := BoundedQueue PublishItem) 0); [done|]).
  run_op (D_Call (QS := BoundedQueue nat) (QP := BoundedQueue PublishItem) 1
    (C_dispatch (Some 3%nat) [] (Some CT_Open) sample_outside)); [split; [by intros ? ?|apply sample_outside_ok]|].
  do 2 (run_op (D_Turn (QS := BoundedQueue nat) (QP := BoundedQueue PublishItem) 1); [done|]).
  run_op (D_Call (QS := BoundedQueue nat) (QP := BoundedQueue PublishItem) 2 (C_detach 3));
    [by split; [intros ? ?|]|].
  apply device_run_none.
Qed.

(** The command inside the publisher goes on; the thread that detaches waits for it. *)
Lemma publisher_outlives_commands_witness :
  (exists next, device_step sample_device (D_Turn 1) = Val next) /\
  is_Some (dw_publishers sample_device !! 8%nat) /\
  (exists t' w', t' <> 2%nat /\ thread_turn sample_device t' = Val (Some w')).
Proof.
  destruct (publisher_outlives_commands sample_device sample_device_run) as (Hs & Hin & _ & Hw).
  split; [by apply Hs|]. split; [by apply (Hin 1%nat sample_inside)|]. apply (Hw 2%nat).
  exists (C_detach 3). split; [reflexivity|]. exists 1%nat. by split.
Defined.
