(* ===== verification/TangoClient.v ===== *)
(** * The client side of the Tango binding

    [src/tango/proxy_client.cpp]: discovery of a stream, the command channel, and
    [subscribe] up to [SubscriptionFactory::open].  The [DeviceProxy] is an interface,
    the class [DeviceProxy] below; times are nanoseconds of the steady clock, and no
    deadline is [None]. *)
From Stdlib Require Import Init.Byte.
From stdpp Require Import gmap list sets.
From S2P Require Import Prelude Enums Limits ByteOrder Geometry Text Protocol ProtocolSafety.
From S2P Require Import ProtocolRoundtrip Dispatch DataPlane Offer Config CreditWindow BoundedQueue.
From S2P Require Import DeliveryQueue PinnedLedger RegisteredRing ProducerSlots Publisher Coordination.
From S2P Require Import PublisherRuns ControlPath ClientSession Subscription TangoDevice.
#[local] Open Scope Z_scope.

(** ** The proxy *)

(** The error stack of a [DevFailed], each with its reason and description. *)
Abbreviation dev_failed := (list (bytes * bytes)).

(** What [read_attribute] returns. *)
Record DeviceAttribute : Type := mkDeviceAttribute {
  da_failed : option dev_failed;
  da_string_spectrum : bool;
  da_rows : option (list bytes);
  da_empty : bool
}.

(** [command_inout] returns the bytes of a [DevVarCharArray], or data that is none. *)
Class DeviceProxy (P : Type) : Type := {
  get_timeout_millis : P -> Z;
  set_timeout_millis : P -> Z -> option dev_failed * P;
  read_attribute : P -> bytes -> (DeviceAttribute + dev_failed) * P;
  command_inout : P -> bytes -> bytes -> (option bytes + dev_failed) * P
}.

(** What the binding relies on: a timeout that was set is the one there is, and
    neither a read nor a command changes it. *)
Class TimeoutKept (P : Type) `{DeviceProxy P} : Prop := {
  set_timeout_sets : forall p t p', set_timeout_millis p t = (None, p') -> get_timeout_millis p' = t;
  read_keeps_timeout : forall p name, get_timeout_millis (snd (read_attribute p name)) = get_timeout_millis p;
  command_keeps_timeout : forall p name data,
    get_timeout_millis (snd (command_inout p name data)) = get_timeout_millis p
}.

(** [static_cast<int>] of a [uint32_t]. *)
Definition int_of_u32 (z : Z) : Z := if z <? 2 ^ 31 then z else z - 2 ^ 32.

Definition describe_failed (f : dev_failed) : bytes :=
  match f with
  | [] => str "DevFailed with no error stack"
  | (reason, desc) :: _ => reason ++ str ": " ++ desc
  end.
Definition describe_errors (f : dev_failed) : bytes :=
  match f with
  | [] => str "BulkStreams read failed with no error stack"
  | (reason, desc) :: _ => reason ++ str ": " ++ desc
  end.

(** Milliseconds for a remaining time: rounded up, at least one. *)
Definition remaining_ms_up (remaining : Z) : Z :=
  let ms := Z.quot remaining 1000000 in
  Z.max 1 (if ms * 1000000 <? remaining then ms + 1 else ms).

Definition remaining_timeout_ms (deadline : option Z) (now fallback : Z) : Z :=
  match deadline with
  | None => fallback
  | Some deadline =>
      let remaining := deadline - now in
      if remaining <=? 0 then 0 else u32 (Z.min fallback (u64 (remaining_ms_up remaining)))
  end.

Section Client.
Context {P : Type} `{DeviceProxy P}.
Implicit Types p : P.

(** [ScopedTimeout] around [body]: the constructor throws when the timeout cannot be
    set, the destructor restores and ignores a failure. *)
Definition scoped_timeout {A} p (timeout_ms : Z) (body : P -> A * P) : (A + dev_failed) * P :=
  let previous := get_timeout_millis p in
  match set_timeout_millis p (int_of_u32 timeout_ms) with
  | (Some failure, p) => (inr failure, p)
  | (None, p) =>
      let '(a, p) := body p in
      (inl a, snd (set_timeout_millis p previous))
  end.

(** ** Discovery *)

Definition unavailable_offer (stream_name : bytes) (status : Status) (message : bytes) : StreamOffer :=
  let o := StreamOffer_default in
  mkStreamOffer (so_version o) stream_name (so_geometry o) (so_age_ms o) status message.

(** The loop over the rows. *)
Fixpoint find_offer (stream_name : bytes) (rows : list bytes) (found : option StreamOffer) : StreamOffer :=
  match rows with
  | [] =>
      match found with
      | Some offer => offer
      | None => unavailable_offer stream_name UnknownStream (str "stream was not present in BulkStreams")
      end
  | row :: rows =>
      let offer := from_bulk_stream_row row in
      if bool_decide (outcome_of offer = Malformed) || bool_decide (outcome_of offer = Unavailable)
      then offer
      else if bool_decide (so_stream_name offer = stream_name) then
        match found with
        | Some _ => mkStreamOffer (so_version offer) (so_stream_name offer) (so_geometry offer) (so_age_ms offer)
                      MalformedMessage (str "BulkStreams contains duplicate stream rows")
        | None => find_offer stream_name rows (Some offer)
        end
      else find_offer stream_name rows found
  end.

(** What [discover] makes of the attribute. *)
Definition offer_of_attribute (stream_name : bytes) (a : DeviceAttribute) : StreamOffer :=
  match da_failed a with
  | Some errors => unavailable_offer stream_name TransportFailure (describe_errors errors)
  | None =>
      if negb (da_string_spectrum a)
      then unavailable_offer stream_name MalformedMessage (str "BulkStreams is not a string spectrum") else
      match da_rows a with
      | None =>
          if da_empty a then unavailable_offer stream_name UnknownStream (str "BulkStreams is empty")
          else unavailable_offer stream_name MalformedMessage (str "BulkStreams could not be decoded")
      | Some [] => unavailable_offer stream_name UnknownStream (str "BulkStreams is empty")
      | Some rows => find_offer stream_name rows None
      end
  end.

Definition discover p (command_timeout_ms : Z) (stream_name : bytes) (deadline : option Z) (now : Z)
    : StreamOffer * P :=
  let timeout_ms := remaining_timeout_ms deadline now command_timeout_ms in
  if timeout_ms =? 0
  then (unavailable_offer stream_name TransportFailure (str "BulkStreams discovery deadline expired"), p) else
  let '(answer, p) := scoped_timeout p timeout_ms (fun p => read_attribute p (str "BulkStreams")) in
  (match answer with
   | inr failure | inl (inr failure) => unavailable_offer stream_name TransportFailure (describe_failed failure)
   | inl (inl attribute) => offer_of_attribute stream_name attribute
   end, p).

Definition discovery_failure_status (o : StreamOffer) : Status :=
  match outcome_of o with
  | Missing => UnknownStream
  | Stale => TransportFailure
  | Unsafe => ResourceExhausted
  | Malformed => if bool_decide (StreamOffer_validate o = Ok) then MalformedMessage else StreamOffer_validate o
  | Unavailable => if bool_decide (so_status o = Ok) then TransportFailure else so_status o
  | Available => Ok
  end.

(** ** The command channel *)

Definition name_for (names : CommandNames) (kind : CoordType) : option bytes :=
  match kind with
  | CT_Open => Some (cn_open names)
  | CT_Renew => Some (cn_renew names)
  | CT_Close => Some (cn_close names)
  | _ => None
  end.

(** The call, once the timeout is known. *)
Definition command_call p (name : bytes) (timeout_ms : Z) (request : bytes) : (bytes + raised) * P :=
  let '(answer, p) := scoped_timeout p timeout_ms (fun p => command_inout p name request) in
  (match answer with
   | inr failure | inl (inr failure) => inr (RaisedBulk (tango_error TransportFailure (describe_failed failure)))
   | inl (inl None) => inr (RaisedBulk (tango_error MalformedMessage (name ++ str " did not return a DevVarCharArray")))
   | inl (inl (Some reply)) => inl reply
   end, p).

Definition command p (names : CommandNames) (command_timeout_ms : Z) (kind : CoordType) (request : bytes)
    (deadline : option Z) (now : Z) : (bytes + raised) * P :=
  match name_for names kind with
  | None => (inr (RaisedBulk (tango_error Internal (str "no bulk command carries this coordination message"))), p)
  | Some name =>
      match deadline with
      | Some deadline =>
          if deadline - now <=? 0
          then (inr (RaisedBulk (tango_error TransportFailure (str "coordination deadline expired"))), p)
          else command_call p name (u32 (Z.min command_timeout_ms (u64 (remaining_ms_up (deadline - now))))) request
      | None => command_call p name command_timeout_ms request
      end
  end.

(** ** [subscribe] *)

(** [subscribe] up to the opening: the configuration it opens with, or the exception.
    [now] is the clock at the start, [now_read] when discovery looks at it. *)
Definition subscribe_config p (c : SubscriberConfig) (now now_read : Z) : (SubscriberConfig + BulkError) * P :=
  let status := SubscriberConfig_validate c in
  if bool_decide (status <> Ok)
  then (inr (tango_error status (str "invalid SubscriberConfig: " ++ Status_to_string status)), p) else
  match sc_discovery_offer c with
  | Some _ => (inl c, p)
  | None =>
      let deadline := now + sc_establishment_timeout_ms c * 1000000 in
      let '(offer, p) := discover p (sc_command_timeout_ms c) (sc_stream_name c) (Some deadline) now_read in
      if negb (available offer) then
        (inr (tango_error (discovery_failure_status offer)
                (if bool_decide (so_message offer = []) then str "BulkStreams discovery failed" else so_message offer)), p)
      else
      (inl (mkSubscriberConfig (sc_stream_name c) (sc_max_frame_bytes c) (sc_ring_depth c)
        (sc_credit_window c) (sc_delivery_queue_depth c) (sc_delivery_mode c) (sc_drop_policy c)
        (sc_reconnect_policy c) (sc_reconnect_max_attempts c) (sc_reconnect_backoff_ms c)
        (sc_command_timeout_ms c) (sc_establishment_timeout_ms c) (sc_probe_timeout_ms c)
        (sc_pinned_memory_limit_bytes c) (sc_ucx_tls c) (sc_engine_cpu_affinity c) (sc_receive_buffer c)
        (sc_receive_buffer_bytes c) (sc_receive_memory_kind c) (sc_receive_plan c) (Some offer)), p)
  end.
End Client.

(** ** Discovery *)

Lemma unavailable_not_available name st msg : st <> Ok -> available (unavailable_offer name st msg) = false.
Proof.
  intros Hst. apply bool_decide_eq_false_2. unfold outcome_of. cbn [so_status unavailable_offer].
  do 3 (case_bool_decide; [done|]). by rewrite (bool_decide_eq_true_2 (st <> Ok)).
Qed.

Lemma find_offer_spec name rows found :
  available (find_offer name rows found) = true ->
  let o := find_offer name rows found in
  Forall (fun row => outcome_of (from_bulk_stream_row row) <> Malformed /\
                     outcome_of (from_bulk_stream_row row) <> Unavailable) rows /\
  match found with
  | Some f => o = f /\ Forall (fun row => so_stream_name (from_bulk_stream_row row) <> name) rows
  | None => exists before row after, rows = before ++ row :: after /\ o = from_bulk_stream_row row /\
      so_stream_name o = name /\
      Forall (fun row => so_stream_name (from_bulk_stream_row row) <> name) (before ++ after)
  end.
Proof.
  revert found. induction rows as [|row rows IH]; intros found; cbn [find_offer].
  { destruct found as [f|]; [done|]. by rewrite unavailable_not_available. }
  case_bool_decide as Hm; [cbn [orb]; unfold available; rewrite Hm; by rewrite bool_decide_eq_false_2|].
  case_bool_decide as Hu; [cbn [orb]; unfold available; rewrite Hu; by rewrite bool_decide_eq_false_2|].
  cbn [orb]. case_bool_decide as Hn.
  - destruct found as [f|]; [by intros ?%bool_decide_eq_true|].
    intros Hav. destruct (IH (Some (from_bulk_stream_row row)) Hav) as (Hall & Ho & Hne).
    split; [by constructor|]. exists [], row, rows. split; [done|]. split; [done|]. split; [by rewrite Ho|done].
  - intros Hav. destruct (IH found Hav) as (Hall & Hf). split; [by constructor|].
    destruct found as [f|]; [destruct Hf; split; [done|by constructor]|].
    destruct Hf as (before & r & after & -> & Ho & Hname & Hne). exists (row :: before), r, after.
    split; [done|]. split; [done|]. split; [done|]. by constructor.
Qed.

(** whatever a device publishes, the offer that discovery returns as available is
    one of its rows, the only one for the stream that was asked for, with a valid name
    and geometry; and no row of the attribute was malformed or unavailable. *)
Theorem discovered_offer_sound name a (Hav : available (offer_of_attribute name a) = true) :
  let o := offer_of_attribute name a in
  da_failed a = None /\ StreamOffer_validate o = Ok /\ so_stream_name o = name /\
  exists before row after, da_rows a = Some (before ++ row :: after) /\ o = from_bulk_stream_row row /\
    Forall (fun row => so_stream_name (from_bulk_stream_row row) <> name) (before ++ after) /\
    Forall (fun row => outcome_of (from_bulk_stream_row row) <> Malformed /\
                       outcome_of (from_bulk_stream_row row) <> Unavailable) (before ++ row :: after).
Proof.
  apply available_iff in Hav as Hv. unfold offer_of_attribute in *.
  destruct (da_failed a); [by rewrite unavailable_not_available in Hav|].
  destruct (negb _); [by rewrite unavailable_not_available in Hav|].
  destruct (da_rows a) as [[|row rows]|].
  - by rewrite unavailable_not_available in Hav.
  - destruct (find_offer_spec name (row :: rows) None Hav) as (Hall & before & r & after & Heq & Ho & Hn & Hne).
    split; [done|]. split; [done|]. split; [done|]. exists before, r, after. rewrite Heq in *. done.
  - by destruct (da_empty a); rewrite unavailable_not_available in Hav.
Qed.

(** What a device that publishes [rows] is read as. *)
Definition rows_attribute (rows : list bytes) : DeviceAttribute :=
  mkDeviceAttribute None true (match rows with [] => None | _ => Some rows end) (bool_decide (rows = [])).

Section Published.
Context {QS QP : Type} `{BoundedFifo QS nat} `{BoundedFifo QP PublishItem}.
Abbreviation Impl := (Impl QS QP).
Implicit Types s : Impl.

Lemma snapshot_offer_available s now :
  im_running s = true -> valid_stream_name (pc_stream_name (im_config s)) = true ->
  GeometryBlock_validate (current_geometry s) = Ok ->
  StreamOffer_validate (stream_offer (snapshot s now)) = Ok.
Proof.
  intros Hr Hn Hg. unfold stream_offer, snapshot, StreamOffer_validate. cbn -[GeometryBlock_validate valid_stream_name].
  rewrite Hr, Hn. cbn -[GeometryBlock_validate]. unfold Geometry_validate. simpl. exact Hg.
Qed.

(** C21: discovery and the device agree.  A running publisher with a valid name and
    geometry is found under its name with exactly the geometry its sessions are
    granted from, through the text of the attribute; one that is shutting down is
    reported as a stream that does not exist. *)
Theorem published_stream_discovered s now (Hs : serving s)
    (Hn : valid_stream_name (pc_stream_name (im_config s)) = true)
    (Hg : GeometryBlock_validate (current_geometry s) = Ok) :
  let name := pc_stream_name (im_config s) in
  let o := offer_of_attribute name (rows_attribute (bulk_streams_rows (snapshot s now))) in
  if im_running s
  then available o = true /\ so_geometry o = to_geometry (current_geometry s)
  else available o = false /\ discovery_failure_status o = UnknownStream.
Proof.
  cbv zeta. unfold bulk_streams_rows. destruct (im_running s) eqn:Hr.
  2:{ rewrite bool_decide_eq_false_2 by (unfold stream_offer, snapshot; simpl; by rewrite Hr).
      split; [by apply unavailable_not_available|done]. }
  pose proof (snapshot_offer_available s now Hr Hn Hg) as Hv. set (o := stream_offer (snapshot s now)) in *.
  apply available_iff in Hv as Hav.
  assert (so_status o = Ok /\ so_message o = [] /\ so_stream_name o = pc_stream_name (im_config s) /\
    so_geometry o = to_geometry (current_geometry s)) as (Ho1 & Ho2 & Ho3 & Ho4).
  { subst o. unfold stream_offer, snapshot. simpl. by rewrite Hr. }
  assert (offer_typed o) as Hty.
  { split; [done|]. rewrite Ho4. split; [apply (sv_geometry _ Hs)|done]. }
  rewrite bool_decide_eq_true_2 by done. unfold offer_of_attribute, rows_attribute. cbn [da_failed da_string_spectrum da_rows negb].
  cbn [find_offer]. rewrite (row_roundtrip o Hty Ho2 Hav). unfold available in Hav. apply bool_decide_eq_true in Hav as Ha.
  rewrite Ha. rewrite Ho3, (bool_decide_eq_true_2 (pc_stream_name _ = _)) by done.
  rewrite !bool_decide_eq_false_2 by done. cbn [orb]. split; [by apply bool_decide_eq_true_2|done].
Qed.
End Published.

(** ** Timeouts *)

(** the timeout of a call never outlasts the deadline: it is nothing once the
    deadline has passed and otherwise at least a millisecond, never more than the
    configured one, and within that the remaining time rounded up. *)
Theorem remaining_timeout_bounded deadline now fallback
    (Hf : in_range 32 fallback) (Hf1 : 1 <= fallback) (Hd : deadline - now < 2 ^ 63) :
  let t := remaining_timeout_ms (Some deadline) now fallback in
  (deadline <= now -> t = 0) /\
  (now < deadline -> 1 <= t <= fallback /\ (t < fallback -> (t - 1) * 1000000 < deadline - now <= t * 1000000)).
Proof.
  cbv zeta. unfold remaining_timeout_ms. destruct (Z.leb_spec (deadline - now) 0) as [Hle|Hlt]; [lia|].
  split; [lia|]. intros _. set (r := deadline - now) in *. unfold remaining_ms_up, in_range in *.
  rewrite Z.quot_div_nonneg by lia. pose proof (Z.div_mod r 1000000 ltac:(lia)) as Hm.
  pose proof (Z.mod_pos_bound r 1000000 ltac:(lia)) as Hb. set (q := r / 1000000) in *. clearbody q r.
  assert (0 <= q) by lia. set (up := Z.max 1 (if q * 1000000 <? r then q + 1 else q)).
  assert (1 <= up /\ (up - 1) * 1000000 < r <= up * 1000000 /\ up <= r) as (H1 & H2 & H3).
  { subst up. destruct (Z.ltb_spec (q * 1000000) r); lia. }
  clearbody up. rewrite (wrap_small 64) by (unfold in_range; lia).
  rewrite wrap_small by (unfold in_range; lia). lia.
Qed.

Lemma remaining_timeout_bounded_witness :
  remaining_timeout_ms (Some 2500001) 0 5000 = 3 /\ 1 <= remaining_timeout_ms (Some 2500001) 0 5000 <= 5000.
Proof.
  split; [by vm_compute|]. refine (proj1 (proj2 (remaining_timeout_bounded 2500001 0 5000 _ _ _) _)); try done; lia.
Defined.

Section Timeouts.
Context {P : Type} `{TimeoutKept P}.
Implicit Types p : P.

(** The proxy accepts a timeout. *)
Definition settable : Prop := forall p t, fst (set_timeout_millis p t) = None.

Lemma scoped_restores {A} p t (body : P -> A * P) :
  settable -> (forall p, get_timeout_millis (snd (body p)) = get_timeout_millis p) ->
  get_timeout_millis (snd (scoped_timeout p t body)) = get_timeout_millis p.
Proof.
  intros Hset Hbody. unfold scoped_timeout. destruct (set_timeout_millis p (int_of_u32 t)) as [f p1] eqn:H1.
  assert (f = None) as -> by (pose proof (Hset p (int_of_u32 t)) as Hs; by rewrite H1 in Hs).
  specialize (Hbody p1). destruct (body p1) as [a p2]. simpl.
  destruct (set_timeout_millis p2 (get_timeout_millis p)) as [f p3] eqn:H3. simpl.
  assert (f = None) as -> by (pose proof (Hset p2 (get_timeout_millis p)) as Hs; by rewrite H3 in Hs).
  by eapply set_timeout_sets.
Qed.

Lemma command_call_restores p name t request :
  settable -> get_timeout_millis (snd (command_call p name t request)) = get_timeout_millis p.
Proof.
  intros Hset. unfold command_call.
  pose proof (scoped_restores p t (fun p => command_inout p name request) Hset) as Hr.
  destruct (scoped_timeout p t _) as [answer p']. apply Hr. intros p0. apply command_keeps_timeout.
Qed.

(** a command or a discovery leaves the caller's proxy with the timeout it had, on
    every path: expired, failed, refused or answered. *)
Theorem proxy_timeout_restored p names timeout kind request deadline now name
    (Hset : settable) :
  get_timeout_millis (snd (command p names timeout kind request deadline now)) = get_timeout_millis p /\
  get_timeout_millis (snd (discover p timeout name deadline now)) = get_timeout_millis p.
Proof.
  split.
  - unfold command. destruct (name_for names kind); [|done]. destruct deadline as [d|]; [|by apply command_call_restores].
    destruct (_ <=? _); [done|by apply command_call_restores].
  - unfold discover. destruct (_ =? 0); [done|].
    pose proof (scoped_restores p (remaining_timeout_ms deadline now timeout) (fun p => read_attribute p (str "BulkStreams")) Hset) as Hr.
    destruct (scoped_timeout p _ _) as [answer p']. apply Hr. intros p0. apply read_keeps_timeout.
Qed.

(** The two halves of [ScopedTimeout]. *)
Definition scoped_begin p (timeout_ms : Z) : Z * P :=
  (get_timeout_millis p, snd (set_timeout_millis p (int_of_u32 timeout_ms))).
Definition scoped_end p (previous : Z) : P := snd (set_timeout_millis p previous).

(** two subscriptions that share a proxy do not: when the call of one begins during
    the call of the other and ends after it, the proxy is left with the timeout of a
    call, not with the caller's. *)
Theorem overlapping_calls_leak_timeout p ta tb (Hset : settable) :
  let '(previous_a, p1) := scoped_begin p ta in
  let '(previous_b, p2) := scoped_begin p1 tb in
  get_timeout_millis (scoped_end (scoped_end p2 previous_a) previous_b) = int_of_u32 ta.
Proof.
  unfold scoped_begin, scoped_end. cbv beta iota.
  assert (forall p t, get_timeout_millis (snd (set_timeout_millis p t)) = t) as Hs.
  { intros q t. destruct (set_timeout_millis q t) as [f q'] eqn:Hq. pose proof (Hset q t) as Hf. rewrite Hq in Hf.
    simpl in Hf. subst f. by eapply set_timeout_sets. }
  by rewrite !Hs.
Qed.
End Timeouts.

(** ** The device behind the proxy *)

Section Device.
Context {QS QP : Type} `{BoundedFifo QS nat} `{BoundedFifo QP PublishItem}.
Abbreviation Impl := (Impl QS QP).

(** The device a proxy is connected to: what its server holds, the commands of its
    class, and what the publisher meets outside. *)
Record DeviceSide : Type := mkDeviceSide {
  sd_device : nat;
  sd_registry : registry;
  sd_publishers : gmap nat Impl;
  sd_commands : list (option DeviceCommand);
  sd_env : open_env
}.
Definition sd_with_publishers (d : DeviceSide) ps : DeviceSide :=
  mkDeviceSide (sd_device d) (sd_registry d) ps (sd_commands d) (sd_env d).

(** The class has one command of that name, in any spelling. *)
Definition has_command (commands : list (option DeviceCommand)) (name : bytes) (c : DeviceCommand) : Prop :=
  Some c ∈ commands /\ lowercase (dc_name c) = lowercase name /\
  forall c', Some c' ∈ commands -> lowercase (dc_name c') = lowercase name -> c' = c.

(** What the binding relies on when the proxy is connected to a device ([connected]
    is the device the proxy stands for).  A timeout is a matter of the client.  A
    command the class has is executed with the bytes it was given, at most once, and
    what it returned comes back; or the call fails, before or after the device has
    executed it. *)
Class ConnectedProxy (P : Type) `{TimeoutKept P} (connected : P -> DeviceSide) : Prop := {
  timeout_is_local : forall p t, connected (snd (set_timeout_millis p t)) = connected p;
  command_executes : forall p name data c, has_command (sd_commands (connected p)) name c ->
    let d := connected p in
    let '(answer, p') := command_inout p name data in
    match command_execute (sd_registry d) (sd_publishers d) c (Some (sd_device d)) (Some data) (sd_env d) with
    | Val (reply, ps) =>
        match answer with
        | inl returned => returned = reply /\ connected p' = sd_with_publishers d ps
        | inr _ => connected p' = d \/ connected p' = sd_with_publishers d ps
        end
    | _ => True
    end
}.

Lemma resolve_command_none commands name :
  resolve_command commands name = None ->
  forall c, Some c ∈ commands -> lowercase (dc_name c) <> lowercase name.
Proof.
  induction commands as [|[c|] commands IH]; simpl; intros Hr c' Hin.
  - by apply elem_of_nil in Hin.
  - case_bool_decide as Hn; [done|]. apply elem_of_cons in Hin as [[= ->]|Hin]; [done|by apply IH].
  - apply elem_of_cons in Hin as [?|Hin]; [done|by apply IH].
Qed.

Lemma installed_door commands existing names kind :
  kind = CT_Open \/ kind = CT_Renew \/ kind = CT_Close ->
  install_bulk_commands existing names = Val commands ->
  exists name, name_for names kind = Some name /\ has_command commands name (mkDeviceCommand name (Some kind)).
Proof.
  intros Hk Hi. pose proof (installed_commands existing names) as Hin. rewrite Hi in Hin.
  destruct Hin as ((_ & Hnd & Hnone) & _).
  unfold install_bulk_commands in Hi. destruct (reject_collisions existing names); [|done..].
  rewrite bind_val in Hi. injection Hi as <-.
  assert (forall name, name ∈ [cn_open names; cn_renew names; cn_close names] ->
    forall c, Some c ∈ existing -> lowercase (dc_name c) <> lowercase name) as Hold.
  { intros name Hname. by apply resolve_command_none, Hnone. }
  assert (lowercase (cn_open names) <> lowercase (cn_renew names) /\
    lowercase (cn_open names) <> lowercase (cn_close names) /\ lowercase (cn_renew names) <> lowercase (cn_close names))
    as (D1 & D2 & D3).
  { apply list.NoDup_cons in Hnd as [Hn1 Hnd]. apply list.NoDup_cons in Hnd as [Hn2 _]. simpl in *. set_solver. }
  destruct Hk as [-> |[-> | ->]]; (eexists; split; [done|]; split; [|split; [done|]]);
    try (apply elem_of_app; right; unfold make_bulk_commands; simpl; set_solver);
    intros c' [Hin|Hin]%elem_of_app Hl; try (by exfalso; eapply Hold; [|exact Hin|exact Hl]; set_solver);
    unfold make_bulk_commands in Hin; simpl in Hin; set_unfold;
    destruct Hin as [Hin|[Hin|[Hin|Hin]]]; simplify_eq/=; congruence.
Qed.

(** ** A call of the channel *)

Section Call.
Context {P : Type} {connected : P -> DeviceSide} `{ConnectedProxy P connected}.
Implicit Types p : P.

(** [f] is what the proxy threw: when the timeout was set, or by the call that ran
    under it. *)
Definition raised_by p (timeout_ms : Z) (name request : bytes) (f : dev_failed) : Prop :=
  fst (set_timeout_millis p (int_of_u32 timeout_ms)) = Some f \/
  exists p1, get_timeout_millis p1 = int_of_u32 timeout_ms /\ fst (command_inout p1 name request) = inr f.

(** The call returned [reply] and the device became [after]; or the proxy threw, the
    caller gets that as a transport failure, and the device executed the call or did
    not. *)
Definition answered_by p (timeout_ms : Z) (name request reply : bytes) (after : DeviceSide)
    (result : (bytes + raised) * P) : Prop :=
  let '(r, p') := result in
  (r = inl reply /\ connected p' = after) \/
  (exists f, raised_by p timeout_ms name request f /\
     r = inr (RaisedBulk (tango_error TransportFailure (describe_failed f))) /\
     (connected p' = connected p \/ connected p' = after)).

Lemma connected_call p name reply timeout request expected ps :
  has_command (sd_commands (connected p)) name (mkDeviceCommand name expected) ->
  dispatch_coordination (sd_registry (connected p)) (sd_publishers (connected p))
    (Some (sd_device (connected p))) request expected (sd_env (connected p)) = Val (reply, ps) ->
  answered_by p timeout name request reply (sd_with_publishers (connected p) ps)
    (command_call p name timeout request).
Proof.
  intros Hcmd Hd. unfold command_call, scoped_timeout, answered_by, raised_by.
  pose proof (timeout_is_local p (int_of_u32 timeout)) as Hlocal.
  destruct (set_timeout_millis p (int_of_u32 timeout)) as [[f|] p1] eqn:Hset; simpl in Hlocal.
  { right. exists f. split; [by left|]. split; [done|]. by left. }
  apply set_timeout_sets in Hset as Ht. rewrite <-Hlocal in *.
  pose proof (command_executes p1 name request _ Hcmd) as Hexec. cbv zeta in Hexec.
  unfold command_execute in Hexec. cbn [dc_expected] in Hexec. rewrite Hd, bind_val in Hexec.
  destruct (command_inout p1 name request) as [answer p2] eqn:Hinout. cbv beta iota.
  pose proof (timeout_is_local p2 (get_timeout_millis p)) as Hback.
  destruct answer as [returned|f]; rewrite Hback.
  - destruct Hexec as [-> ->]. by left.
  - right. exists f. split; [right; exists p1; by rewrite Hinout|]. by split.
Qed.

(** How long a call may take, in milliseconds. *)
Definition call_time (deadline : option Z) (now timeout t : Z) : Prop :=
  match deadline with
  | None => t = timeout
  | Some d => 1 <= t <= timeout /\ (t < timeout -> (t - 1) * 1000000 < d - now <= t * 1000000)
  end.
Definition expired (deadline : option Z) (now : Z) : bool :=
  match deadline with Some d => d <=? now | None => false end.

(** C19: the Tango binding is transparent.  Take any proxy that keeps to what Tango
    documents ([ConnectedProxy]), connected to a device whose class has the bulk
    commands.  A call of the client's channel that comes after its deadline fails
    without reaching the device.  Any other is one call of the device, limited to the
    time that remains rounded up to a millisecond and to the configured timeout; with a
    publisher attached it is a call of the publisher's own boundary with the same bytes,
    for the message the command is the door for, and changes nothing else; before the
    publisher is attached it is answered with an error under the request's own
    correlation, which the client reads as a stream that does not exist.  The caller
    gets that reply, or, exactly when the proxy threw, a transport failure. *)
Theorem channel_refines_publisher p existing names timeout kind request deadline now
    (Hk : kind = CT_Open \/ kind = CT_Renew \/ kind = CT_Close)
    (Hc : install_bulk_commands existing names = Val (sd_commands (connected p)))
    (Ht : in_range 32 timeout) (Ht1 : 1 <= timeout)
    (Hd : forall d, deadline = Some d -> d - now < 2 ^ 63) :
  let d := connected p in
  let result := command p names timeout kind request deadline now in
  if expired deadline now
  then result = (inr (RaisedBulk (tango_error TransportFailure (str "coordination deadline expired"))), p)
  else exists name t, name_for names kind = Some name /\ call_time deadline now timeout t /\
  match sd_registry d !! sd_device d with
  | Some pub => forall s, sd_publishers d !! pub = Some s -> serving s -> outside_ok (sd_env d) ->
      exists reply s', handle_encoded_coordination s request (Some kind) (sd_env d) = Val (reply, s') /\
        answered_by p t name request reply
          (sd_with_publishers d (<[pub := s']> (sd_publishers d))) result
  | None => forall correlation env body, decode_envelope request Envelope_default = (env, Val body) ->
      env_correlation_id env = correlation -> in_range 64 correlation ->
      exists reply, answered_by p t name request reply d result /\
        reads reply correlation (Reply_Error (mkErrorMessage UnknownStream
          (str "no bulk publisher is attached to this device")))
  end.
Proof.
  cbv zeta. destruct (installed_door _ existing names kind Hk Hc) as (name & Hn & Hcmd).
  assert (expired deadline now = false -> exists t, call_time deadline now timeout t /\
    command p names timeout kind request deadline now = command_call p name t request) as Hcall.
  { unfold command, expired, call_time. rewrite Hn. destruct deadline as [d|]; [|by exists timeout].
    intros Hx%Z.leb_gt. destruct (Z.leb_spec (d - now) 0); [lia|]. eexists. split; [|done].
    pose proof (remaining_timeout_bounded d now timeout Ht Ht1 (Hd d eq_refl)) as [_ Hb].
    unfold remaining_timeout_ms in Hb. destruct (Z.leb_spec (d - now) 0); [lia|]. by apply Hb. }
  destruct (expired deadline now) eqn:Hx.
  { unfold command. rewrite Hn. destruct deadline as [d|]; [|done]. apply Z.leb_le in Hx.
    by rewrite (proj2 (Z.leb_le (d - now) 0)) by lia. }
  destruct (Hcall eq_refl) as (t & Htime & ->). exists name, t. split; [done|]. split; [done|].
  destruct (sd_registry (connected p) !! sd_device (connected p)) as [pub|] eqn:Hpub.
  - intros s Hs Hsv He.
    destruct (encoded_answers s request (Some kind) _ Hsv He) as (reply & s' & Hh & _).
    exists reply, s'. split; [done|]. eapply connected_call; [done|].
    unfold dispatch_coordination. simpl. by rewrite Hpub, Hs, Hh.
  - intros correlation env body Henv Hcor Hrange.
    destruct (error_reads UnknownStream (str "no bulk publisher is attached to this device") correlation)
      as (reply & Hr & Hreads); [solve_enum|plain_text|done|].
    exists reply. split; [|done].
    replace (connected p) with (sd_with_publishers (connected p) (sd_publishers (connected p)))
      by (by destruct (connected p)).
    eapply connected_call; [done|]. unfold dispatch_coordination, find_publisher.
    cbn [mbind option_bind]. rewrite Hpub. unfold unattached_reply. by rewrite Henv, Hcor, Hr.
Qed.
End Call.
End Device.

(** ** A concrete device *)

#[local] Instance served_free_fifo : BoundedFifo (BoundedQueue nat) nat := ring_fifo 0%nat.
#[local] Instance served_item_fifo : BoundedFifo (BoundedQueue PublishItem) PublishItem := ring_fifo sample_item.

(** A proxy in the process of its device: every call arrives and returns. *)
Abbreviation LocalDevice := (DeviceSide (QS := BoundedQueue nat) (QP := BoundedQueue PublishItem)).
Record LocalProxy : Type := mkLocalProxy { lx_timeout : Z; lx_device : LocalDevice }.

Definition no_such (what : bytes) : dev_failed := [(str "API_NotFound", what)].
Definition local_command (p : LocalProxy) (name request : bytes) : (option bytes + dev_failed) * LocalProxy :=
  let d := lx_device p in
  match resolve_command (sd_commands d) name with
  | None => (inr (no_such name), p)
  | Some c =>
      match command_execute (sd_registry d) (sd_publishers d) c (Some (sd_device d)) (Some request) (sd_env d) with
      | Val (reply, ps) => (inl reply, mkLocalProxy (lx_timeout p) (sd_with_publishers d ps))
      | _ => (inr (no_such name), p)
      end
  end.

#[local] Instance local_proxy : DeviceProxy LocalProxy := {
  get_timeout_millis := lx_timeout;
  set_timeout_millis p t := (None, mkLocalProxy t (lx_device p));
  read_attribute p name := (inr (no_such name), p);
  command_inout := local_command
}.
#[local] Instance local_proxy_kept : TimeoutKept LocalProxy.
Proof.
  constructor; [by intros p t p' [= <-]|done|].
  intros p name data. simpl. unfold local_command. destruct (resolve_command _ _); [|done].
  by destruct (command_execute _ _ _ _ _ _) as [[reply ps]| |].
Qed.
#[local] Instance local_proxy_connected : ConnectedProxy LocalProxy lx_device.
Proof.
  constructor; [done|]. intros p name data c (Hin & Hl & Huniq). simpl. unfold local_command.
  assert (resolve_command (sd_commands (lx_device p)) name = Some c) as ->.
  { destruct (resolve_command _ _) as [c'|] eqn:Hr.
    - f_equal. revert Hr Huniq. clear. induction (sd_commands (lx_device p)) as [|[c0|] l IH]; simpl; [done| |].
      + case_bool_decide; [intros [= ->] Hu; apply Hu; [by left|done]|]. intros Hr Hu. apply IH; [done|].
        intros c1 ?. apply Hu. by right.
      + intros Hr Hu. apply IH; [done|]. intros c1 ?. apply Hu. by right.
    - by destruct (resolve_command_none _ _ Hr c Hin). }
  unfold command_execute. by destruct (dispatch_coordination _ _ _ _ _ _) as [[reply ps]| |].
Qed.

Definition sample_commands : list (option DeviceCommand) :=
  [Some (mkDeviceCommand (str "State") None); Some (mkDeviceCommand (str "Status") None)].
Definition sample_proxy (attached : bool) : LocalProxy :=
  mkLocalProxy 3000 (mkDeviceSide 3 (if attached then {[3%nat := 8%nat]} else ∅) {[8%nat := pw_impl sample_w0]}
    (match install_bulk_commands sample_commands CommandNames_default with Val cs => cs | _ => [] end) sample_outside).

Definition sample_attribute : DeviceAttribute :=
  rows_attribute [to_bulk_stream_row sample_offer].

Lemma discovered_offer_sound_witness :
  available (offer_of_attribute (str "camera.1") sample_attribute) = true /\
  so_stream_name (offer_of_attribute (str "camera.1") sample_attribute) = str "camera.1".
Proof.
  assert (available (offer_of_attribute (str "camera.1") sample_attribute) = true) as Hav by (by vm_compute).
  split; [exact Hav|]. exact (proj1 (proj2 (proj2 (discovered_offer_sound _ sample_attribute Hav)))).
Defined.

Lemma published_stream_discovered_witness :
  let s := pw_impl sample_w0 in
  let o := offer_of_attribute (str "camera") (rows_attribute (bulk_streams_rows (snapshot s 5))) in
  available o = true /\ so_geometry o = to_geometry (current_geometry s).
Proof.
  apply (published_stream_discovered (pw_impl sample_w0) 5 sample_serving); by vm_compute.
Defined.

Lemma proxy_timeout_restored_witness :
  lx_timeout (snd (command (sample_proxy true) CommandNames_default 5000 CT_Open sample_open_bytes None 0)) = 3000 /\
  lx_timeout (snd (discover (sample_proxy true) 5000 (str "camera") None 0)) = 3000.
Proof.
  exact (proxy_timeout_restored (sample_proxy true) CommandNames_default 5000 CT_Open sample_open_bytes None 0
    (str "camera") (fun _ _ => eq_refl)).
Defined.

Lemma overlapping_calls_leak_timeout_witness :
  let '(previous_a, p1) := scoped_begin (sample_proxy true) 500 in
  let '(previous_b, p2) := scoped_begin p1 700 in
  lx_timeout (scoped_end (scoped_end p2 previous_a) previous_b) = 500.
Proof. exact (overlapping_calls_leak_timeout (sample_proxy true) 500 700 (fun _ _ => eq_refl)). Defined.

(** One call within a deadline of two and a half milliseconds. *)
Lemma channel_refines_publisher_witness :
  exists name t, name_for CommandNames_default CT_Open = Some name /\
    (1 <= t <= 5000 /\ (t < 5000 -> (t - 1) * 1000000 < 2500001 - 1 <= t * 1000000)) /\
    exists reply s', handle_encoded_coordination (pw_impl sample_w0) sample_open_bytes (Some CT_Open) sample_outside = Val (reply, s') /\
      answered_by (connected := lx_device) (sample_proxy true) t name sample_open_bytes reply
        (sd_with_publishers (lx_device (sample_proxy true)) (<[8%nat := s']> {[8%nat := pw_impl sample_w0]}))
        (command (sample_proxy true) CommandNames_default 5000 CT_Open sample_open_bytes (Some 2500001) 1).
Proof.
  destruct (channel_refines_publisher (connected := lx_device) (sample_proxy true) sample_commands
    CommandNames_default 5000 CT_Open sample_open_bytes (Some 2500001) 1
    (or_introl eq_refl) eq_refl ltac:(done) ltac:(lia) ltac:(by intros ? [= <-])) as (name & t & Hn & Ht & Hcall).
  exists name, t. split; [exact Hn|]. split; [exact Ht|].
  apply (Hcall (pw_impl sample_w0) eq_refl sample_serving).
  constructor; [by intros ? [= <-]|by intros ? [= <-]|done|]. split; [solve_enum|plain_text].
Defined.
