(* ===== verification/EngineTeardown.v ===== *)
(** * Tearing down the receive engine

    [drain_inflight_receives], [quiesce] and the destructor of
    [src/ucx/subscriber_engine.cpp].  UCX is an argument: what each call of
    [ucp_worker_progress] runs -- callbacks, and the application's views in between
    -- as a function of the engine, how many calls fit before a deadline, and how the
    flush ends. *)
From stdpp Require Import gmap list sets.
From S2P Require Import Prelude Enums Limits ByteOrder Geometry Protocol DataPlane CreditWindow BoundedQueue.
From S2P Require Import DeliveryQueue LeasePool FrameView SubscriberEngine EngineSafety.
#[local] Open Scope Z_scope.

Section Teardown.
Context {Q : Type} `{BoundedFifo Q Z}.
#[local] Existing Instance arena_sink.
Abbreviation Engine := (SubscriberEngine (Q := Q)).
Abbreviation ores := (outcome Status).
Implicit Types e : Engine.

(** ** Operations *)

(** One call of [ucp_worker_progress]. *)
Fixpoint worker_progress e (callbacks : list engine_event) : ores Engine :=
  match callbacks with
  | [] => Val e
  | ev :: callbacks => let! e := apply_event e ev in worker_progress e callbacks
  end.

(** The calls of one loop: how many fit before its deadline, and what each runs. *)
Record Calls : Type := mkCalls {
  cl_count : nat;
  cl_runs : nat -> Engine -> list engine_event
}.

(** [while(rndv_inflight_ > 0 && now < deadline) progress]. *)
Fixpoint receive_drain (calls k : nat) (runs : nat -> Engine -> list engine_event) e : ores Engine :=
  match calls with
  | O => Val e
  | S calls =>
      if 0 <? se_rndv_inflight e
      then let! e := worker_progress e (runs k e) in receive_drain calls (S k) runs e
      else Val e
  end.
Definition drain_inflight_receives e (c : Calls) : ores (bool * Engine) :=
  let! e := receive_drain (cl_count c) 0 (cl_runs c) e in
  Val (se_rndv_inflight e =? 0, e).

(** A loop on the status of a request: every call it makes. *)
Fixpoint request_loop (calls k : nat) (runs : nat -> Engine -> list engine_event) e : ores Engine :=
  match calls with
  | O => Val e
  | S calls => let! e := worker_progress e (runs k e) in request_loop calls (S k) runs e
  end.

Definition drop_endpoint e : Engine :=
  mkSubscriberEngine (se_memory_kind e) (se_slots e) (se_store e) (se_tracker e) (se_pending e)
    (se_rndv_inflight e) (se_closing e) (se_probe_token e) (se_probe_ack_pending e) (se_state e)
    (se_failure e) false (se_stream_id e) (se_granted e) (se_counters e).
Definition closed_state e : Engine :=
  mkSubscriberEngine (se_memory_kind e) (se_slots e) (se_store e) (se_tracker e) (se_pending e)
    (se_rndv_inflight e) (se_closing e) (se_probe_token e) (se_probe_ack_pending e) Sub_Closed
    (se_failure e) (se_endpoint e) (se_stream_id e) (se_granted e) (se_counters e).

(** [ucp_worker_flush_nbx]: an error, done at once, or a request that is looked at
    after the loop. *)
Inductive flush_answer : Type :=
| FlushError
| FlushDone
| FlushRequest (calls : Calls) (finished : bool).

Record quiesce_env : Type := mkQuiesceEnv {
  qe_first : Calls;
  qe_second : Calls;
  qe_close : Calls;
  qe_flush : flush_answer
}.

(** [quiesce]; the cancellations between the two drains only change what UCX runs in
    the second. *)
Definition quiesce e (env : quiesce_env) : ores (bool * Engine) :=
  let e := engine_closing e in
  let! (_, e) := drain_inflight_receives e (qe_first env) in
  let! (_, e) := drain_inflight_receives e (qe_second env) in
  let! e := (if se_endpoint e then
               let! e := request_loop (cl_count (qe_close env)) 0 (cl_runs (qe_close env)) e in
               Val (drop_endpoint e)
             else Val e) in
  let! (flushed, e) := (match qe_flush env with
    | FlushError => Val (false, e)
    | FlushDone => Val (true, e)
    | FlushRequest c finished =>
        let! e := request_loop (cl_count c) 0 (cl_runs c) e in Val (finished, e)
    end) in
  Val (flushed && (se_rndv_inflight e =? 0), e).

(** What becomes of the worker. *)
Inductive worker_fate : Type := WorkerDestroyed | WorkerQuarantined.

(** The destructor: [quiesce] is run by the engine thread on its way out, or by the
    destructor when there was none; a worker that is not quiet is kept for good, with
    the context and the arena. *)
Definition engine_destroy e (env : quiesce_env) : ores (worker_fate * Engine) :=
  let! (quiesced, e) := quiesce e env in
  Val (if quiesced then WorkerDestroyed else WorkerQuarantined, closed_state e).

(** ** Receives in flight *)

(** [rndv_inflight_] counts the slots with a request. *)
Definition inflight_exact e : Prop :=
  se_rndv_inflight e = Z.of_nat (length (pending_slots (se_pending e))).

(** [e'] has the endpoint of [e] and accepts frames when [e] does. *)
Definition same_gates e e' : Prop := se_closing e' = se_closing e /\ se_endpoint e' = se_endpoint e.

(** ... and the receives of [e]. *)
Definition same_receives e e' : Prop :=
  se_pending e' = se_pending e /\ se_rndv_inflight e' = se_rndv_inflight e /\ same_gates e e'.

#[local] Instance same_receives_preorder : PreOrder same_receives.
Proof. unfold same_receives, same_gates. split; [done|]. intros ???. intuition congruence. Qed.

Lemma same_receives_exact e e' : same_receives e e' -> inflight_exact e -> inflight_exact e'.
Proof. unfold inflight_exact. by intros (-> & -> & _). Qed.

(** [e'] has one receive more, or one less, at slot [i]. *)
Definition receive_changed e e' (i : nat) (pending : bool) (by_one : Z) : Prop :=
  se_pending e' = <[i := pending]> (se_pending e) /\ se_rndv_inflight e' = se_rndv_inflight e + by_one /\
  same_gates e e'.

Lemma receive_changed_same e e1 e' i b d :
  receive_changed e e1 i b d -> same_receives e1 e' -> receive_changed e e' i b d.
Proof. unfold receive_changed, same_receives, same_gates. intuition congruence. Qed.

Lemma land_payload_receives e i p e' : land_payload e i p = Val e' -> same_receives e e'.
Proof.
  unfold land_payload. destruct (slot_at e i) as [s| |]; [|done..]. rewrite bind_val.
  destruct (_ <? _); [done|]. by intros [= <-].
Qed.
Lemma commit_receives e i e' : commit e i = Val e' -> same_receives e e'.
Proof. unfold commit. destruct (slot_at e i) as [s| |]; [|done..]. rewrite bind_val. by intros [= <-]. Qed.
Lemma tracker_release_receives e z e' : tracker_release e z = Val e' -> same_receives e e'.
Proof. unfold tracker_release. destruct (release _ _) as [[r t]| |]; [|done..]. rewrite bind_val. by intros [= <-]. Qed.

(** A completion of a receive that was pending. *)
Lemma rndv_complete_receives e i landed e' :
  se_pending e !! i = Some true -> on_rndv_complete e i landed = Val e' ->
  receive_changed e e' i false (-1).
Proof.
  intros Hp. unfold on_rndv_complete. rewrite Hp. cbn [default from_option id]. set (e1 := with_pending e _ _).
  assert (receive_changed e e1 i false (-1)) as H1 by done. clearbody e1.
  pose proof (receive_changed_same e e1 e' i false (-1) H1) as Hsame.
  destruct landed as [p|].
  - destruct (land_payload e1 i p) as [e2| |] eqn:Hl; [|done..]. rewrite bind_val. intros Hc.
    apply land_payload_receives in Hl. apply commit_receives in Hc. apply Hsame. by transitivity e2.
  - destruct (slot_at e1 i) as [s| |]; [|done..]. rewrite bind_val. intros [= <-]. apply Hsame. done.
Qed.

Lemma receive_frame_receives e i slot frame d e' :
  se_pending e !! i = Some false -> receive_frame e i slot frame d = Val e' ->
  same_receives e e' \/
  receive_changed e e' i true 1.
Proof.
  intros Hp. unfold receive_frame. cbv zeta. set (e1 := set_slot e i _).
  assert (same_receives e e1) as H1 by done. clearbody e1. destruct d as [data|n start].
  - case_bool_decide.
    + set (e2 := set_slot e1 i _). assert (same_receives e1 e2) as H2 by done. clearbody e2.
      destruct (tracker_release e2 _) as [e3| |] eqn:Ht; [|done..]. rewrite bind_val. intros [= <-].
      apply tracker_release_receives in Ht. left. transitivity e3; [by transitivity e2; [transitivity e1|]|done].
    + destruct (land_payload e1 i data) as [e2| |] eqn:Hl; [|done..]. rewrite bind_val. intros Hc.
      apply land_payload_receives in Hl. apply commit_receives in Hc. left.
      transitivity e2; [by transitivity e1|exact Hc].
  - destruct (_ <? _); [done|]. destruct start as [|landed|].
    + intros [= <-]. by left.
    + destruct (land_payload e1 i landed) as [e2| |] eqn:Hl; [|done..]. rewrite bind_val. intros Hc.
      apply land_payload_receives in Hl. apply commit_receives in Hc. left. transitivity e2; [by transitivity e1|exact Hc].
    + intros [= <-]. right. destruct H1 as (Hp1 & Hi1 & Hg1). unfold receive_changed. simpl. by rewrite Hp1, Hi1.
Qed.

Lemma handle_frame_exact n xs e header d e' :
  engine_inv n [] e xs -> inflight_exact e -> handle_frame e header d = Val e' -> inflight_exact e'.
Proof.
  intros Hinv Hex. unfold handle_frame. destruct (se_closing e); [by intros [= <-]|].
  destruct (decode_FrameHeader header) as [frame|st|]; [|by intros [= <-]|done].
  destruct (negb _); [by intros [= <-]|]. cbv zeta. destruct (negb _); [by intros [= <-]|].
  assert (forall e1 z (k : Engine -> Engine), inflight_exact e1 -> (forall e2, same_receives e2 (k e2)) ->
    (let! e2 := tracker_release e1 z in Val (k e2)) = Val e' -> inflight_exact e') as Hrel.
  { intros e1 z k H1 Hk. destruct (tracker_release e1 z) as [e2| |] eqn:Ht; [|done..]. rewrite bind_val. intros [= <-].
    apply tracker_release_receives in Ht. eapply same_receives_exact; [apply Hk|]. by eapply same_receives_exact. }
  destruct (_ && _); [by apply Hrel|].
  destruct (negb _); [intros Ht; apply tracker_release_receives in Ht; by eapply same_receives_exact|].
  destruct (_ <? _); [intros Ht; apply tracker_release_receives in Ht; by eapply same_receives_exact|].
  destruct (_ =? 0); [done|]. set (i := Z.to_nat _). destruct (slot_at e i) as [slot| |] eqn:Hs; [|done..].
  rewrite bind_val. destruct (sl_occupied slot) eqn:Ho; [by intros [= <-]|]. cbn [orb].
  destruct (_ <? _); [by intros [= <-]|]. intros Hr.
  assert (se_slots e !! i = Some slot) as Hslot.
  { unfold slot_at in Hs. by destruct (se_slots e !! i); simplify_eq. }
  assert (se_pending e !! i = Some false) as Hp.
  { destruct (se_pending e !! i) as [[|]|] eqn:Hp; [|done|].
    - assert (i ∈ busy [] e xs) as Hb.
      { unfold busy. simpl. apply elem_of_app. left. by apply elem_of_pending. }
      apply (ei_occupied _ _ _ _ Hinv i slot Hslot) in Hb. congruence.
    - apply lookup_ge_None in Hp. apply lookup_lt_Some in Hslot. rewrite (ei_pending _ _ _ _ Hinv) in Hp. lia. }
  destruct (receive_frame_receives e i slot frame d e' Hp Hr) as [Hsame|(H1 & H2 & _)];
    [by eapply same_receives_exact|].
  unfold inflight_exact in *. rewrite H1, H2, (pending_set _ _ Hp). simpl. lia.
Qed.

Lemma drain_loop_receives fuel e e' : drain_loop fuel e = Val e' -> same_receives e e'.
Proof.
  revert e. induction fuel as [|fuel IH]; intros e; cbn [drain_loop]; [by intros [= <-]|].
  destruct (fifo_pop _) as [[z|] q]; [|by intros [= <-]]. cbv zeta. set (e1 := with_store e _).
  assert (same_receives e e1) as H1 by done. clearbody e1.
  destruct (if _ =? 0 then _ else _) as [e2| |] eqn:Hs; [|done..]. rewrite bind_val.
  assert (same_receives e1 e2) as H2.
  { destruct (_ =? 0); [by injection Hs as <-|]. destruct (slot_at e1 _) as [slot| |]; [|done..].
    rewrite bind_val in Hs. by injection Hs as <-. }
  destruct (tracker_release e2 z) as [e3| |] eqn:Ht; [|done..]. rewrite bind_val. intros Hd.
  apply tracker_release_receives in Ht. apply IH in Hd.
  transitivity e1; [done|]. transitivity e2; [done|]. by transitivity e3.
Qed.

(** Events that are not frames, nor completions, leave the receives alone. *)
Definition receive_event (ev : engine_event) : bool :=
  match ev with EvFrame _ _ | EvRndvComplete _ _ | EvClosing => true | _ => false end.
Lemma other_event_receives e ev e' :
  receive_event ev = false ->
  apply_event e ev = Val e' -> same_receives e e'.
Proof.
  destruct ev as [header d|i landed|header|sent| |sent| | |op]; intros Hev; try done; cbn [apply_event].
  - unfold on_probe_am. destruct (decode_ProbeMessage header) as [m|st|]; [|by intros [= <-]|done].
    destruct (negb _); by intros [= <-].
  - intros [= <-]. unfold send_pending_probe_ack. destruct (_ || _); [done|]. by destruct sent.
  - apply drain_loop_receives.
  - intros [= <-]. unfold send_pending_credit. destruct (negb _); [done|].
    destruct (take_pending_ack _) as [[ack|] t]; [|done]. by destruct sent.
  - by intros [= <-].
  - by intros [= <-].
Qed.

Lemma event_exact n xs e ev e' :
  engine_inv n [] e xs -> event_ok e ev -> inflight_exact e -> apply_event e ev = Val e' -> inflight_exact e'.
Proof.
  intros Hinv Hok Hex Hev. destruct ev as [header d|i landed|header|sent| |sent| | |op].
  - by eapply handle_frame_exact.
  - destruct Hok as [Hp _]. destruct (rndv_complete_receives e i landed e' Hp Hev) as (H1 & H2 & _).
    unfold inflight_exact in *. rewrite H1, H2. pose proof (Permutation_length (pending_clear _ _ Hp)) as Hl.
    simpl in Hl. lia.
  - eapply same_receives_exact; [by eapply (other_event_receives e (EvProbe header))|done].
  - eapply same_receives_exact; [by eapply (other_event_receives e (EvProbeAck sent))|done].
  - eapply same_receives_exact; [by eapply (other_event_receives e EvDrain)|done].
  - eapply same_receives_exact; [by eapply (other_event_receives e (EvSendCredit sent))|done].
  - eapply same_receives_exact; [by eapply (other_event_receives e EvCreditFailed)|done].
  - injection Hev as <-. done.
  - eapply same_receives_exact; [by eapply (other_event_receives e (EvView op))|done].
Qed.
(** ** A closing engine *)

(** What [quiesce] keeps: the engine is sound, [rndv_inflight_] is exact, and no frame is
    accepted. *)
Definition closing_inv n e : Prop :=
  (exists xs, engine_inv n [] e xs) /\ inflight_exact e /\ se_closing e = true.

(** How many receives an event completes. *)
Definition completes (ev : engine_event) : Z := match ev with EvRndvComplete _ _ => 1 | _ => 0 end.

(** A closing engine stays closing, and an event completes receives but starts none. *)
Lemma event_gates e ev e' :
  se_closing e = true -> event_ok e ev -> apply_event e ev = Val e' ->
  se_closing e' = true /\ se_endpoint e' = se_endpoint e /\
  se_rndv_inflight e' = se_rndv_inflight e - completes ev.
Proof.
  intros Hcl Hok Hev.
  assert (same_receives e e' -> completes ev = 0 -> se_closing e' = true /\ se_endpoint e' = se_endpoint e /\
    se_rndv_inflight e' = se_rndv_inflight e - completes ev) as Hsame.
  { intros (_ & -> & -> & ->) ->. rewrite Z.sub_0_r. done. }
  destruct (receive_event ev) eqn:Ho.
  2: { apply Hsame; [by eapply other_event_receives|by destruct ev]. }
  destruct ev as [header d|i landed| | | | | | |]; try done.
  - apply Hsame; [|done]. cbn [apply_event] in Hev. unfold handle_frame in Hev. rewrite Hcl in Hev.
    by injection Hev as <-.
  - destruct Hok as [Hp _]. destruct (rndv_complete_receives e i landed e' Hp Hev) as (_ & -> & -> & ->).
    done.
  - injection Hev as <-. cbn [completes]. rewrite Z.sub_0_r. done.
Qed.

(** An event a closing engine handles starts no receive: frames are refused, so none is
    charged to the sequence budget either. *)
Lemma closing_event n e ev :
  closing_inv n e -> event_ok e ev ->
  exists e', apply_event e ev = Val e' /\ closing_inv n e' /\ se_endpoint e' = se_endpoint e /\
    se_rndv_inflight e' = se_rndv_inflight e - completes ev.
Proof.
  intros ((xs & Hinv) & Hex & Hcl) Hok.
  assert (forall header d, ev = EvFrame header d -> apply_event e ev = Val e) as Hframe.
  { intros header d ->. cbn [apply_event]. unfold handle_frame. by rewrite Hcl. }
  assert (exists e' xs', apply_event e ev = Val e' /\ engine_inv n [] e' xs') as (e' & xs' & Hev & Hinv').
  { destruct (decide (frames_of ev = 0%nat)) as [H0|H1].
    - destruct (event_inv n e xs ev) as (e' & xs' & ? & ? & _); [by rewrite H0|done|by exists e', xs'].
    - destruct ev as [header d| | | | | | | |]; try done. exists e, xs. by rewrite (Hframe header d). }
  exists e'. split; [done|]. pose proof (event_exact _ _ _ _ _ Hinv Hok Hex Hev) as Hex'.
  destruct (event_gates e ev e' Hcl Hok Hev) as (Hc & He & Hn).
  split; [split; [by exists xs'|by split]|by split].
Qed.

(** What UCX is assumed to run in a call: events that are possible when they run. *)
Fixpoint callbacks_ok e (callbacks : list engine_event) : Prop :=
  match callbacks with
  | [] => True
  | ev :: callbacks => event_ok e ev /\ forall e', apply_event e ev = Val e' -> callbacks_ok e' callbacks
  end.
Definition calls_ok (runs : nat -> Engine -> list engine_event) : Prop :=
  forall k e, se_closing e = true -> callbacks_ok e (runs k e).

Definition completed (callbacks : list engine_event) : Z := foldr Z.add 0 (completes <$> callbacks).

Lemma completed_cons ev callbacks : completed (ev :: callbacks) = completes ev + completed callbacks.
Proof. done. Qed.
Lemma completed_nonneg callbacks : 0 <= completed callbacks.
Proof.
  induction callbacks as [|ev callbacks IH]; [done|]. rewrite completed_cons.
  assert (0 <= completes ev) by by destruct ev. lia.
Qed.

Lemma inflight_nonneg n e : closing_inv n e -> 0 <= se_rndv_inflight e.
Proof. intros (_ & Hex & _). unfold inflight_exact in Hex. lia. Qed.

Lemma progress_ok n callbacks e :
  closing_inv n e -> callbacks_ok e callbacks ->
  exists e', worker_progress e callbacks = Val e' /\ closing_inv n e' /\ se_endpoint e' = se_endpoint e /\
    se_rndv_inflight e' = se_rndv_inflight e - completed callbacks.
Proof.
  revert e. induction callbacks as [|ev callbacks IH]; intros e Hinv Hok; cbn [worker_progress].
  - exists e. unfold completed. simpl. rewrite Z.sub_0_r. done.
  - destruct Hok as [Hok Hrest]. destruct (closing_event n e ev Hinv Hok) as (e1 & Hev & Hinv1 & He1 & H1).
    rewrite Hev, bind_val. destruct (IH e1 Hinv1 (Hrest e1 Hev)) as (e' & Hp & Hinv' & He' & H').
    exists e'. split; [done|]. split; [done|]. split; [congruence|]. rewrite completed_cons. lia.
Qed.

(** The receives a call completes while some are in flight. *)
Definition serves (runs : nat -> Engine -> list engine_event) : Prop :=
  forall k e, pending_slots (se_pending e) <> [] -> 0 < completed (runs k e).

Lemma receive_drain_ok n runs calls k e :
  closing_inv n e -> calls_ok runs ->
  exists e', receive_drain calls k runs e = Val e' /\ closing_inv n e' /\ se_endpoint e' = se_endpoint e /\
    se_rndv_inflight e' <= se_rndv_inflight e /\
    (serves runs -> se_rndv_inflight e <= Z.of_nat calls -> se_rndv_inflight e' = 0).
Proof.
  intros Hinv Hok. revert k e Hinv. induction calls as [|calls IH]; intros k e Hinv; cbn [receive_drain].
  - exists e. pose proof (inflight_nonneg _ _ Hinv). repeat (split; [done|]). lia.
  - destruct (Z.ltb_spec 0 (se_rndv_inflight e)) as [Hpos|Hz].
    + destruct (progress_ok n (runs k e) e Hinv) as (e1 & Hp & Hinv1 & He1 & H1);
        [apply Hok, Hinv|]. rewrite Hp, bind_val.
      destruct (IH (S k) e1 Hinv1) as (e' & Hd & Hinv' & He' & Hle & Hlive). exists e'. split; [done|].
      split; [done|]. split; [congruence|]. pose proof (completed_nonneg (runs k e)). split; [lia|].
      intros Hs Hc. apply Hlive; [done|]. enough (0 < completed (runs k e)) by lia. apply Hs.
      destruct Hinv as (_ & Hex & _). unfold inflight_exact in Hex. intros Hnone. rewrite Hnone in Hex. simpl in Hex. lia.
    + exists e. pose proof (inflight_nonneg _ _ Hinv). repeat (split; [done|]). lia.
Qed.

Lemma request_loop_ok n runs calls k e :
  closing_inv n e -> calls_ok runs ->
  exists e', request_loop calls k runs e = Val e' /\ closing_inv n e' /\ se_endpoint e' = se_endpoint e /\
    se_rndv_inflight e' <= se_rndv_inflight e.
Proof.
  intros Hinv Hok. revert k e Hinv. induction calls as [|calls IH]; intros k e Hinv; cbn [request_loop].
  - by exists e.
  - destruct (progress_ok n (runs k e) e Hinv) as (e1 & Hp & Hinv1 & He1 & H1);
      [apply Hok, Hinv|]. rewrite Hp, bind_val.
    destruct (IH (S k) e1 Hinv1) as (e' & Hd & Hinv' & He' & Hle). exists e'. split; [done|].
    split; [done|]. split; [congruence|]. pose proof (completed_nonneg (runs k e)). lia.
Qed.

(** The flush runs what it may, and whether it ends. *)
Definition flush_ok (f : flush_answer) : Prop :=
  match f with FlushRequest c _ => calls_ok (cl_runs c) | _ => True end.
Definition flush_ends (f : flush_answer) : bool :=
  match f with FlushError => false | FlushDone => true | FlushRequest _ finished => finished end.
Record env_ok (env : quiesce_env) : Prop := {
  eo_first : calls_ok (cl_runs (qe_first env));
  eo_second : calls_ok (cl_runs (qe_second env));
  eo_close : calls_ok (cl_runs (qe_close env));
  eo_flush : flush_ok (qe_flush env)
}.

Lemma drain_inflight_ok n e c :
  closing_inv n e -> calls_ok (cl_runs c) ->
  exists b e', drain_inflight_receives e c = Val (b, e') /\ closing_inv n e' /\ se_endpoint e' = se_endpoint e /\
    se_rndv_inflight e' <= se_rndv_inflight e /\
    (serves (cl_runs c) -> se_rndv_inflight e <= Z.of_nat (cl_count c) -> se_rndv_inflight e' = 0).
Proof.
  intros Hinv Hok. unfold drain_inflight_receives.
  destruct (receive_drain_ok n (cl_runs c) (cl_count c) 0 e Hinv Hok) as (e' & -> & Hd). rewrite bind_val.
  by eexists _, e'.
Qed.

Lemma close_endpoint_ok n e c :
  closing_inv n e -> calls_ok (cl_runs c) ->
  exists e', (if se_endpoint e then
                let! e := request_loop (cl_count c) 0 (cl_runs c) e in Val (drop_endpoint e)
              else Val e) = (Val e' : ores Engine) /\
    closing_inv n e' /\ se_endpoint e' = false /\ se_rndv_inflight e' <= se_rndv_inflight e.
Proof.
  intros Hinv Hok. destruct (se_endpoint e) eqn:He; [|by exists e].
  destruct (request_loop_ok n (cl_runs c) (cl_count c) 0 e Hinv Hok) as (e' & -> & Hinv' & _ & Hle).
  rewrite bind_val. eexists. split; [done|]. split; [|by split].
  destruct Hinv' as ((xs & Hi) & Hex & Hcl). split; [|by split]. exists xs.
  by apply (inv_quiet n n [] e'); [lia| | |apply Hi].
Qed.

Lemma flush_worker_ok n e f :
  closing_inv n e -> flush_ok f ->
  exists e', (match f with
    | FlushError => Val (false, e)
    | FlushDone => Val (true, e)
    | FlushRequest c finished =>
        let! e := request_loop (cl_count c) 0 (cl_runs c) e in Val (finished, e)
    end) = (Val (flush_ends f, e') : ores (bool * Engine)) /\
    closing_inv n e' /\ se_endpoint e' = se_endpoint e /\ se_rndv_inflight e' <= se_rndv_inflight e.
Proof.
  intros Hinv Hok. destruct f as [| |c finished]; [by exists e..|].
  destruct (request_loop_ok n (cl_runs c) (cl_count c) 0 e Hinv Hok) as (e' & -> & Hinv' & He & Hle).
  rewrite bind_val. by exists e'.
Qed.

Lemma quiesce_ok n xs e env :
  engine_inv n [] e xs -> inflight_exact e -> env_ok env ->
  exists b e', quiesce e env = Val (b, e') /\ closing_inv n e' /\ se_endpoint e' = false /\
    (b = true -> se_rndv_inflight e' = 0) /\
    (serves (cl_runs (qe_first env)) -> se_rndv_inflight e <= Z.of_nat (cl_count (qe_first env)) ->
     b = flush_ends (qe_flush env)).
Proof.
  intros Hinv Hex [H1 H2 H3 H4]. unfold quiesce.
  assert (closing_inv n (engine_closing e)) as Hc.
  { split; [|by split]. exists xs. by apply (inv_quiet n n [] e); [lia| | |apply Hinv]. }
  destruct (drain_inflight_ok n _ _ Hc H1) as (b1 & e1 & -> & Hc1 & _ & _ & Hlive). rewrite bind_val.
  destruct (drain_inflight_ok n _ _ Hc1 H2) as (b2 & e2 & -> & Hc2 & _ & Hle2 & _). rewrite bind_val.
  destruct (close_endpoint_ok n _ _ Hc2 H3) as (e3 & -> & Hc3 & He3 & Hle3). rewrite bind_val.
  destruct (flush_worker_ok n _ _ Hc3 H4) as (e4 & -> & Hc4 & He4 & Hle4). rewrite bind_val.
  eexists _, e4. split; [done|]. split; [done|]. split; [congruence|]. split.
  - intros [_ Hz]%andb_true_iff. lia.
  - intros Hs Hn. specialize (Hlive Hs Hn). pose proof (inflight_nonneg _ _ Hc4).
    replace (se_rndv_inflight e4 =? 0) with true by lia. apply andb_true_r.
Qed.

Lemma engine_run_exact n k e e' xs :
  engine_inv (k + n) [] e xs -> inflight_exact e -> engine_run k e e' -> inflight_exact e'.
Proof.
  intros Hinv Hex Hrun. revert xs Hinv Hex. induction Hrun as [e|k e ev e1 e' Hok Hev Hrun IH]; intros xs Hinv Hex; [done|].
  rewrite <-Nat.add_assoc in Hinv. destruct (event_inv (k + n) e xs ev Hinv Hok) as (e2 & xs2 & Hev2 & Hinv2 & _).
  rewrite Hev in Hev2. injection Hev2 as <-. apply (IH xs2); [done|]. exact (event_exact _ _ _ _ _ Hinv Hok Hex Hev).
Qed.
(** No receive in flight, none pending. *)
Lemma closing_idle n e : closing_inv n e -> se_rndv_inflight e = 0 -> forall i : nat, se_pending e !! i <> Some true.
Proof.
  intros (_ & Hex & _) Hz i Hi. apply elem_of_pending in Hi. unfold inflight_exact in Hex.
  destruct (pending_slots (se_pending e)) as [|j l]; [by apply elem_of_nil in Hi|simpl in *; lia].
Qed.

(** Where a session ends. *)
Lemma session_inv kind base slot_bytes depth (q : Q) stream_id granted n k e :
  grant_fits depth slot_bytes granted -> fifo_repr (k + n) q [] -> Z.of_nat depth <= fifo_capacity q ->
  engine_run k (activated kind base slot_bytes depth q stream_id granted) e ->
  exists xs, engine_inv n [] e xs /\ inflight_exact e.
Proof.
  intros Hg Hq Hc Hr.
  pose proof (activated_inv (k + n) kind base slot_bytes depth q stream_id granted Hg Hq Hc) as H0.
  assert (inflight_exact (activated kind base slot_bytes depth q stream_id granted)) as Hex0.
  { unfold inflight_exact. pose proof (ei_busy _ _ _ _ H0). simpl.
    replace (pending_slots (replicate depth false)) with (@nil nat); [done|]. symmetry.
    apply elem_of_nil_inv. intros i. rewrite elem_of_pending, lookup_replicate. naive_solver. }
  destruct (engine_run_inv n k _ e [] H0 Hr) as [xs Hinv].
  exists xs. split; [done|]. by apply (engine_run_exact n k _ e [] H0 Hex0 Hr).
Qed.

(** Destroying the engine after a session: a worker that is destroyed has no receive in flight. *)
Lemma engine_destroy_ok n k kind base slot_bytes depth (q : Q) stream_id granted e env :
  grant_fits depth slot_bytes granted -> fifo_repr (k + n) q [] -> Z.of_nat depth <= fifo_capacity q ->
  engine_run k (activated kind base slot_bytes depth q stream_id granted) e -> env_ok env ->
  exists fate e', engine_destroy e env = Val (fate, e') /\
    (fate = WorkerDestroyed -> forall i : nat, se_pending e' !! i <> Some true).
Proof.
  intros Hg Hq Hc Hr Henv.
  destruct (session_inv kind base slot_bytes depth q stream_id granted n k e Hg Hq Hc Hr) as (xs & Hinv & Hex).
  destruct (quiesce_ok n xs e env Hinv Hex Henv) as (b & e' & Hqs & Hclosing & _ & Hz & _).
  unfold engine_destroy. rewrite Hqs, bind_val. eexists _, _. split; [done|].
  intros Hf i. destruct b; [|done]. by apply (closing_idle n e' Hclosing (Hz eq_refl)).
Qed.
End Teardown.

(** C7: tearing an engine down is safe whatever the publisher does meanwhile, and ends well
    when the transport serves.  From any state a session reaches, whatever callbacks run
    while the worker is progressed: [quiesce] touches no memory it should not and never
    overflows the credit queue, the endpoint is gone, the state is closed, and a worker that
    is destroyed has no receive in flight -- otherwise it is quarantined.  If every call of
    [ucp_worker_progress] completes one of the receives in flight, the first drain has a
    call for each of them and the flush ends, the worker is destroyed: frames that keep
    arriving start no receive. *)
Theorem engine_teardown_sound {Q} `{BoundedFifo Q Z} kind base slot_bytes depth (q : Q)
  stream_id granted n k e env
  (Hg : grant_fits depth slot_bytes granted) (Hq : fifo_repr (k + n) q [])
  (Hc : Z.of_nat depth <= fifo_capacity q)
  (Hr : engine_run k (activated kind base slot_bytes depth q stream_id granted) e)
  (Henv : env_ok env) :
  exists fate e', engine_destroy e env = Val (fate, e') /\
    as_assert_failed (vs_sink (se_store e')) = false /\
    se_endpoint e' = false /\ se_state e' = Sub_Closed /\
    (fate = WorkerDestroyed -> forall i : nat, se_pending e' !! i <> Some true) /\
    (serves (cl_runs (qe_first env)) -> se_rndv_inflight e <= Z.of_nat (cl_count (qe_first env)) ->
     flush_ends (qe_flush env) = true -> fate = WorkerDestroyed).
Proof.
  destruct (session_inv kind base slot_bytes depth q stream_id granted n k e Hg Hq Hc Hr) as (xs & Hinv & Hex).
  destruct (quiesce_ok n xs e env Hinv Hex Henv) as (b & e' & Hqs & Hclosing & He & Hz & Hl).
  pose proof (closing_idle n e' Hclosing) as Hidle. destruct Hclosing as ((xs' & Hinv') & _).
  unfold engine_destroy. rewrite Hqs, bind_val. eexists _, _. split; [done|]. split; [apply Hinv'|].
  split; [done|]. split; [done|]. split.
  - intros Hf. destruct b; [|done]. exact (Hidle (Hz eq_refl)).
  - intros Hs Hn Hf. by rewrite (Hl Hs Hn), Hf.
Qed.

(** A rendezvous receive is in flight; the publisher keeps sending frames, and each call of
    the worker fails one receive. *)
#[local] Existing Instance arena_sink.
#[local] Instance teardown_fifo : BoundedFifo (BoundedQueue Z) Z := ring_fifo 0.
Definition sample_rndv : engine_event :=
  EvFrame (FrameHeader_layout 0 [] sample_header) (Rndv 96 RndvInFlight).
Definition receiving_engine : SubscriberEngine :=
  match apply_event sample_start sample_rndv with Val e => e | _ => sample_start end.
Definition failing_runs (_ : nat) (e : SubscriberEngine (Q := BoundedQueue Z)) : list engine_event :=
  sample_rndv :: match pending_slots (se_pending e) with [] => [] | i :: _ => [EvRndvComplete i None] end.
Definition failing_env : quiesce_env :=
  mkQuiesceEnv (mkCalls 4 failing_runs) (mkCalls 4 failing_runs) (mkCalls 2 failing_runs)
    (FlushRequest (mkCalls 3 failing_runs) true).

Lemma failing_runs_ok : calls_ok failing_runs.
Proof.
  intros k e Hcl. unfold failing_runs. split; [done|]. intros e' Hev.
  unfold sample_rndv in Hev. cbn [apply_event] in Hev. unfold handle_frame in Hev. rewrite Hcl in Hev. injection Hev as <-.
  destruct (pending_slots (se_pending e)) as [|i l] eqn:Hp; [done|]. split; [|done]. split; [|done].
  apply elem_of_pending. rewrite Hp. by left.
Qed.

Lemma failing_runs_serve : serves failing_runs.
Proof.
  intros k e. unfold failing_runs. destruct (pending_slots (se_pending e)) as [|i l]; intros Hp.
  - exfalso. apply Hp. exact eq_refl.
  - rewrite !completed_cons. exact eq_refl.
Qed.

Lemma engine_teardown_sound_witness :
  se_rndv_inflight receiving_engine = 1 /\
  exists e', engine_destroy receiving_engine failing_env = Val (WorkerDestroyed, e') /\
    forall i : nat, se_pending e' !! i <> Some true.
Proof.
  split; [by vm_compute|].
  destruct (engine_teardown_sound Host 65536 4096 4 (BoundedQueue_new 0 8) 7 sample_grant 2 1
    receiving_engine failing_env sample_grant_fits sample_queue_repr ltac:(by vm_compute))
    as (fate & e' & Hd & _ & _ & _ & Hp & Hl).
  - apply (er_step 0 sample_start sample_rndv receiving_engine); [done|by vm_compute|constructor].
  - split; apply failing_runs_ok.
  - assert (fate = WorkerDestroyed) as ->.
    { apply Hl; [exact failing_runs_serve|vm_compute; discriminate|exact eq_refl]. }
    exists e'. split; [exact Hd|]. apply Hp. exact eq_refl.
Defined.
