(* ===== verification/UcxSetup.v ===== *)
(** * UCX set-up: contexts, workers, and the construction of a publisher

    [src/ucx/ucx_context.cpp], the constructor and the destructor of [BulkPublisher::Impl]
    and the schedule of its engine loop ([publisher_impl.cpp]), and the warning of
    [pinned_ledger.cpp].  What UCX answers is an argument; which handles the publisher
    has open is the state, and a call that UCX does not allow then -- releasing what is
    not there, cleaning up a context that is in use -- is a [Fault]. *)
From stdpp Require Import list gmap sets.
From S2P Require Import Prelude Enums Limits ByteOrder Geometry Text Config PinnedLedger.
From S2P Require Import DeliveryQueue RegisteredRing ProducerSlots Publisher PublisherRuns.

(** ** Handles and exceptions *)

(** The handles a publisher has open and the process's pinned total. *)
Record UcxState : Type := mkUcxState {
  ux_config : bool;
  ux_context : bool;
  ux_worker : bool;
  ux_address : bool;
  ux_memory : bool;
  ux_pinned : Z
}.
Definition ucx_closed (total : Z) : UcxState := mkUcxState false false false false false total.

(** A computation that may throw, on the handles. *)
Definition setup (A : Type) : Type := UcxState -> throws A * UcxState.
#[export] Instance setup_ret : MRet setup := fun A a u => (Val a, u).
#[export] Instance setup_bind : MBind setup := fun A B k m u =>
  match m u with
  | (Val a, u) => k a u
  | (Err e, u) => (Err e, u)
  | (Fault, u) => (Fault, u)
  end.
Definition throw {A} (e : BulkError) : setup A := fun u => (Err e, u).

(** A member that is constructed, and destroyed when what follows throws. *)
Definition member {A B} (construct : setup A) (destroy : A -> setup unit) (rest : A -> setup B) : setup B := fun u =>
  match construct u with
  | (Val a, u) =>
      match rest a u with
      | (Err e, u) => match destroy a u with (Fault, u) => (Fault, u) | (_, u) => (Err e, u) end
      | r => r
      end
  | (Err e, u) => (Err e, u)
  | (Fault, u) => (Fault, u)
  end.

(** A call of UCX: allowed or not, then its answer, [Some] text of a failure. *)
Definition ucx_call (allowed : UcxState -> bool) (effect : UcxState -> UcxState) : setup unit := fun u =>
  if allowed u then (Val tt, effect u) else (Fault, u).

Definition set_config (b : bool) (u : UcxState) : UcxState :=
  let '(mkUcxState _ c w a m t) := u in mkUcxState b c w a m t.
Definition set_context (b : bool) (u : UcxState) : UcxState :=
  let '(mkUcxState f _ w a m t) := u in mkUcxState f b w a m t.
Definition set_worker (b : bool) (u : UcxState) : UcxState :=
  let '(mkUcxState f c _ a m t) := u in mkUcxState f c b a m t.
Definition set_address (b : bool) (u : UcxState) : UcxState :=
  let '(mkUcxState f c w _ m t) := u in mkUcxState f c w b m t.
Definition set_memory (b : bool) (total : Z) (u : UcxState) : UcxState :=
  let '(mkUcxState f c w a _ _) := u in mkUcxState f c w a b total.

Definition ucp_config_read : setup unit := ucx_call (fun u => negb (ux_config u)) (set_config true).
Definition ucp_config_release : setup unit := ucx_call ux_config (set_config false).
Definition ucp_init : setup unit := ucx_call (fun u => ux_config u && negb (ux_context u)) (set_context true).
Definition ucp_cleanup : setup unit :=
  ucx_call (fun u => ux_context u && negb (ux_worker u) && negb (ux_memory u)) (set_context false).
Definition ucp_worker_create : setup unit := ucx_call (fun u => ux_context u && negb (ux_worker u)) (set_worker true).
(** A worker goes with its address given back. *)
Definition ucp_worker_destroy : setup unit := ucx_call (fun u => ux_worker u && negb (ux_address u)) (set_worker false).
Definition ucp_worker_query : setup unit := ucx_call (fun u => ux_worker u && negb (ux_address u)) (set_address true).
Definition ucp_worker_release_address : setup unit := ucx_call ux_address (set_address false).

(** ** [ucx_context.cpp] *)

(** [throw_ucx_error]; [status] is the text of the UCX status. *)
Definition ucx_error (what status origin : bytes) : BulkError :=
  mkBulkError TransportFailure (what ++ str ": " ++ status) origin.
Definition throw_ucx_error {A} (what status origin : bytes) : setup A := throw (ucx_error what status origin).

(** A call whose failure creates nothing. *)
Definition checked_call (call : setup unit) (failure : option bytes) (what : bytes) : setup unit :=
  match failure with Some status => throw_ucx_error what status (str "publisher") | None => call end.

Definition UcxContext_new (tls : bytes) (read modify init : option bytes) : setup unit :=
  checked_call ucp_config_read read (str "ucp_config_read");;
  (match tls, modify with
   | _ :: _, Some status => ucp_config_release;; throw_ucx_error (str "ucp_config_modify(TLS)") status (str "publisher")
   | _, _ => mret tt
   end);;
  match init with
  | Some status => ucp_config_release;; throw_ucx_error (str "ucp_init") status (str "publisher")
  | None => ucp_init;; ucp_config_release
  end.
Definition UcxContext_destroy : setup unit := fun u => if ux_context u then ucp_cleanup u else (Val tt, u).

Record UcxWorker : Type := mkUcxWorker { uw_address : bytes; uw_max_am_header : Z }.

(** [query] is a failure, or the address and the longest header. *)
Definition UcxWorker_new (create : option bytes) (query : bytes + bytes * Z) : setup UcxWorker :=
  checked_call ucp_worker_create create (str "ucp_worker_create");;
  match query with
  | inl status => ucp_worker_destroy;; throw_ucx_error (str "ucp_worker_query") status (str "publisher")
  | inr (address, max_am_header) =>
      ucp_worker_query;;
      ucp_worker_release_address;;
      if k_max_ucx_address_bytes <? Z.of_nat (length address) then
        ucp_worker_destroy;;
        throw (mkBulkError Internal (str "UCX worker address is " ++ to_string (Z.of_nat (length address)) ++
          str " bytes, above the protocol's 4096-byte field") (str "publisher"))
      else if max_am_header <? Z.of_nat k_frame_header_bytes then
        ucp_worker_destroy;;
        throw (mkBulkError Internal (str "transport reports max_am_header " ++ to_string max_am_header ++ str ", below the " ++
          to_string (Z.of_nat k_frame_header_bytes) ++ str "-byte frame header; this transport cannot carry the protocol")
          (str "publisher"))
      else mret (mkUcxWorker address max_am_header)
  end.
Definition UcxWorker_destroy : setup unit := fun u => if ux_worker u then ucp_worker_destroy u else (Val tt, u).

(** [create_endpoint]: [peer] is [None] for a null pointer; the endpoint or the failure. *)
Definition create_endpoint (peer : option bytes) (answer : bytes + Z) : throws Z :=
  match peer with
  | Some ((_ :: _) as address) =>
      if k_max_ucx_address_bytes <? Z.of_nat (length address)
      then Err (mkBulkError MalformedMessage (str "peer UCX address is empty or oversize") (str "protocol"))
      else match answer with
      | inl status => Err (ucx_error (str "ucp_ep_create") status (str "publisher"))
      | inr ep => Val ep
      end
  | _ => Err (mkBulkError MalformedMessage (str "peer UCX address is empty or oversize") (str "protocol"))
  end.

(** ** The publisher *)

(** Everything UCX answers while a publisher is constructed. *)
Record SetupAnswers : Type := mkSetupAnswers {
  an_config_read : option bytes;
  an_config_modify : option bytes;
  an_init : option bytes;
  an_worker_create : option bytes;
  an_worker_query : bytes + bytes * Z;
  an_map : ucx_map;
  an_map_status : bytes;
  an_set_credit_handler : option bytes;
  an_set_probe_ack_handler : option bytes
}.

(** The ring of [ProducerSlots], over a context. *)
Definition slots_ring (c : PublisherConfig) (a : SetupAnswers) : setup RegisteredRing := fun u =>
  if negb (ux_context u) then (Fault, u) else
  match ring_allocated (fun what origin => ucx_error what (an_map_status a) origin) (ux_pinned u) (pc_max_frame_bytes c)
          (pc_ring_depth c) (pc_pad_slot_stride c) (pc_pinned_memory_limit_bytes c) (str "publisher") (an_map a) with
  | (Val r, total) => (Val r, set_memory true total u)
  | (Err e, total) => (Err e, set_memory false total u)
  | (Fault, total) => (Fault, u)
  end.
Definition slots_ring_destroy (r : RegisteredRing) : setup unit := fun u =>
  if negb (ux_context u && ux_memory u) then (Fault, u)
  else (Val tt, set_memory false (snd (memory_release (ux_pinned u) (rr_memory r))) u).

Definition register_am_handlers (a : SetupAnswers) : setup unit :=
  let install failure what := match failure with
    | Some status => throw_ucx_error what status (str "publisher")
    | None => ucx_call ux_worker (fun u => u)
    end in
  install (an_set_credit_handler a) (str "set_am_recv_handler(credit)");;
  install (an_set_probe_ack_handler a) (str "set_am_recv_handler(probe_ack)").

(** [BulkPublisher(config)]: what the engine starts with. *)
Definition publisher_construct (config : PublisherConfig) (a : SetupAnswers)
    : setup (PublisherConfig * UcxWorker * RegisteredRing) := fun u =>
  match resolve_config config with
  | Err e => (Err e, u)
  | Fault => (Fault, u)
  | Val c =>
      member (UcxContext_new (pc_ucx_tls c) (an_config_read a) (an_config_modify a) (an_init a)) (fun _ => UcxContext_destroy)
        (fun _ => member (UcxWorker_new (an_worker_create a) (an_worker_query a)) (fun _ => UcxWorker_destroy)
          (fun w => member (slots_ring c a) slots_ring_destroy
            (fun r => register_am_handlers a;; mret (c, w, r)))) u
  end.

(** [~Impl] after the engine is joined: the worker first, then the members.  A handle
    of the application keeps the slots, and with them the context, until it goes. *)
Definition publisher_destruct (r : RegisteredRing) (handles : bool) : setup unit :=
  UcxWorker_destroy;;
  if handles then mret tt else slots_ring_destroy r;; UcxContext_destroy.
Definition last_handle_dropped (r : RegisteredRing) : setup unit := slots_ring_destroy r;; UcxContext_destroy.

(** ** The schedule of [engine_loop] *)

Inductive EngineCall : Type :=
| CallConnects | CallProbes | CallSubmit | CallSweep | CallProgress | CallYield.
#[export] Instance EngineCall_eq_dec : EqDecision EngineCall.
Proof. solve_decision. Defined.

Record EngineClock : Type := mkEngineClock { ec_idle : Z; ec_until_sweep : Z }.
Definition EngineClock_new : EngineClock := mkEngineClock 0 0.

(** One turn; [worked c] is whether call [c] did something. *)
Definition engine_turn (worked : EngineCall -> bool) (s : EngineClock) : list EngineCall * EngineClock :=
  let sweep := ec_until_sweep s =? 0 in
  let calls := [CallConnects; CallProbes; CallSubmit] ++ (if sweep then [CallSweep] else []) ++ [CallProgress] in
  let until_sweep := u32 ((if sweep then 256 else ec_until_sweep s) - 1) in
  if existsb worked calls then (calls, mkEngineClock 0 until_sweep)
  else let idle := u32 (ec_idle s + 1) in
       if 64 <? idle then (calls ++ [CallYield], mkEngineClock 0 until_sweep)
       else (calls, mkEngineClock idle until_sweep).

Fixpoint engine_turns (worked : nat -> EngineCall -> bool) (turns : nat) (s : EngineClock) : list (list EngineCall) :=
  match turns with
  | O => []
  | S turns => let '(calls, s) := engine_turn (worked 0%nat) s in calls :: engine_turns (fun k => worked (S k)) turns s
  end.

(** ** [check_memlock] *)

(** [rlimit] is [None] when it cannot be read or is infinite; the limits warned about and
    whether it warns now. *)
Definition check_memlock (rlimit : option Z) (warned : gset Z) (process_limit : Z) : bool * gset Z :=
  match rlimit with
  | None => (false, warned)
  | Some allowed =>
      if process_limit <=? allowed then (false, warned)
      else if bool_decide (process_limit ∈ warned) then (false, warned) else (true, {[process_limit]} ∪ warned)
  end.

(** ** Construction leaves nothing behind *)

Definition ucx_with_context (total : Z) : UcxState := mkUcxState false true false false false total.
Definition ucx_with_worker (total : Z) : UcxState := mkUcxState false true true false false total.
Definition ucx_running (total : Z) : UcxState := mkUcxState false true true false true total.

Lemma context_new_spec tls read modify init total :
  UcxContext_new tls read modify init (ucx_closed total) = (Val tt, ucx_with_context total) \/
  exists e, UcxContext_new tls read modify init (ucx_closed total) = (Err e, ucx_closed total).
Proof. destruct read, tls, modify, init; cbn; eauto. Qed.

Lemma worker_new_spec create query total :
  (exists w, UcxWorker_new create query (ucx_with_context total) = (Val w, ucx_with_worker total) /\
     Z.of_nat (length (uw_address w)) <= 4096 /\ 160 <= uw_max_am_header w) \/
  exists e, UcxWorker_new create query (ucx_with_context total) = (Err e, ucx_with_context total).
Proof.
  destruct create as [status|]; [right; cbn; eauto|]. destruct query as [status|[address header]]; [right; cbn; eauto|].
  unfold UcxWorker_new. cbn -[Z.ltb k_max_ucx_address_bytes k_frame_header_bytes to_string].
  change (Z.of_nat k_frame_header_bytes) with 160. change k_max_ucx_address_bytes with 4096.
  destruct (Z.ltb_spec 4096 (Z.of_nat (length address))); [right; cbn; eauto|].
  destruct (Z.ltb_spec header 160); [right; cbn; eauto|]. left. eexists. split; [done|]. cbn. lia.
Qed.

Lemma resolve_config_safe c : resolve_config c <> Fault.
Proof.
  unfold resolve_config. destruct (_ && _); cbn [outcome_bind]; [by destruct (bool_decide _)|].
  destruct (resolve _ _) as [m []]; try done. cbn [outcome_bind]. by destruct (bool_decide _).
Qed.

(** The bounds a validated configuration gives to the ring. *)
Lemma validated_ring c :
  PublisherConfig_validate c = Ok ->
  4096 <= pc_max_frame_bytes c <= 268435456 /\ 2 <= pc_ring_depth c <= 1024 /\ in_range 64 (pc_pinned_memory_limit_bytes c).
Proof.
  intros Hv. pose proof (validated_config c Hv) as (Hd & _). unfold PublisherConfig_validate in Hv.
  case_bool_decide as Hc; [by rewrite Hv in Hc|].
  clear Hv. unfold validate_common in Hc. unfold_limits. split_guards. unfold in_range. lia.
Qed.

Lemma slots_ring_spec c a total :
  PublisherConfig_validate c = Ok -> in_range 64 total -> ucx_ok (an_map a) ->
  (exists r total', slots_ring c a (ucx_with_worker total) = (Val r, ucx_running total') /\
     slots_laid_out r /\ rr_depth r = pc_ring_depth c /\ rr_slot_bytes r = pc_max_frame_bytes c /\
     region_charged total total' (pc_pinned_memory_limit_bytes c) (rr_memory r) /\
     snd (memory_release total' (rr_memory r)) = total) \/
  exists e, slots_ring c a (ucx_with_worker total) = (Err e, ucx_with_worker total).
Proof.
  intros Hv Ht Hu. destruct (validated_ring c Hv) as (Hf & Hd & Hl). unfold slots_ring. cbn [ux_context ux_pinned negb ucx_with_worker].
  pose proof (ring_allocated_sound (fun what origin => ucx_error what (an_map_status a) origin) total (pc_max_frame_bytes c)
    (pc_ring_depth c) (pc_pad_slot_stride c) (pc_pinned_memory_limit_bytes c) (str "publisher") (an_map a)
    Ht ltac:(lia) ltac:(lia) Hl Hu) as Hs.
  destruct (ring_allocated _ _ _ _ _ _ _ _) as [[r|e|] total']; cbn [ring_sound] in Hs; [|subst total'; right; by eexists|done].
  left. by exists r, total'.
Qed.

Lemma register_spec a total :
  register_am_handlers a (ucx_running total) = (Val tt, ucx_running total) \/
  exists e, register_am_handlers a (ucx_running total) = (Err e, ucx_running total).
Proof. unfold register_am_handlers. destruct (an_set_credit_handler a), (an_set_probe_ack_handler a); cbn; eauto. Qed.

(** C30: constructing a publisher is all or nothing. Whatever the configuration and whatever UCX answers,
    no call is made that UCX does not allow; when the constructor throws, every handle it opened is closed
    again and the pinned total is what it was; when it returns, the configuration is valid, the worker's
    address fits its field of the protocol and its headers hold a frame header, and the ring has its slots
    apart and exactly its bytes charged within the limit. Destroying the publisher then closes everything and
    gives the bytes back, at once or, when the application still has a slot, with that slot. *)
Theorem publisher_construction_sound config a total
  (Ht : in_range 64 total) (Hu : ucx_ok (an_map a)) :
  match publisher_construct config a (ucx_closed total) with
  | (Fault, _) => False
  | (Err _, u) => u = ucx_closed total
  | (Val (c, w, r), u) =>
      PublisherConfig_validate c = Ok /\
      Z.of_nat (length (uw_address w)) <= k_max_ucx_address_bytes /\ Z.of_nat k_frame_header_bytes <= uw_max_am_header w /\
      slots_laid_out r /\ rr_depth r = pc_ring_depth c /\ rr_slot_bytes r = pc_max_frame_bytes c /\
      ux_pinned u = total + rm_bytes (rr_memory r) /\ ux_pinned u <= pc_pinned_memory_limit_bytes c /\
      publisher_destruct r false u = (Val tt, ucx_closed total) /\
      exists u1, publisher_destruct r true u = (Val tt, u1) /\ ux_memory u1 = true /\
        last_handle_dropped r u1 = (Val tt, ucx_closed total)
  end.
Proof.
  unfold publisher_construct. destruct (resolve_config config) as [c|e|] eqn:Hc; [|done|by apply resolve_config_safe in Hc].
  apply resolved_config in Hc as Hv. unfold member at 1.
  destruct (context_new_spec (pc_ucx_tls c) (an_config_read a) (an_config_modify a) (an_init a) total) as [->|[e ->]]; [|done].
  unfold member at 1. destruct (worker_new_spec (an_worker_create a) (an_worker_query a) total) as [(w & -> & Ha & Hh)|[e ->]]; [|done].
  unfold member. destruct (slots_ring_spec c a total Hv Ht Hu) as [(r & total' & -> & Hlaid & Hd & Hs & Hch & Hback)|[e ->]]; [|done].
  unfold mbind, setup_bind.
  assert (slots_ring_destroy r (ucx_running total') = (Val tt, ucx_with_worker total)) as Hdes
    by (unfold slots_ring_destroy; cbn [ucx_running ux_context ux_memory ux_pinned andb negb]; by rewrite Hback).
  assert (last_handle_dropped r (mkUcxState false true false false true total') = (Val tt, ucx_closed total)) as Hlast
    by (unfold last_handle_dropped, mbind, setup_bind, slots_ring_destroy;
        cbn [ux_context ux_memory ux_pinned andb negb]; by rewrite Hback).
  destruct (register_spec a total') as [->|[e ->]]; [|by rewrite Hdes].
  cbn [mret setup_ret]. destruct Hch as [_ Htot Hlim]. split_all; try done.
  eexists. split; [done|]. split; [done|exact Hlast].
Qed.

Lemma publisher_construction_sound_witness :
  exists c w r u, publisher_construct sample_pconfig0
    (mkSetupAnswers None None None None (inr (str "address", 8192)) (Mapped (Queried 65536 12288)) [] None None)
    (ucx_closed 1000) = (Val (c, w, r), u) /\ slots_laid_out r /\ ux_pinned u = 13288 /\
    publisher_destruct r false u = (Val tt, ucx_closed 1000).
Proof.
  pose proof (publisher_construction_sound sample_pconfig0
    (mkSetupAnswers None None None None (inr (str "address", 8192)) (Mapped (Queried 65536 12288)) [] None None)
    1000 ltac:(by vm_compute) ltac:(by vm_compute)) as H.
  destruct (publisher_construct _ _ _) as [[[[c w] r]|e|] u] eqn:E; [|vm_compute in E; discriminate E..].
  destruct H as (_ & _ & _ & Hl & _ & _ & _ & _ & Hd & _). exists c, w, r, u.
  split; [reflexivity|]. split; [exact Hl|]. split; [|exact Hd]. by vm_compute in E; injection E as <- <- <- <-.
Defined.

(** ** The engine's schedule *)

Definition called (c : EngineCall) (calls : list EngineCall) : bool := existsb (fun x => bool_decide (x = c)) calls.

Lemma engine_turn_spec worked s :
  let '(calls, s') := engine_turn worked s in
  called CallSweep calls = (ec_until_sweep s =? 0) /\
  called CallConnects calls = true /\ called CallProbes calls = true /\ called CallSubmit calls = true /\
  called CallProgress calls = true /\
  (called CallYield calls = true -> forall c, c <> CallYield -> called c calls = true -> worked c = false) /\
  ec_until_sweep s' = u32 ((if ec_until_sweep s =? 0 then 256 else ec_until_sweep s) - 1).
Proof.
  unfold engine_turn. destruct (ec_until_sweep s =? 0); cbn [app];
    (destruct (existsb worked _) eqn:Hw; [|destruct (64 <? _)]); cbn in Hw; repeat rewrite orb_false_iff in Hw;
    (split; [done|]; do 4 (split; [done|]); split; [|done]); cbn; intros Hy c Hc Hcalled; destruct c; first [done|tauto|discriminate].
Qed.

Lemma countdown i : 0 <= i -> u32 ((if (- i) mod 256 =? 0 then 256 else (- i) mod 256) - 1) = (- (i + 1)) mod 256.
Proof.
  intros Hi. pose proof (Z.mod_pos_bound (- i) 256 ltac:(lia)). pose proof (Z.div_mod (- i) 256 ltac:(lia)).
  destruct (Z.eqb_spec ((- i) mod 256) 0); rewrite wrap_small by (unfold in_range; lia).
  - apply (Z.mod_unique _ _ ((- i) / 256 - 1)); lia.
  - apply (Z.mod_unique _ _ ((- i) / 256)); lia.
Qed.

(** expiry does not depend on traffic. Whatever the calls of the engine loop find to do, every turn connects,
    probes, submits and progresses, the sessions are swept in the first turn and then in every 256th, and a
    turn yields only when nothing it called did anything. *)
Theorem engine_sweeps_on_schedule worked turns i calls
  (Hi : engine_turns worked turns EngineClock_new !! i = Some calls) :
  called CallSweep calls = (Z.of_nat i mod 256 =? 0) /\
  called CallConnects calls = true /\ called CallProbes calls = true /\ called CallSubmit calls = true /\
  called CallProgress calls = true /\
  (called CallYield calls = true -> forall c, c <> CallYield -> called c calls = true -> worked i c = false).
Proof.
  enough (forall k s, 0 <= k -> ec_until_sweep s = (- k) mod 256 -> forall w i,
    engine_turns w turns s !! i = Some calls ->
    called CallSweep calls = ((- (k + Z.of_nat i)) mod 256 =? 0) /\
    called CallConnects calls = true /\ called CallProbes calls = true /\ called CallSubmit calls = true /\
    called CallProgress calls = true /\
    (called CallYield calls = true -> forall c, c <> CallYield -> called c calls = true -> w i c = false)) as H.
  { destruct (H 0 EngineClock_new ltac:(lia) eq_refl worked i Hi) as (-> & Hrest). split; [|done]. rewrite Z.add_0_l.
    apply eq_true_iff_eq. rewrite !Z.eqb_eq, !Z.mod_divide by lia. apply Z.divide_opp_r. }
  clear i Hi worked. induction turns as [|turns IH]; intros k s Hk Hs w i; [done|]. cbn [engine_turns].
  pose proof (engine_turn_spec (w 0%nat) s) as Ht. destruct (engine_turn (w 0%nat) s) as [calls0 s'].
  destruct Ht as (Hsw & H1 & H2 & H3 & H4 & Hy & Hu). destruct i as [|i]; cbn [lookup list_lookup].
  - intros [= <-]. rewrite Z.add_0_r, <-Hs. done.
  - intros Hi. rewrite Hs, countdown in Hu by lia.
    destruct (IH (k + 1) s' ltac:(lia) Hu (fun j => w (S j)) i Hi) as (-> & Hrest).
    split; [|done]. do 3 f_equal. lia.
Qed.

Lemma engine_sweeps_on_schedule_witness :
  exists calls, engine_turns (fun _ _ => false) 300 EngineClock_new !! 256%nat = Some calls /\
    called CallSweep calls = true /\ called CallYield calls = false.
Proof.
  destruct (engine_turns (fun _ _ => false) 300 EngineClock_new !! 256%nat) as [calls|] eqn:E; [|vm_compute in E; discriminate E].
  pose proof (engine_sweeps_on_schedule (fun _ _ => false) 300 256 calls E) as (Hs & _).
  exists calls. split; [reflexivity|]. split; [exact Hs|]. vm_compute in E. injection E as <-. reflexivity.
Defined.

(** ** The warning *)

(** One warning for each limit that is over what the kernel allows, and none for the others. *)
Lemma memlock_warns_once allowed warned limit :
  let '(warns, warned') := check_memlock (Some allowed) warned limit in
  warns = bool_decide (allowed < limit /\ limit ∉ warned) /\ fst (check_memlock (Some allowed) warned' limit) = false.
Proof.
  unfold check_memlock. destruct (Z.leb_spec limit allowed).
  { by rewrite bool_decide_eq_false_2 by lia. }
  case_bool_decide.
  - rewrite bool_decide_eq_false_2 by (by intros [_ []]). split; [done|]. by rewrite bool_decide_eq_true_2.
  - rewrite bool_decide_eq_true_2 by done. split; [done|]. by rewrite bool_decide_eq_true_2 by set_solver.
Qed.
