(* ===== verification/SubscriberSetup.v ===== *)
(** * UCX set-up: the construction of a receive engine, and who keeps its memory

    The constructors of [ReceiveArena] and [SubscriberEngine] and the destructor of the
    engine ([src/ucx/subscriber_engine.h] and [.cpp]), with [quarantine].  The computations
    that may throw, the handles and the members destroyed on the way out are those of
    [UcxSetup]; what the engine does once it is running is in [SubscriberEngine], and how
    it becomes quiet in [EngineTeardown]. *)
From stdpp Require Import gmap list relations.
From S2P Require Import Prelude Enums Limits ByteOrder Geometry Text Protocol DataPlane Config PinnedLedger CreditWindow.
From S2P Require Import BoundedQueue DeliveryQueue LeasePool RegisteredRing FrameView SubscriberEngine EngineSafety.
From S2P Require Import EngineTeardown Subscription UcxSetup.
#[local] Open Scope Z_scope.

(** ** Construction *)

(** Everything UCX answers while an engine is constructed, and the buffer the caller lends. *)
Record SubscriberAnswers : Type := mkSubscriberAnswers {
  sn_config_read : option bytes;
  sn_config_modify : option bytes;
  sn_init : option bytes;
  sn_worker_create : option bytes;
  sn_worker_query : bytes + bytes * Z;
  sn_map : ucx_map;
  sn_buffer : Z;
  sn_buffer_mapped : bool;
  sn_map_status : bytes;
  sn_set_frame_handler : option bytes;
  sn_set_probe_handler : option bytes
}.

(** The ring of [ReceiveArena], over a context: never padded, and laid over the caller's
    buffer when there is one. *)
Definition arena_ring (c : SubscriberConfig) (a : SubscriberAnswers) : setup RegisteredRing := fun u =>
  if negb (ux_context u) then (Fault, u) else
  let uerr what origin := ucx_error what (sn_map_status a) origin in
  match (if sc_receive_buffer c then
           ring_adopted uerr (ux_pinned u) (sc_max_frame_bytes c) (sc_ring_depth c) (sn_buffer a)
             (sc_receive_buffer_bytes c) (sc_pinned_memory_limit_bytes c) (sn_buffer_mapped a)
         else
           ring_allocated uerr (ux_pinned u) (sc_max_frame_bytes c) (sc_ring_depth c) false
             (sc_pinned_memory_limit_bytes c) (str "subscriber") (sn_map a)) with
  | (Val r, total) => (Val r, set_memory true total u)
  | (Err e, total) => (Err e, set_memory false total u)
  | (Fault, total) => (Fault, u)
  end.

(** [ReceiveArena], as it is first: the slots of its ring, the queue of credits and the
    pool of control blocks. *)
Record ReceiveArena : Type := mkReceiveArena {
  ra_ring : RegisteredRing;
  ra_slots : list ReceiveSlot;
  ra_credit_returns : BoundedQueue Z;
  ra_lease_pool : lease_pool
}.

(** [threads] is how many threads will ever ask the pool for a block. *)
Definition ReceiveArena_new (r : RegisteredRing) (threads : nat) : ReceiveArena :=
  let depth := rr_depth r in
  mkReceiveArena r
    ((fun i => mkReceiveSlot FrameFields_default (ring_slot r i) (rr_slot_bytes r) false []) <$> seq 0 (Z.to_nat depth))
    (BoundedQueue_new 0 (depth * 2))
    (lease_pool_new (Z.to_nat (depth + 8)) threads).

(** The members and the body of [SubscriberEngine(config, delivery)]. *)
#[local] Instance setup_fifo : BoundedFifo (BoundedQueue Z) Z := ring_fifo 0.
#[local] Existing Instance arena_sink.
Definition engine_over (c : SubscriberConfig) (a : ReceiveArena) : SubscriberEngine (Q := BoundedQueue Z) :=
  mkSubscriberEngine (sc_receive_memory_kind c) (ra_slots a)
    (view_store_init (mkArenaSink (ra_credit_returns a) 0 0 false)) (ReleaseTracker_new (sc_ring_depth c))
    (replicate (Z.to_nat (sc_ring_depth c)) false) 0 false 0 false Sub_Opening None false 0 GeometryBlock_default
    (mkEngineCounters 0 0 0 0 0 0 0 0 0).

Definition register_receive_handlers (a : SubscriberAnswers) : setup unit :=
  let install failure what := match failure with
    | Some status => throw_ucx_error what status (str "subscriber")
    | None => ucx_call ux_worker (fun u => u)
    end in
  install (sn_set_frame_handler a) (str "ucp_worker_set_am_recv_handler(frame)");;
  install (sn_set_probe_handler a) (str "ucp_worker_set_am_recv_handler(probe)").

Definition engine_construct (config : SubscriberConfig) (delivery : bool) (threads : nat) (a : SubscriberAnswers)
    : setup (UcxWorker * ReceiveArena * SubscriberEngine (Q := BoundedQueue Z)) :=
  let status := SubscriberConfig_validate config in
  if negb (bool_decide (status = Ok)) then
    throw (mkBulkError status (str "invalid SubscriberConfig: " ++ Status_to_string status) (str "subscriber"))
  else if negb delivery then
    throw (mkBulkError Internal (str "a subscriber transport needs a delivery queue") (str "subscriber"))
  else
    member (UcxContext_new (sc_ucx_tls config) (sn_config_read a) (sn_config_modify a) (sn_init a)) (fun _ => UcxContext_destroy)
      (fun _ => member (UcxWorker_new (sn_worker_create a) (sn_worker_query a)) (fun _ => UcxWorker_destroy)
        (fun w => member (arena_ring config a) slots_ring_destroy
          (fun r => register_receive_handlers a;;
             let arena := ReceiveArena_new r threads in
             mret (w, arena, engine_over config arena)))).

(** ** Who owns what *)

(** The owners of the arena: the engine, or after it the list of [quarantine] -- which keeps
    the worker and the context too -- or neither; and the leases of the views and of the
    frames still queued.  The arena owns the context. *)
Inductive Keeper : Type := KeptByEngine | KeptInQuarantine | NotKept.
Record Owners : Type := mkOwners { ow_keeper : Keeper; ow_leases : nat }.
Definition kept (k : Keeper) : bool := match k with NotKept => false | _ => true end.
Definition arena_owned (o : Owners) : bool := kept (ow_keeper o) || (0 <? ow_leases o)%nat.

(** Releasing the last owner of the arena unmaps the ring; its context goes when the engine
    has let go of it too. *)
Definition release_arena (r : RegisteredRing) (o : Owners) : setup unit :=
  if arena_owned o then mret tt else slots_ring_destroy r.
Definition release_context (o : Owners) : setup unit := if arena_owned o then mret tt else UcxContext_destroy.

(** What happens to the owners: the engine takes a lease, any thread drops one, the engine
    is destroyed. *)
Inductive OwnerEvent : Type := OvTaken | OvDropped | OvGone (fate : worker_fate).
Definition owner_next (o : Owners) (ev : OwnerEvent) : Owners :=
  match ev with
  | OvTaken => mkOwners (ow_keeper o) (S (ow_leases o))
  | OvDropped => mkOwners (ow_keeper o) (pred (ow_leases o))
  | OvGone WorkerQuarantined => mkOwners KeptInQuarantine (ow_leases o)
  | OvGone WorkerDestroyed => mkOwners NotKept (ow_leases o)
  end.
(** Only a living engine issues a lease or is destroyed, and only a lease that is there is
    dropped. *)
Definition owner_allowed (o : Owners) (ev : OwnerEvent) : bool :=
  match ev with
  | OvTaken | OvGone _ => match ow_keeper o with KeptByEngine => true | _ => false end
  | OvDropped => (0 <? ow_leases o)%nat
  end.

(** [~SubscriberEngine] once the worker's fate is known: the worker is moved to the list of
    [quarantine], or is left with the members, which are destroyed from the last to the
    first -- [arena_], [worker_], [context_]. *)
Definition owner_event (r : RegisteredRing) (o : Owners) (ev : OwnerEvent) : setup Owners :=
  let o' := owner_next o ev in
  match ev with
  | OvTaken | OvGone WorkerQuarantined => mret o'
  | OvDropped => release_arena r o';; release_context o';; mret o'
  | OvGone WorkerDestroyed => release_arena r o';; UcxWorker_destroy;; release_context o';; mret o'
  end.

Fixpoint owner_run (r : RegisteredRing) (o : Owners) (evs : list OwnerEvent) : setup Owners :=
  match evs with
  | [] => mret o
  | ev :: evs => o ← owner_event r o ev; owner_run r o evs
  end.
Fixpoint owners_allowed (o : Owners) (evs : list OwnerEvent) : Prop :=
  match evs with
  | [] => True
  | ev :: evs => owner_allowed o ev = true /\ owners_allowed (owner_next o ev) evs
  end.

(** ** What is constructed *)

(** The arena's slots are those of [engine_new], at the ring's addresses: the engine the
    safety theorems start from. *)
Lemma engine_over_new c r threads :
  rr_stride r = rr_slot_bytes r -> rr_depth r = sc_ring_depth c -> 0 <= rr_depth r ->
  engine_over c (ReceiveArena_new r threads) =
  engine_new (sc_receive_memory_kind c) (rr_base r) (rr_slot_bytes r) (Z.to_nat (rr_depth r))
    (BoundedQueue_new 0 (rr_depth r * 2)).
Proof.
  intros Hs Hd H0. unfold engine_over, engine_new, ReceiveArena_new. cbn [ra_slots ra_credit_returns].
  rewrite Z2Nat.id by done. rewrite <-Hd. unfold ring_slot. by rewrite Hs.
Qed.

(** ** The configuration a transport sees *)

Lemma from_limits_of_plan p : plan_fits p -> from_limits (rp_max_frame_bytes p) (rp_ring_depth p) (rp_credit_window p) = p.
Proof.
  intros [? ? ? Hb]. unfold from_limits. rewrite checked_bytes_bounded by lia. destruct p. by simpl in *; subst.
Qed.

Lemma plan_le_intersect p q :
  plan_fits p -> plan_fits q -> plan_le p q -> intersect p q = p.
Proof.
  intros Hp Hq (H1 & H2 & H3). unfold intersect.
  rewrite !bool_decide_eq_false_2 by (intros Hn; apply Hn; by apply ReceivePlan_validate_iff).
  rewrite !Z.min_l by done. by apply from_limits_of_plan.
Qed.

(** The plan derived from the configuration is a fixed point: deriving it again from the
    configuration it was written into changes nothing. *)
Lemma upper_plan_stable c :
  config_typed c -> SubscriberConfig_validate c = Ok -> upper_receive_plan (normalised c) = upper_receive_plan c.
Proof.
  intros Hty Hv. pose proof Hty as (_ & _ & Hcw & Hl & Hp & Ho). unfold in_range in *.
  destruct (proj1 (valid_subscriber_config_plan c Hty) Hv) as (Hfit%ReceivePlan_validate_iff & Hbudget & _ & _).
  set (u := upper_receive_plan c) in *.
  destruct (sc_receive_plan c) as [p|] eqn:Hplan.
  { unfold u, upper_receive_plan, requested_plan, normalised. cbn. by rewrite Hplan. }
  unfold upper_receive_plan at 1, requested_plan, normalised.
  cbn [sc_receive_plan sc_max_frame_bytes sc_ring_depth sc_credit_window sc_pinned_memory_limit_bytes sc_discovery_offer].
  fold u. rewrite Hplan, from_limits_of_plan by done.
  destruct (sc_discovery_offer c) as [o|] eqn:Hoff.
  - assert (u = intersect (requested_plan c) (derive o (sc_pinned_memory_limit_bytes c))) as Hu
      by (subst u; unfold upper_receive_plan; by rewrite Hoff).
    assert (rp_max_frame_bytes u <> 0) as Hnz by by apply fits_not_zero.
    rewrite Hu in Hnz. destruct (intersect_valid _ _ Hnz) as [Hr Hd].
    destruct (derive_below o (sc_pinned_memory_limit_bytes c)) as [_ ?]; [lia|by apply Ho|done|].
    assert (0 <= rp_credit_window (requested_plan c)) by (unfold requested_plan; rewrite Hplan; simpl; lia).
    destruct (intersect_fits _ _ Hr Hd) as (_ & _ & Hle & _); [done..|].
    apply plan_le_intersect; [done|done|]. by rewrite Hu.
  - rewrite (proj2 (Z.ltb_ge _ _)) by done. by rewrite andb_false_r.
Qed.

(** ... so what passed validation passes it again in the constructor of the transport. *)
Lemma normalised_validates c :
  config_typed c -> SubscriberConfig_validate c = Ok -> SubscriberConfig_validate (normalised c) = Ok.
Proof.
  intros Hty Hv. pose proof (upper_plan_stable c Hty Hv) as Hu.
  destruct (proj1 (valid_subscriber_config_plan c Hty) Hv) as (Hfit%ReceivePlan_validate_iff & _).
  unfold SubscriberConfig_validate in *. rewrite Hu. unfold validate_buffer, validate_inputs in *. cbn in *.
  case_bool_decide; [done|].
  rewrite (proj2 (Z.eqb_neq (rp_max_frame_bytes _) 0)) by by apply fits_not_zero.
  rewrite andb_false_r. by destruct (_ && _).
Qed.

(** ** Construction leaves nothing behind *)

Lemma ring_destroyed r total total' :
  snd (memory_release total' (rr_memory r)) = total ->
  slots_ring_destroy r (ucx_running total') = (Val tt, ucx_with_worker total).
Proof. intros <-. done. Qed.

(** The queue of credits is empty and holds one for every slot, twice over. *)
Lemma credit_queue_new depth n :
  2 <= depth <= 1024 -> Z.of_nat n < 2 ^ 62 ->
  fifo_repr n (BoundedQueue_new 0 (depth * 2)) [] /\ depth <= fifo_capacity (BoundedQueue_new 0 (depth * 2)).
Proof.
  intros Hd Hn. destruct (round_up_pow2_least (depth * 2) ltac:(lia)) as (m & Hm & Hle & Hleast).
  assert (1 <= Z.of_nat m) as Hm1 by (destruct m; [simpl in Hle; lia|lia]).
  assert (Z.of_nat m <= 11) as Hm11.
  { destruct (decide (m <= 11)%nat) as [|Hgt]; [lia|]. specialize (Hleast 11%nat ltac:(lia)). simpl in Hleast. lia. }
  pose proof (represents_new 0 (Z.of_nat m) ltac:(lia) _ Hm) as Hrep.
  assert (2 ^ Z.of_nat m <= 2 ^ 11) by (apply Z.pow_le_mono_r; lia).
  split.
  - exists (Z.of_nat m). split; [lia|]. split; [exact Hrep|]. cbn [BoundedQueue_new bq_enqueue_pos]. lia.
  - cbn [fifo_capacity ring_fifo setup_fifo]. rewrite (capacity_represents (Z.of_nat m) _ [] ltac:(lia) Hrep). lia.
Qed.

(** A ring of an arena: laid out, never padded, charged. *)
Lemma arena_ring_spec c a total :
  4096 <= sc_max_frame_bytes c <= 268435456 -> 2 <= sc_ring_depth c <= 1024 ->
  in_range 64 (sc_pinned_memory_limit_bytes c) -> in_range 64 (sc_receive_buffer_bytes c) ->
  in_range 64 total -> ucx_ok (sn_map a) ->
  (exists r total', arena_ring c a (ucx_with_worker total) = (Val r, ucx_running total') /\
     slots_laid_out r /\ rr_stride r = rr_slot_bytes r /\ rr_depth r = sc_ring_depth c /\
     rr_slot_bytes r = sc_max_frame_bytes c /\
     region_charged total total' (sc_pinned_memory_limit_bytes c) (rr_memory r) /\
     snd (memory_release total' (rr_memory r)) = total) \/
  exists e, arena_ring c a (ucx_with_worker total) = (Err e, ucx_with_worker total).
Proof.
  intros Hf Hd Hl Hb Ht Hu. unfold arena_ring. cbn [ux_context ux_pinned negb ucx_with_worker].
  set (uerr := fun what origin => _). set (res := if sc_receive_buffer c then _ else _).
  assert (ring_sound total (sc_max_frame_bytes c) (sc_ring_depth c) (sc_pinned_memory_limit_bytes c) res) as Hs
    by (unfold res; destruct (sc_receive_buffer c); [apply ring_adopted_sound|apply ring_allocated_sound]; done || lia).
  assert (forall r t, res = (Val r, t) -> rr_stride r = rr_slot_bytes r) as Hstride.
  { unfold res. intros r t. destruct (sc_receive_buffer c); unfold ring_adopted, ring_allocated.
    - destruct (checked_caller_region _ _ _ _); [|done..]. destruct (adopted _ _ _ _ _ _) as [[]]; by intros [= <- _].
    - destruct (checked_region_bytes _ _ _); [|done..]. destruct (ucx_allocated _ _ _ _ _ _) as [[]]; by intros [= <- _]. }
  destruct res as [[r|e|] total']; cbn [ring_sound] in Hs; [|subst total'; right; by eexists|done].
  left. exists r, total'. specialize (Hstride r total' eq_refl). destruct Hs as (? & ? & ? & ? & ?). done.
Qed.

Lemma register_receive_spec a total :
  register_receive_handlers a (ucx_running total) = (Val tt, ucx_running total) \/
  exists e, register_receive_handlers a (ucx_running total) = (Err e, ucx_running total).
Proof. unfold register_receive_handlers. destruct (sn_set_frame_handler a), (sn_set_probe_handler a); cbn; eauto. Qed.

(** What a constructed engine is: the arena has the dimensions of the plan. *)
Record engine_constructed (c : SubscriberConfig) (plan : ReceivePlan) (total : Z) (w : UcxWorker) (arena : ReceiveArena)
    (e : SubscriberEngine (Q := BoundedQueue Z)) (u : UcxState) : Prop := {
  ek_address : Z.of_nat (length (uw_address w)) <= k_max_ucx_address_bytes;
  ek_header : Z.of_nat k_frame_header_bytes <= uw_max_am_header w;
  ek_laid_out : slots_laid_out (ra_ring arena);
  ek_depth : rr_depth (ra_ring arena) = rp_ring_depth plan;
  ek_bytes : rr_slot_bytes (ra_ring arena) = rp_max_frame_bytes plan;
  ek_fits : plan_fits plan;
  ek_engine : e = engine_new (sc_receive_memory_kind c) (rr_base (ra_ring arena)) (rp_max_frame_bytes plan)
                    (Z.to_nat (rp_ring_depth plan)) (BoundedQueue_new 0 (rp_ring_depth plan * 2));
  ek_handles : u = ucx_running (total + rm_bytes (rr_memory (ra_ring arena)));
  ek_limit : ux_pinned u <= sc_pinned_memory_limit_bytes c;
  ek_back : snd (memory_release (ux_pinned u) (rr_memory (ra_ring arena))) = total
}.

Definition buffer_typed (c : SubscriberConfig) : Prop := in_range 64 (sc_receive_buffer_bytes c).

Lemma engine_construct_spec c delivery threads a total :
  config_typed c -> buffer_typed c -> SubscriberConfig_validate c = Ok -> in_range 64 total -> ucx_ok (sn_map a) ->
  match engine_construct (normalised c) delivery threads a (ucx_closed total) with
  | (Fault, _) => False
  | (Err _, u) => u = ucx_closed total
  | (Val (w, arena, e), u) => engine_constructed c (upper_receive_plan c) total w arena e u
  end.
Proof.
  intros Hty Hb Hv Ht Hu.
  destruct (proj1 (valid_subscriber_config_plan c Hty) Hv) as (Hfit%ReceivePlan_validate_iff & _).
  unfold engine_construct. rewrite (normalised_validates c Hty Hv), bool_decide_eq_true_2 by done. cbn [negb].
  destruct delivery; [|done]. cbn [negb]. unfold member at 1.
  destruct (context_new_spec (sc_ucx_tls (normalised c)) (sn_config_read a) (sn_config_modify a) (sn_init a) total) as [->|[e ->]]; [|done].
  unfold member at 1. destruct (worker_new_spec (sn_worker_create a) (sn_worker_query a) total) as [(w & -> & Ha & Hh)|[e ->]]; [|done].
  unfold member. pose proof Hty as (_ & _ & _ & Hl & _). destruct Hfit as [Hf Hd Hw Hp] eqn:Hfe.
  destruct (arena_ring_spec (normalised c) a total Hf Hd Hl Hb Ht Hu)
    as [(r & total' & -> & Hlaid & Hst & Hrd & Hrs & Hch & Hback)|[e ->]]; [|done].
  unfold mbind, setup_bind.
  destruct (register_receive_spec a total') as [->|[e ->]]; [|by rewrite (ring_destroyed _ total)].
  cbn [mret setup_ret]. destruct Hch as [_ Htot Hlim]. subst total'.
  split; try done. cbn [ra_ring ReceiveArena_new]. rewrite engine_over_new by (done || rewrite Hrd; simpl; lia).
  by rewrite Hrd, Hrs.
Qed.

(** ** Owners and handles *)

(** The handles are those of the owners: everything while the engine or the list of
    [quarantine] has them, the ring and its context while a lease remains, nothing after. *)
Definition handles_of (total total' : Z) (o : Owners) : UcxState :=
  if kept (ow_keeper o) then ucx_running total'
  else if (0 <? ow_leases o)%nat then mkUcxState false true false false true total'
  else ucx_closed total.

Lemma owner_event_ok r total total' o ev :
  snd (memory_release total' (rr_memory r)) = total -> owner_allowed o ev = true ->
  owner_event r o ev (handles_of total total' o) = (Val (owner_next o ev), handles_of total total' (owner_next o ev)).
Proof.
  intros Hback Hok.
  assert (slots_ring_destroy r (mkUcxState false true false false true total') = (Val tt, ucx_with_context total)) as Hd
    by (by rewrite <-Hback).
  pose proof (ring_destroyed r total total' Hback) as Hr.
  destruct o as [k n]. unfold owner_event, release_arena, release_context, arena_owned, handles_of, mbind, setup_bind.
  destruct ev as [| |[]], k, n as [|[|n]]; try done; cbn -[slots_ring_destroy ucx_running] in *;
    try (by rewrite Hd); by rewrite Hr.
Qed.

Lemma owner_run_ok r total total' evs o :
  snd (memory_release total' (rr_memory r)) = total -> owners_allowed o evs ->
  owner_run r o evs (handles_of total total' o) =
    (Val (foldl owner_next o evs), handles_of total total' (foldl owner_next o evs)).
Proof.
  intros Hback. revert o. induction evs as [|ev evs IH]; intros o; [done|]. intros [Hok Hevs].
  cbn [owner_run foldl]. unfold mbind, setup_bind. rewrite (owner_event_ok r total total' o ev Hback Hok). by apply IH.
Qed.

(** Once the engine is gone the keeper no longer changes. *)
Lemma owners_gone o after :
  ow_keeper o <> KeptByEngine -> owners_allowed o after -> ow_keeper (foldl owner_next o after) = ow_keeper o.
Proof.
  revert o. induction after as [|ev after IH]; intros o Hk; [done|]. intros [Hok Hafter]. cbn [foldl].
  assert (ow_keeper (owner_next o ev) = ow_keeper o) as He.
  { destruct ev as [| |fate]; [done..|]. cbn in Hok. by destruct (ow_keeper o). }
  rewrite IH; [done|by rewrite He|done].
Qed.

Lemma owners_allowed_app o before after :
  owners_allowed o (before ++ after) -> owners_allowed (foldl owner_next o before) after.
Proof. revert o. induction before as [|ev before IH]; intros o; [done|]. intros [_ H]. by apply IH. Qed.

Lemma owners_after_gone before fate after :
  owners_allowed (mkOwners KeptByEngine 0) (before ++ OvGone fate :: after) ->
  ow_keeper (foldl owner_next (mkOwners KeptByEngine 0) (before ++ OvGone fate :: after)) =
    match fate with WorkerQuarantined => KeptInQuarantine | WorkerDestroyed => NotKept end.
Proof.
  intros Hall. rewrite foldl_app. apply owners_allowed_app in Hall as [_ Hafter]. cbn [foldl].
  rewrite owners_gone; [by destruct fate|by destruct fate|done].
Qed.

Lemma owners_running o evs :
  (forall fate, OvGone fate ∉ evs) -> ow_keeper (foldl owner_next o evs) = ow_keeper o.
Proof.
  revert o. induction evs as [|ev evs IH]; intros o Hno; [done|]. cbn [foldl]. rewrite IH by set_solver.
  destruct ev as [| |fate]; [done..|]. exfalso. apply (Hno fate). by left.
Qed.

(** C8: a receive engine is constructed all or nothing, for the very plan that is advertised, and its memory
    outlives everything that can still touch it. For a configuration that validated, whatever UCX answers: no
    call is made that UCX does not allow, and a constructor that throws closes every handle and gives every
    pinned byte back. Otherwise the engine is [engine_new] over an arena with the dimensions of the plan, within
    the pinned limit: the engine the safety theorems start from. After any session the engine's end has one
    fate, quarantine when a receive is still in flight; and in whatever order leases are taken and dropped and
    the engine goes, no ring is unmapped twice or without its context, and what is open is exactly what has an
    owner ([handles_of]): everything while the engine or the quarantine keeps it, for a quarantined engine for
    ever and without any lease; the ring and the context, not the worker, while only leases do; and nothing,
    with every pinned byte given back, once the worker was destroyed and the last lease is gone. *)
Theorem receive_engine_owns_its_memory c delivery threads a total stream_id granted k e env
  (Hty : config_typed c) (Hb : buffer_typed c) (Hv : SubscriberConfig_validate c = Ok)
  (Ht : in_range 64 total) (Hu : ucx_ok (sn_map a))
  (Hg : grant_fits (Z.to_nat (rp_ring_depth (upper_receive_plan c))) (rp_max_frame_bytes (upper_receive_plan c)) granted)
  (Hk : Z.of_nat k < 2 ^ 62) (Henv : env_ok env) :
  let plan := upper_receive_plan c in
  match engine_construct (normalised c) delivery threads a (ucx_closed total) with
  | (Fault, _) => False
  | (Err _, u) => u = ucx_closed total
  | (Val (w, arena, e0), u0) =>
      slots_laid_out (ra_ring arena) /\ rr_depth (ra_ring arena) = rp_ring_depth plan /\
      rr_slot_bytes (ra_ring arena) = rp_max_frame_bytes plan /\
      ux_pinned u0 = total + rm_bytes (rr_memory (ra_ring arena)) /\ ux_pinned u0 <= sc_pinned_memory_limit_bytes c /\
      e0 = engine_new (sc_receive_memory_kind c) (rr_base (ra_ring arena)) (rp_max_frame_bytes plan)
             (Z.to_nat (rp_ring_depth plan)) (BoundedQueue_new 0 (rp_ring_depth plan * 2)) /\
      (engine_run k (snd (activate e0 stream_id granted true)) e ->
       exists fate e', engine_destroy e env = Val (fate, e') /\
       ((exists i : nat, se_pending e' !! i = Some true) -> fate = WorkerQuarantined) /\
       forall evs, owners_allowed (mkOwners KeptByEngine 0) evs -> (forall f, OvGone f ∈ evs -> f = fate) ->
       exists o, owner_run (ra_ring arena) (mkOwners KeptByEngine 0) evs u0 =
           (Val o, handles_of total (ux_pinned u0) o) /\
         ((forall f, OvGone f ∉ evs) -> ow_keeper o = KeptByEngine) /\
         (OvGone fate ∈ evs -> ow_keeper o =
            match fate with WorkerQuarantined => KeptInQuarantine | WorkerDestroyed => NotKept end))
  end.
Proof.
  cbv zeta. pose proof (engine_construct_spec c delivery threads a total Hty Hb Hv Ht Hu) as Hs.
  destruct (engine_construct _ _ _ _ _) as [[[[w arena] e0]|err|] u0]; [|done..].
  destruct Hs as [_ _ Hlaid Hd Hsb Hfit He Hh Hlim Hback].
  do 3 (split; [done|]). split; [by rewrite Hh|]. split; [done|]. split; [done|]. intros Hrun.
  destruct Hfit as [_ Hrd _ _]. destruct (credit_queue_new (rp_ring_depth (upper_receive_plan c)) (k + 0) Hrd ltac:(lia)) as [Hq Hcap].
  rewrite He in Hrun.
  destruct (engine_destroy_ok 0 k (sc_receive_memory_kind c) (rr_base (ra_ring arena)) _ _ _ stream_id granted e env Hg Hq)
    as (fate & e' & Hdes & Hquiet); [by rewrite Z2Nat.id by lia|exact Hrun|exact Henv|].
  exists fate, e'. split; [done|]. split; [intros [i Hi]; destruct fate; [by apply Hquiet in Hi|done]|].
  intros evs Hall Hfate. rewrite Hh in *.
  pose proof (owner_run_ok (ra_ring arena) total _ evs (mkOwners KeptByEngine 0) Hback Hall) as Hr. cbn [ux_pinned ucx_running] in *.
  eexists. split; [exact Hr|]. split; [by apply owners_running|].
  intros (before & after & ->)%list_elem_of_split. by apply owners_after_gone.
Qed.

Definition sample_answers : SubscriberAnswers :=
  mkSubscriberAnswers None None None None (inr (str "address", 8192)) (Mapped (Queried 65536 (2 ^ 21))) 0 false [] None None.

Definition sample_constructed : throws (UcxWorker * ReceiveArena * SubscriberEngine (Q := BoundedQueue Z)) * UcxState :=
  engine_construct (normalised sample_config) true 2 sample_answers (ucx_closed 1000).
Definition sample_active : SubscriberEngine (Q := BoundedQueue Z) :=
  match sample_constructed with (Val (_, _, e), _) => snd (activate e 7 sample_grant true) | _ => sample_start end.
Definition sample_receiving : SubscriberEngine (Q := BoundedQueue Z) :=
  match apply_event sample_active sample_rndv with Val e => e | _ => sample_active end.

Lemma failing_env_ok : env_ok failing_env.
Proof. split; apply failing_runs_ok. Qed.

Definition sample_owner_events : list OwnerEvent := [OvTaken; OvGone WorkerDestroyed; OvDropped].
Lemma sample_owner_fate f : OvGone f ∈ sample_owner_events -> f = WorkerDestroyed.
Proof. unfold sample_owner_events. set_solver. Qed.
Lemma sample_owner_gone : OvGone WorkerDestroyed ∈ sample_owner_events.
Proof. unfold sample_owner_events. set_solver. Qed.

(** A receive is in flight when the subscription ends, and a view is still held. *)
Lemma receive_engine_owns_its_memory_witness :
  se_rndv_inflight sample_receiving = 1 /\
  exists w arena e0 u0, sample_constructed = (Val (w, arena, e0), u0) /\
  exists o u, owner_run (ra_ring arena) (mkOwners KeptByEngine 0) [OvTaken; OvGone WorkerDestroyed; OvDropped] u0 = (Val o, u) /\
    u = ucx_closed 1000.
Proof.
  split; [vm_compute; reflexivity|].
  pose proof (receive_engine_owns_its_memory sample_config true 2 sample_answers 1000 7 sample_grant 1 sample_receiving failing_env
    sample_config_typed ltac:(by vm_compute) ltac:(by vm_compute) ltac:(by vm_compute) ltac:(by vm_compute)
    ltac:(split; vm_compute; intuition discriminate) ltac:(by vm_compute) failing_env_ok) as P.
  change (engine_construct _ _ _ _ _) with sample_constructed in P.
  destruct sample_constructed as [[[[w arena] e0]|err|] u0] eqn:E; [|vm_compute in E; discriminate E..].
  exists w, arena, e0, u0. split; [reflexivity|]. destruct P as (_ & _ & _ & _ & _ & _ & P).
  assert (snd (activate e0 7 sample_grant true) = sample_active) as Ha by (unfold sample_active; rewrite E; reflexivity).
  rewrite Ha in P. destruct P as (fate & e' & Hd & _ & P).
  { apply (er_step 0 sample_active sample_rndv sample_receiving); [exact I|vm_compute; reflexivity|constructor]. }
  assert (fate = WorkerDestroyed) as Hf.
  { destruct (engine_destroy sample_receiving failing_env) as [[f x]| |] eqn:Ed; [|discriminate Hd..].
    injection Hd as <- <-. vm_compute in Ed. injection Ed as <- _. reflexivity. }
  subst fate. destruct (P sample_owner_events) as (o & Hr & _ & Hend).
  { vm_compute. auto. }
  { exact sample_owner_fate. }
  specialize (Hend sample_owner_gone). eexists o, _. split; [exact Hr|]. unfold handles_of. rewrite Hend.
  vm_compute in E. injection E as <- <- <- <-. vm_compute in Hr. injection Hr as <-. reflexivity.
Defined.
