(* ===== verification/Locality.v ===== *)
(** * Where a stream landed

    [src/ucx/locality.h] and [.cpp], [src/core/cpu_topology.cpp]: what a session reports
    about the placement of its ring, its network device and its engine.  The answers of
    UCX and of the operating system are arguments. *)
From stdpp Require Import list.
From S2P Require Import Prelude Enums Text.
From Stdlib Require Import Strings.Byte.

(** ** [cpu_topology.cpp] *)

(** [page] is the node [get_mempolicy] reports, [None] when it fails. *)
Definition numa_node_of (ring : option Z) (page : Z -> option Z) : Z :=
  match ring with
  | None => -1
  | Some p => default (-1) (page p)
  end.

(** [cpu] is what [sched_getcpu] returns. *)
Definition current_cpu (cpu : Z) : Z := if cpu <? 0 then -1 else cpu.

(** [accepted]: whether [sched_setaffinity] takes a set with this CPU alone. *)
Definition bind_thread_to_cpu (cpu : Z) (accepted : Z -> bool) : Status :=
  if cpu <? 0 then Ok else if accepted cpu then Ok else Internal.
Definition allowed_cpu_count (affinity : option Z) : Z := default 0 affinity.

(** ** [Locality] *)

Inductive Placement : Type := SingleNode | Local | Split | UnknownPlacement.
#[export] Instance Placement_eq_dec : EqDecision Placement.
Proof. solve_decision. Defined.

Definition Placement_to_string (p : Placement) : bytes :=
  match p with
  | SingleNode => str "single-node"
  | Local => str "local"
  | Split => str "split"
  | UnknownPlacement => str "unknown"
  end.

Record Locality : Type := mkLocality {
  lo_host_nodes : Z;
  lo_transport : bytes;
  lo_device : bytes;
  lo_devices : bytes;
  lo_rails : Z;
  lo_memory_node : Z;
  lo_device_node : Z;
  lo_engine_cpu : Z;
  lo_engine_node : Z;
  lo_node_distance : Z
}.

Definition placement (l : Locality) : Placement :=
  if lo_host_nodes l =? 1 then SingleNode
  else if (lo_memory_node l <? 0) || (lo_device_node l <? 0) || (lo_engine_node l <? 0) then UnknownPlacement
  else if (lo_memory_node l =? lo_device_node l) && (lo_memory_node l =? lo_engine_node l) then Local else Split.

Definition number_text (value : Z) : bytes := if value <? 0 then str "?" else to_string value.
Definition name_text (name : bytes) : bytes := match name with [] => str "?" | _ => name end.
Definition count_text (count : Z) : bytes := if count =? 0 then str "?" else to_string count.

Definition Locality_to_string (l : Locality) : bytes :=
  str "transport=" ++ name_text (lo_transport l) ++ str ";" ++
  str "device=" ++ name_text (lo_device l) ++ str ";" ++
  str "rails=" ++ count_text (lo_rails l) ++ str ";" ++
  (if 1 <? lo_rails l then str "devices=" ++ lo_devices l ++ str ";" else []) ++
  str "ring_node=" ++ number_text (lo_memory_node l) ++ str ";" ++
  str "nic_node=" ++ number_text (lo_device_node l) ++ str ";" ++
  str "engine_cpu=" ++ number_text (lo_engine_cpu l) ++ str ";" ++
  str "engine_node=" ++ number_text (lo_engine_node l) ++ str ";" ++
  str "node_distance=" ++ number_text (lo_node_distance l) ++ str ";" ++
  str "host_nodes=" ++ count_text (lo_host_nodes l) ++ str ";" ++
  str "placement=" ++ Placement_to_string (placement l) ++ str ";".

(** ** [observe] *)

(** The device before the first colon. *)
Fixpoint device_without_port (name : bytes) : bytes :=
  match name with
  | [] => []
  | c :: rest => if bool_decide (c = ":"%byte) then [] else c :: device_without_port rest
  end.

(** The node of a sysfs path and of a CPU, [None] when UCX knows none; their distance. *)
Record Numa : Type := mkNuma {
  nu_nodes : Z;
  nu_of_device : bytes -> option Z;
  nu_of_cpu : Z -> option Z;
  nu_distance : Z -> Z -> Z
}.

Definition node_of_device (n : Numa) (device : bytes) : Z :=
  match device with
  | [] => -1
  | _ => default (-1) (nu_of_device n (str "/sys/class/infiniband/" ++ device_without_port device))
  end.
Definition node_of_cpu (n : Numa) (cpu : Z) : Z := if cpu <? 0 then -1 else default (-1) (nu_of_cpu n cpu).

(** An entry of [ucp_ep_query]: a name may be null. *)
Record TransportEntry : Type := mkTransportEntry { te_transport : option bytes; te_device : option bytes }.

(** The loop over the lanes. *)
Fixpoint list_devices (entries : list TransportEntry) (devices : bytes) : bytes :=
  match entries with
  | [] => devices
  | e :: entries =>
      list_devices entries
        (match te_device e with
         | None => devices
         | Some name => (match devices with [] => [] | _ => devices ++ str "," end) ++ name
         end)
  end.

(** [observe]: [endpoint] is [None] for a null endpoint or a query that fails, else how many lanes UCX says it
    filled, and the eight entries. *)
Definition observe (n : Numa) (endpoint : option (Z * list TransportEntry)) (ring : option Z) (page : Z -> option Z)
    (sched_cpu : Z) : Locality :=
  let memory_node := numa_node_of ring page in
  let engine_cpu := current_cpu sched_cpu in
  let engine_node := node_of_cpu n engine_cpu in
  let '(rails, transport, device, devices) := match endpoint with
    | None => (0, [], [], [])
    | Some (filled, entries) =>
        let rails := Z.min filled 8 in
        let devices := list_devices (take (Z.to_nat rails) entries) [] in
        match entries with
        | first :: _ => if 0 <? rails then (rails, default [] (te_transport first), default [] (te_device first), devices)
                        else (rails, [], [], devices)
        | [] => (rails, [], [], devices)
        end
    end in
  let device_node := node_of_device n device in
  mkLocality (nu_nodes n) transport device devices rails memory_node device_node engine_cpu engine_node
    (if (0 <=? memory_node) && (0 <=? device_node) then nu_distance n memory_node device_node else -1).

(** ** [report] *)

Inductive ReportLine : Type := ReportPlacement (text : bytes) | ReportWarning (text : bytes).

Definition report_key (l : Locality) (origin : bytes) : bytes :=
  origin ++ str "/" ++ lo_devices l ++ str "/" ++ Placement_to_string (placement l).

Definition warning_text (l : Locality) (origin : bytes) : bytes :=
  str "tango-bulk: warning: " ++ origin ++ str " ring is on NUMA node " ++ to_string (lo_memory_node l) ++
  str " but its NIC is on node " ++ to_string (lo_device_node l) ++
  str ", so every frame crosses the interconnect. The ring's node is fixed at construction by first touch and cannot be changed afterwards -- place the process, e.g. 'numactl --cpunodebind=" ++
  to_string (lo_device_node l) ++ str " --membind=" ++ to_string (lo_device_node l) ++ str "'. " ++ Locality_to_string l.

(** The keys seen and what is printed. *)
Definition report (seen : list bytes) (l : Locality) (origin : bytes) : option ReportLine * list bytes :=
  if bool_decide (report_key l origin ∈ seen) then (None, seen) else
  (Some (if bool_decide (placement l <> Split)
         then ReportPlacement (str "tango-bulk: " ++ origin ++ str " placement: " ++ Locality_to_string l)
         else ReportWarning (warning_text l origin)),
   report_key l origin :: seen).

(** Reports in the order of the mutex. *)
Fixpoint reports (seen : list bytes) (sessions : list (Locality * bytes)) : list (option ReportLine) :=
  match sessions with
  | [] => []
  | (l, origin) :: sessions => let '(line, seen) := report seen l origin in line :: reports seen sessions
  end.

(** ** What is reported *)

Lemma placement_spec l :
  match placement l with
  | SingleNode => lo_host_nodes l = 1
  | Local => lo_host_nodes l <> 1 /\ 0 <= lo_memory_node l /\ lo_memory_node l = lo_device_node l /\ lo_memory_node l = lo_engine_node l
  | Split => lo_host_nodes l <> 1 /\ 0 <= lo_memory_node l /\ 0 <= lo_device_node l /\ 0 <= lo_engine_node l /\
      ~ (lo_memory_node l = lo_device_node l /\ lo_memory_node l = lo_engine_node l)
  | UnknownPlacement => lo_host_nodes l <> 1 /\ (lo_memory_node l < 0 \/ lo_device_node l < 0 \/ lo_engine_node l < 0)
  end.
Proof.
  unfold placement. destruct (Z.eqb_spec (lo_host_nodes l) 1); [done|].
  destruct (Z.ltb_spec (lo_memory_node l) 0), (Z.ltb_spec (lo_device_node l) 0), (Z.ltb_spec (lo_engine_node l) 0); cbn [orb]; try lia.
  destruct (Z.eqb_spec (lo_memory_node l) (lo_device_node l)), (Z.eqb_spec (lo_memory_node l) (lo_engine_node l)); cbn [andb]; lia.
Qed.

Lemma default_known (o : option Z) : 0 <= default (-1) o -> exists v, o = Some v /\ default (-1) o = v.
Proof. destruct o as [v|]; [by exists v|cbn; lia]. Qed.

(** What makes a placement split: three answers of the system that do not agree. *)
Theorem split_is_observed n endpoint ring page cpu
  (Hs : placement (observe n endpoint ring page cpu) = Split) :
  exists p memory device node engine, ring = Some p /\ page p = Some memory /\
    nu_of_device n (str "/sys/class/infiniband/" ++ device_without_port device) = Some node /\ device <> [] /\
    lo_device (observe n endpoint ring page cpu) = device /\ nu_of_cpu n cpu = Some engine /\ 0 <= cpu /\
    ~ (memory = node /\ memory = engine).
Proof.
  pose proof (placement_spec (observe n endpoint ring page cpu)) as Hp. rewrite Hs in Hp. destruct Hp as (_ & Hm & Hd & He & Hne).
  assert (lo_device_node (observe n endpoint ring page cpu) = node_of_device n (lo_device (observe n endpoint ring page cpu)) /\
    lo_memory_node (observe n endpoint ring page cpu) = numa_node_of ring page /\
    lo_engine_node (observe n endpoint ring page cpu) = node_of_cpu n (current_cpu cpu)) as (E1 & E2 & E3).
  { unfold observe. destruct endpoint as [[filled [|first entries]]|]; [done| |done]. by destruct (0 <? _). }
  rewrite E1, E2, E3 in *. destruct ring as [p|]; [|cbn in Hm; lia]. cbn [numa_node_of] in *.
  apply default_known in Hm as (memory & Hm & Em). unfold node_of_cpu, current_cpu in *.
  destruct (Z.ltb_spec cpu 0); [cbn in He; lia|]. rewrite (proj2 (Z.ltb_ge cpu 0)) in * by done.
  apply default_known in He as (engine & He & Ee).
  destruct (lo_device (observe n endpoint (Some p) page cpu)) as [|c device] eqn:Edev; [cbn in Hd; lia|].
  unfold node_of_device in *. apply default_known in Hd as (node & Hd & En).
  exists p, memory, (c :: device), node, engine. rewrite Em, En, Ee in Hne. done.
Qed.

(** Each key is reported once, the first time, and as a warning exactly when the placement is split. *)
Theorem reports_once sessions i l origin (Hi : sessions !! i = Some (l, origin)) :
  exists line, reports [] sessions !! i = Some line /\
    (line <> None <-> forall j l' origin', (j < i)%nat -> sessions !! j = Some (l', origin') ->
       report_key l' origin' <> report_key l origin) /\
    ((exists text, line = Some (ReportWarning text)) <-> line <> None /\ placement l = Split).
Proof.
  enough (forall seen, exists line, reports seen sessions !! i = Some line /\
    (line <> None <-> report_key l origin ∉ seen /\ forall j l' origin', (j < i)%nat -> sessions !! j = Some (l', origin') ->
       report_key l' origin' <> report_key l origin) /\
    ((exists text, line = Some (ReportWarning text)) <-> line <> None /\ placement l = Split)) as H.
  { destruct (H []) as (line & Hl & Hfirst & Hw). exists line. split; [done|]. split; [|done]. rewrite Hfirst.
    split; [by intros [_ ?]|]. intros ?. split; [apply not_elem_of_nil|done]. }
  revert i Hi. induction sessions as [|[l0 origin0] sessions IH]; intros [|i] Hi seen; try done; cbn [reports].
  - injection Hi as -> ->. unfold report. case_bool_decide as Hk.
    + exists None. split; [done|]. split; [|split; [by intros [? ?]|by intros [? _]]].
      split; [done|]. by intros [? _].
    + eexists. split; [done|]. split; [split; [|done]; intros _; split; [done|lia]|].
      case_bool_decide as Hp; [split; [by intros [? [=]]|by intros [_ ?]]|].
      split; [|intros _; by eexists]. intros _. split; [done|]. destruct (decide (placement l = Split)); [done|]. by destruct Hp.
  - destruct (report seen l0 origin0) as [line0 seen'] eqn:Hr. destruct (IH i Hi seen') as (line & Hl & Hfirst & Hw).
    exists line. split; [done|]. split; [|done]. rewrite Hfirst. unfold report in Hr.
    assert (report_key l origin ∉ seen' <-> report_key l origin ∉ seen /\ report_key l0 origin0 <> report_key l origin) as ->.
    { case_bool_decide as Hk; injection Hr as _ <-; [split; [|by intros [? _]]|].
      - intros Hn. split; [done|]. by intros E; rewrite E in Hk.
      - rewrite not_elem_of_cons. split; intros [? ?]; (split; [done|]); done. }
    split.
    + intros [[Hs Hne] Hall]. split; [done|]. intros [|j] l' o' Hj Hx; [by injection Hx as <- <-|]. apply (Hall j l' o'); [lia|done].
    + intros [Hs Hall]. split; [split; [done|by apply (Hall 0%nat); [lia|]]|]. intros j l' o' Hj Hx. by apply (Hall (S j)); [lia|].
Qed.

(** A placement is also split when the ring and the device are on one node and the engine is on another: the warning then
    says that the ring is on a node and its NIC on the same one, and to move the process where the ring already is. *)
Example split_warning_misleads :
  let n := mkNuma 2 (fun _ => Some 0) (fun _ => Some 1) (fun _ _ => 10) in
  let l := observe n (Some (1, [mkTransportEntry (Some (str "rc")) (Some (str "mlx5_0:1"))])) (Some 4096) (fun _ => Some 0) 20 in
  placement l = Split /\ lo_memory_node l = lo_device_node l /\
  exists rest, fst (report [] l (str "publisher")) = Some (ReportWarning
    (str "tango-bulk: warning: publisher ring is on NUMA node 0 but its NIC is on node 0, so every frame" ++ rest)).
Proof. vm_compute. split; [done|]. split; [done|]. by eexists. Qed.
