(* ===== verification/Hdf5Shards.v ===== *)
(** * The HDF5 client: its options, its shards and its virtual master

    The pure part of [examples/example_hdf5_client/example_hdf5_client.cpp]: the
    command line, the geometry taken from the publisher, the block that goes to each
    writer, the size and the name of each shard, and the mappings of the master file.
    [Hdf5Writer] models the processes that write. *)
From stdpp Require Import list sets gmap.
From S2P Require Import Prelude Enums Limits Geometry Text.
From Stdlib Require Import Strings.Byte.

(** A [std::runtime_error] is its text. *)
Abbreviation hres := (outcome bytes).

(** ** The command line *)

Record ClientOptions : Type := mkClientOptions {
  co_device : bytes;
  co_output : bytes;
  co_stream : bytes;
  co_frames : Z;
  co_writers : Z;
  co_frames_per_block : Z;
  co_blocks_per_stripe : Z;
  co_queue_depth : Z;
  co_ring_depth : Z;
  co_overwrite : bool;
  co_chunked : bool
}.
Definition ClientOptions_default (device output : bytes) : ClientOptions :=
  mkClientOptions device output (str "image") 0 4 32 1 4 32 false true.

Definition is_space (c : byte) : bool :=
  let z := Z_of_byte c in (z =? 32) || ((9 <=? z) && (z <=? 13)).
Fixpoint skip_spaces (text : bytes) : bytes :=
  match text with c :: text' => if is_space c then skip_spaces text' else text | [] => [] end.

(** The digits at the front of a text: their value and what follows. *)
Fixpoint take_digits (text : bytes) (acc : Z) : Z * bytes :=
  match text with
  | c :: text' => match digit_value c with Some d => take_digits text' (acc * 10 + d) | None => (acc, text) end
  | [] => (acc, [])
  end.

(** The number at the front of a text as the C library reads it -- white space, a sign,
    digits: whether it is negated, its value and what follows.  [None] without a digit. *)
Definition scan_unsigned (text : bytes) : option (bool * Z * bytes) :=
  let body := skip_spaces text in
  let '(negative, body) := match body with
    | c :: rest => if bool_decide (c = "-"%byte) then (true, rest)
                   else if bool_decide (c = "+"%byte) then (false, rest) else (false, body)
    | [] => (false, [])
    end in
  match body with
  | c :: _ =>
      match digit_value c with
      | None => None
      | Some _ => let '(v, rest) := take_digits body 0 in Some (negative, v, rest)
      end
  | [] => None
  end.

(** [std::strtoull(text, &end, 10)]: a value that does not fit saturates, a negated one
    wraps, and without a digit nothing is read. *)
Definition strtoull (text : bytes) : Z * bytes :=
  match scan_unsigned text with
  | None => (0, text)
  | Some (negative, v, rest) =>
      ((if 2 ^ 64 <=? v then 2 ^ 64 - 1 else if negative then u64 (- v) else v), rest)
  end.

Definition parse_positive (text option : bytes) : hres Z :=
  let '(value, rest) := strtoull text in
  if bool_decide (text = []) || negb (bool_decide (rest = [])) || (value =? 0)
  then Err (option ++ str " requires a positive integer") else Val value.

(** The options that take a number, with the member each sets. *)
Definition size_option (argument : bytes) (o : ClientOptions) : option (Z -> ClientOptions) :=
  let '(mkClientOptions d f s n w b k q r ow c) := o in
  if bool_decide (argument = str "--frames") then Some (fun v => mkClientOptions d f s v w b k q r ow c)
  else if bool_decide (argument = str "--writers") then Some (fun v => mkClientOptions d f s n v b k q r ow c)
  else if bool_decide (argument = str "--frames-per-block") || bool_decide (argument = str "--batch-frames")
  then Some (fun v => mkClientOptions d f s n w v k q r ow c)
  else if bool_decide (argument = str "--blocks-per-stripe") then Some (fun v => mkClientOptions d f s n w b v q r ow c)
  else if bool_decide (argument = str "--queue-depth") then Some (fun v => mkClientOptions d f s n w b k v r ow c)
  else if bool_decide (argument = str "--ring-depth") then Some (fun v => mkClientOptions d f s n w b k q v ow c)
  else None.
Definition set_overwrite (o : ClientOptions) : ClientOptions :=
  let '(mkClientOptions d f s n w b k q r _ c) := o in mkClientOptions d f s n w b k q r true c.
Definition set_contiguous (o : ClientOptions) : ClientOptions :=
  let '(mkClientOptions d f s n w b k q r ow _) := o in mkClientOptions d f s n w b k q r ow false.
Definition set_stream (o : ClientOptions) (name : bytes) : ClientOptions :=
  let '(mkClientOptions d f _ n w b k q r ow c) := o in mkClientOptions d f name n w b k q r ow c.

Fixpoint parse_arguments (arguments : list bytes) (o : ClientOptions) : hres ClientOptions :=
  match arguments with
  | [] => Val o
  | argument :: rest =>
      if bool_decide (argument = str "--overwrite") then parse_arguments rest (set_overwrite o)
      else if bool_decide (argument = str "--contiguous") then parse_arguments rest (set_contiguous o)
      else match size_option argument o with
      | Some set =>
          match rest with
          | [] => Err (argument ++ str " requires a value")
          | text :: rest => let! value := parse_positive text argument in parse_arguments rest (set value)
          end
      | None =>
          match rest with
          | name :: rest =>
              if bool_decide (argument = str "--stream") then parse_arguments rest (set_stream o name)
              else Err (str "unknown or incomplete option: " ++ argument)
          | [] => Err (str "unknown or incomplete option: " ++ argument)
          end
      end
  end.

Definition block_count (o : ClientOptions) : Z := co_frames o / co_frames_per_block o.

(** The checks after the loop. *)
Definition check_options (o : ClientOptions) : hres ClientOptions :=
  guard! negb (co_frames o =? 0) else str "--frames is required" in
  guard! co_frames o mod co_frames_per_block o =? 0
    else str "--frames must be a multiple of --frames-per-block" in
  guard! negb (block_count o <? co_writers o) else str "--writers cannot exceed the number of blocks" in
  guard! negb (2 ^ 32 - 1 <? co_ring_depth o) else str "--ring-depth is too large" in
  Val o.

(** [parse_options] on the arguments after the program's name. *)
Definition parse_options (argv : list bytes) : hres ClientOptions :=
  match argv with
  | device :: output :: arguments =>
      let! o := parse_arguments arguments (ClientOptions_default device output) in check_options o
  | _ => Err (str "missing device or output file")
  end.

(** ** The geometry of a frame *)

Record Hdf5Geometry : Type := mkHdf5Geometry {
  hg_element_type : ElementType;
  hg_element_size : Z;
  hg_frame_dimensions : list Z;
  hg_frame_bytes : Z;
  hg_slot_bytes : Z
}.

(** The loop over the axes, innermost first: [reverse] counts them. *)
Fixpoint contiguous_loop (reverse : nat) (publisher : Geometry) (stride : Z) : hres Z :=
  match reverse with
  | O => Val stride
  | S i =>
      let n := geo_shape publisher !!! i in
      guard! negb ((n =? 0) || negb (geo_strides publisher !!! i =? stride))
        else str "the HDF5 client requires non-empty C-contiguous publisher geometry" in
      guard! negb ((2 ^ 64 - 1) / n <? stride) else str "publisher frame geometry overflows" in
      contiguous_loop i publisher (u64 (stride * n))
  end.

Definition geometry_from_publisher (publisher : Geometry) : hres Hdf5Geometry :=
  guard! negb ((geo_rank publisher =? 0) || (k_max_rank <? geo_rank publisher) ||
               (geo_element_size publisher =? 0) || bool_decide (geo_element_type publisher = ET_Unknown))
    else str "publisher returned incomplete frame geometry" in
  let rank := Z.to_nat (geo_rank publisher) in
  let! frame_bytes := contiguous_loop rank publisher (geo_element_size publisher) in
  guard! negb (geo_max_frame_bytes publisher <? frame_bytes)
    else str "publisher frame shape exceeds max_frame_bytes" in
  Val (mkHdf5Geometry (geo_element_type publisher) (geo_element_size publisher)
         (take rank (geo_shape publisher)) frame_bytes (geo_max_frame_bytes publisher)).

(** ** Shards *)

Record BlockLocation : Type := mkBlockLocation { bl_writer : Z; bl_local_block : Z }.
#[export] Instance BlockLocation_eq_dec : EqDecision BlockLocation.
Proof. solve_decision. Defined.

Definition locate_block (block : Z) (o : ClientOptions) : BlockLocation :=
  let stripe := block / co_blocks_per_stripe o in
  let writer := stripe mod co_writers o in
  let local_stripe := stripe / co_writers o in
  let inside := block mod co_blocks_per_stripe o in
  mkBlockLocation writer (u64 (u64 (local_stripe * co_blocks_per_stripe o) + inside)).

(** The loop of [local_frame_counts] over [remaining] blocks from [block]. *)
Fixpoint count_loop (remaining : nat) (block : Z) (o : ClientOptions) (result : list Z) : list Z :=
  match remaining with
  | O => result
  | S remaining =>
      let location := locate_block block o in
      let w := Z.to_nat (bl_writer location) in
      count_loop remaining (block + 1) o
        (<[w := Z.max (result !!! w) (u64 (u64 (bl_local_block location + 1) * co_frames_per_block o))]> result)
  end.
Definition local_frame_counts (o : ClientOptions) : list Z :=
  count_loop (Z.to_nat (block_count o)) 0 o (replicate (Z.to_nat (co_writers o)) 0).

(** The text before and after the last [sep]. *)
Fixpoint split_last (sep : byte) (text : bytes) : option (bytes * bytes) :=
  match text with
  | [] => None
  | c :: text =>
      match split_last sep text with
      | Some (a, b) => Some (c :: a, b)
      | None => if bool_decide (c = sep) then Some ([], text) else None
      end
  end.

(** [path::filename] and [path::extension]. *)
Definition filename (path : bytes) : bytes :=
  match split_last "/"%byte path with Some (_, name) => name | None => path end.
Definition extension (path : bytes) : bytes :=
  let name := filename path in
  if bool_decide (name = str ".") || bool_decide (name = str "..") then [] else
  match split_last "."%byte name with
  | Some (_ :: _, e) => "."%byte :: e
  | _ => []
  end.

(** [setfill('0') << setw(3)]. *)
Definition pad3 (digits : bytes) : bytes := replicate (3 - length digits) "0"%byte ++ digits.
Definition shard_suffix (index : Z) : bytes := str ".part_" ++ pad3 (to_string index) ++ str ".h5".
Definition shard_path (o : ClientOptions) (index : Z) : bytes :=
  let e := extension (co_output o) in
  let base := if bool_decide (e = str ".h5") || bool_decide (e = str ".hdf5")
              then take (length (co_output o) - length e) (co_output o) else co_output o in
  base ++ shard_suffix index.

#[export] Instance byte_countable : Countable byte := inj_countable Byte.to_N Byte.of_N Byte.of_to_N.

(** The files a run creates, and [prepare_outputs] on the files that exist. *)
Definition output_paths (o : ClientOptions) : list bytes :=
  co_output o :: (shard_path o <$> (Z.of_nat <$> seq 0 (Z.to_nat (co_writers o)))).
Fixpoint prepare_loop (paths : list bytes) (overwrite : bool) (files : gset bytes) : hres (gset bytes) :=
  match paths with
  | [] => Val files
  | path :: paths =>
      if bool_decide (path ∈ files) then
        guard! overwrite else path ++ str " already exists (pass --overwrite to replace outputs)" in
        prepare_loop paths overwrite (files ∖ {[path]})
      else prepare_loop paths overwrite files
  end.
Definition prepare_outputs (o : ClientOptions) (files : gset bytes) : hres (gset bytes) :=
  prepare_loop (output_paths o) (co_overwrite o) files.

(** ** The master file *)

(** One [H5Pset_virtual]: [count] frames of the master from [virtual_start] are the
    frames of [source] from [local_start]; the source has [source_frames]. *)
Record VdsMapping : Type := mkVdsMapping {
  vm_virtual_start : Z;
  vm_count : Z;
  vm_source : bytes;
  vm_local_start : Z;
  vm_source_frames : Z
}.
Definition block_mapping (o : ClientOptions) (shard_frames : list Z) (block : Z) : VdsMapping :=
  let location := locate_block block o in
  mkVdsMapping (u64 (block * co_frames_per_block o)) (co_frames_per_block o)
    (filename (shard_path o (bl_writer location)))
    (u64 (bl_local_block location * co_frames_per_block o))
    (shard_frames !!! Z.to_nat (bl_writer location)).

(** The mappings [create_master] makes before it creates the file. *)
Definition master_mappings (o : ClientOptions) : list VdsMapping :=
  block_mapping o (local_frame_counts o) <$> (Z.of_nat <$> seq 0 (Z.to_nat (block_count o))).

(** ** Options that were accepted *)

Record options_ok (o : ClientOptions) : Prop := {
  oo_frames : 0 < co_frames o < 2 ^ 64;
  oo_block : 0 < co_frames_per_block o < 2 ^ 64;
  oo_multiple : co_frames o = block_count o * co_frames_per_block o;
  oo_writers : 0 < co_writers o <= block_count o;
  oo_stripe : 0 < co_blocks_per_stripe o < 2 ^ 64;
  oo_queue : 0 < co_queue_depth o < 2 ^ 64;
  oo_ring : 0 < co_ring_depth o < 2 ^ 32
}.

(** Every number in range, the count of frames possibly still missing. *)
Definition numbers_ok (o : ClientOptions) : Prop :=
  0 <= co_frames o < 2 ^ 64 /\ 0 < co_writers o < 2 ^ 64 /\ 0 < co_frames_per_block o < 2 ^ 64 /\
  0 < co_blocks_per_stripe o < 2 ^ 64 /\ 0 < co_queue_depth o < 2 ^ 64 /\ 0 < co_ring_depth o < 2 ^ 64.

Lemma take_digits_nonneg text acc : 0 <= acc -> 0 <= fst (take_digits text acc).
Proof.
  revert acc. induction text as [|c text IH]; simpl; [done|]. intros acc ?.
  destruct (digit_value c) as [d|] eqn:Hd; [|done]. apply IH.
  unfold digit_value in Hd. destruct (_ && _) eqn:Hc; [|done]. injection Hd as <-. bool_to_prop. lia.
Qed.

Lemma scan_unsigned_nonneg text negative v rest : scan_unsigned text = Some (negative, v, rest) -> 0 <= v.
Proof.
  unfold scan_unsigned. destruct (match skip_spaces text with [] => _ | _ => _ end) as [sign body].
  destruct body as [|c body]; [done|]. destruct (digit_value c) as [d|]; [|done].
  pose proof (take_digits_nonneg (c :: body) 0 ltac:(lia)) as Hn.
  destruct (take_digits (c :: body) 0) as [w r]. by intros [= _ <- _].
Qed.

Lemma strtoull_range text : 0 <= fst (strtoull text) < 2 ^ 64.
Proof.
  unfold strtoull. destruct (scan_unsigned text) as [[[negative v] rest]|] eqn:Hs; [|done].
  apply scan_unsigned_nonneg in Hs. cbn [fst]. destruct (Z.leb_spec (2 ^ 64) v); [lia|].
  destruct negative; [|lia]. by apply wrap_in_range.
Qed.

Lemma parse_positive_range text option v : parse_positive text option = Val v -> 0 < v < 2 ^ 64.
Proof.
  unfold parse_positive. pose proof (strtoull_range text) as Hr.
  destruct (strtoull text) as [value rest]. destruct (_ || _ || _) eqn:Hc; [done|]. intros [= <-].
  apply orb_false_iff in Hc as [_ Hc]. simpl in Hr. lia.
Qed.

Lemma size_option_ok argument o set v :
  size_option argument o = Some set -> numbers_ok o -> 0 < v < 2 ^ 64 -> numbers_ok (set v).
Proof.
  unfold numbers_ok. destruct o. unfold size_option. intros Hs Ho Hv.
  repeat case_match; simplify_eq; simpl in *; lia.
Qed.

Lemma parse_arguments_ok n arguments o o' :
  (length arguments <= n)%nat -> numbers_ok o -> parse_arguments arguments o = Val o' -> numbers_ok o'.
Proof.
  revert arguments o. induction n as [|n IH]; intros [|argument rest] o Hn Ho;
    cbn [parse_arguments length] in *; try lia; try (by intros [= <-]).
  case_bool_decide; [apply IH; [lia|by destruct o]|].
  case_bool_decide; [apply IH; [lia|by destruct o]|].
  destruct (size_option argument o) as [set|] eqn:Hs.
  - destruct rest as [|text rest]; [done|]. destruct (parse_positive text argument) as [v| |] eqn:Hv; [|done..].
    rewrite bind_val. apply IH; [simpl in *; lia|].
    eapply size_option_ok; [done..|by eapply parse_positive_range].
  - destruct rest as [|name rest]; [done|]. case_bool_decide; [|done].
    apply IH; [simpl in *; lia|by destruct o].
Qed.

Lemma parse_options_ok argv o : parse_options argv = Val o -> options_ok o.
Proof.
  unfold parse_options. destruct argv as [|device [|output arguments]]; [done..|].
  destruct (parse_arguments _ _) as [o1| |] eqn:Hp; [|done..]. rewrite bind_val.
  assert (numbers_ok o1) as (H1 & H2 & H3 & H4 & H5 & H6).
  { eapply parse_arguments_ok; [done| |done]. unfold numbers_ok. simpl. lia. }
  unfold check_options. intros [Hf Hc]%guard_val_inv. apply guard_val_inv in Hc as [Hm Hc].
  apply guard_val_inv in Hc as [Hw Hc]. apply guard_val_inv in Hc as [Hr [= <-]].
  bool_to_prop. split; try lia; unfold block_count in *.
  pose proof (Z.div_mod (co_frames o1) (co_frames_per_block o1)). lia.
Qed.

(** ** Where a block goes *)

(** The blocks below [n] that go to writer [w]. *)
Definition blocks_below (o : ClientOptions) (n : nat) (w : Z) : Z :=
  Z.of_nat (length (filter (fun b => bl_writer (locate_block b o) = w) (Z.of_nat <$> seq 0 n))).

Section Layout.
Context (o : ClientOptions) (Hok : options_ok o).
#[local] Abbreviation BS := (co_blocks_per_stripe o).
#[local] Abbreviation WR := (co_writers o).

(** A block as a round [q] of all the writers and a place [r] in the round. *)
Lemma locate_round q r :
  0 <= q -> 0 <= r < BS * WR -> q * (BS * WR) + r < 2 ^ 64 ->
  locate_block (q * (BS * WR) + r) o = mkBlockLocation (r / BS) (q * BS + r mod BS) /\ 0 <= r / BS < WR.
Proof.
  destruct Hok as [_ _ _ [HW _] [HS _] _ _]. intros Hq Hr Hb. unfold locate_block.
  assert (0 <= r / BS < WR) as Hw.
  { split; [apply Z.div_pos; lia|]. apply Z.div_lt_upper_bound; lia. }
  split; [|done].
  assert ((q * (BS * WR) + r) / BS = r / BS + q * WR) as Hd.
  { replace (q * (BS * WR) + r) with (r + q * WR * BS) by lia. rewrite Z.div_add by lia. done. }
  assert ((q * (BS * WR) + r) mod BS = r mod BS) as Hm.
  { replace (q * (BS * WR) + r) with (r + q * WR * BS) by lia. by rewrite Z.mod_add by lia. }
  rewrite Hd, Hm, Z.mod_add, Z.div_add, Z.mod_small, (Z.div_small (r / BS)) by lia.
  pose proof (Z.mod_pos_bound r BS HS) as Hi. rewrite Z.add_0_l.
  assert (q * BS <= q * (BS * WR)) by (apply Z.mul_le_mono_nonneg_l; [lia|nia]). assert (r mod BS <= r) by (apply Z.mod_le; lia).
  assert (0 <= q * BS) by nia. set (x := q * BS) in *. set (y := q * (BS * WR)) in *.
  rewrite (wrap_small 64 x), wrap_small by (unfold in_range; lia). done.
Qed.

(** The closed form of [blocks_below]. *)
Definition below (n w : Z) : Z := n / (BS * WR) * BS + Z.max 0 (Z.min BS (n mod (BS * WR) - w * BS)).

Lemma round_of n : 0 <= n -> n = n / (BS * WR) * (BS * WR) + n mod (BS * WR) /\ 0 <= n mod (BS * WR) < BS * WR /\ 0 <= n / (BS * WR).
Proof.
  destruct Hok as [_ _ _ [HW _] [HS _] _ _]. intros Hn. assert (0 < BS * WR) by nia.
  pose proof (Z.div_mod n (BS * WR)). pose proof (Z.mod_pos_bound n (BS * WR)).
  pose proof (Z.div_pos n (BS * WR)). lia.
Qed.

(** The place of a block in its shard is the number of blocks of the writer before it. *)
Lemma below_step n w :
  0 <= n < 2 ^ 64 -> 0 <= w < WR ->
  below (n + 1) w = below n w + (if bool_decide (bl_writer (locate_block n o) = w) then 1 else 0) /\
  (bl_writer (locate_block n o) = w -> bl_local_block (locate_block n o) = below n w).
Proof.
  intros Hn Hw. destruct (round_of n) as (He & Hr & Hq); [lia|].
  set (q := n / (BS * WR)) in *. set (r := n mod (BS * WR)) in *.
  destruct (locate_round q r Hq Hr) as [Hl Hrw]; [lia|]. rewrite <-He in Hl. rewrite Hl. cbn [bl_writer bl_local_block].
  destruct Hok as [_ _ _ [HW _] [HS _] _ _].
  pose proof (Z.div_mod r BS) as Hrs. pose proof (Z.mod_pos_bound r BS HS) as Hi.
  assert (below (n + 1) w = if bool_decide (r + 1 = BS * WR) then (q + 1) * BS
            else q * BS + Z.max 0 (Z.min BS (r + 1 - w * BS))) as ->.
  { unfold below. case_bool_decide as Hend.
    - replace (n + 1) with (0 + (q + 1) * (BS * WR)) by lia.
      rewrite Z.div_add, Z.mod_add, Z.div_0_l, Z.mod_0_l by nia. nia.
    - replace (n + 1) with (r + 1 + q * (BS * WR)) by lia.
      rewrite Z.div_add, Z.mod_add, Z.div_small, Z.mod_small by lia. lia. }
  unfold below. fold q r.
  assert (0 <= w * BS) as Hw0 by nia. assert (w * BS + BS <= BS * WR) as Hw1 by nia.
  assert (r / BS = w <-> w * BS <= r < w * BS + BS) as Hb.
  { split; [intros <-; lia|]. intros. symmetry. apply (Z.div_unique r BS w (r - w * BS)); lia. }
  replace ((q + 1) * BS) with (q * BS + BS) by lia.
  set (x := q * BS) in *. set (y := w * BS) in *. set (z := BS * WR) in *. split.
  - destruct (decide (r / BS = w)) as [Hd|Hd].
    + rewrite (bool_decide_eq_true_2 (r / BS = w)) by done. apply Hb in Hd. case_bool_decide; lia.
    + rewrite (bool_decide_eq_false_2 (r / BS = w)) by done.
      assert (~ (y <= r < y + BS)) by (by rewrite <-Hb). case_bool_decide; lia.
  - intros Hwr. assert (r mod BS = r - y) as -> by (unfold y; rewrite <-Hwr; lia).
    apply Hb in Hwr. lia.
Qed.

Lemma blocks_fit : 0 < block_count o < 2 ^ 64 /\ block_count o * co_frames_per_block o = co_frames o.
Proof. destruct Hok as [Hf [Hb _] Hm [HW Hle] _ _ _]. split; [nia|lia]. Qed.

Lemma locate_writer b : 0 <= b < 2 ^ 64 -> 0 <= bl_writer (locate_block b o) < WR.
Proof.
  intros Hb. destruct (round_of b) as (He & Hr & Hq); [lia|].
  destruct (locate_round _ _ Hq Hr) as [Hl Hw]; [lia|]. rewrite <-He in Hl. by rewrite Hl.
Qed.

Lemma below_0 w : 0 <= w -> below 0 w = 0.
Proof.
  destruct Hok as [_ _ _ [HW _] [HS _] _ _]. intros. unfold below.
  rewrite Z.div_0_l, Z.mod_0_l by nia. assert (0 <= w * BS) by nia. lia.
Qed.

Lemma below_le n w : 0 <= n <= 2 ^ 64 -> 0 <= w < WR -> 0 <= below n w <= n.
Proof.
  intros [Hn Hm] Hw. revert n Hn Hm. apply (natlike_ind (fun n => n <= 2 ^ 64 -> 0 <= below n w <= n)).
  - intros _. rewrite below_0; lia.
  - intros n Hn IH Hm. rewrite <-Z.add_1_r in *. destruct (below_step n w) as [-> _]; [lia|done|].
    case_bool_decide; lia.
Qed.

Lemma below_mono w n m : 0 <= w < WR -> 0 <= n <= m -> m <= 2 ^ 64 -> below n w <= below m w.
Proof.
  intros Hw [Hn Hm]. revert m Hm. apply (Z.le_ind (fun m => m <= 2 ^ 64 -> below n w <= below m w));
    [intros ?? ->; done|done|].
  intros m Hnm IH Hm. rewrite <-Z.add_1_r in *. destruct (below_step m w) as [-> _]; [lia|done|].
  case_bool_decide; lia.
Qed.

Lemma below_local b : 0 <= b < 2 ^ 64 ->
  bl_local_block (locate_block b o) = below b (bl_writer (locate_block b o)).
Proof. intros Hb. by apply below_step; [|apply locate_writer|]. Qed.

(** A block is counted among those below any larger one. *)
Lemma below_lt b n : 0 <= b < n -> n <= 2 ^ 64 ->
  bl_local_block (locate_block b o) < below n (bl_writer (locate_block b o)).
Proof.
  intros Hb Hn. pose proof (locate_writer b ltac:(lia)) as Hw. rewrite below_local by lia.
  destruct (below_step b (bl_writer (locate_block b o))) as [Hs _]; [lia|done|].
  rewrite bool_decide_eq_true_2 in Hs by done.
  pose proof (below_mono _ (b + 1) n Hw). lia.
Qed.

Lemma locate_inj b b' :
  0 <= b < 2 ^ 64 -> 0 <= b' < 2 ^ 64 -> locate_block b o = locate_block b' o -> b = b'.
Proof.
  assert (forall b b', 0 <= b < b' -> b' < 2 ^ 64 -> locate_block b o <> locate_block b' o) as Hlt.
  { intros c c' Hc Hc' He. pose proof (below_lt c c' Hc ltac:(lia)) as Hl.
    rewrite He, <-below_local in Hl by lia. lia. }
  intros Hb Hb' He. destruct (Z.lt_trichotomy b b') as [?|[?|?]]; [|done|]; exfalso.
  - exact (Hlt b b' ltac:(lia) ltac:(lia) He).
  - exact (Hlt b' b ltac:(lia) ltac:(lia) (eq_sym He)).
Qed.

Lemma locate_surj n w l :
  0 <= n <= 2 ^ 64 -> 0 <= w < WR -> 0 <= l < below n w ->
  exists b, 0 <= b < n /\ locate_block b o = mkBlockLocation w l.
Proof.
  intros [Hn Hn'] Hw. revert n Hn Hn'. apply (natlike_ind (fun n => n <= 2 ^ 64 -> 0 <= l < below n w ->
    exists b, 0 <= b < n /\ locate_block b o = mkBlockLocation w l)).
  - intros _. rewrite below_0 by lia. lia.
  - intros n Hn IH Hn' Hl. rewrite <-Z.add_1_r in *. destruct (below_step n w) as [Hs Hloc]; [lia|done|].
    destruct (decide (l < below n w)) as [Hlt|Hge].
    + destruct IH as (b & Hb & He); [lia..|]. exists b. split; [lia|done].
    + rewrite Hs in Hl. case_bool_decide as Hwr; [|lia]. specialize (Hloc Hwr).
      exists n. split; [lia|]. destruct (locate_block n o). simpl in *. f_equal; lia.
Qed.

Lemma blocks_below_closed n w :
  Z.of_nat n <= 2 ^ 64 -> 0 <= w < WR -> blocks_below o n w = below (Z.of_nat n) w.
Proof.
  intros Hn Hw. induction n as [|n IH]; [by rewrite below_0 by lia|].
  unfold blocks_below in *. rewrite seq_S, fmap_app, list.filter_app, length_app, Nat2Z.inj_add, IH by lia.
  rewrite Nat.add_0_l, Nat2Z.inj_succ, <-Z.add_1_r. destruct (below_step (Z.of_nat n) w) as [-> _]; [lia|done|].
  f_equal. cbn [fmap list_fmap]. rewrite list.filter_cons, list.filter_nil. case_decide; case_bool_decide; done.
Qed.

(** ** The size of a shard *)

Lemma count_loop_spec remaining block result :
  0 <= block -> block + Z.of_nat remaining = block_count o ->
  length result = Z.to_nat WR ->
  (forall w, 0 <= w < WR -> result !!! Z.to_nat w = below block w * co_frames_per_block o) ->
  let final := count_loop remaining block o result in
  length final = Z.to_nat WR /\
  forall w, 0 <= w < WR -> final !!! Z.to_nat w = below (block_count o) w * co_frames_per_block o.
Proof.
  destruct blocks_fit as [Hbc Hfr]. destruct Hok as [Hf [Hb _] _ _ _ _ _].
  revert block result. induction remaining as [|remaining IH]; intros block result H0 Hn Hlen Hres; cbn [count_loop].
  { simpl. replace (block_count o) with block by lia. done. }
  pose proof (locate_writer block ltac:(lia)) as Hwr. pose proof (below_local block ltac:(lia)) as Hloc.
  set (location := locate_block block o) in *. set (v := bl_writer location) in *.
  pose proof (below_le block v ltac:(lia) Hwr) as [Hnn _].
  destruct (below_step block v) as [Hstep _]; [lia|done|]. fold location in Hstep. fold v in Hstep.
  rewrite bool_decide_eq_true_2 in Hstep by done.
  assert (below (block + 1) v <= block_count o) as Hcap.
  { pose proof (below_le (block + 1) v). lia. }
  apply IH; [lia|lia|by rewrite length_insert|].
  intros w Hw. destruct (below_step block w) as [-> _]; [lia|done|]. fold location. fold v.
  case_bool_decide as Hv.
  - subst w. rewrite list_lookup_total_insert_eq by lia. rewrite Hres by done. rewrite Hloc.
    rewrite (wrap_small 64 (below block v + 1)), wrap_small by (unfold in_range; nia). nia.
  - rewrite list_lookup_total_insert_ne by lia. rewrite Hres by done. lia.
Qed.
End Layout.

(** ** Every frame has a home *)

(** The shard of a frame, and its place there. *)
Definition frame_home (o : ClientOptions) (f : Z) : Z * Z :=
  let location := locate_block (f / co_frames_per_block o) o in
  (bl_writer location, bl_local_block location * co_frames_per_block o + f mod co_frames_per_block o).

Lemma counts_exact o w :
  options_ok o -> 0 <= w < co_writers o ->
  local_frame_counts o !! Z.to_nat w =
  Some (blocks_below o (Z.to_nat (block_count o)) w * co_frames_per_block o).
Proof.
  intros Hok Hw. destruct (blocks_fit o Hok) as [Hb _].
  destruct (count_loop_spec o Hok (Z.to_nat (block_count o)) 0 (replicate (Z.to_nat (co_writers o)) 0))
    as [Hlen Hat]; [lia|lia|by rewrite length_replicate| |].
  { intros v Hv. rewrite lookup_total_replicate_2 by lia. by rewrite below_0 by (done || lia). }
  rewrite blocks_below_closed, Z2Nat.id by (done || lia). rewrite <-Hat by done.
  apply list_lookup_lookup_total_lt. unfold local_frame_counts. lia.
Qed.

Lemma frame_block o f : options_ok o -> 0 <= f < co_frames o ->
  0 <= f / co_frames_per_block o < block_count o /\ 0 <= f mod co_frames_per_block o < co_frames_per_block o /\
  f = f / co_frames_per_block o * co_frames_per_block o + f mod co_frames_per_block o.
Proof.
  intros Hok Hf. destruct (blocks_fit o Hok) as [_ Hbf]. destruct Hok as [_ [Hb _] _ _ _ _ _].
  pose proof (Z.div_mod f (co_frames_per_block o)). pose proof (Z.mod_pos_bound f (co_frames_per_block o) Hb).
  split; [|split; [done|lia]]. split; [apply Z.div_pos; lia|]. apply Z.div_lt_upper_bound; lia.
Qed.

Lemma home_in_shard o f : options_ok o -> 0 <= f < co_frames o ->
  0 <= fst (frame_home o f) < co_writers o /\
  exists n, local_frame_counts o !! Z.to_nat (fst (frame_home o f)) = Some n /\ 0 <= snd (frame_home o f) < n.
Proof.
  intros Hok Hf. destruct (frame_block o f Hok Hf) as (Hb & Hm & _). destruct (blocks_fit o Hok) as [Hbc _].
  pose proof (locate_writer o Hok (f / co_frames_per_block o) ltac:(lia)) as Hw.
  split; [done|]. eexists. split; [by apply counts_exact|]. cbn [frame_home fst snd] in *.
  rewrite blocks_below_closed, Z2Nat.id by (done || lia).
  pose proof (below_lt o Hok (f / co_frames_per_block o) (block_count o) Hb ltac:(lia)) as Hl.
  pose proof (below_local o Hok (f / co_frames_per_block o) ltac:(lia)) as He.
  pose proof (below_le o Hok (f / co_frames_per_block o) _ ltac:(lia) Hw) as [H0 _]. nia.
Qed.

Lemma split_unique b q r q' r' :
  0 <= r < b -> 0 <= r' < b -> q * b + r = q' * b + r' -> q = q' /\ r = r'.
Proof.
  intros Hr Hr' He. assert (q = q') as <-; [|lia].
  rewrite (Z.div_unique (q * b + r) b q r) by lia. symmetry. apply (Z.div_unique _ b q' r'); lia.
Qed.

Lemma home_inj o f g : options_ok o -> 0 <= f < co_frames o -> 0 <= g < co_frames o ->
  frame_home o f = frame_home o g -> f = g.
Proof.
  intros Hok Hf Hg. destruct (frame_block o f Hok Hf) as (Hb & Hm & He).
  destruct (frame_block o g Hok Hg) as (Hb' & Hm' & He'). destruct (blocks_fit o Hok) as [Hbc _].
  unfold frame_home. cbv zeta. intros [Hw Hr]%pair_equal_spec.
  set (B := co_frames_per_block o) in *. set (l := bl_local_block (locate_block (f / B) o)) in *.
  set (l' := bl_local_block (locate_block (g / B) o)) in *.
  destruct (split_unique B l _ l' _ Hm Hm' Hr) as [Hl Hmm].
  enough (f / B = g / B) by nia. apply (locate_inj o Hok); [lia..|].
  subst l l'. destruct (locate_block (f / B) o), (locate_block (g / B) o). simpl in *.
  congruence.
Qed.

Lemma home_surj o w r n : options_ok o -> 0 <= w < co_writers o ->
  local_frame_counts o !! Z.to_nat w = Some n -> 0 <= r < n ->
  exists f, 0 <= f < co_frames o /\ frame_home o f = (w, r).
Proof.
  intros Hok Hw. rewrite counts_exact by done. intros [= <-] Hr. destruct (blocks_fit o Hok) as [Hbc Hbf].
  rewrite blocks_below_closed, Z2Nat.id in Hr by (done || lia).
  set (B := co_frames_per_block o) in *. assert (0 < B) as HB by apply Hok.
  pose proof (Z.div_mod r B ltac:(lia)) as Hd. pose proof (Z.mod_pos_bound r B HB) as Hm.
  assert (0 <= r / B) by (apply Z.div_pos; lia).
  destruct (locate_surj o Hok (block_count o) w (r / B)) as (b & Hb & Hl); [lia|done|nia|].
  exists (b * B + r mod B). assert (b * B + r mod B < co_frames o) by nia. split; [nia|].
  unfold frame_home. fold B. rewrite Z.div_add_l, (Z.div_small (r mod B)), Z.add_0_r by lia. rewrite Hl. simpl.
  rewrite (Z.add_comm (b * B)), Z.mod_add, Z.mod_mod by lia. f_equal. lia.
Qed.

(** C27: the shards hold every frame exactly once and nothing else.  For every command line
    that is accepted: the size computed for a shard is that of the blocks that go to it;
    every frame has a place inside the shard of one writer; no two frames share a place;
    and every place of every shard is that of a frame, so no part of a shard stays
    unwritten. *)
Theorem sharding_bijective argv o (Hparse : parse_options argv = Val o) :
  (forall w, 0 <= w < co_writers o ->
     local_frame_counts o !! Z.to_nat w =
     Some (blocks_below o (Z.to_nat (block_count o)) w * co_frames_per_block o)) /\
  (forall f, 0 <= f < co_frames o -> 0 <= fst (frame_home o f) < co_writers o /\
     exists n, local_frame_counts o !! Z.to_nat (fst (frame_home o f)) = Some n /\ 0 <= snd (frame_home o f) < n) /\
  (forall f g, 0 <= f < co_frames o -> 0 <= g < co_frames o -> frame_home o f = frame_home o g -> f = g) /\
  (forall w r n, 0 <= w < co_writers o -> local_frame_counts o !! Z.to_nat w = Some n -> 0 <= r < n ->
     exists f, 0 <= f < co_frames o /\ frame_home o f = (w, r)).
Proof.
  apply parse_options_ok in Hparse as Hok. split; [|split; [|split]].
  - intros w Hw. by apply counts_exact.
  - intros f Hf. by apply home_in_shard.
  - intros f g Hf Hg. by apply home_inj.
  - intros w r n Hw Hn Hr. by eapply home_surj.
Qed.

Definition sample_argv : list bytes :=
  [str "sys/tg_test/1"; str "run.h5"; str "--frames"; str "36"; str "--frames-per-block"; str "3";
   str "--writers"; str "3"; str "--blocks-per-stripe"; str "2"].
Definition sample_options : ClientOptions :=
  match parse_options sample_argv with Val o => o | _ => ClientOptions_default [] [] end.

Lemma sharding_bijective_witness :
  local_frame_counts sample_options = [12; 12; 12] /\ frame_home sample_options 20 = (0, 8) /\
  exists f, 0 <= f < 36 /\ frame_home sample_options f = (2, 7).
Proof.
  split; [by vm_compute|]. split; [by vm_compute|].
  destruct (sharding_bijective sample_argv sample_options ltac:(by vm_compute)) as (_ & _ & _ & Hs).
  apply (Hs 2 7 12); [by vm_compute|by vm_compute|lia].
Defined.

(** With whole stripes of blocks a writer can be left without a frame: the options are
    accepted, and its chunk would have no frame. *)
Definition striped_argv : list bytes :=
  [str "d"; str "run.h5"; str "--frames"; str "4"; str "--frames-per-block"; str "1";
   str "--writers"; str "4"; str "--blocks-per-stripe"; str "4"].
Definition striped_options : ClientOptions :=
  match parse_options striped_argv with Val o => o | _ => ClientOptions_default [] [] end.
Theorem accepted_options_empty_shard :
  parse_options striped_argv = Val striped_options /\ co_chunked striped_options = true /\
  local_frame_counts striped_options = [4; 0; 0; 0].
Proof. by vm_compute. Qed.

(** A negative number is accepted as a very large one. *)
Example negative_number_accepted : parse_positive (str "-5") (str "--queue-depth") = Val (2 ^ 64 - 5).
Proof. by vm_compute. Qed.

(** ** Files *)

Lemma parse_padded n text : parse_digits (replicate n "0"%byte ++ text) 0 = parse_digits text 0.
Proof. induction n as [|n IH]; [done|]. simpl. exact IH. Qed.

Lemma pad3_inj i j : in_range 64 i -> in_range 64 j -> pad3 (to_string i) = pad3 (to_string j) -> i = j.
Proof.
  intros Hi Hj He. apply (f_equal (fun t => parse_digits t 0)) in He. unfold pad3 in He.
  rewrite !parse_padded in He. unfold to_string, in_range in *.
  assert (2 ^ 64 < 10 ^ Z.of_nat 20) by by vm_compute.
  rewrite !parse_to_digits in He by lia. congruence.
Qed.

(** The file a shard's name extends. *)
Definition shard_base (o : ClientOptions) : bytes :=
  let e := extension (co_output o) in
  if bool_decide (e = str ".h5") || bool_decide (e = str ".hdf5")
  then take (length (co_output o) - length e) (co_output o) else co_output o.

Lemma shard_path_inj o i j :
  in_range 64 i -> in_range 64 j -> shard_path o i = shard_path o j -> i = j.
Proof.
  intros Hi Hj. unfold shard_path. cbv zeta. fold (shard_base o). unfold shard_suffix.
  intros He%app_inv_head%app_inv_head. apply (pad3_inj i j Hi Hj). by eapply app_inv_tail.
Qed.

Lemma shard_path_longer o i : (length (co_output o) < length (shard_path o i))%nat.
Proof.
  unfold shard_path. cbv zeta. rewrite length_app. unfold shard_suffix, pad3. rewrite !length_app, length_replicate.
  change (length (str ".part_")) with 6%nat. change (length (str ".h5")) with 3%nat.
  destruct (bool_decide (extension (co_output o) = str ".h5")) eqn:H1; simpl.
  { apply bool_decide_eq_true in H1 as ->. change (length (str ".h5")) with 3%nat. rewrite length_take. lia. }
  destruct (bool_decide (extension (co_output o) = str ".hdf5")) eqn:H2; [|lia].
  apply bool_decide_eq_true in H2 as ->. change (length (str ".hdf5")) with 5%nat. rewrite length_take. lia.
Qed.

Lemma output_paths_distinct o : options_ok o -> NoDup (output_paths o).
Proof.
  intros Hok. destruct (blocks_fit o Hok) as [Hb _]. assert (co_writers o <= block_count o) by apply Hok.
  unfold output_paths. apply list.NoDup_cons. split.
  - intros (i & Hi & _)%list_elem_of_fmap. pose proof (shard_path_longer o i) as Hl. rewrite <-Hi in Hl. lia.
  - apply NoDup_fmap_2_strong; [|apply NoDup_fmap_2; [apply _|apply list.NoDup_seq]].
    intros i j Hi Hj He. apply list_elem_of_fmap in Hi as (n & -> & Hn%elem_of_seq), Hj as (k & -> & Hk%elem_of_seq).
    eapply shard_path_inj; [..|done]; unfold in_range; lia.
Qed.

Lemma prepare_loop_spec paths overwrite files files' :
  prepare_loop paths overwrite files = Val files' ->
  (forall p, p ∈ paths -> p ∉ files') /\ files' ⊆ files /\ files ∖ files' ⊆ list_to_set paths /\
  (overwrite = false -> files' = files).
Proof.
  revert files. induction paths as [|p paths IH]; intros files; cbn [prepare_loop].
  { intros [= <-]. split; [by intros p ?%not_elem_of_nil|set_solver]. }
  case_bool_decide as Hp.
  - destruct overwrite; [|done]. intros (H1 & H2 & H3 & _)%IH. split.
    + intros q [->|Hq]%elem_of_cons; [set_solver|by apply H1].
    + split; [set_solver|]. split; [|done]. intros x [Hx Hx']%elem_of_difference.
      destruct (decide (x = p)); set_solver.
  - intros (H1 & H2 & H3 & H4)%IH. split.
    + intros q [->|Hq]%elem_of_cons; [set_solver|by apply H1].
    + split; [done|]. split; [set_solver|done].
Qed.

(** The outputs of an accepted command line are different files; once they are prepared
    none exists, nothing else has been removed, and without [--overwrite] nothing has. *)
Theorem outputs_prepared argv o files files'
  (Hparse : parse_options argv = Val o) (Hprep : prepare_outputs o files = Val files') :
  NoDup (output_paths o) /\ (forall p, p ∈ output_paths o -> p ∉ files') /\
  files' ⊆ files /\ files ∖ files' ⊆ list_to_set (output_paths o) /\
  (co_overwrite o = false -> files' = files).
Proof.
  split; [eapply output_paths_distinct, parse_options_ok; done|]. by apply prepare_loop_spec.
Qed.

Lemma outputs_prepared_witness :
  output_paths sample_options =
    [str "run.h5"; str "run.part_000.h5"; str "run.part_001.h5"; str "run.part_002.h5"] /\
  NoDup (output_paths sample_options).
Proof.
  split; [by vm_compute|].
  destruct (outputs_prepared sample_argv sample_options ∅ ∅) as [Hd _];
    [vm_cast_no_check (eq_refl (Val (E := bytes) sample_options))|vm_cast_no_check (eq_refl (Val (E := bytes) (∅ : gset bytes)))|exact Hd].
Defined.
