(* ===== verification/Hdf5Writer.v ===== *)
(** * The HDF5 client: writing frames from the receive ring

    [Hdf5ShardWriter], the writer process and the coordinator's end of its socket in
    [examples/example_hdf5_client/example_hdf5_client.cpp].  HDF5 is a class: what its
    documentation says of selections, writes and virtual datasets.  A pointer into the
    shared ring is its offset; what the ring holds when a block is written is an argument. *)
From stdpp Require Import list sets gmap.
From S2P Require Import Prelude Enums Limits Geometry Text Hdf5Shards.
From Stdlib Require Import Strings.Byte.

(** ** HDF5 *)

Inductive H5Type : Type :=
| H5_U8LE | H5_I8LE | H5_U16LE | H5_U16BE | H5_I16LE | H5_I16BE | H5_U32LE | H5_U32BE | H5_I32LE | H5_I32BE
| H5_U64LE | H5_U64BE | H5_I64LE | H5_I64BE | H5_F32LE | H5_F32BE | H5_F64LE | H5_F64BE.

(** A dataspace with its selection: everything ([H5Screate_simple]), or what
    [H5Sselect_hyperslab(H5S_SELECT_SET)] selects; a null stride or block is [None]. *)
Inductive Space : Type :=
| SpaceAll (dimensions : list Z)
| SpaceSlab (dimensions start : list Z) (stride : option (list Z)) (count : list Z) (block : option (list Z)).

(** [h5_selected]: the elements of a selection, by their number in row-major order, in the
    order they are transferred.  [h5_value]: the value of an element in memory.
    [h5_virtual]: the file and the frame a virtual dataset reads a frame from. *)
Class Hdf5 (D V : Type) := {
  h5_selected : Space -> list Z;
  h5_value : H5Type -> bytes -> V;
  h5_create : list Z -> D;
  h5_dims : D -> list Z;
  h5_get : D -> Z -> option V;
  h5_write : D -> Space -> list V -> D;
  h5_virtual : list VdsMapping -> Z -> option (bytes * Z)
}.

Class Hdf5Laws (D V : Type) {H : Hdf5 D V} : Prop := {
  selected_all dims :
    h5_selected (SpaceAll dims) = seqZ 0 (product dims);
  selected_rows n rest r c :
    0 <= r -> 0 <= c -> r + c <= n ->
    h5_selected (SpaceSlab (n :: rest) (r :: replicate (length rest) 0) None (c :: rest) None) =
    seqZ (r * product rest) (c * product rest);
  selected_blocks extent stride count block :
    0 < block <= stride -> 0 < count -> stride * (count - 1) + block <= extent ->
    h5_selected (SpaceSlab [extent] [0] (Some [stride]) [count] (Some [block])) =
    concat ((fun k => seqZ (k * stride) block) <$> seqZ 0 count);
  h5_create_dims dims : h5_dims (h5_create dims) = dims;
  h5_write_dims d space values : h5_dims (h5_write d space values) = h5_dims d;
  h5_write_in d space values j k v :
    length values = length (h5_selected space) -> NoDup (h5_selected space) ->
    h5_selected space !! j = Some k -> values !! j = Some v ->
    h5_get (h5_write d space values) k = Some v;
  h5_write_out d space values k :
    length values = length (h5_selected space) -> k ∉ h5_selected space ->
    h5_get (h5_write d space values) k = h5_get d k;
  h5_virtual_at mappings i m f :
    mappings !! i = Some m ->
    (forall j m', mappings !! j = Some m' -> j <> i ->
       vm_virtual_start m' + vm_count m' <= vm_virtual_start m \/
       vm_virtual_start m + vm_count m <= vm_virtual_start m') ->
    vm_virtual_start m <= f < vm_virtual_start m + vm_count m ->
    vm_local_start m + vm_count m <= vm_source_frames m ->
    h5_virtual mappings f = Some (vm_source m, vm_local_start m + (f - vm_virtual_start m))
}.

(** [hdf5_type]. *)
Definition hdf5_type (type : ElementType) (endian : Endian) : hres H5Type :=
  let pick le be := Val (if bool_decide (endian = Little) then le else be) in
  match type with
  | ET_UInt8 | ET_Byte => Val H5_U8LE
  | ET_Int8 => Val H5_I8LE
  | ET_UInt16 => pick H5_U16LE H5_U16BE
  | ET_Int16 => pick H5_I16LE H5_I16BE
  | ET_UInt32 => pick H5_U32LE H5_U32BE
  | ET_Int32 => pick H5_I32LE H5_I32BE
  | ET_UInt64 => pick H5_U64LE H5_U64BE
  | ET_Int64 => pick H5_I64LE H5_I64BE
  | ET_Float32 => pick H5_F32LE H5_F32BE
  | ET_Float64 => pick H5_F64LE H5_F64BE
  | ET_Unknown | ElementType_other _ => Err (str "the stream has an unsupported HDF5 element type")
  end.

(** ** Writing a block *)

Record Hdf5Block : Type := mkHdf5Block {
  hb_local_first_frame : Z;
  hb_endian : Endian;
  hb_frames : list Z
}.

(** Blocks of [block] numbers, [stride] apart, in one list. *)
Lemma concat_blocks stride block count :
  0 < block -> 0 <= count ->
  concat ((fun k => seqZ (k * stride) block) <$> seqZ 0 count) =
  (fun j => j / block * stride + j mod block) <$> seqZ 0 (count * block).
Proof.
  intros Hb. revert count. apply natlike_ind; [done|]. intros c Hc IH.
  rewrite <-Z.add_1_r, Z.mul_add_distr_r, Z.mul_1_l, !seqZ_app by nia.
  rewrite !fmap_app, concat_app, IH. f_equal. rewrite (seqZ_cons (0 + c)), seqZ_nil by lia. simpl.
  rewrite app_nil_r. apply list_eq. intros i.
  rewrite list_lookup_fmap. destruct (decide (Z.of_nat i < block)) as [Hi|Hi].
  - rewrite !lookup_seqZ_lt by lia. simpl. f_equal.
    rewrite (Z.add_comm (c * block)), Z.div_add, Z.mod_add, Z.div_small, Z.mod_small by lia. lia.
  - rewrite !lookup_seqZ_ge by lia. done.
Qed.

Section Writer.
Context {D V : Type} `{Hdf5 D V}.
Implicit Types (g : Hdf5Geometry) (d : D).

(** The elements HDF5 takes from memory, from the frame at [base] of the ring. *)
Fixpoint load_elements (ring : bytes) (type : H5Type) (element_size base : Z) (elements : list Z) : hres (list V) :=
  match elements with
  | [] => Val []
  | e :: elements =>
      let at_ := base + e * element_size in
      if (at_ <? 0) || (Z.of_nat (length ring) <? at_ + element_size) then Fault else
      let! values := load_elements ring type element_size base elements in
      Val (h5_value type (slice ring (Z.to_nat at_) (Z.to_nat element_size)) :: values)
  end.

(** The two descriptions of the memory of a run of [n] frames. *)
Definition memory_space g (n : Z) : Space :=
  if hg_slot_bytes g =? hg_frame_bytes g then SpaceAll (n :: hg_frame_dimensions g)
  else
    let slot_elements := hg_slot_bytes g / hg_element_size g in
    let frame_elements := hg_frame_bytes g / hg_element_size g in
    SpaceSlab [u64 (u64 (slot_elements * (n - 1)) + frame_elements)] [0] (Some [slot_elements]) [n]
      (Some [frame_elements]).
Definition file_space d g (first n : Z) : Space :=
  SpaceSlab (h5_dims d) (first :: replicate (length (hg_frame_dimensions g)) 0) None
    (n :: hg_frame_dimensions g) None.

(** [write_run] of the [n] frames from the [begin]-th on, which is at [pointer]: [failure]
    is the HDF5 call that fails, if one does.  A selection outside the dataset makes
    [H5Dwrite] fail. *)
Definition write_run d g (ring : bytes) (block : Hdf5Block) (begin n pointer : Z) (failure : option bytes)
    : hres D :=
  let first := u64 (hb_local_first_frame block + begin) in
  match failure with
  | Some operation => Err (operation ++ str " failed")
  | None =>
      let! type := hdf5_type (hg_element_type g) (hb_endian block) in
      guard! first + n <=? hd 0 (h5_dims d) else str "H5Dwrite failed" in
      let! values := load_elements ring type (hg_element_size g) pointer (h5_selected (memory_space g n)) in
      Val (h5_write d (file_space d g first n) values)
  end.

(** How many frames follow [previous] at the distance of a slot. *)
Fixpoint run_length (slot previous : Z) (frames : list Z) : nat :=
  match frames with
  | frame :: frames => if frame =? previous + slot then S (run_length slot frame frames) else O
  | [] => O
  end.

(** [write]: the runs of the frames from the [begin]-th on; [failures] tells of each run. *)
Fixpoint write_runs (fuel : nat) d g (ring : bytes) (block : Hdf5Block) (begin : Z) (frames : list Z)
    (failures : Z -> option bytes) : hres D :=
  match fuel, frames with
  | S fuel, pointer :: rest =>
      let n := S (run_length (hg_slot_bytes g) pointer rest) in
      let! d := write_run d g ring block begin (Z.of_nat n) pointer (failures begin) in
      write_runs fuel d g ring block (begin + Z.of_nat n) (drop n frames) failures
  | _, _ => Val d
  end.
Definition shard_write d g (ring : bytes) (block : Hdf5Block) (failures : Z -> option bytes) : hres D :=
  write_runs (length (hb_frames block)) d g ring block 0 (hb_frames block) failures.

(** ** The writer process *)

(** [Hdf5ShardWriter]: the dataset it creates.  A chunk must have a frame in it; [failure]
    is the HDF5 call that fails otherwise. *)
Definition shard_create g (local_frames frames_per_block : Z) (chunked : bool) (failure : option bytes) : hres D :=
  match failure with
  | Some operation => Err (operation ++ str " failed")
  | None =>
      guard! negb (chunked && (Z.min frames_per_block local_frames =? 0)) else str "H5Pset_chunk failed" in
      let! _ := hdf5_type (hg_element_type g) Little in
      Val (h5_create (local_frames :: hg_frame_dimensions g))
  end.

(** What [WriterConfigMessage] carries that the process uses; magic and version are
    constants of both ends. *)
Record WriterConfigMessage : Type := mkWriterConfigMessage {
  wc_magic : Z;
  wc_version : Z;
  wc_filename_size : Z;
  wc_shard_index : Z;
  wc_local_frames : Z;
  wc_writer_count : Z;
  wc_frames_per_block : Z;
  wc_blocks_per_stripe : Z;
  wc_ring_bytes : Z;
  wc_frame_bytes : Z;
  wc_slot_bytes : Z;
  wc_element_type : Z;
  wc_element_size : Z;
  wc_rank : Z;
  wc_chunked : Z;
  wc_dimensions : list Z
}.
Definition k_writer_protocol_magic : Z := 0x54424835.
Definition k_writer_protocol_version : Z := 1.

Inductive WriterCommandMessage : Type :=
| CommandWrite (frame_count endian local_first_frame : Z) (offsets : list Z)
| CommandStop
| CommandOther (command : Z).

Inductive WriterResponse : Type := Ready | Complete | Stopped | ResponseError.
#[export] Instance WriterResponse_eq_dec : EqDecision WriterResponse.
Proof. solve_decision. Defined.

Record WriterResponseMessage : Type := mkWriterResponseMessage {
  wr_response : WriterResponse;
  wr_status : Z;
  wr_blocks_written : Z;
  wr_bytes_written : Z;
  wr_message : bytes
}.

(** [strncpy] into 512 bytes of which the last stays zero. *)
Definition response_message (response : WriterResponse) (message : bytes) : WriterResponseMessage :=
  mkWriterResponseMessage response (if bool_decide (response = ResponseError) then 1 else 0) 0 0 (take 511 message).

Definition require_response (r : WriterResponseMessage) (expected : WriterResponse) : hres unit :=
  if bool_decide (wr_response r = ResponseError) || negb (wr_status r =? 0)
  then Err (str "HDF5 writer process: " ++ wr_message r)
  else if bool_decide (wr_response r = expected) then Val tt
  else Err (str "HDF5 writer process returned an unexpected response").

Record WriterChild : Type := mkWriterChild {
  wk_config : WriterConfigMessage;
  wk_geometry : Hdf5Geometry;
  wk_dataset : D;
  wk_blocks_written : Z;
  wk_bytes_written : Z
}.

Definition config_valid (c : WriterConfigMessage) : bool :=
  negb (negb (wc_magic c =? k_writer_protocol_magic) || negb (wc_version c =? k_writer_protocol_version) ||
        (wc_filename_size c =? 0) || (1024 * 1024 <? wc_filename_size c) || (wc_rank c =? 0) ||
        (k_max_rank <? wc_rank c) || (wc_frame_bytes c =? 0) || (wc_slot_bytes c <? wc_frame_bytes c) ||
        (wc_ring_bytes c <? wc_slot_bytes c)).

Definition config_geometry (c : WriterConfigMessage) : Hdf5Geometry :=
  mkHdf5Geometry (ElementType_of_raw (wc_element_type c)) (wc_element_size c)
    (take (Z.to_nat (wc_rank c)) (wc_dimensions c)) (wc_frame_bytes c) (wc_slot_bytes c).

(** [writer_child_main] up to the loop: [ring_size] is the size of the shared memory it
    was given, [failure] the HDF5 call that fails. *)
Definition child_start (c : WriterConfigMessage) (ring_size : Z) (failure : option bytes) : hres WriterChild :=
  guard! config_valid c else str "invalid writer-process configuration" in
  guard! negb (ring_size <? wc_ring_bytes c) else str "shared receive ring is smaller than configured" in
  let g := config_geometry c in
  let! d := shard_create g (wc_local_frames c) (wc_frames_per_block c) (negb (wc_chunked c =? 0)) failure in
  Val (mkWriterChild c g d 0 0).

(** The frames of a write request, which must lie in the mapping. *)
Fixpoint request_frames (c : WriterConfigMessage) (offsets : list Z) : hres (list Z) :=
  match offsets with
  | [] => Val []
  | offset :: offsets =>
      guard! negb ((wc_ring_bytes c <? offset) || (wc_ring_bytes c - offset <? wc_frame_bytes c))
        else str "write request references outside receive ring" in
      let! frames := request_frames c offsets in
      Val (offset :: frames)
  end.

(** One turn of the loop. *)
Definition child_write (w : WriterChild) (ring : bytes) (frame_count endian local_first_frame : Z)
    (offsets : list Z) (failures : Z -> option bytes) : hres WriterChild :=
  let c := wk_config w in
  guard! negb ((frame_count =? 0) || (wc_frames_per_block c <? frame_count))
    else str "invalid write request from coordinator" in
  let! frames := request_frames c offsets in
  let! d := shard_write (wk_dataset w) (wk_geometry w) ring
    (mkHdf5Block local_first_frame (Endian_of_raw endian) frames) failures in
  Val (mkWriterChild c (wk_geometry w) d (u64 (wk_blocks_written w + 1))
         (u64 (wk_bytes_written w + u64 (wc_frame_bytes c * frame_count)))).

(** The answer to a command, and the process that goes on, if it does. *)
Definition child_command (w : WriterChild) (ring : bytes) (command : WriterCommandMessage)
    (failures : Z -> option bytes) (close_failure : option bytes)
    : outcome False (WriterResponseMessage * option WriterChild) :=
  match command with
  | CommandStop =>
      match close_failure with
      | Some operation => Val (response_message ResponseError (operation ++ str " failed"), None)
      | None =>
          let r := response_message Stopped [] in
          Val (mkWriterResponseMessage (wr_response r) (wr_status r) (wk_blocks_written w) (wk_bytes_written w) (wr_message r), None)
      end
  | CommandWrite frame_count endian local_first_frame offsets =>
      match child_write w ring frame_count endian local_first_frame offsets failures with
      | Val w => Val (response_message Complete [], Some w)
      | Err e => Val (response_message ResponseError e, None)
      | Fault => Fault
      end
  | CommandOther _ => Val (response_message ResponseError (str "invalid write request from coordinator"), None)
  end.

(** ** A block in its shard *)

(** What [geometry_from_publisher] and the check of the slot size establish. *)
Record geometry_ok g : Prop := {
  go_size : 0 < hg_element_size g;
  go_dims : Forall (Z.lt 0) (hg_frame_dimensions g);
  go_bytes : hg_frame_bytes g = hg_element_size g * product (hg_frame_dimensions g);
  go_slot : hg_frame_bytes g <= hg_slot_bytes g < 2 ^ 64;
  go_whole : (hg_element_size g | hg_slot_bytes g);
  go_type : forall endian, exists type, hdf5_type (hg_element_type g) endian = Val type
}.

(** The elements of a frame. *)
Definition elements g : Z := product (hg_frame_dimensions g).

(** The value of element [k] of the frame at [pointer]. *)
Definition frame_value g (ring : bytes) (type : H5Type) (pointer k : Z) : V :=
  h5_value type (slice ring (Z.to_nat (pointer + k * hg_element_size g)) (Z.to_nat (hg_element_size g))).

(** A frame inside the ring. *)
Definition in_ring g (ring : bytes) (pointer : Z) : Prop :=
  0 <= pointer /\ pointer + hg_frame_bytes g <= Z.of_nat (length ring).


Lemma load_elements_val ring type es base elements_ :
  0 < es -> Forall (fun e => 0 <= base + e * es /\ base + e * es + es <= Z.of_nat (length ring)) elements_ ->
  load_elements ring type es base elements_ =
  Val ((fun e => h5_value type (slice ring (Z.to_nat (base + e * es)) (Z.to_nat es))) <$> elements_).
Proof.
  intros Hes. induction 1 as [|e l [H1 H2] _ IH]; cbn [load_elements]; [done|].
  destruct (Z.ltb_spec (base + e * es) 0); [lia|].
  destruct (Z.ltb_spec (Z.of_nat (length ring)) (base + e * es + es)); [lia|]. simpl. rewrite IH. done.
Qed.

Context `{!Hdf5Laws D V}.

Lemma elements_pos g : geometry_ok g -> 1 <= elements g.
Proof. intros Hg. apply product_pos, Hg. Qed.

(** In both descriptions, element [j] of a run of [n] is element [j mod E] of frame
    [j / E], the frames a slot apart. *)
Lemma memory_selected g n :
  geometry_ok g -> 0 < n -> n * hg_slot_bytes g < 2 ^ 64 ->
  h5_selected (memory_space g n) =
  (fun j => j / elements g * (hg_slot_bytes g / hg_element_size g) + j mod elements g) <$> seqZ 0 (n * elements g).
Proof.
  intros Hg Hn Hfit. pose proof (elements_pos g Hg) as HE. destruct Hg as [Hes Hd Hb [Hs Hs2] Hw _].
  fold (elements g) in Hb. destruct Hw as [q Hq].
  assert (hg_slot_bytes g / hg_element_size g = q) as Hsq by (rewrite Hq, Z.div_mul; lia).
  assert (hg_frame_bytes g / hg_element_size g = elements g) as Hfq by (rewrite Hb, Z.mul_comm, Z.div_mul; lia).
  unfold memory_space. destruct (Z.eqb_spec (hg_slot_bytes g) (hg_frame_bytes g)) as [Heq|Hne].
  - rewrite selected_all. change (product (n :: hg_frame_dimensions g)) with (n * elements g).
    rewrite <-(list_fmap_id (seqZ 0 (n * elements g))) at 1. apply list_fmap_ext. intros i j _.
    rewrite Hsq. assert (q = elements g) as -> by nia. unfold id. pose proof (Z.div_mod j (elements g)). lia.
  - cbv zeta. rewrite Hsq, Hfq. assert (elements g < q) by nia.
    assert (0 <= q * (n - 1)) by nia. assert (q * n <= n * hg_slot_bytes g) by (rewrite Hq; nia).
    assert (q * (n - 1) + elements g <= n * hg_slot_bytes g) by lia.
    rewrite (wrap_small 64 (q * (n - 1))) by (unfold in_range; lia). rewrite wrap_small by (unfold in_range; lia).
    rewrite selected_blocks by lia. apply concat_blocks; lia.
Qed.

(** [d'] is [d] with the frames at [frames] as its frames from [first] on. *)
Definition frames_written g (ring : bytes) (type : H5Type) d (first : Z) (frames : list Z) (d' : D) : Prop :=
  h5_dims d' = h5_dims d /\
  forall r k, 0 <= k < elements g ->
    h5_get d' (r * elements g + k) =
    match (if first <=? r then frames !! Z.to_nat (r - first) else None) with
    | Some pointer => Some (frame_value g ring type pointer k)
    | None => h5_get d (r * elements g + k)
    end.

Lemma frames_written_app g ring type d first l1 l2 d1 d2 :
  frames_written g ring type d first l1 d1 ->
  frames_written g ring type d1 (first + Z.of_nat (length l1)) l2 d2 ->
  frames_written g ring type d first (l1 ++ l2) d2.
Proof.
  intros [Hd1 H1] [Hd2 H2]. split; [congruence|]. intros r k Hk. rewrite H2, H1 by done.
  destruct (Z.leb_spec first r), (Z.leb_spec (first + Z.of_nat (length l1)) r); try lia; [..|done].
  - rewrite (lookup_ge_None_2 l1), lookup_app_r by lia. by replace (Z.to_nat (r - (first + Z.of_nat (length l1))))
      with (Z.to_nat (r - first) - length l1)%nat by lia.
  - rewrite lookup_app_l by lia. done.
Qed.

(** A dataset of frames of the geometry. *)
Definition shard_of g (rows : Z) d : Prop := h5_dims d = rows :: hg_frame_dimensions g.

(** The ring of a 64-bit process. *)
Definition ring_fits g (ring : bytes) : Prop := Z.of_nat (length ring) + hg_slot_bytes g < 2 ^ 64.

(** The frames of a run. *)
Definition run_frames g (pointer : Z) (n : nat) : list Z :=
  (fun i => pointer + Z.of_nat i * hg_slot_bytes g) <$> seq 0 n.

(** The values HDF5 takes for a run. *)
Definition run_values g (ring : bytes) (type : H5Type) (pointer n : Z) : list V :=
  (fun j => frame_value g ring type (pointer + j / elements g * hg_slot_bytes g) (j mod elements g)) <$>
    seqZ 0 (n * elements g).

Lemma element_split g n j : geometry_ok g -> 0 <= j < n * elements g ->
  0 <= j / elements g < n /\ 0 <= j mod elements g < elements g.
Proof.
  intros Hg Hj. pose proof (elements_pos g Hg). pose proof (Z.mod_pos_bound j (elements g)).
  pose proof (Z.div_pos j (elements g)). pose proof (Z.div_lt_upper_bound j (elements g) n). lia.
Qed.

Lemma run_loaded g ring type pointer (n : nat) :
  geometry_ok g -> (0 < n)%nat -> ring_fits g ring -> Forall (in_ring g ring) (run_frames g pointer n) ->
  load_elements ring type (hg_element_size g) pointer (h5_selected (memory_space g (Z.of_nat n))) =
  Val (run_values g ring type pointer (Z.of_nat n)).
Proof.
  intros Hg Hn Hfit Hring. pose proof (elements_pos g Hg) as HE.
  assert (forall i : nat, (i < n)%nat -> in_ring g ring (pointer + Z.of_nat i * hg_slot_bytes g)) as Hin.
  { intros i Hi. rewrite Forall_lookup in Hring. apply (Hring i). unfold run_frames.
    by rewrite list_lookup_fmap, lookup_seq_lt by lia. }
  assert (Z.of_nat n * hg_slot_bytes g < 2 ^ 64) as Hbound.
  { destruct (Hin (n - 1)%nat) as [H1 H2]; [lia|]. destruct (Hin 0%nat) as [H3 _]; [lia|].
    pose proof (go_size g Hg). pose proof (go_bytes g Hg) as Hb. fold (elements g) in Hb.
    unfold ring_fits in Hfit. assert (0 <= hg_frame_bytes g) by nia. nia. }
  rewrite memory_selected by (done || lia).
  pose proof Hg as [Hes _ Hb _ [q Hq] _]. fold (elements g) in Hb.
  assert (hg_slot_bytes g / hg_element_size g = q) as -> by (rewrite Hq, Z.div_mul; lia).
  rewrite load_elements_val; [|done|].
  - f_equal. rewrite <-list_fmap_compose. apply list_fmap_ext. intros i j _. cbn [compose].
    unfold frame_value. do 3 f_equal. rewrite Hq. lia.
  - apply Forall_fmap, list.Forall_forall. intros j Hj%elem_of_seqZ.
    destruct (element_split g (Z.of_nat n) j Hg) as [H1 H2]; [lia|]. cbn [compose].
    destruct (Hin (Z.to_nat (j / elements g))) as [H3 H4]; [lia|]. rewrite Z2Nat.id in H3, H4 by lia.
    rewrite Hb in H4. rewrite Hq in H3, H4. assert (0 <= j mod elements g * hg_element_size g) by nia.
    assert (j mod elements g * hg_element_size g + hg_element_size g <= hg_element_size g * elements g) by nia. lia.
Qed.

Lemma run_written g rows d ring type pointer (n : nat) first :
  geometry_ok g -> shard_of g rows d -> 0 <= first -> first + Z.of_nat n <= rows ->
  frames_written g ring type d first (run_frames g pointer n)
    (h5_write d (file_space d g first (Z.of_nat n)) (run_values g ring type pointer (Z.of_nat n))).
Proof.
  intros Hg Hdims H0 Hend. pose proof (elements_pos g Hg) as HE.
  assert (h5_selected (file_space d g first (Z.of_nat n)) = seqZ (first * elements g) (Z.of_nat n * elements g)) as Hsel.
  { unfold file_space. rewrite Hdims. apply selected_rows; lia. }
  assert (length (run_values g ring type pointer (Z.of_nat n)) = length (h5_selected (file_space d g first (Z.of_nat n)))) as Hlen.
  { unfold run_values. by rewrite Hsel, length_fmap, !length_seqZ. }
  split; [apply h5_write_dims|]. intros r k Hk.
  destruct (Z.leb_spec first r) as [Hr|Hr].
  2: { apply h5_write_out; [done|]. rewrite Hsel, elem_of_seqZ. nia. }
  destruct (decide (r < first + Z.of_nat n)) as [Hr'|Hr'].
  2: { rewrite (lookup_ge_None_2 (run_frames g pointer n)) by (unfold run_frames; rewrite length_fmap, length_seq; lia).
    apply h5_write_out; [done|]. rewrite Hsel, elem_of_seqZ. nia. }
  unfold run_frames. rewrite list_lookup_fmap, lookup_seq_lt by lia. simpl.
  apply (h5_write_in _ _ _ (Z.to_nat ((r - first) * elements g + k))); [done|rewrite Hsel; apply NoDup_seqZ| |].
  - rewrite Hsel, lookup_seqZ_lt by nia. f_equal. nia.
  - unfold run_values. rewrite list_lookup_fmap, lookup_seqZ_lt by nia. simpl. rewrite !Z2Nat.id, Z.add_0_l by nia.
    rewrite Z.div_add_l, Z.div_small, Z.add_0_r, (Z.add_comm _ k), Z.mod_add, Z.mod_small by lia. done.
Qed.

Lemma write_run_ok g rows d ring block begin (n : nat) pointer failure type :
  geometry_ok g -> shard_of g rows d -> rows < 2 ^ 64 -> hdf5_type (hg_element_type g) (hb_endian block) = Val type ->
  0 <= hb_local_first_frame block -> 0 <= begin -> (0 < n)%nat ->
  hb_local_first_frame block + begin + Z.of_nat n <= rows -> ring_fits g ring ->
  Forall (in_ring g ring) (run_frames g pointer n) ->
  (exists e, write_run d g ring block begin (Z.of_nat n) pointer failure = Err e /\ failure <> None) \/
  exists d', write_run d g ring block begin (Z.of_nat n) pointer failure = Val d' /\
    frames_written g ring type d (hb_local_first_frame block + begin) (run_frames g pointer n) d'.
Proof.
  intros Hg Hdims Hrows Htype Hf Hbegin Hn Hend Hfit Hring. unfold write_run. cbv zeta.
  destruct failure as [operation|]; [by left; eexists|right].
  rewrite wrap_small by (unfold in_range; lia). rewrite Htype, bind_val, Hdims. simpl hd.
  destruct (Z.leb_spec (hb_local_first_frame block + begin + Z.of_nat n) rows); [|lia].
  rewrite run_loaded, bind_val by done. eexists. split; [done|]. eapply run_written; [done..|lia|lia].
Qed.

Lemma run_length_frames g pointer rest :
  take (S (run_length (hg_slot_bytes g) pointer rest)) (pointer :: rest) =
  run_frames g pointer (S (run_length (hg_slot_bytes g) pointer rest)).
Proof.
  revert pointer. induction rest as [|frame rest IH]; intros pointer; cbn [run_length].
  { unfold run_frames. simpl. f_equal. lia. }
  destruct (Z.eqb_spec frame (pointer + hg_slot_bytes g)) as [->|].
  2: { unfold run_frames. simpl. f_equal. lia. }
  rewrite firstn_cons, IH. unfold run_frames. set (n := S (run_length _ _ _)).
  cbn [seq]. rewrite fmap_cons. f_equal; [lia|].
  rewrite <-(fmap_S_seq 0 n), <-list_fmap_compose. apply list_fmap_ext. intros i x _. cbn [compose]. lia.
Qed.

(** Every block is written as the runs say, or a call of HDF5 failed. *)
Lemma write_runs_ok fuel g rows d ring block begin frames failures type :
  geometry_ok g -> shard_of g rows d -> rows < 2 ^ 64 -> hdf5_type (hg_element_type g) (hb_endian block) = Val type ->
  0 <= hb_local_first_frame block -> 0 <= begin -> (length frames <= fuel)%nat ->
  hb_local_first_frame block + begin + Z.of_nat (length frames) <= rows ->
  ring_fits g ring -> Forall (in_ring g ring) frames ->
  (exists e i, write_runs fuel d g ring block begin frames failures = Err e /\ failures i <> None) \/
  exists d', write_runs fuel d g ring block begin frames failures = Val d' /\
    frames_written g ring type d (hb_local_first_frame block + begin) frames d'.
Proof.
  intros Hg Hdims Hrows Htype Hf. revert d Hdims begin frames.
  induction fuel as [|fuel IH]; intros d Hdims begin [|pointer rest] Hbegin Hfuel Hend Hfit Hring;
    cbn [write_runs length] in *; try lia.
  1, 2: right; exists d; split; [done|]; split; [done|]; intros r k _; by destruct (_ <=? r).
  pose proof (run_length_frames g pointer rest) as Hrun. set (n := run_length _ _ _) in *.
  assert (S n <= S (length rest))%nat as Hn.
  { apply (f_equal length) in Hrun. unfold run_frames in Hrun. rewrite length_take, length_fmap, length_seq in Hrun.
    simpl in Hrun. lia. }
  pose proof (take_drop (S n) (pointer :: rest)) as Htd. rewrite <-Htd in Hring.
  apply Forall_app in Hring as [Hr1 Hr2].
  destruct (write_run_ok g rows d ring block begin (S n) pointer (failures begin) type) as [(e & He & Hfail)|(d1 & He & Hw)];
    [done..|lia|lia|done|by rewrite <-Hrun|by left; exists e, begin; rewrite He|].
  rewrite He, bind_val.
  assert (length (drop (S n) (pointer :: rest)) = (length rest - n)%nat) as Hl by (rewrite length_drop; simpl; lia).
  destruct (IH d1 ltac:(unfold shard_of; by destruct Hw as [-> _]) (begin + Z.of_nat (S n)) (drop (S n) (pointer :: rest)))
    as [(e & i & He' & Hfail)|(d' & He' & Hw')]; [lia..|done|done|left; by exists e, i|].
  right. exists d'. split; [done|]. rewrite <-Htd. eapply frames_written_app; [by rewrite Hrun|].
  rewrite length_take_le by (simpl; lia). by rewrite <-Z.add_assoc.
Qed.

Lemma write_runs_dims fuel g d ring block begin frames failures d' :
  write_runs fuel d g ring block begin frames failures = Val d' -> h5_dims d' = h5_dims d.
Proof.
  revert d begin frames. induction fuel as [|fuel IH]; intros d begin [|pointer rest];
    cbn [write_runs]; try (by intros [= <-]).
  intros (d1 & Hrun & Hrest)%bind_val_inv. rewrite (IH _ _ _ Hrest). unfold write_run in Hrun.
  destruct (failures begin); [done|]. apply bind_val_inv in Hrun as (t & _ & Hrun).
  apply guard_val_inv in Hrun as [_ Hrun]. apply bind_val_inv in Hrun as (v & _ & [= <-]). apply h5_write_dims.
Qed.

(** Whatever a block asks for, frames inside the ring are all that is read. *)
Lemma write_runs_safe fuel g d ring block begin frames failures :
  geometry_ok g -> ring_fits g ring -> Forall (in_ring g ring) frames ->
  safe (write_runs fuel d g ring block begin frames failures).
Proof.
  intros Hg Hfit. revert d begin frames. induction fuel as [|fuel IH]; intros d begin [|pointer rest] Hring;
    cbn [write_runs]; try done.
  apply safe_bind; [|intros d1 _; apply IH; by apply Forall_drop].
  unfold write_run. cbv zeta. destruct (failures begin); [done|].
  destruct (go_type g Hg (hb_endian block)) as [type ->]. rewrite bind_val. apply safe_guard. intros _.
  rewrite run_loaded; [done|done|lia|done|]. rewrite <-run_length_frames. by apply Forall_take.
Qed.

Lemma request_frames_ok c offsets frames :
  request_frames c offsets = Val frames ->
  frames = offsets /\ Forall (fun o => o + wc_frame_bytes c <= wc_ring_bytes c) offsets.
Proof.
  revert frames. induction offsets as [|offset offsets IH]; cbn [request_frames]; intros frames.
  { by intros [= <-]. }
  intros [Hc Hr]%guard_val_inv. apply bind_val_inv in Hr as (l & Hl & [= <-]).
  destruct (IH l Hl) as [-> Hf]. split; [done|]. constructor; [|done]. bool_to_prop. lia.
Qed.
Lemma request_frames_val c offsets :
  Forall (fun o => o + wc_frame_bytes c <= wc_ring_bytes c) offsets -> 0 <= wc_frame_bytes c ->
  request_frames c offsets = Val offsets.
Proof.
  intros Hf H0. induction Hf as [|o l Ho _ IH]; [done|]. cbn [request_frames]. rewrite IH.
  destruct (Z.ltb_spec (wc_ring_bytes c) o); [lia|].
  by destruct (Z.ltb_spec (wc_ring_bytes c - o) (wc_frame_bytes c)); [lia|].
Qed.
Lemma request_frames_safe c offsets : safe (request_frames c offsets).
Proof.
  induction offsets as [|o l IH]; cbn [request_frames]; [done|]. apply safe_guard. intros _.
  apply safe_bind; [done|]. done.
Qed.

(** A process that works on its configuration, with the ring mapped. *)
Record child_ok (w : WriterChild) (ring : bytes) : Prop := {
  ck_geometry : wk_geometry w = config_geometry (wk_config w);
  ck_sound : geometry_ok (wk_geometry w);
  ck_ring : Z.of_nat (length ring) = wc_ring_bytes (wk_config w);
  ck_fits : ring_fits (wk_geometry w) ring;
  ck_shard : shard_of (wk_geometry w) (wc_local_frames (wk_config w)) (wk_dataset w)
}.

Lemma child_frames_in_ring w ring offsets :
  child_ok w ring -> Forall (in_range 64) offsets ->
  Forall (fun o => o + wc_frame_bytes (wk_config w) <= wc_ring_bytes (wk_config w)) offsets ->
  Forall (in_ring (wk_geometry w) ring) offsets.
Proof.
  intros Hw Hr. rewrite !list.Forall_forall in *. intros Hf o Ho. specialize (Hf o Ho). specialize (Hr o Ho).
  split; [apply Hr|]. rewrite (ck_ring w ring Hw), (ck_geometry w ring Hw). simpl. lia.
Qed.

(** A block that fits its shard and the ring is written, or a call of HDF5 failed. *)
Lemma child_write_ok w ring endian first offsets failures type :
  child_ok w ring -> Forall (in_range 64) offsets -> wc_local_frames (wk_config w) < 2 ^ 64 ->
  Forall (fun o => o + wc_frame_bytes (wk_config w) <= wc_ring_bytes (wk_config w)) offsets ->
  offsets <> [] -> Z.of_nat (length offsets) <= wc_frames_per_block (wk_config w) ->
  0 <= first -> first + Z.of_nat (length offsets) <= wc_local_frames (wk_config w) ->
  hdf5_type (hg_element_type (wk_geometry w)) (Endian_of_raw endian) = Val type ->
  (exists e i, child_write w ring (Z.of_nat (length offsets)) endian first offsets failures = Err e /\ failures i <> None) \/
  exists d, child_write w ring (Z.of_nat (length offsets)) endian first offsets failures =
      Val (mkWriterChild (wk_config w) (wk_geometry w) d (u64 (wk_blocks_written w + 1))
        (u64 (wk_bytes_written w + u64 (wc_frame_bytes (wk_config w) * Z.of_nat (length offsets))))) /\
    frames_written (wk_geometry w) ring type (wk_dataset w) first offsets d.
Proof.
  intros Hw Hr Hlf Hf Hne Hn H0 Hend Htype. pose proof Hw as [Hge Hg Hrl Hfit Hsh]. unfold child_write. cbv zeta.
  destruct (Z.eqb_spec (Z.of_nat (length offsets)) 0) as [Hz|_]; [by destruct offsets|].
  destruct (Z.ltb_spec (wc_frames_per_block (wk_config w)) (Z.of_nat (length offsets))); [lia|]. simpl negb.
  assert (0 <= wc_frame_bytes (wk_config w)) as Hfb.
  { pose proof (go_bytes _ Hg) as Hb. pose proof (elements_pos _ Hg). pose proof (go_size _ Hg).
    fold (elements (wk_geometry w)) in Hb. change (wc_frame_bytes (wk_config w)) with (hg_frame_bytes (config_geometry (wk_config w))).
    rewrite <-Hge. nia. }
  rewrite request_frames_val, bind_val by done. unfold shard_write. cbn [hb_frames].
  destruct (write_runs_ok (length offsets) (wk_geometry w) (wc_local_frames (wk_config w)) (wk_dataset w) ring
    (mkHdf5Block first (Endian_of_raw endian) offsets) 0 offsets failures type) as [(e & i & He & Hfail)|(d & He & Hwr)];
    [done..|simpl; lia|done|by apply child_frames_in_ring|left; exists e, i; by rewrite He|].
  right. exists d. rewrite He, bind_val. split; [done|]. by rewrite <-(Z.add_0_r first).
Qed.

End Writer.

(** C24: the writer process never reads outside the receive ring, whatever requests it is
    sent: the offsets of a request are checked, and a run of frames a slot apart is as safe
    as its frames.  Every request is answered.  A write is completed, with the counters
    advanced by one block and by the bytes of its frames, or answered with an error, after
    which the process ends; a stop is answered with the counters, or with an error when the
    shard cannot be closed, and ends the process; anything else is answered with an error
    and ends it. *)
Theorem writer_child_memory_safe {D V} `{Hdf5Laws D V} (w : WriterChild (D := D)) ring command failures close_failure
  (Hw : child_ok w ring)
  (Hoff : match command with CommandWrite _ _ _ offsets => Forall (in_range 64) offsets | _ => True end) :
  exists r w', child_command w ring command failures close_failure = Val (r, w') /\
    match command with
    | CommandWrite frame_count _ _ _ =>
        match w' with
        | Some w1 => wr_response r = Complete /\ child_ok w1 ring /\ wk_config w1 = wk_config w /\
            wk_blocks_written w1 = u64 (wk_blocks_written w + 1) /\
            wk_bytes_written w1 = u64 (wk_bytes_written w + u64 (wc_frame_bytes (wk_config w) * frame_count))
        | None => wr_response r = ResponseError
        end
    | CommandStop => w' = None /\
        match close_failure with
        | None => wr_response r = Stopped /\ wr_blocks_written r = wk_blocks_written w /\
                  wr_bytes_written r = wk_bytes_written w
        | Some _ => wr_response r = ResponseError
        end
    | CommandOther _ => w' = None /\ wr_response r = ResponseError
    end.
Proof.
  destruct command as [count endian first offsets| |c]; cbn [child_command].
  - destruct (child_write w ring count endian first offsets failures) as [w1|e|] eqn:He.
    + eexists _, _. split; [done|]. split; [done|].
      unfold child_write in He. apply guard_val_inv in He as [_ He]. apply bind_val_inv in He as (fs & Hfs & He).
      apply bind_val_inv in He as (d & Hd & [= <-]). split; [|done].
      destruct Hw as [Hge Hg Hrl Hfit Hsh]. split; simpl; try done. unfold shard_of in *. rewrite <-Hsh.
      unfold shard_write in Hd. by eapply write_runs_dims.
    + by eexists _, _.
    + exfalso. revert He. apply safe_guard. intros _. apply safe_bind; [apply request_frames_safe|].
      intros fs [-> Hf]%request_frames_ok. apply safe_bind; [|done].
      apply write_runs_safe; [apply Hw..|]. by apply child_frames_in_ring.
  - by destruct close_failure; eexists _, _.
  - by eexists _, _.
Qed.

(** ** A concrete HDF5 *)

(** Values are the bytes of an element; a dataset is its dimensions and its elements. *)
Definition covers (f : Z) (m : VdsMapping) : Prop :=
  vm_virtual_start m <= f < vm_virtual_start m + vm_count m.
#[export] Instance covers_dec f m : Decision (covers f m).
Proof. unfold covers. apply _. Defined.

Definition file_selected (s : Space) : list Z :=
  match s with
  | SpaceAll dims => seqZ 0 (product dims)
  | SpaceSlab (_ :: rest) (r :: _) None (c :: _) None => seqZ (r * product rest) (c * product rest)
  | SpaceSlab _ _ (Some [stride]) [count] (Some [block]) =>
      concat ((fun k => seqZ (k * stride) block) <$> seqZ 0 count)
  | _ => []
  end.

Definition H5File : Type := list Z * gmap Z bytes.
#[export] Instance file_hdf5 : Hdf5 H5File bytes := {|
  h5_selected := file_selected;
  h5_value _ element := element;
  h5_create dims := (dims, ∅);
  h5_dims d := fst d;
  h5_get d k := snd d !! k;
  h5_write d space values := (fst d, list_to_map (zip (file_selected space) values) ∪ snd d);
  h5_virtual mappings f :=
    m ← snd <$> list_find (covers f) mappings; Some (vm_source m, vm_local_start m + (f - vm_virtual_start m))
|}.

#[export] Instance file_hdf5_laws : Hdf5Laws H5File bytes.
Proof.
  split; try done.
  - intros d space values j k v Hlen Hnd Hk Hv. simpl in *.
    apply lookup_union_Some_l, elem_of_list_to_map_1; [by rewrite fst_zip by lia|].
    apply list_elem_of_lookup. exists j. by apply lookup_zip_Some.
  - intros d space values k Hlen Hk. simpl in *. apply lookup_union_r, not_elem_of_list_to_map_1.
    by rewrite fst_zip by lia.
  - intros mappings i m f Hm Hother Hf Hsrc. simpl.
    destruct (list_find (covers f) mappings) as [[j m']|] eqn:Hfind.
    + apply list_find_Some in Hfind as (Hj & Hc & _). destruct (decide (j = i)) as [->|Hne]; [by simplify_eq/=|].
      specialize (Hother j m' Hj Hne). unfold covers in Hc. lia.
    + apply list_find_None in Hfind. rewrite Forall_lookup in Hfind. by destruct (Hfind i m Hm).
Qed.

(** A shard of four frames of 2 by 3 elements of two bytes, in slots of sixteen. *)
Definition sample_writer_config : WriterConfigMessage :=
  mkWriterConfigMessage k_writer_protocol_magic k_writer_protocol_version 8 0 4 1 2 1 64 12 16
    (ElementType_raw ET_UInt16) 2 2 1 [2; 3; 0; 0].
Definition sample_ring : bytes := byte_of_Z <$> seqZ 0 64.
Definition sample_child : WriterChild (D := H5File) :=
  mkWriterChild sample_writer_config (config_geometry sample_writer_config) ([4; 2; 3], ∅) 0 0.

Lemma sample_child_ok : child_ok sample_child sample_ring.
Proof.
  split; try done. split; try done.
  - repeat constructor.
  - by exists 8.
  - intros e. simpl. eexists. done.
Qed.

Lemma writer_child_memory_safe_witness :
  child_start (D := H5File) sample_writer_config 64 None = Val sample_child /\
  exists r w', child_command sample_child sample_ring (CommandWrite 2 0 2 [48; 16]) (fun _ => None) None = Val (r, Some w') /\
    h5_get (wk_dataset w') 13 = Some [x32; x33].
Proof.
  split; [by vm_compute|].
  destruct (writer_child_memory_safe sample_child sample_ring (CommandWrite 2 0 2 [48; 16]) (fun _ => None) None
    sample_child_ok ltac:(repeat (apply List.Forall_cons; [by vm_compute|]); apply List.Forall_nil))
    as (r & w' & Hc & _).
  assert (option_map (fun w => h5_get (wk_dataset w) 13)
    match child_command sample_child sample_ring (CommandWrite 2 0 2 [48; 16]) (fun _ => None) None with
    | Val (_, w) => w | _ => None end = Some (Some [x32; x33])) as Hget by by vm_compute.
  rewrite Hc in Hget. exists r. destruct w' as [w'|]; [|discriminate Hget].
  exists w'. split; [exact Hc|]. injection Hget as Hget. exact Hget.
Defined.

(** ** Whole messages over a socket *)

(** What [send] or [recv] answers: some bytes, the end of the connection, [EINTR] or
    another error. *)
Inductive io_answer : Type := IoBytes (n : nat) | IoClosed | IoInterrupted | IoError.

(** [write_exact]: what went out when the loop ends; [None] while it waits for the next
    answer.  [send] takes at most what it is offered. *)
Fixpoint write_exact (answers : list io_answer) (buffer sent : bytes) : option (hres bytes) :=
  match buffer with
  | [] => Some (Val sent)
  | _ =>
      match answers with
      | [] => None
      | IoInterrupted :: answers => write_exact answers buffer sent
      | IoError :: _ => Some (Err (str "send(writer IPC)"))
      | IoClosed :: _ => Some (Err (str "writer IPC closed while sending"))
      | IoBytes n :: answers =>
          let n := Nat.max 1 (Nat.min n (length buffer)) in
          write_exact answers (drop n buffer) (sent ++ take n buffer)
      end
  end.

(** [read_exact] of [wanted] bytes from the bytes that arrive: at most what is there, and
    an answer without bytes is no answer yet. *)
Fixpoint read_exact (answers : list io_answer) (wanted : nat) (stream got : bytes) : option (hres (bytes * bytes)) :=
  match wanted with
  | O => Some (Val (got, stream))
  | _ =>
      match answers with
      | [] => None
      | IoInterrupted :: answers => read_exact answers wanted stream got
      | IoError :: _ => Some (Err (str "recv(writer IPC)"))
      | IoClosed :: _ => Some (Err (str "writer process closed its control socket"))
      | IoBytes n :: answers =>
          let n := Nat.min (Nat.min n wanted) (length stream) in
          if (n =? 0)%nat then None
          else read_exact answers (wanted - n) (drop n stream) (got ++ take n stream)
      end
  end.

Lemma write_exact_all answers buffer sent out :
  write_exact answers buffer sent = Some (Val out) -> out = sent ++ buffer.
Proof.
  revert buffer sent. induction answers as [|a answers IH]; intros [|c buffer] sent; cbn [write_exact];
    try (by intros [= <-]; rewrite app_nil_r).
  destruct a as [n| | |]; try done; [|apply IH]. intros ->%IH. rewrite <-app_assoc. f_equal. apply take_drop.
Qed.

Lemma read_exact_all answers wanted stream got out rest :
  read_exact answers wanted stream got = Some (Val (out, rest)) ->
  exists message, length message = wanted /\ stream = message ++ rest /\ out = got ++ message.
Proof.
  revert wanted stream got. induction answers as [|a answers IH]; intros [|wanted] stream got; cbn [read_exact];
    try (by intros [= <- <-]; exists []; rewrite app_nil_r).
  destruct a as [n| | |]; try done; [|apply IH]. destruct (Nat.eqb_spec (Nat.min (Nat.min n (S wanted)) (length stream)) 0); [done|].
  set (k := Nat.min _ _) in *. intros (message & Hl & Hs & ->)%IH. exists (take k stream ++ message).
  rewrite length_app, length_take, Hl, <-!app_assoc, <-Hs, take_drop. split; [lia|done].
Qed.

(** A message written in whatever pieces and read in whatever pieces arrives whole and
    in order, with nothing taken of what follows it. *)
Theorem message_transferred wanswers ranswers message later out got rest
  (Hw : write_exact wanswers message [] = Some (Val out))
  (Hr : read_exact ranswers (length message) (out ++ later) [] = Some (Val (got, rest))) :
  got = message /\ rest = later.
Proof.
  apply write_exact_all in Hw as ->. apply read_exact_all in Hr as (m & Hl & Hs & ->). simpl in *.
  by apply app_inj_1 in Hs as [-> ->].
Qed.

Lemma message_transferred_witness : str "abc" = str "abc" /\ str "de" = str "de".
Proof.
  apply (message_transferred [IoBytes 2; IoInterrupted; IoBytes 7] [IoBytes 1; IoInterrupted; IoBytes 9]
    (str "abc") (str "de") (str "abc")); by vm_compute.
Defined.
