(* ===== verification/Hdf5Acquire.v ===== *)
(** * The HDF5 client: workers, blocks and the acquisition

    [ShardWorker], [ParallelShardWriter], [validate_frame] and the loop of [main] in
    [examples/example_hdf5_client/example_hdf5_client.cpp], with the writer process of
    [Hdf5Writer] at the other end of each worker's socket.  Threads are steps: the main
    thread receives frames and submits blocks, each worker takes a turn with what the ring
    holds then. *)
From stdpp Require Import list sets gmap.
From S2P Require Import Prelude Enums Limits Geometry Text Config FrameView Hdf5Shards Hdf5Writer.
From Stdlib Require Import Strings.Byte.

(** ** Frames and blocks *)

(** A [FrameView]: its description, [data()] and the bytes there. *)
Record ReceivedFrame : Type := mkReceivedFrame {
  rf_fields : FrameFields;
  rf_address : Z;
  rf_payload : bytes
}.

Definition validate_frame (frame : ReceivedFrame) (publisher : Geometry) (g : Hdf5Geometry) (endian : option Endian)
    : hres Endian :=
  let f := rf_fields frame in
  guard! negb (negb (bool_decide (ff_memory_kind f = Host)) || negb (bool_decide (ff_element_type f = hg_element_type g)) ||
               negb (ff_element_size f =? hg_element_size g) || negb (ff_rank f =? geo_rank publisher) ||
               negb (ff_payload_bytes f =? hg_frame_bytes g))
    else str "stream geometry changed or does not match the subscription" in
  guard! forallb (fun i => (ff_shape f !!! i =? geo_shape publisher !!! i) && (ff_strides f !!! i =? geo_strides publisher !!! i))
           (seq 0 (Z.to_nat (geo_rank publisher)))
    else str "stream geometry changed after subscription" in
  guard! match endian with Some e => bool_decide (e = ff_endian f) | None => true end
    else str "stream byte order changed during acquisition" in
  Val (ff_endian f).

Record Block : Type := mkBlock {
  bk_local_first_frame : Z;
  bk_frame_count : Z;
  bk_endian : Endian;
  bk_frames : list ReceivedFrame
}.

(** The offsets of a block's frames in the ring at [base]. *)
Fixpoint block_offsets (frames : list ReceivedFrame) (frame_bytes base ring_bytes : Z) : hres (list Z) :=
  match frames with
  | [] => Val []
  | frame :: frames =>
      let address := rf_address frame in
      guard! negb ((address <? base) || (ring_bytes <? address - base) || (ring_bytes - (address - base) <? frame_bytes))
        else str "received frame is outside the shared receive ring" in
      let! offsets := block_offsets frames frame_bytes base ring_bytes in
      Val (address - base :: offsets)
  end.

Definition write_command (block : Block) (g : Hdf5Geometry) (base ring_bytes : Z) : hres WriterCommandMessage :=
  guard! negb (negb (Z.of_nat (length (bk_frames block)) =? bk_frame_count block) || (2 ^ 32 - 1 <? bk_frame_count block))
    else str "invalid block submitted to HDF5 writer process" in
  let! offsets := block_offsets (bk_frames block) (hg_frame_bytes g) base ring_bytes in
  Val (CommandWrite (bk_frame_count block) (Endian_raw (bk_endian block)) (bk_local_first_frame block) offsets).

(** ** Setting up *)

(** What [main] asks the library for: a ring of its own, which must be addressable. *)
Definition acquire_config (o : ClientOptions) : hres SubscriberConfig :=
  let max_frame_bytes := 8 * 2 ^ 20 in
  let ring_depth := u32 (co_ring_depth o) in
  guard! negb ((2 ^ 64 - 1) / ring_depth <? max_frame_bytes) else str "receive-ring byte size overflows" in
  let receive_bytes := u64 (max_frame_bytes * ring_depth) in
  Val (mkSubscriberConfig (co_stream o) max_frame_bytes ring_depth (Z.min 16 ring_depth) ring_depth DM_Pull DropNewest
         RP_BoundedRetry 10 500 5000 30000 5000 (2 ^ 30) [] (-1) true receive_bytes Host None None).

(** [SharedReceiveRing]: the sizes it accepts. *)
Definition shared_ring_bytes (bytes_ : Z) : hres Z :=
  guard! negb ((bytes_ =? 0) || (2 ^ 63 - 1 <? bytes_)) else str "shared receive-ring size is not representable" in
  Val bytes_.

(** The checks of [main] on the geometry and the plan of the open subscription. *)
Definition establish (o : ClientOptions) (publisher : Geometry) (plan : ReceivePlan) : hres Hdf5Geometry :=
  let! g := geometry_from_publisher publisher in
  let block_bytes := u64 (hg_frame_bytes g * co_frames_per_block o) in
  guard! negb (negb (hg_frame_bytes g =? 0) && negb (block_bytes / hg_frame_bytes g =? co_frames_per_block o))
    else str "block byte size overflows" in
  guard! geo_max_frame_bytes publisher mod hg_element_size g =? 0
    else str "publisher slot size is not an exact number of elements" in
  guard! negb ((rp_ring_depth plan <? co_ring_depth o) || (rp_credit_window plan <? co_frames_per_block o))
    else str "requested receive ring exceeds the established plan" in
  Val g.

Lemma contiguous_loop_val reverse publisher stride v :
  (reverse <= 4)%nat -> array_ok (geo_shape publisher) -> 0 < stride < 2 ^ 64 ->
  contiguous_loop reverse publisher stride = Val v ->
  v = stride * product (take reverse (geo_shape publisher)) /\ v < 2 ^ 64 /\
  Forall (Z.lt 0) (take reverse (geo_shape publisher)).
Proof.
  intros Hr Hs. revert stride. induction reverse as [|i IH]; intros stride Hst; cbn [contiguous_loop].
  { intros [= <-]. unfold product. simpl. rewrite Z.mul_1_r. split; [done|]. split; [lia|constructor]. }
  intros [H1 H2]%guard_val_inv. apply guard_val_inv in H2 as [H2 H3].
  pose proof (array_ok_lookup _ i Hs ltac:(lia)) as Hn. unfold in_range in Hn. set (n := geo_shape publisher !!! i) in *.
  assert (0 < n) as Hn0 by (bool_to_prop; lia). assert (stride <= (2 ^ 64 - 1) / n) as Hq by (bool_to_prop; lia).
  assert (stride * n < 2 ^ 64) as Hmul.
  { pose proof (Z.mul_div_le (2 ^ 64 - 1) n Hn0). nia. }
  rewrite wrap_small in H3 by (unfold in_range; nia).
  destruct (IH ltac:(lia) (stride * n) ltac:(nia) H3) as (-> & Hv & Hf). rewrite take_snoc by (done || lia).
  fold n. rewrite product_snoc. split; [lia|]. split; [lia|]. apply Forall_app. by repeat constructor.
Qed.

Lemma hdf5_type_known type : type <> ET_Unknown -> (forall z, type <> ElementType_other z) ->
  forall endian, exists t, hdf5_type type endian = Val t.
Proof. intros H1 H2 endian. destruct type; try done; try (by eexists). by edestruct H2. Qed.

(** A subscription that is accepted has frames the writers can describe. *)
Lemma establish_ok o publisher plan g :
  array_ok (geo_shape publisher) -> 0 <= geo_rank publisher -> 0 <= geo_element_size publisher < 2 ^ 32 ->
  0 <= geo_max_frame_bytes publisher < 2 ^ 64 -> (forall z, geo_element_type publisher <> ElementType_other z) ->
  establish o publisher plan = Val g ->
  geometry_ok g /\ (length (hg_frame_dimensions g) <= 4)%nat /\
  hg_element_type g = geo_element_type publisher /\ hg_slot_bytes g = geo_max_frame_bytes publisher /\
  co_frames_per_block o <= rp_credit_window plan /\ co_ring_depth o <= rp_ring_depth plan.
Proof.
  intros Hs Hr Hes Hm Hty. unfold establish. intros (g1 & Hg & H1)%bind_val_inv. apply guard_val_inv in H1 as [_ H1].
  apply guard_val_inv in H1 as [Hmod H1]. apply guard_val_inv in H1 as [Hplan [= <-]].
  unfold geometry_from_publisher in Hg. apply guard_val_inv in Hg as [Hc Hg].
  apply bind_val_inv in Hg as (fb & Hfb & Hg). apply guard_val_inv in Hg as [Hle [= <-]].
  cbn [hg_element_size hg_frame_dimensions hg_element_type hg_slot_bytes] in *. unfold_limits.
  assert (geo_rank publisher <= 4 /\ geo_element_size publisher <> 0 /\ geo_element_type publisher <> ET_Unknown) as (Hrk & Hne & Hu).
  { bool_to_prop. split; [lia|]. split; [lia|done]. }
  destruct (contiguous_loop_val (Z.to_nat (geo_rank publisher)) publisher (geo_element_size publisher) fb
    ltac:(lia) Hs ltac:(lia) Hfb) as (Hv & _ & Hpos).
  split; [|split; [rewrite length_take; lia|]].
  - split; cbn; try done; [lia|bool_to_prop; lia| |by apply hdf5_type_known].
    apply Z.mod_divide; [lia|]. bool_to_prop. lia.
  - split; [done|]. split; [done|]. bool_to_prop. lia.
Qed.

(** The default block of 32 frames is never accepted: the client asks for a credit window of
    at most 16, and a plan never has more than was asked. *)
Theorem large_blocks_refused o config publisher plan
  (Hconf : acquire_config o = Val config) (Hplan : rp_credit_window plan <= sc_credit_window config)
  (Hbig : 16 < co_frames_per_block o) (g : Hdf5Geometry) :
  establish o publisher plan <> Val g.
Proof.
  intros He. unfold acquire_config in Hconf. apply guard_val_inv in Hconf as [_ [= <-]]. cbn [sc_credit_window] in Hplan.
  unfold establish in He. apply bind_val_inv in He as (g1 & _ & He). apply guard_val_inv in He as [_ He].
  apply guard_val_inv in He as [_ He]. apply guard_val_inv in He as [Hc _]. bool_to_prop. lia.
Qed.

Section Workers.
Context {D V : Type} `{Hdf5 D V}.
Abbreviation Child := (WriterChild (D := D)).

(** ** A worker *)

(** [sw_child] is the process, [sw_done] whether the thread has ended. *)
Record ShardWorker : Type := mkShardWorker {
  sw_child : Child;
  sw_queue : list Block;
  sw_stopping : bool;
  sw_error : option bytes;
  sw_blocks_written : Z;
  sw_bytes_written : Z;
  sw_peak_queue : Z;
  sw_done : bool
}.

(** [start_child]: the configuration sent. *)
Definition worker_config (o : ClientOptions) (g : Hdf5Geometry) (path : bytes) (index local_frames ring_bytes : Z)
    : WriterConfigMessage :=
  let rank := length (hg_frame_dimensions g) in
  mkWriterConfigMessage k_writer_protocol_magic k_writer_protocol_version (Z.of_nat (length path)) index local_frames
    (co_writers o) (co_frames_per_block o) (co_blocks_per_stripe o) ring_bytes (hg_frame_bytes g) (hg_slot_bytes g)
    (ElementType_raw (hg_element_type g)) (hg_element_size g) (Z.of_nat rank) (if co_chunked o then 1 else 0)
    (hg_frame_dimensions g ++ replicate (4 - rank) 0).

(** The constructor: the process is started with the shared memory of [ring_bytes], and
    must answer [Ready]. *)
Definition worker_start (o : ClientOptions) (g : Hdf5Geometry) (index local_frames ring_bytes : Z) (failure : option bytes)
    : hres ShardWorker :=
  let path := shard_path o index in
  guard! negb ((2 ^ 32 - 1 <? Z.of_nat (length path)) || (2 ^ 32 - 1 <? index))
    else str "writer filename or index is too large" in
  match child_start (worker_config o g path index local_frames ring_bytes) ring_bytes failure with
  | Val child => Val (mkShardWorker child [] false None 0 0 0 false)
  | Err e =>
      let! _ := require_response (response_message ResponseError e) Ready in Fault
  | Fault => Fault
  end.

Definition worker_with_queue (w : ShardWorker) (queue : list Block) : ShardWorker :=
  mkShardWorker (sw_child w) queue (sw_stopping w) (sw_error w) (sw_blocks_written w) (sw_bytes_written w)
    (sw_peak_queue w) (sw_done w).

(** What [submit] waits for, and what it does then. *)
Definition submit_ready (o : ClientOptions) (w : ShardWorker) : bool :=
  (Z.of_nat (length (sw_queue w)) <? co_queue_depth o) || sw_stopping w || bool_decide (sw_error w <> None).
Definition worker_submit (w : ShardWorker) (block : Block) : hres ShardWorker :=
  match sw_error w with
  | Some e => Err e
  | None =>
      guard! negb (sw_stopping w) else str "submit to a stopped shard worker" in
      let queue := sw_queue w ++ [block] in
      Val (mkShardWorker (sw_child w) queue (sw_stopping w) (sw_error w) (sw_blocks_written w) (sw_bytes_written w)
             (Z.max (sw_peak_queue w) (Z.of_nat (length queue))) (sw_done w))
  end.

(** The first half of [stop]; the second waits for the thread and rethrows. *)
Definition worker_stop (w : ShardWorker) : ShardWorker :=
  mkShardWorker (sw_child w) (sw_queue w) true (sw_error w) (sw_blocks_written w) (sw_bytes_written w)
    (sw_peak_queue w) (sw_done w).

(** The handler of [run]: the queue is abandoned. *)
Definition worker_fail (w : ShardWorker) (e : bytes) : ShardWorker :=
  mkShardWorker (sw_child w) [] true (Some e) (sw_blocks_written w) (sw_bytes_written w) (sw_peak_queue w) true.

(** [write_block] and the counters after it. *)
Definition worker_write (w : ShardWorker) (g : Hdf5Geometry) (base ring_bytes : Z) (block : Block) (ring : bytes)
    (failures : Z -> option bytes) : outcome bytes ShardWorker :=
  let! command := write_command block g base ring_bytes in
  match child_command (sw_child w) ring command failures None with
  | Val (r, child) =>
      let! _ := require_response r Complete in
      Val (mkShardWorker (default (sw_child w) child) (sw_queue w) (sw_stopping w) (sw_error w)
             (u64 (sw_blocks_written w + 1))
             (u64 (sw_bytes_written w + u64 (hg_frame_bytes g * bk_frame_count block))) (sw_peak_queue w) (sw_done w))
  | _ => Fault
  end.

(** The exchange after the loop; [exited] is whether the process ended well. *)
Definition worker_finish (w : ShardWorker) (ring : bytes) (close_failure : option bytes) (exited : bool)
    : hres ShardWorker :=
  match child_command (sw_child w) ring CommandStop (fun _ => None) close_failure with
  | Val (r, _) =>
      let! _ := require_response r Stopped in
      guard! negb (negb (wr_blocks_written r =? sw_blocks_written w) || negb (wr_bytes_written r =? sw_bytes_written w))
        else str "HDF5 writer process reported inconsistent counters" in
      guard! exited else str "HDF5 writer process exited unsuccessfully" in
      Val (mkShardWorker (sw_child w) (sw_queue w) (sw_stopping w) (sw_error w) (sw_blocks_written w) (sw_bytes_written w)
             (sw_peak_queue w) true)
  | _ => Fault
  end.

(** A turn of [run]: a block, the end, or nothing to do. *)
Definition worker_turn (w : ShardWorker) (g : Hdf5Geometry) (base ring_bytes : Z) (ring : bytes)
    (failures : Z -> option bytes) (close_failure : option bytes) (exited : bool) : outcome False ShardWorker :=
  if sw_done w then Val w else
  let caught (r : hres ShardWorker) (w : ShardWorker) :=
    match r with Val w => Val w | Err e => Val (worker_fail w e) | Fault => Fault end in
  match sw_queue w with
  | block :: queue =>
      let w := worker_with_queue w queue in caught (worker_write w g base ring_bytes block ring failures) w
  | [] => if sw_stopping w then caught (worker_finish w ring close_failure exited) w else Val w
  end.

(** ** All the workers *)

(** The workers of [ParallelShardWriter]; [failures] tells which HDF5 call of each process
    fails. *)
Fixpoint start_workers (o : ClientOptions) (g : Hdf5Geometry) (ring_bytes : Z) (failures : nat -> option bytes)
    (indices : list nat) : hres (list ShardWorker) :=
  match indices with
  | [] => Val []
  | i :: indices =>
      let! w := worker_start o g (Z.of_nat i) (local_frame_counts o !!! i) ring_bytes (failures i) in
      let! ws := start_workers o g ring_bytes failures indices in
      Val (w :: ws)
  end.
Definition parallel_start (o : ClientOptions) (g : Hdf5Geometry) (ring_bytes : Z) (failures : nat -> option bytes)
    : hres (list ShardWorker) :=
  start_workers o g ring_bytes failures (seq 0 (Z.to_nat (co_writers o))).

(** The variables of the loop of [main]. *)
Record Acquisition : Type := mkAcquisition {
  ac_received : Z;
  ac_submitted_blocks : Z;
  ac_block : list ReceivedFrame;
  ac_endian : option Endian;
  ac_workers : list ShardWorker
}.
Definition acquisition_start (workers : list ShardWorker) : Acquisition := mkAcquisition 0 0 [] None workers.

(** The block [ParallelShardWriter::submit] makes. *)
Definition block_at (o : ClientOptions) (location : BlockLocation) (frames : list ReceivedFrame) (endian : Endian) : Block :=
  mkBlock (u64 (bl_local_block location * co_frames_per_block o)) (co_frames_per_block o) endian frames.
Definition parallel_submit (o : ClientOptions) (workers : list ShardWorker) (block : Z) (frames : list ReceivedFrame)
    (endian : Endian) : hres (list ShardWorker) :=
  let location := locate_block block o in
  match workers !! Z.to_nat (bl_writer location) with
  | Some w =>
      let! w := worker_submit w (block_at o location frames endian) in
      Val (<[Z.to_nat (bl_writer location) := w]> workers)
  | None => Fault
  end.

(** The loop body for a frame. *)
Definition acquire_frame (o : ClientOptions) (publisher : Geometry) (g : Hdf5Geometry) (a : Acquisition)
    (frame : ReceivedFrame) : hres Acquisition :=
  let! endian := validate_frame frame publisher g (ac_endian a) in
  let block := ac_block a ++ [frame] in
  if Z.of_nat (length block) =? co_frames_per_block o then
    let! workers := parallel_submit o (ac_workers a) (ac_submitted_blocks a) block endian in
    Val (mkAcquisition (ac_received a + 1) (ac_submitted_blocks a + 1) [] (Some endian) workers)
  else Val (mkAcquisition (ac_received a + 1) (ac_submitted_blocks a) block (Some endian) (ac_workers a)).

Definition with_worker (a : Acquisition) (i : nat) (w : ShardWorker) : Acquisition :=
  mkAcquisition (ac_received a) (ac_submitted_blocks a) (ac_block a) (ac_endian a) (<[i := w]> (ac_workers a)).

(** A frame that completes a block waits until the worker takes the block. *)
Definition frame_ready (o : ClientOptions) (a : Acquisition) : Prop :=
  Z.of_nat (length (ac_block a)) + 1 = co_frames_per_block o ->
  forall w, ac_workers a !! Z.to_nat (bl_writer (locate_block (ac_submitted_blocks a) o)) = Some w ->
    submit_ready o w = true.

(** What a view promises: its byte order is one of the two, and its bytes are its payload. *)
Definition view_ok (frame : ReceivedFrame) : Prop :=
  (ff_endian (rf_fields frame) = Little \/ ff_endian (rf_fields frame) = Big) /\ in_range 64 (rf_address frame) /\
  Z.of_nat (length (rf_payload frame)) = ff_payload_bytes (rf_fields frame).

(** The ring shows a frame that is held. *)
Definition shows (base : Z) (ring : bytes) (frame : ReceivedFrame) : Prop :=
  slice ring (Z.to_nat (rf_address frame - base)) (length (rf_payload frame)) = rf_payload frame.

(** Steps of the program; the first list is the frames received so far. *)
Inductive acquire_step (o : ClientOptions) (publisher : Geometry) (g : Hdf5Geometry) (base ring_bytes : Z)
    : list ReceivedFrame -> Acquisition -> list ReceivedFrame -> Acquisition -> Prop :=
| as_receive frames a frame a' :
    ac_received a < co_frames o -> view_ok frame -> frame_ready o a -> acquire_frame o publisher g a frame = Val a' ->
    acquire_step o publisher g base ring_bytes frames a (frames ++ [frame]) a'
| as_turn frames a i w ring failures close_failure exited w' :
    ac_workers a !! i = Some w -> Z.of_nat (length ring) = ring_bytes ->
    (forall block, head (sw_queue w) = Some block -> Forall (shows base ring) (bk_frames block)) ->
    worker_turn w g base ring_bytes ring failures close_failure exited = Val w' ->
    acquire_step o publisher g base ring_bytes frames a frames (with_worker a i w')
| as_stop frames a i w :
    ac_workers a !! i = Some w ->
    acquire_step o publisher g base ring_bytes frames a frames (with_worker a i (worker_stop w)).

Inductive acquire_run (o : ClientOptions) (publisher : Geometry) (g : Hdf5Geometry) (base ring_bytes : Z)
    : list ReceivedFrame -> Acquisition -> list ReceivedFrame -> Acquisition -> Prop :=
| ar_refl frames a : acquire_run o publisher g base ring_bytes frames a frames a
| ar_step frames a frames1 a1 frames2 a2 :
    acquire_step o publisher g base ring_bytes frames a frames1 a1 ->
    acquire_run o publisher g base ring_bytes frames1 a1 frames2 a2 ->
    acquire_run o publisher g base ring_bytes frames a frames2 a2.

(** ** What the shards hold *)

Section Invariant.
Context `{!Hdf5Laws D V}.
Context (o : ClientOptions) (publisher : Geometry) (g : Hdf5Geometry) (base ring_bytes : Z).

(** What is established before the loop. *)
Record setup_ok : Prop := {
  su_options : options_ok o;
  su_geometry : geometry_ok g;
  su_rank : (length (hg_frame_dimensions g) <= 4)%nat;
  su_type : ElementType_of_raw (ElementType_raw (hg_element_type g)) = hg_element_type g;
  su_ring : ring_bytes + hg_slot_bytes g < 2 ^ 64;
  su_block : co_frames_per_block o < 2 ^ 32
}.
Context (Hsetup : setup_ok).
#[local] Abbreviation B := (co_frames_per_block o).

(** Element [k] of a frame, as HDF5 should show it. *)
Definition shown (frame : ReceivedFrame) (k : Z) : option V :=
  match hdf5_type (hg_element_type g) (ff_endian (rf_fields frame)) with
  | Val type => Some (h5_value type (slice (rf_payload frame) (Z.to_nat (k * hg_element_size g)) (Z.to_nat (hg_element_size g))))
  | _ => None
  end.

(** Block [l] of writer [i], of the frames received. *)
Definition is_block (frames : list ReceivedFrame) (i l : Z) (block : Block) : Prop :=
  exists b, 0 <= b < block_count o /\ locate_block b o = mkBlockLocation i l /\
    (Z.to_nat b * Z.to_nat B + Z.to_nat B <= length frames)%nat /\
    block = block_at o (mkBlockLocation i l) (slice frames (Z.to_nat b * Z.to_nat B) (Z.to_nat B)) (bk_endian block) /\
    Forall (fun f => view_ok f /\ ff_endian (rf_fields f) = bk_endian block /\ ff_payload_bytes (rf_fields f) = hg_frame_bytes g)
      (bk_frames block).

(** The first [n] blocks of writer [i] are in [d]. *)
Definition holds_blocks (frames : list ReceivedFrame) (i n : Z) (d : D) : Prop :=
  forall b l q k frame, 0 <= b < block_count o -> locate_block b o = mkBlockLocation i l -> l < n ->
    0 <= q < B -> 0 <= k < elements g -> frames !! Z.to_nat (b * B + q) = Some frame ->
    h5_get d ((l * B + q) * elements g + k) = shown frame k.

Definition shard_config (i : Z) : WriterConfigMessage :=
  worker_config o g (shard_path o i) i (local_frame_counts o !!! Z.to_nat i) ring_bytes.

Record worker_ok (frames : list ReceivedFrame) (submitted i : Z) (w : ShardWorker) (n : Z) : Prop := {
  wo_config : wk_config (sw_child w) = shard_config i;
  wo_geometry : wk_geometry (sw_child w) = g;
  wo_shard : shard_of g (local_frame_counts o !!! Z.to_nat i) (wk_dataset (sw_child w));
  wo_blocks : sw_blocks_written w = wk_blocks_written (sw_child w);
  wo_bytes : sw_bytes_written w = wk_bytes_written (sw_child w);
  wo_count : 0 <= n /\ n + Z.of_nat (length (sw_queue w)) = below o submitted i;
  wo_queue : forall (j : nat) block, sw_queue w !! j = Some block -> is_block frames i (n + Z.of_nat j) block;
  wo_held : holds_blocks frames i n (wk_dataset (sw_child w));
  wo_done : sw_done w = true -> sw_stopping w = true /\ sw_queue w = []
}.

(** A worker that failed promises nothing. *)
Definition worker_inv (frames : list ReceivedFrame) (submitted i : Z) (w : ShardWorker) : Prop :=
  sw_error w = None -> exists n, worker_ok frames submitted i w n.

Record acquire_inv (frames : list ReceivedFrame) (a : Acquisition) : Prop := {
  ai_received : ac_received a = Z.of_nat (length frames) /\ ac_received a <= co_frames o;
  ai_block : frames = take (Z.to_nat (ac_submitted_blocks a) * Z.to_nat B) frames ++ ac_block a;
  ai_split : ac_received a = ac_submitted_blocks a * B + Z.of_nat (length (ac_block a)) /\
    0 <= ac_submitted_blocks a /\ Z.of_nat (length (ac_block a)) < B;
  ai_frames : Forall (fun f => view_ok f /\ ff_payload_bytes (rf_fields f) = hg_frame_bytes g /\
    Some (ff_endian (rf_fields f)) = ac_endian a) frames;
  ai_workers : length (ac_workers a) = Z.to_nat (co_writers o);
  ai_each : forall i w, ac_workers a !! i = Some w -> worker_inv frames (ac_submitted_blocks a) (Z.of_nat i) w
}.

Lemma slice_app_l {A} (l1 l2 : list A) p n : (p + n <= length l1)%nat -> slice (l1 ++ l2) p n = slice l1 p n.
Proof.
  intros. unfold slice. rewrite drop_app_le by lia. rewrite take_app_le by (rewrite length_drop; lia). done.
Qed.

Lemma is_block_app frames more i l block : is_block frames i l block -> is_block (frames ++ more) i l block.
Proof.
  intros (b & Hb & Hl & Hlen & He & Hf). exists b. rewrite length_app, slice_app_l by lia.
  repeat (split; [done || lia|]). done.
Qed.

Lemma located_below b i l submitted :
  0 <= b < 2 ^ 64 -> locate_block b o = mkBlockLocation i l -> 0 <= submitted <= 2 ^ 64 -> l < below o submitted i ->
  b < submitted.
Proof.
  intros Hb Hl Hs Hlt. pose proof (su_options Hsetup) as Hok. destruct (decide (b < submitted)) as [|Hge]; [done|].
  pose proof (locate_writer o Hok b Hb) as Hw. pose proof (below_local o Hok b Hb) as Hloc. rewrite Hl in Hw, Hloc.
  simpl in *. pose proof (below_mono o Hok i submitted b). lia.
Qed.

Lemma holds_blocks_app frames more i n submitted d :
  n <= below o submitted i -> 0 <= submitted -> submitted * B <= Z.of_nat (length frames) -> submitted <= block_count o ->
  holds_blocks frames i n d -> holds_blocks (frames ++ more) i n d.
Proof.
  intros Hn Hs Hlen Hbc Hh b l q k frame Hb Hl Hln Hq Hk Hf. destruct (blocks_fit o (su_options Hsetup)) as [Hfit _].
  assert (b < submitted) by (eapply located_below; [|done|..]; lia).
  eapply Hh; try done. rewrite lookup_app_l in Hf by nia. done.
Qed.

Lemma shard_config_geometry i : config_geometry (shard_config i) = g.
Proof.
  unfold config_geometry, shard_config, worker_config. cbn. rewrite (su_type Hsetup), Nat2Z.id.
  rewrite take_app_length. by destruct g.
Qed.

Lemma worker_child_ok frames submitted i w n ring :
  worker_ok frames submitted i w n -> Z.of_nat (length ring) = ring_bytes -> child_ok (sw_child w) ring.
Proof.
  intros Hw Hr. split.
  - by rewrite (wo_config _ _ _ _ _ Hw), (wo_geometry _ _ _ _ _ Hw), shard_config_geometry.
  - rewrite (wo_geometry _ _ _ _ _ Hw). apply Hsetup.
  - by rewrite (wo_config _ _ _ _ _ Hw).
  - rewrite (wo_geometry _ _ _ _ _ Hw). unfold ring_fits. rewrite Hr. apply Hsetup.
  - rewrite (wo_config _ _ _ _ _ Hw), (wo_geometry _ _ _ _ _ Hw). apply (wo_shard _ _ _ _ _ Hw).
Qed.

Lemma block_offsets_val frames fb offsets :
  block_offsets frames fb base ring_bytes = Val offsets ->
  offsets = (fun f => rf_address f - base) <$> frames /\
  Forall (fun x => 0 <= x /\ x + fb <= ring_bytes) offsets.
Proof.
  revert offsets. induction frames as [|f frames IH]; intros offsets; cbn [block_offsets].
  { by intros [= <-]. }
  intros [Hc Hr]%guard_val_inv. apply bind_val_inv in Hr as (l & Hl & [= <-]). destruct (IH l Hl) as [-> Hf].
  split; [done|]. constructor; [|done]. bool_to_prop. lia.
Qed.

(** The process wrote the block it was sent. *)
Lemma worker_write_child w block ring failures w' :
  worker_write w g base ring_bytes block ring failures = Val w' ->
  exists offsets, write_command block g base ring_bytes =
      Val (CommandWrite (bk_frame_count block) (Endian_raw (bk_endian block)) (bk_local_first_frame block) offsets) /\
    offsets = (fun f => rf_address f - base) <$> bk_frames block /\
    Z.of_nat (length offsets) = bk_frame_count block /\
    Forall (fun x => 0 <= x /\ x + hg_frame_bytes g <= ring_bytes) offsets /\
    exists child, child_write (sw_child w) ring (bk_frame_count block) (Endian_raw (bk_endian block))
        (bk_local_first_frame block) offsets failures = Val child /\
      w' = mkShardWorker child (sw_queue w) (sw_stopping w) (sw_error w) (u64 (sw_blocks_written w + 1))
        (u64 (sw_bytes_written w + u64 (hg_frame_bytes g * bk_frame_count block))) (sw_peak_queue w) (sw_done w).
Proof.
  unfold worker_write. intros (command & Hc & Hw)%bind_val_inv. pose proof Hc as Hc0. unfold write_command in Hc.
  apply guard_val_inv in Hc as [Hlen Hc]. apply bind_val_inv in Hc as (offsets & Ho & [= <-]).
  exists offsets. split; [done|]. destruct (block_offsets_val _ _ _ Ho) as [Heq Hf]. split; [done|].
  split; [rewrite Heq, length_fmap; bool_to_prop; lia|]. split; [done|]. cbn [child_command] in Hw.
  destruct (child_write _ _ _ _ _ _ _) as [child|e|]; [|done..]. exists child. split; [done|].
  apply bind_val_inv in Hw as ([] & _ & [= <-]). done.
Qed.

Lemma slice_slice {A} (l : list A) p n q m : (q + m <= n)%nat -> slice (slice l p n) q m = slice l (p + q) m.
Proof.
  intros Hq. unfold slice. rewrite skipn_firstn_comm, take_take, drop_drop. f_equal. lia.
Qed.

(** What HDF5 is given of a frame that the ring shows is what it should show. *)
Lemma shown_value ring type frame k :
  view_ok frame -> ff_payload_bytes (rf_fields frame) = hg_frame_bytes g -> shows base ring frame ->
  hdf5_type (hg_element_type g) (ff_endian (rf_fields frame)) = Val type ->
  0 <= rf_address frame - base -> 0 <= k < elements g ->
  Some (frame_value g ring type (rf_address frame - base) k) = shown frame k.
Proof.
  intros (_ & _ & Hlen) Hb Hs Ht H0 Hk. unfold shown. rewrite Ht. f_equal. unfold frame_value. f_equal.
  pose proof (go_size g (su_geometry Hsetup)) as Hes. pose proof (go_bytes g (su_geometry Hsetup)) as Hfb.
  fold (elements g) in Hfb. rewrite <-Hs, slice_slice by nia. f_equal. nia.
Qed.

(** Blocks of [n] frames do not overlap. *)
Lemma rows_apart c d n : 0 <= n -> c <> d -> c * n + n <= d * n \/ d * n + n <= c * n.
Proof.
  intros Hn Hne. destruct (decide (c < d)); [left|right].
  - replace (c * n + n) with ((c + 1) * n) by lia. apply Z.mul_le_mono_nonneg_r; lia.
  - replace (d * n + n) with ((d + 1) * n) by lia. apply Z.mul_le_mono_nonneg_r; lia.
Qed.

(** The place of a block lies in its shard. *)
Lemma block_rows b :
  0 <= b < block_count o ->
  0 <= bl_local_block (locate_block b o) /\
  bl_local_block (locate_block b o) * B + B <= local_frame_counts o !!! Z.to_nat (bl_writer (locate_block b o)) < 2 ^ 64.
Proof.
  intros Hb. pose proof (su_options Hsetup) as Hok. destruct (blocks_fit o Hok) as [Hbc Hbf].
  pose proof (oo_block o Hok) as HB. pose proof (oo_frames o Hok) as Hfr.
  pose proof (locate_writer o Hok b ltac:(lia)) as Hi. pose proof (below_lt o Hok b (block_count o) Hb ltac:(lia)) as Hlt.
  pose proof (below_local o Hok b ltac:(lia)) as Hloc.
  remember (bl_writer (locate_block b o)) as i. remember (bl_local_block (locate_block b o)) as n.
  pose proof (below_le o Hok b i ltac:(lia) Hi) as Hn0. pose proof (below_le o Hok (block_count o) i ltac:(lia) Hi) as Hle.
  assert (local_frame_counts o !!! Z.to_nat i = below o (block_count o) i * B) as Hc.
  { apply list_lookup_total_correct. rewrite counts_exact by done.
    rewrite blocks_below_closed, Z2Nat.id by (done || lia). done. }
  assert (below o (block_count o) i * B <= co_frames o) by (rewrite <-Hbf; nia).
  assert (n * B + B <= below o (block_count o) i * B).
  { replace (n * B + B) with ((n + 1) * B) by lia. apply Z.mul_le_mono_nonneg_r; lia. }
  lia.
Qed.

(** The frames of a block that is on its way. *)
Lemma block_facts frames i n block :
  is_block frames i n block ->
  exists b, 0 <= b < block_count o /\ locate_block b o = mkBlockLocation i n /\
    bk_frames block = slice frames (Z.to_nat b * Z.to_nat B) (Z.to_nat B) /\
    length (bk_frames block) = Z.to_nat B /\ bk_frame_count block = B /\
    bk_local_first_frame block = n * B /\ 0 <= n /\ n * B + B <= local_frame_counts o !!! Z.to_nat i < 2 ^ 64 /\
    exists type, hdf5_type (hg_element_type g) (bk_endian block) = Val type /\
      Endian_of_raw (Endian_raw (bk_endian block)) = bk_endian block.
Proof.
  intros (b & Hb & Hl & Hlen & He & Hf). exists b. pose proof (oo_block o (su_options Hsetup)) as HB.
  destruct (block_rows b Hb) as [Hn0 Hrows]. rewrite Hl in Hn0, Hrows. cbn [bl_local_block bl_writer] in *.
  assert (bk_frames block = slice frames (Z.to_nat b * Z.to_nat B) (Z.to_nat B)) as Hbk by (rewrite He at 1; done).
  assert (length (bk_frames block) = Z.to_nat B) as Hbl by (rewrite Hbk; by apply length_slice).
  repeat (split; [done|]). split; [rewrite He; done|].
  split; [rewrite He; cbn [block_at bk_local_first_frame bl_local_block]; apply wrap_small; unfold in_range; nia|].
  split; [lia|]. split; [lia|].
  destruct (go_type g (su_geometry Hsetup) (bk_endian block)) as [type Ht]. exists type. split; [done|].
  destruct (bk_frames block) as [|f fs]; [simpl in Hbl; lia|]. apply Forall_cons_1 in Hf as [((Hend & _) & <- & _) _].
  by destruct Hend as [->| ->].
Qed.

(** A shard with [n] blocks and the next one has [n + 1]. *)
Lemma block_held frames i n block b ring type d d' :
  0 <= i < co_writers o -> 0 <= b < block_count o -> locate_block b o = mkBlockLocation i n ->
  bk_frames block = slice frames (Z.to_nat b * Z.to_nat B) (Z.to_nat B) -> length (bk_frames block) = Z.to_nat B ->
  Forall (fun f => view_ok f /\ ff_endian (rf_fields f) = bk_endian block /\ ff_payload_bytes (rf_fields f) = hg_frame_bytes g)
    (bk_frames block) ->
  Forall (shows base ring) (bk_frames block) -> Forall (fun f => 0 <= rf_address f - base) (bk_frames block) ->
  hdf5_type (hg_element_type g) (bk_endian block) = Val type ->
  frames_written g ring type d (n * B) ((fun f => rf_address f - base) <$> bk_frames block) d' ->
  holds_blocks frames i n d -> holds_blocks frames i (n + 1) d'.
Proof.
  intros Hi Hb Hl Hfr Hlen Hviews Hshow Haddr Ht [_ Hwr] Hh b' l q k frame Hb' Hl' Hln Hq Hk Hf.
  destruct (blocks_fit o (su_options Hsetup)) as [Hbc _]. rewrite Hwr by done.
  destruct (decide (l = n)) as [->|Hne].
  - assert (b' = b) as -> by (apply (locate_inj o (su_options Hsetup)); [lia|lia|congruence]).
    destruct (Z.leb_spec (n * B) (n * B + q)); [|lia]. replace (n * B + q - n * B) with q by lia.
    assert (bk_frames block !! Z.to_nat q = Some frame) as Hfq.
    { rewrite Hfr. unfold slice. rewrite lookup_take_lt, lookup_drop by lia. rewrite <-Hf. f_equal. nia. }
    rewrite list_lookup_fmap, Hfq. simpl. rewrite Forall_lookup in Hviews, Hshow, Haddr.
    destruct (Hviews _ _ Hfq) as (Hv & He & Hp). apply shown_value; try done; [by eapply Hshow|by rewrite He|by eapply Haddr].
  - assert (l * B + q < n * B) by nia. destruct (Z.leb_spec (n * B) (l * B + q)); [lia|].
    apply (Hh b' l q k frame); try done. lia.
Qed.

Lemma worker_write_ok frames submitted i w n block queue ring failures w' :
  0 <= i < co_writers o -> worker_ok frames submitted i w n -> sw_queue w = block :: queue ->
  Z.of_nat (length ring) = ring_bytes -> Forall (shows base ring) (bk_frames block) ->
  sw_done w = false ->
  worker_write (worker_with_queue w queue) g base ring_bytes block ring failures = Val w' ->
  worker_ok frames submitted i w' (n + 1) /\ sw_error w' = sw_error w.
Proof.
  intros Hi Hw Hq Hring Hshow Hdone Hwrite.
  pose proof (wo_queue _ _ _ _ _ Hw 0%nat block ltac:(by rewrite Hq)) as Hblock. rewrite Z.add_0_r in Hblock.
  pose proof Hblock as (b0 & _ & _ & _ & _ & Hviews).
  destruct (block_facts _ _ _ _ Hblock) as (b & Hb & Hl & Hfr & Hlen & Hcount & Hfirst & Hn & Hfit & type & Ht & Hraw).
  destruct (worker_write_child _ _ _ _ _ Hwrite) as (offsets & _ & Hoff & Hol & Hbound & child & Hchild & ->).
  pose proof (worker_child_ok _ _ _ _ _ ring Hw Hring) as Hck. pose proof (oo_block o (su_options Hsetup)) as HB.
  pose proof (su_ring Hsetup) as Hrb. pose proof (wo_config _ _ _ _ _ Hw) as Hcfg. pose proof (wo_geometry _ _ _ _ _ Hw) as Hgeo.
  pose proof (go_bytes g (su_geometry Hsetup)) as Hfb. fold (elements g) in Hfb. pose proof (elements_pos g (su_geometry Hsetup)).
  pose proof (go_size g (su_geometry Hsetup)). assert (0 <= hg_frame_bytes g <= hg_slot_bytes g) as Hfs.
  { pose proof (go_slot g (su_geometry Hsetup)). nia. }
  cbn [worker_with_queue sw_child] in Hchild. rewrite <-Hol in Hchild.
  destruct (child_write_ok (sw_child w) ring (Endian_raw (bk_endian block)) (bk_local_first_frame block) offsets failures type)
    as [(e & j & He & _)|(d & He & Hwr)]; rewrite ?Hcfg, ?Hgeo; cbn [shard_config worker_config wc_local_frames wc_frame_bytes
      wc_ring_bytes wc_frames_per_block].
  - exact Hck.
  - eapply list.Forall_impl; [exact Hbound|]. unfold in_range. intros x [? ?]. lia.
  - lia.
  - eapply list.Forall_impl; [exact Hbound|]. intros x [_ ?]. done.
  - intros ->. simpl in Hol. lia.
  - lia.
  - lia.
  - lia.
  - by rewrite Hraw.
  - congruence.
  - rewrite Hchild in He. injection He as ->. rewrite Hgeo in Hwr. split; [|done].
    split; cbn [sw_child wk_config wk_geometry wk_dataset sw_blocks_written sw_bytes_written wk_blocks_written wk_bytes_written
      sw_queue sw_done sw_stopping worker_with_queue]; try done.
    + destruct Hwr as [Hd _]. unfold shard_of. rewrite Hd. apply (wo_shard _ _ _ _ _ Hw).
    + by rewrite (wo_blocks _ _ _ _ _ Hw).
    + rewrite (wo_bytes _ _ _ _ _ Hw), Hcfg, Hol. done.
    + destruct (wo_count _ _ _ _ _ Hw) as [? Hcnt]. rewrite Hq in Hcnt. simpl in Hcnt. lia.
    + intros j blk Hj. replace (n + 1 + Z.of_nat j) with (n + Z.of_nat (S j)) by lia.
      apply (wo_queue _ _ _ _ _ Hw). by rewrite Hq.
    + eapply block_held; [done..| |done|by rewrite <-Hoff, <-Hfirst|apply (wo_held _ _ _ _ _ Hw)].
      rewrite Hoff, Forall_fmap in Hbound. eapply list.Forall_impl; [exact Hbound|]. by intros x [? _].
    + by rewrite Hdone.
Qed.

Lemma worker_turn_ok frames submitted i w ring failures close_failure exited w' :
  0 <= i < co_writers o -> worker_inv frames submitted i w -> Z.of_nat (length ring) = ring_bytes ->
  (forall block, head (sw_queue w) = Some block -> Forall (shows base ring) (bk_frames block)) ->
  worker_turn w g base ring_bytes ring failures close_failure exited = Val w' ->
  worker_inv frames submitted i w'.
Proof.
  intros Hi Hinv Hring Hshow. unfold worker_turn. destruct (sw_done w) eqn:Hdone; [by intros [= <-]|].
  destruct (sw_queue w) as [|block queue] eqn:Hq.
  - destruct (sw_stopping w) eqn:Hst; [|by intros [= <-]].
    destruct (worker_finish w ring close_failure exited) as [w1|e|] eqn:Hfin; [|by intros [= <-]|done].
    intros [= <-]. unfold worker_finish in Hfin. destruct (child_command _ _ _ _ _) as [[r c]| |]; [|done..].
    apply bind_val_inv in Hfin as (_ & _ & Hfin). apply guard_val_inv in Hfin as [_ Hfin].
    apply guard_val_inv in Hfin as [_ [= <-]]. intros Herr. destruct (Hinv Herr) as [n Hw]. exists n.
    destruct Hw. split; try done.
  - destruct (worker_write (worker_with_queue w queue) g base ring_bytes block ring failures) as [w1|e|] eqn:Hwr; [|by intros [= <-]|done].
    intros [= <-] Herr.
    assert (sw_error w = None) as Hew.
    { destruct (worker_write_child _ _ _ _ _ Hwr) as (os & _ & _ & _ & _ & c & _ & ->). exact Herr. }
    destruct (Hinv Hew) as [n Hw]. exists (n + 1).
    destruct (worker_write_ok frames submitted i w n block queue ring failures w1) as [Hok _]; [done..|by apply Hshow|done|done|done].
Qed.

Lemma worker_stop_ok frames submitted i w : worker_inv frames submitted i w -> worker_inv frames submitted i (worker_stop w).
Proof.
  intros Hinv Herr. destruct (Hinv Herr) as [n [H1 H2 H3 H4 H5 H6 H7 H8 H9]]. exists n.
  split; try done. simpl. intros Hd. split; [done|]. by apply H9.
Qed.

(** More frames, and the same blocks submitted. *)
Lemma worker_inv_app frames more submitted i w :
  0 <= submitted <= block_count o -> submitted * B <= Z.of_nat (length frames) ->
  worker_inv frames submitted i w -> worker_inv (frames ++ more) submitted i w.
Proof.
  intros Hs Hlen Hinv Herr. destruct (Hinv Herr) as [n [H1 H2 H3 H4 H5 H6 H7 H8 H9]]. exists n. split; try done.
  - intros j blk Hj. by apply is_block_app, H7.
  - eapply holds_blocks_app; [|apply Hs|done|apply Hs|done]. lia.
Qed.

(** A block submitted to another worker does not concern this one. *)
Lemma worker_inv_other frames submitted i w :
  0 <= i < co_writers o -> 0 <= submitted < block_count o -> bl_writer (locate_block submitted o) <> i ->
  worker_inv frames submitted i w -> worker_inv frames (submitted + 1) i w.
Proof.
  intros Hi Hs Hne Hinv Herr. destruct (Hinv Herr) as [n [H1 H2 H3 H4 H5 H6 H7 H8 H9]]. exists n. split; try done.
  destruct (blocks_fit o (su_options Hsetup)) as [Hbc _].
  destruct (below_step o (su_options Hsetup) submitted i) as [-> _]; [lia|done|].
  rewrite bool_decide_eq_false_2 by done. lia.
Qed.

Lemma worker_submit_ok frames submitted w block endian w' :
  let location := locate_block submitted o in
  0 <= submitted < block_count o ->
  (Z.to_nat submitted * Z.to_nat B + Z.to_nat B <= length frames)%nat ->
  block = block_at o location (slice frames (Z.to_nat submitted * Z.to_nat B) (Z.to_nat B)) endian ->
  Forall (fun f => view_ok f /\ ff_endian (rf_fields f) = endian /\ ff_payload_bytes (rf_fields f) = hg_frame_bytes g)
    (bk_frames block) ->
  worker_inv frames submitted (bl_writer location) w -> worker_submit w block = Val w' ->
  worker_inv frames (submitted + 1) (bl_writer location) w'.
Proof.
  intros location Hs Hlen Hblock Hf Hinv. unfold worker_submit. destruct (sw_error w) eqn:Herr; [done|].
  intros [Hst [= <-]]%guard_val_inv _. destruct (Hinv Herr) as [n [H1 H2 H3 H4 H5 H6 H7 H8 H9]].
  destruct (blocks_fit o (su_options Hsetup)) as [Hbc _].
  pose proof (locate_writer o (su_options Hsetup) submitted ltac:(lia)) as Hw.
  destruct (below_step o (su_options Hsetup) submitted (bl_writer location)) as [Hstep Hloc]; [lia|done|].
  rewrite bool_decide_eq_true_2 in Hstep by done. specialize (Hloc eq_refl). fold location in Hloc.
  exists n. split; try done; cbn [sw_queue sw_done sw_stopping].
  - rewrite Hstep, length_app. cbn [length].
 lia.
  - intros j blk [Hj|[Hj Hblk]]%lookup_app_Some; [by apply H7|]. apply list_lookup_singleton_Some in Hblk as [Hj0 <-].
    replace (n + Z.of_nat j) with (bl_local_block location) by lia. exists submitted.
    split; [done|]. split; [unfold location; by destruct (locate_block submitted o)|]. split; [done|].
    assert (bk_endian block = endian) as He by by rewrite Hblock. rewrite He. split; [|done].
    rewrite Hblock. unfold block_at. done.
  - intros Hd. destruct (H9 Hd) as [Hst' _]. by rewrite Hst' in Hst.
Qed.

Lemma validated frame endian e :
  validate_frame frame publisher g endian = Val e ->
  e = ff_endian (rf_fields frame) /\ ff_payload_bytes (rf_fields frame) = hg_frame_bytes g /\
  (forall e', endian = Some e' -> e' = e).
Proof.
  unfold validate_frame. intros [Hc Hv]%guard_val_inv. apply guard_val_inv in Hv as [_ Hv].
  apply guard_val_inv in Hv as [He [= <-]]. split; [done|]. split.
  - bool_to_prop. lia.
  - intros e' ->. by apply bool_decide_eq_true in He.
Qed.

Lemma frames_endian frames (old : option Endian) e frame :
  Forall (fun f => view_ok f /\ ff_payload_bytes (rf_fields f) = hg_frame_bytes g /\ Some (ff_endian (rf_fields f)) = old) frames ->
  view_ok frame -> validate_frame frame publisher g old = Val e ->
  Forall (fun f => view_ok f /\ ff_payload_bytes (rf_fields f) = hg_frame_bytes g /\ Some (ff_endian (rf_fields f)) = Some e)
    (frames ++ [frame]).
Proof.
  intros Hf Hview (-> & Hp & He)%validated. apply Forall_app. split; [|by apply Forall_singleton].
  eapply list.Forall_impl; [exact Hf|]. intros f (Hv & Hpf & Hef). split; [done|]. split; [done|].
  f_equal. by apply He.
Qed.

Lemma acquire_frame_ok frames a frame a' :
  acquire_inv frames a -> ac_received a < co_frames o -> view_ok frame ->
  acquire_frame o publisher g a frame = Val a' -> acquire_inv (frames ++ [frame]) a'.
Proof.
  intros [[Hrec Hrle] Hblk (Hsplit & Hs0 & Hlt) Hfr Hwk Heach] Hmore Hview. unfold acquire_frame.
  intros (e & He & Hrest)%bind_val_inv. destruct (blocks_fit o (su_options Hsetup)) as [Hbc Hbf].
  pose proof (oo_block o (su_options Hsetup)) as HB.
  pose proof (frames_endian _ _ _ _ Hfr Hview He) as Hfr'. set (s := ac_submitted_blocks a) in *.
  assert (s < block_count o) as Hsb by nia. assert (s * B <= Z.of_nat (length frames)) as Hsl by lia.
  assert (Z.to_nat s * Z.to_nat B <= length frames)%nat as Hsn by nia.
  assert (length (ac_block a ++ [frame]) = S (length (ac_block a))) as Hbl by (rewrite length_app; simpl; lia).
  assert (frames ++ [frame] = take (Z.to_nat s * Z.to_nat B) (frames ++ [frame]) ++ ac_block a ++ [frame]) as Hblk'.
  { rewrite take_app_le by done. rewrite Hblk at 1. by rewrite <-app_assoc. }
  destruct (Z.eqb_spec (Z.of_nat (length (ac_block a ++ [frame]))) B) as [Hfull|Hpart].
  - apply bind_val_inv in Hrest as (workers & Hsub & [= <-]). unfold parallel_submit in Hsub. cbv zeta in Hsub. fold s in Hsub.
    remember (locate_block s o) as location eqn:Hloc.
    destruct (ac_workers a !! Z.to_nat (bl_writer location)) as [w|] eqn:Hw; [|done].
    apply bind_val_inv in Hsub as (w' & Hsub & [= <-]).
    pose proof (locate_writer o (su_options Hsetup) s ltac:(lia)) as Hwr. rewrite <-Hloc in Hwr.
    assert (slice (frames ++ [frame]) (Z.to_nat s * Z.to_nat B) (Z.to_nat B) = ac_block a ++ [frame]) as Hslice.
    { unfold slice. rewrite Hblk' at 1. rewrite drop_app_length' by (rewrite length_take, length_app; simpl; lia).
      apply take_ge. lia. }
    assert (length (frames ++ [frame]) = S (length frames)) as Hfl by (rewrite length_app; simpl; lia).
    split; cbn [ac_received ac_submitted_blocks ac_block ac_endian ac_workers].
    + rewrite Hfl. lia.
    + assert (Z.of_nat (S (length frames)) = (s + 1) * B) by lia.
      rewrite app_nil_r, take_ge; [done|]. rewrite Hfl, <-Z2Nat.inj_mul by lia. lia.
    + simpl. split; [lia|lia].
    + done.
    + by rewrite length_insert.
    + intros i v [(Hi & <- & _)|(Hi & Hv)]%list_lookup_insert_Some.
      * subst i. rewrite Z2Nat.id, Hloc by lia. rewrite Hloc in Hsub. eapply worker_submit_ok; [lia|rewrite Hfl, <-Z2Nat.inj_mul by lia; lia|by rewrite Hslice| | |exact Hsub].
        { cbn [block_at bk_frames]. rewrite Hblk' in Hfr'. apply Forall_app in Hfr' as [_ Hfr'].
          eapply list.Forall_impl; [exact Hfr'|]. intros f (H1 & H2 & [= H3]). done. }
        apply worker_inv_app; [lia|lia|]. rewrite <-Hloc. specialize (Heach _ _ Hw). by rewrite Z2Nat.id in Heach by lia.
      * assert (i < Z.to_nat (co_writers o))%nat by (rewrite <-Hwk; by eapply lookup_lt_Some).
        apply worker_inv_other; [lia|lia|rewrite <-Hloc; lia|]. apply worker_inv_app; [lia|lia|]. by apply Heach.
  - injection Hrest as <-. assert (length (frames ++ [frame]) = S (length frames)) as Hfl by (rewrite length_app; simpl; lia).
    split; cbn [ac_received ac_submitted_blocks ac_block ac_endian ac_workers]; try done.
    + rewrite Hfl. lia.
    + fold s. rewrite Hbl in *. lia.
    + intros i v Hv. apply worker_inv_app; [fold s; lia|fold s; lia|]. by apply Heach.
Qed.

Lemma acquire_step_ok frames a frames' a' :
  acquire_inv frames a -> acquire_step o publisher g base ring_bytes frames a frames' a' -> acquire_inv frames' a'.
Proof.
  intros Hinv Hstep. destruct Hstep as [frames a frame a' Hmore Hview _ Hf|frames a i w ring failures cf ex w' Hw Hring Hshow Hturn|
    frames a i w Hw].
  - by eapply acquire_frame_ok.
  - destruct Hinv as [H1 H2 H3 H4 H5 H6]. split; try done; cbn [with_worker ac_workers ac_submitted_blocks]; [by rewrite length_insert|].
    intros j v [(<- & <- & Hlt)|(Hne & Hv)]%list_lookup_insert_Some; [|by apply H6].
    eapply worker_turn_ok; [lia|by apply H6|done..].
  - destruct Hinv as [H1 H2 H3 H4 H5 H6]. split; try done; cbn [with_worker ac_workers ac_submitted_blocks]; [by rewrite length_insert|].
    intros j v [(<- & <- & Hlt)|(Hne & Hv)]%list_lookup_insert_Some; [|by apply H6].
    by apply worker_stop_ok, H6.
Qed.

Lemma acquire_run_ok frames a frames' a' :
  acquire_inv frames a -> acquire_run o publisher g base ring_bytes frames a frames' a' -> acquire_inv frames' a'.
Proof. intros Hinv Hrun. revert Hinv. induction Hrun; eauto using acquire_step_ok. Qed.

Lemma start_workers_val failures indices ws :
  start_workers o g ring_bytes failures indices = Val ws ->
  Forall2 (fun i w => worker_start o g (Z.of_nat i) (local_frame_counts o !!! i) ring_bytes (failures i) = Val w) indices ws.
Proof.
  revert ws. induction indices as [|i indices IH]; intros ws; cbn [start_workers]; [by intros [= <-]|].
  intros (w & Hw & Hr)%bind_val_inv. apply bind_val_inv in Hr as (ws' & Hws & [= <-]). constructor; [done|by apply IH].
Qed.

Lemma worker_start_ok (i : nat) failure w :
  (i < Z.to_nat (co_writers o))%nat ->
  worker_start o g (Z.of_nat i) (local_frame_counts o !!! i) ring_bytes failure = Val w ->
  worker_inv [] 0 (Z.of_nat i) w.
Proof.
  intros Hi. unfold worker_start. cbv zeta. intros [_ Hs]%guard_val_inv.
  rewrite <-(Nat2Z.id i) in Hs at 3. fold (shard_config (Z.of_nat i)) in Hs.
  destruct (child_start (shard_config (Z.of_nat i)) ring_bytes failure) as [child|e|] eqn:Hc; [|by destruct (require_response _ _)|done].
  injection Hs as <-. intros _. exists 0. unfold child_start in Hc. apply guard_val_inv in Hc as [_ Hc].
  apply guard_val_inv in Hc as [_ Hc]. rewrite shard_config_geometry in Hc. apply bind_val_inv in Hc as (d & Hd & [= <-]).
  unfold shard_create in Hd. destruct failure; [done|]. apply guard_val_inv in Hd as [_ Hd].
  apply bind_val_inv in Hd as (t & _ & [= <-]).
  split; cbn; try done.
  - unfold shard_of. by rewrite h5_create_dims.
  - rewrite below_0 by (apply Hsetup || lia). done.
Qed.

Lemma acquisition_start_ok failures ws :
  parallel_start o g ring_bytes failures = Val ws -> acquire_inv [] (acquisition_start ws).
Proof.
  intros Hws%start_workers_val. pose proof (oo_block o (su_options Hsetup)). pose proof (oo_frames o (su_options Hsetup)).
  split; cbn; try done; try lia.
  - by rewrite <-(list.Forall2_length _ _ _ Hws), length_seq.
  - intros i w Hw. destruct (Forall2_lookup_r _ _ _ _ _ Hws Hw) as (j & Hj & Hs).
    apply lookup_seq in Hj as [-> Hlt]. by eapply worker_start_ok.
Qed.

(** The master reads a frame where it was put. *)
Lemma master_reads_home f :
  0 <= f < co_frames o ->
  h5_virtual (master_mappings o) f =
  Some (filename (shard_path o (fst (frame_home o f))), snd (frame_home o f)).
Proof.
  intros Hf. pose proof (su_options Hsetup) as Hok. destruct (blocks_fit o Hok) as [Hbc Hbf].
  pose proof (oo_block o Hok) as HB. pose proof (oo_frames o Hok) as Hfr.
  destruct (frame_block o f Hok Hf) as (Hb & Hm & He). set (b := f / B) in *.
  assert (forall c (i : nat), master_mappings o !! i = Some c ->
    c = block_mapping o (local_frame_counts o) (Z.of_nat i) /\ Z.of_nat i < block_count o) as Hat.
  { intros c i Hc. unfold master_mappings in Hc. rewrite !list_lookup_fmap in Hc.
    destruct (seq 0 _ !! i) as [n|] eqn:Hn; [|done]. apply lookup_seq in Hn as [-> Hlt]. simpl in Hc.
    injection Hc as <-. split; [done|lia]. }
  assert (forall c, 0 <= c < block_count o -> u64 (c * B) = c * B) as Hstart.
  { intros c Hc. apply wrap_small. unfold in_range. nia. }
  destruct (home_in_shard o f Hok Hf) as (Hw & n & Hn & Hrow).
  destruct (block_rows b Hb) as [Hl0 Hlb].
  unfold frame_home in *. fold b in Hw, Hn, Hrow |- *. cbn [fst snd] in *.
  rewrite (h5_virtual_at (master_mappings o) (Z.to_nat b) (block_mapping o (local_frame_counts o) b)).
  - unfold block_mapping. cbn [vm_source vm_local_start vm_virtual_start]. rewrite (Hstart b Hb).
    rewrite wrap_small by (unfold in_range; nia). do 2 f_equal. lia.
  - unfold master_mappings. rewrite !list_lookup_fmap, lookup_seq_lt by lia.
    cbn -[block_mapping]. by rewrite Z2Nat.id by lia.
  - intros j m' Hj Hne. destruct (Hat _ _ Hj) as [-> Hlt]. unfold block_mapping. cbn [vm_virtual_start vm_count].
    rewrite (Hstart b Hb), (Hstart (Z.of_nat j)) by lia. apply rows_apart; lia.
  - unfold block_mapping. cbn [vm_virtual_start vm_count]. rewrite (Hstart b Hb). lia.
  - unfold block_mapping. cbn [vm_local_start vm_count vm_source_frames]. rewrite wrap_small by (unfold in_range; nia). lia.
Qed.
End Invariant.
End Workers.

Lemma validated_type_known p : Geometry_validate p = Ok -> forall z, geo_element_type p <> ElementType_other z.
Proof.
  unfold Geometry_validate, GeometryBlock_validate. destruct (_ =? 0); [done|].
  case_bool_decide as Hes; [by intros He; rewrite He in Hes|]. intros _ z Hz.
  apply validate_element_size_ok in Hes as [Hr Hs]. simpl in *. rewrite Hz in Hs. specialize (Hs ltac:(done)). simpl in Hs. lia.
Qed.

(** The facts of the set-up that the invariant needs. *)
Lemma client_setup argv o size ring_bytes publisher plan g :
  parse_options argv = Val o -> shared_ring_bytes size = Val ring_bytes ->
  geometry_typed (from_geometry publisher) -> Geometry_validate publisher = Ok ->
  establish o publisher plan = Val g -> in_range 32 (rp_credit_window plan) ->
  setup_ok o g ring_bytes.
Proof.
  intros Ho%parse_options_ok Hc (_ & _ & Hes & Hrk & _ & _ & _ & Hsh & _) Hv He Hw. simpl in *. unfold in_range in *.
  pose proof (validated_type_known _ Hv) as Hty. destruct (Geometry_validate_ok _ Hv) as (Hm & _).
  destruct (establish_ok o publisher plan g) as (Hg & Hd & Het & Hs & Hb & _); [done|lia|lia|lia|done|done|].
  split; [done|done|done| | |lia].
  - rewrite Het. by destruct (geo_element_type publisher); [..|edestruct Hty].
  - unfold shared_ring_bytes in Hc. apply guard_val_inv in Hc as [Hsz [= <-]]. bool_to_prop. lia.
Qed.

(** C22: what was acquired is what the master shows.  For every command line that is
    accepted and every stream whose geometry is: if the frames asked for were received and
    every worker ended without an error, then reading any element of any frame of the
    master -- through the mappings to the shards -- gives the value of that element in the
    payload of that frame, in the order the frames were received; whatever the ring holds
    at other times, in whatever order workers run, however frames lie in the ring, and
    whatever blocks each worker wrote. *)
Theorem acquisition_faithful {D V} `{Hdf5Laws D V} argv o size ring_bytes publisher plan g base failures ws frames a
  (Hparse : parse_options argv = Val o) (Hring : shared_ring_bytes size = Val ring_bytes)
  (Htyped : geometry_typed (from_geometry publisher)) (Hvalid : Geometry_validate publisher = Ok)
  (Hest : establish o publisher plan = Val g) (Hplan : in_range 32 (rp_credit_window plan))
  (Hstart : parallel_start (D := D) o g ring_bytes failures = Val ws)
  (Hrun : acquire_run o publisher g base ring_bytes [] (acquisition_start ws) frames a)
  (Hall : ac_received a = co_frames o)
  (Hend : Forall (fun w => sw_done w = true /\ sw_error w = None) (ac_workers a)) :
  forall f k, 0 <= f < co_frames o -> 0 <= k < elements g ->
  exists frame w v, frames !! Z.to_nat f = Some frame /\
    ac_workers a !! Z.to_nat (fst (frame_home o f)) = Some w /\
    h5_virtual (D := D) (master_mappings o) f =
      Some (filename (shard_path o (fst (frame_home o f))), snd (frame_home o f)) /\
    h5_get (wk_dataset (sw_child w)) (snd (frame_home o f) * elements g + k) = Some v /\
    shown g frame k = Some v.
Proof.
  pose proof (client_setup argv o size ring_bytes publisher plan g Hparse Hring Htyped Hvalid Hest Hplan) as Hsetup.
  assert (acquire_inv o g ring_bytes frames a) as [[Hrec _] _ (Hsplit & Hs0 & Hlt) _ Hwk Heach].
  { eapply acquire_run_ok; [done| |done]. by eapply acquisition_start_ok. }
  intros f k Hf Hk. pose proof (su_options _ _ _ Hsetup) as Hok. destruct (blocks_fit o Hok) as [Hbc Hbf].
  assert (ac_submitted_blocks a = block_count o) as Hsub by (destruct (split_unique (co_frames_per_block o)
    (ac_submitted_blocks a) (Z.of_nat (length (ac_block a))) (block_count o) 0); [lia|pose proof (oo_block o Hok); lia|lia|done]).
  destruct (lookup_lt_is_Some_2 frames (Z.to_nat f)) as [frame Hframe]; [lia|].
  destruct (home_in_shard o f Hok Hf) as (Hw & _).
  destruct (lookup_lt_is_Some_2 (ac_workers a) (Z.to_nat (fst (frame_home o f)))) as [w Hwat]; [lia|].
  destruct (Forall_lookup_1 _ _ _ _ Hend Hwat) as [Hdone Herr].
  destruct (Heach _ _ Hwat Herr) as [n Hwo]. rewrite Z2Nat.id in Hwo by lia.
  destruct (wo_done _ _ _ _ _ _ _ _ Hwo Hdone) as [_ Hq]. destruct (wo_count _ _ _ _ _ _ _ _ Hwo) as [_ Hn].
  rewrite Hq, Hsub in Hn. cbn [length] in Hn.
  destruct (frame_block o f Hok Hf) as (Hb & Hm & He). pose proof (below_lt o Hok _ (block_count o) Hb ltac:(lia)) as Hlow.
  assert (h5_get (wk_dataset (sw_child w)) (snd (frame_home o f) * elements g + k) = shown g frame k) as Hget.
  { apply (wo_held _ _ _ _ _ _ _ _ Hwo (f / co_frames_per_block o)); try done.
    - unfold frame_home in Hn. cbn [fst] in Hn. lia.
    - by rewrite <-He. }
  assert (is_Some (shown g frame k)) as [v Hv].
  { unfold shown. by destruct (go_type g (su_geometry _ _ _ Hsetup) (ff_endian (rf_fields frame))) as [t ->]. }
  exists frame, w, v. split; [done|]. split; [done|]. split; [by eapply master_reads_home|]. split; [by rewrite Hget|done].
Qed.

(** Two frames of 2 by 3 elements, a writer each. *)
Definition small_argv : list bytes :=
  [str "d"; str "run.h5"; str "--frames"; str "2"; str "--frames-per-block"; str "1"; str "--writers"; str "2"].
Definition small_options : ClientOptions :=
  match parse_options small_argv with Val o => o | _ => ClientOptions_default [] [] end.
Definition small_publisher : Geometry := mkGeometry 1 ET_UInt16 2 2 4096 4 2 [2; 3; 0; 0] [6; 2; 0; 0].
Definition small_geometry : Hdf5Geometry := mkHdf5Geometry ET_UInt16 2 [2; 3] 12 4096.
Definition small_plan : ReceivePlan := mkReceivePlan 4096 32 16 (4096 * 32).
Definition small_frame (address first : Z) : ReceivedFrame :=
  mkReceivedFrame (mkFrameFields [2; 3; 0; 0] [6; 2; 0; 0] 0 0 0 0 12 ET_UInt16 2 2 0 1 Host Little) address
    (byte_of_Z <$> seqZ first 12).
Definition small_ring : bytes :=
  (byte_of_Z <$> seqZ 50 12) ++ replicate 4084 x00 ++ (byte_of_Z <$> seqZ 70 12) ++ replicate 4084 x00.
Definition frame_b : ReceivedFrame := small_frame 100000 50.
Definition frame_a : ReceivedFrame := small_frame 104096 70.

Abbreviation small_acquisition := (Acquisition (D := H5File)).
Definition val_or {E A} (x : A) (m : outcome E A) : A := match m with Val y => y | _ => x end.
Definition small_start : small_acquisition :=
  acquisition_start (val_or [] (parallel_start small_options small_geometry 8192 (fun _ => None))).
Definition received (a : small_acquisition) (frame : ReceivedFrame) : small_acquisition :=
  val_or a (acquire_frame small_options small_publisher small_geometry a frame).
Definition turned (a : small_acquisition) (i : nat) : small_acquisition :=
  match ac_workers a !! i with
  | Some w => with_worker a i (val_or w (worker_turn w small_geometry 100000 8192 small_ring (fun _ => None) None true))
  | None => a
  end.
Definition stopped (a : small_acquisition) (i : nat) : small_acquisition :=
  match ac_workers a !! i with Some w => with_worker a i (worker_stop w) | None => a end.
Definition small_end : small_acquisition :=
  turned (turned (stopped (stopped (turned (turned (received (received small_start frame_a) frame_b) 1) 0) 1) 0) 1) 0.

(** The steps of the sample, each behind a check that evaluates. *)
Definition is_val {E A} (m : outcome E A) : bool := match m with Val _ => true | _ => false end.
#[export] Instance shows_dec base ring frame : Decision (shows base ring frame).
Proof. unfold shows. apply _. Defined.
#[export] Instance view_ok_dec frame : Decision (view_ok frame).
Proof. unfold view_ok. apply _. Defined.
Definition turn_check (a : small_acquisition) (i : nat) : bool :=
  match ac_workers a !! i with
  | Some w => forallb (fun b => forallb (fun f => bool_decide (shows 100000 small_ring f)) (bk_frames b)) (sw_queue w) &&
      is_val (worker_turn w small_geometry 100000 8192 small_ring (fun _ => None) None true)
  | None => false
  end.
#[local] Abbreviation small_step := (acquire_step small_options small_publisher small_geometry 100000 8192).

Lemma turned_step frames a i : turn_check a i = true -> small_step frames a frames (turned a i).
Proof.
  unfold turn_check, turned. destruct (ac_workers a !! i) as [w|] eqn:Hw; [|done]. intros [Hs Hv]%andb_true_iff.
  destruct (worker_turn w _ _ _ _ _ _ _) as [w'| |] eqn:Ht; [|done..].
  apply (as_turn _ _ _ _ _ frames a i w small_ring (fun _ => None) None true w'); [done|by vm_compute| |exact Ht].
  intros block Hb. apply list.Forall_forall. intros f Hf. rewrite forallb_forall in Hs.
  destruct (sw_queue w) as [|b queue]; [done|]. injection Hb as ->. specialize (Hs block (or_introl eq_refl)).
  rewrite forallb_forall in Hs. by eapply bool_decide_eq_true, Hs, list_elem_of_In.
Qed.
Lemma received_step frames a frame :
  (ac_received a <? 2) && bool_decide (view_ok frame) && is_val (acquire_frame small_options small_publisher small_geometry a frame) &&
    forallb (submit_ready small_options) (ac_workers a) = true ->
  small_step frames a (frames ++ [frame]) (received a frame).
Proof.
  rewrite !andb_true_iff. intros [[[H1 H2] H3] H4]. unfold received.
  destruct (acquire_frame _ _ _ a frame) as [a'| |] eqn:He; [|done..]. bool_to_prop.
  apply as_receive; [exact H1|exact H2| |exact He]. intros _ w Hw. rewrite forallb_forall in H4.
  apply H4. by eapply list_elem_of_In, list_elem_of_lookup_2.
Qed.
Lemma stopped_worker_step frames a i : (i <? length (ac_workers a))%nat = true -> small_step frames a frames (stopped a i).
Proof.
  unfold stopped. intros Hi. destruct (ac_workers a !! i) as [w|] eqn:Hw; [by apply as_stop|].
  apply lookup_ge_None in Hw. apply Nat.ltb_lt in Hi. lia.
Qed.

Lemma small_run : acquire_run small_options small_publisher small_geometry 100000 8192 [] small_start [frame_a; frame_b] small_end.
Proof.
  change [frame_a; frame_b] with (([] ++ [frame_a]) ++ [frame_b]). unfold small_end.
  eapply ar_step; [apply (received_step [] small_start frame_a); by vm_compute|].
  eapply ar_step; [apply (received_step ([] ++ [frame_a]) (received small_start frame_a) frame_b); by vm_compute|].
  eapply ar_step; [apply (turned_step _ _ 1); by vm_compute|].
  eapply ar_step; [apply (turned_step _ _ 0); by vm_compute|].
  eapply ar_step; [apply (stopped_worker_step _ _ 1); by vm_compute|].
  eapply ar_step; [apply (stopped_worker_step _ _ 0); by vm_compute|].
  eapply ar_step; [apply (turned_step _ _ 1); by vm_compute|].
  eapply ar_step; [apply (turned_step _ _ 0); by vm_compute|].
  apply ar_refl.
Qed.

Lemma small_typed : geometry_typed (from_geometry small_publisher).
Proof.
  unfold geometry_typed, enum_ok, in_range. simpl. split_and!; try lia; try done; solve_array_ok.
Qed.
Lemma small_ended : Forall (fun w => sw_done w = true /\ sw_error w = None) (ac_workers small_end).
Proof.
  apply (bool_decide_unpack _). vm_compute. exact I.
Qed.

Lemma acquisition_faithful_witness :
  exists frame w v, [frame_a; frame_b] !! 1%nat = Some frame /\ ac_workers small_end !! 1%nat = Some w /\
    h5_virtual (D := H5File) (master_mappings small_options) 1 = Some (str "run.part_001.h5", 0) /\
    h5_get (wk_dataset (sw_child w)) 5 = Some v /\ shown small_geometry frame 5 = Some v.
Proof.
  refine (acquisition_faithful (D := H5File) small_argv small_options 8192 8192 small_publisher small_plan small_geometry 100000
    (fun _ => None) (ac_workers small_start) [frame_a; frame_b] small_end _ _ _ _ _ _ _ small_run _ _ 1 5 _ _).
  - vm_compute. reflexivity.
  - vm_compute. reflexivity.
  - exact small_typed.
  - vm_compute. reflexivity.
  - vm_compute. reflexivity.
  - vm_compute. split; [discriminate|reflexivity].
  - vm_compute. reflexivity.
  - vm_compute. reflexivity.
  - exact small_ended.
  - vm_compute. split; [discriminate|reflexivity].
  - vm_compute. split; [discriminate|reflexivity].
Defined.
