(* ===== verification/Hdf5Source.v ===== *)
(** * The HDF5 replay device: its configuration and its reader

    [examples/example_hdf5_device/example_hdf5_device.cpp] up to its threads: options and
    properties, NeXus paths, [ReplayReader] and the publisher's configuration.  Files, the
    property database and floating-point rates are arguments. *)
From stdpp Require Import list.
From S2P Require Import Prelude Enums Limits ByteOrder Geometry Text Config PinnedLedger RegisteredRing Hdf5Shards Hdf5Writer.
From Stdlib Require Import Strings.Byte.

(** ** Options *)

Section Options.
(** [double]: its reading from a text, and whether it is finite and not negative. *)
Context {Rate : Type} (stod : bytes -> hres Rate) (rate_valid : Rate -> bool).

Record ReplayOptions : Type := mkReplayOptions {
  ro_file : bytes;
  ro_dataset : bytes;
  ro_prefetch_frames : Z;
  ro_fanout_mode : FanoutMode;
  ro_frame_rate : option Rate;
  ro_file_from_command_line : bool;
  ro_dataset_from_command_line : bool;
  ro_prefetch_from_command_line : bool;
  ro_fanout_from_command_line : bool
}.
Definition ReplayOptions_default : ReplayOptions := mkReplayOptions [] [] 8 BestEffort None false false false false.

Definition checked_multiply (left_ right_ : Z) (description : bytes) : hres Z :=
  guard! negb (negb (right_ =? 0) && ((2 ^ 64 - 1) / right_ <? left_)) else description ++ str " is too large" in
  Val (u64 (left_ * right_)).

Definition parse_fanout_mode (value origin : bytes) : hres FanoutMode :=
  if bool_decide (value = str "best-effort") || bool_decide (value = str "BestEffort") then Val BestEffort
  else if bool_decide (value = str "all-active") || bool_decide (value = str "AllActive") then Val AllActive
  else Err (origin ++ str " must be 'best-effort' or 'all-active'").

(** [std::stoul]: what follows the digits is ignored. *)
Definition stoul (text : bytes) : hres Z :=
  match scan_unsigned text with
  | None => Err (str "stoul")
  | Some (negative, v, _) => if 2 ^ 64 <=? v then Err (str "stoul") else Val (if negative then u64 (- v) else v)
  end.

Definition starts_with (prefix text : bytes) : bool := bool_decide (take (length prefix) text = prefix).

(** An argument that is the option [name], with the value after its [=] or in the next
    argument: the value and the arguments left. *)
Definition is_option (name argument : bytes) : bool := bool_decide (argument = name) || starts_with (name ++ str "=") argument.
Definition option_value (name argument : bytes) (rest : list bytes) : hres (bytes * list bytes) :=
  if starts_with (name ++ str "=") argument then Val (drop (S (length name)) argument, rest)
  else match rest with
  | value :: rest => Val (value, rest)
  | [] => Err (name ++ str " requires a value")
  end.

Definition prefetch_valid (n : Z) : bool := negb ((n =? 0) || (k_max_ring_depth / 2 <? n)).

(** What one option does. *)
Definition set_option (o : ReplayOptions) (name value : bytes) : hres ReplayOptions :=
  let '(mkReplayOptions f d p m r ff df pf mf) := o in
  if bool_decide (name = str "--hdf5-file") then Val (mkReplayOptions value d p m r true df pf mf)
  else if bool_decide (name = str "--hdf5-dataset") then Val (mkReplayOptions f value p m r ff true pf mf)
  else if bool_decide (name = str "--prefetch-frames") then
    let! parsed := stoul value in
    guard! prefetch_valid parsed else str "--prefetch-frames must be in the range 1.." ++ to_string (k_max_ring_depth / 2) in
    Val (mkReplayOptions f d (u32 parsed) m r ff df true mf)
  else if bool_decide (name = str "--fanout-mode") then
    let! mode := parse_fanout_mode value (str "--fanout-mode") in
    Val (mkReplayOptions f d p mode r ff df pf true)
  else
    let! rate := stod value in
    guard! rate_valid rate else str "--frame-rate must be finite and >= 0" in
    Val (mkReplayOptions f d p m (Some rate) ff df pf mf).

Definition option_names : list bytes :=
  [str "--hdf5-file"; str "--hdf5-dataset"; str "--prefetch-frames"; str "--fanout-mode"; str "--frame-rate"].

(** [parse_options]: the arguments left for Tango and the options; [None] is the exit of
    [--hdf5-help].  [fuel] is the number of arguments. *)
Fixpoint replay_arguments (fuel : nat) (arguments tango : list bytes) (o : ReplayOptions)
    : hres (option (list bytes * ReplayOptions)) :=
  match fuel, arguments with
  | S fuel, argument :: rest =>
      if bool_decide (argument = str "--hdf5-help") then Val None else
      match List.find (fun name => is_option name argument) option_names with
      | Some name =>
          let! (value, rest) := option_value name argument rest in
          let! o := set_option o name value in
          replay_arguments fuel rest tango o
      | None => replay_arguments fuel rest (tango ++ [argument]) o
      end
  | _, _ => Val (Some (tango, o))
  end.
Definition replay_options (arguments : list bytes) : hres (option (list bytes * ReplayOptions)) :=
  replay_arguments (length arguments) arguments [] ReplayOptions_default.

(** The device properties: [None] is empty, [Some None] one of another type. *)
Record ReplayProperties : Type := mkReplayProperties {
  pp_file : option bytes;
  pp_dataset : option bytes;
  pp_prefetch : option (option Z);
  pp_fanout : option (option bytes);
  pp_rate : option (option Rate)
}.

(** [read_configuration]: the command line wins over the properties. *)
Definition read_configuration (o : ReplayOptions) (properties : option ReplayProperties) : hres ReplayOptions :=
  let! o := match properties with
    | None => Val o
    | Some p =>
        let '(mkReplayOptions f d n m r ff df pf mf) := o in
        let f := if ff then f else default f (pp_file p) in
        let d := if df then d else default d (pp_dataset p) in
        let! n := match pp_prefetch p with
          | Some v =>
              if pf then Val n else
              match v with
              | None => Err (str "device property PrefetchFrames is not an unsigned integer")
              | Some value =>
                  guard! prefetch_valid value
                    else str "device property PrefetchFrames must be in the range 1.." ++ to_string (k_max_ring_depth / 2) in
                  Val (u32 value)
              end
          | None => Val n
          end in
        let! m := match pp_fanout p with
          | Some v =>
              if mf then Val m else
              match v with
              | None => Err (str "device property FanoutMode is not a string")
              | Some value => parse_fanout_mode value (str "device property FanoutMode")
              end
          | None => Val m
          end in
        let! r := match r, pp_rate p with
          | None, Some v =>
              match v with None => Err (str "device property FrameRate is not numeric") | Some rate => Val (Some rate) end
          | _, _ => Val r
          end in
        Val (mkReplayOptions f d n m r ff df pf mf)
    end in
  guard! negb (bool_decide (ro_file o = []))
    else str "Hdf5File device property is required (or use --hdf5-file in -nodb mode)" in
  guard! prefetch_valid (ro_prefetch_frames o) else str "PrefetchFrames must produce a valid publisher ring depth" in
  guard! match ro_frame_rate o with Some rate => rate_valid rate | None => true end
    else str "device property FrameRate must be finite and >= 0" in
  Val o.
End Options.
Arguments ReplayOptions : clear implicits.
Arguments ReplayProperties : clear implicits.

(** ** Paths *)

Definition absolute_path (base child : bytes) : hres bytes :=
  match child with
  | [] => Err (str "an HDF5 default/signal attribute is empty")
  | c :: _ => if bool_decide (c = "/"%byte) then Val child
              else Val (if bool_decide (base = str "/") then str "/" ++ child else base ++ str "/" ++ child)
  end.

(** Without a slash [find_last_of] is [npos] and [substr] is the whole path. *)
Definition parent_path (path : bytes) : bytes :=
  match split_last "/"%byte path with
  | Some ([], _) => str "/"
  | Some (parent, _) => parent
  | None => path
  end.

(** [discover_nexus_dataset]; [attribute] is the text of an attribute of a group. *)
Definition discover_nexus_dataset (attribute : bytes -> bytes -> hres bytes) : hres bytes :=
  let! entry := attribute (str "/") (str "default") in
  let! entry_path := absolute_path (str "/") entry in
  let! plot := attribute entry_path (str "default") in
  let! plot_path := absolute_path entry_path plot in
  let! signal := attribute plot_path (str "signal") in
  absolute_path plot_path signal.

(** The loop of [suggested_rate] after [fuel] turns: [None] is still running.  [timing] is
    the rate a group's acquisition gives. *)
Fixpoint rate_loop {Rate} (fuel : nat) (timing : bytes -> option Rate) (fallback : Rate) (group : bytes) : option Rate :=
  match fuel with
  | O => None
  | S fuel =>
      if bool_decide (group = str "/") then Some fallback else
      match timing group with
      | Some rate => Some rate
      | None => rate_loop fuel timing fallback (parent_path group)
      end
  end.
Definition suggested_rate {Rate} (fuel : nat) (timing : bytes -> option Rate) (fallback : Rate) (dataset_path : bytes)
    : option Rate := rate_loop fuel timing fallback (parent_path dataset_path).

(** ** The reader *)

Inductive H5Class : Type := H5Integer | H5Float | H5OtherClass.
Inductive H5Order : Type := OrderLE | OrderBE | OrderOther.
#[export] Instance H5Order_eq_dec : EqDecision H5Order.
Proof. solve_decision. Defined.

(** What HDF5 tells of a datatype. *)
Record H5TypeInfo : Type := mkH5TypeInfo {
  ti_class : H5Class;
  ti_size : Z;
  ti_unsigned : bool;
  ti_order : H5Order
}.

Record DataDescription : Type := mkDataDescription {
  dd_element_type : ElementType;
  dd_endian : Endian;
  dd_element_bytes : Z
}.

Definition element_type_of (t : H5TypeInfo) : ElementType :=
  let n := ti_size t in
  match ti_class t with
  | H5Integer =>
      if n =? 1 then if ti_unsigned t then ET_UInt8 else ET_Int8
      else if n =? 2 then if ti_unsigned t then ET_UInt16 else ET_Int16
      else if n =? 4 then if ti_unsigned t then ET_UInt32 else ET_Int32
      else if n =? 8 then if ti_unsigned t then ET_UInt64 else ET_Int64
      else ET_Unknown
  | H5Float => if n =? 4 then ET_Float32 else if n =? 8 then ET_Float64 else ET_Unknown
  | H5OtherClass => ET_Unknown
  end.

Definition describe_type (t : H5TypeInfo) : hres DataDescription :=
  guard! negb (bool_decide (element_type_of t = ET_Unknown))
    else str "the image dataset must contain 8/16/32/64-bit integers or 32/64-bit floats" in
  guard! negb ((1 <? ti_size t) && negb (bool_decide (ti_order t = OrderLE)) && negb (bool_decide (ti_order t = OrderBE)))
    else str "the image dataset uses an unsupported byte order" in
  Val (mkDataDescription (element_type_of t) (if bool_decide (ti_order t = OrderBE) then Big else Little) (ti_size t)).

Record ReplayReader : Type := mkReplayReader {
  rd_description : DataDescription;
  rd_dimensions : list Z;
  rd_frame_shape : list Z;
  rd_frame_count : Z;
  rd_frame_bytes : Z
}.

Fixpoint shape_elements (shape : list Z) (elements_ : Z) : hres Z :=
  match shape with
  | [] => Val elements_
  | dimension :: shape =>
      guard! negb (dimension =? 0) else str "the image dataset has a zero-sized image axis" in
      let! elements_ := checked_multiply elements_ dimension (str "frame element count") in
      shape_elements shape elements_
  end.

(** The constructor, on the type and the dimensions of the dataset it opened. *)
Definition reader_open (t : H5TypeInfo) (dimensions : list Z) : hres ReplayReader :=
  let! description := describe_type t in
  let rank := Z.of_nat (length dimensions) in
  guard! negb ((rank <? 2) || (k_max_rank + 1 <? rank))
    else str "the image dataset rank must be 2..5 ([frame, ...image axes])" in
  let frame_count := if rank =? 2 then 1 else hd 0 dimensions in
  guard! negb (frame_count =? 0) else str "the image dataset contains no frames" in
  let frame_shape := if rank =? 2 then dimensions else tail dimensions in
  let! count := shape_elements frame_shape 1 in
  let! frame_bytes := checked_multiply count (dd_element_bytes description) (str "frame size") in
  guard! negb (k_max_frame_bytes_hard_cap <? frame_bytes) else str "a frame exceeds tango-bulk's 256 MiB hard limit" in
  Val (mkReplayReader description dimensions frame_shape frame_count frame_bytes).

(** [read_frame]: the elements of the file it reads, in order. *)
Definition frame_selection (r : ReplayReader) (index : Z) : Space :=
  let zeros := replicate (length (rd_dimensions r)) 0 in
  if (2 <? length (rd_dimensions r))%nat
  then SpaceSlab (rd_dimensions r) (<[0%nat := index]> zeros) None (<[0%nat := 1]> (rd_dimensions r)) None
  else SpaceSlab (rd_dimensions r) zeros None (rd_dimensions r) None.
Definition read_frame {D V} `{Hdf5 D V} (r : ReplayReader) (index : Z) : hres (list Z) :=
  guard! negb (rd_frame_count r <=? index) else str "HDF5 frame index is out of range" in
  Val (h5_selected (frame_selection r index)).

(** ** The publisher's configuration *)

Definition reader_shape (r : ReplayReader) : array4 :=
  rd_frame_shape r ++ replicate (4 - length (rd_frame_shape r)) 0.

(** The metadata of the stream, and that of a frame. *)
Definition reader_metadata (r : ReplayReader) : FrameMetadata :=
  mkFrameMetadata (dd_element_type (rd_description r)) (u32 (dd_element_bytes (rd_description r)))
    (u32 (Z.of_nat (length (rd_frame_shape r)))) (reader_shape r) array4_zero 0 0 0 0 Host (dd_endian (rd_description r)).
Definition replay_metadata (r : ReplayReader) (event : Z) : FrameMetadata :=
  mkFrameMetadata (dd_element_type (rd_description r)) (u32 (dd_element_bytes (rd_description r)))
    (u32 (Z.of_nat (length (rd_frame_shape r)))) (reader_shape r) array4_zero (rd_frame_bytes r) 0 event 0 Host
    (dd_endian (rd_description r)).

(** [init_device]: the configuration; the members it does not set have their defaults. *)
Definition replay_publisher_config {Rate} (o : ReplayOptions Rate) (r : ReplayReader) : hres PublisherConfig :=
  let max_frame_bytes := Z.max k_min_frame_bytes (rd_frame_bytes r) in
  let ring_depth := u32 (ro_prefetch_frames o * 2) in
  let! budget := checked_multiply max_frame_bytes (u32 (ring_depth + 1)) (str "publisher memory budget") in
  Val (mkPublisherConfig (str "image") (reader_metadata r) max_frame_bytes ring_depth (ro_prefetch_frames o) 4
         (ro_fanout_mode o) 256 10000 3333 10 (Z.max (2 ^ 30) budget) [] (-1) true).

(** ** The reader's promises *)

Lemma checked_multiply_ok a b what v :
  0 <= a -> 0 <= b -> checked_multiply a b what = Val v -> v = a * b /\ v < 2 ^ 64.
Proof.
  intros Ha Hb. unfold checked_multiply. destruct (Z.eqb_spec b 0) as [->|Hb0]; simpl.
  { rewrite Z.mul_0_r. intros [= <-]. done. }
  destruct (Z.ltb_spec ((2 ^ 64 - 1) / b) a) as [|Hle]; [done|]. simpl. intros [= <-].
  pose proof (Z.mul_div_le (2 ^ 64 - 1) b ltac:(lia)).
  rewrite wrap_small by (unfold in_range; nia). nia.
Qed.

Lemma shape_elements_ok shape acc n :
  Forall (in_range 64) shape -> 0 < acc < 2 ^ 64 -> shape_elements shape acc = Val n ->
  Forall (Z.lt 0) shape /\ n = acc * product shape /\ 0 < n < 2 ^ 64.
Proof.
  intros Hf. revert acc. induction Hf as [|d shape Hd Hf IH]; intros acc Hacc; cbn [shape_elements].
  { intros [= <-]. unfold product. simpl. split; [constructor|lia]. }
  unfold in_range in Hd. destruct (Z.eqb_spec d 0) as [|Hne]; [done|]. cbn [negb].
  destruct (checked_multiply _ _ _) as [v| |] eqn:Hm; [|done..]. cbn [outcome_bind].
  apply checked_multiply_ok in Hm as [-> ?]; [|lia..]. intros Hn.
  apply IH in Hn as (Hpos & -> & ?); [|nia].
  split; [constructor; [lia|done]|]. unfold product in *. simpl. split; [|done]. ring.
Qed.

(** What a reader that was opened has. *)
Record reader_wf (r : ReplayReader) : Prop := {
  wf_rank : (2 <= length (rd_frame_shape r) <= 4)%nat;
  wf_positive : Forall (Z.lt 0) (rd_frame_shape r);
  wf_range : Forall (in_range 64) (rd_frame_shape r);
  wf_count : 0 < rd_frame_count r;
  wf_type : element_size_of (dd_element_type (rd_description r)) = dd_element_bytes (rd_description r);
  wf_element : 1 <= dd_element_bytes (rd_description r) <= 8;
  wf_known : dd_element_type (rd_description r) <> ET_Unknown;
  wf_bytes : rd_frame_bytes r = product (rd_frame_shape r) * dd_element_bytes (rd_description r);
  wf_cap : 0 < rd_frame_bytes r <= k_max_frame_bytes_hard_cap;
  wf_dimensions : rd_dimensions r = rd_frame_count r :: rd_frame_shape r \/
    (rd_dimensions r = rd_frame_shape r /\ length (rd_frame_shape r) = 2%nat /\ rd_frame_count r = 1)
}.

Lemma describe_type_ok t d :
  describe_type t = Val d ->
  dd_element_type d <> ET_Unknown /\ element_size_of (dd_element_type d) = dd_element_bytes d /\
  1 <= dd_element_bytes d <= 8.
Proof.
  unfold describe_type. case_bool_decide as Hk; [done|]. cbn [negb].
  destruct (_ && _ && _); [done|]. cbn [negb]. intros [= <-]. cbn [dd_element_type dd_element_bytes].
  split; [done|]. unfold element_type_of in *.
  destruct (ti_class t); repeat case_match; bool_to_prop; simplify_eq; cbn; lia || done.
Qed.

Lemma reader_open_wf t dims r : Forall (in_range 64) dims -> reader_open t dims = Val r -> reader_wf r.
Proof.
  intros Hf. unfold reader_open. destruct (describe_type t) as [d| |] eqn:Hd; [|done..]. cbn [outcome_bind].
  apply describe_type_ok in Hd as (Hk & Hs & Hb). change k_max_rank with 4.
  destruct (Z.ltb_spec (Z.of_nat (length dims)) 2), (Z.ltb_spec (4 + 1) (Z.of_nat (length dims))); try done.
  cbn [negb orb]. destruct dims as [|n dims]; [simpl in *; lia|].
  pose proof Hf as [Hn Hf']%Forall_cons_1. unfold in_range in Hn.
  destruct (Z.eqb_spec (Z.of_nat (length (n :: dims))) 2) as [Hr|Hr]; cbn [hd tail].
  - set (shape := n :: dims) in *. cbn [negb Z.eqb].
    destruct (shape_elements _ _) as [c| |] eqn:Hc; [|done..]. cbn [outcome_bind].
    apply shape_elements_ok in Hc as (Hpos & -> & ?); [|done|lia]. rewrite Z.mul_1_l in *.
    destruct (checked_multiply _ _ _) as [fb| |] eqn:Hm; [|done..]. cbn [outcome_bind].
    apply checked_multiply_ok in Hm as [-> ?]; [|lia..].
    destruct (Z.ltb_spec k_max_frame_bytes_hard_cap (product shape * dd_element_bytes d)); [done|].
    clearbody shape. intros [= <-].
    split; cbn [rd_description rd_dimensions rd_frame_shape rd_frame_count rd_frame_bytes]; first [done|lia|split; [nia|done]|right]. split_all; try done. lia.
  - destruct (Z.eqb_spec n 0); [done|]. cbn [negb].
    destruct (shape_elements _ _) as [c| |] eqn:Hc; [|done..]. cbn [outcome_bind].
    apply shape_elements_ok in Hc as (Hpos & -> & ?); [|done|lia]. rewrite Z.mul_1_l in *.
    destruct (checked_multiply _ _ _) as [fb| |] eqn:Hm; [|done..]. cbn [outcome_bind].
    apply checked_multiply_ok in Hm as [-> ?]; [|lia..].
    destruct (Z.ltb_spec k_max_frame_bytes_hard_cap (product dims * dd_element_bytes d)); [done|].
    intros [= <-]. cbn [length] in *.
    split; cbn [rd_description rd_dimensions rd_frame_shape rd_frame_count rd_frame_bytes]; first [done|lia|split; [nia|done]|by left].
Qed.

Section Frames.
Context {D V : Type} `{Hl : Hdf5Laws D V}.

(** Frame [index] of a reader: the rows of the dataset it reads, in order. *)
Lemma read_frame_rows r index :
  reader_wf r -> 0 <= index < rd_frame_count r ->
  read_frame (D:=D) (V:=V) r index =
  Val (seqZ (index * product (rd_frame_shape r)) (product (rd_frame_shape r))).
Proof.
  intros Hw Hi. unfold read_frame. destruct (Z.leb_spec (rd_frame_count r) index); [lia|]. cbn [negb].
  f_equal. unfold frame_selection. pose proof (wf_rank _ Hw).
  destruct (wf_dimensions _ Hw) as [->|(-> & Hrank & Hc)].
  - cbn [length]. destruct (Nat.ltb_spec 2 (S (length (rd_frame_shape r)))); [|lia].
    rewrite replicate_S. cbn [insert list_insert].
    rewrite selected_rows by lia. by rewrite Z.mul_1_l.
  - rewrite Hrank. cbn [Nat.ltb Nat.leb]. assert (index = 0) as -> by lia.
    destruct (rd_frame_shape r) as [|a shape] eqn:Hs; [done|]. simpl in Hrank.
    pose proof (wf_positive _ Hw) as Hpos. rewrite Hs in Hpos. apply Forall_cons_1 in Hpos as [? _].
    replace (replicate 2 0) with (0 :: replicate (length shape) 0) by (replace (length shape) with 1%nat by lia; done).
    rewrite selected_rows by lia. unfold product. simpl. f_equal; lia.
Qed.
End Frames.

(** ** The stream the device publishes *)

Lemma extent_contiguous shape strides es :
  length strides = length shape ->
  (forall j, (j < length shape)%nat -> strides !!! j = es * product (drop (S j) shape)) ->
  extent shape strides + es = product shape * es.
Proof.
  revert strides. induction shape as [|n shape IH]; intros [|s strides] Hl Hs; try done.
  { unfold extent, product. simpl. lia. }
  pose proof (Hs 0%nat ltac:(simpl; lia)) as H0. simpl in H0.
  specialize (IH strides ltac:(simpl in *; lia) (fun j Hj => Hs (S j) ltac:(simpl; lia))).
  unfold extent, product in *. simpl in *. rewrite drop_0 in H0. rewrite H0. nia.
Qed.

Section Stream.
Context (r : ReplayReader) (Hwf : reader_wf r).
Local Abbreviation shape := (rd_frame_shape r).
Local Abbreviation es := (dd_element_bytes (rd_description r)).

Lemma reader_shape_ok : array_ok (reader_shape r) /\ take (length shape) (reader_shape r) = shape.
Proof.
  pose proof (wf_rank _ Hwf). unfold reader_shape. split; [split|by rewrite take_app_length].
  - rewrite length_app, length_replicate. lia.
  - apply Forall_app. split; [apply (wf_range _ Hwf)|]. by apply Forall_replicate.
Qed.

(** The strides the library infers for a frame. *)
Definition reader_strides : array4 := fill_contiguous_strides (length shape) (reader_shape r) es.

Lemma reader_strides_at j :
  reader_strides !!! j = if bool_decide (j < length shape)%nat then es * product (drop (S j) shape) else array4_zero !!! j.
Proof.
  destruct reader_shape_ok as [Hok Ht]. pose proof (wf_rank _ Hwf). pose proof (wf_element _ Hwf).
  pose proof (wf_bytes _ Hwf). pose proof (wf_cap _ Hwf) as [? Hcap]. change k_max_frame_bytes_hard_cap with 268435456 in Hcap.
  unfold reader_strides, fill_contiguous_strides.
  rewrite fill_loop_spec; rewrite ?Ht; try done; try lia. apply (wf_positive _ Hwf).
Qed.

Lemma fill_loop_length i sh strides stride : length (fill_loop i sh strides stride) = length strides.
Proof.
  revert strides stride. induction i as [|i IH]; intros; cbn [fill_loop]; [done|].
  destruct (mul_overflow _ _) as [[] c]; rewrite ?IH; apply length_insert.
Qed.

Lemma reader_strides_ok : array_ok reader_strides.
Proof.
  assert (length reader_strides = 4%nat) as Hlen by (unfold reader_strides, fill_contiguous_strides; by rewrite fill_loop_length).
  split; [done|]. apply Forall_lookup. intros j z Hz. apply list_lookup_total_correct in Hz as <-.
  rewrite reader_strides_at. pose proof (wf_positive _ Hwf) as Hpos. pose proof (wf_element _ Hwf).
  pose proof (wf_bytes _ Hwf) as Hb. pose proof (wf_cap _ Hwf) as [? Hcap]. change k_max_frame_bytes_hard_cap with 268435456 in Hcap.
  case_bool_decide; [|destruct j as [|[|[|[|j]]]]; done].
  pose proof (product_pos _ (Forall_drop _ (S j) _ Hpos)). pose proof (product_pos _ (Forall_take _ (S j) _ Hpos)).
  rewrite <-(take_drop (S j) shape), product_app in Hb. unfold in_range. split; [nia|].
  apply Z.le_lt_trans with (rd_frame_bytes r); [|lia]. rewrite Hb. nia.
Qed.

Lemma reader_array_valid :
  validate_shape_and_strides (Z.of_nat (length shape)) (reader_shape r) reader_strides es (rd_frame_bytes r) = Ok.
Proof.
  destruct reader_shape_ok as [Hok Ht]. pose proof (wf_rank _ Hwf). pose proof (wf_element _ Hwf).
  pose proof (wf_cap _ Hwf) as [? Hcap]. change k_max_frame_bytes_hard_cap with 268435456 in Hcap. pose proof reader_strides_ok as Hso.
  apply validate_nonempty_iff; rewrite ?Nat2Z.id, ?Ht; try done; try (unfold in_range; lia); [apply (wf_positive _ Hwf)|].
  split; rewrite ?Nat2Z.id, ?Ht; [lia| |rewrite (wf_bytes _ Hwf); lia|].
  - intros j Hj. rewrite reader_strides_at, bool_decide_eq_false_2 by lia. unfold reader_shape.
    rewrite lookup_total_app_r by lia. rewrite lookup_total_replicate_2 by lia. split; [done|].
    destruct j as [|[|[|[|j]]]]; done || lia.
  - intros _. rewrite extent_contiguous; [rewrite (wf_bytes _ Hwf); lia| |].
    + rewrite length_take, (proj1 Hso). lia.
    + intros j Hj. rewrite lookup_total_take_lt by done. rewrite reader_strides_at. by rewrite bool_decide_eq_true_2 by lia.
Qed.

(** The description of the stream or of a frame, at the widths of the metadata. *)
Definition described (payload event : Z) (strides : array4) : FrameMetadata :=
  mkFrameMetadata (dd_element_type (rd_description r)) es (Z.of_nat (length shape)) (reader_shape r) strides
    payload 0 event 0 Host (dd_endian (rd_description r)).

Lemma metadata_described event :
  reader_metadata r = described 0 0 array4_zero /\
  replay_metadata r event = described (rd_frame_bytes r) event array4_zero.
Proof.
  pose proof (wf_rank _ Hwf). pose proof (wf_element _ Hwf). unfold reader_metadata, replay_metadata, described.
  rewrite (wrap_small 32 es), (wrap_small 32 (Z.of_nat (length shape))) by (unfold in_range; lia). done.
Qed.

Lemma described_payload payload event :
  payload = 0 \/ payload = rd_frame_bytes r ->
  infer_payload_bytes (length shape) (described payload event array4_zero) =
  Some (described (rd_frame_bytes r) event array4_zero).
Proof.
  destruct reader_shape_ok as [Hok Ht]. pose proof (wf_rank _ Hwf).
  pose proof (wf_cap _ Hwf) as [? Hcap]. change k_max_frame_bytes_hard_cap with 268435456 in Hcap.
  pose proof (wf_bytes _ Hwf) as Hb. pose proof (wf_positive _ Hwf) as Hpos. pose proof (wf_element _ Hwf).
  unfold infer_payload_bytes, described. cbn [fm_payload_bytes fm_shape fm_element_size].
  intros [->| ->]; [|destruct (Z.eqb_spec (rd_frame_bytes r) 0); [lia|done]].
  cbn [Z.eqb]. rewrite (proj2 (elements_loop_0 (length shape) (reader_shape r) (product shape) Hok ltac:(lia))).
  - unfold mul_overflow. rewrite <-Hb, wrap_small by (unfold in_range; lia).
    by destruct (Z.leb_spec (2 ^ 64) (rd_frame_bytes r)); [lia|].
  - rewrite Ht. split; [done|]. intros k Hk. pose proof (product_pos _ (Forall_take _ k _ Hpos)).
    pose proof (product_pos _ (Forall_drop _ k _ Hpos)). rewrite <-(take_drop k shape), product_app in Hb. nia.
Qed.

Lemma described_strides payload event :
  infer_strides (length shape) (described payload event array4_zero) = described payload event reader_strides.
Proof.
  pose proof (wf_rank _ Hwf). unfold infer_strides, strides_unset, described.
  cbn [fm_strides fm_rank fm_shape fm_element_size].
  assert (forallb (fun i => array4_zero !!! i =? 0) (seq 0 (length shape)) = true) as ->.
  { apply forallb_forall. intros j Hj%in_seq. destruct j as [|[|[|[|j]]]]; try done. lia. }
  by destruct (Z.ltb_spec 0 (Z.of_nat (length shape))); [|lia].
Qed.

Lemma described_valid event mx :
  rd_frame_bytes r <= mx -> FrameMetadata_validate (described (rd_frame_bytes r) event reader_strides) mx = Ok.
Proof.
  intros Hmx. pose proof (wf_rank _ Hwf). pose proof (wf_element _ Hwf).
  pose proof (wf_cap _ Hwf) as [? Hcap]. change k_max_frame_bytes_hard_cap with 268435456 in Hcap.
  unfold FrameMetadata_validate, described, validate_element_size.
  cbn [fm_rank fm_element_type fm_element_size fm_payload_bytes fm_shape fm_strides].
  change k_max_rank with 4. change k_min_element_size with 1. change k_max_element_size with 256.
  change k_max_frame_bytes_hard_cap with 268435456. rewrite (wf_type _ Hwf), Z.eqb_refl, andb_false_r, reader_array_valid.
  rewrite (bool_decide_eq_false_2 (dd_element_type (rd_description r) = ET_Unknown)) by apply (wf_known _ Hwf).
  repeat (match goal with |- context [?a <? ?b] => rewrite (proj2 (Z.ltb_ge a b)) by lia
          | |- context [?a =? ?b] => rewrite (proj2 (Z.eqb_neq a b)) by lia end; cbn [andb orb negb]).
  done.
Qed.

(** The stream's description, and every frame's, resolve to the same array. *)
Lemma described_resolves payload event mx :
  payload = 0 \/ payload = rd_frame_bytes r -> rd_frame_bytes r <= mx ->
  resolve (described payload event array4_zero) mx = (described (rd_frame_bytes r) event reader_strides, Ok).
Proof.
  intros Hp Hmx. pose proof (wf_rank _ Hwf). pose proof (wf_element _ Hwf).
  assert (infer_element_size (described payload event array4_zero) = described payload event array4_zero) as E.
  { unfold infer_element_size. cbn. by destruct (Z.eqb_spec es 0); [lia|]. }
  unfold resolve. rewrite E. cbn [fm_rank fm_element_size described]. rewrite Nat2Z.id.
  change k_max_rank with 4. change k_min_element_size with 1. change k_max_element_size with 256.
  rewrite !(proj2 (Z.ltb_ge _ _)) by lia. cbn [orb].
  rewrite described_payload, described_strides, described_valid by done.
  by rewrite bool_decide_eq_false_2 by (intros []; done).
Qed.
End Stream.

Section Device.
Context {D V Rate : Type} `{Hl : Hdf5Laws D V}.
Implicit Types (o : ReplayOptions Rate).

(** The budget the device asks for. *)
Definition replay_budget o (r : ReplayReader) : Z :=
  Z.max (2 ^ 30) (Z.max k_min_frame_bytes (rd_frame_bytes r) * (2 * ro_prefetch_frames o + 1)).

Lemma replay_config_eq o r :
  reader_wf r -> 1 <= ro_prefetch_frames o <= 512 ->
  replay_publisher_config o r =
  Val (mkPublisherConfig (str "image") (reader_metadata r) (Z.max k_min_frame_bytes (rd_frame_bytes r))
    (2 * ro_prefetch_frames o) (ro_prefetch_frames o) 4 (ro_fanout_mode o) 256 10000 3333 10 (replay_budget o r) [] (-1) true).
Proof.
  intros Hw Hp. pose proof (wf_cap _ Hw) as [? Hcap]. change k_max_frame_bytes_hard_cap with 268435456 in Hcap.
  unfold replay_publisher_config, replay_budget. change k_min_frame_bytes with 4096.
  set (mf := Z.max 4096 (rd_frame_bytes r)). assert (4096 <= mf <= 268435456) by lia. clearbody mf.
  rewrite (Z.mul_comm _ 2). rewrite (wrap_small 32 (2 * _)), (wrap_small 32 (2 * _ + 1)) by (unfold in_range; lia).
  unfold checked_multiply. rewrite (proj2 (Z.eqb_neq _ 0)) by lia.
  rewrite (proj2 (Z.ltb_ge _ mf)) by (apply Z.div_le_lower_bound; nia). cbn [negb andb outcome_bind].
  by rewrite wrap_small by (unfold in_range; nia).
Qed.

Lemma replay_config_validates o r c :
  reader_wf r -> 1 <= ro_prefetch_frames o <= 512 -> ro_fanout_mode o = BestEffort \/ ro_fanout_mode o = AllActive ->
  replay_publisher_config o r = Val c ->
  PublisherConfig_validate c = if replay_budget o r <=? k_max_pinned_bytes then Ok else ResourceExhausted.
Proof.
  intros Hw Hp Hm. rewrite replay_config_eq by done. intros [= <-].
  pose proof (wf_cap _ Hw) as [? Hcap]. change k_max_frame_bytes_hard_cap with 268435456 in Hcap.
  assert (2 ^ 30 <= replay_budget o r) by apply Z.le_max_l.
  set (mf := Z.max k_min_frame_bytes (rd_frame_bytes r)). set (budget := replay_budget o r) in *.
  assert (4096 <= mf <= 268435456 /\ rd_frame_bytes r <= mf) by (unfold mf; change k_min_frame_bytes with 4096; lia).
  set (depth := 2 * ro_prefetch_frames o). assert (depth = 2 * ro_prefetch_frames o) by done. clearbody mf budget depth.
  assert (snd (resolve (reader_metadata r) mf) = Ok) as Hres.
  { rewrite (proj1 (metadata_described r Hw 0)), described_resolves by (done || lia || auto). done. }
  unfold PublisherConfig_validate, validate_common.
  cbn [pc_stream_name pc_frame_metadata pc_max_frame_bytes pc_ring_depth pc_credit_window pc_max_sessions
    pc_fanout_mode pc_publish_queue_depth pc_lease_ttl_ms pc_renew_interval_ms pc_max_renewals_per_ttl
    pc_pinned_memory_limit_bytes pc_engine_cpu_affinity]. rewrite Hres.
  change (is_valid_stream_name _) with true. change k_min_frame_bytes with 4096.
  change k_max_frame_bytes_hard_cap with 268435456. change k_min_ring_depth with 2. change k_max_ring_depth with 1024.
  change k_min_pinned_bytes with 16777216.
  rewrite (proj2 (Z.ltb_ge mf 4096)), (proj2 (Z.ltb_ge 268435456 mf)), (proj2 (Z.ltb_ge depth 2)),
    (proj2 (Z.ltb_ge 1024 depth)), (proj2 (Z.ltb_ge (ro_prefetch_frames o) 1)),
    (proj2 (Z.ltb_ge depth (ro_prefetch_frames o))), (proj2 (Z.ltb_ge budget 16777216)) by lia.
  cbn [negb orb]. rewrite Z.leb_antisym. destruct (k_max_pinned_bytes <? budget); [done|].
  rewrite (bool_decide_eq_false_2 (Ok <> Ok)) by (intros []; done). destruct (_ || _); cbn;
    rewrite ?(bool_decide_eq_false_2 (Ok <> Ok)) by (intros []; done); destruct Hm as [->| ->]; done.
Qed.

(** Any options the command line and the properties can give. *)
Definition options_wf o : Prop :=
  0 <= ro_prefetch_frames o /\ (ro_fanout_mode o = BestEffort \/ ro_fanout_mode o = AllActive).

Context (stod : bytes -> hres Rate) (rate_valid : Rate -> bool).

Lemma parse_fanout_mode_ok value origin m : parse_fanout_mode value origin = Val m -> m = BestEffort \/ m = AllActive.
Proof. unfold parse_fanout_mode. repeat (destruct (_ || _); [naive_solver|]). done. Qed.

Lemma set_option_wf o name value o' : options_wf o -> set_option stod rate_valid o name value = Val o' -> options_wf o'.
Proof.
  destruct o as [f d p m r ff df pf mf]. intros [Hp Hm]. unfold set_option.
  repeat (case_bool_decide; [try (intros [= <-]; done)|]).
  - destruct (stoul value) as [v| |]; [|done..]. cbn [outcome_bind]. destruct (prefetch_valid v); [|done].
    intros [= <-]. split; [apply (wrap_in_range 32); lia|done].
  - destruct (parse_fanout_mode _ _) as [v| |] eqn:Hv; [|done..]. intros [= <-].
    split; [done|]. by eapply parse_fanout_mode_ok.
  - destruct (stod value) as [v| |]; [|done..]. cbn [outcome_bind]. destruct (rate_valid v); [|done].
    by intros [= <-].
Qed.

Lemma replay_options_wf arguments tango o :
  replay_options stod rate_valid arguments = Val (Some (tango, o)) -> options_wf o.
Proof.
  unfold replay_options. assert (options_wf (@ReplayOptions_default Rate)) as Hw by (split; [done|by left]).
  revert Hw. generalize (@ReplayOptions_default Rate) as o0, (@nil bytes) as tango0. generalize (length arguments) as fuel.
  intros fuel. revert arguments. induction fuel as [|fuel IH]; intros [|a rest] tango0 o0 Hw; cbn [replay_arguments];
    try by intros [= <- <-].
  case_bool_decide; [done|]. destruct (List.find _ _) as [name|]; [|by apply IH].
  destruct (option_value _ _ _) as [[value rest']| |]; [|done..]. cbn [outcome_bind].
  destruct (set_option _ _ _ _ _) as [o'| |] eqn:Ho; [|done..]. cbn [outcome_bind].
  apply IH. by eapply set_option_wf.
Qed.

Lemma read_configuration_wf o properties o' :
  options_wf o -> read_configuration rate_valid o properties = Val o' ->
  1 <= ro_prefetch_frames o' <= 512 /\ (ro_fanout_mode o' = BestEffort \/ ro_fanout_mode o' = AllActive).
Proof.
  intros Hw. unfold read_configuration. destruct (match properties with None => _ | Some _ => _ end) as [o2| |] eqn:Ho;
    [|done..]. cbn [outcome_bind].
  assert (options_wf o2) as [Hp Hm].
  { destruct properties as [p|]; [|by injection Ho as <-]. destruct o as [f d n m r ff df pf mf].
    destruct Hw as [Hn Hm]. cbn in Hn, Hm.
    destruct (match pp_prefetch p with Some _ => _ | None => _ end) as [n2| |] eqn:Hn2; [|done..]. cbn [outcome_bind] in Ho.
    destruct (match pp_fanout p with Some _ => _ | None => _ end) as [m2| |] eqn:Hm2; [|done..]. cbn [outcome_bind] in Ho.
    destruct (match r with None => _ | Some _ => _ end) as [r2| |]; [|done..]. injection Ho as <-. split; cbn.
    - destruct (pp_prefetch p) as [[v|]|], pf; simplify_eq; try done. destruct (prefetch_valid v); simplify_eq.
      apply (wrap_in_range 32); lia.
    - destruct (pp_fanout p) as [[v|]|], mf; simplify_eq; try done. by eapply parse_fanout_mode_ok. }
  destruct (negb _); [|done]. destruct (prefetch_valid (ro_prefetch_frames o2)) eqn:Hv; [|done].
  destruct (match ro_frame_rate o2 with Some _ => _ | None => _ end); [|done]. intros [= <-]. split; [|done].
  unfold prefetch_valid in Hv. change (k_max_ring_depth / 2) with 512 in Hv. bool_to_prop. lia.
Qed.

(** C26: the replay device's configuration, from the command line to the frames. Whatever
    options and properties are accepted and whatever dataset is opened, the configuration
    handed to the library is valid, unless the memory budget is over the library's limit
    and it is refused as such; every frame's metadata resolves, describes the
    stream's array and fits its slot; and reading frame [i] transfers exactly the elements
    of row [i] of the dataset, as many bytes as the metadata announces. *)
Theorem replay_stream_sound arguments tango o properties o' t dims r :
  replay_options stod rate_valid arguments = Val (Some (tango, o)) ->
  read_configuration rate_valid o properties = Val o' ->
  Forall (in_range 64) dims -> reader_open t dims = Val r ->
  exists c, replay_publisher_config o' r = Val c /\
    PublisherConfig_validate c = (if replay_budget o' r <=? k_max_pinned_bytes then Ok else ResourceExhausted) /\
    (forall event, exists m stream,
       resolve (replay_metadata r event) (pc_max_frame_bytes c) = (m, Ok) /\
       resolve (pc_frame_metadata c) (pc_max_frame_bytes c) = (stream, Ok) /\
       describes_same_array m stream = true /\ fm_event_counter m = event /\
       fm_payload_bytes m <= pc_max_frame_bytes c /\
       forall index, 0 <= index < rd_frame_count r -> exists elements,
         read_frame (D:=D) (V:=V) r index = Val elements /\
         elements = seqZ (index * Z.of_nat (length elements)) (Z.of_nat (length elements)) /\
         Z.of_nat (length elements) * fm_element_size m = fm_payload_bytes m).
Proof.
  intros Ho Hc Hd Hr. apply replay_options_wf in Ho. eapply read_configuration_wf in Hc as [Hp Hm]; [|done].
  apply reader_open_wf in Hr as Hw; [|done]. eexists. split; [by apply replay_config_eq|].
  split; [by eapply replay_config_validates; [..|apply replay_config_eq]|]. intros event.
  destruct (metadata_described r Hw event) as [E1 E2]. cbn [pc_frame_metadata pc_max_frame_bytes].
  rewrite E1, E2, !described_resolves by (auto || lia). do 2 eexists.
  do 2 (split; [done|]). split; [unfold describes_same_array; cbn; by rewrite !Z.eqb_refl, !bool_decide_eq_true_2|].
  split; [done|]. split; [cbn [described fm_payload_bytes]; lia|].
  intros index Hi. pose proof (product_pos _ (wf_positive _ Hw)). eexists. split; [by apply read_frame_rows|].
  rewrite length_seqZ, Z2Nat.id by lia. split; [done|]. symmetry. apply (wf_bytes _ Hw).
Qed.
End Device.

Lemma replay_stream_sound_witness :
  exists m, resolve (replay_metadata (mkReplayReader (mkDataDescription ET_UInt16 Little 2) [5; 64; 48] [64; 48] 5 6144) 3)
    6144 = (m, Ok) /\ fm_payload_bytes m = 6144 /\
  read_frame (D:=H5File) (V:=bytes)
    (mkReplayReader (mkDataDescription ET_UInt16 Little 2) [5; 64; 48] [64; 48] 5 6144) 4 =
  Val (seqZ 12288 3072).
Proof.
  destruct (replay_stream_sound (D:=H5File) (V:=bytes) (Rate:=Z) (fun _ => Val 100) (Z.leb 0)
    [str "--hdf5-file=a.h5"; str "instance"; str "--prefetch-frames"; str "16"] [str "instance"]
    (mkReplayOptions (str "a.h5") [] 16 BestEffort None true false true false) None
    (mkReplayOptions (str "a.h5") [] 16 BestEffort None true false true false)
    (mkH5TypeInfo H5Integer 2 true OrderLE) [5; 64; 48]
    (mkReplayReader (mkDataDescription ET_UInt16 Little 2) [5; 64; 48] [64; 48] 5 6144)
    ltac:(vm_compute; reflexivity) ltac:(vm_compute; reflexivity) ltac:(repeat constructor; done)
    ltac:(vm_compute; reflexivity)) as (c & Hc & _ & Hm).
  destruct (Hm 3) as (m & stream & Hres & _ & _ & _ & _ & Hread).
  assert (pc_max_frame_bytes c = 6144) as E by (vm_compute in Hc; by injection Hc as <-).
  rewrite E in Hres. exists m. split; [done|].
  pose proof (f_equal (fun p => fm_payload_bytes (fst p)) Hres) as E1.
  pose proof (f_equal (fun p => fm_element_size (fst p)) Hres) as E2. cbn [fst] in E1, E2.
  assert (fm_payload_bytes m = 6144) by (rewrite <-E1; vm_compute; reflexivity).
  assert (fm_element_size m = 2) by (rewrite <-E2; vm_compute; reflexivity).
  split; [done|]. destruct (Hread 4 ltac:(cbn; lia)) as (elements & -> & He & Hs).
  assert (Z.of_nat (length elements) = 3072) as El by lia. by rewrite El in He; rewrite He.
Defined.

(** ** The rate the file suggests *)

Definition absolute (path : bytes) : bool := match path with c :: _ => bool_decide (c = "/"%byte) | [] => false end.

Lemma split_last_spec sep text a b : split_last sep text = Some (a, b) -> text = a ++ sep :: b.
Proof.
  revert a b. induction text as [|c text IH]; intros a b; cbn [split_last]; [done|].
  destruct (split_last sep text) as [[a' b']|] eqn:Hs.
  - intros [= <- <-]. by rewrite (IH a' b').
  - case_bool_decide; [|done]. intros [= <- <-]. by subst.
Qed.
Lemma split_last_none sep text : split_last sep text = None -> sep ∉ text.
Proof.
  induction text as [|c text IH]; cbn [split_last]; [intros _; apply not_elem_of_nil|].
  destruct (split_last sep text) as [[a b]|]; [done|]. case_bool_decide; [done|]. intros _.
  apply not_elem_of_cons. split; [done|by apply IH].
Qed.

Lemma parent_path_absolute path :
  absolute path = true -> absolute (parent_path path) = true /\ (parent_path path = str "/" \/ length (parent_path path) < length path)%nat.
Proof.
  destruct path as [|c path]; [done|]. cbn [absolute]. intros Hc%bool_decide_eq_true. subst c. unfold parent_path.
  destruct (split_last _ _) as [[a b]|] eqn:Hs.
  - apply split_last_spec in Hs. destruct a as [|x a]; [by split; [|left]|]. injection Hs as <- ->.
    split; [by apply bool_decide_eq_true|]. right. simpl. rewrite length_app. simpl. lia.
  - apply split_last_none in Hs. exfalso. apply Hs. by left.
Qed.
Lemma parent_path_relative path : absolute path = false -> absolute (parent_path path) = false.
Proof.
  intros Ha. unfold parent_path. destruct (split_last _ _) as [[a b]|] eqn:Hs; [|done].
  apply split_last_spec in Hs. subst path. by destruct a as [|x a].
Qed.

Section Rate.
Context {Rate : Type} (timing : bytes -> option Rate) (fallback : Rate).

Lemma rate_loop_returns fuel group :
  absolute group = true -> (length group < fuel)%nat -> exists rate, rate_loop fuel timing fallback group = Some rate.
Proof.
  revert group. induction fuel as [|fuel IH]; intros group Ha Hf; [lia|]. cbn [rate_loop].
  case_bool_decide as Hg; [by eexists|]. destruct (timing group) as [rate|]; [by eexists|].
  destruct (parent_path_absolute group Ha) as [Ha' [->|Hlt]]; [|apply IH; [done|lia]].
  destruct fuel; [destruct group; [done|simpl in Hf; lia]|]. by eexists.
Qed.

Lemma rate_loop_diverges fuel group :
  absolute group = false -> (forall g, timing g = None) -> rate_loop fuel timing fallback group = None.
Proof.
  intros Ha Ht. revert group Ha. induction fuel as [|fuel IH]; intros group Ha; cbn [rate_loop]; [done|].
  rewrite bool_decide_eq_false_2, Ht; [by apply IH, parent_path_relative|]. by intros ->.
Qed.
End Rate.

(** the walk of [suggested_rate] towards the root ends within as many turns as the path has
    bytes, whatever the file holds, when the dataset's path is absolute, and a discovered
    path always is. For a path that does not begin with a slash -- HDF5 opens it just as well --
    it ends only if some group on the way has timing metadata: without any, [parent_path]
    of a single component is that component, and the device's start-up never returns, even
    when a rate was configured. *)
Theorem suggested_rate_termination {Rate} (fallback : Rate) path :
  (absolute path = true -> forall timing, exists rate, suggested_rate (S (length path)) timing fallback path = Some rate) /\
  ((exists fuel rate, suggested_rate fuel (fun _ => None) fallback path = Some rate) <-> absolute path = true) /\
  (forall attribute, discover_nexus_dataset attribute = Val path -> absolute path = true).
Proof.
  assert (absolute path = true -> forall timing : bytes -> option Rate, exists rate,
    suggested_rate (S (length path)) timing fallback path = Some rate) as Habs.
  { intros Ha timing. destruct (parent_path_absolute path Ha) as [Ha' Hl]. apply rate_loop_returns; [done|].
    destruct Hl as [->|]; [|lia]. destruct path; [done|]. simpl. lia. }
  assert (forall base child p, absolute_path base child = Val p -> absolute base = true -> absolute p = true) as Hap.
  { intros base [|c child] p; cbn [absolute_path]; [done|]. case_bool_decide as Hc.
    - intros [= <-] _. by apply bool_decide_eq_true.
    - case_bool_decide; intros [= <-]; [done|]. by destruct base. }
  split; [done|]. split.
  - split; [|intros Ha; eexists; by apply Habs]. intros (fuel & rate & Hs).
    destruct (absolute path) eqn:Ha; [done|]. unfold suggested_rate in Hs.
    by rewrite rate_loop_diverges in Hs by (done || by apply parent_path_relative).
  - intros attribute. unfold discover_nexus_dataset.
    destruct (attribute _ _) as [entry| |]; [|done..]. cbn [outcome_bind].
    destruct (absolute_path _ _) as [ep| |] eqn:He; [|done..]. cbn [outcome_bind].
    destruct (attribute ep _) as [plot| |]; [|done..]. cbn [outcome_bind].
    destruct (absolute_path ep _) as [pp| |] eqn:Hp; [|done..]. cbn [outcome_bind].
    destruct (attribute pp _) as [signal| |]; [|done..]. cbn [outcome_bind].
    intros Hpath. eapply Hap, Hap, Hap; done.
Qed.

Lemma suggested_rate_termination_witness :
  (exists rate, suggested_rate 11 (fun group => if bool_decide (group = str "/e") then Some 50 else None) 100
     (str "/e/p/image") = Some rate) /\
  ~ (exists fuel rate, suggested_rate fuel (fun _ => None) 100 (str "e/image") = Some rate).
Proof.
  split.
  - by apply (suggested_rate_termination 100 (str "/e/p/image")).
  - intros H. by apply (suggested_rate_termination 100 (str "e/image")) in H.
Defined.

(** ** The memory budget *)

Lemma stride_two_mebibytes : compute_stride (2 ^ 21) true = 2 ^ 21 + 4096.
Proof. reflexivity. Qed.

(** The device's budget, [max_frame_bytes * (ring_depth + 1)], leaves out the padding of the slots:
    with frames of 2 MiB -- 1024 by 1024 pixels of 16 bits -- and more than 256 prefetched frames the
    configuration validates and the publisher's ring is over the limit it names, so start-up fails. *)
Theorem padding_exceeds_budget {Rate} (o : ReplayOptions Rate) r c ucx_error ucx :
  reader_wf r -> rd_frame_bytes r = 2 ^ 21 -> 257 <= ro_prefetch_frames o <= 512 ->
  ro_fanout_mode o = BestEffort -> replay_publisher_config o r = Val c ->
  PublisherConfig_validate c = Ok /\
  exists e, fst (ring_allocated ucx_error 0 (pc_max_frame_bytes c) (pc_ring_depth c) (pc_pad_slot_stride c)
    (pc_pinned_memory_limit_bytes c) (str "publisher") ucx) = Err e /\ be_status e = ResourceExhausted.
Proof.
  intros Hw Hb Hp Hm Hc.
  assert (Z.max k_min_frame_bytes (rd_frame_bytes r) = 2 ^ 21) as Hmf by (rewrite Hb; reflexivity).
  assert (replay_budget o r = 2 ^ 21 * (2 * ro_prefetch_frames o + 1)) as Hbudget by (unfold replay_budget; rewrite Hmf; lia).
  split.
  - rewrite (replay_config_validates o r c Hw ltac:(lia) (or_introl Hm) Hc), Hbudget.
    rewrite (proj2 (Z.leb_le _ _)); [done|]. change k_max_pinned_bytes with 68719476736. lia.
  - rewrite replay_config_eq in Hc by (done || lia). injection Hc as <-.
    cbn [pc_max_frame_bytes pc_ring_depth pc_pad_slot_stride pc_pinned_memory_limit_bytes]. rewrite Hmf, Hbudget.
    unfold ring_allocated. rewrite stride_two_mebibytes. unfold checked_region_bytes.
    rewrite (proj2 (Z.ltb_ge (uint64_max / _) _)); [|apply Z.div_le_lower_bound; [lia|unfold uint64_max; lia]].
    rewrite andb_false_r, wrap_small by (unfold in_range; lia).
    unfold ucx_allocated, acquire, try_acquire, try_reserve, try_reserve_turn.
    rewrite (proj2 (Z.ltb_lt (2 ^ 21 * _) _)) by lia. by eexists.
Qed.
