(* ===== verification/Hdf5Replay.v ===== *)
(** * The HDF5 replay device: its threads

    [Hdf5ReplayDetector] in [examples/example_hdf5_device/example_hdf5_device.cpp]: the
    loader thread, the replay thread and [delete_device], one step at a time.  A step is
    what a thread does between two points where the others can be seen; the answers of the
    publisher and of HDF5 are inputs.  The metrics thread only reports and is left out. *)
From stdpp Require Import list gmap.
From S2P Require Import Prelude Enums Limits Text Hdf5Shards Hdf5Source.

(** ** State *)

(** A slot of the publisher's ring is its index; the lease is the right to it. *)
Record PreparedFrame : Type := mkPreparedFrame { pf_dataset_frame : Z; pf_lease : nat }.

(** The members under [ready_mutex_], and [running_]. *)
Record ReplayShared : Type := mkReplayShared {
  sh_running : bool;
  sh_loader_failure : option bytes;
  sh_ready : list PreparedFrame;
  sh_ready_frames : Z;
  sh_next_frame_to_load : Z;
  sh_load_epoch : Z
}.

(** Where the loader is.  [LoaderBlocking] holds the mutex between the predicate that
    failed and the wait; [LoaderStop] and [LoaderNotify] are the rest of its handler. *)
Inductive LoaderAt : Type :=
| LoaderTop | LoaderWait | LoaderBlocking | LoaderBlocked
| LoaderAcquire (dataset_frame epoch : Z)
| LoaderRead (dataset_frame epoch : Z) (lease : nat)
| LoaderPush (dataset_frame epoch : Z) (lease : nat)
| LoaderFailed (what : bytes) | LoaderStop | LoaderNotify | LoaderDone.

(** Where the replay thread is; [ReplayResult] after the publish loop, with the lease it
    still has. *)
Inductive ReplayAt : Type :=
| ReplayTop | ReplaySessions | ReplayChecked | ReplayNext | ReplayBlocking | ReplayBlocked
| ReplayPublish (frame : PreparedFrame) (result : PublishResult)
| ReplayResult (dataset_frame : Z) (lease : option nat) (result : PublishResult)
| ReplayRethrow | ReplayDone.

(** How far [delete_device] is. *)
Inductive DeleteAt : Type := DeleteIdle | DeleteStored | DeleteJoinLoader | DeleteJoinReplay | DeleteDone.

(** [rv_memory]: the dataset frame each slot holds; [rv_accepted]: the dataset frame, the
    event counter and what the slot held, of every frame the publisher accepted. *)
Record ReplayDevice : Type := mkReplayDevice {
  rv_frame_count : Z;
  rv_prefetch_frames : Z;
  rv_shared : ReplayShared;
  rv_loader : LoaderAt;
  rv_replay : ReplayAt;
  rv_event : Z;
  rv_fault : option bytes;
  rv_delete : DeleteAt;
  rv_memory : gmap nat Z;
  rv_accepted : list (Z * Z * option Z)
}.

Definition loader_lease (l : LoaderAt) : list nat :=
  match l with LoaderRead _ _ s | LoaderPush _ _ s => [s] | _ => [] end.
Definition replay_lease (p : ReplayAt) : list nat :=
  match p with ReplayPublish f _ => [pf_lease f] | ReplayResult _ (Some s) _ => [s] | _ => [] end.
Definition leases (d : ReplayDevice) : list nat :=
  replay_lease (rv_replay d) ++ (pf_lease <$> sh_ready (rv_shared d)) ++ loader_lease (rv_loader d).

(** ** Operations on the shared members *)

Definition sh_stop (sh : ReplayShared) : ReplayShared :=
  let '(mkReplayShared _ f q n x e) := sh in mkReplayShared false f q n x e.
Definition sh_set_ready (sh : ReplayShared) (q : list PreparedFrame) : ReplayShared :=
  let '(mkReplayShared r f _ _ x e) := sh in mkReplayShared r f q (Z.of_nat (length q)) x e.
Definition sh_set_failure (sh : ReplayShared) (what : bytes) : ReplayShared :=
  let '(mkReplayShared r _ q n x e) := sh in mkReplayShared r (Some what) q n x e.

Definition restart_prefetch (sh : ReplayShared) (dataset_frame : Z) : ReplayShared :=
  let '(mkReplayShared r f _ _ _ e) := sh in mkReplayShared r f [] 0 dataset_frame (u64 (e + 1)).

(** [notify_all]: whoever is blocked looks at its predicate again. *)
Definition loader_wakes (l : LoaderAt) : LoaderAt := match l with LoaderBlocked => LoaderWait | _ => l end.
Definition replay_wakes (p : ReplayAt) : ReplayAt := match p with ReplayBlocked => ReplayNext | _ => p end.
Definition notified (d : ReplayDevice) : ReplayDevice :=
  let '(mkReplayDevice n p sh l r ev ft de me ac) := d in mkReplayDevice n p sh (loader_wakes l) (replay_wakes r) ev ft de me ac.

Definition with_loader (d : ReplayDevice) (sh : ReplayShared) (l : LoaderAt) : ReplayDevice :=
  let '(mkReplayDevice n p _ _ r ev ft de me ac) := d in mkReplayDevice n p sh l r ev ft de me ac.
Definition with_replay (d : ReplayDevice) (sh : ReplayShared) (r : ReplayAt) : ReplayDevice :=
  let '(mkReplayDevice n p _ l _ ev ft de me ac) := d in mkReplayDevice n p sh l r ev ft de me ac.
Definition with_delete (d : ReplayDevice) (sh : ReplayShared) (de : DeleteAt) : ReplayDevice :=
  let '(mkReplayDevice n p _ l r ev ft _ me ac) := d in mkReplayDevice n p sh l r ev ft de me ac.
Definition with_memory (d : ReplayDevice) (s : nat) (f : Z) : ReplayDevice :=
  let '(mkReplayDevice n p sh l r ev ft de me ac) := d in mkReplayDevice n p sh l r ev ft de (<[s := f]> me) ac.
Definition with_fault (d : ReplayDevice) (what : bytes) : ReplayDevice :=
  let '(mkReplayDevice n p sh l r ev _ de me ac) := d in mkReplayDevice n p sh l r ev (Some what) de me ac.
(** The publisher took the frame. *)
Definition with_accepted (d : ReplayDevice) (f : PreparedFrame) : ReplayDevice :=
  let '(mkReplayDevice n p sh l r ev ft de me ac) := d in
  mkReplayDevice n p sh l r ev ft de me (ac ++ [(pf_dataset_frame f, ev, me !! pf_lease f)]).
Definition next_event (d : ReplayDevice) : ReplayDevice :=
  let '(mkReplayDevice n p sh l r ev ft de me ac) := d in mkReplayDevice n p sh l r (u64 (ev + 1)) ft de me ac.

(** Nobody is between its predicate and its wait, holding the mutex. *)
Definition mutex_free (d : ReplayDevice) : bool :=
  match rv_loader d, rv_replay d with LoaderBlocking, _ | _, ReplayBlocking => false | _, _ => true end.

(** ** [loader_loop] *)

(** One step: [acquired] is what [try_acquire] returns, [failure] what [read_frame] throws.
    [None]: the loader cannot move. *)
Definition loader_step (acquired : option nat) (failure : option bytes) (d : ReplayDevice) : option ReplayDevice :=
  let sh := rv_shared d in
  let go sh l := Some (with_loader d sh l) in
  match rv_loader d with
  | LoaderTop => go sh (if sh_running sh then LoaderWait else LoaderDone)
  | LoaderWait =>
      if negb (mutex_free d) then None else
      if sh_running sh && negb (Z.of_nat (length (sh_ready sh)) <? rv_prefetch_frames d) then go sh LoaderBlocking else
      if negb (sh_running sh) then go sh LoaderDone else
      let '(mkReplayShared r f q n next epoch) := sh in
      go (mkReplayShared r f q n (u64 (next + 1) mod rv_frame_count d) epoch) (LoaderAcquire next epoch)
  | LoaderBlocking => go sh LoaderBlocked
  | LoaderBlocked => None
  | LoaderAcquire f e =>
      if negb (sh_running sh) then go sh LoaderDone else
      match acquired with
      | Some s => if bool_decide (s ∈ leases d) then None else go sh (LoaderRead f e s)
      | None => Some d
      end
  | LoaderRead f e s =>
      if negb (sh_running sh) then go sh LoaderDone else
      if rv_frame_count d <=? f then go sh (LoaderFailed (str "HDF5 frame index is out of range")) else
      match failure with
      | Some what => go sh (LoaderFailed what)
      | None => Some (with_memory (with_loader d sh (LoaderPush f e s)) s f)
      end
  | LoaderPush f e s =>
      if negb (mutex_free d) then None else
      if sh_running sh && (e =? sh_load_epoch sh)
      then Some (notified (with_loader d (sh_set_ready sh (sh_ready sh ++ [mkPreparedFrame f s])) LoaderTop))
      else go sh LoaderTop
  | LoaderFailed what => if negb (mutex_free d) then None else go (sh_set_failure sh what) LoaderStop
  | LoaderStop => go (sh_stop sh) LoaderNotify
  | LoaderNotify => Some (notified (with_loader d sh LoaderDone))
  | LoaderDone => None
  end.

(** ** [replay_loop] *)

Definition retryable (r : PublishResult) : bool := bool_decide (r = PR_QueueFull) || bool_decide (r = PR_WouldBlock).

(** One step: [sessions] is the publisher's [session_count], [answer] what [publish]
    returns; only a retryable answer leaves the lease. *)
Definition replay_step (sessions : Z) (answer : PublishResult) (d : ReplayDevice) : option ReplayDevice :=
  let sh := rv_shared d in
  let go sh r := Some (with_replay d sh r) in
  match rv_replay d with
  | ReplayTop => go sh (if sh_running sh then ReplaySessions else ReplayRethrow)
  | ReplaySessions => if sh_running sh && (sessions =? 0) then Some d else go sh ReplayChecked
  | ReplayChecked => go sh (if sh_running sh then ReplayNext else ReplayRethrow)
  | ReplayNext =>
      if negb (mutex_free d) then None else
      match sh_loader_failure sh, sh_ready sh with
      | Some what, _ => Some (with_fault (with_replay d sh ReplayDone) what)
      | None, [] => go sh (if sh_running sh then ReplayBlocking else ReplayRethrow)
      | None, f :: q =>
          if sh_running sh
          then Some (notified (with_replay d (sh_set_ready sh q) (ReplayPublish f PR_QueueFull)))
          else go sh ReplayRethrow
      end
  | ReplayBlocking => go sh ReplayBlocked
  | ReplayBlocked => None
  | ReplayPublish f result =>
      if sh_running sh && retryable result then
        if retryable answer then go sh (ReplayPublish f answer)
        else
          let d := if bool_decide (answer = PR_Accepted) then with_accepted d f else d in
          Some (with_replay d sh (ReplayResult (pf_dataset_frame f) None answer))
      else go sh (ReplayResult (pf_dataset_frame f) (Some (pf_lease f)) result)
  | ReplayResult f _ result =>
      match result with
      | PR_Accepted => Some (with_replay (next_event d) sh ReplayTop)
      | PR_NoSession | PR_CreditStalled =>
          if negb (mutex_free d) then None
          else Some (notified (with_replay d (restart_prefetch sh f) ReplayTop))
      | PR_Shutdown => go sh ReplayRethrow
      | _ => Some (with_fault (with_replay d sh ReplayDone) (str "publish failed: " ++ PublishResult_to_string result))
      end
  | ReplayRethrow =>
      if negb (mutex_free d) then None else
      match sh_loader_failure sh with
      | Some what => Some (with_fault (with_replay d sh ReplayDone) what)
      | None => go sh ReplayDone
      end
  | ReplayDone => None
  end.

(** ** [delete_device] and [init_device] *)

Definition delete_step (d : ReplayDevice) : option ReplayDevice :=
  let sh := rv_shared d in
  match rv_delete d with
  | DeleteIdle => Some (with_delete d (sh_stop sh) DeleteStored)
  | DeleteStored => Some (notified (with_delete d sh DeleteJoinLoader))
  | DeleteJoinLoader => match rv_loader d with LoaderDone => Some (with_delete d sh DeleteJoinReplay) | _ => None end
  | DeleteJoinReplay => match rv_replay d with ReplayDone => Some (with_delete d (sh_set_ready sh []) DeleteDone) | _ => None end
  | DeleteDone => None
  end.

(** The members [init_device] does not set keep what they had. *)
Definition init_device (frame_count prefetch : Z) (sh : ReplayShared) : ReplayDevice :=
  let '(mkReplayShared _ f q n x e) := sh in
  mkReplayDevice frame_count prefetch (mkReplayShared true f q n x e) LoaderTop ReplayTop 0 None DeleteIdle ∅ [].
Definition shared_new : ReplayShared := mkReplayShared false None [] 0 0 0.

(** ** Runs *)

(** [Spurious] is a wake-up without a notification, which the standard allows. *)
Inductive ReplayInput : Type :=
| ByLoader (acquired : option nat) (failure : option bytes)
| ByReplay (sessions : Z) (answer : PublishResult)
| ByDelete
| Spurious.

Definition replay_device_step (i : ReplayInput) (d : ReplayDevice) : option ReplayDevice :=
  match i with
  | ByLoader acquired failure => loader_step acquired failure d
  | ByReplay sessions answer => replay_step sessions answer d
  | ByDelete => delete_step d
  | Spurious => Some (notified d)
  end.

(** The steps that are possible, in their order; one that is not is skipped. *)
Definition replay_run (inputs : list ReplayInput) (d : ReplayDevice) : ReplayDevice :=
  foldl (fun d i => default d (replay_device_step i d)) d inputs.

(** ** The invariant *)

(** The frames on their way to the publisher, in order. *)
Definition loader_frame (epoch : Z) (l : LoaderAt) : list Z :=
  match l with
  | LoaderAcquire f e | LoaderRead f e _ | LoaderPush f e _ => if e =? epoch then [f] else []
  | _ => []
  end.
Definition replay_frame (p : ReplayAt) : list Z :=
  match p with
  | ReplayPublish f _ => [pf_dataset_frame f]
  | ReplayResult _ _ PR_Accepted => []
  | ReplayResult f _ _ => [f]
  | _ => []
  end.
Definition pending (d : ReplayDevice) : list Z :=
  replay_frame (rv_replay d) ++ (pf_dataset_frame <$> sh_ready (rv_shared d)) ++
  loader_frame (sh_load_epoch (rv_shared d)) (rv_loader d).

(** The slots that hold a frame. *)
Definition filled (d : ReplayDevice) : list PreparedFrame :=
  match rv_replay d with ReplayPublish f _ => [f] | _ => [] end ++ sh_ready (rv_shared d) ++
  match rv_loader d with LoaderPush f _ s => [mkPreparedFrame f s] | _ => [] end.

Definition loader_live (l : LoaderAt) : bool :=
  match l with LoaderFailed _ | LoaderStop | LoaderNotify | LoaderDone => false | _ => true end.
Definition replay_live (p : ReplayAt) : bool :=
  match p with ReplayRethrow | ReplayDone => false | _ => true end.
(** Whether the loader has claimed a place in the queue, and the epoch it did so in. *)
Definition loader_claims (l : LoaderAt) : option Z :=
  match l with LoaderAcquire _ e | LoaderRead _ e _ | LoaderPush _ e _ => Some e | _ => None end.

Fixpoint consecutive (n k : Z) (l : list Z) : Prop :=
  match l with [] => True | x :: l => x = k mod n /\ consecutive n (k + 1) l end.

Lemma consecutive_app n k l1 l2 :
  consecutive n k (l1 ++ l2) <-> consecutive n k l1 /\ consecutive n (k + Z.of_nat (length l1)) l2.
Proof.
  revert k. induction l1 as [|x l1 IH]; intros k; cbn [app consecutive length].
  - rewrite Z.add_0_r. tauto.
  - rewrite IH. replace (k + 1 + Z.of_nat (length l1)) with (k + Z.of_nat (S (length l1))) by lia. tauto.
Qed.

Definition accepted_frame (n i : Z) : Z * Z * option Z := (i mod n, u64 i, Some (i mod n)).
Definition accepted_frames (n : Z) (count : nat) : list (Z * Z * option Z) := accepted_frame n <$> seqZ 0 (Z.of_nat count).

(** [steps] bounds the steps so far. *)
Record replay_device_inv (steps : Z) (d : ReplayDevice) : Prop := {
  di_count : 0 < rv_frame_count d < 2 ^ 64;
  di_epoch : 0 <= sh_load_epoch (rv_shared d) <= steps;
  di_claim : forall e, loader_claims (rv_loader d) = Some e -> e <= sh_load_epoch (rv_shared d);
  di_next : 0 <= sh_next_frame_to_load (rv_shared d) < rv_frame_count d;
  di_order : replay_live (rv_replay d) = true ->
    consecutive (rv_frame_count d) (Z.of_nat (length (rv_accepted d))) (pending d);
  di_loads : replay_live (rv_replay d) = true -> loader_live (rv_loader d) = true -> sh_running (rv_shared d) = true ->
    sh_next_frame_to_load (rv_shared d) =
    (Z.of_nat (length (rv_accepted d)) + Z.of_nat (length (pending d))) mod rv_frame_count d;
  di_accepted : rv_accepted d = accepted_frames (rv_frame_count d) (length (rv_accepted d));
  di_event : rv_event d = u64 (Z.of_nat (length (rv_accepted d)) -
    match rv_replay d with ReplayResult _ _ PR_Accepted => 1 | _ => 0 end);
  di_memory : Forall (fun f => rv_memory d !! pf_lease f = Some (pf_dataset_frame f)) (filled d);
  di_exclusive : NoDup (leases d);
  di_bound : Z.of_nat (length (sh_ready (rv_shared d))) +
    match loader_claims (rv_loader d) with Some _ => 1 | None => 0 end <= rv_prefetch_frames d;
  di_retry : match rv_replay d with ReplayPublish _ result => retryable result = true | _ => True end;
  di_counter : sh_ready_frames (rv_shared d) = Z.of_nat (length (sh_ready (rv_shared d)))
}.

Lemma init_inv n p : 0 < n < 2 ^ 64 -> 0 <= p -> replay_device_inv 0 (init_device n p shared_new).
Proof. intros Hn Hp. split; cbn; try done; try lia. constructor. Qed.

Lemma inv_mono a b d : a <= b -> replay_device_inv a d -> replay_device_inv b d.
Proof. intros Hab []. split; try done. lia. Qed.

Lemma notified_inv b d : replay_device_inv b d -> replay_device_inv b (notified d).
Proof.
  destruct d as [n p [rn fl q rf nx ep] l r ev ft de me ac].
  assert (forall e, loader_frame e (loader_wakes l) = loader_frame e l) as E1 by (by destruct l).
  assert (replay_frame (replay_wakes r) = replay_frame r) as E2 by (by destruct r).
  intros []. split; unfold pending, filled, leases in *; cbn in *; rewrite ?E1, ?E2; try done.
  all: destruct l, r; cbn in *; done.
Qed.

Lemma consecutive_drop n k a b c : consecutive n k (a ++ b ++ c) -> consecutive n k (a ++ b ++ []).
Proof. rewrite app_nil_r, app_assoc. by intros [? _]%consecutive_app. Qed.
Lemma NoDup_snoc_fresh {A} (l1 l2 : list A) x : NoDup (l1 ++ l2 ++ []) -> x ∉ l1 ++ l2 ++ [] -> NoDup (l1 ++ l2 ++ [x]).
Proof.
  rewrite !app_nil_r, app_assoc. intros Hd Hx. apply list.NoDup_app.
  split; [done|]. split; [|apply list.NoDup_singleton]. by intros y Hy ->%list_elem_of_singleton.
Qed.
Lemma NoDup_drop_last {A} (l1 l2 l3 : list A) : NoDup (l1 ++ l2 ++ l3) -> NoDup (l1 ++ l2 ++ []).
Proof. rewrite app_nil_r, app_assoc. by intros [? _]%list.NoDup_app. Qed.
Lemma Forall_drop_last {A} (P : A -> Prop) l1 l2 l3 : Forall P (l1 ++ l2 ++ l3) -> Forall P (l1 ++ l2 ++ []).
Proof. rewrite app_nil_r, app_assoc. by intros [? _]%Forall_app. Qed.
#[local] Hint Resolve consecutive_drop NoDup_drop_last Forall_drop_last : core.

Ltac device_cases := unfold pending, filled, leases in *; cbn -[app notified] in *.

(** Reading into the loader's slot leaves the filled ones alone. *)
Lemma fill_keeps (me : gmap nat Z) r q f s :
  let held := match r with ReplayPublish x _ => [x] | _ => [] end in
  NoDup (replay_lease r ++ (pf_lease <$> q) ++ [s]) ->
  Forall (fun x => me !! pf_lease x = Some (pf_dataset_frame x)) (held ++ q ++ []) ->
  Forall (fun x => <[s := f]> me !! pf_lease x = Some (pf_dataset_frame x)) (held ++ q ++ [mkPreparedFrame f s]).
Proof.
  intros held Hex Hme. rewrite app_nil_r in Hme. rewrite app_assoc. apply Forall_app. split.
  - apply list.Forall_forall. intros x Hx. rewrite lookup_insert_ne; [rewrite list.Forall_forall in Hme; by apply Hme|].
    intros ->. rewrite app_assoc in Hex. apply list.NoDup_app in Hex as (_ & Hno & _).
    apply (Hno (pf_lease x)); [|by left]. apply elem_of_app. apply elem_of_app in Hx as [Hx|Hx].
    + left. unfold held in Hx. destruct r; try by apply elem_of_nil in Hx. apply list_elem_of_singleton in Hx as ->. by left.
    + right. by apply list_elem_of_fmap_2.
  - constructor; [|constructor]. by rewrite lookup_insert_eq.
Qed.

Lemma loader_inv b acquired failure d d' :
  b < 2 ^ 64 -> replay_device_inv b d -> loader_step acquired failure d = Some d' -> replay_device_inv b d'.
Proof.
  destruct d as [n p [rn fl q rf nx ep] l r ev ft de me ac]. intros Hb Hi.
  pose proof Hi as [Hn Hep Hcl Hnx Hor Hld Hac Hev Hme Hex Hbd Hrt Hct]. device_cases.
  destruct l as [| | | |f e|f e s|f e s|what| | |]; cbn [loader_step rv_loader rv_shared sh_running].
  - intros [= <-]. destruct rn; split; device_cases; done.
  - destruct (mutex_free _); [|done]. cbn [negb sh_ready rv_prefetch_frames rv_frame_count].
    destruct rn; cbn [andb negb]; [|intros [= <-]; split; device_cases; done].
    destruct (Z.ltb_spec (Z.of_nat (length q)) p); cbn [negb]; intros [= <-]; [|split; device_cases; done].
    rewrite (wrap_small 64) by (unfold in_range; lia).
    split; device_cases; rewrite ?Z.eqb_refl; try done; try lia.
    + intros e [= <-]. lia.
    + apply Z.mod_pos_bound. lia.
    + intros Hr. specialize (Hor Hr). specialize (Hld Hr eq_refl eq_refl).
      rewrite !app_nil_r in *. rewrite app_assoc. apply consecutive_app. split; [done|]. by split.
    + intros Hr _ _. rewrite (Hld Hr eq_refl eq_refl). rewrite !length_app. cbn [length].
      rewrite Zplus_mod_idemp_l. f_equal. lia.
  - intros [= <-]. split; device_cases; done.
  - done.
  - destruct rn; cbn [negb].
    + destruct acquired as [s|]; [|by intros [= <-]]. case_bool_decide as Hs; [done|]. intros [= <-].
      split; device_cases; try done. by apply NoDup_snoc_fresh.
    + intros [= <-]. split; device_cases; eauto; try done; lia.
  - destruct rn; cbn [negb rv_frame_count]; [|intros [= <-]; split; device_cases; eauto; try done; lia].
    destruct (n <=? f); [intros [= <-]; split; device_cases; eauto; try done; lia|].
    destruct failure as [what|]; intros [= <-]; [split; device_cases; eauto; try done; lia|].
    split; device_cases; try done. by apply fill_keeps.
  - destruct (mutex_free _); [|done]. cbn [negb sh_load_epoch].
    destruct rn; cbn [andb]; [|intros [= <-]; split; device_cases; eauto; try done; lia].
    destruct (Z.eqb_spec e ep) as [->|Hne]; intros <-%(inj Some).
    + cbn [loader_frame] in *. rewrite Z.eqb_refl in *. apply notified_inv.
      split; device_cases; rewrite ?fmap_app, <-?app_assoc, ?app_nil_r; try done; rewrite length_app; cbn [length]; lia.
    + cbn [loader_frame] in *. rewrite (proj2 (Z.eqb_neq e ep)) in * by done. split; device_cases; eauto; try done; lia.
  - destruct (mutex_free _); [|done]. intros [= <-]. split; device_cases; done.
  - intros [= <-]. split; device_cases; done.
  - intros <-%(inj Some). apply notified_inv. split; device_cases; done.
  - done.
Qed.

Lemma loader_claims_frame epoch l : loader_claims l = None \/ (exists e, loader_claims l = Some e /\ e <> epoch) -> loader_frame epoch l = [].
Proof.
  destruct l as [| | | |f e|f e s|f e s| | | |]; cbn; try done; intros [|(e' & [= <-] & Hne)]; try done;
    by rewrite (proj2 (Z.eqb_neq _ _)).
Qed.

(** A restart: nothing is pending and the loader's claim is stale. *)
Lemma restart_frame ep b l :
  0 <= ep <= b -> b + 1 < 2 ^ 64 -> (forall e, loader_claims l = Some e -> e <= ep) ->
  u64 (ep + 1) = ep + 1 /\ loader_frame (ep + 1) l = [].
Proof.
  intros He Hb Hc. split; [apply wrap_small; unfold in_range; lia|]. apply loader_claims_frame.
  destruct (loader_claims l) as [e|]; [|by left]. right. exists e. split; [done|]. specialize (Hc e eq_refl). lia.
Qed.

Lemma accepted_snoc n count : accepted_frames n (S count) = accepted_frames n count ++ [accepted_frame n (Z.of_nat count)].
Proof.
  unfold accepted_frames. rewrite Nat2Z.inj_succ, <-Z.add_1_r, seqZ_app by lia. rewrite fmap_app. done.
Qed.

Lemma restart_inv b n p sh l f s result ev ft de me ac :
  let d := mkReplayDevice n p sh l (ReplayResult f s result) ev ft de me ac in
  b + 1 < 2 ^ 64 -> result <> PR_Accepted -> replay_device_inv b d ->
  replay_device_inv (b + 1) (with_replay d (restart_prefetch sh f) ReplayTop).
Proof.
  destruct sh as [rn fl q rf nx ep]. intros d Hb Hr Hi. unfold d in *. clear d.
  assert (replay_frame (ReplayResult f s result) = [f]) as Ef by (by destruct result).
  pose proof Hi as [Hn Hep Hcl Hnx Hor Hld Hac Hev Hme Hex Hbd Hrt Hct].
  destruct (restart_frame ep b l) as [E1 E2]; [done..|]. device_cases. rewrite Ef in *.
  specialize (Hor eq_refl). destruct Hor as [Hf _].
  assert (0 <= f < n) by (rewrite Hf; apply Z.mod_pos_bound; lia).
  split; device_cases; rewrite ?E1, ?E2; try done; try lia.
  - intros e He. specialize (Hcl e He). lia.
  - intros _ _ _. cbn. by rewrite Z.add_0_r.
  - by destruct result.
  - apply Forall_app in Hme as [_ Hme]. by apply Forall_app in Hme as [_ Hme].
  - apply list.NoDup_app in Hex as (_ & _ & Hex). by apply list.NoDup_app in Hex as (_ & _ & Hex).
Qed.

(** The result of the publish loop is acted on. *)
Lemma result_inv b sessions answer n p sh l f s result ev ft de me ac d' :
  let d := mkReplayDevice n p sh l (ReplayResult f s result) ev ft de me ac in
  b + 1 < 2 ^ 64 -> replay_device_inv b d -> replay_step sessions answer d = Some d' -> replay_device_inv (b + 1) d'.
Proof.
  intros d Hb Hi. pose proof (inv_mono b (b + 1) d ltac:(lia) Hi) as [Hn Hep Hcl Hnx Hor Hld Hac Hev Hme Hex Hbd Hrt Hct].
  destruct sh as [rn fl q rf nx ep]. unfold d in *.
  assert (NoDup ((pf_lease <$> q) ++ loader_lease l)) as Hex' by (apply list.NoDup_app in Hex as (_ & _ & ?); done).
  destruct result; cbn [replay_step rv_replay rv_shared];
    try (destruct (mutex_free _); [cbn [negb]|done]); intros <-%(inj Some).
  all: try (apply notified_inv; by apply (restart_inv b)).
  all: device_cases; split; device_cases; try done.
  rewrite Hev. unfold wrap. rewrite Zplus_mod_idemp_l. f_equal. lia.
Qed.

Lemma replay_publish_inv b sessions answer n p sh l f result ev ft de me ac d' :
  let d := mkReplayDevice n p sh l (ReplayPublish f result) ev ft de me ac in
  replay_device_inv b d -> replay_step sessions answer d = Some d' -> replay_device_inv b d'.
Proof.
  intros d Hi. pose proof Hi as [Hn Hep Hcl Hnx Hor Hld Hac Hev Hme Hex Hbd Hrt Hct]. destruct sh as [rn fl q rf nx ep].
  unfold d in *. clear d. cbn [replay_step rv_replay rv_shared sh_running]. device_cases.
  specialize (Hor eq_refl) as [Hf Hor]. apply Forall_cons_1 in Hme as [Hm Hme].
  apply list.NoDup_app in Hex as (Hf1 & Hf2 & Hex).
  destruct (rn && retryable result) eqn:Hrun.
  - apply andb_true_iff in Hrun as [-> _]. destruct (retryable answer) eqn:Hans.
    + intros [= <-]. split; device_cases; try done; [by constructor|]. by apply list.NoDup_app.
    + intros <-%(inj Some). case_bool_decide as Hacc.
      * subst answer. split; device_cases; rewrite ?length_app; cbn [length]; try done; try lia.
        -- intros _. replace (Z.of_nat (length ac + 1)) with (Z.of_nat (length ac) + 1) by lia. done.
        -- intros _ Hl _. rewrite (Hld eq_refl Hl eq_refl), !length_app. cbn [length]. f_equal. lia.
        -- rewrite Nat.add_1_r, accepted_snoc, <-Hac. unfold accepted_frame. rewrite Hm, Hf, Hev.
           by rewrite Z.sub_0_r.
        -- rewrite Hev. f_equal. lia.
      * assert (replay_frame (ReplayResult (pf_dataset_frame f) None answer) = [pf_dataset_frame f]) as Ef by (by destruct answer).
        split; device_cases; rewrite ?Ef; try done. by destruct answer.
  - rewrite Hrt, andb_true_r in Hrun. subst rn. intros [= <-].
    assert (replay_frame (ReplayResult (pf_dataset_frame f) (Some (pf_lease f)) result) = [pf_dataset_frame f]) as Ef
      by (by destruct result).
    split; device_cases; rewrite ?Ef; try done; [by destruct result|]. by apply list.NoDup_app.
Qed.

Lemma replay_inv b sessions answer d d' :
  b + 1 < 2 ^ 64 -> replay_device_inv b d -> replay_step sessions answer d = Some d' -> replay_device_inv (b + 1) d'.
Proof.
  destruct d as [n p sh l r ev ft de me ac]. intros Hb Hi.
  pose proof (inv_mono b (b + 1) _ ltac:(lia) Hi) as Hi'.
  pose proof Hi' as [Hn Hep Hcl Hnx Hor Hld Hac Hev Hme Hex Hbd Hrt Hct].
  destruct sh as [rn fl q rf nx ep]. destruct r as [| | | | | |f result|f s result| |].
  7: by apply (replay_publish_inv (b + 1)). 7: by apply (result_inv b).
  all: cbn [replay_step rv_replay rv_shared sh_running]; device_cases.
  - intros [= <-]. destruct rn; split; device_cases; done.
  - destruct (rn && _); intros [= <-]; [done|]. split; device_cases; done.
  - intros [= <-]. destruct rn; split; device_cases; done.
  - destruct (mutex_free _); [|done]. cbn [negb sh_loader_failure sh_ready].
    destruct fl as [what|]; [intros [= <-]; split; device_cases; done|].
    destruct q as [|f q]; [intros [= <-]; destruct rn; split; device_cases; done|].
    destruct rn; [|intros [= <-]; split; device_cases; done].
    intros <-%(inj Some). apply notified_inv. split; device_cases; try done; lia.
  - intros [= <-]. split; device_cases; done.
  - done.
  - destruct (mutex_free _); [|done]. cbn [negb sh_loader_failure].
    destruct fl as [what|]; intros [= <-]; split; device_cases; done.
  - done.
Qed.

Lemma delete_inv b d d' : replay_device_inv b d -> delete_step d = Some d' -> replay_device_inv b d'.
Proof.
  destruct d as [n p [rn fl q rf nx ep] l r ev ft de me ac]. intros Hi.
  pose proof Hi as [Hn Hep Hcl Hnx Hor Hld Hac Hev Hme Hex Hbd Hrt Hct]. device_cases.
  destruct de; cbn [delete_step rv_delete rv_shared rv_loader rv_replay].
  - intros [= <-]. split; device_cases; done.
  - intros <-%(inj Some). apply notified_inv. split; device_cases; done.
  - destruct l; try done. intros [= <-]. split; device_cases; done.
  - destruct r; try done. intros [= <-]. split; device_cases; try done; try lia.
    + by apply Forall_app in Hme as [_ Hme%Forall_app]; apply Hme.
    + apply list.NoDup_app in Hex as (_ & _ & Hex). by apply list.NoDup_app in Hex as (_ & _ & Hex).
  - done.
Qed.

Lemma replay_run_inv inputs b d :
  b + Z.of_nat (length inputs) < 2 ^ 64 -> replay_device_inv b d -> replay_device_inv (b + Z.of_nat (length inputs)) (replay_run inputs d).
Proof.
  revert b d. induction inputs as [|i inputs IH]; intros b d Hb Hi; cbn [length] in *.
  { by rewrite Z.add_0_r. }
  assert (replay_device_inv (b + 1) (default d (replay_device_step i d))) as Hs.
  { destruct (replay_device_step i d) as [d'|] eqn:Hd; cbn [default]; [|by apply (inv_mono b); [lia|]].
    destruct i; cbn [replay_device_step] in Hd.
    - apply (inv_mono b); [lia|]. eapply loader_inv; [lia|done..].
    - eapply replay_inv; [lia|done..].
    - apply (inv_mono b); [lia|]. by eapply delete_inv.
    - injection Hd as <-. apply (inv_mono b); [lia|]. by apply notified_inv. }
  replace (b + Z.of_nat (S (length inputs))) with (b + 1 + Z.of_nat (length inputs)) by lia.
  apply IH; [lia|done].
Qed.

Lemma device_step_constants i d d' :
  replay_device_step i d = Some d' -> rv_frame_count d' = rv_frame_count d /\ rv_prefetch_frames d' = rv_prefetch_frames d.
Proof.
  destruct d as [n p [rn fl q rf nx ep] l r ev ft de me ac].
  destruct i; cbn [replay_device_step]; unfold loader_step, replay_step, delete_step; intros H;
    simplify_eq/=; repeat (case_match; simplify_eq/=); done.
Qed.
Lemma device_run_constants inputs d :
  rv_frame_count (replay_run inputs d) = rv_frame_count d /\ rv_prefetch_frames (replay_run inputs d) = rv_prefetch_frames d.
Proof.
  revert d. induction inputs as [|i inputs IH]; intros d; [done|].
  cbn [replay_run foldl]. fold (replay_run inputs (default d (replay_device_step i d))).
  destruct (IH (default d (replay_device_step i d))) as [-> ->].
  destruct (replay_device_step i d) as [d'|] eqn:Hs; [|done]. by apply (device_step_constants i).
Qed.

Lemma leases_bound b d : replay_device_inv b d -> Z.of_nat (length (leases d)) <= rv_prefetch_frames d + 1.
Proof.
  intros Hi. pose proof (di_bound _ _ Hi). unfold leases. rewrite !length_app, length_fmap.
  assert (Z.of_nat (length (loader_lease (rv_loader d))) <= match loader_claims (rv_loader d) with Some _ => 1 | None => 0 end)
    by (destruct (rv_loader d); cbn; lia).
  assert (length (replay_lease (rv_replay d)) <= 1)%nat by (destruct (rv_replay d) as [| | | | | | |? [] ?| |]; cbn; lia).
  lia.
Qed.

(** C23: the replay device publishes the dataset in order, over and over, without a gap. Whatever the
    interleaving of its threads and of [delete_device], the answers of the publisher -- back-pressure,
    lost sessions, stalls that restart the prefetch -- and the failures of HDF5, the [i]-th frame the
    publisher accepts is frame [i mod N] of the dataset, carries [i] as its event counter, and its slot
    holds that frame. The device never has more leases than its prefetch depth and one, no two of them
    the same, of the ring of twice that depth it configured. *)
Theorem replay_in_order frame_count prefetch inputs :
  0 < frame_count < 2 ^ 64 -> 1 <= prefetch -> Z.of_nat (length inputs) < 2 ^ 64 ->
  let d := replay_run inputs (init_device frame_count prefetch shared_new) in
  rv_accepted d = accepted_frames frame_count (length (rv_accepted d)) /\
  NoDup (leases d) /\ Z.of_nat (length (leases d)) <= prefetch + 1 <= 2 * prefetch /\
  sh_ready_frames (rv_shared d) = Z.of_nat (length (sh_ready (rv_shared d))) /\
  sh_ready_frames (rv_shared d) <= prefetch.
Proof.
  intros Hn Hp Hl d.
  assert (replay_device_inv (0 + Z.of_nat (length inputs)) d) as Hi by (apply replay_run_inv; [lia|]; apply init_inv; lia).
  destruct (device_run_constants inputs (init_device frame_count prefetch shared_new)) as [En Ep]. fold d in En, Ep.
  cbn in En, Ep. pose proof (leases_bound _ _ Hi) as Hb. rewrite Ep in Hb.
  pose proof (di_bound _ _ Hi) as Hq. rewrite Ep in Hq.
  split; [rewrite <-En; apply (di_accepted _ _ Hi)|]. split; [apply (di_exclusive _ _ Hi)|]. split; [lia|].
  pose proof (di_counter _ _ Hi). split; [done|]. destruct (loader_claims (rv_loader d)); lia.
Qed.

(** Two frames, one of prefetch: the second frame is published only after the credit stalled once. *)
Definition sample_replay : list ReplayInput :=
  let load s := replicate 3 (ByLoader (Some s) None) ++ [ByLoader (Some s) None; ByLoader (Some s) None] in
  let publish a := replicate 4 (ByReplay 1 a) ++ [ByReplay 1 a; ByReplay 1 a] in
  load 0%nat ++ publish PR_Accepted ++ load 1%nat ++ publish PR_CreditStalled ++ load 1%nat ++ publish PR_Accepted ++
  load 0%nat ++ publish PR_Accepted.

Lemma replay_in_order_witness :
  let d := replay_run sample_replay (init_device 2 1 shared_new) in
  rv_accepted d = [(0, 0, Some 0); (1, 1, Some 1); (0, 2, Some 0)] /\ rv_accepted d = accepted_frames 2 3.
Proof.
  pose proof (replay_in_order 2 1 sample_replay ltac:(lia) ltac:(lia) ltac:(vm_compute; reflexivity)) as (H & _).
  cbv zeta. assert (rv_accepted (replay_run sample_replay (init_device 2 1 shared_new)) =
    [(0, 0, Some 0); (1, 1, Some 1); (0, 2, Some 0)]) as E by (vm_compute; reflexivity).
  split; [exact E|]. rewrite H, E. reflexivity.
Defined.

(** ** Shutdown *)

(** What can move without a spurious wake-up. *)
Definition quiescent (d : ReplayDevice) : Prop :=
  (forall acquired failure, loader_step acquired failure d = None) /\
  (forall sessions answer, replay_step sessions answer d = None) /\ delete_step d = None.

(** The replay thread has stopped; the loader finds its queue full, and [delete_device] stores
    [running_] and notifies before the loader is waiting. *)
Definition lost_wakeup : list ReplayInput :=
  replicate 5 (ByLoader (Some 0%nat) None) ++ replicate 2 (ByLoader None None) ++ [ByDelete; ByDelete; ByLoader None None] ++
  replicate 3 (ByReplay 0 PR_Accepted).

(** [delete_device] can wait for ever. [running_] is stored and [ready_changed_] notified without
    [ready_mutex_], so a loader that has just found its queue full, and is not yet waiting, misses the
    notification: the replay thread ends, nothing notifies again, and the join never returns unless
    the wait wakes spuriously. Nor is this the only end: with the loader waiting already, the same steps
    of [delete_device] let every thread finish. *)
Theorem shutdown_can_hang :
  let d := replay_run lost_wakeup (init_device 4 1 shared_new) in
  sh_running (rv_shared d) = false /\ rv_delete d = DeleteJoinLoader /\ rv_loader d = LoaderBlocked /\ quiescent d /\
  rv_delete (replay_run (replicate 8 (ByLoader (Some 0%nat) None) ++ [ByDelete; ByDelete; ByLoader None None] ++
    replicate 3 (ByReplay 0 PR_Accepted) ++ [ByDelete; ByDelete]) (init_device 4 1 shared_new)) = DeleteDone.
Proof. vm_compute. split_all; try reflexivity; by intros. Qed.

(** ** A failure outlives [Init] *)

Lemma failure_step i d d' what :
  replay_device_step i d = Some d' -> sh_loader_failure (rv_shared d) = Some what -> replay_frame (rv_replay d) = [] ->
  rv_accepted d = [] ->
  (exists what', sh_loader_failure (rv_shared d') = Some what') /\ replay_frame (rv_replay d') = [] /\ rv_accepted d' = [].
Proof.
  destruct d as [n p [rn fl q rf nx ep] l r ev ft de me ac]. cbn. intros Hs -> Hr ->.
  destruct i; cbn [replay_device_step] in Hs; unfold loader_step, replay_step, delete_step in Hs; simplify_eq/=;
    repeat (case_match; simplify_eq/=); split_all; try done; try (by eexists); by destruct r.
Qed.

(** Tango's [Init] is [delete_device] then [init_device], on the same object: [loader_failure_] is kept. *)
Theorem failure_outlives_init frame_count prefetch sh what inputs :
  sh_loader_failure sh = Some what -> rv_accepted (replay_run inputs (init_device frame_count prefetch sh)) = [].
Proof.
  intros Hf. set (d := init_device frame_count prefetch sh).
  assert ((exists w, sh_loader_failure (rv_shared d) = Some w) /\ replay_frame (rv_replay d) = [] /\ rv_accepted d = []) as Hd
    by (destruct sh; cbn in *; eauto).
  clearbody d. revert d Hd. induction inputs as [|i inputs IH]; intros d ([w Hw] & Hr & Ha); [done|].
  apply IH. destruct (replay_device_step i d) as [d'|] eqn:Hs; cbn [default]; [by eapply failure_step|eauto].
Qed.
