(* ===== verification/ExampleDevices.v ===== *)
(** * The example devices

    [examples/example_device/example_device.cpp], a detector whose frame size is an attribute, and
    [examples/example_preview/example_preview.cpp], a stream beside an ordinary preview
    attribute.  The publisher is that of [Publisher]; its answers are inputs of the acquisition
    loops, which are cut where another thread can be seen. *)
From stdpp Require Import list.
From S2P Require Import Prelude Enums Limits ByteOrder Geometry Text Config PinnedLedger.
From S2P Require Import DeliveryQueue RegisteredRing ProducerSlots Publisher Hdf5Shards Hdf5Source.

(** ** Options and configuration *)

Definition k_width : Z := 2048.
Definition k_height : Z := 2048.
Definition k_frame_bytes : Z := k_width * k_height * 2.

Record ExampleOptions : Type := mkExampleOptions { eo_ring_depth : Z; eo_credit_window : Z }.
Definition ExampleOptions_default : ExampleOptions := mkExampleOptions 32 16.

(** The value after an option: what is left of the arguments. *)
Definition parse_value (name : bytes) (rest : list bytes) : hres (Z * list bytes) :=
  match rest with
  | [] => Err (name ++ str " requires a value")
  | text :: rest =>
      let! value := stoul text in
      guard! negb ((value =? 0) || (k_max_ring_depth <? value)) else name ++ str " is outside the supported range" in
      Val (u32 value, rest)
  end.

(** The loop of [parse_options]; [fuel] is the number of arguments. *)
Fixpoint example_arguments (fuel : nat) (arguments tango : list bytes) (o : ExampleOptions)
    : hres (list bytes * ExampleOptions) :=
  match fuel, arguments with
  | S fuel, argument :: rest =>
      if bool_decide (argument = str "--publisher-ring-depth") then
        let! (value, rest) := parse_value argument rest in
        example_arguments fuel rest tango (mkExampleOptions value (eo_credit_window o))
      else if bool_decide (argument = str "--publisher-credit-window") then
        let! (value, rest) := parse_value argument rest in
        example_arguments fuel rest tango (mkExampleOptions (eo_ring_depth o) value)
      else example_arguments fuel rest (tango ++ [argument]) o
  | _, _ => Val (tango, o)
  end.
Definition example_options (arguments : list bytes) : hres (list bytes * ExampleOptions) :=
  let! (tango, o) := example_arguments (length arguments) arguments [] ExampleOptions_default in
  guard! eo_credit_window o <=? eo_ring_depth o else str "publisher credit window cannot exceed ring depth" in
  Val (tango, o).

(** [init_device] of the detector and of the preview device. *)
Definition detector_config (o : ExampleOptions) : PublisherConfig :=
  let padded_ring_bytes := u64 ((k_frame_bytes + 4096) * eo_ring_depth o) in
  mkPublisherConfig (str "image") (mkFrameMetadata ET_UInt16 0 2 [k_height; k_width; 0; 0] array4_zero 0 0 0 0 Host Little)
    k_frame_bytes (eo_ring_depth o) (eo_credit_window o) 4 BestEffort 256 10000 3333 10
    (if 2 ^ 30 <? padded_ring_bytes then padded_ring_bytes else 2 ^ 30) [] (-1) true.
Definition preview_config : PublisherConfig :=
  mkPublisherConfig (str "image") FrameMetadata_default k_frame_bytes 16 8 4 BestEffort 256 10000 3333 10 (2 ^ 30) [] (-1) true.

(** ** The detector *)

(** Where [acquire] is: with a lease, after the loads of the width and of the height, before [publish]. *)
Inductive DetectorAt : Type :=
| DetectorTop | DetectorLeased | DetectorWidth (width : Z) | DetectorSized (width height : Z)
| DetectorFilled (width height : Z) | DetectorDone.

Record Detector : Type := mkDetector {
  dt_acquiring : bool;
  dt_frame_width : Z;
  dt_frame_height : Z;
  dt_fill_payload : bool;
  dt_frame : Z;
  dt_at : DetectorAt
}.
Definition Detector_new : Detector := mkDetector true k_width k_height true 0 DetectorTop.
Definition detector_at (d : Detector) (a : DetectorAt) : Detector :=
  let '(mkDetector q w h p f _) := d in mkDetector q w h p f a.

(** [write_configuration] of the frame's width or height, and of [fillPayload]. *)
Definition write_geometry (d : Detector) (is_width : bool) (value : Z) : hres Detector :=
  let '(mkDetector q w h p f a) := d in
  let other := if is_width then h else w in
  if (value =? 0) || (k_frame_bytes / 2 / other <? value)
  then Err (str "frameWidth * frameHeight * sizeof(uint16_t) must be between 1 byte and 8 MiB")
  else Val (if is_width then mkDetector q value h p f a else mkDetector q w value p f a).
Definition write_fill_payload (d : Detector) (value : bool) : Detector :=
  let '(mkDetector q w h _ f a) := d in mkDetector q w h value f a.

Definition detector_metadata (width height frame : Z) : FrameMetadata :=
  mkFrameMetadata ET_UInt16 0 2 [height; width; 0; 0] array4_zero 0 0 frame 0 Host Little.

(** One step of [acquire]: [leased] is whether [try_acquire] finds a slot, [answer] what [publish] returns.  A
    [memset] past the slot is a [Fault]. *)
Definition acquire_step_detector (leased : bool) (answer : PublishResult) (d : Detector) : hres Detector :=
  let go a := Val (detector_at d a) in
  match dt_at d with
  | DetectorTop => go (if dt_acquiring d then if leased then DetectorLeased else DetectorTop else DetectorDone)
  | DetectorLeased => go (DetectorWidth (dt_frame_width d))
  | DetectorWidth w => go (DetectorSized w (dt_frame_height d))
  | DetectorSized w h =>
      if dt_fill_payload d && (k_frame_bytes <? u64 (w * h * 2)) then Fault else go (DetectorFilled w h)
  | DetectorFilled _ _ =>
      let '(mkDetector q w h p f _) := d in
      Val (mkDetector q w h p (if bool_decide (answer = PR_Accepted) then u64 (f + 1) else f) DetectorTop)
  | DetectorDone => Val d
  end.

Inductive DetectorInput : Type :=
| WriteGeometry (is_width : bool) (value : Z)
| WriteFill (value : bool)
| StopAcquiring
| Acquire (leased : bool) (answer : PublishResult).

(** A refused write changes nothing. *)
Definition detector_step (i : DetectorInput) (d : Detector) : hres Detector :=
  match i with
  | WriteGeometry is_width value => match write_geometry d is_width value with Err _ => Val d | r => r end
  | WriteFill value => Val (write_fill_payload d value)
  | StopAcquiring => let '(mkDetector _ w h p f a) := d in Val (mkDetector false w h p f a)
  | Acquire leased answer => acquire_step_detector leased answer d
  end.
Fixpoint detector_run (inputs : list DetectorInput) (d : Detector) : hres Detector :=
  match inputs with
  | [] => Val d
  | i :: inputs => let! d := detector_step i d in detector_run inputs d
  end.

(** ** The preview *)

Definition k_preview_width : Z := 64.
Definition k_preview_height : Z := 64.
Definition k_preview_period : Z := 100.

(** [preview_due] at [now], in milliseconds: whether it is, and the last preview. *)
Definition preview_due (last now : Z) : bool * Z := if now - last <? k_preview_period then (false, last) else (true, now).

(** [downsample], element [y * 64 + x] of the preview: a read past the frame is a [Fault]. *)
Definition sample (pixels : list Z) (y x : Z) : hres Z :=
  let source_y := u64 (y * k_height) / k_preview_height in
  let source_x := u64 (x * k_width) / k_preview_width in
  let at_ := u64 (u64 (source_y * k_width) + source_x) in
  match pixels !! Z.to_nat at_ with
  | Some v => Val (Z.shiftr v 8 mod 256)
  | None => Fault
  end.
Fixpoint samples (pixels : list Z) (indices : list Z) : hres (list Z) :=
  match indices with
  | [] => Val []
  | i :: indices =>
      let! v := sample pixels (i / k_preview_width) (i mod k_preview_width) in
      let! vs := samples pixels indices in
      Val (v :: vs)
  end.
Definition downsample (pixels : list Z) : hres (list Z) := samples pixels (seqZ 0 (k_preview_width * k_preview_height)).

(** The previews among the turns of [acquire] at these times. *)
Fixpoint preview_times (last : Z) (times : list Z) : list Z :=
  match times with
  | [] => []
  | now :: times => let '(due, last) := preview_due last now in
                    if due then now :: preview_times last times else preview_times last times
  end.

(** ** The configuration is accepted *)

Lemma parse_value_range name rest value rest' : parse_value name rest = Val (value, rest') -> 1 <= value <= 1024.
Proof.
  destruct rest as [|text rest]; [done|]. cbn [parse_value]. destruct (stoul text) as [v| |] eqn:Hs; [|done..]. cbn [outcome_bind].
  assert (0 <= v) as Hv.
  { unfold stoul in Hs. destruct (scan_unsigned text) as [[[neg z] r]|] eqn:Hz; [|done].
    apply scan_unsigned_nonneg in Hz. destruct (2 ^ 64 <=? z); [done|]. injection Hs as <-.
    destruct neg; [apply (wrap_in_range 64); lia|done]. }
  change k_max_ring_depth with 1024. destruct (Z.eqb_spec v 0), (Z.ltb_spec 1024 v); try done. cbn [negb orb].
  intros [= <- _]. rewrite wrap_small by (unfold in_range; lia). lia.
Qed.

Definition example_options_ok (o : ExampleOptions) : Prop := 1 <= eo_ring_depth o <= 1024 /\ 1 <= eo_credit_window o <= 1024.

Lemma example_arguments_ok fuel arguments tango o tango' o' :
  example_options_ok o -> example_arguments fuel arguments tango o = Val (tango', o') -> example_options_ok o'.
Proof.
  revert arguments tango o. induction fuel as [|fuel IH]; intros [|a rest] tango o Ho; cbn [example_arguments]; try by intros [= _ <-].
  repeat case_bool_decide; [| |by apply IH].
  all: destruct (parse_value a rest) as [[v r]| |] eqn:Hv; [|done..]; cbn [outcome_bind]; apply parse_value_range in Hv;
    apply IH; destruct Ho; split; cbn; lia.
Qed.

Lemma example_stride : compute_stride k_frame_bytes true = k_frame_bytes + 4096.
Proof. reflexivity. Qed.

(** For every command line that is accepted the configuration is valid, except for a ring of one slot, which the
    library refuses; and with nothing else pinned in the process the ring is within the limit the device asks for, its
    padding included. *)
Theorem detector_ring_fits arguments tango o uerr address
  (Ho : example_options arguments = Val (tango, o)) :
  let c := detector_config o in
  PublisherConfig_validate c = (if eo_ring_depth o =? 1 then DepthTooLarge else Ok) /\
  exists r total, ring_allocated uerr 0 (pc_max_frame_bytes c) (pc_ring_depth c) (pc_pad_slot_stride c)
    (pc_pinned_memory_limit_bytes c) (str "publisher")
    (Mapped (Queried address ((k_frame_bytes + 4096) * eo_ring_depth o))) = (Val r, total) /\
    total = (k_frame_bytes + 4096) * eo_ring_depth o.
Proof.
  unfold example_options in Ho. destruct (example_arguments _ _ _ _) as [[t o1]| |] eqn:Ha; [|done..]. cbn [outcome_bind] in Ho.
  destruct (Z.leb_spec (eo_credit_window o1) (eo_ring_depth o1)) as [Hcw|]; [|done]. injection Ho as <- <-.
  apply example_arguments_ok in Ha as [Hd Hw]; [|by split]. intros c.
  assert (pc_pinned_memory_limit_bytes c = Z.max (2 ^ 30) ((k_frame_bytes + 4096) * eo_ring_depth o1)) as Hlim.
  { unfold c, detector_config. cbn [pc_pinned_memory_limit_bytes]. change k_frame_bytes with 8388608.
    rewrite wrap_small by (unfold in_range; lia). destruct (Z.ltb_spec (2 ^ 30) ((8388608 + 4096) * eo_ring_depth o1)); lia. }
  split.
  - unfold PublisherConfig_validate, validate_common. rewrite Hlim.
    unfold c, detector_config.
    cbn [pc_stream_name pc_frame_metadata pc_max_frame_bytes pc_ring_depth pc_credit_window pc_max_sessions
      pc_fanout_mode pc_publish_queue_depth pc_lease_ttl_ms pc_renew_interval_ms pc_max_renewals_per_ttl
      pc_engine_cpu_affinity].
    change (is_valid_stream_name _) with true. change (snd (resolve _ _)) with Ok. change k_frame_bytes with 8388608.
    change k_min_ring_depth with 2. change k_max_ring_depth with 1024. change k_min_pinned_bytes with 16777216.
    change k_max_pinned_bytes with 68719476736. cbn [negb].
    change ((8388608 <? k_min_frame_bytes) || (k_max_frame_bytes_hard_cap <? 8388608)) with false. cbv iota.
    destruct (Z.eqb_spec (eo_ring_depth o1) 1) as [->|]; [done|].
    rewrite !(proj2 (Z.ltb_ge _ _)) by lia. done.
  - unfold ring_allocated, checked_region_bytes. rewrite Hlim. unfold c, detector_config.
    cbn [pc_max_frame_bytes pc_ring_depth pc_pad_slot_stride]. rewrite example_stride. change k_frame_bytes with 8388608.
    rewrite (proj2 (Z.ltb_ge (uint64_max / _) _)) by (apply Z.div_le_lower_bound; unfold uint64_max; lia).
    rewrite andb_false_r, wrap_small by (unfold in_range; lia).
    unfold ucx_allocated, acquire. rewrite try_acquire_exact by (unfold in_range; lia).
    rewrite bool_decide_eq_true_2 by lia. rewrite (proj2 (Z.eqb_neq _ 0)) by lia. rewrite !Z.ltb_irrefl. cbn [negb].
    do 2 eexists. split; [done|lia].
Qed.

(** ** A frame and its slot *)

(** The pair of attributes describes a frame that fits, and so does what [acquire] has loaded. *)
Definition fits (width height : Z) : Prop := 1 <= width /\ 1 <= height /\ width * height * 2 <= k_frame_bytes.
Definition detector_ok (d : Detector) : Prop :=
  fits (dt_frame_width d) (dt_frame_height d) /\
  match dt_at d with
  | DetectorWidth w => w = dt_frame_width d
  | DetectorSized w h | DetectorFilled w h => fits w h
  | _ => True
  end.

Lemma fits_half w h : 1 <= h -> 1 <= w -> w <= k_frame_bytes / 2 / h -> fits w h.
Proof.
  intros Hh Hw Hle. change (k_frame_bytes / 2) with 4194304 in Hle. unfold fits. change k_frame_bytes with 8388608.
  pose proof (Z.mul_div_le 4194304 h ltac:(lia)). nia.
Qed.

(** No attribute of the geometry is written between the two loads. *)
Definition write_waits (i : DetectorInput) (d : Detector) : Prop :=
  match i, dt_at d with WriteGeometry _ _, DetectorWidth _ => False | WriteGeometry _ v, _ => 0 <= v | _, _ => True end.
Fixpoint writes_wait (inputs : list DetectorInput) (d : Detector) : Prop :=
  match inputs with
  | [] => True
  | i :: inputs => write_waits i d /\ forall d', detector_step i d = Val d' -> writes_wait inputs d'
  end.

Lemma detector_step_ok i d : detector_ok d -> write_waits i d -> exists d', detector_step i d = Val d' /\ detector_ok d'.
Proof.
  destruct d as [q w h p f a]. intros [Hf Ha] Hw. cbn in Hf, Ha. destruct i as [is_width v|v| |leased answer]; cbn [detector_step].
  - cbn [write_geometry]. destruct ((v =? 0) || (k_frame_bytes / 2 / (if is_width then h else w) <? v)) eqn:Hg.
    { exists (mkDetector q w h p f a). by split; [|split]. }
    apply orb_false_iff in Hg as [Hv Hle]. apply Z.eqb_neq in Hv. apply Z.ltb_ge in Hle. destruct Hf as (Hw1 & Hh1 & _).
    eexists. split; [done|]. unfold write_waits in Hw. cbn in Hw.
    assert (match a with DetectorSized w h | DetectorFilled w h => fits w h | _ => True end) by (by destruct a).
    destruct is_width; (split; [|by destruct a]); cbn; [apply fits_half; destruct a; lia|].
    assert (fits v w) as (? & ? & ?) by (apply fits_half; destruct a; lia). unfold fits. lia.
  - eexists. split; [done|]. by split.
  - eexists. split; [done|]. by split.
  - unfold acquire_step_detector. cbn [dt_at dt_fill_payload].
    destruct a as [| |w0|w0 h0|w0 h0|]; cbn [detector_at]; try (eexists; split; [done|]; split; cbn; done).
    + eexists; split; [done|]. split; [done|]. cbn. by destruct q, leased.
    + eexists; split; [done|]. split; [done|]. cbn in *. by subst w0.
    + destruct Ha as (? & ? & Hb). rewrite wrap_small by (unfold in_range; change k_frame_bytes with 8388608 in Hb; nia).
      rewrite (proj2 (Z.ltb_ge _ _)), andb_false_r by done. eexists; split; [done|]. by split.
Qed.

(** Another client resizes the frame between the two loads: a wide row, then a tall column. *)
Definition resize_race : list DetectorInput :=
  [WriteGeometry false 1; WriteGeometry true 4194304; Acquire true PR_Accepted; Acquire true PR_Accepted;
   WriteGeometry true 1; WriteGeometry false 4194304; Acquire true PR_Accepted; Acquire true PR_Accepted].

(** filling a frame stays inside its slot when nobody writes the geometry between the loads of the width and of the
    height: every write is checked against the other attribute. It does not otherwise: the two loads are not one, and
    writes that are each accepted, between them, make the device fill 32 TiB from a slot of 8 MiB. *)
Theorem detector_fill_safe_unless_resized :
  (forall inputs, writes_wait inputs Detector_new -> exists d, detector_run inputs Detector_new = Val d /\
     fits (dt_frame_width d) (dt_frame_height d)) /\
  detector_run resize_race Detector_new = Fault.
Proof.
  split; [|by vm_compute]. assert (detector_ok Detector_new) as Hd by done. revert Hd. generalize Detector_new as d.
  intros d Hd inputs. revert d Hd. induction inputs as [|i inputs IH]; intros d Hd Hw.
  { exists d. split; [done|]. apply Hd. }
  destruct Hw as [Hi Hrest]. destruct (detector_step_ok i d Hd Hi) as (d' & Hs & Hd'). cbn [detector_run]. rewrite Hs. cbn [outcome_bind].
  apply IH; [done|]. by apply Hrest.
Qed.

(** The geometry is an attribute in name only: the stream is configured with 2048 by 2048 pixels and [publish] refuses
    every other array, so after a resize no frame is ever sent. *)
Theorem resized_frames_refused {QS QP} `{BoundedFifo QS nat} `{BoundedFifo QP PublishItem} (s : Impl QS QP) lease width height frame now contended o c :
  resolve_config (detector_config o) = Val c -> im_config s = c -> im_running s = true -> sh_slots lease = true ->
  fits width height -> (width, height) <> (k_width, k_height) ->
  publish s lease (detector_metadata width height frame) now contended =
  let! (s, lease) := drop_lease (count s dropped_bad_metadata) lease in Val (PR_BadMetadata, s, lease).
Proof.
  intros Hc Hs Hrun Hl Hfit Hne. unfold publish. rewrite Hl, Hrun. cbn [negb].
  assert (fm_rank (pc_frame_metadata c) = 2 /\ fm_shape (pc_frame_metadata c) = [k_height; k_width; 0; 0]) as [Hr Hsh].
  { unfold resolve_config in Hc. apply bind_val_inv in Hc as (c1 & Hc1 & Hc). destruct (bool_decide (PublisherConfig_validate c1 <> Ok)); [done|]. injection Hc as ->.
    change (bool_decide _ && _) with false in Hc1. cbv iota in Hc1.
    pose proof (resolve_spec (pc_frame_metadata (detector_config o)) (pc_max_frame_bytes (detector_config o))) as Hsp.
    destruct (resolve _ _) as [m []]; try done. injection Hc1 as <-. cbn [pc_frame_metadata].
    destruct Hsp as [Hok _]. destruct (Hok eq_refl) as (_ & (_ & -> & -> & _) & _). done. }
  pose proof (resolve_spec (detector_metadata width height frame) (pc_max_frame_bytes (im_config s))) as Hsp.
  destruct (resolve _ _) as [m st]. rewrite Hs. destruct (bool_decide (st <> Ok) || _) eqn:Hst; [done|].
  apply orb_false_iff in Hst as [Hst _]. apply bool_decide_eq_false in Hst. rewrite Hr. cbn [Z.ltb Z.compare andb].
  assert (fm_shape m = [height; width; 0; 0]) as Hm.
  { destruct Hsp as [Hok _]. destruct (decide (st = Ok)) as [->|]; [|done]. by destruct (Hok eq_refl) as (_ & (_ & _ & -> & _) & _). }
  unfold describes_same_array. rewrite Hm, Hsh.
  rewrite (bool_decide_eq_false_2 ([height; width; 0; 0] = _)); [by rewrite andb_false_r|].
  intros [= -> ->]. done.
Qed.

(** ** The preview *)

Lemma sample_value pixels i :
  length pixels = Z.to_nat (k_width * k_height) -> 0 <= i < k_preview_width * k_preview_height ->
  exists v, pixels !! Z.to_nat (32 * (i / 64) * 2048 + 32 * (i mod 64)) = Some v /\
    sample pixels (i / k_preview_width) (i mod k_preview_width) = Val (Z.shiftr v 8 mod 256).
Proof.
  unfold k_width, k_height, k_preview_width, k_preview_height. intros Hlen Hi.
  pose proof (Z.mod_pos_bound i 64 ltac:(lia)). pose proof (Z.div_mod i 64 ltac:(lia)).
  assert (0 <= i / 64 < 64) by (split; [apply Z.div_pos|apply Z.div_lt_upper_bound]; lia).
  unfold sample, k_width, k_height, k_preview_width, k_preview_height.
  rewrite (wrap_small 64 (i / 64 * 2048)), (wrap_small 64 (i mod 64 * 2048)) by (unfold in_range; lia).
  replace (i / 64 * 2048) with (32 * (i / 64) * 64) by lia. replace (i mod 64 * 2048) with (32 * (i mod 64) * 64) by lia.
  rewrite !Z.div_mul by lia. rewrite (wrap_small 64 (32 * (i / 64) * 2048)), wrap_small by (unfold in_range; lia).
  destruct (lookup_lt_is_Some_2 pixels (Z.to_nat (32 * (i / 64) * 2048 + 32 * (i mod 64)))) as [v Hv]; [lia|].
  rewrite Hv. by exists v.
Qed.

(** The preview of any frame is the high byte of every 32nd pixel of every 32nd row; sampling never leaves the frame. *)
Theorem preview_samples_frame pixels (Hlen : length pixels = Z.to_nat (k_width * k_height)) :
  exists preview, downsample pixels = Val preview /\ Z.of_nat (length preview) = k_preview_width * k_preview_height /\
    forall i, 0 <= i < k_preview_width * k_preview_height -> exists v,
      pixels !! Z.to_nat (32 * (i / 64) * 2048 + 32 * (i mod 64)) = Some v /\
      preview !! Z.to_nat i = Some (Z.shiftr v 8 mod 256).
Proof.
  enough (forall indices, Forall (fun i => 0 <= i < k_preview_width * k_preview_height) indices ->
    exists preview, samples pixels indices = Val preview /\ length preview = length indices /\
    forall k i, indices !! k = Some i -> exists v, pixels !! Z.to_nat (32 * (i / 64) * 2048 + 32 * (i mod 64)) = Some v /\
      preview !! k = Some (Z.shiftr v 8 mod 256)) as H.
  { destruct (H (seqZ 0 (k_preview_width * k_preview_height))) as (preview & Hp & Hl & Hat).
    { apply Forall_seqZ. lia. }
    exists preview. split; [done|]. rewrite Hl, length_seqZ. split; [done|]. intros i Hi.
    apply (Hat (Z.to_nat i)). rewrite lookup_seqZ_lt by lia. f_equal. lia. }
  intros indices Hall. induction Hall as [|i indices Hi Hall IH]; [by exists []|]. cbn [samples].
  destruct (sample_value pixels i Hlen Hi) as (v & Hv & ->). destruct IH as (preview & -> & Hl & Hat). cbn [outcome_bind].
  eexists. split; [done|]. split; [cbn; by rewrite Hl|]. intros [|k] j; cbn [lookup list_lookup]; [|apply Hat].
  intros [= <-]. by exists v.
Qed.

(** Previews are pushed at most once in every 100 ms, however often frames are acquired. *)
Lemma previews_rate_capped last times i a b :
  preview_times last times !! i = Some a -> preview_times last times !! S i = Some b -> k_preview_period <= b - a.
Proof.
  assert (forall times last x, head (preview_times last times) = Some x -> k_preview_period <= x - last) as Hhead.
  { clear. induction times as [|now times IH]; intros last x; [done|]. cbn [preview_times]. unfold preview_due.
    destruct (Z.ltb_spec (now - last) k_preview_period); [apply IH|]. by intros [= <-]. }
  revert last i. induction times as [|now times IH]; intros last i; [done|]. cbn [preview_times]. unfold preview_due.
  destruct (Z.ltb_spec (now - last) k_preview_period); [apply IH|]. destruct i as [|i]; cbn [lookup list_lookup]; [|apply IH].
  intros [= <-] Hb. apply (Hhead times now). by rewrite head_lookup.
Qed.
