(* ===== verification/Handles.v ===== *)
(** * Handles borrowed from the system

    A monad for the parts of the example programs and the benchmark that open descriptors,
    child processes, mappings and HDF5 objects, throw when a call fails and release what
    they hold on the way out ([src/examples/example_hdf5_client] and
    [src/benchmarks/oob.h]).  The state has the variables of the source by name, and what
    the system has open for the process; releasing what is not open is a [Fault].  What a
    call answers and the numbers it hands out are parameters.  The rules [wp_*] and the
    tactic [wp_step] carry the proofs. *)
From stdpp Require Import gmap strings.
From S2P Require Import Prelude.
#[local] Open Scope Z_scope.

(** ** What is open *)

Inductive Kind : Type := Descriptor | Process | Region | ShmName | AddrInfo | Hid.
#[export] Instance Kind_eq_dec : EqDecision Kind.
Proof. solve_decision. Defined.
#[export, refine] Instance Kind_countable : Countable Kind :=
  inj_countable' (fun k => match k with Descriptor => 0 | Process => 1 | Region => 2 | ShmName => 3 | AddrInfo => 4 | Hid => 5 end)%nat
    (fun n => match n with 0 => Descriptor | 1 => Process | 2 => Region | 3 => ShmName | 4 => AddrInfo | _ => Hid end)%nat _.
Proof. by intros []. Defined.
Abbreviation Handle := (Kind * Z)%type.

(** What a descriptor refers to, and whether it is closed when a program is started. *)
Inductive Target : Type := ParentEnd | ChildEnd | RingMemory | Listener | Connection | Other.
#[export] Instance Target_eq_dec : EqDecision Target.
Proof. solve_decision. Defined.
Record Held : Type := mkHeld { hd_target : Target; hd_cloexec : bool }.
#[export] Instance Held_eq_dec : EqDecision Held.
Proof. solve_decision. Defined.
Abbreviation Table := (gmap Handle Held).

(** [mc_actions] is a [posix_spawn_file_actions_t] that was initialised, [mc_child] the
    descriptors of the child that was started last; [mc_asked] counts the calls whose
    answer is the system's, [mc_closes] the closing calls that may fail. *)
Record Machine : Type := mkMachine {
  mc_vars : string -> Z;
  mc_open : Table;
  mc_actions : option (list (Z * Z));
  mc_child : option Table;
  mc_asked : nat;
  mc_closes : nat
}.
Definition set_open (o : Table) (s : Machine) : Machine :=
  mkMachine (mc_vars s) o (mc_actions s) (mc_child s) (mc_asked s) (mc_closes s).
Definition assigned (x : string) (v : Z) (vars : string -> Z) (y : string) : Z := if String.eqb y x then v else vars y.
Definition set_var (x : string) (v : Z) (s : Machine) : Machine :=
  mkMachine (assigned x v (mc_vars s)) (mc_open s) (mc_actions s) (mc_child s) (mc_asked s) (mc_closes s).
Definition set_actions (a : option (list (Z * Z))) (s : Machine) : Machine :=
  mkMachine (mc_vars s) (mc_open s) a (mc_child s) (mc_asked s) (mc_closes s).
Definition set_child (c : option Table) (s : Machine) : Machine :=
  mkMachine (mc_vars s) (mc_open s) (mc_actions s) c (mc_asked s) (mc_closes s).

(** Every variable starts at [-1], which is what the source has for "none". *)
Definition machine (open : Table) : Machine := mkMachine (fun _ => -1) open None None 0 0.

(** ** Programs *)

Definition proc (A : Type) : Type := Machine -> outcome bytes A * Machine.
#[export] Instance proc_ret : MRet proc := fun A a s => (Val a, s).
#[export] Instance proc_bind : MBind proc := fun A B k m s =>
  match m s with
  | (Val a, s) => k a s
  | (Err e, s) => (Err e, s)
  | (Fault, s) => (Fault, s)
  end.
Definition raise {A} (e : bytes) : proc A := fun s => (Err e, s).
Definition fault {A} : proc A := fun s => (Fault, s).
(** [try { body } catch(...) { handler; throw; }] *)
Definition cleanup {A} (body : proc A) (handler : proc unit) : proc A := fun s =>
  match body s with
  | (Err e, s) => match handler s with (Val _, s) => (Err e, s) | (Err e', s) => (Err e', s) | (Fault, s) => (Fault, s) end
  | r => r
  end.
(** [try { body } catch(...) { handler }]: whether it threw. *)
Definition caught (body handler : proc unit) : proc bool := fun s =>
  match body s with
  | (Err e, s) => match handler s with (Val _, s) => (Val true, s) | (Err e', s) => (Err e', s) | (Fault, s) => (Fault, s) end
  | (Val _, s) => (Val false, s)
  | (Fault, s) => (Fault, s)
  end.
Definition var (x : string) : proc Z := fun s => (Val (mc_vars s x), s).
Definition assign (x : string) (v : Z) : proc unit := fun s => (Val tt, set_var x v s).
Definition gets {A} (f : Machine -> A) : proc A := fun s => (Val (f s), s).
Definition update (f : Machine -> Machine) : proc unit := fun s => (Val tt, f s).
(** [if(x >= 0) body] *)
Definition when_set (x : string) (body : Z -> proc unit) : proc unit :=
  v ← var x; if 0 <=? v then body v else mret tt.
Definition of_outcome {A} (r : outcome bytes A) : proc A := fun s => (r, s).

Section System.
(** Whether the [n]th call succeeds, whether the [n]th closing call does, and the number
    a new handle gets, at least so much. *)
Context (ans closes : nat -> bool) (next : Kind -> Z -> Table -> Z).

Definition ask : proc bool := fun s =>
  (Val (ans (mc_asked s)), mkMachine (mc_vars s) (mc_open s) (mc_actions s) (mc_child s) (S (mc_asked s)) (mc_closes s)).
(** A call that returns a status only. *)
Definition checked (what : bytes) : proc unit := ok ← ask; if (ok : bool) then mret tt else raise what.
Definition open_handle (k : Kind) (least : Z) (h : Held) : proc Z := fun s =>
  let n := next k least (mc_open s) in (Val n, set_open (<[(k, n) := h]> (mc_open s)) s).
(** A call that opens something or fails. *)
Definition checked_open (k : Kind) (least : Z) (h : Held) (what : bytes) : proc Z :=
  checked what;; open_handle k least h.
Definition close_handle (k : Kind) (n : Z) : proc unit := fun s =>
  match mc_open s !! (k, n) with
  | Some _ => (Val tt, set_open (delete (k, n) (mc_open s)) s)
  | None => (Fault, s)
  end.
(** A closing call that may fail, and then leaves the handle open. *)
Definition close_may_fail (k : Kind) (n : Z) : proc bool := fun s =>
  match mc_open s !! (k, n) with
  | Some _ =>
      let ok := closes (mc_closes s) in
      (Val ok, mkMachine (mc_vars s) (if ok then delete (k, n) (mc_open s) else mc_open s) (mc_actions s) (mc_child s)
         (mc_asked s) (S (mc_closes s)))
  | None => (Fault, s)
  end.
End System.

(** ** Rules *)

Definition wp {A} (m : proc A) (Q : outcome bytes A -> Machine -> Prop) (s : Machine) : Prop :=
  let '(r, s') := m s in Q r s'.

Lemma wp_run {A} (m : proc A) Q s : wp m Q s -> Q (fst (m s)) (snd (m s)).
Proof. unfold wp. by destruct (m s). Qed.

Lemma wp_weaken {A} (m : proc A) (Q Q' : outcome bytes A -> Machine -> Prop) s :
  wp m Q s -> (forall r s', Q r s' -> Q' r s') -> wp m Q' s.
Proof. unfold wp. destruct (m s). auto. Qed.

Lemma wp_ret {A} (a : A) Q s : Q (Val a) s -> wp (mret a) Q s.
Proof. done. Qed.
Lemma wp_raise {A} e (Q : outcome bytes A -> Machine -> Prop) s : Q (Err e) s -> wp (raise e) Q s.
Proof. done. Qed.
Lemma wp_of_outcome {A} (r : outcome bytes A) Q s : Q r s -> wp (of_outcome r) Q s.
Proof. done. Qed.

Lemma wp_bind {A B} (m : proc A) (k : A -> proc B) Q s :
  wp m (fun r s => match r with Val a => wp (k a) Q s | Err e => Q (Err e) s | Fault => Q Fault s end) s ->
  wp (m ≫= k) Q s.
Proof. unfold wp, mbind, proc_bind. destruct (m s) as [[]]; cbn; auto. Qed.

Lemma wp_cleanup {A} (body : proc A) handler Q s :
  wp body (fun r s => match r with
    | Err e => wp handler (fun r s => match r with Val _ => Q (Err e) s | Err e' => Q (Err e') s | Fault => Q Fault s end) s
    | r => Q r s end) s ->
  wp (cleanup body handler) Q s.
Proof. unfold wp, cleanup. destruct (body s) as [[] s']; auto. by destruct (handler s') as [[]]. Qed.

Lemma wp_caught body handler Q s :
  wp body (fun r s => match r with
    | Err e => wp handler (fun r s => match r with Val _ => Q (Val true) s | Err e' => Q (Err e') s | Fault => Q Fault s end) s
    | Val _ => Q (Val false) s
    | Fault => Q Fault s end) s ->
  wp (caught body handler) Q s.
Proof. unfold wp, caught. destruct (body s) as [[] s']; auto. by destruct (handler s') as [[]]. Qed.

Lemma wp_var x Q s : Q (Val (mc_vars s x)) s -> wp (var x) Q s.
Proof. done. Qed.
Lemma wp_assign x v Q s : Q (Val tt) (set_var x v s) -> wp (assign x v) Q s.
Proof. done. Qed.

Lemma wp_gets {A} (f : Machine -> A) Q s : Q (Val (f s)) s -> wp (gets f) Q s.
Proof. done. Qed.
Lemma wp_update f Q s : Q (Val tt) (f s) -> wp (update f) Q s.
Proof. done. Qed.

Section Rules.
Context {ans closes : nat -> bool} {next : Kind -> Z -> Table -> Z}.
(** A new number is not in use. *)
Definition hands_out (next : Kind -> Z -> Table -> Z) : Prop :=
  forall k least o, 0 <= least -> o !! (k, next k least o) = None /\ least <= next k least o.
Context (Hnext : hands_out next).

Lemma wp_ask Q s :
  (forall b n, Q (Val b) (mkMachine (mc_vars s) (mc_open s) (mc_actions s) (mc_child s) n (mc_closes s))) ->
  wp (ask ans) Q s.
Proof. intros H. apply H. Qed.

Lemma wp_checked what Q s :
  (forall n, let s' := mkMachine (mc_vars s) (mc_open s) (mc_actions s) (mc_child s) n (mc_closes s) in
    Q (Val tt) s' /\ Q (Err what) s') ->
  wp (checked ans what) Q s.
Proof. intros H. apply wp_bind, wp_ask. intros [] n; apply H. Qed.

Lemma wp_open k least h Q s :
  0 <= least ->
  (forall n, least <= n -> mc_open s !! (k, n) = None -> Q (Val n) (set_open (<[(k, n) := h]> (mc_open s)) s)) ->
  wp (open_handle next k least h) Q s.
Proof using Hnext. intros Hl H. destruct (Hnext k least (mc_open s) Hl). by apply H. Qed.

Lemma wp_close k n Q s :
  is_Some (mc_open s !! (k, n)) -> Q (Val tt) (set_open (delete (k, n) (mc_open s)) s) -> wp (close_handle k n) Q s.
Proof. intros [h Hh] H. unfold wp, close_handle. by rewrite Hh. Qed.

(** When closing calls do not fail. *)
Lemma wp_close_checked k n Q s :
  (forall i, closes i = true) -> is_Some (mc_open s !! (k, n)) ->
  (forall i, Q (Val true) (mkMachine (mc_vars s) (delete (k, n) (mc_open s)) (mc_actions s) (mc_child s) (mc_asked s) i)) ->
  wp (close_may_fail closes k n) Q s.
Proof. intros Hc [h Hh] H. unfold wp, close_may_fail. rewrite Hh, Hc. apply H. Qed.
End Rules.

(** ** Tables *)

Lemma handle_fresh_ne (o : Table) k n h k' n' :
  <[(k, n) := h]> o !! (k', n') = None -> (k, n) <> (k', n') /\ o !! (k', n') = None.
Proof. intros [H1 H2]%lookup_insert_None. done. Qed.

(** A lookup, and an equality of tables, by cases on the handles named in them. *)
Ltac table_facts :=
  repeat match goal with
    | H : <[_ := _]> _ !! _ = None |- _ => apply handle_fresh_ne in H as [? H]
    | H : delete _ _ !! _ = None |- _ => rewrite lookup_delete_ne in H by congruence
    end.
Ltac table_lookup :=
  table_facts;
  repeat first [rewrite lookup_insert_eq | rewrite lookup_insert_ne by congruence | rewrite lookup_delete_ne by congruence
               | rewrite lookup_delete_eq];
  try done; try by eauto.
Ltac table_eq :=
  table_facts;
  repeat first
    [ done
    | rewrite delete_insert_id by first [done | table_lookup]
    | rewrite delete_insert_ne by congruence
    | rewrite delete_insert_eq
    | rewrite delete_id by first [done | table_lookup] ].

(** A system that counts up. *)
Definition counting (k : Kind) (least : Z) (o : Table) : Z := Z.max least (1 + map_fold (fun h _ m => Z.max m (snd h)) 0 o).
Lemma counting_hands_out : hands_out counting.
Proof.
  intros k least o Hl. unfold counting. split; [|lia].
  assert (forall h x, o !! h = Some x -> snd h <= map_fold (fun h _ m => Z.max m (snd h)) 0 o) as Hmax.
  { induction o as [|i x m Hi Hfold IH] using map_first_key_ind; [by intros h x|]. intros h y Hh.
    rewrite map_fold_insert_first_key by done. apply lookup_insert_Some in Hh as [[-> _]|[_ Hh]]; [lia|].
    assert (0 <= least) as Hl' by done. specialize (IH h y Hh). lia. }
  destruct (o !! (k, _)) as [x|] eqn:E; [|done]. apply Hmax in E. cbn [snd] in E. lia.
Qed.

(** ** Automation *)

Ltac wp_simpl :=
  cbv beta iota zeta delta [set_open set_var set_actions set_child machine];
  cbn [mc_vars mc_open mc_actions mc_child mc_asked mc_closes fst snd negb hd_target hd_cloexec];
  cbn [assigned String.eqb Ascii.eqb Bool.eqb];
  repeat match goal with |- context [0 <=? -1] => change (0 <=? -1) with false; cbv iota | |- context [-1 <? 0] => change (-1 <? 0) with true end.

(** A comparison whose outcome the context knows. *)
Ltac known_bool b :=
  first
    [ replace b with true by (symmetry; lia)
    | replace b with false by (symmetry; lia) ]; cbv iota.

(** One step of the program, by its first command. *)
Ltac wp_step :=
  lazymatch goal with
  | |- wp (_ ≫= _) _ _ => apply wp_bind
  | |- wp (mret _) _ _ => apply wp_ret
  | |- wp (raise _) _ _ => apply wp_raise
  | |- wp (cleanup _ _) _ _ => apply wp_cleanup
  | |- wp (caught _ _) _ _ => apply wp_caught
  | |- wp (var _) _ _ => apply wp_var
  | |- wp (assign _ _) _ _ => apply wp_assign
  | |- wp (when_set _ _) _ _ => apply wp_bind
  | |- wp (of_outcome _) _ _ => apply wp_of_outcome
  | |- wp (gets _) _ _ => apply wp_gets
  | |- wp (update _) _ _ => apply wp_update
  | |- wp (checked _ _) _ _ => apply wp_checked; intros ?; split
  | |- wp (ask _) _ _ => apply wp_ask; intros [] ?
  | |- wp (checked_open _ _ _ _ _ _) _ _ => apply wp_bind
  | |- wp (open_handle _ _ _ _) _ _ => eapply wp_open; [eassumption|lia|let H := fresh "Hfree" in intros ? ? H; cbn [mc_open] in H]
  | |- wp (close_handle _ _) _ _ => apply wp_close; [wp_simpl; table_lookup|]
  | |- wp (close_may_fail _ _ _) _ _ => apply wp_close_checked; [done|wp_simpl; table_lookup|intros ?]
  | |- wp (if ?b then _ else _) _ _ => first [known_bool b | destruct b eqn:?]
  end; wp_simpl.
Ltac wp_steps := repeat wp_step.
