(* ===== verification/WriterProcess.v ===== *)
(** * The writer processes of the HDF5 client: who holds what

    [SharedReceiveRing] and the life of a [ShardWorker] in
    [src/examples/example_hdf5_client/example_hdf5_client.cpp]: the shared memory, the
    socket pair, the child that is started and waited for, and what is released on each
    path -- on the monad of [Handles].  What the two processes say to each other is in
    [Hdf5Writer] and [Hdf5Acquire]; here an exchange is its outcome. *)
From stdpp Require Import gmap strings.
From S2P Require Import Prelude Text Hdf5Shards Handles.
#[local] Open Scope Z_scope.

Definition k_writer_control_fd : Z := 3.
Definition k_writer_ring_fd : Z := 4.

Section WriterProcess.
Context (ans : nat -> bool) (next : Kind -> Z -> Table -> Z).
#[local] Abbreviation ask := (ask ans).
#[local] Abbreviation checked := (checked ans).
#[local] Abbreviation open_handle := (open_handle next).

(** ** The shared memory *)

(** The loop over names: an attempt finds a name that exists, or opens it, or fails for
    another reason.  The name is the number of the attempt. *)
Fixpoint shm_open_loop (attempts : nat) (attempt : Z) : proc unit :=
  match attempts with
  | O => mret tt
  | S attempts =>
      assign "name" attempt;;
      taken ← (o ← gets mc_open; mret (bool_decide (is_Some (o !! (ShmName, attempt)))));
      if (taken : bool) then assign "fd_" (-1);; shm_open_loop attempts (attempt + 1) else
      ok ← ask;
      if (ok : bool) then
        update (fun s => set_open (<[(ShmName, attempt) := mkHeld RingMemory false]> (mc_open s)) s);;
        fd ← open_handle Descriptor 0 (mkHeld RingMemory true); assign "fd_" fd
      else assign "fd_" (-1)
  end.

(** [close(fd_)], [fd_ = -1]. *)
Definition close_var (x : string) : proc unit := v ← var x; close_handle Descriptor v;; assign x (-1).

(** The constructor: [bytes] as checked, then the descriptor and the mapping. *)
Definition ring_create (bytes : Z) : proc unit :=
  if (bytes =? 0) || (2 ^ 63 - 1 <? bytes) then raise (str "shared receive-ring size is not representable") else
  shm_open_loop 100 0;;
  fd ← var "fd_";
  (if fd <? 0 then raise (str "shm_open(receive ring)") else mret tt);;
  name ← var "name"; close_handle ShmName name;;
  ok ← ask;
  (if (ok : bool) then mret tt else close_var "fd_";; raise (str "ftruncate(receive ring)"));;
  ok ← ask;
  (if (ok : bool) then mapping ← open_handle Region 1 (mkHeld RingMemory false); assign "memory_" mapping
   else close_var "fd_";; raise (str "mmap(receive ring)")).

(** The deleter of [memory_], run by its last owner. *)
Definition ring_unmap : proc unit := mapping ← var "memory_"; close_handle Region mapping.
(** The destructor; [shared] is whether the subscription still has the memory. *)
Definition ring_destroy (shared : bool) : proc unit :=
  (if shared then mret tt else ring_unmap);;
  when_set "fd_" (fun fd => close_handle Descriptor fd).

(** ** The child *)

(** [fcntl(fd, F_DUPFD_CLOEXEC, 64)] into [x]. *)
Definition duplicate (x : string) (fd : Z) : proc unit :=
  ok ← ask; o ← gets mc_open;
  match o !! (Descriptor, fd) with
  | Some h => if (ok : bool) then n ← open_handle Descriptor 64 (mkHeld (hd_target h) true); assign x n else assign x (-1)
  | None => assign x (-1)
  end.

(** [posix_spawn_file_actions_*]: only on an object that was initialised. *)
Definition actions_init : proc bool := ok ← ask; if (ok : bool) then update (set_actions (Some []));; mret true else mret false.
Definition actions_destroy : proc unit :=
  actions ← gets mc_actions;
  match actions with Some _ => update (set_actions None) | None => fault end.
Definition actions_adddup2 (from to : Z) : proc bool :=
  actions ← gets mc_actions;
  match actions with
  | Some l => ok ← ask; if (ok : bool) then update (set_actions (Some (l ++ [(from, to)])));; mret true else mret false
  | None => fault
  end.

(** The descriptors of a child: the parent's, with the actions done in order and the ones
    marked close-on-exec gone.  [dup2] clears the mark. *)
Definition dup2 (o : Table) (action : Z * Z) : Table :=
  match o !! (Descriptor, fst action) with
  | Some h => <[(Descriptor, snd action) := mkHeld (hd_target h) false]> o
  | None => o
  end.
Definition child_table (o : Table) (actions : list (Z * Z)) : Table :=
  filter (fun p => fst (fst p) = Descriptor /\ hd_cloexec (snd p) = false) (foldl dup2 o actions).

Definition posix_spawn : proc bool :=
  actions ← gets mc_actions;
  match actions with
  | Some l =>
      ok ← ask;
      if (ok : bool) then
        update (fun s => set_child (Some (child_table (mc_open s) l)) s);;
        pid ← open_handle Process 1 (mkHeld Other false); assign "child_pid_" pid;; mret true
      else mret false
  | None => fault
  end.

(** [reap_child]: the turns that [EINTR] repeats, and how the child ended -- its exit code,
    or [None] for a signal.  [waitpid] fails when there is no such child. *)
Record ChildStatus : Type := mkChildStatus { ce_interrupts : nat; ce_status : option Z }.
Fixpoint waitpid_loop (interrupts : nat) (pid : Z) : proc bool :=
  match interrupts with
  | S interrupts => waitpid_loop interrupts pid
  | O => o ← gets mc_open;
         if bool_decide (is_Some (o !! (Process, pid))) then close_handle Process pid;; mret true else mret false
  end.
Definition reap_child (require_success : bool) (ce : ChildStatus) : proc unit :=
  pid ← var "child_pid_";
  if pid <=? 0 then mret tt else
  waited ← waitpid_loop (ce_interrupts ce) pid;
  assign "child_pid_" (-1);;
  if negb waited && require_success then raise (str "waitpid(HDF5 writer)")
  else if require_success && negb (bool_decide (ce_status ce = Some 0)) then raise (str "HDF5 writer process exited unsuccessfully")
  else mret tt.

(** [start_child].  [exchange] is what the configuration, the file name and the answer of
    the child come to. *)
Record WorkerInput : Type := mkWorkerInput {
  wi_filename_size : Z;
  wi_index : Z;
  wi_exchange : hres unit;
  wi_child : ChildStatus
}.
Definition spawn_body (i : WorkerInput) (ring_fd : Z) : proc unit :=
  parent ← var "sockets[0]"; child ← var "sockets[1]";
  duplicate "child_socket_copy" child;; duplicate "ring_fd_copy" ring_fd;;
  child_copy ← var "child_socket_copy"; ring_copy ← var "ring_fd_copy";
  (if (child_copy <? 0) || (ring_copy <? 0) then raise (str "fcntl(writer descriptors)") else mret tt);;
  ok ← actions_init;
  (if (ok : bool) then assign "actions_initialized" 1 else raise (str "posix_spawn_file_actions_init"));;
  ok ← (ok ← actions_adddup2 child_copy k_writer_control_fd;
        if (ok : bool) then actions_adddup2 ring_copy k_writer_ring_fd else mret false);
  (if (ok : bool) then mret tt else raise (str "posix_spawn_file_actions_adddup2"));;
  ok ← posix_spawn;
  (if (ok : bool) then mret tt else raise (str "posix_spawn"));;
  pid ← var "child_pid_"; assign "process_id_" pid;;
  actions_destroy;; assign "actions_initialized" (-1);;
  close_var "child_socket_copy";; close_var "ring_fd_copy";; close_var "sockets[1]";;
  assign "socket_" parent;; assign "sockets[0]" (-1);;
  (if (2 ^ 32 - 1 <? wi_filename_size i) || (2 ^ 32 - 1 <? wi_index i)
   then raise (str "writer filename or index is too large") else mret tt);;
  of_outcome (wi_exchange i).
Definition spawn_cleanup (i : WorkerInput) : proc unit :=
  when_set "actions_initialized" (fun _ => actions_destroy);;
  when_set "child_socket_copy" (close_handle Descriptor);;
  when_set "ring_fd_copy" (close_handle Descriptor);;
  when_set "sockets[0]" (close_handle Descriptor);;
  when_set "sockets[1]" (close_handle Descriptor);;
  when_set "socket_" (fun _ => close_var "socket_");;
  reap_child false (wi_child i).
Definition start_child (i : WorkerInput) (ring_fd : Z) : proc unit :=
  ok ← ask;
  if negb ok then raise (str "socketpair(HDF5 writer)") else
  parent ← open_handle Descriptor 0 (mkHeld ParentEnd true); assign "sockets[0]" parent;;
  child ← open_handle Descriptor 0 (mkHeld ChildEnd true); assign "sockets[1]" child;;
  cleanup (spawn_body i ring_fd) (spawn_cleanup i).

(** ** The worker *)

(** The constructor. *)
Definition worker_create (i : WorkerInput) (ring_fd : Z) : proc unit :=
  start_child i ring_fd;;
  ok ← ask;
  if (ok : bool) then assign "thread_" 1
  else close_var "socket_";; reap_child false (wi_child i);; raise (str "thread").

(** [run]: [drained] is how the loop over the blocks ends, [stopped] what the last exchange
    comes to; whether the worker failed. *)
Definition worker_run (drained stopped : hres unit) (ce : ChildStatus) : proc bool :=
  caught (of_outcome drained;; of_outcome stopped;; close_var "socket_";; reap_child true ce)
    (when_set "socket_" (fun _ => close_var "socket_");; reap_child false ce).

(** [stop_noexcept], once the thread is joined. *)
Definition worker_destroy (ce : ChildStatus) : proc unit :=
  assign "thread_" (-1);; when_set "socket_" (fun _ => close_var "socket_");; reap_child false ce.

Definition worker_end (drained stopped : hres unit) (ce : ChildStatus) : proc bool :=
  failed ← worker_run drained stopped ce; worker_destroy ce;; mret failed.
End WriterProcess.

(** ** All the workers *)

(** What a worker will meet, and a worker: its members, the descriptors its child was
    started with, and how its thread and its child end. *)
Record WorkerPlan : Type := mkWorkerPlan {
  wp_input : WorkerInput;
  wp_answers : nat -> bool;
  wp_drained : hres unit;
  wp_stopped : hres unit
}.
Record Worker : Type := mkWorker { wk_plan : WorkerPlan; wk_vars : string -> Z; wk_sees : option Table }.

Definition worker_destroyed (w : Worker) (o : Table) : outcome bytes bool * Table :=
  let p := wk_plan w in
  let '(r, s) := worker_end (wp_drained p) (wp_stopped p) (wi_child (wp_input p)) (mkMachine (wk_vars w) o None None 0 0) in
  (r, mc_open s).
(** The vector of workers goes. *)
Fixpoint workers_destroy (ws : list Worker) (o : Table) : outcome bytes (list bool) * Table :=
  match ws with
  | [] => (Val [], o)
  | w :: ws =>
      match worker_destroyed w o with
      | (Val failed, o) => match workers_destroy ws o with (Val l, o) => (Val (failed :: l), o) | r => r end
      | (Err e, o) => (Err e, o)
      | (Fault, o) => (Fault, o)
      end
  end.

(** The constructor of [ParallelShardWriter]: a worker that throws takes the ones before it
    along. *)
Fixpoint workers_create (next : Kind -> Z -> Table -> Z) (plans : list WorkerPlan) (ring_fd : Z) (made : list Worker) (o : Table)
    : outcome bytes (list Worker) * Table :=
  match plans with
  | [] => (Val made, o)
  | p :: plans =>
      match worker_create (wp_answers p) next (wp_input p) ring_fd (machine o) with
      | (Val _, s) => workers_create next plans ring_fd (made ++ [mkWorker p (mc_vars s) (mc_child s)]) (mc_open s)
      | (Err e, s) => match workers_destroy made (mc_open s) with (Fault, o) => (Fault, o) | (_, o) => (Err e, o) end
      | (Fault, s) => (Fault, mc_open s)
      end
  end.

(** ** What is held *)

Section Resources.
Context {ans : nat -> bool} {next : Kind -> Z -> Table -> Z}.
Context (Hnext : hands_out next).

Lemma wp_close_var x Q s :
  is_Some (mc_open s !! (Descriptor, mc_vars s x)) ->
  Q (Val tt) (set_var x (-1) (set_open (delete (Descriptor, mc_vars s x) (mc_open s)) s)) ->
  wp (close_var x) Q s.
Proof. intros Ho H. apply wp_bind, wp_var, wp_bind, wp_close; [done|]. by apply wp_assign. Qed.

Lemma waitpid_any interrupts pid s : waitpid_loop interrupts pid s = waitpid_loop 0 pid s.
Proof. by induction interrupts. Qed.

(** A child that is there is waited for. *)
Lemma wp_reap_child (b : bool) ce Q s :
  0 < mc_vars s "child_pid_" -> is_Some (mc_open s !! (Process, mc_vars s "child_pid_")) ->
  let s' := set_var "child_pid_" (-1) (set_open (delete (Process, mc_vars s "child_pid_") (mc_open s)) s) in
  Q (if b && negb (bool_decide (ce_status ce = Some 0)) then Err (str "HDF5 writer process exited unsuccessfully") else Val tt) s' ->
  wp (reap_child b ce) Q s.
Proof.
  intros Hp Ho s' H. apply wp_bind, wp_var. destruct (Z.leb_spec (mc_vars s "child_pid_") 0); [lia|].
  apply wp_bind. unfold wp at 1. rewrite waitpid_any. cbn [waitpid_loop]. apply wp_bind, wp_gets.
  rewrite bool_decide_eq_true_2 by done. apply wp_bind, wp_close; [done|]. apply wp_ret. apply wp_bind, wp_assign.
  cbn [negb andb]. destruct (b && _); [by apply wp_raise|by apply wp_ret].
Qed.
Lemma wp_reap_none b ce Q s :
  mc_vars s "child_pid_" <= 0 -> Q (Val tt) s -> wp (reap_child b ce) Q s.
Proof. intros Hp H. apply wp_bind, wp_var. by destruct (Z.leb_spec (mc_vars s "child_pid_") 0); [|lia]. Qed.

(** The child has its end of the sockets and the ring where it looks for them, and nothing
    of the parent's that was not to be inherited anyway. *)
Definition child_sees (o : Table) (t : Table) : Prop :=
  t !! (Descriptor, k_writer_control_fd) = Some (mkHeld ChildEnd false) /\
  t !! (Descriptor, k_writer_ring_fd) = Some (mkHeld RingMemory false) /\
  forall n h, t !! (Descriptor, n) = Some h -> n <> k_writer_control_fd -> n <> k_writer_ring_fd ->
    o !! (Descriptor, n) = Some h /\ hd_cloexec h = false.

Lemma child_table_lookup o l n :
  child_table o l !! (Descriptor, n) = (foldl dup2 o l !! (Descriptor, n)) ≫= (fun h => if hd_cloexec h then None else Some h).
Proof.
  unfold child_table. rewrite map_lookup_filter. destruct (foldl dup2 o l !! (Descriptor, n)) as [h|]; [|done].
  cbn [mbind option_bind]. case_guard as Hg; cbn in *; [by rewrite (proj2 Hg)|]. destruct (hd_cloexec h) eqn:E; [done|]. by destruct Hg.
Qed.

(** [o] is what is open at the start, [o'] when the child is started: with copies that were
    made at 64 and above. *)
Lemma child_of_spawn o o' c r :
  64 <= c -> 64 <= r -> o' !! (Descriptor, c) = Some (mkHeld ChildEnd true) -> o' !! (Descriptor, r) = Some (mkHeld RingMemory true) ->
  (forall n h, o' !! (Descriptor, n) = Some h -> hd_cloexec h = false -> o !! (Descriptor, n) = Some h) ->
  child_sees o (child_table o' ([(c, k_writer_control_fd)] ++ [(r, k_writer_ring_fd)])).
Proof.
  intros Hc Hr Hoc Hor Hkept. unfold child_sees, k_writer_control_fd, k_writer_ring_fd.
  assert (foldl dup2 o' ([(c, 3)] ++ [(r, 4)]) =
    <[(Descriptor, 4) := mkHeld RingMemory false]> (<[(Descriptor, 3) := mkHeld ChildEnd false]> o')) as Ht.
  { cbn [app foldl]. unfold dup2 at 2. cbn [fst snd]. rewrite Hoc. unfold dup2. cbn [fst snd].
    rewrite lookup_insert_ne by (intros [=]; lia). by rewrite Hor. }
  rewrite !child_table_lookup, Ht. split; [by rewrite lookup_insert_ne, lookup_insert_eq|].
  split; [by rewrite lookup_insert_eq|]. intros n h. rewrite child_table_lookup, Ht. intros Hn H3 H4.
  rewrite !lookup_insert_ne in Hn by congruence. destruct (o' !! (Descriptor, n)) as [h'|] eqn:E; [|done].
  cbn in Hn. destruct (hd_cloexec h') eqn:Eh; [done|]. injection Hn as <-. split; [by apply Hkept|done].
Qed.

Lemma wp_duplicate x fd h Q s :
  mc_open s !! (Descriptor, fd) = Some h ->
  (forall k, let s' := mkMachine (mc_vars s) (mc_open s) (mc_actions s) (mc_child s) k (mc_closes s) in
    Q (Val tt) (set_var x (-1) s') /\
    forall n, 64 <= n -> mc_open s !! (Descriptor, n) = None ->
      Q (Val tt) (set_var x n (set_open (<[(Descriptor, n) := mkHeld (hd_target h) true]> (mc_open s)) s'))) ->
  wp (duplicate ans next x fd) Q s.
Proof using Hnext.
  intros Hfd H. apply wp_bind, wp_ask. intros b k. apply wp_bind, wp_gets. cbn [mc_open]. rewrite Hfd. destruct b.
  - apply wp_bind. eapply wp_open; [done|lia|]. intros n Hn Hfree. apply wp_assign, (H k); [done|exact Hfree].
  - apply wp_assign, (H k).
Qed.

#[local] Ltac spawn_step :=
  lazymatch goal with
  | |- wp (close_var _) _ _ => apply wp_close_var; [wp_simpl; table_lookup|]
  | |- wp (reap_child _ _) _ _ =>
      first [apply wp_reap_none; [wp_simpl; lia|] | apply wp_reap_child; [wp_simpl; lia|wp_simpl; table_lookup|]]
  | |- wp (duplicate _ _ _ _) _ _ => eapply wp_duplicate; [wp_simpl; table_lookup|intros ?; split; [|let H := fresh "Hfree" in intros ? ? H; cbn [mc_open] in H]]
  | |- wp (spawn_cleanup _) _ _ => unfold spawn_cleanup
  | |- wp (spawn_body _ _ _ _) _ _ => unfold spawn_body
  | |- wp (actions_init _) _ _ => unfold actions_init
  | |- wp actions_destroy _ _ => unfold actions_destroy
  | |- wp (actions_adddup2 _ _ _) _ _ => unfold actions_adddup2
  | |- wp (posix_spawn _ _) _ _ => unfold posix_spawn
  | |- _ => wp_step
  end; wp_simpl.
#[local] Ltac spawn_steps := repeat spawn_step.

(** Descriptors that are closed when the child starts do not count. *)
Lemma kept_insert (o o' : Table) k (n : Z) h :
  hd_cloexec h = true ->
  (forall (n : Z) h, o' !! (Descriptor, n) = Some h -> hd_cloexec h = false -> o !! (Descriptor, n) = Some h) ->
  forall (n' : Z) h', <[(k, n) := h]> o' !! (Descriptor, n') = Some h' -> hd_cloexec h' = false -> o !! (Descriptor, n') = Some h'.
Proof. intros Hh Ho n' h' [[_ <-]|[_ Hl]]%lookup_insert_Some Hc; [congruence|by apply Ho]. Qed.

(** What [start_child] holds when it returns. *)
Definition started (o : Table) (s : Machine) : Prop :=
  exists socket pid,
    mc_vars s "socket_" = socket /\ mc_vars s "child_pid_" = pid /\ mc_vars s "process_id_" = pid /\
    0 <= socket /\ 0 < pid /\ o !! (Descriptor, socket) = None /\ o !! (Process, pid) = None /\ mc_actions s = None /\
    mc_open s = <[(Process, pid) := mkHeld Other false]> (<[(Descriptor, socket) := mkHeld ParentEnd true]> o) /\
    exists t, mc_child s = Some t /\ child_sees o t.

Lemma start_child_spec i ring_fd o :
  o !! (Descriptor, ring_fd) = Some (mkHeld RingMemory true) -> wi_exchange i <> Fault ->
  wp (start_child ans next i ring_fd) (fun r s => match r with
    | Val _ => started o s
    | Err _ => mc_open s = o /\ mc_actions s = None
    | Fault => False end) (machine o).
Proof using Hnext.
  intros Hring Hex. unfold start_child. destruct (wi_exchange i) as [[]|e|] eqn:E; [..|done].
  all: spawn_steps; rewrite ?E; spawn_steps; cbn [andb].
  all: try (split; [table_eq|done]).
  unfold started. wp_simpl. eexists _, _. do 3 (split; [reflexivity|]). table_facts. do 5 (split; [lia || done|]). split; [table_eq|].
  eexists. split; [done|]. apply child_of_spawn; [lia..|table_lookup|table_lookup|].
  do 4 (apply kept_insert; [done|]). done.
Qed.

(** A worker with its socket and its child, whatever else is open. *)
Definition holds (vars : string -> Z) (o : Table) : Prop :=
  0 <= vars "socket_" /\ 0 < vars "child_pid_" /\
  is_Some (o !! (Descriptor, vars "socket_")) /\ is_Some (o !! (Process, vars "child_pid_")).
Definition let_go (vars : string -> Z) (o : Table) : Table :=
  delete (Process, vars "child_pid_") (delete (Descriptor, vars "socket_") o).

Lemma started_holds o s : started o s -> holds (mc_vars s) (mc_open s) /\ let_go (mc_vars s) (mc_open s) = o.
Proof.
  intros (socket & pid & Hs & Hp & _ & Hs0 & Hp0 & Hfs & Hfp & _ & Ho & _). unfold holds, let_go. rewrite Hs, Hp, Ho.
  split; [split_and!; try lia; table_lookup|table_eq].
Qed.

(** The thread of a worker ends with the socket closed and the child waited for. *)
Lemma worker_run_spec drained stopped ce s :
  holds (mc_vars s) (mc_open s) -> drained <> Fault -> stopped <> Fault ->
  wp (worker_run drained stopped ce) (fun r s' => match r with
    | Val failed => mc_open s' = let_go (mc_vars s) (mc_open s) /\
        (mc_vars s' "socket_" = -1) /\ (mc_vars s' "child_pid_" = -1) /\
        (failed = false <-> drained = Val tt /\ stopped = Val tt /\ ce_status ce = Some 0)
    | _ => False end) s.
Proof.
  intros (Hs0 & Hp0 & Hs & Hp) Hd Hst. destruct s as [vars open act ch asked cl]. cbn [mc_vars mc_open] in *.
  unfold worker_run, let_go.
  assert (exists b, bool_decide (ce_status ce = Some 0) = b /\ (b = true <-> ce_status ce = Some 0)) as (b & Eb & Hb)
    by (eexists; split; [done|]; apply bool_decide_eq_true).
  destruct drained as [[]|e|], stopped as [[]|e'|], b; try done.
  all: repeat first [spawn_step | progress rewrite ?Eb | progress cbn [negb andb] | solve [table_lookup]].
  all: split; [done|]; do 2 (split; [done|]); rewrite <-Hb; by intuition congruence.
Qed.

(** Destroying it: the thread's end, then nothing is left to do. *)
Lemma worker_end_spec drained stopped ce s :
  holds (mc_vars s) (mc_open s) -> drained <> Fault -> stopped <> Fault ->
  wp (worker_end drained stopped ce) (fun r s' => match r with
    | Val failed => mc_open s' = let_go (mc_vars s) (mc_open s) /\
        (failed = false <-> drained = Val tt /\ stopped = Val tt /\ ce_status ce = Some 0)
    | _ => False end) s.
Proof.
  intros Hh Hd Hst. apply wp_bind. eapply wp_weaken; [by apply worker_run_spec|]. intros [failed|e|] s'; [|done..].
  intros (Ho & Hsock & Hpid & Hf). destruct s' as [vars open act ch asked cl]. cbn [mc_vars mc_open] in *. unfold worker_destroy.
  repeat first [spawn_step | progress rewrite ?Hsock, ?Hpid | lia]. done.
Qed.

(** Constructing a worker, to the end of the constructor. *)
Lemma worker_create_spec i ring_fd o :
  o !! (Descriptor, ring_fd) = Some (mkHeld RingMemory true) -> wi_exchange i <> Fault ->
  wp (worker_create ans next i ring_fd) (fun r s => match r with
    | Val _ => started o s
    | Err _ => mc_open s = o
    | Fault => False end) (machine o).
Proof using Hnext.
  intros Hring Hex. apply wp_bind. eapply wp_weaken; [by apply start_child_spec|]. intros [[]|e|] s; [|by intros [? _]|done].
  intros (socket & pid & Hs & Hp & Hpid & Hs0 & Hp0 & Hfs & Hfp & Ha & Ho & Hc). destruct s as [vars open act ch asked cl]. cbn in *.
  subst open. wp_step. wp_step.
  - wp_step. exists socket, pid. by wp_simpl.
  - repeat first [spawn_step | progress rewrite ?Hs, ?Hp | lia | solve [table_lookup]]. cbn [andb]. spawn_steps. table_eq.
Qed.

End Resources.

(** ** Every worker together *)

Definition worker_handles (w : Worker) : list Handle :=
  [(Descriptor, wk_vars w "socket_"); (Process, wk_vars w "child_pid_")].
(** [o'] is [o] with the handles of [hs], each there once, and no descriptor more that a
    child would inherit. *)
Record leased (o : Table) (hs : list Handle) (o' : Table) : Prop := {
  le_nodup : NoDup hs;
  le_held : forall k, k ∈ hs -> o !! k = None /\ is_Some (o' !! k);
  le_rest : forall k, k ∉ hs -> o' !! k = o !! k;
  le_kept : forall n h, o' !! (Descriptor, n) = Some h -> hd_cloexec h = false -> o !! (Descriptor, n) = Some h
}.

Lemma leased_none o : leased o [] o.
Proof. split; [constructor|intros k Hk; by apply elem_of_nil in Hk|done|done]. Qed.
Lemma leased_back o o' : leased o [] o' -> o' = o.
Proof. intros [_ _ Hr _]. apply map_eq. intros k. apply Hr, not_elem_of_nil. Qed.

Lemma leased_take o hs o' k h :
  leased o hs o' -> o' !! k = None -> (fst k = Descriptor -> hd_cloexec h = true) -> leased o (hs ++ [k]) (<[k := h]> o').
Proof.
  intros [Hn Hh Hr Hk] Hfree Hc.
  assert (k ∉ hs) as Hnot by (intros Hin; destruct (Hh k Hin) as [_ [? ?]]; congruence).
  split.
  - apply list.NoDup_app. split; [done|]. split; [|apply NoDup_singleton]. set_solver.
  - intros k' [Hin| ->%list_elem_of_singleton]%elem_of_app.
    + destruct (Hh k' Hin). split; [done|]. by rewrite lookup_insert_ne by congruence.
    + rewrite lookup_insert_eq. split; [|by eexists]. by rewrite <-(Hr k Hnot).
  - intros k' Hout. rewrite lookup_insert_ne by set_solver. apply Hr. set_solver.
  - intros n h' [[-> <-]|[_ Hl]]%lookup_insert_Some Hf; [|by apply Hk]. specialize (Hc eq_refl). congruence.
Qed.

Lemma leased_give o hs hs' o' k :
  leased o (hs ++ k :: hs') o' -> leased o (hs ++ hs') (delete k o').
Proof.
  intros [Hn Hh Hr Hk]. rewrite <-Permutation_middle in Hn. apply list.NoDup_cons in Hn as [Hnot Hn]. split; [done|..].
  - intros k' Hin. assert (k' <> k) by congruence. rewrite lookup_delete_ne by done. apply Hh. set_solver.
  - intros k' Hout. destruct (decide (k' = k)) as [->|Hne].
    + rewrite lookup_delete_eq. symmetry. apply Hh. set_solver.
    + rewrite lookup_delete_ne by done. apply Hr. set_solver.
  - intros n h [_ Hl]%lookup_delete_Some. by apply Hk.
Qed.

Definition plan_ok (p : WorkerPlan) : Prop := wi_exchange (wp_input p) <> Fault /\ wp_drained p <> Fault /\ wp_stopped p <> Fault.
Definition succeeded (p : WorkerPlan) : Prop :=
  wp_drained p = Val tt /\ wp_stopped p = Val tt /\ ce_status (wi_child (wp_input p)) = Some 0.
(** A worker that was made, from [o]. *)
Definition worker_made (o : Table) (w : Worker) : Prop :=
  plan_ok (wk_plan w) /\ 0 <= wk_vars w "socket_" /\ 0 < wk_vars w "child_pid_" /\ exists t, wk_sees w = Some t /\ child_sees o t.
Definition workers_handles (ws : list Worker) : list Handle := concat (worker_handles <$> ws).

Lemma worker_destroyed_spec o w hs o' :
  worker_made o w -> leased o (worker_handles w ++ hs) o' ->
  exists failed o1, worker_destroyed w o' = (Val failed, o1) /\ leased o hs o1 /\ (failed = false <-> succeeded (wk_plan w)).
Proof.
  intros ((_ & Hd & Hs) & H0 & H1 & _) Hl. unfold worker_destroyed.
  set (s := mkMachine _ _ _ _ _ _). assert (holds (mc_vars s) (mc_open s)) as Hh.
  { split_and!; [done..| |]; apply (le_held _ _ _ Hl); unfold worker_handles; set_solver. }
  pose proof (wp_run _ _ _ (worker_end_spec (ans := wp_answers (wk_plan w)) _ _ (wi_child (wp_input (wk_plan w))) s Hh Hd Hs)) as Hw.
  destruct (worker_end _ _ _ s) as [[failed|e|] s']; cbn [fst snd] in Hw; [|done..]. destruct Hw as [Ho Hf].
  exists failed, (mc_open s'). split; [done|]. split; [|done]. rewrite Ho.
  apply (leased_give o []), (leased_give o []). exact Hl.
Qed.

Lemma workers_destroy_spec o ws o' :
  Forall (worker_made o) ws -> leased o (workers_handles ws) o' ->
  exists l, workers_destroy ws o' = (Val l, o) /\ Forall2 (fun failed w => failed = false <-> succeeded (wk_plan w)) l ws.
Proof.
  intros Hm. revert o'. induction Hm as [|w ws Hw Hm IH]; intros o' Hl; cbn [workers_destroy].
  - exists []. by rewrite (leased_back _ _ Hl).
  - destruct (worker_destroyed_spec o w (workers_handles ws) o' Hw Hl) as (failed & o1 & -> & Hl1 & Hf).
    destruct (IH o1 Hl1) as (l & -> & HF). exists (failed :: l). by split; [|constructor].
Qed.

Section Making.
Context {next : Kind -> Z -> Table -> Z} (Hnext : hands_out next).

Lemma worker_create_leased o o' hs ring_fd p :
  leased o hs o' -> o' !! (Descriptor, ring_fd) = Some (mkHeld RingMemory true) -> plan_ok p ->
  match worker_create (wp_answers p) next (wp_input p) ring_fd (machine o') with
  | (Val _, s) => let w := mkWorker p (mc_vars s) (mc_child s) in
      worker_made o w /\ leased o (hs ++ worker_handles w) (mc_open s)
  | (Err _, s) => mc_open s = o'
  | (Fault, _) => False
  end.
Proof using Hnext.
  intros Hl Hring Hp. pose proof (wp_run _ _ _ (worker_create_spec (ans := wp_answers p) Hnext (wp_input p) ring_fd o' Hring (proj1 Hp))) as Hw.
  destruct (worker_create _ _ _ _ _) as [[[]|e|] s]; cbn [fst snd] in Hw; [|done..].
  destruct Hw as (socket & pid & Hs & Hpid & _ & Hs0 & Hp0 & Hfs & Hfp & _ & Ho & t & Ht & Hc3 & Hc4 & Hrest). cbn zeta.
  unfold worker_made, worker_handles. cbn [wk_plan wk_vars wk_sees]. rewrite Hs, Hpid. split.
  - do 3 (split; [done|]). exists t. split; [done|]. split; [done|]. split; [done|]. intros n h Hn H3 H4.
    destruct (Hrest n h Hn H3 H4) as [Hn' Hc]. split; [by apply (le_kept _ _ _ Hl)|done].
  - rewrite Ho. change [(Descriptor, socket); (Process, pid)] with ([(Descriptor, socket)] ++ [(Process, pid)]). rewrite (assoc_L (++)).
    apply leased_take; [|by rewrite lookup_insert_ne by congruence|done]. by apply leased_take.
Qed.

Lemma workers_handles_snoc ws w : workers_handles (ws ++ [w]) = workers_handles ws ++ worker_handles w.
Proof. unfold workers_handles. by rewrite fmap_app, concat_app; cbn; rewrite ?app_nil_r. Qed.

Lemma workers_create_spec plans ring_fd made o o' :
  o !! (Descriptor, ring_fd) = Some (mkHeld RingMemory true) -> Forall plan_ok plans ->
  Forall (worker_made o) made -> leased o (workers_handles made) o' ->
  match workers_create next plans ring_fd made o' with
  | (Val ws, o1) => Forall (worker_made o) ws /\ leased o (workers_handles ws) o1 /\ wk_plan <$> ws = (wk_plan <$> made) ++ plans
  | (Err _, o1) => o1 = o
  | (Fault, _) => False
  end.
Proof using Hnext.
  intros Hring Hp. revert made o'. induction Hp as [|p plans Hp Hps IH]; intros made o' Hm Hl; cbn [workers_create].
  - by rewrite app_nil_r.
  - assert (o' !! (Descriptor, ring_fd) = Some (mkHeld RingMemory true)) as Hring'.
    { rewrite (le_rest _ _ _ Hl); [done|]. intros Hin. destruct (le_held _ _ _ Hl _ Hin) as [Hnone _]. congruence. }
    pose proof (worker_create_leased o o' _ ring_fd p Hl Hring' Hp) as Hc.
    destruct (worker_create _ _ _ _ _) as [[[]|e|] s]; [| |done].
    + destruct Hc as [Hw Hl']. specialize (IH (made ++ [mkWorker p (mc_vars s) (mc_child s)]) (mc_open s)).
      rewrite workers_handles_snoc, fmap_app, <-(assoc_L (++)) in IH. apply IH; [|done]. apply Forall_app. by split; [|constructor].
    + rewrite Hc. by destruct (workers_destroy_spec o made o' Hm Hl) as (l & -> & _).
Qed.
End Making.

(** C25: the writer processes leave nothing behind. Whatever the system answers to any of their
    calls and however the exchanges with the children end, no step releases what is not
    held -- no descriptor is closed twice, no child waited for twice. When the constructor
    of the writers throws, at any worker and at any call, everything it opened is closed
    again and every child that was started has been waited for. When it returns, each
    worker has a socket and a child of its own, each child found its end of the socket and
    the shared ring at the numbers it expects and inherited nothing of its parent's that
    was not inheritable before, so that the end of the coordinator is the end of its
    requests; destroying the workers closes everything, and a worker reports success
    exactly when its blocks were written, its last exchange was in order and its child
    ended with 0. *)
Theorem writer_processes_resources next plans ring_fd o
  (Hnext : hands_out next) (Hp : Forall plan_ok plans) (Hring : o !! (Descriptor, ring_fd) = Some (mkHeld RingMemory true)) :
  match workers_create next plans ring_fd [] o with
  | (Fault, _) => False
  | (Err _, o') => o' = o
  | (Val ws, o') =>
      wk_plan <$> ws = plans /\ leased o (workers_handles ws) o' /\
      Forall (fun w => exists t, wk_sees w = Some t /\ child_sees o t) ws /\
      exists l, workers_destroy ws o' = (Val l, o) /\
        Forall2 (fun failed w => failed = false <-> succeeded (wk_plan w)) l ws
  end.
Proof.
  pose proof (workers_create_spec Hnext plans ring_fd [] o o Hring Hp (Forall_nil_2 _) (leased_none o)) as H.
  destruct (workers_create next plans ring_fd [] o) as [[ws|e|] o']; [|done..]. destruct H as (Hm & Hl & Hpl).
  split; [done|]. split; [done|]. split; [|by apply workers_destroy_spec]. revert Hm. apply Forall_impl. by intros w (_ & _ & _ & Hs).
Qed.

Definition sample_ring_table : Table := <[(Descriptor, 5) := mkHeld RingMemory true]> (<[(Descriptor, 2) := mkHeld Other false]> ∅).
Definition sample_plan (exchange : hres unit) : WorkerPlan :=
  mkWorkerPlan (mkWorkerInput 9 0 exchange (mkChildStatus 2 (Some 0))) (fun _ => true) (Val tt) (Val tt).

Lemma writer_processes_resources_witness :
  snd (workers_create counting [sample_plan (Val tt); sample_plan (Err [])] 5 [] sample_ring_table) = sample_ring_table /\
  (let '(r, o') := workers_create counting [sample_plan (Val tt); sample_plan (Val tt)] 5 [] sample_ring_table in
   exists ws, r = Val ws /\ length ws = 2%nat /\ exists l, workers_destroy ws o' = (Val l, sample_ring_table)).
Proof.
  split.
  - assert ((if fst (workers_create counting [sample_plan (Val tt); sample_plan (Err [])] 5 [] sample_ring_table) is Err _ then true else false) = true)
      as E1 by (vm_compute; reflexivity).
    pose proof (writer_processes_resources counting [sample_plan (Val tt); sample_plan (Err [])] 5 sample_ring_table counting_hands_out
      ltac:(repeat constructor; done) ltac:(vm_compute; reflexivity)) as H.
    destruct (workers_create _ _ _ _ _) as [[ws|e|] o']; [discriminate E1|exact H|destruct H].
  - assert ((if fst (workers_create counting [sample_plan (Val tt); sample_plan (Val tt)] 5 [] sample_ring_table) is Val _ then true else false) = true)
      as E2 by (vm_compute; reflexivity).
    pose proof (writer_processes_resources counting [sample_plan (Val tt); sample_plan (Val tt)] 5 sample_ring_table counting_hands_out
      ltac:(repeat constructor; done) ltac:(vm_compute; reflexivity)) as H.
    destruct (workers_create _ _ _ _ _) as [[ws|e|] o']; [|discriminate E2..].
    destruct H as (Hpl & _ & _ & l & Hl & _). exists ws. split; [reflexivity|]. split; [|by exists l].
    rewrite <-(length_fmap wk_plan ws), Hpl. reflexivity.
Defined.

(** ** The receive ring *)

Section Ring.
Context {ans : nat -> bool} {next : Kind -> Z -> Table -> Z}.
Context (Hnext : hands_out next).

(** The loop opens a name that nobody had, or nothing. *)
Lemma shm_open_loop_spec attempts attempt o vars act ch n m :
  vars "fd_" = -1 ->
  wp (shm_open_loop ans next attempts attempt) (fun r s => match r with
    | Val _ => (mc_vars s "fd_" = -1 /\ mc_open s = o) \/
        exists fd name, (mc_vars s "fd_" = fd) /\ (mc_vars s "name" = name) /\ 0 <= fd /\
          o !! (ShmName, name) = None /\ o !! (Descriptor, fd) = None /\
          mc_open s = <[(Descriptor, fd) := mkHeld RingMemory true]> (<[(ShmName, name) := mkHeld RingMemory false]> o)
    | _ => False end) (mkMachine vars o act ch n m).
Proof using Hnext.
  revert attempt vars n m. induction attempts as [|attempts IH]; intros attempt vars n m Hv; cbn [shm_open_loop]; wp_step; [by left|].
  wp_step. wp_step. wp_step. wp_step. wp_step. case_bool_decide as Htaken.
  - wp_steps. by apply IH.
  - wp_steps; [|by left]. right. table_facts. eexists _, attempt. do 2 (split; [reflexivity|]).
    split; [lia|]. split; [by apply eq_None_not_Some|done].
Qed.

(** The ring is made or nothing is: on every failure the descriptor and the name are gone,
    and no name that existed before is removed. *)
Lemma ring_create_spec bytes o :
  0 <= bytes ->
  wp (ring_create ans next bytes) (fun r s => match r with
    | Val _ => 0 < bytes < 2 ^ 63 /\ exists fd mapping, (mc_vars s "fd_" = fd) /\ (mc_vars s "memory_" = mapping) /\ 0 <= fd /\
        o !! (Descriptor, fd) = None /\ o !! (Region, mapping) = None /\
        mc_open s = <[(Region, mapping) := mkHeld RingMemory false]> (<[(Descriptor, fd) := mkHeld RingMemory true]> o)
    | Err _ => mc_open s = o
    | Fault => False end) (machine o).
Proof using Hnext.
  intros H0b. unfold ring_create. destruct (_ || _) eqn:Hb; [by wp_step|]. wp_step.
  eapply wp_weaken; [by apply shm_open_loop_spec|]. intros [[]|e|] [vars open act ch n m]; [|done..]. cbn [mc_vars mc_open].
  intros [[Hfd ->]|(fd & name & Hfd & Hname & Hfd0 & Hn & Hf & ->)].
  - wp_step. wp_step. rewrite Hfd. by wp_steps.
  - wp_step. wp_step. rewrite Hfd. do 5 wp_step. rewrite Hname. wp_step. wp_step.
    repeat first [wp_step | apply wp_close_var; [wp_simpl; rewrite Hfd; table_lookup|wp_simpl; rewrite ?Hfd]]; try table_eq.
    split; [lia|]. eexists fd, _. do 2 (split; [first [exact Hfd | reflexivity]|]). split; [done|]. split; [done|]. table_facts.
    split; [done|]. table_eq.
Qed.

(** The destructor, alone or before the subscription lets the memory go. *)
Lemma ring_destroy_spec o fd mapping s (shared : bool) :
  mc_vars s "fd_" = fd -> mc_vars s "memory_" = mapping -> 0 <= fd -> o !! (Descriptor, fd) = None -> o !! (Region, mapping) = None ->
  mc_open s = <[(Region, mapping) := mkHeld RingMemory false]> (<[(Descriptor, fd) := mkHeld RingMemory true]> o) ->
  wp (ring_destroy shared;; if shared then ring_unmap else mret tt) (fun r s => r = Val tt /\ mc_open s = o) s.
Proof.
  destruct s as [vars open act ch n m]. cbn [mc_vars mc_open]. intros Hfd Hm H0 Hf Hr ->. unfold ring_destroy, ring_unmap.
  destruct shared; repeat first [progress rewrite ?Hfd, ?Hm | wp_step]; (split; [done|]); table_eq.
Qed.
End Ring.

(** the receive ring is all or nothing. Whatever the system answers, the constructor of the
    shared ring releases nothing it does not hold; when it throws everything it opened is
    gone and no name of another process was removed; when it returns it has one descriptor
    and one mapping and the name is already unlinked, and destroying it -- before or after
    the subscription lets go of the memory -- leaves what was open at first. *)
Theorem receive_ring_all_or_nothing ans next bytes o (Hnext : hands_out next) (Hb : 0 <= bytes) :
  match ring_create ans next bytes (machine o) with
  | (Fault, _) => False
  | (Err _, s) => mc_open s = o
  | (Val _, s) =>
      0 < bytes < 2 ^ 63 /\ (forall name, mc_open s !! (ShmName, name) = o !! (ShmName, name)) /\
      mc_open s !! (Descriptor, mc_vars s "fd_") = Some (mkHeld RingMemory true) /\
      forall shared : bool, mc_open (snd ((ring_destroy shared;; if shared then ring_unmap else mret tt) s)) = o
  end.
Proof.
  pose proof (wp_run _ _ _ (ring_create_spec (ans := ans) Hnext bytes o Hb)) as H. clear Hb.
  destruct (ring_create ans next bytes (machine o)) as [[[]|e|] s]; cbn [fst snd] in H; [|done..].
  destruct H as (Hb & fd & mapping & Hfd & Hm & H0 & Hf & Hr & Ho). split; [done|].
  split; [intros name; rewrite Ho; table_lookup|]. split; [rewrite Ho, Hfd; table_lookup|]. intros shared.
  pose proof (wp_run _ _ _ (ring_destroy_spec o fd mapping s shared Hfd Hm H0 Hf Hr Ho)) as [_ Hd]. exact Hd.
Qed.

Lemma receive_ring_all_or_nothing_witness :
  let '(r, s) := ring_create (fun _ => true) counting 4096 (machine (<[(ShmName, 0) := mkHeld Other false]> ∅)) in
  r = Val tt /\ mc_open s !! (ShmName, 0) = Some (mkHeld Other false) /\ mc_open s !! (ShmName, 1) = None.
Proof.
  assert (fst (ring_create (fun _ => true) counting 4096 (machine (<[(ShmName, 0) := mkHeld Other false]> ∅))) = Val tt) as E
    by (vm_compute; reflexivity).
  pose proof (receive_ring_all_or_nothing (fun _ => true) counting 4096 (<[(ShmName, 0) := mkHeld Other false]> ∅) counting_hands_out ltac:(lia)) as H.
  destruct (ring_create _ _ _ _) as [r s]. cbn [fst] in E. subst r. destruct H as (_ & Hn & _). split; [reflexivity|].
  rewrite !Hn. split; reflexivity.
Defined.
