(* ===== verification/Hdf5Handles.v ===== *)
(** * The HDF5 objects of the client

    The functions of [src/examples/example_hdf5_client/example_hdf5_client.cpp] that open
    HDF5 objects -- attributes, a shard, a run of frames, the master file -- as they hold
    and release them, on the monad of [Handles].  What they write is in [Hdf5Writer] and
    [Hdf5Acquire]. *)
From stdpp Require Import gmap strings.
From S2P Require Import Prelude Text Hdf5Shards Handles.
#[local] Open Scope Z_scope.

Section Hdf5Handles.
Context (ans closes : nat -> bool) (next : Kind -> Z -> Table -> Z).
#[local] Abbreviation checked := (checked ans).

(** [checked_id], [check_hdf5] of a closing call, and a closing call nobody looks at. *)
Definition checked_id (what : bytes) : proc Z := checked_open ans next Hid 1 (mkHeld Other true) what.
Definition close_checked (id : Z) (what : bytes) : proc unit :=
  ok ← close_may_fail closes Hid id; if (ok : bool) then mret tt else raise what.
Definition close_ignored (id : Z) : proc unit := close_may_fail closes Hid id;; mret tt.
Definition close_ignored_var (x : string) : proc unit := id ← var x; close_ignored id.
Definition close_checked_var (x : string) (what : bytes) : proc unit := id ← var x; close_checked id what.

(** ** Attributes *)

Definition write_scalar_attribute : proc unit :=
  space ← checked_id (str "H5Screate(attribute)");
  assign "scalar.attribute" (-1);;
  cleanup
    (attribute ← checked_id (str "H5Acreate2"); assign "scalar.attribute" attribute;;
     checked (str "H5Awrite");;
     close_checked attribute (str "H5Aclose");;
     close_checked space (str "H5Sclose"))
    (when_set "scalar.attribute" close_ignored;; close_ignored space).

Definition write_string_attribute : proc unit :=
  type ← checked_id (str "H5Tcopy");
  assign "string.space" (-1);; assign "string.attribute" (-1);;
  cleanup
    (checked (str "H5Tset_size");;
     space ← checked_id (str "H5Screate(attribute)"); assign "string.space" space;;
     attribute ← checked_id (str "H5Acreate2"); assign "string.attribute" attribute;;
     checked (str "H5Awrite");;
     close_checked attribute (str "H5Aclose");;
     close_checked space (str "H5Sclose");;
     close_checked type (str "H5Tclose"))
    (when_set "string.attribute" close_ignored;; when_set "string.space" close_ignored;; close_ignored type).

(** The scalar attributes of a file, then [sharding_mode]. *)
Fixpoint file_attributes (scalars : nat) : proc unit :=
  match scalars with
  | O => write_string_attribute
  | S scalars => write_scalar_attribute;; file_attributes scalars
  end.

(** ** A shard *)

(** [close_noexcept], which is also the destructor, and [close]. *)
Definition shard_close_noexcept : proc unit :=
  when_set "dataset_" close_ignored;; when_set "file_" close_ignored;;
  assign "dataset_" (-1);; assign "file_" (-1).
Definition shard_close : proc unit :=
  when_set "dataset_" (fun id => close_checked id (str "H5Dclose");; assign "dataset_" (-1));;
  when_set "file_" (fun id => close_checked id (str "H5Fclose");; assign "file_" (-1)).

(** The constructor; [H5P_DEFAULT] is 0. *)
Definition shard_open (chunked : bool) : proc unit :=
  file ← checked_id (str "H5Fcreate(shard)"); assign "file_" file;;
  assign "space" (-1);; assign "creation" 0;;
  cleanup
    (space ← checked_id (str "H5Screate_simple(shard)"); assign "space" space;;
     (if chunked then
        creation ← checked_id (str "H5Pcreate"); assign "creation" creation;; checked (str "H5Pset_chunk")
      else mret tt);;
     dataset ← checked_id (str "H5Dcreate2(shard)"); assign "dataset_" dataset;;
     file_attributes 5;;
     creation ← var "creation";
     (if negb (creation =? 0) then close_checked creation (str "H5Pclose") else mret tt);;
     close_checked space (str "H5Sclose"))
    (creation ← var "creation";
     (if negb (creation =? 0) then close_ignored creation else mret tt);;
     when_set "space" close_ignored;; shard_close_noexcept).

(** [write_run]; [dense] is whether the slots are as long as the frames. *)
Definition run_write (dense : bool) : proc unit :=
  file_space ← checked_id (str "H5Dget_space");
  assign "memory_space" (-1);;
  cleanup
    (checked (str "H5Sselect_hyperslab(file)");;
     (if dense then
        memory ← checked_id (str "H5Screate_simple(contiguous receive slots)"); assign "memory_space" memory
      else
        memory ← checked_id (str "H5Screate_simple(receive slots)"); assign "memory_space" memory;;
        checked (str "H5Sselect_hyperslab(receive slots)"));;
     checked (str "H5Dwrite");;
     close_checked_var "memory_space" (str "H5Sclose");;
     close_checked file_space (str "H5Sclose"))
    (when_set "memory_space" close_ignored;; close_ignored file_space).

(** A shard from its constructor to its destructor, in [writer_child_main]: the runs of the
    blocks, then [close], and the destructor in any case. *)
Fixpoint runs_write (runs : list bool) : proc unit :=
  match runs with
  | [] => mret tt
  | dense :: runs => run_write dense;; runs_write runs
  end.
Definition shard_life (chunked : bool) (runs : list bool) : proc unit :=
  shard_open chunked;; cleanup (runs_write runs;; shard_close) shard_close_noexcept;; shard_close_noexcept.

(** ** The master file *)

Definition master_block (virtual_space : Z) : proc unit :=
  selected_virtual ← checked_id (str "H5Scopy(VDS)");
  assign "source_space" (-1);;
  cleanup
    (checked (str "H5Sselect_hyperslab(VDS)");;
     source ← checked_id (str "H5Screate_simple(VDS source)"); assign "source_space" source;;
     checked (str "H5Sselect_hyperslab(VDS source)");;
     checked (str "H5Pset_virtual");;
     close_checked_var "source_space" (str "H5Sclose");; assign "source_space" (-1);;
     close_checked selected_virtual (str "H5Sclose"))
    (when_set "source_space" close_ignored;; close_ignored selected_virtual).
Fixpoint master_blocks (blocks : nat) (virtual_space : Z) : proc unit :=
  match blocks with
  | O => mret tt
  | S blocks => master_block virtual_space;; master_blocks blocks virtual_space
  end.
Definition master_file : proc unit :=
  file ← checked_id (str "H5Fcreate(master)");
  assign "dataset" (-1);;
  cleanup
    (dataset ← checked_id (str "H5Dcreate2(VDS)"); assign "dataset" dataset;;
     file_attributes 3;;
     close_checked dataset (str "H5Dclose");; close_checked file (str "H5Fclose"))
    (when_set "dataset" close_ignored;; close_ignored file).
Definition create_master (blocks : nat) : proc unit :=
  virtual_space ← checked_id (str "H5Screate_simple(VDS)");
  creation ← checked_id (str "H5Pcreate(VDS)");
  cleanup
    (master_blocks blocks virtual_space;; master_file;;
     close_checked creation (str "H5Pclose");; close_checked virtual_space (str "H5Sclose"))
    (close_ignored creation;; close_ignored virtual_space).
End Hdf5Handles.

(** ** What is released *)

(** A function that ends with what it started with, whether it throws or not, and that
    assigns none of the variables [xs] of its callers. *)
Definition neutral (xs : list string) (m : proc unit) : Prop :=
  forall s, wp m (fun r s' => r <> Fault /\ mc_open s' = mc_open s /\ Forall (fun x => mc_vars s' x = mc_vars s x) xs) s.

Lemma wp_neutral xs m Q s :
  neutral xs m ->
  (forall vars act ch n k, Forall (fun x => vars x = mc_vars s x) xs ->
    let s' := mkMachine vars (mc_open s) act ch n k in Q (Val tt) s' /\ forall e, Q (Err e) s') ->
  wp m Q s.
Proof.
  intros Hm H. eapply wp_weaken; [apply Hm|]. intros r [vars o act ch n k] (Hr & Ho & Hx). cbn [mc_vars mc_open] in *. subst o.
  destruct (H vars act ch n k Hx). by destruct r as [[]|e|].
Qed.

Lemma neutral_then xs m k : neutral xs m -> neutral xs k -> neutral xs (m;; k).
Proof.
  intros Hm Hk s. apply wp_bind. eapply wp_neutral; [exact Hm|]. intros vars act ch n c Hx. split; [|intros e; split; [done|]; split; [done|exact Hx]].
  eapply wp_weaken; [apply Hk|]. intros r s' (Hr & Ho & Hx'). split; [done|]. split; [done|]. rewrite Forall_forall in *.
  intros x Hin. by rewrite Hx', <-Hx.
Qed.
Lemma neutral_ret xs : neutral xs (mret tt).
Proof. intros s. apply wp_ret. split; [done|]. split; [done|]. apply Forall_forall. intros x _. reflexivity. Qed.

(** The variables of the functions that call others. *)
Definition callers : list string := ["file_"; "dataset_"; "space"; "creation"; "dataset"]%string.

#[local] Ltac hdf5_step :=
  lazymatch goal with
  | |- wp (checked_id _ _ _) _ _ => unfold checked_id
  | |- wp (close_checked _ _ _) _ _ => unfold close_checked
  | |- wp (close_ignored _ _) _ _ => unfold close_ignored
  | |- wp (close_checked_var _ _ _) _ _ => unfold close_checked_var
  | |- wp (shard_close_noexcept _) _ _ => unfold shard_close_noexcept
  | |- _ => wp_step
  end; wp_simpl.
#[local] Ltac prove_neutral :=
  repeat hdf5_step; (split; [done|]); (split; [table_eq|]); repeat constructor.

Section Released.
Context {ans closes : nat -> bool} {next : Kind -> Z -> Table -> Z}.
Context (Hnext : hands_out next) (Hcloses : forall i, closes i = true).

Lemma scalar_attribute_neutral : neutral callers (write_scalar_attribute ans closes next).
Proof using Hnext Hcloses. intros [vars o act ch n k]. unfold write_scalar_attribute. prove_neutral. Qed.
Lemma string_attribute_neutral : neutral callers (write_string_attribute ans closes next).
Proof using Hnext Hcloses. intros [vars o act ch n k]. unfold write_string_attribute. prove_neutral. Qed.
Lemma file_attributes_neutral scalars : neutral callers (file_attributes ans closes next scalars).
Proof using Hnext Hcloses.
  induction scalars; [apply string_attribute_neutral|apply neutral_then; [apply scalar_attribute_neutral|done]].
Qed.
Lemma run_write_neutral dense : neutral callers (run_write ans closes next dense).
Proof using Hnext Hcloses. intros [vars o act ch n k]. unfold run_write. destruct dense; prove_neutral. Qed.
Lemma master_blocks_neutral blocks virtual_space : neutral callers (master_blocks ans closes next blocks virtual_space).
Proof using Hnext Hcloses.
  induction blocks as [|blocks IH]; [apply neutral_ret|]. apply neutral_then; [|done].
  intros [vars o act ch n k]. unfold master_block. prove_neutral.
Qed.
#[local] Ltac attributes_step :=
  lazymatch goal with
  | |- wp (file_attributes _ _ _ _) _ _ =>
      eapply wp_neutral; [apply file_attributes_neutral|];
      let Hx := fresh "Hx" in
      intros ? ? ? ? ? Hx; unfold callers in Hx; repeat (apply list.Forall_cons in Hx as [? Hx]);
      cbn [mc_vars assigned String.eqb Ascii.eqb Bool.eqb] in *; split; [|intros ?]; wp_simpl
  | H : ?vars ?x = _ |- context [?vars ?x] => rewrite H
  | |- _ => hdf5_step
  end.

Lemma master_file_neutral : neutral [] (master_file ans closes next).
Proof using Hnext Hcloses.
  intros [vars o act ch n k]. unfold master_file. repeat attributes_step; (split; [done|]); (split; [table_eq|constructor]).
Qed.

(** A shard is opened with its file and its dataset, or nothing is left open. *)
Lemma shard_open_spec chunked o :
  wp (shard_open ans closes next chunked) (fun r s => match r with
    | Val _ => exists file dataset, (mc_vars s "file_" = file) /\ (mc_vars s "dataset_" = dataset) /\ 0 <= file /\ 0 <= dataset /\
        o !! (Hid, file) = None /\ <[(Hid, file) := mkHeld Other true]> o !! (Hid, dataset) = None /\
        mc_open s = <[(Hid, dataset) := mkHeld Other true]> (<[(Hid, file) := mkHeld Other true]> o)
    | Err _ => mc_open s = o
    | Fault => False end) (machine o).
Proof using Hnext Hcloses.
  unfold shard_open. destruct chunked; repeat attributes_step; try table_eq.
  all: eexists _, _; do 2 (split; [reflexivity|]); do 2 (split; [lia|]); table_facts; split; [done|]; split; [table_lookup|table_eq].
Qed.

Lemma runs_write_neutral runs : neutral callers (runs_write ans closes next runs).
Proof using Hnext Hcloses. induction runs; [apply neutral_ret|apply neutral_then; [apply run_write_neutral|done]]. Qed.

Lemma shard_life_spec chunked runs o :
  wp (shard_life ans closes next chunked runs) (fun r s => r <> Fault /\ mc_open s = o) (machine o).
Proof using Hnext Hcloses.
  apply wp_bind. eapply wp_weaken; [apply shard_open_spec|]. intros [[]|e|] [vars open act ch n k]; [|done..].
  cbn [mc_vars mc_open]. intros (file & dataset & Hf & Hd & Hf0 & Hd0 & Hff & Hdf & ->). table_facts.
  apply wp_bind, wp_cleanup, wp_bind. eapply wp_neutral; [apply runs_write_neutral|].
  intros vars' ? ? ? ? Hx. unfold callers in Hx. repeat (apply list.Forall_cons in Hx as [? Hx]). cbn [mc_vars] in *. unfold shard_close.
  split; [|intros e]; wp_simpl;
    repeat first [match goal with H : ?vars ?x = _ |- context [?vars ?x] => rewrite H end | hdf5_step]; (split; [done|]); table_eq.
Qed.

Lemma create_master_spec blocks o :
  wp (create_master ans closes next blocks) (fun r s => r <> Fault /\
    (mc_open s = o \/ (r = Err (str "H5Pcreate(VDS)") /\
       exists n, o !! (Hid, n) = None /\ mc_open s = <[(Hid, n) := mkHeld Other true]> o))) (machine o).
Proof using Hnext Hcloses.
  unfold create_master. repeat hdf5_step; [|by split; [|right; eauto]|by split; [|left]].
  eapply wp_neutral; [apply master_blocks_neutral|]. intros vars ? ? ? ? _. split; [|intros e]; wp_simpl; repeat hdf5_step;
    try (split; [done|]; left; table_eq).
  eapply wp_neutral; [apply master_file_neutral|]. intros vars' ? ? ? ? _. split; [|intros e]; wp_simpl; repeat hdf5_step;
    (split; [done|]); left; table_eq.
Qed.
End Released.

(** the client closes every HDF5 object it opens. Whatever calls of HDF5 fail, as long as
    closing what is open does not: nothing is closed that is not open; a shard, from its
    constructor over any runs of frames to its destructor, leaves open what was open before,
    whether it throws or not; and so does the creation of the master file, unless it throws
    when the property list cannot be created: then the space of the master stays open. *)
Theorem hdf5_objects_released ans closes next chunked runs blocks o
  (Hnext : hands_out next) (Hcloses : forall i, closes i = true) :
  (let '(r, s) := shard_life ans closes next chunked runs (machine o) in r <> Fault /\ mc_open s = o) /\
  (let '(r, s) := create_master ans closes next blocks (machine o) in r <> Fault /\
     (mc_open s = o \/ (r = Err (str "H5Pcreate(VDS)") /\
        exists n, o !! (Hid, n) = None /\ mc_open s = <[(Hid, n) := mkHeld Other true]> o))).
Proof.
  split.
  - exact (shard_life_spec Hnext Hcloses chunked runs o).
  - exact (create_master_spec Hnext Hcloses blocks o).
Qed.

(** A shard whose 23rd call fails, and a master file whose second does. *)
Definition failing_at (n k : nat) : bool := negb (k =? n)%nat.

Lemma hdf5_objects_released_witness :
  (let '(r, s) := shard_life (failing_at 30) (fun _ => true) counting true [true; false] (machine ∅) in
   r = Err (str "H5Sselect_hyperslab(file)") /\ mc_open s = ∅) /\
  (let '(r, s) := create_master (fun _ => true) (fun _ => true) counting 3 (machine ∅) in r = Val tt /\ mc_open s = ∅).
Proof.
  assert (fst (shard_life (failing_at 30) (fun _ => true) counting true [true; false] (machine ∅)) = Err (str "H5Sselect_hyperslab(file)")) as E1
    by (vm_compute; reflexivity).
  assert (fst (create_master (fun _ => true) (fun _ => true) counting 3 (machine ∅)) = Val tt) as E2 by (vm_compute; reflexivity).
  split.
  - pose proof (hdf5_objects_released (failing_at 30) (fun _ => true) counting true [true; false] 0 ∅ counting_hands_out (fun _ => eq_refl)) as [H _].
    destruct (shard_life _ _ _ _ _ _) as [r s]. split; [exact E1|exact (proj2 H)].
  - pose proof (hdf5_objects_released (fun _ => true) (fun _ => true) counting true [] 3 ∅ counting_hands_out (fun _ => eq_refl)) as [_ H].
    destruct (create_master _ _ _ _ _) as [r s]. cbn [fst] in E2. subst r. split; [reflexivity|].
    destruct H as [_ [H|[H _]]]; [exact H|discriminate H].
Defined.

(** A closing call that fails is followed by a second closing of what was already closed:
    the handler does not know that [H5Aclose] was done. *)
Lemma failing_close_closes_twice :
  fst (write_scalar_attribute (fun _ => true) (failing_at 1) counting (machine ∅)) = Fault.
Proof. by vm_compute. Qed.
(** The space of the master stays open when the property list cannot be created. *)
Lemma failing_creation_leaks_space :
  size (mc_open (snd (create_master (failing_at 1) (fun _ => true) counting 3 (machine ∅)))) = 1%nat.
Proof. by vm_compute. Qed.
