(* ===== verification/BenchChannel.v ===== *)
(** * The coordination channel of the benchmark

    [src/benchmarks/oob.h]: a length-prefixed blob channel over a TCP connection.  What the
    socket answers -- how many bytes a call takes or gives, that it would block, that a
    signal came -- and what [poll] and the clock answer are arguments; the connection
    carries bytes in order.  Times are in nanoseconds, as [steady_clock] counts them. *)
From stdpp Require Import list.
From S2P Require Import Prelude ByteOrder.
#[local] Open Scope Z_scope.

(** ** Waiting *)

(** A [std::runtime_error] by its text; [Waits] is a call that has no answer yet. *)
Inductive io (A : Type) : Type := Done (a : A) | Throws (what : bytes) | Waits.
Arguments Done {A} a.
Arguments Throws {A} what.
Arguments Waits {A}.

Inductive poll_answer : Type := PollReady | PollTimedOut | PollInterrupted | PollFailed.

(** The timeout of [poll] for what remains: whole milliseconds, rounded up, at most an [int]. *)
Definition int_max : Z := 2 ^ 31 - 1.
Definition poll_timeout (remaining : Z) : Z :=
  let milliseconds := Z.quot remaining 1000000 in
  let milliseconds := if milliseconds * 1000000 <? remaining then milliseconds + 1 else milliseconds in
  Z.min milliseconds int_max.

(** [wait_for]: each turn reads the clock and polls. *)
Fixpoint wait_for (deadline : option Z) (turns : list (Z * poll_answer)) : io unit :=
  match turns with
  | [] => Waits
  | (now, answer) :: turns =>
      if (match deadline with Some d => d - now <=? 0 | None => false end)
      then Throws (str "oob: coordination deadline expired")
      else match answer with
      | PollReady => Done tt
      | PollTimedOut => Throws (str "oob: coordination deadline expired")
      | PollInterrupted => wait_for deadline turns
      | PollFailed => Throws (str "oob: poll() failed")
      end
  end.
(** The timeouts those calls of [poll] are given; -1 waits for ever. *)
Fixpoint polled (deadline : option Z) (turns : list (Z * poll_answer)) : list Z :=
  match turns with
  | [] => []
  | (now, answer) :: turns =>
      match deadline with
      | None => -1 :: match answer with PollInterrupted => polled deadline turns | _ => [] end
      | Some d =>
          if d - now <=? 0 then []
          else poll_timeout (d - now) :: match answer with PollInterrupted => polled deadline turns | _ => [] end
      end
  end.

(** ** Bytes *)

(** What a call of [send] or [recv] answers: it moves [n] bytes, of those there are; it would
    block, and then [wait_for] runs; a signal; an error. *)
Inductive socket_answer : Type :=
| Moved (n : nat)
| WouldBlock (turns : list (Z * poll_answer))
| Interrupted
| SocketFailed.

(** [write_all]: the bytes the connection took, and the outcome. *)
Fixpoint write_all (deadline : option Z) (answers : list socket_answer) (data : bytes)
    : io unit * bytes * list socket_answer :=
  match data with
  | [] => (Done tt, [], answers)
  | _ :: _ =>
      match answers with
      | [] => (Waits, [], [])
      | Moved O :: answers => (Throws (str "oob: peer closed during send"), [], answers)
      | Moved n :: answers =>
          let '(r, wire, answers) := write_all deadline answers (drop n data) in
          (r, take n data ++ wire, answers)
      | WouldBlock turns :: answers =>
          match wait_for deadline turns with
          | Done _ => write_all deadline answers data
          | Throws what => (Throws what, [], answers)
          | Waits => (Waits, [], answers)
          end
      | Interrupted :: answers => write_all deadline answers data
      | SocketFailed :: answers => (Throws (str "oob: send() failed"), [], answers)
      end
  end.

(** [read_all] of [size] bytes: what was read, what the connection still has. *)
Fixpoint read_all (deadline : option Z) (answers : list socket_answer) (size : nat) (wire : bytes)
    : io bytes * bytes * list socket_answer :=
  match size with
  | O => (Done [], wire, answers)
  | S _ =>
      match answers with
      | [] => (Waits, wire, [])
      | Moved n :: answers =>
          match take (Nat.min n size) wire with
          | [] => (Throws (str "oob: peer closed during recv"), wire, answers)
          | (_ :: _) as got =>
              let '(r, wire, answers) := read_all deadline answers (size - length got) (drop (length got) wire) in
              (match r with Done rest => Done (got ++ rest) | Throws what => Throws what | Waits => Waits end, wire, answers)
          end
      | WouldBlock turns :: answers =>
          match wait_for deadline turns with
          | Done _ => read_all deadline answers size wire
          | Throws what => (Throws what, wire, answers)
          | Waits => (Waits, wire, answers)
          end
      | Interrupted :: answers => read_all deadline answers size wire
      | SocketFailed :: answers => (Throws (str "oob: recv() failed"), wire, answers)
      end
  end.

(** ** Messages *)

Definition k_max_message : Z := 65536.

Section Channel.
(** The byte order of the host, which the length goes out in. *)
Context (big_endian : bool).
Definition length_bytes (n : Z) : bytes := if big_endian then rev (le_bytes 4 n) else le_bytes 4 n.
Definition length_value (l : bytes) : Z := if big_endian then le_value (rev l) else le_value l.

(** [send]. *)
Definition oob_send (deadline : option Z) (answers : list socket_answer) (payload : bytes)
    : io unit * bytes * list socket_answer :=
  if k_max_message <? Z.of_nat (length payload) then (Throws (str "oob: message is too large"), [], answers)
  else
    let '(r, wire1, answers) := write_all deadline answers (length_bytes (u32 (Z.of_nat (length payload)))) in
    match r with
    | Done _ =>
        let '(r, wire2, answers) := write_all deadline answers payload in (r, wire1 ++ wire2, answers)
    | _ => (r, wire1, answers)
    end.

(** [recv]. *)
Definition oob_recv (deadline : option Z) (answers : list socket_answer) (wire : bytes)
    : io bytes * bytes * list socket_answer :=
  let '(r, wire, answers) := read_all deadline answers 4 wire in
  match r with
  | Done l =>
      if k_max_message <? length_value l then (Throws (str "oob: implausible message length"), wire, answers)
      else read_all deadline answers (Z.to_nat (length_value l)) wire
  | r => (r, wire, answers)
  end.

(** Messages sent one after the other, and received one after the other. *)
Fixpoint oob_sends (deadline : option Z) (answers : list socket_answer) (payloads : list bytes)
    : io unit * bytes * list socket_answer :=
  match payloads with
  | [] => (Done tt, [], answers)
  | payload :: payloads =>
      let '(r, wire1, answers) := oob_send deadline answers payload in
      match r with
      | Done _ => let '(r, wire2, answers) := oob_sends deadline answers payloads in (r, wire1 ++ wire2, answers)
      | _ => (r, wire1, answers)
      end
  end.
Fixpoint oob_recvs (count : nat) (deadline : option Z) (answers : list socket_answer) (wire : bytes)
    : io (list bytes) * bytes * list socket_answer :=
  match count with
  | O => (Done [], wire, answers)
  | S count =>
      let '(r, wire, answers) := oob_recv deadline answers wire in
      match r with
      | Done payload =>
          let '(r, wire, answers) := oob_recvs count deadline answers wire in
          (match r with Done l => Done (payload :: l) | Throws what => Throws what | Waits => Waits end, wire, answers)
      | Throws what => (Throws what, wire, answers)
      | Waits => (Waits, wire, answers)
      end
  end.
End Channel.

(** ** The waits *)

(** [poll] is never asked to come back before the deadline, nor a millisecond after it, as
    long as what remains fits its argument -- some 24 days. *)
Theorem poll_timeout_covers remaining (Hr : 0 < remaining <= int_max * 1000000) :
  0 < poll_timeout remaining /\ remaining <= poll_timeout remaining * 1000000 < remaining + 1000000.
Proof.
  unfold poll_timeout, int_max in *. rewrite Z.quot_div_nonneg by lia.
  pose proof (Z.div_mod remaining 1000000 ltac:(lia)). pose proof (Z.mod_pos_bound remaining 1000000 ltac:(lia)).
  destruct (Z.ltb_spec (remaining / 1000000 * 1000000) remaining); lia.
Qed.

Lemma poll_timeout_covers_witness : poll_timeout 5000000001 = 5001 /\ 0 < poll_timeout 5000000001.
Proof. split; [reflexivity|]. apply (poll_timeout_covers 5000000001). unfold int_max. lia. Defined.

(** A wait with a deadline ends: no turn that starts at the deadline or after polls again. *)
Theorem wait_ends_at_deadline d turns now answer rest
  (Hlate : d <= now) : wait_for (Some d) (turns ++ (now, answer) :: rest) <> Waits.
Proof.
  induction turns as [|[t []] turns IH]; cbn; [rewrite (proj2 (Z.leb_le _ _)) by lia; done|..];
    destruct (d - t <=? 0); done.
Qed.
Lemma wait_ends_at_deadline_witness :
  wait_for (Some 100) ([(40, PollInterrupted); (90, PollInterrupted)] ++ (100, PollReady) :: []) <> Waits.
Proof. apply wait_ends_at_deadline. lia. Defined.

(** ** Round trip *)

Lemma write_all_done deadline answers data wire rest :
  write_all deadline answers data = (Done tt, wire, rest) -> wire = data.
Proof.
  revert data wire rest. induction answers as [|a answers IH]; intros [|b data] wire rest; cbn; try by intros [= <- _].
  destruct a as [[|n]|turns| |]; [done| |destruct (wait_for _ _) as [[]| |]; [|done..]; by apply IH|by apply IH|done].
  destruct (write_all deadline answers _) as [[r w] rest'] eqn:Hw. intros [= -> <- _].
  apply IH in Hw. subst w. cbn. by rewrite take_drop.
Qed.

Lemma read_all_done deadline answers size wire got wire' rest :
  read_all deadline answers size wire = (Done got, wire', rest) -> length got = size /\ wire = got ++ wire'.
Proof.
  revert size wire got wire' rest. induction answers as [|a answers IH]; intros [|size] wire got wire' rest;
    cbn -[Nat.min]; try by intros [= <- <- _].
  destruct a as [n|turns| |]; [|destruct (wait_for _ _) as [[]| |]; [|done..]; by apply IH|by apply IH|done].
  destruct (take (Nat.min n (S size)) wire) as [|b g] eqn:Hg; [done|].
  destruct (read_all deadline answers _ _) as [[r w] rest'] eqn:Hr. destruct r as [more| |]; [|done..].
  intros [= <- <- _]. apply IH in Hr as [Hl Hw].
  assert (length (b :: g) <= S size)%nat as Hle by (rewrite <-Hg, length_take; lia).
  cbn [length] in *. rewrite length_app. split; [cbn; lia|].
  assert (take (length (b :: g)) wire = b :: g) as Hpre.
  { rewrite <-Hg at 2. rewrite <-Hg, length_take, <-take_take. by rewrite (take_ge wire) by done. }
  cbn [length] in Hpre. rewrite <-(take_drop (S (length g)) wire) at 1. by rewrite Hpre, Hw, app_assoc.
Qed.

Section RoundTrip.
Context (big_endian : bool).

Lemma length_length_bytes n : length (length_bytes big_endian n) = 4%nat.
Proof. unfold length_bytes. by destruct big_endian; rewrite ?length_rev, length_le_bytes. Qed.
Lemma length_value_bytes n : in_range 32 n -> length_value big_endian (length_bytes big_endian n) = n.
Proof. intros Hn. unfold length_bytes, length_value. by destruct big_endian; rewrite ?rev_involutive; apply le_value_small. Qed.

Lemma oob_send_done deadline answers payload wire rest :
  oob_send big_endian deadline answers payload = (Done tt, wire, rest) ->
  Z.of_nat (length payload) <= 65536 /\ wire = length_bytes big_endian (Z.of_nat (length payload)) ++ payload.
Proof.
  unfold oob_send. change k_max_message with 65536. destruct (Z.ltb_spec 65536 (Z.of_nat (length payload))); [done|].
  rewrite wrap_small by (unfold in_range; lia).
  destruct (write_all _ _ (length_bytes _ _)) as [[[[]| |] w1] a1] eqn:H1; [|done..].
  destruct (write_all _ _ payload) as [[r w2] a2] eqn:H2. intros [= -> <- _].
  apply write_all_done in H1, H2. by subst.
Qed.

Lemma oob_recv_done deadline answers payload wire got wire' rest :
  Z.of_nat (length payload) <= 65536 ->
  oob_recv big_endian deadline answers (length_bytes big_endian (Z.of_nat (length payload)) ++ payload ++ wire) =
    (Done got, wire', rest) ->
  got = payload /\ wire' = wire.
Proof.
  intros Hlen. unfold oob_recv. destruct (read_all _ _ 4 _) as [[[l| |] w] a] eqn:H1; [|done..].
  apply read_all_done in H1 as [Hl Hw]. apply app_inj_1 in Hw as [Hlb Hw]; [|by rewrite length_length_bytes].
  subst l. rewrite length_value_bytes by (unfold in_range; lia). change k_max_message with 65536.
  rewrite (proj2 (Z.ltb_ge _ _)) by lia. intros H2. apply read_all_done in H2 as [Hg Hw2].
  rewrite Nat2Z.id in Hg. rewrite <-Hw in Hw2. by apply app_inj_1 in Hw2 as [-> ->].
Qed.

(** the benchmark's coordination channel carries messages intact. Whatever pieces the sockets take and give,
    and whatever waits and signals come between: when sending a series of messages succeeds, no message was
    longer than 65,536 bytes, and when as many are received on the other side -- on a host of the same byte
    order -- they are the messages that were sent, in order, and what follows on the connection is untouched. *)
Theorem oob_roundtrip deadline answers payloads wire rest deadline' answers' got wire' rest' more
  (Hsend : oob_sends big_endian deadline answers payloads = (Done tt, wire, rest))
  (Hrecv : oob_recvs big_endian (length payloads) deadline' answers' (wire ++ more) = (Done got, wire', rest')) :
  got = payloads /\ wire' = more /\ Forall (fun p => Z.of_nat (length p) <= k_max_message) payloads.
Proof.
  revert answers wire rest answers' got rest' Hsend Hrecv.
  induction payloads as [|p payloads IH]; intros answers wire rest answers' got rest' Hsend Hrecv; cbn in Hsend, Hrecv.
  { injection Hsend as <- _. injection Hrecv as <- <- _. done. }
  destruct (oob_send _ _ _ p) as [[[[]| |] w1] a1] eqn:H1; [|done..].
  destruct (oob_sends _ _ a1 payloads) as [[r w2] a2] eqn:H2. injection Hsend as -> <- _.
  apply oob_send_done in H1 as [Hlen ->]. rewrite <-!app_assoc in Hrecv.
  destruct (oob_recv _ _ _ _) as [[[got1| |] w'] a'] eqn:H3; [|done..]. apply oob_recv_done in H3 as [-> ->]; [|done].
  destruct (oob_recvs _ _ _ _ _) as [[[l| |] w''] a''] eqn:H4; [|done..]. injection Hrecv as <- <- _.
  destruct (IH _ _ _ _ _ _ H2 H4) as (-> & -> & Hall). split; [done|]. split; [done|]. by constructor.
Qed.
End RoundTrip.

(** Two messages, in pieces of one to three bytes, with a full buffer, a signal and a wait between. *)
Definition sample_pieces : list socket_answer :=
  WouldBlock [(10, PollInterrupted); (20, PollReady)] :: Interrupted :: replicate 20 (Moved 3).
Lemma oob_roundtrip_witness :
  exists wire rest got rest', oob_sends true (Some 100) sample_pieces [str "open"; str "close"] = (Done tt, wire, rest) /\
    oob_recvs true 2 None (replicate 30 (Moved 2)) (wire ++ str "x") = (Done got, str "x", rest') /\ got = [str "open"; str "close"].
Proof.
  destruct (oob_sends true (Some 100) sample_pieces [str "open"; str "close"]) as [[r wire] rest] eqn:Hs.
  assert (r = Done tt) as -> by (vm_compute in Hs; injection Hs as <- _ _; reflexivity).
  destruct (oob_recvs true 2 None (replicate 30 (Moved 2)) (wire ++ str "x")) as [[r' wire'] rest'] eqn:Hr.
  assert (exists got, r' = Done got) as [got ->].
  { vm_compute in Hs. injection Hs as <- _. vm_compute in Hr. injection Hr as <- _ _. by eexists. }
  destruct (oob_roundtrip true (Some 100) sample_pieces [str "open"; str "close"] wire rest None (replicate 30 (Moved 2)) got wire' rest'
    (str "x") Hs Hr) as (Hg & Hw & _).
  exists wire, rest, got, rest'. split; [reflexivity|]. split; [rewrite Hr, Hw; reflexivity|exact Hg].
Defined.

(** ** Progress *)

(** An answer that lets the loop go on, and one that moves bytes. *)
Definition goes_on (deadline : option Z) (a : socket_answer) : Prop :=
  match a with
  | Moved n => n <> O
  | WouldBlock turns => wait_for deadline turns = Done tt
  | Interrupted => True
  | SocketFailed => False
  end.
Fixpoint move_count (answers : list socket_answer) : nat :=
  match answers with
  | [] => 0
  | Moved _ :: answers => S (move_count answers)
  | _ :: answers => move_count answers
  end.

(** A connection that keeps taking something takes everything: as many calls that move a byte as there are
    bytes are enough. *)
Lemma write_all_ends deadline answers data :
  Forall (goes_on deadline) answers -> (length data <= move_count answers)%nat ->
  exists rest, write_all deadline answers data = (Done tt, data, rest).
Proof.
  intros Hall. revert data. induction Hall as [|a answers Ha Hall IH]; intros [|b data] Hn; cbn; try by eauto.
  - cbn in Hn. lia.
  - destruct a as [[|n]|turns| |]; cbn in Ha, Hn; try done.
    + destruct (IH (drop (S n) (b :: data))) as [rest ->]; [rewrite length_drop; cbn; lia|]. rewrite take_drop. by eauto.
    + rewrite Ha. by apply (IH (b :: data)).
    + by apply (IH (b :: data)).
Qed.
