(* ===== verification/BenchSockets.v ===== *)
(** * The sockets of the benchmark's channel

    How an [OobChannel] of [src/benchmarks/oob.h] is made, moved and destroyed, on the
    monad of [Handles].  What goes over it is in [BenchChannel]. *)
From stdpp Require Import gmap strings.
From S2P Require Import Prelude Text Handles.
#[local] Open Scope Z_scope.

(** A channel is its two descriptors. *)
Record OobChannel : Type := mkOobChannel { oc_fd : Z; oc_listen_fd : Z }.
Definition OobChannel_default : OobChannel := mkOobChannel (-1) (-1).
(** The move constructor: the new channel and what is left of the old one. *)
Definition OobChannel_move (c : OobChannel) : OobChannel * OobChannel := (c, mkOobChannel (-1) (-1)).
Definition close_fd (fd : Z) : proc unit := if 0 <=? fd then close_handle Descriptor fd else mret tt.
Definition OobChannel_destroy (c : OobChannel) : proc unit := close_fd (oc_fd c);; close_fd (oc_listen_fd c).

Section Sockets.
Context (ans : nat -> bool) (next : Kind -> Z -> Table -> Z).
#[local] Abbreviation ask := (ask ans).
#[local] Abbreviation open_handle := (open_handle next).

(** The channel under construction is two variables, destroyed when the function throws;
    a call that returns a descriptor returns -1 when it fails. *)
Definition channel : proc OobChannel := fd ← var "fd_"; listen_fd ← var "listen_fd_"; mret (mkOobChannel fd listen_fd).
Definition channel_or_destroyed (body : proc unit) : proc OobChannel :=
  assign "fd_" (-1);; assign "listen_fd_" (-1);;
  cleanup body (c ← channel; OobChannel_destroy c);; channel.
Definition descriptor (x : string) (target : Target) : proc unit :=
  ok ← ask; if (ok : bool) then fd ← open_handle Descriptor 0 (mkHeld target false); assign x fd else assign x (-1).
Definition descriptor_set (x : string) (what : bytes) : proc unit := fd ← var x; if fd <? 0 then raise what else mret tt.

(** [accept_one]; [setsockopt] is not looked at. *)
Definition accept_one (port : Z) : proc OobChannel :=
  channel_or_destroyed
    (descriptor "listen_fd_" Listener;; descriptor_set "listen_fd_" (str "socket() failed");;
     checked ans (str "bind() failed on port " ++ to_string port);;
     checked ans (str "listen() failed");;
     descriptor "fd_" Connection;; descriptor_set "fd_" (str "accept() failed")).

(** [connect_to]: [getaddrinfo] fails, or finds nothing, or a list of addresses. *)
Inductive Lookup_answer : Type := LookupFails | LookupEmpty | LookupFound.
Definition connect_to (host : bytes) (port : Z) (found : Lookup_answer) : proc OobChannel :=
  channel_or_destroyed
    (result ← (match found with LookupFound => open_handle AddrInfo 1 (mkHeld Other false) | _ => mret 0 end);
     (if result =? 0 then raise (str "could not resolve " ++ host) else mret tt);;
     descriptor "fd_" Connection;;
     fd ← var "fd_";
     ok ← (if 0 <=? fd then ask else mret false);
     close_handle AddrInfo result;;
     if (ok : bool) then mret tt else raise (str "could not connect to " ++ host ++ str ":" ++ to_string port)).
End Sockets.

(** ** All or nothing *)

#[local] Ltac socket_step :=
  lazymatch goal with
  | |- wp (descriptor _ _ _ _) _ _ => unfold descriptor
  | |- wp (descriptor_set _ _) _ _ => unfold descriptor_set
  | |- wp channel _ _ => unfold channel
  | |- wp (OobChannel_destroy _) _ _ => unfold OobChannel_destroy
  | |- wp (close_fd _) _ _ => unfold close_fd; cbn [oc_fd oc_listen_fd]
  | |- _ => wp_step
  end; wp_simpl; cbn [oc_fd oc_listen_fd].

Section Made.
Context {ans : nat -> bool} {next : Kind -> Z -> Table -> Z} (Hnext : hands_out next).

Lemma accept_one_spec port o :
  wp (accept_one ans next port) (fun r s => match r with
    | Val c => 0 <= oc_fd c /\ 0 <= oc_listen_fd c /\ oc_fd c <> oc_listen_fd c /\
        o !! (Descriptor, oc_fd c) = None /\ o !! (Descriptor, oc_listen_fd c) = None /\
        mc_open s = <[(Descriptor, oc_fd c) := mkHeld Connection false]>
                      (<[(Descriptor, oc_listen_fd c) := mkHeld Listener false]> o)
    | Err _ => mc_open s = o
    | Fault => False end) (machine o).
Proof using Hnext.
  unfold accept_one, channel_or_destroyed. repeat socket_step; try table_eq. table_facts.
  do 2 (split; [lia|]). split; [congruence|]. done.
Qed.

Lemma connect_to_spec host port found o :
  wp (connect_to ans next host port found) (fun r s => match r with
    | Val c => 0 <= oc_fd c /\ oc_listen_fd c = -1 /\ o !! (Descriptor, oc_fd c) = None /\
        mc_open s = <[(Descriptor, oc_fd c) := mkHeld Connection false]> o
    | Err _ => mc_open s = o
    | Fault => False end) (machine o).
Proof using Hnext.
  unfold connect_to, channel_or_destroyed. destruct found; repeat socket_step; try table_eq.
Qed.
End Made.

(** What a channel holds. *)
Definition channel_holds (c : OobChannel) (o o' : Table) : Prop :=
  mc_open (snd (OobChannel_destroy c (machine o'))) = o /\ fst (OobChannel_destroy c (machine o')) = Val tt.

Lemma channel_destroyed c o target :
  0 <= oc_fd c -> o !! (Descriptor, oc_fd c) = None -> oc_listen_fd c = -1 ->
  channel_holds c o (<[(Descriptor, oc_fd c) := mkHeld target false]> o).
Proof.
  intros Hf Ho Hl. assert (wp (OobChannel_destroy c) (fun r s => mc_open s = o /\ r = Val tt)
    (machine (<[(Descriptor, oc_fd c) := mkHeld target false]> o))) as H.
  { destruct c as [fd listen_fd]. cbn [oc_fd oc_listen_fd] in *. subst listen_fd. repeat socket_step. by split; [table_eq|]. }
  exact (wp_run _ _ _ H).
Qed.
Lemma listening_channel_destroyed c o :
  0 <= oc_fd c -> 0 <= oc_listen_fd c -> oc_fd c <> oc_listen_fd c ->
  o !! (Descriptor, oc_fd c) = None -> o !! (Descriptor, oc_listen_fd c) = None ->
  channel_holds c o (<[(Descriptor, oc_fd c) := mkHeld Connection false]> (<[(Descriptor, oc_listen_fd c) := mkHeld Listener false]> o)).
Proof.
  intros Hf Hl Hne Ho Ho'. match goal with |- channel_holds _ _ ?t => assert (wp (OobChannel_destroy c) (fun r s => mc_open s = o /\ r = Val tt) (machine t)) as H end.
  { destruct c as [fd listen_fd]. cbn [oc_fd oc_listen_fd] in *.
    repeat socket_step. split; [|done]. table_eq. }
  exact (wp_run _ _ _ H).
Qed.

(** a channel is made whole or not at all. Whatever the system answers, neither
    [accept_one] nor [connect_to] closes what is not open; when one throws, every descriptor
    and the list of addresses are released; when it returns, destroying the channel closes
    exactly what was opened, and so does destroying it after a move, while what was moved
    from holds nothing. *)
Theorem channel_all_or_nothing ans next host port found o (Hnext : hands_out next) (m : proc OobChannel)
  (Hm : m = accept_one ans next port \/ m = connect_to ans next host port found) :
  match m (machine o) with
  | (Fault, _) => False
  | (Err _, s) => mc_open s = o
  | (Val c, s) =>
      channel_holds c o (mc_open s) /\
      let '(c', old) := OobChannel_move c in
      channel_holds c' o (mc_open s) /\ channel_holds old (mc_open s) (mc_open s)
  end.
Proof.
  assert (match m (machine o) with
    | (Fault, _) => False | (Err _, s) => mc_open s = o | (Val c, s) => channel_holds c o (mc_open s) end) as H.
  { destruct Hm as [-> | ->].
    - pose proof (wp_run _ _ _ (accept_one_spec (ans := ans) Hnext port o)) as H.
      destruct (accept_one ans next port (machine o)) as [[c|e|] s]; cbn [fst snd] in H; [|done..].
      destruct H as (Hf & Hl & Hne & Ho & Ho' & ->). by apply listening_channel_destroyed.
    - pose proof (wp_run _ _ _ (connect_to_spec (ans := ans) Hnext host port found o)) as H.
      destruct (connect_to ans next host port found (machine o)) as [[c|e|] s]; cbn [fst snd] in H; [|done..].
      destruct H as (Hf & Hl & Ho & ->). by apply channel_destroyed. }
  destruct (m (machine o)) as [[c|e|] s]; [|done..]. split; [done|]. split; [done|]. by split.
Qed.

Lemma channel_all_or_nothing_witness :
  let '(r, s) := connect_to (fun _ => true) counting (str "host") 18515 LookupFound (machine ∅) in
  r = Val (mkOobChannel 2 (-1)) /\ channel_holds (mkOobChannel 2 (-1)) ∅ (mc_open s).
Proof.
  assert (fst (connect_to (fun _ => true) counting (str "host") 18515 LookupFound (machine ∅)) = Val (mkOobChannel 2 (-1))) as E
    by (vm_compute; reflexivity).
  pose proof (channel_all_or_nothing (fun _ => true) counting (str "host") 18515 LookupFound ∅ counting_hands_out _ (or_intror eq_refl)) as H.
  destruct (connect_to _ _ _ _ _ _) as [r s]. cbn [fst] in E. subst r. split; [reflexivity|exact (proj1 H)].
Defined.
