(* ===== verification/BenchPattern.v ===== *)
(** * The payload of the benchmark

    [pattern_word], [fill_pattern] and [pattern_matches] of [src/benchmarks/bulk_bench.cpp]:
    the bytes a frame is filled with and the check of the receiver.  A word is stored as the
    host stores it; hosts here are little-endian.  An access past the payload is a
    [Fault]. *)
From stdpp Require Import list.
From S2P Require Import Prelude ByteOrder.
From S2P Require Import Hdf5Shards.
#[local] Open Scope Z_scope.

(** ** Definitions *)

Definition pattern_word (frame index : Z) : Z :=
  Z.lxor (u64 (frame * 2654435761)) (u64 (index * 11400714819323198485)).

(** The loop over the whole words, from word [j]. *)
Fixpoint fill_words (count j : nat) (frame : Z) (data : bytes) : hres bytes :=
  match count with
  | O => Val data
  | S count =>
      let! data := put_bytes data (8 * j) (le_bytes 8 (pattern_word frame (Z.of_nat j))) in
      fill_words count (S j) frame data
  end.
Definition fill_pattern (data : bytes) (size : nat) (frame : Z) : hres bytes :=
  let whole := (size / 8)%nat in
  let tail := (size mod 8)%nat in
  let! data := fill_words whole 0 frame data in
  if (tail =? 0)%nat then Val data
  else put_bytes data (8 * whole) (take tail (le_bytes 8 (pattern_word frame (Z.of_nat whole)))).

Fixpoint match_words (count j : nat) (frame : Z) (data : bytes) : hres bool :=
  match count with
  | O => Val true
  | S count =>
      let! word := get_bytes data (8 * j) 8 in
      if le_value word =? pattern_word frame (Z.of_nat j) then match_words count (S j) frame data else Val false
  end.
Definition pattern_matches (data : bytes) (size : nat) (frame : Z) : hres bool :=
  let whole := (size / 8)%nat in
  let tail := (size mod 8)%nat in
  let! same := match_words whole 0 frame data in
  if negb same then Val false
  else if (tail =? 0)%nat then Val true
  else
    let! rest := get_bytes data (8 * whole) tail in
    Val (bool_decide (rest = take tail (le_bytes 8 (pattern_word frame (Z.of_nat whole))))).

(** [data[size / 2] ^= 0xFF]. *)
Definition corrupt_payload (data : bytes) (size : nat) : hres bytes :=
  let p := (size / 2)%nat in
  match data !! p with
  | Some b => Val (<[p := byte_of_Z (Z.lxor (Z_of_byte b) 255)]> data)
  | None => Fault
  end.

(** ** The bytes of a pattern *)

Fixpoint pattern_words (count j : nat) (frame : Z) : bytes :=
  match count with
  | O => []
  | S count => le_bytes 8 (pattern_word frame (Z.of_nat j)) ++ pattern_words count (S j) frame
  end.
Definition pattern_bytes (size : nat) (frame : Z) : bytes :=
  pattern_words (size / 8) 0 frame ++ take (size mod 8) (le_bytes 8 (pattern_word frame (Z.of_nat (size / 8)))).

Lemma length_pattern_words count j frame : length (pattern_words count j frame) = (8 * count)%nat.
Proof.
  revert j. induction count as [|count IH]; intros j; [done|]. cbn [pattern_words].
  rewrite length_app, length_le_bytes, IH. lia.
Qed.
Lemma size_parts size : (size = 8 * (size / 8) + size mod 8 /\ size mod 8 < 8)%nat.
Proof. split; [apply Nat.div_mod_eq|apply Nat.mod_upper_bound; lia]. Qed.
Lemma length_pattern_bytes size frame : length (pattern_bytes size frame) = size.
Proof.
  unfold pattern_bytes. rewrite length_app, length_pattern_words, length_take, length_le_bytes.
  pose proof (size_parts size). lia.
Qed.

Lemma write_write {A} (l : list A) p x y :
  (p + length x + length y <= length l)%nat -> write (write l p x) (p + length x) y = write l p (x ++ y).
Proof.
  intros Hl. apply list_eq. intros i.
  assert (length (write l p x) = length l) as Hw by (apply length_write; lia).
  destruct (decide (p + length x <= i < p + length x + length y)%nat).
  - rewrite !lookup_write_inside by (rewrite ?length_app; lia). rewrite lookup_app_r by lia. f_equal. lia.
  - rewrite lookup_write_outside by lia. destruct (decide (p <= i < p + length x)%nat).
    + rewrite !lookup_write_inside by (rewrite ?length_app; lia). by rewrite lookup_app_l by lia.
    + rewrite !lookup_write_outside by (rewrite ?length_app; lia). done.
Qed.
Lemma slice_app {A} (l : list A) p m n : slice l p (m + n) = slice l p m ++ slice l (p + m) n.
Proof. unfold slice. by rewrite <-drop_drop, take_take_drop. Qed.

Lemma fill_words_spec count j frame data :
  (8 * (j + count) <= length data)%nat -> fill_words count j frame data = Val (write data (8 * j) (pattern_words count j frame)).
Proof.
  revert j data. induction count as [|count IH]; intros j data Hl; cbn [fill_words pattern_words].
  - unfold write. rewrite app_nil_l, Nat.add_0_r, take_drop. done.
  - rewrite put_bytes_write by (rewrite length_le_bytes; lia). cbn [outcome_bind].
    rewrite IH by (rewrite length_write by (rewrite length_le_bytes; lia); lia). f_equal.
    rewrite <-write_write by (rewrite length_le_bytes, length_pattern_words; lia). f_equal. rewrite length_le_bytes. lia.
Qed.

(** Filling writes the pattern and nothing else. *)
Lemma fill_pattern_spec data size frame :
  (size <= length data)%nat -> fill_pattern data size frame = Val (pattern_bytes size frame ++ drop size data).
Proof.
  intros Hl. unfold fill_pattern. destruct (size_parts size) as [Hs Ht].
  rewrite fill_words_spec by lia. cbn [outcome_bind]. set (w := pattern_words (size / 8) 0 frame).
  assert (length w = 8 * (size / 8))%nat as Hw by apply length_pattern_words.
  assert (forall x, length x = size -> write data 0 x = x ++ drop size data) as H0 by (by intros x <-).
  unfold pattern_bytes. fold w. destruct (Nat.eqb_spec (size mod 8) 0) as [Hz|Hz].
  - rewrite Hz, take_0, app_nil_r. f_equal. apply H0. lia.
  - rewrite put_bytes_write by (rewrite length_write, length_take, length_le_bytes by lia; lia). f_equal.
    rewrite Nat.mul_0_r, <-Hw, <-(Nat.add_0_l (length w)), write_write by (rewrite length_take, length_le_bytes; lia).
    apply H0. rewrite length_app, length_take, length_le_bytes. lia.
Qed.

Lemma lxor_range w a b : 0 <= w -> in_range w a -> in_range w b -> in_range w (Z.lxor a b).
Proof.
  intros Hw Ha Hb. enough (Z.lxor a b = wrap w (Z.lxor a b)) as -> by by apply wrap_in_range.
  unfold wrap, in_range in *. apply Z.bits_inj'. intros n Hn. destruct (decide (n < w)).
  - by rewrite Z.mod_pow2_bits_low.
  - rewrite Z.mod_pow2_bits_high by lia. rewrite Z.lxor_spec.
    rewrite <-(Z.mod_small a (2 ^ w)), <-(Z.mod_small b (2 ^ w)) by lia.
    by rewrite !Z.mod_pow2_bits_high by lia.
Qed.
Lemma pattern_word_range frame index : in_range 64 (pattern_word frame index).
Proof. apply lxor_range; [lia|apply wrap_in_range; lia..]. Qed.

Lemma le_value_inj l l' : length l = length l' -> le_value l = le_value l' -> l = l'.
Proof.
  revert l'. induction l as [|b l IH]; intros [|b' l'] Hl Hv; cbn in *; try done.
  pose proof (Z_of_byte_range b). pose proof (Z_of_byte_range b'). unfold in_range in *.
  assert (le_value l = le_value l') by lia. f_equal; [apply Z_of_byte_inj; lia|apply IH; [lia|done]].
Qed.
Lemma word_same l frame index :
  length l = 8%nat -> (le_value l =? pattern_word frame index) = bool_decide (l = le_bytes 8 (pattern_word frame index)).
Proof.
  intros Hl. assert (le_value (le_bytes 8 (pattern_word frame index)) = pattern_word frame index) as Hw
    by (apply le_value_small, pattern_word_range).
  case_bool_decide as Hb; [subst l; by rewrite Hw, Z.eqb_refl|].
  apply Z.eqb_neq. intros Hv. apply Hb, le_value_inj; [by rewrite Hl|by rewrite Hw].
Qed.

Lemma match_words_spec count j frame data :
  (8 * (j + count) <= length data)%nat ->
  match_words count j frame data = Val (bool_decide (slice data (8 * j) (8 * count) = pattern_words count j frame)).
Proof.
  revert j. induction count as [|count IH]; intros j Hl; cbn [match_words pattern_words].
  - by rewrite bool_decide_eq_true_2.
  - rewrite get_bytes_slice by lia. cbn [outcome_bind]. rewrite word_same by (apply length_slice; lia).
    replace (8 * S count)%nat with (8 + 8 * count)%nat by lia. rewrite slice_app.
    replace (8 * j + 8)%nat with (8 * S j)%nat by lia.
    case_bool_decide as Hw.
    + rewrite IH by lia. f_equal. apply bool_decide_ext. rewrite Hw. split; [by intros ->|apply app_inv_head].
    + f_equal. symmetry. apply bool_decide_eq_false_2. intros Happ. apply Hw.
      apply (app_inj_1 _ _ _ _) in Happ as [? _]; [done|]. rewrite length_slice, length_le_bytes by lia. done.
Qed.

(** The check accepts exactly the pattern. *)
Lemma pattern_matches_spec data size frame :
  (size <= length data)%nat -> pattern_matches data size frame = Val (bool_decide (take size data = pattern_bytes size frame)).
Proof.
  intros Hl. unfold pattern_matches. destruct (size_parts size) as [Hs Ht].
  rewrite match_words_spec by lia. cbn [outcome_bind].
  assert (take size data = slice data 0 (8 * (size / 8)) ++ slice data (8 * (size / 8)) (size mod 8)) as Htake.
  { pose proof (slice_app data 0 (8 * (size / 8)) (size mod 8)) as Ha. rewrite <-Hs in Ha. exact Ha. }
  rewrite Htake. unfold pattern_bytes. set (w := pattern_words (size / 8) 0 frame).
  assert (length (slice data 0 (8 * (size / 8))) = length w) as Hlw
    by (unfold w; rewrite length_pattern_words, length_slice by lia; done).
  rewrite Nat.mul_0_r. case_bool_decide as Hw; cbn [negb].
  - rewrite Hw. destruct (Nat.eqb_spec (size mod 8) 0) as [Hz|Hz].
    + rewrite Hz. cbn [take]. unfold slice. rewrite take_0. by rewrite bool_decide_eq_true_2.
    + rewrite get_bytes_slice by lia. cbn [outcome_bind]. f_equal. apply bool_decide_ext.
      split; [by intros ->|apply app_inv_head].
  - f_equal. symmetry. apply bool_decide_eq_false_2. intros Happ. by apply app_inj_1 in Happ as [? _].
Qed.

(** ** What the check can tell apart *)

(** Multiplying by an odd constant loses nothing: it has an inverse modulo [2^64]. *)
Lemma frame_hash_inverse frame : in_range 64 frame -> u64 (u64 (frame * 2654435761) * 14962265741255716689) = frame.
Proof.
  intros Hf. unfold wrap. rewrite Z.mul_mod_idemp_l, <-Z.mul_assoc, <-Z.mul_mod_idemp_r by lia.
  change ((2654435761 * 14962265741255716689) mod 2 ^ 64) with 1. rewrite Z.mul_1_r. by apply Z.mod_small.
Qed.
Lemma frame_hash_inj frame frame' :
  in_range 64 frame -> in_range 64 frame' -> u64 (frame * 2654435761) = u64 (frame' * 2654435761) -> frame = frame'.
Proof. intros Hf Hf' He. by rewrite <-(frame_hash_inverse frame), <-(frame_hash_inverse frame'), He. Qed.

(** The words of two frames differ at every index. *)
Lemma pattern_word_inj frame frame' index :
  in_range 64 frame -> in_range 64 frame' -> pattern_word frame index = pattern_word frame' index -> frame = frame'.
Proof.
  unfold pattern_word. intros Hf Hf' He. apply frame_hash_inj; [done..|].
  set (a := u64 (frame * _)) in *. set (b := u64 (frame' * _)) in *. set (c := u64 (index * _)) in *.
  apply (f_equal (fun z => Z.lxor z c)) in He. rewrite !Z.lxor_assoc, Z.lxor_nilpotent, !Z.lxor_0_r in He. done.
Qed.

Lemma pattern_bytes_inj size frame frame' :
  (8 <= size)%nat -> in_range 64 frame -> in_range 64 frame' -> pattern_bytes size frame = pattern_bytes size frame' ->
  frame = frame'.
Proof.
  intros Hs Hf Hf' He. destruct (size_parts size) as [Hp _]. unfold pattern_bytes in He.
  destruct (size / 8)%nat as [|n] eqn:Hn; [pose proof (Nat.mod_upper_bound size 8); lia|].
  cbn [pattern_words] in He. rewrite <-!app_assoc in He. apply app_inj_1 in He as [He _]; [|by rewrite !length_le_bytes].
  apply (f_equal le_value) in He. rewrite !le_value_small in He by apply pattern_word_range.
  by apply (pattern_word_inj _ _ _ Hf Hf' He).
Qed.

Lemma flipped_byte b : byte_of_Z (Z.lxor (Z_of_byte b) 255) <> b.
Proof. by destruct b. Qed.

Lemma corrupt_payload_spec data size :
  (0 < size <= length data)%nat ->
  exists data', corrupt_payload data size = Val data' /\ length data' = length data /\ take size data' <> take size data.
Proof.
  intros Hs. unfold corrupt_payload. assert (size / 2 < size)%nat as Hp by (apply Nat.div_lt; lia).
  destruct (lookup_lt_is_Some_2 data (size / 2)%nat ltac:(lia)) as [b Hb]. rewrite Hb. eexists. split; [done|].
  split; [by rewrite length_insert|]. intros He. apply (f_equal (fun l => l !! (size / 2)%nat)) in He.
  rewrite !lookup_take_lt, list_lookup_insert_eq, Hb in He by lia. injection He. apply flipped_byte.
Qed.

(** the benchmark's check is exact. Filling a frame writes its pattern into the payload and not a byte
    beyond, at any size; the check reads nothing beyond the payload either and accepts exactly the pattern of the
    frame: what was filled passes; a payload that was damaged by [--corrupt-every] does not, at any size; and
    from eight bytes on, neither does the payload of any other frame, such as one delivered from the wrong slot. *)
Theorem pattern_check_exact data size frame (Hlen : (0 < size <= length data)%nat) (Hf : in_range 64 frame) :
  exists filled damaged, fill_pattern data size frame = Val filled /\
    length filled = length data /\ drop size filled = drop size data /\
    pattern_matches filled size frame = Val true /\
    corrupt_payload filled size = Val damaged /\ pattern_matches damaged size frame = Val false /\
    (forall got, length got = length data -> exists b, pattern_matches got size frame = Val b /\
       (b = true <-> take size got = take size filled)) /\
    (forall other, (8 <= size)%nat -> in_range 64 other -> other <> frame -> pattern_matches filled size other = Val false).
Proof.
  pose proof (length_pattern_bytes size frame) as Hp.
  assert (take size (pattern_bytes size frame ++ drop size data) = pattern_bytes size frame) as Htake
    by (by rewrite <-Hp at 1; rewrite take_app_length).
  assert (length (pattern_bytes size frame ++ drop size data) = length data) as Hl
    by (rewrite length_app, length_drop; lia).
  rewrite fill_pattern_spec by lia. set (filled := pattern_bytes size frame ++ drop size data) in *.
  destruct (corrupt_payload_spec filled size ltac:(lia)) as (damaged & Hd & Hdl & Hdt).
  exists filled, damaged. split; [done|]. split; [done|]. split; [by apply drop_app_length'|].
  split; [rewrite pattern_matches_spec by lia; by rewrite bool_decide_eq_true_2|]. split; [done|].
  split; [rewrite pattern_matches_spec by lia; by rewrite bool_decide_eq_false_2 by congruence|]. split.
  - intros got Hg. rewrite pattern_matches_spec by lia. eexists. split; [done|]. rewrite bool_decide_eq_true. by rewrite Htake.
  - intros other H8 Ho Hne. rewrite pattern_matches_spec by lia. rewrite bool_decide_eq_false_2; [done|].
    rewrite Htake. intros He. by apply pattern_bytes_inj in He.
Qed.

Lemma pattern_check_exact_witness :
  exists filled, fill_pattern (replicate 21 Byte.x00) 20 7 = Val filled /\ filled !! 20%nat = Some Byte.x00 /\
    pattern_matches filled 20 7 = Val true /\ pattern_matches filled 20 8 = Val false.
Proof.
  destruct (pattern_check_exact (replicate 21 Byte.x00) 20 7 ltac:(cbn; lia) ltac:(by vm_compute))
    as (filled & damaged & Hf & _ & _ & Hm & _ & _ & _ & Ho).
  exists filled. split; [exact Hf|]. split; [vm_compute in Hf; injection Hf as <-; reflexivity|]. split; [exact Hm|].
  apply Ho; [lia|by vm_compute|lia].
Defined.

(** Below eight bytes frames that agree in their low bytes share a pattern. *)
Lemma small_payloads_ambiguous : pattern_bytes 1 0 = pattern_bytes 1 256.
Proof. reflexivity. Qed.
