(* ===== verification/BenchHarness.v ===== *)
(** * The benchmark

    [src/benchmarks/bulk_bench.cpp]: its options, the configurations of its two roles, the
    loop that publishes and the one that receives and checks, and what each exits with.
    What the library answers -- gauges, slots, results of [publish], frames read -- and the
    clock are arguments; the payload is that of [BenchPattern], the connection that of
    [BenchChannel]. *)
From stdpp Require Import list.
From S2P Require Import Prelude Enums Limits ByteOrder Geometry Text Offer Config PinnedLedger.
From S2P Require Import Hdf5Shards Hdf5Source BenchPattern BenchChannel.
#[local] Open Scope Z_scope.

(** ** Options *)

Inductive Fill : Type := FillEach | FillOnce.
#[export] Instance Fill_eq_dec : EqDecision Fill.
Proof. solve_decision. Defined.

(** [bo_fill] is the text that was given. *)
Record BenchOptions : Type := mkBenchOptions {
  bo_role : bytes;
  bo_host : bytes;
  bo_port : Z;
  bo_size : Z;
  bo_iters : Z;
  bo_warmup : Z;
  bo_ring_depth : Z;
  bo_credit_window : Z;
  bo_tls : bytes;
  bo_verify : bool;
  bo_fill : bytes;
  bo_corrupt_every : Z;
  bo_stream : bytes
}.
Definition BenchOptions_default : BenchOptions :=
  mkBenchOptions [] (str "127.0.0.1") 18515 (2 ^ 20) 2000 100 32 16 [] false (str "each") 0 (str "bulk.bench").

(** What one option does with its value; [None] is no option. *)
Definition set_bench_option (o : BenchOptions) (name value : bytes) : option (hres BenchOptions) :=
  let '(mkBenchOptions role host port size iters warmup ring window tls verify fill corrupt stream) := o in
  let opt s := bool_decide (name = str s) in
  if opt "--role"%string then Some (Val (mkBenchOptions value host port size iters warmup ring window tls verify fill corrupt stream))
  else if opt "--host"%string then Some (Val (mkBenchOptions role value port size iters warmup ring window tls verify fill corrupt stream))
  else if opt "--port"%string then
    Some (let! v := stoul value in Val (mkBenchOptions role host (u16 v) size iters warmup ring window tls verify fill corrupt stream))
  else if opt "--size"%string then
    Some (let! v := stoul value in Val (mkBenchOptions role host port v iters warmup ring window tls verify fill corrupt stream))
  else if opt "--iters"%string then
    Some (let! v := stoul value in Val (mkBenchOptions role host port size v warmup ring window tls verify fill corrupt stream))
  else if opt "--warmup"%string then
    Some (let! v := stoul value in Val (mkBenchOptions role host port size iters v ring window tls verify fill corrupt stream))
  else if opt "--ring-depth"%string then
    Some (let! v := stoul value in Val (mkBenchOptions role host port size iters warmup (u32 v) window tls verify fill corrupt stream))
  else if opt "--credit-window"%string then
    Some (let! v := stoul value in Val (mkBenchOptions role host port size iters warmup ring (u32 v) tls verify fill corrupt stream))
  else if opt "--tls"%string then Some (Val (mkBenchOptions role host port size iters warmup ring window value verify fill corrupt stream))
  else if opt "--fill"%string then Some (Val (mkBenchOptions role host port size iters warmup ring window tls verify value corrupt stream))
  else if opt "--corrupt-every"%string then
    Some (let! v := stoul value in Val (mkBenchOptions role host port size iters warmup ring window tls verify fill v stream))
  else if opt "--stream"%string then Some (Val (mkBenchOptions role host port size iters warmup ring window tls verify fill corrupt value))
  else None.
Definition set_verify (o : BenchOptions) : BenchOptions :=
  let '(mkBenchOptions role host port size iters warmup ring window tls _ fill corrupt stream) := o in
  mkBenchOptions role host port size iters warmup ring window tls true fill corrupt stream.

(** The loop of [parse]; [None] is [--help], which ends the process with 0.  [fail] and an
    exception end it with 2. *)
Fixpoint bench_arguments (fuel : nat) (arguments : list bytes) (o : BenchOptions) : hres (option BenchOptions) :=
  match fuel, arguments with
  | S fuel, arg :: rest =>
      if bool_decide (arg = str "--help") || bool_decide (arg = str "-h") then Val None
      else if bool_decide (arg = str "--verify") then bench_arguments fuel rest (set_verify o)
      else match rest with
      | value :: rest =>
          match set_bench_option o arg value with
          | Some o => let! o := o in bench_arguments fuel rest o
          | None => Err (str "unknown option " ++ arg)
          end
      | [] =>
          match set_bench_option o arg [] with
          | Some _ => Err (arg ++ str " needs a value")
          | None => Err (str "unknown option " ++ arg)
          end
      end
  | _, _ => Val (Some o)
  end.
Definition bench_parse (arguments : list bytes) : hres (option BenchOptions) :=
  let! parsed := bench_arguments (length arguments) arguments BenchOptions_default in
  match parsed with
  | None => Val None
  | Some o =>
      if bool_decide (bo_role o <> str "publisher") && bool_decide (bo_role o <> str "subscriber")
      then Err (str "--role must be publisher or subscriber")
      else if bool_decide (bo_fill o <> str "each") && bool_decide (bo_fill o <> str "once")
      then Err (str "--fill must be each or once")
      else if bool_decide (bo_fill o = str "once") && bo_verify o
      then Err (str "--fill once cannot be verified: the payload does not identify the frame")
      else Val (Some o)
  end.
Definition bench_fill (o : BenchOptions) : Fill := if bool_decide (bo_fill o = str "each") then FillEach else FillOnce.

(** ** Configurations *)

Definition bench_publisher_config (o : BenchOptions) : PublisherConfig :=
  mkPublisherConfig (bo_stream o) FrameMetadata_default (bo_size o) (bo_ring_depth o) (bo_credit_window o) 4 BestEffort
    (Z.max 256 (u32 (bo_ring_depth o * 2))) k_max_lease_ttl_ms (k_max_lease_ttl_ms / 3) 10 (2 ^ 30) (bo_tls o) (-1) true.
Definition bench_subscriber_config (o : BenchOptions) : SubscriberConfig :=
  mkSubscriberConfig (bo_stream o) (bo_size o) (bo_ring_depth o) (bo_credit_window o) (Z.max 64 (u32 (bo_ring_depth o * 2)))
    DM_Pull DropNewest RP_BoundedRetry 10 500 5000 30000 5000 (2 ^ 30) (bo_tls o) (-1) false 0 Host None None.

(** ** The publisher *)

Definition bench_total (o : BenchOptions) : Z := u64 (bo_warmup o + bo_iters o).

(** [bp_slots] is the memory of the slots, [bp_sent] the frames that were accepted, by
    event counter and payload. *)
Record BenchPublisher : Type := mkBenchPublisher {
  bp_published : Z;
  bp_stalled : Z;
  bp_queue_full : Z;
  bp_start : option Z;
  bp_slots : list bytes;
  bp_sent : list (Z * bytes)
}.
(** What a pass of the loop meets: a full gauge or no slot, and it asks again; or a slot and
    the results of the calls of [publish], with the time after the last. *)
Inductive BenchPass : Type :=
| AskAgain
| WithSlot (slot : nat) (results : list PublishResult) (now : Z).

(** [for(;;) publish]: how often the queue was full, and the first other result. *)
Fixpoint publish_retry (results : list PublishResult) : Z * option PublishResult :=
  match results with
  | [] => (0, None)
  | PR_QueueFull :: results => let '(n, r) := publish_retry results in (n + 1, r)
  | r :: _ => (0, Some r)
  end.

(** Filling every slot before the clock starts. *)
Fixpoint prefill (slots : list bytes) (size : nat) (i : Z) : hres (list bytes) :=
  match slots with
  | [] => Val []
  | slot :: slots =>
      let! slot := fill_pattern slot size i in
      let! slots := prefill slots size (i + 1) in Val (slot :: slots)
  end.

Definition bench_payload (o : BenchOptions) (published : Z) (slot : bytes) : hres bytes :=
  let size := Z.to_nat (bo_size o) in
  let! slot := (match bench_fill o with FillEach => fill_pattern slot size published | FillOnce => Val slot end) in
  if negb (bo_corrupt_every o =? 0) && (published mod bo_corrupt_every o =? 0) then corrupt_payload slot size else Val slot.

Definition bench_pass (o : BenchOptions) (s : BenchPublisher) (p : BenchPass) : io BenchPublisher :=
  match p with
  | AskAgain => Done s
  | WithSlot k results now =>
      match bp_slots s !! k with
      | None => Waits
      | Some slot =>
          match bench_payload o (bp_published s) slot with
          | Val payload =>
              let slots := <[k := payload]> (bp_slots s) in
              match publish_retry results with
              | (n, None) => Waits
              | (n, Some PR_Accepted) =>
                  let published := u64 (bp_published s + 1) in
                  Done (mkBenchPublisher published (bp_stalled s) (u64 (bp_queue_full s + n))
                    (if published =? bo_warmup o then Some now else bp_start s) slots
                    (bp_sent s ++ [(bp_published s, take (Z.to_nat (bo_size o)) payload)]))
              | (n, Some PR_CreditStalled) =>
                  Done (mkBenchPublisher (bp_published s) (u64 (bp_stalled s + 1)) (u64 (bp_queue_full s + n)) (bp_start s)
                    slots (bp_sent s))
              | (n, Some r) => Throws (str "publish() returned " ++ PublishResult_to_string r)
              end
          | _ => Throws []
          end
      end
  end.

(** [while(published < total)]. *)
Fixpoint bench_passes (o : BenchOptions) (passes : list BenchPass) (s : BenchPublisher) : io BenchPublisher :=
  if bp_published s <? bench_total o then
    match passes with
    | [] => Waits
    | p :: passes => match bench_pass o s p with Done s => bench_passes o passes s | r => r end
    end
  else Done s.

(** [run_publisher] ends with 0 when every frame was credited within its 60 seconds. *)
Definition publisher_exit (o : BenchOptions) (frames_credited : Z) : Z := if bench_total o <=? frames_credited then 0 else 1.

(** ** The subscriber *)

(** A frame that was read: its event counter and its payload. *)
Abbreviation Frame := (Z * bytes)%type.

Record BenchSubscriber : Type := mkBenchSubscriber {
  bs_received : Z;
  bs_mismatched : Z;
  bs_short_frames : Z;
  bs_start : option Z
}.
Definition BenchSubscriber_new (o : BenchOptions) (now : Z) : BenchSubscriber :=
  mkBenchSubscriber 0 0 0 (if bo_warmup o =? 0 then Some now else None).

(** [inspect]. *)
Definition inspect (o : BenchOptions) (now : Z) (s : BenchSubscriber) (f : Frame) : hres BenchSubscriber :=
  let '(event_counter, payload) := f in
  let size := Z.to_nat (bo_size o) in
  let! (mismatched, short_frames) :=
    (if negb (length payload =? size)%nat then Val (bs_mismatched s, u64 (bs_short_frames s + 1))
     else if bo_verify o && bool_decide (bench_fill o = FillEach) then
       let! same := pattern_matches payload size event_counter in
       Val (if same then bs_mismatched s else u64 (bs_mismatched s + 1), bs_short_frames s)
     else Val (bs_mismatched s, bs_short_frames s)) in
  let received := u64 (bs_received s + 1) in
  Val (mkBenchSubscriber received mismatched short_frames (if received =? bo_warmup o then Some now else bs_start s)).

(** The two loops: at [inner] 0 a call of [read_for], then up to 31 of [try_read] while they
    find a frame.  Each call has the time and what it answers. *)
Fixpoint bench_reads (o : BenchOptions) (deadline : Z) (inner : nat) (reads : list (Z * option Frame)) (s : BenchSubscriber)
    : hres (option BenchSubscriber) :=
  let wants := bs_received s <? bench_total o in
  let inner := if (inner <? 32)%nat && wants then inner else 0%nat in
  match reads with
  | [] => Val (if wants then None else Some s)
  | (now, answer) :: reads =>
      match inner with
      | O =>
          if wants && (now <? deadline) then
            match answer with
            | Some f => let! s := inspect o now s f in bench_reads o deadline 1 reads s
            | None => bench_reads o deadline 1 reads s
            end
          else Val (Some s)
      | S _ =>
          match answer with
          | Some f => let! s := inspect o now s f in bench_reads o deadline (S inner) reads s
          | None => bench_reads o deadline 0 reads s
          end
      end
  end.

(** The status [run_subscriber] returns. *)
Definition subscriber_exit (o : BenchOptions) (s : BenchSubscriber) : Z :=
  let status := if bs_received s <? bench_total o then 1 else 0 in
  if bo_verify o then (if negb (bs_mismatched s =? 0) || negb (bs_short_frames s =? 0) then 1 else status)
  else if negb (bs_short_frames s =? 0) then 1 else status.

(** ** What is sent *)

(** The frames damaged on purpose, and how many of the first [k]. *)
Definition damaged (o : BenchOptions) (i : Z) : bool := negb (bo_corrupt_every o =? 0) && (i mod bo_corrupt_every o =? 0).
Fixpoint damaged_upto (o : BenchOptions) (k : nat) : Z :=
  match k with O => 0 | S k => damaged_upto o k + (if damaged o (Z.of_nat k) then 1 else 0) end.

(** The frame of an index: its event counter is the index, its payload the pattern of the
    index, with one byte flipped when it is damaged. *)
Definition bench_frame (o : BenchOptions) (i : Z) : Frame :=
  let size := Z.to_nat (bo_size o) in
  (i, if damaged o i
      then alter (fun b => byte_of_Z (Z.lxor (Z_of_byte b) 255)) (size / 2)%nat (pattern_bytes size i)
      else pattern_bytes size i).

Definition slots_fit (o : BenchOptions) (slots : list bytes) : Prop := Forall (fun s => bo_size o <= Z.of_nat (length s)) slots.

Lemma bench_payload_spec o i slot :
  bench_fill o = FillEach -> 0 < bo_size o <= Z.of_nat (length slot) ->
  exists payload, bench_payload o i slot = Val payload /\ length payload = length slot /\
    (i, take (Z.to_nat (bo_size o)) payload) = bench_frame o i.
Proof.
  intros Hf Hs. unfold bench_payload, bench_frame. rewrite Hf. set (n := Z.to_nat (bo_size o)).
  rewrite fill_pattern_spec by lia. cbn [outcome_bind]. pose proof (length_pattern_bytes n i) as Hp.
  set (d := pattern_bytes n i ++ drop n slot).
  assert (length d = length slot) as Hl by (unfold d; rewrite length_app, length_drop; lia).
  assert (take n d = pattern_bytes n i) as Ht by (unfold d; by rewrite <-Hp at 1; rewrite take_app_length).
  unfold damaged. destruct (_ && _); [|by exists d; rewrite Ht].
  assert (n / 2 < n)%nat by (apply Nat.div_lt; lia). unfold corrupt_payload.
  destruct (lookup_lt_is_Some_2 d (n / 2)%nat ltac:(lia)) as [b Hb]. rewrite Hb. eexists. split; [done|].
  split; [by rewrite length_insert|]. f_equal. rewrite take_insert_lt by done. rewrite Ht.
  assert (pattern_bytes n i !! (n / 2)%nat = Some b) as Hb'.
  { rewrite <-Ht, lookup_take_lt; [exact Hb|done]. }
  apply list_eq. intros j. destruct (decide (j = n / 2)%nat) as [->|Hj].
  - rewrite list_lookup_insert_eq by lia. by rewrite list_lookup_alter_eq, Hb'.
  - by rewrite list_lookup_insert_ne, list_lookup_alter_ne.
Qed.

(** What the publisher has sent is the frames of the indices below [published], in order. *)
Record publisher_sends (o : BenchOptions) (s : BenchPublisher) : Prop := {
  ps_slots : slots_fit o (bp_slots s);
  ps_published : 0 <= bp_published s <= bench_total o;
  ps_sent : bp_sent s = bench_frame o <$> seqZ 0 (bp_published s)
}.

Lemma bench_total_range o : in_range 64 (bench_total o).
Proof. apply wrap_in_range. lia. Qed.

Lemma bench_pass_sends o s p s' :
  bench_fill o = FillEach -> 0 < bo_size o -> bp_published s < bench_total o ->
  publisher_sends o s -> bench_pass o s p = Done s' -> publisher_sends o s'.
Proof.
  intros Hf Hs Hlt [Hsl Hp Hsent]. destruct p as [|k results now]; cbn [bench_pass]; [by intros [= <-]|].
  destruct (bp_slots s !! k) as [slot|] eqn:Hk; [|done].
  pose proof (Forall_lookup_1 _ _ _ _ Hsl Hk) as Hfit. cbn in Hfit.
  destruct (bench_payload_spec o (bp_published s) slot Hf ltac:(lia)) as (payload & -> & Hl & Hframe).
  assert (slots_fit o (<[k := payload]> (bp_slots s))) as Hsl' by (apply Forall_insert; [done|by rewrite Hl]).
  destruct (publish_retry results) as [n [[]|]]; intros [= <-]; [|by split].
  pose proof (bench_total_range o) as Ht. unfold in_range in Ht. rewrite (wrap_small 64 (bp_published s + 1)) by (unfold in_range; lia).
  split; cbn; [done|lia|]. rewrite Hframe, Hsent. rewrite seqZ_app by lia. rewrite fmap_app. by rewrite Z.add_0_l.
Qed.

Lemma bench_passes_send o passes s s' :
  bench_fill o = FillEach -> 0 < bo_size o -> publisher_sends o s -> bench_passes o passes s = Done s' ->
  publisher_sends o s' /\ bp_published s' = bench_total o.
Proof.
  intros Hf Hs. revert s. induction passes as [|p passes IH]; intros s Hps; cbn [bench_passes];
    destruct (Z.ltb_spec (bp_published s) (bench_total o)) as [Hlt|Hge]; try done.
  1,3: intros [= <-]; split; [done|]; destruct Hps as [_ ? _]; lia.
  destruct (bench_pass o s p) as [s1| |] eqn:Hp; [|done..]. apply IH. by eapply bench_pass_sends.
Qed.

(** The number of damaged frames. *)
Lemma damaged_upto_ceil o k :
  0 < bo_corrupt_every o -> damaged_upto o k = (Z.of_nat k + bo_corrupt_every o - 1) / bo_corrupt_every o.
Proof.
  intros Hc. induction k as [|k IH]; cbn [damaged_upto].
  - symmetry. apply Z.div_small. lia.
  - rewrite IH. unfold damaged. rewrite (proj2 (Z.eqb_neq (bo_corrupt_every o) 0)) by lia. cbn [negb andb].
    set (c := bo_corrupt_every o) in *. rewrite Nat2Z.inj_succ.
    replace (Z.succ (Z.of_nat k) + c - 1) with (Z.of_nat k + 1 * c) by lia. rewrite Z.div_add by lia.
    pose proof (Z.div_mod (Z.of_nat k) c ltac:(lia)). pose proof (Z.mod_pos_bound (Z.of_nat k) c ltac:(lia)).
    destruct (Z.eqb_spec (Z.of_nat k mod c) 0) as [Hz|Hz].
    + replace (Z.of_nat k + c - 1) with (c - 1 + Z.of_nat k / c * c) by lia. rewrite Z.div_add, Z.div_small by lia. lia.
    + replace (Z.of_nat k + c - 1) with (Z.of_nat k mod c - 1 + (Z.of_nat k / c + 1) * c) by lia.
      rewrite Z.div_add, Z.div_small by lia. lia.
Qed.
Lemma damaged_upto_none o k : bo_corrupt_every o = 0 -> damaged_upto o k = 0.
Proof. intros Hc. induction k as [|k IH]; cbn; [done|]. unfold damaged. by rewrite Hc, IH. Qed.
Lemma damaged_upto_range o k : 0 <= damaged_upto o k <= Z.of_nat k.
Proof. induction k as [|k IH]; cbn [damaged_upto]; [lia|]. destruct (damaged _ _); lia. Qed.

(** The check of a frame that was sent. *)
Lemma bench_frame_checked o i :
  0 < bo_size o -> in_range 64 i ->
  length (snd (bench_frame o i)) = Z.to_nat (bo_size o) /\
  pattern_matches (snd (bench_frame o i)) (Z.to_nat (bo_size o)) i = Val (negb (damaged o i)).
Proof.
  intros Hs Hi. unfold bench_frame. set (n := Z.to_nat (bo_size o)). cbn [snd].
  pose proof (length_pattern_bytes n i) as Hp. assert (n / 2 < n)%nat as Hhalf by (apply Nat.div_lt; lia).
  destruct (damaged o i); cbn [negb].
  - split; [by rewrite length_alter|]. rewrite pattern_matches_spec by (rewrite length_alter; lia).
    rewrite take_ge by (rewrite length_alter; lia). rewrite bool_decide_eq_false_2; [done|]. intros He.
    destruct (lookup_lt_is_Some_2 (pattern_bytes n i) (n / 2)%nat ltac:(lia)) as [b Hb].
    apply (f_equal (fun l => l !! (n / 2)%nat)) in He. rewrite list_lookup_alter_eq, Hb in He. injection He. apply flipped_byte.
  - split; [done|]. rewrite pattern_matches_spec, take_ge by lia. by rewrite bool_decide_eq_true_2.
Qed.

(** The subscriber after the first [k] frames. *)
Definition subscriber_after (o : BenchOptions) (k : nat) (s : BenchSubscriber) : Prop :=
  bs_received s = Z.of_nat k /\ bs_mismatched s = damaged_upto o k /\ bs_short_frames s = 0.

Lemma inspect_frame o now s k :
  bo_verify o = true -> bench_fill o = FillEach -> 0 < bo_size o -> Z.of_nat k < bench_total o -> subscriber_after o k s ->
  exists s', inspect o now s (bench_frame o (Z.of_nat k)) = Val s' /\ subscriber_after o (S k) s'.
Proof.
  intros Hv Hf Hs Hk (Hr & Hm & Hsh). pose proof (bench_total_range o) as Ht. unfold in_range in Ht.
  destruct (bench_frame_checked o (Z.of_nat k) Hs ltac:(unfold in_range; lia)) as [Hl Hmatch].
  assert (bench_frame o (Z.of_nat k) = (Z.of_nat k, snd (bench_frame o (Z.of_nat k)))) as -> by done.
  set (payload := snd _) in *. clearbody payload. unfold inspect.
  rewrite Hl, Nat.eqb_refl. cbn [negb]. rewrite Hv, Hf, bool_decide_eq_true_2 by done. cbn [andb].
  rewrite Hmatch. cbn [outcome_bind]. eexists. split; [done|].
  pose proof (damaged_upto_range o k). unfold subscriber_after. cbn [bs_received bs_mismatched bs_short_frames damaged_upto].
  rewrite Hr, Hm, Hsh, !wrap_small by (unfold in_range; lia). split; [lia|]. split; [|done].
  destruct (damaged o (Z.of_nat k)); cbn [negb]; lia.
Qed.

Lemma seqZ_step k total : k < total -> seqZ k (total - k) = k :: seqZ (k + 1) (total - (k + 1)).
Proof. intros Hk. rewrite seqZ_cons by lia. f_equal. f_equal; lia. Qed.

(** Reading the frames that are left, from the [k]th on. *)
Lemma bench_reads_all o deadline reads inner s k :
  bo_verify o = true -> bench_fill o = FillEach -> 0 < bo_size o -> Z.of_nat k <= bench_total o ->
  subscriber_after o k s -> Forall (fun r => fst r < deadline) reads ->
  omap snd reads = bench_frame o <$> seqZ (Z.of_nat k) (bench_total o - Z.of_nat k) ->
  exists s', bench_reads o deadline inner reads s = Val (Some s') /\ subscriber_after o (Z.to_nat (bench_total o)) s'.
Proof.
  intros Hv Hf Hs. revert inner s k. induction reads as [|[now answer] reads IH]; intros inner s k Hk Hs0 Htime Hfr.
  - assert (bench_total o = Z.of_nat k) as Hend.
    { destruct (decide (Z.of_nat k < bench_total o)) as [Hlt|]; [|lia]. rewrite seqZ_step in Hfr by done. done. }
    cbn [bench_reads]. rewrite (proj1 Hs0), Hend, Z.ltb_irrefl. exists s. by rewrite Nat2Z.id.
  - apply list.Forall_cons in Htime as [Hnow Htime]. cbn [fst] in Hnow. cbn [omap list_omap snd] in Hfr. cbn [bench_reads].
    rewrite (proj1 Hs0). destruct (Z.ltb_spec (Z.of_nat k) (bench_total o)) as [Hlt|Hge].
    + rewrite andb_true_r, (proj2 (Z.ltb_lt now deadline)) by done. cbn [andb].
      assert (forall inner' f, answer = Some f -> exists s', (let! s := inspect o now s f in bench_reads o deadline inner' reads s) =
        Val (Some s') /\ subscriber_after o (Z.to_nat (bench_total o)) s') as Hframe.
      { intros inner' f ->. rewrite seqZ_step in Hfr by done. cbn [fmap list_fmap] in Hfr. injection Hfr as -> Hfr.
        destruct (inspect_frame o now s k Hv Hf Hs Hlt Hs0) as (s1 & -> & Hs1). cbn [outcome_bind].
        apply (IH inner' s1 (S k)); [lia|done|done|]. rewrite Nat2Z.inj_succ. exact Hfr. }
      assert (forall inner', answer = None -> exists s', bench_reads o deadline inner' reads s =
        Val (Some s') /\ subscriber_after o (Z.to_nat (bench_total o)) s') as Hnone
        by (intros inner' ->; by apply (IH inner' s k)).
      destruct (if (inner <? 32)%nat then inner else 0%nat), answer; by eauto.
    + rewrite andb_false_r. cbn [andb]. exists s. split; [done|]. by replace (Z.to_nat (bench_total o)) with k by lia.
Qed.

(** the benchmark's negative control works, and counts every frame. A run with [--verify] in which the
    subscriber reads what the publisher sent: whatever the publisher met -- full gauges, no slots, full queues,
    stalled credit -- and however the reads are cut, each index is sent exactly once and in order with the
    payload of its pattern, damaged at every [--corrupt-every]th index; the subscriber ends having received all of
    them; the mismatches it reports are exactly the damaged frames of the whole run, warm-up included; and it
    exits with 0 when nothing was damaged and with 1 when something was. *)
Theorem bench_verification_exact o passes s s' reads deadline now
  (Hverify : bo_verify o = true) (Hfill : bench_fill o = FillEach) (Hsize : 0 < bo_size o) (Hevery : 0 <= bo_corrupt_every o)
  (Hslots : slots_fit o (bp_slots s)) (Hstart : bp_published s = 0 /\ bp_sent s = [])
  (Hrun : bench_passes o passes s = Done s')
  (Htime : Forall (fun r => fst r < deadline) reads) (Hreads : omap snd reads = bp_sent s') :
  bp_sent s' = bench_frame o <$> seqZ 0 (bench_total o) /\
  exists r, bench_reads o deadline 0 reads (BenchSubscriber_new o now) = Val (Some r) /\
    bs_received r = bench_total o /\ bs_short_frames r = 0 /\
    bs_mismatched r = (if bo_corrupt_every o =? 0 then 0 else (bench_total o + bo_corrupt_every o - 1) / bo_corrupt_every o) /\
    subscriber_exit o r = (if bs_mismatched r =? 0 then 0 else 1).
Proof.
  pose proof (bench_total_range o) as Ht. unfold in_range in Ht. destruct Hstart as [Hp0 Hs0].
  destruct (bench_passes_send o passes s s') as [[_ _ Hsent] Hend]; [done..|split; rewrite ?Hp0, ?Hs0; [done|lia|done]|done|].
  rewrite Hend in Hsent. split; [done|].
  destruct (bench_reads_all o deadline reads 0 (BenchSubscriber_new o now) 0) as (r & Hr & Hrec & Hm & Hsh); try done.
  { cbn. lia. }
  { rewrite Hreads, Hsent. f_equal. f_equal. cbn. lia. }
  rewrite Z2Nat.id in Hrec by lia. exists r. split; [done|]. split; [done|]. split; [done|]. split.
  - rewrite Hm. destruct (Z.eqb_spec (bo_corrupt_every o) 0); [by apply damaged_upto_none|].
    rewrite damaged_upto_ceil, Z2Nat.id by lia. done.
  - unfold subscriber_exit. rewrite Hverify, Hrec, Z.ltb_irrefl, Hsh. cbn. by destruct (bs_mismatched r =? 0).
Qed.

Definition sample_bench : BenchOptions :=
  mkBenchOptions (str "subscriber") (str "127.0.0.1") 18515 12 6 3 2 2 [] true (str "each") 2 (str "bulk.bench").
Definition sample_passes : list BenchPass :=
  [AskAgain; WithSlot 0 [PR_QueueFull; PR_QueueFull; PR_Accepted] 10; WithSlot 1 [PR_CreditStalled] 11; AskAgain] ++
  ((fun k => WithSlot (k mod 2) [PR_Accepted] 20) <$> seq 1 8).
Definition sample_bench_start : BenchPublisher := mkBenchPublisher 0 0 0 None [replicate 16 Byte.x00; replicate 12 Byte.x00] [].
Definition sample_bench_end : BenchPublisher := match bench_passes sample_bench sample_passes sample_bench_start with Done s => s | _ => sample_bench_start end.
Definition sample_reads : list (Z * option Frame) := (5, None) :: ((fun f => (6, Some f)) <$> bp_sent sample_bench_end).

(** Nine frames, of which the five at 0, 2, 4, 6 and 8 are damaged. *)
Lemma bench_verification_exact_witness :
  exists r, bench_reads sample_bench 100 0 sample_reads (BenchSubscriber_new sample_bench 0) = Val (Some r) /\
    bs_received r = 9 /\ bs_mismatched r = 5 /\ subscriber_exit sample_bench r = 1.
Proof.
  destruct (bench_verification_exact sample_bench sample_passes sample_bench_start sample_bench_end sample_reads 100 0)
    as (_ & r & Hr & Hrec & _ & Hm & He).
  - reflexivity.
  - reflexivity.
  - reflexivity.
  - vm_compute. discriminate.
  - repeat constructor; vm_compute; discriminate.
  - split; reflexivity.
  - vm_compute. reflexivity.
  - vm_compute. repeat constructor.
  - vm_compute. reflexivity.
  - exists r. split; [exact Hr|]. split; [exact Hrec|]. split; [rewrite Hm; reflexivity|]. rewrite He, Hm. reflexivity.
Defined.

(** The README expects [--corrupt-every 10] to give [iters / 10] mismatches; with the default 2000 frames and 100 of
    warm-up there are 210. *)
Lemma warmup_frames_counted_too :
  damaged_upto (mkBenchOptions (str "publisher") [] 18515 (2 ^ 20) 2000 100 32 16 [] true (str "each") 10 (str "bulk.bench")) 2100 = 210.
Proof. rewrite damaged_upto_ceil by (cbn; lia). reflexivity. Qed.

(** ** The clock of the publisher *)

(** Without a warm-up the publisher never starts its clock: the rate it reports counts from the epoch of the
    steady clock.  The subscriber starts at once then. *)
Lemma no_warmup_no_clock o passes s s' :
  bo_warmup o = 0 -> 0 <= bp_published s -> bp_start s = None -> bench_passes o passes s = Done s' -> bp_start s' = None.
Proof.
  intros Hw. pose proof (bench_total_range o) as Ht. unfold in_range in Ht.
  revert s. induction passes as [|p passes IH]; intros s H0 Hn; cbn [bench_passes];
    destruct (Z.ltb_spec (bp_published s) (bench_total o)) as [Hlt|Hge]; try done; try by intros [= <-].
  destruct (bench_pass o s p) as [s1| |] eqn:Hp; [|done..].
  assert (0 <= bp_published s1 /\ bp_start s1 = None) as [? ?]; [|by apply IH].
  destruct p as [|k results t]; cbn [bench_pass] in Hp; [injection Hp as <-; done|].
  destruct (bp_slots s !! k); [|done]. destruct (bench_payload _ _ _); [|done..].
  destruct (publish_retry results) as [n [[]|]]; try done; injection Hp as <-; cbn; [|done].
  rewrite Hw, wrap_small by (unfold in_range; lia). split; [lia|]. by rewrite (proj2 (Z.eqb_neq _ _)) by lia.
Qed.
Lemma no_warmup_subscriber_clock o now : bo_warmup o = 0 -> bs_start (BenchSubscriber_new o now) = Some now.
Proof. intros Hw. unfold BenchSubscriber_new. by rewrite Hw. Qed.

(** [--warmup] and [--iters] that add up to [2^64]: nothing is sent, and both roles report success. *)
Lemma overflowing_total_passes o passes s reads now :
  bo_warmup o = 2 ^ 64 - 1 -> bo_iters o = 1 -> bp_published s = 0 ->
  bench_passes o passes s = Done s /\ publisher_exit o 0 = 0 /\
  exists r, bench_reads o now 0 reads (BenchSubscriber_new o 0) = Val (Some r) /\ subscriber_exit o r = 0.
Proof.
  intros Hw Hi Hp. assert (bench_total o = 0) as Ht by (unfold bench_total; rewrite Hw, Hi; reflexivity).
  unfold publisher_exit, subscriber_exit. rewrite Ht. split; [|split; [done|]].
  - destruct passes; cbn [bench_passes]; by rewrite Ht, Hp.
  - exists (BenchSubscriber_new o 0). split; [|by destruct (bo_verify o)].
    destruct reads as [|[t f] reads]; cbn [bench_reads]; by rewrite Ht, ?andb_false_r.
Qed.

(** ** The options *)

Definition bench_typed (o : BenchOptions) : Prop :=
  in_range 16 (bo_port o) /\ in_range 64 (bo_size o) /\ in_range 64 (bo_iters o) /\ in_range 64 (bo_warmup o) /\
  in_range 32 (bo_ring_depth o) /\ in_range 32 (bo_credit_window o) /\ in_range 64 (bo_corrupt_every o).

Lemma stoul_range text v : stoul text = Val v -> in_range 64 v.
Proof.
  unfold stoul. destruct (scan_unsigned text) as [[[negative z] rest]|] eqn:Hs; [|done].
  apply scan_unsigned_nonneg in Hs. destruct (Z.leb_spec (2 ^ 64) z); [done|]. intros [= <-].
  destruct negative; [apply wrap_in_range; lia|unfold in_range; lia].
Qed.

Lemma set_bench_option_typed o name value o' :
  bench_typed o -> set_bench_option o name value = Some (Val o') -> bench_typed o'.
Proof.
  destruct o as [role host port size iters warmup ring window tls verify fill corrupt stream]. unfold bench_typed. cbn.
  intros (H1 & H2 & H3 & H4 & H5 & H6 & H7).
  repeat match goal with |- (if ?b then _ else _) = _ -> _ => destruct b end; try done;
    try (destruct (stoul value) as [v| |] eqn:Hv; [|done..]; apply stoul_range in Hv; cbn [outcome_bind]);
    intros [= <-]; cbn; split_and!; try done; apply wrap_in_range; lia.
Qed.
Lemma bench_arguments_typed fuel arguments o o' :
  bench_typed o -> bench_arguments fuel arguments o = Val (Some o') -> bench_typed o'.
Proof.
  revert arguments o. induction fuel as [|fuel IH]; intros arguments o Ho; cbn [bench_arguments]; [by intros [= <-]|].
  destruct arguments as [|arg rest]; [by intros [= <-]|]. destruct (_ || _); [done|].
  destruct (bool_decide (arg = str "--verify")).
  { apply IH. by destruct o. }
  destruct rest as [|value rest]; [by destruct (set_bench_option _ _ _)|].
  destruct (set_bench_option o arg value) as [[o1| |]|] eqn:Hset; [|done..]. cbn [outcome_bind].
  apply IH. by eapply set_bench_option_typed.
Qed.

(** What [parse] accepts fits its types, has one of the two roles and one of the two ways of
    filling, and is never asked to verify frames that do not tell their index. *)
Theorem bench_parse_sound arguments o (Hp : bench_parse arguments = Val (Some o)) :
  bench_typed o /\ (bo_role o = str "publisher" \/ bo_role o = str "subscriber") /\
  (bo_fill o = str "each" \/ bo_fill o = str "once") /\ (bo_verify o = true -> bench_fill o = FillEach).
Proof.
  unfold bench_parse in Hp. destruct (bench_arguments _ _ _) as [[o1|]| |] eqn:Ha; [|done..]. cbn [outcome_bind] in Hp.
  apply bench_arguments_typed in Ha; [|by split_and!].
  destruct (_ && _) eqn:Hr in Hp; [done|]. destruct (_ && _) eqn:Hf in Hp; [done|]. destruct (_ && _) eqn:Hv in Hp; [done|].
  injection Hp as <-. split; [done|]. split; [|split].
  - apply andb_false_iff in Hr as [Hr|Hr]; apply bool_decide_eq_false, dec_stable in Hr; auto.
  - apply andb_false_iff in Hf as [Hf|Hf]; apply bool_decide_eq_false, dec_stable in Hf; auto.
  - intros Hver. unfold bench_fill. destruct (bool_decide (bo_fill _ = str "each")) eqn:He; [done|]. exfalso. apply bool_decide_eq_false in He.
    apply andb_false_iff in Hf as [Hf|Hf]; apply bool_decide_eq_false, dec_stable in Hf; [done|].
    by rewrite Hf, Hver, bool_decide_eq_true_2 in Hv.
Qed.
Lemma bench_parse_sound_witness :
  exists o, bench_parse [str "--role"; str "publisher"; str "--port"; str "65537"; str "--verify"] = Val (Some o) /\ bo_port o = 1 /\
    bench_fill o = FillEach.
Proof.
  destruct (bench_parse [str "--role"; str "publisher"; str "--port"; str "65537"; str "--verify"]) as [[o|]| |] eqn:E;
    [|vm_compute in E; discriminate E..].
  exists o. split; [reflexivity|]. destruct (bench_parse_sound _ o E) as (_ & _ & _ & H).
  assert (bo_port o = 1 /\ bo_verify o = true) as [Hp Hv] by (vm_compute in E; injection E as <-; split; reflexivity).
  split; [exact Hp|exact (H Hv)].
Defined.

(** ** The configurations *)

(** The ranges in which a run can start: those of the library, with the ring within the
    budget the benchmark leaves at its default. *)
Record bench_fits (o : BenchOptions) : Prop := {
  bf_stream : valid_stream_name (bo_stream o) = true;
  bf_size : 4096 <= bo_size o <= 268435456;
  bf_ring : 2 <= bo_ring_depth o <= 1024;
  bf_window : 1 <= bo_credit_window o <= bo_ring_depth o;
  bf_budget : bo_size o * bo_ring_depth o <= 2 ^ 30
}.

(** In those ranges both roles start from a valid configuration, the subscriber asks for
    exactly the publisher's ring, and neither renews: what the publisher grants is renewed
    every 200 seconds and a subscriber stops after 120. *)
Theorem bench_configs_valid o (Hf : bench_fits o) :
  PublisherConfig_validate (bench_publisher_config o) = Ok /\ SubscriberConfig_validate (bench_subscriber_config o) = Ok /\
  upper_receive_plan (bench_subscriber_config o) =
    mkReceivePlan (bo_size o) (bo_ring_depth o) (bo_credit_window o) (bo_size o * bo_ring_depth o) /\
  120 * 1000 < pc_renew_interval_ms (bench_publisher_config o).
Proof.
  destruct Hf as [Hn Hs Hr Hw Hb].
  assert (u32 (bo_ring_depth o * 2) = bo_ring_depth o * 2) as Hd by (apply wrap_small; unfold in_range; lia).
  assert (upper_receive_plan (bench_subscriber_config o) =
    mkReceivePlan (bo_size o) (bo_ring_depth o) (bo_credit_window o) (bo_size o * bo_ring_depth o)) as Hup.
  { unfold upper_receive_plan, requested_plan, bench_subscriber_config, from_limits. cbn -[Z.pow Z.ltb Z.eqb].
    rewrite checked_bytes_bounded by lia. rewrite (proj2 (Z.ltb_ge _ _)) by done. by rewrite andb_false_r. }
  assert (validate_common (bo_stream o) (bo_size o) (bo_ring_depth o) (bo_credit_window o) (2 ^ 30) = Ok) as Hcom.
  { unfold validate_common. rewrite is_valid_stream_name_same, Hn. unfold_limits.
    repeat (guard_step; bool_to_prop; try lia); done. }
  split; [|split; [|split; [done|by vm_compute]]].
  - unfold PublisherConfig_validate. cbn -[Z.pow Z.ltb Z.eqb validate_common Z.max]. rewrite Hcom. unfold bench_publisher_config.
    cbn -[Z.pow Z.ltb Z.eqb Z.max]. rewrite Hd. change k_min_publish_queue with 8. change k_max_publish_queue with 8192.
    rewrite (proj2 (Z.ltb_ge (Z.max 256 _) 8)), (proj2 (Z.ltb_ge 8192 _)) by lia. reflexivity.
  - unfold SubscriberConfig_validate. rewrite Hup. unfold validate_buffer, bench_subscriber_config.
    cbn -[Z.pow Z.ltb Z.eqb validate_common Z.max]. rewrite Hcom, Hd. cbn -[Z.pow Z.ltb Z.eqb Z.max].
    rewrite (proj2 (Z.eqb_neq (bo_size o) 0)), andb_false_r by lia.
    change k_min_delivery_queue with 1. change k_max_delivery_queue with 4096.
    rewrite (proj2 (Z.ltb_ge (Z.max 64 _) 1)), (proj2 (Z.ltb_ge 4096 _)), (proj2 (Z.ltb_ge (2 ^ 30) _)) by lia. reflexivity.
Qed.
Lemma bench_configs_valid_witness : SubscriberConfig_validate (bench_subscriber_config BenchOptions_default) = Ok.
Proof. apply (bench_configs_valid BenchOptions_default). split; vm_compute; intuition discriminate. Defined.
