(* ===== verification/Consumers.v ===== *)
(** * The clients that count frames

    [src/examples/example_client/example_client.cpp] and
    [src/examples/example_cuda_client/example_cuda_client.cpp]: what they ask the library
    for and what their callbacks do with a frame.  The rest of them prints. *)
From stdpp Require Import list.
From S2P Require Import Prelude Enums Limits ByteOrder Geometry Text Offer Config PinnedLedger RegisteredRing.
#[local] Open Scope Z_scope.

(** ** What they subscribe with *)

(** The device and the stream of a command line, without which there is only a usage text. *)
Definition client_arguments (argv : list bytes) : option (bytes * bytes) :=
  match argv with
  | _ :: device :: rest => Some (device, match rest with stream :: _ => stream | [] => str "image" end)
  | _ => None
  end.

Definition k_cuda_ring_depth : Z := k_min_ring_depth.
Definition k_cuda_credit_window : Z := 2.
Definition k_cuda_slot_bytes : Z := k_max_frame_bytes_hard_cap.
Definition k_cuda_ring_bytes : Z := u64 (k_cuda_slot_bytes * k_cuda_ring_depth).

Definition example_client_config (stream : bytes) : SubscriberConfig :=
  mkSubscriberConfig stream (8 * 2 ^ 20) 32 16 64 DM_Push DropNewest RP_BoundedRetry 10 500 5000 30000 5000 (2 ^ 30) [] (-1)
    false 0 Host (Some (from_limits k_max_frame_bytes_hard_cap k_min_ring_depth 2)) None.
Definition cuda_client_config (stream : bytes) : SubscriberConfig :=
  mkSubscriberConfig stream (8 * 2 ^ 20) 32 16 64 DM_Push DropNewest RP_BoundedRetry 10 500 5000 30000 5000 (2 ^ 30) [] (-1)
    true k_cuda_ring_bytes Cuda (Some (from_limits k_cuda_slot_bytes k_cuda_ring_depth k_cuda_credit_window)) None.

(** ** Their callbacks *)

Record Tally : Type := mkTally { ty_frames : Z; ty_bytes : Z; ty_running : bool }.
Definition Tally_new : Tally := mkTally 0 0 true.
Definition count_frame (t : Tally) (size : Z) : Tally := mkTally (u64 (ty_frames t + 1)) (u64 (ty_bytes t + size)) (ty_running t).

(** [buffer_begin] and [buffer_end] are 64-bit addresses. *)
Definition in_cuda_ring (buffer_begin address size : Z) : bool :=
  let buffer_end := u64 (buffer_begin + k_cuda_ring_bytes) in
  negb ((address <? buffer_begin) || (buffer_end <? address) || (u64 (buffer_end - address) <? size)).
(** [bound] is whether the dispatch thread could select the GPU. *)
Definition cuda_on_frame (bound : bool) (buffer_begin : Z) (t : Tally) (address size : Z) : Tally :=
  if negb bound || negb (in_cuda_ring buffer_begin address size) then mkTally (ty_frames t) (ty_bytes t) false
  else count_frame t size.

(** ** What holds *)

(** The configurations are accepted for any name of a stream, and ask for the same ring. *)
Lemma client_configs_valid stream :
  valid_stream_name stream = true ->
  SubscriberConfig_validate (example_client_config stream) = Ok /\ SubscriberConfig_validate (cuda_client_config stream) = Ok.
Proof.
  intros Hn. split; unfold SubscriberConfig_validate, validate_inputs, validate_common;
    cbn [example_client_config cuda_client_config sc_stream_name]; rewrite ?is_valid_stream_name_same, ?Hn; vm_compute; reflexivity.
Qed.

Lemma cuda_ring_bytes : k_cuda_ring_bytes = 2 ^ 29.
Proof. by vm_compute. Qed.

(** The comparison is the one without overflow. *)
Lemma in_cuda_ring_exact buffer_begin address size :
  0 <= buffer_begin -> buffer_begin + k_cuda_ring_bytes < 2 ^ 64 -> in_range 64 address -> in_range 64 size ->
  in_cuda_ring buffer_begin address size = bool_decide (buffer_begin <= address /\ address + size <= buffer_begin + k_cuda_ring_bytes).
Proof.
  rewrite cuda_ring_bytes. intros Hb He Ha Hs. unfold in_cuda_ring. rewrite cuda_ring_bytes. unfold in_range in *.
  rewrite (wrap_small 64 (buffer_begin + _)) by (unfold in_range; lia).
  apply eq_true_iff_eq. rewrite bool_decide_eq_true, negb_true_iff, !orb_false_iff, !Z.ltb_ge.
  destruct (Z.le_gt_cases address (buffer_begin + 2 ^ 29)); [|lia].
  destruct (Z.le_gt_cases buffer_begin address); [|lia]. rewrite wrap_small by (unfold in_range; lia). lia.
Qed.

Definition total_size (frames : list (nat * Z)) : Z := foldr Z.add 0 (snd <$> frames).

(** the CUDA client counts every frame of its ring and stops at any other address. Over any
    buffer that ends inside the address space, the test of the callback is the inclusion of
    the frame in the buffer without overflow; and whatever ring the receive engine lays
    over the buffer -- the configuration is accepted for any name of a stream -- every
    frame of any of its slots passes: after any frames the client still runs, with their
    number and the sum of their sizes. *)
Theorem cuda_client_counts_ring_frames uerr total buffer_begin slot_bytes depth limit mapped stream frames
  (Hn : valid_stream_name stream = true) (Hb : 0 <= buffer_begin) (He : buffer_begin + k_cuda_ring_bytes < 2 ^ 64)
  (Ht : in_range 64 total) (Hl : in_range 64 limit) (Hs : 0 <= slot_bytes <= 2 ^ 32) (Hd : 0 < depth < 2 ^ 32)
  (Hf : Forall (fun f => Z.of_nat (fst f) < depth /\ 0 <= snd f <= slot_bytes) frames) :
  SubscriberConfig_validate (cuda_client_config stream) = Ok /\
  (forall address size, in_range 64 address -> in_range 64 size ->
     in_cuda_ring buffer_begin address size = true <-> buffer_begin <= address /\ address + size <= buffer_begin + k_cuda_ring_bytes) /\
  match ring_adopted uerr total slot_bytes depth buffer_begin k_cuda_ring_bytes limit mapped with
  | (Val r, _) =>
      foldl (fun t f => cuda_on_frame true buffer_begin t (ring_slot r (fst f)) (snd f)) Tally_new frames =
        mkTally (u64 (Z.of_nat (length frames))) (u64 (total_size frames)) true
  | (Err _, total') => total' = total
  | (Fault, _) => False
  end.
Proof.
  split; [by apply client_configs_valid|]. split.
  { intros address size Ha Hz. by rewrite in_cuda_ring_exact, bool_decide_eq_true. }
  pose proof (ring_adopted_sound uerr total slot_bytes depth buffer_begin k_cuda_ring_bytes limit mapped Ht Hs Hd Hl
    ltac:(rewrite cuda_ring_bytes; unfold in_range; lia)) as Hsound.
  destruct (ring_adopted _ _ _ _ _ _ _ _) as [[r|e|] total'] eqn:E; [|exact Hsound|done]. clear Hsound.
  unfold ring_adopted, checked_caller_region in E. rewrite (proj2 (Z.eqb_neq depth 0)) in E by lia. cbn [negb andb] in E.
  destruct (uint64_max / depth <? slot_bytes) eqn:Hov; [done|]. apply product_fits in Hov; [|lia..].
  rewrite wrap_small in E by done. destruct (Z.ltb_spec k_cuda_ring_bytes (slot_bytes * depth)) as [|Hfits]; [done|].
  assert (rr_base r = buffer_begin /\ rr_stride r = slot_bytes) as [Hbase Hstride].
  { unfold adopted in E. destruct (acquire _ _ _ _) as [[reservation total1]|e|]; [|done..]. destruct mapped; [by injection E as <- _|].
    unfold memory_unwind in E. destruct (memory_release _ _) as [m2 t2]. by destruct (memory_release t2 m2). }
  induction frames as [|[i size] frames IH] using rev_ind; [done|]. apply Forall_app in Hf as [Hf Hlast].
  apply Forall_singleton in Hlast as [Hi Hz]. cbn [fst snd] in Hi, Hz. rewrite foldl_app, IH by done. cbn [foldl fst snd].
  assert (Z.of_nat i * slot_bytes + size <= k_cuda_ring_bytes) as Hin by nia.
  rewrite cuda_ring_bytes in He, Hin. unfold cuda_on_frame. rewrite in_cuda_ring_exact; unfold ring_slot; rewrite ?cuda_ring_bytes, ?Hbase, ?Hstride;
    [|unfold in_range; nia..]. rewrite bool_decide_eq_true_2 by nia. cbn [negb orb]. unfold count_frame. cbn [ty_frames ty_bytes ty_running].
  unfold total_size. rewrite fmap_app, foldr_app, length_app. cbn [fmap list_fmap foldr snd length].
  assert (forall l z, foldr Z.add z l = foldr Z.add 0 l + z) as Hsum by (intros l z; induction l as [|x l IHl]; cbn; lia).
  rewrite (Hsum _ (size + 0)). unfold u64, wrap. rewrite !Z.add_mod_idemp_l by lia. f_equal; f_equal; lia.
Qed.

Lemma cuda_client_counts_ring_frames_witness :
  match ring_adopted sample_ucx_error 1000 (2 ^ 28) 2 (2 ^ 40) k_cuda_ring_bytes (2 ^ 30) true with
  | (Val r, _) =>
      foldl (fun t f => cuda_on_frame true (2 ^ 40) t (ring_slot r (fst f)) (snd f)) Tally_new [(0%nat, 2 ^ 28); (1%nat, 2 ^ 28); (0%nat, 5)] =
        mkTally 3 (2 ^ 29 + 5) true
  | _ => False
  end.
Proof.
  pose proof (cuda_client_counts_ring_frames sample_ucx_error 1000 (2 ^ 40) (2 ^ 28) 2 (2 ^ 30) true (str "image")
    [(0%nat, 2 ^ 28); (1%nat, 2 ^ 28); (0%nat, 5)] eq_refl ltac:(lia) ltac:(by vm_compute) ltac:(by vm_compute) ltac:(by vm_compute)
    ltac:(lia) ltac:(lia) ltac:(repeat constructor; cbn; lia)) as (_ & _ & H).
  destruct (ring_adopted _ _ _ _ _ _ _ _) as [[r|e|] total'] eqn:E; [exact H|vm_compute in E; discriminate E..].
Defined.
