(* ===== verification/Pacing.v ===== *)
(** * The pace and the metrics of the example devices

    The schedule at the end of the acquisition loops of
    [src/examples/example_device/example_device.cpp] and
    [src/examples/example_hdf5_device/example_hdf5_device.cpp], and what the metrics thread
    of the latter reports.  Times are nanoseconds of the steady clock and a period is the
    whole number of them that [duration_cast] makes of [1 / rate]. *)
From stdpp Require Import list.
From S2P Require Import Prelude.
#[local] Open Scope Z_scope.

(** ** The schedule *)

(** After a frame, at [now]: the new [next_frame], and until when the loop sleeps.  Without
    a rate there is no schedule. *)
Definition pace (period : option Z) (next_frame now : Z) : Z * option Z :=
  match period with
  | Some p =>
      let next_frame := next_frame + p in
      if now <? next_frame then (next_frame, Some next_frame) else (now, None)
  | None => (now, None)
  end.

(** The turns of a loop that started with [next_frame]: when it comes to the schedule, and
    when it goes on -- not before it is due. *)
Fixpoint paced (period : option Z) (next_frame before : Z) (turns : list (Z * Z)) : Prop :=
  match turns with
  | [] => True
  | (now, resumed) :: turns =>
      let '(next_frame, until) := pace period next_frame now in
      before <= now /\ now <= resumed /\ default now until <= resumed /\ paced period next_frame resumed turns
  end.

Lemma pace_spec p next_frame now :
  let '(next', until) := pace (Some p) next_frame now in
  next' = Z.max (next_frame + p) now /\ default now until = next'.
Proof. cbn. destruct (Z.ltb_spec now (next_frame + p)); cbn; lia. Qed.

(** The loop after turn [i]. *)
Lemma paced_suffix p next_frame before turns i now resumed :
  paced (Some p) next_frame before turns -> turns !! i = Some (now, resumed) ->
  exists n, now <= n <= resumed /\ before <= now /\ paced (Some p) n resumed (drop (S i) turns).
Proof.
  revert next_frame before i. induction turns as [|[now0 resumed0] turns IH]; intros next_frame before i Hp Hi; [done|].
  cbn [paced] in Hp. pose proof (pace_spec p next_frame now0) as Hs. destruct (pace (Some p) next_frame now0) as [next' until].
  destruct Hs as [Hn Hu]. destruct Hp as (Hb & Hl & Hd & Hp). destruct i as [|i]; cbn in Hi.
  - injection Hi as -> ->. exists next'. rewrite skipn_cons, drop_0. split; [lia|done].
  - destruct (IH next' resumed0 i Hp Hi) as (n & Hin & Hbe & Hrest). exists n. split; [done|]. split; [lia|done].
Qed.

(** The schedule advances by a period at every turn, at least. *)
Lemma paced_advance p next_frame before turns k now resumed :
  paced (Some p) next_frame before turns -> turns !! k = Some (now, resumed) -> next_frame + (Z.of_nat k + 1) * p <= resumed.
Proof.
  revert next_frame before k. induction turns as [|[now0 resumed0] turns IH]; intros next_frame before k Hp Hk; [done|].
  cbn [paced] in Hp. pose proof (pace_spec p next_frame now0) as Hs. destruct (pace (Some p) next_frame now0) as [next' until].
  destruct Hs as [Hn Hu]. destruct Hp as (Hb & Hl & Hd & Hp). destruct k as [|k]; cbn in Hk; [injection Hk as -> ->; lia|].
  specialize (IH next' resumed0 k Hp Hk). nia.
Qed.

(** the devices keep to their rate. However long the frames take and however late the loop
    wakes, any frame and the one [k + 2] frames later are at least [k + 1] periods apart: a
    device that fell behind does not catch up with a burst.  A device that is never late
    does not drift: its sleeps end at whole periods from its start. *)
Theorem pacing_bounds_rate p start turns (Hp : 0 < p) (Ht : paced (Some p) start start turns) :
  (forall i k a b a' b', turns !! i = Some (a, a') -> turns !! (i + 2 + k)%nat = Some (b, b') -> a + (Z.of_nat k + 1) * p <= b) /\
  ((forall i now resumed, turns !! i = Some (now, resumed) -> now < start + (Z.of_nat i + 1) * p) ->
   forall i now resumed, turns !! i = Some (now, resumed) ->
     pace (Some p) (start + Z.of_nat i * p) now = (start + (Z.of_nat i + 1) * p, Some (start + (Z.of_nat i + 1) * p)) /\
     start + (Z.of_nat i + 1) * p <= resumed).
Proof.
  split.
  - intros i k a b a' b' Hi Hj. destruct (paced_suffix p start start turns i a a' Ht Hi) as (n & Hn & _ & Hrest).
    destruct (turns !! (i + 1 + k)%nat) as [[c c']|] eqn:Hc.
    2:{ apply lookup_ge_None_1 in Hc. apply lookup_lt_Some in Hj. lia. }
    pose proof (paced_advance p n a' (drop (S i) turns) k c c' Hrest) as Hadv. rewrite lookup_drop in Hadv.
    replace (S i + k)%nat with (i + 1 + k)%nat in Hadv by lia. specialize (Hadv Hc).
    destruct (paced_suffix p start start turns _ c c' Ht Hc) as (n' & Hn' & _ & Hrest').
    destruct (paced_suffix p n' c' _ 0%nat b b' Hrest') as (_ & _ & Hb & _); [|lia].
    rewrite lookup_drop. by replace (S (i + 1 + k) + 0)%nat with (i + 2 + k)%nat by lia.
  - intros Hearly i now resumed Hi. specialize (Hearly i now resumed Hi) as Hnow.
    split; [|by apply (paced_advance p start start turns i now resumed)].
    unfold pace. replace (start + Z.of_nat i * p + p) with (start + (Z.of_nat i + 1) * p) by lia.
    by rewrite (proj2 (Z.ltb_lt _ _)).
Qed.

(** A frame that takes three periods, and the two after it. *)
Definition sample_turns_paced : list (Z * Z) := [(5, 10); (42, 42); (43, 52); (55, 62)].
Lemma pacing_bounds_rate_witness : paced (Some 10) 0 0 sample_turns_paced /\ 5 + 2 * 10 <= 55.
Proof.
  assert (paced (Some 10) 0 0 sample_turns_paced) as H by (vm_compute; repeat split; discriminate). split; [exact H|].
  exact (proj1 (pacing_bounds_rate 10 0 sample_turns_paced ltac:(lia) H) 0%nat 1%nat 5 55 10 62 eq_refl eq_refl).
Defined.

(** ** Metrics *)

(** The counters the replay thread adds to, and the metrics thread in the middle of a line:
    what it has taken out so far. *)
Record MetricsLine : Type := mkMetricsLine { ml_frames : Z; ml_bytes : Z; ml_latencies : list Z }.
Inductive MetricsAt : Type :=
| MetricsWaits
| MetricsTakesBytes (frames : Z)
| MetricsTakesLatencies (frames bytes : Z).
Record Metrics : Type := mkMetrics {
  mt_published_frames : Z;
  mt_published_bytes : Z;
  mt_latencies : list Z;
  mt_at : MetricsAt;
  mt_lines : list MetricsLine
}.
Definition Metrics_new : Metrics := mkMetrics 0 0 [] MetricsWaits [].

(** [fetch_add] of the replay thread, a latency the loader measured, and the next access of
    the metrics thread -- two [exchange]s, and a [swap] with the mutex held. *)
Inductive MetricsEvent : Type := MvFrame | MvBytes (n : Z) | MvLatency (us : Z) | MvMetrics.
Definition metrics_event (s : Metrics) (ev : MetricsEvent) : Metrics :=
  match ev, mt_at s with
  | MvFrame, at_ => mkMetrics (u64 (mt_published_frames s + 1)) (mt_published_bytes s) (mt_latencies s) at_ (mt_lines s)
  | MvBytes n, at_ => mkMetrics (mt_published_frames s) (u64 (mt_published_bytes s + n)) (mt_latencies s) at_ (mt_lines s)
  | MvLatency us, at_ => mkMetrics (mt_published_frames s) (mt_published_bytes s) (mt_latencies s ++ [us]) at_ (mt_lines s)
  | MvMetrics, MetricsWaits =>
      mkMetrics 0 (mt_published_bytes s) (mt_latencies s) (MetricsTakesBytes (mt_published_frames s)) (mt_lines s)
  | MvMetrics, MetricsTakesBytes frames =>
      mkMetrics (mt_published_frames s) 0 (mt_latencies s) (MetricsTakesLatencies frames (mt_published_bytes s)) (mt_lines s)
  | MvMetrics, MetricsTakesLatencies frames bytes =>
      mkMetrics (mt_published_frames s) (mt_published_bytes s) [] MetricsWaits
        (mt_lines s ++ [mkMetricsLine frames bytes (mt_latencies s)])
  end.

Definition zsum (l : list Z) : Z := foldr Z.add 0 l.
Lemma zsum_app l k : zsum (l ++ k) = zsum l + zsum k.
Proof. unfold zsum. induction l as [|x l IH]; cbn; lia. Qed.
Definition frames_in_hand (a : MetricsAt) : Z :=
  match a with MetricsWaits => 0 | MetricsTakesBytes frames | MetricsTakesLatencies frames _ => frames end.
Definition bytes_in_hand (a : MetricsAt) : Z := match a with MetricsTakesLatencies _ bytes => bytes | _ => 0 end.
Definition frames_of (evs : list MetricsEvent) : Z := zsum ((fun ev => match ev with MvFrame => 1 | _ => 0 end) <$> evs).
Definition bytes_of (evs : list MetricsEvent) : Z := zsum ((fun ev => match ev with MvBytes n => n | _ => 0 end) <$> evs).
Definition latencies_of (evs : list MetricsEvent) : list Z := omap (fun ev => match ev with MvLatency us => Some us | _ => None end) evs.

Lemma mod_same a b c d M : a mod M = b mod M -> c - a = d - b -> c mod M = d mod M.
Proof.
  intros H Hd. replace c with (a + (d - b)) by lia. replace d with (b + (d - b)) at 2 by lia.
  by rewrite <-Zplus_mod_idemp_l, H, Zplus_mod_idemp_l.
Qed.

(** every frame is reported in exactly one line. However the accesses of the metrics
    thread fall between those of the others, what the lines say and what is still in the
    counters and in hand are together every frame and byte counted, and every latency
    measured, in order. *)
Theorem metrics_conserve evs :
  let s := foldl metrics_event Metrics_new evs in
  u64 (zsum (ml_frames <$> mt_lines s) + frames_in_hand (mt_at s) + mt_published_frames s) = u64 (frames_of evs) /\
  u64 (zsum (ml_bytes <$> mt_lines s) + bytes_in_hand (mt_at s) + mt_published_bytes s) = u64 (bytes_of evs) /\
  concat (ml_latencies <$> mt_lines s) ++ mt_latencies s = latencies_of evs.
Proof.
  cbv zeta. induction evs as [|ev evs IH] using rev_ind; [done|]. rewrite foldl_app. cbn [foldl].
  unfold frames_of, bytes_of, latencies_of in *. rewrite !fmap_app, !zsum_app, omap_app.
  destruct (foldl metrics_event Metrics_new evs) as [pf pb ls a lines]. cbn [mt_lines mt_at mt_published_frames mt_published_bytes mt_latencies] in IH.
  destruct IH as (Hf & Hb & Hl). unfold u64, wrap in *.
  destruct ev as [|n|us|]; [..|destruct a]; unfold metrics_event;
    cbn [mt_lines mt_at mt_published_frames mt_published_bytes mt_latencies frames_in_hand bytes_in_hand fmap list_fmap omap list_omap app] in *;
    rewrite ?fmap_app, ?zsum_app, ?concat_app; cbn [fmap list_fmap concat app ml_frames ml_bytes ml_latencies];
    rewrite ?app_nil_r, <-?Hl, <-?(assoc_L (++)); change (zsum []) with 0; rewrite ?app_nil_r.
  all: unfold zsum in *; cbn [foldr] in *; (split; [|split; [|done]]).
  all: unfold u64, wrap; rewrite ?Zplus_mod_idemp_r; first [apply (mod_same _ _ _ _ _ Hf); lia | apply (mod_same _ _ _ _ _ Hb); lia].
Qed.

(** A line that falls between the two additions of a frame counts the frame without its
    bytes; the next one has them. *)
Lemma line_splits_frame :
  mt_lines (foldl metrics_event Metrics_new [MvFrame; MvMetrics; MvMetrics; MvMetrics; MvBytes 100; MvMetrics; MvMetrics; MvMetrics]) =
    [mkMetricsLine 1 0 []; mkMetricsLine 0 100 []].
Proof. reflexivity. Qed.
